(* ===== verification/_CoqProject ===== *)
-Q . S2P
Prelude.v
Method.v
Bytes.v
Line.v
Timers.v
TimersWf.v
Clock.v
ClockOps.v
ClockMoves.v
ClockRun.v
ClockProps.v
TimersProps.v
FsLocks.v
FsLocksWf.v
FsLocksProps.v
FsPerm.v
FsPermProps.v
Transport.v
TransportProps.v
Rng.v
Calendar.v
TzZone.v
TzZoneProps.v
TzParse.v
TzParseProps.v
TzResolve.v
TzResolveProps.v
Mktime.v
MktimeProps.v
Netlink.v
Qdisc.v
QdiscProps.v
QdiscReplay.v
Packet.v
PacketProps.v
NetPolicy.v
NetPolicyProps.v
SockBuf.v
RxQueue.v
RxQueueProps.v
Pipe.v
PipeProps.v
PipeStream.v
Owners.v
Sched.v
SchedWf.v
SchedWake.v
SchedSys.v
SchedInv.v
SchedOps.v
SchedCalls.v
SchedBaton.v
SchedProps.v
Pending.v
FsData.v
FsDataProps.v
FsTree.v
FsCalls.v
FsFds.v
FsSys.v
FsInv.v
FsInvCalls.v
FsProps.v
FsLinks.v
FsLinkCalls.v
FsLinkProps.v
FsIo.v
FsWalkProps.v
IpAddr.v
Link.v
Netif.v
NetifProps.v
RouteProps.v
Deliver.v
DeliverProps.v
Ports.v
PortsProps.v
RegistryProps.v
Listen.v
Connect.v
