(* ===== verification/Prelude.v ===== *)
(** * A verification of snare

    snare runs a Rust program in a simulation of its operating system, inside the program's own
    process: crates/snare-interpose hooks the C library and the Windows API and routes each call to
    the layers of the sim its thread belongs to; crates/snare holds the layers, a virtual clock, a
    simulated network, files, randomness and limits, and the [Sim] and [SimHost] that put them
    together; crates/cargo-snare sets projects up; shims/ holds forks of third-party crates. The
    library models the parts that decide what the code under test observes and that are their own
    logic rather than calls into the host, and proves what makes each correct.

    ** The parts modelled, and where

    - [Line], [Timers], [Clock], [ClockOps]: crates/snare/src/clock.rs, the clock a sim runs on.
      [Line] is the line through real time and the rates; [Timers] the timer tables, their wakers
      and owners; [Clock] the state of [struct Clock] (its atomics as the records [dial], [setup],
      [tables] and [pace]) with the operations that read and write the dial and fire timers;
      [ClockOps] the rest of [impl Clock]: dormancy and outside holds, registrations, charges,
      spins, sleeps, time skips and idle waits. [ClockMoves] and [ClockRun] hold how each operation
      moves the clock and the runs over all of them; [TimersWf] the tables' invariant.
    - [FsLocks]: crates/snare/src/fs_locks.rs, the record locks and flocks of an inode
      ([Table::set], [span], [Locks::fcntl], [Locks::flock], the releases, and the retries of a
      call that waits); [FsLocksWf] their invariant.
    - [FsPerm]: crates/snare/src/fs_perm.rs, the permission rules of the simulated files.
    - [FsData], [FsTree], [FsCalls], [FsFds], [FsSys]: crates/snare/src/fs_sim.rs, the simulated file
      system [Vfs]. [FsData] is a file's pages ([SparseFile]) over the room of its [Volume], and the
      tables of descriptors that share an open file; [FsTree] paths, nodes, inodes, the rules that
      claim or deny a path and the walk of a path through links; [FsCalls] the calls on paths,
      [FsFds] those on descriptors and getdents64(2); [FsSys] the builder and what it declares, the
      calls as steps ([Call], [handle]), the runs over them and a sample the witnesses use.
    - [Transport]: crates/snare/src/tcp_transport.rs, segmentation and the receive window of a
      simulated TCP stream.
    - [Rng]: [SplitMix64] of crates/snare/src/netpolicy.rs and the [RandomLayer] of
      crates/snare/src/random.rs.
    - [Calendar], [TzZone], [TzParse], [TzResolve]: crates/snare-interpose/src/os/tz.rs, local time
      for a sim that decides its own zone: dates, TZ rules and zones, the TZ string and TZif
      parsers, the resolution of a setting with its cache, tzset(3)'s names and localtime_r(3).
    - [Mktime]: the glibc half of crates/snare-interpose/src/os/tz_mktime.rs and [make_time].
    - [Method] and [Bytes]: what the network parts share. [Method] is the monad of a fallible method
      on [&mut self]: a value, an error number or a panic, with the state it leaves; [Bytes] the
      integers in bytes, attribute fields, UTF-8 checks and lossy text.
    - [Netlink], [Qdisc]: the netlink messages and the traffic-control requests of
      crates/snare/src/simhost.rs, and the qdisc tables of crates/snare/src/qdisc.rs.
    - [Packet]: crates/snare/src/packet.rs, the framings a tester speaks (lines, delimiters, length
      fields), with the loops of crates/snare/src/tester.rs that parse what arrives.
    - [NetPolicy]: crates/snare/src/netpolicy.rs, what the link does to a datagram or a connection
      (delay, jitter, loss, copies, stalls), and [link_deliveries] of crates/snare/src/netif.rs.
    - [SockBuf], [RxQueue]: crates/snare/src/limits.rs, what a socket's buffers hold and charge, and
      the receive queue of a datagram socket, with the error reports of crates/snare/src/sockets.rs
      that share its buffer and the counters of crates/snare/src/netstats.rs.
    - [Pipe]: crates/snare/src/stream.rs, one direction of a byte stream on the three hosts:
      bytes in flight, landed and read, the window, and how a stream ends.
    - [IpAddr], [Link], [Netif], [Deliver]: crates/snare/src/netif.rs, the network around the host.
      [IpAddr] is [IpNet] and the forms an address takes; [Link] the link of an interface
      ([LinkState]), with the changes scheduled for it; [Netif] the [Topology] of interfaces and
      routes, the way out of the host ([lpm], [egress]) and every change a test makes to it;
      [Deliver] who receives a datagram ([fan_out], [fan_out_one], [pick_shared]) and what the
      interfaces count.
    - [Ports], [Listen]: the registries of crates/snare/src/fabric.rs. [Ports] is the set of
      ephemeral ports taken ([UdpPorts]), the datagram sockets by address and port ([UdpRegistry])
      and when a bind collides with what another socket claims ([bind_conflict], [dgram_claim]);
      [Listen] the listeners
      ([Listeners]), the one a connect reaches ([listener_for]) and a listener's backlog.
    - [Connect]: crates/snare/src/faults.rs, how a connect waits: how an address answers a SYN
      ([syn_probe], and [syn_answer] of fabric.rs), the plan of the host ([SynPlan]) and the
      attempt that follows it ([ConnectAttempt]).
    - [Sched], [SchedSys]: crates/snare-interpose/src/sched.rs on Linux, the schedule of a
      deterministic sim. [Sched] has its state ([State], [Slot], [Blocked]) and what each call does
      with the state locked; [SchedSys] the threads around it: where each stands ([Pc]), the calls
      as acts ([Act]) and the runs over them. [Owners] is its table of mutex holders, and [Pending]
      the queue of crates/snare-interpose/src/pending.rs, each atomic access a step of its own.

    The parts meet as in the source: the clock calls the tables and the line; the random layer and
    the policies the generator; [resolve] the two parsers, [break_down] the zone and the calendar,
    [mktime] [break_down]; the qdisc requests the attribute search; the receive queue the socket
    buffer; the pipe the socket buffers of its ends and the transport; the file system the locks of
    its inodes and the permission rules; the topology the links of its interfaces, a delivery the
    topology and the policies, the registries the candidates of a delivery and its choice among
    sockets at one address; a SYN the topology, the listener it reaches and its backlog; the
    schedule the table of mutex holders, and queues for it in two [Pending]s, which [Sched] takes as the lists they
    are shown to be.

    ** What the theorems show

    - Clock ([ClockProps], [TimersProps], [Line]): positions and readings never go back
      over any run of any operations; [begin] continues the process's timeline; a rate runs from
      the reading it is set at; a time skip lands just past the next deadline, never past one, nor
      past what real time allows a dormant clock; a spin never overruns a timer and always moves;
      a charge stays within a grant; an idle wait on a scaled clock sleeps long enough; the timer
      tables never panic and hold exactly the wakes of a map; firing delivers each waker once and
      in order; the inline owner vector is a list; [real_at] is the earliest instant, and where it
      is not.
    - Locks ([FsLocksProps]): over any interleaving of calls, waits and retries conflicting locks
      never coexist, a lock changes exactly the bytes it names, F_GETLK agrees with F_SETLK, no call
      that frees a waiter fails to wake it, and [span] names POSIX's range; and how two waiting
      calls of one description both get a flock on Linux.
    - Permissions ([FsPermProps]): a caller is granted its own class's bits, and no sequence of
      unprivileged calls gains a node rights.
    - Files ([FsProps], [FsLinkProps], [FsIo], [FsDataProps], [FsWalkProps]): over any run
      of calls on any file system a builder declares, every name, descriptor and stream refers to an inode of the right kind, the volume's use is that of its files and
      nothing dead is kept ([FsInv], [FsInvCalls] hold the invariant); every inode's
      link count is its number of names ([FsLinks], [FsLinkCalls]); a rename moves
      exactly what lies under the old name; what is written is what is read; sparse pages are the
      plain bytes they stand for; the path realpath(3) answers resolves to itself; getdents64(2)
      lists each entry of a directory whose names fit a record once, whatever the buffers; and a duplicate onto itself that
      loses a directory stream.
    - Transport ([TransportProps]): nothing panics, the bytes sent are the bytes written in order,
      the window is respected and never taken back, and draining ends with all that fits sent.
    - Randomness ([Rng]): the generator has full period and each thread's stream is its own.
    - Local time ([TzZoneProps], [TzParseProps], [TzResolveProps], [MktimeProps]): the
      calendar conversions are inverse; a rule names the day it says; a zone has the type of its
      latest transition; TZ strings give exactly the valid rules and round trip; whatever the files
      hold, every lookup of the resolved zone is there; the cache is invisible; localtime_r(3)
      fills in the instant's fields or fails exactly when the year does not fit; mktime(3), in a
      zone of one standard and one daylight offset (the interface [TwoOffsets], which the zone of
      every TZ string meets), finds an instant with the local time asked for whenever there is
      one, for seconds between 0 and 59 and from any previous offset, and in any zone describes the instant it returns.

    - Traffic control ([QdiscProps], [QdiscReplay]): until the counter of automatic handles wraps,
      every sequence of requests keeps an interface's table well formed and leaves it alone when it
      fails; exactly when a request panics; the messages of a dump that carry a handle, sent back
      as requests, rebuild the table it was taken from.
    - Framing ([PacketProps]): the messages a tester sees do not depend on how the bytes were cut,
      and are the messages that were sent; the lines received are those of the stream, whatever
      its bytes; what [length_field] returns. The
      framings meet two interfaces, [Framing] and [WellFramed], which the theorems are stated on.
    - Policies ([NetPolicyProps]): each copy of a datagram is accounted for and
      delayed within its policies' bounds; bytes held by stalls arrive when the last one lets go.
    - Datagram sockets ([RxQueueProps]): over any run of sends, arrivals, losses and reads, of error
      reports queued, landed and read, and of changes of SO_RCVBUF, datagrams are received in
      arrival order, the buffer's account is exactly its queues, and the largest SO_RCVBUF bounds
      it on a Linux that enforces it.
    - Byte streams ([PipeProps], [PipeStream]): over any run of a pipe's operations nothing panics,
      and what is read is what was written, in order as long as no write goes round the transport
      while bytes wait in it; the end of the stream shows only after all
      of it; poll and read, poll and write agree; a write stays within the window; and two ways a
      stream goes wrong once its writer asks for timestamps.
    - The network around the host ([Link], [NetifProps], [RouteProps], [DeliverProps]): over any sim
      definition and any changes to its interfaces and routes nothing panics and the topology stays
      well formed, each interface with a link of its own and no route through one that is gone; a
      datagram is lost exactly when a change leaves the link it crosses down before it arrives,
      whenever the code looks; a lookup takes the longest prefix, then the preferred interface,
      then the metric, then the first; the path out goes through an interface that is up, from the
      bound address, by a route that covers the destination, and on Linux one is found, for a socket
      bound neither to a device nor to a loopback address, when there is one; a unicast datagram reaches one socket at most, bound at the destination or, failing
      that, at the wildcard; the counters grow by the copies that arrive and the frames that
      leave; and the shortcut for a lone candidate does what the general case does.
    - Ports and listeners ([PortsProps], [RegistryProps], [Listen]): the words of [UdpPorts] are a
      set of ports and [alloc] the first outside its sets; over any run of binds and closes the
      tables of [UdpRegistry] are those of the list of bindings and nothing panics, so the port
      picked is the first that nothing overlaps, and binding it collides with no socket that is
      where its bind put it, on any host under any options; over any run the tables of [Listeners] are those of the list of
      listeners, and a connect reaches one whenever one listens where it goes, the exact address
      before the wildcard before a dual-stack one; a backlog keeps to its capacity and is accepted
      in order.
    - Connects ([Connect]): on every host and under every option a socket can be given a connect
      waits only for an instant that a timer is armed for, and has an outcome once its plan ends; off Windows it
      settles at the first retransmission that is answered or at the end of its plan, however it
      is polled.
    - The schedule ([SchedProps], [SchedWake]): over any run of the
      threads' calls, dispatches and outside wakes, at most one scheduled thread runs and it holds
      the baton, the tables and counts are right, no parked thread is left without a reason to wait
      or a grant, the baton passes only where its holder waits or leaves and goes round in order,
      and a wake reaches the oldest waiters. The theorems on who runs leave out the runs with one of
      four calls that leave a thread behind ([leaves_behind]), of each of which there is a run to
      see, and do not count the threads the schedule let go or, at their first act, let through
      while it was detached. [SchedWf], [SchedInv], [SchedOps], [SchedCalls]
      and [SchedBaton] hold the invariant. [Owners]: the table answers as a finite map.
      [Pending]: over any interleaving, queued changes are applied once, in the order of their
      tickets, and a drain takes all that was queued before it.

    Each file of theorems works with the invariant and lemmas of its component; the abstract
    specifications are plain lists, finite maps and byte sets ([TimersProps], [FsLocksProps],
    [TransportProps]), a step-indexed run ([ClockRun]) and linear seconds ([TzZoneProps], [MktimeProps]).

    ** Conventions

    A w-bit integer is a [Z]; saturating, wrapping and checked operations are written out (below),
    and a plain [+] or [*] of the source, which panics or cannot overflow, is the exact one: the
    model speaks of the runs where it does not overflow. A panic on an index or an [unwrap] is
    [None] where a theorem shows it is not reached. [cfg!(target_os = ...)] is an argument
    [os : target_os]. What a function takes from outside, a sample of real time, the caller's
    lineage, whether a lock was free, the host's files, is an argument. An operation that runs under
    [Clock::control] or a table's mutex is one step. [f64] rates are rationals or infinity.

    Fuel: [Transport.window_scale] takes at most seven doublings and [Rng.fill] one turn per eight
    bytes; [Mktime.probe] takes the source's own six probes, [Mktime.bisect] 65 turns (the distance
    between two [i64]s halves) and [Mktime.hunt] 382 strides ([mktime_loops_end] shows both end by
    themselves); [TzZone.step_back] one turn per week; [TzZone.partition_loop] one per element;
    the drain of [TransportProps.drains] and [Pipe.transmit] one segment per byte queued;
    [Pipe.read] one turn per byte of room; [Netlink.find_from] and [Packet.take_messages] one turn
    per byte, since an attribute or a message has one at least; [NetPolicy.arrive_after] one turn
    per stall window; [SockBuf.fragments] one per byte carried;
    [RxQueue.land_reports] one per report not yet charged ([land_reports_lands]); [Owners.find_loop] and
    [remove_loop] one turn per slot, since one is always free ([owners_refine_map]);
    [FsData]'s loops one turn per byte at most, since a turn covers a part of a page; the walk of a
    path is structural in its components and in the links left, 40 or 32 as the host allows;
    [FsIo.read_dir] one call per entry and one more, [parse_dents] one turn per byte;
    [Ports.find_from] one turn per word of the range, 256, and [Ports.skip_full] one per word held;
    [Deliver.account_segments] one per byte, a segment having one at least; [Netif.free_index] looks
    at one index more than there are interfaces; [Connect.poll] one turn per point of the plan that
    can have come ([budget]), five for each retransmission with the looks a reset draws on Windows;
    [Sched.disown_loop] one per mutex the table can hold; [Sched.dispatch_loop] one [Reading] per
    turn: the loop of the source has no bound, and a run that needs more readings than it is given
    is no run. [Pending] speaks of fewer than 2^62 tickets.

    Bytes are [Z]s and integers little-endian in them, the order of every host simulated. A draw of
    the link's generator is a numerator over 2^53 and a rate a rational. Instants are nanoseconds on
    one clock; the two clocks a [Deadline] may be on are not told apart. An [Arc] is a number: a
    [LinkState] is its place in the table [links] of the topology, a socket's queue and a listener
    are numbers. A look at a link first applies what has come due, which [Link.settled] reads
    without storing; [lost_with_the_link] shows that when it is stored does not matter.

    ** Not modelled

    The seqlock and the waker thread of clock.rs (interleavings below an operation), the
    Windows readiness indirection of [spin_step] and [advance_to_next_deadline] (a closure run by
    the readiness machinery), the waiting loop of [Clock::sleep] and of [fs_locks::wait] (their
    attempts and retries are), [Credentials::of] and [current] (they read the sim's settings), tzcode's
    mktime and the strftime(3) rewriting of os/tz.rs; of the network, the blocking loop of
    [Pipe::send], the timestamp reports and capture hooks of a pipe, the exact-time lookups of a
    receive queue that serve macOS's shutdown, the link, address and route dumps, the restarts of an
    adapter on Windows, the text of an [IpNet], the socket options and segment checks of netif.rs,
    the calls that gather the claims of a fabric's sockets, the socket records that errors and ICMP messages are
    raised on, and a test's quiescing of a socket; of the schedule, how long a parked thread spins before it sleeps, the capacities reserved before the lock is
    taken, and the shared holders of Windows locks; of the files, contents backed by a mapping, the
    chain of several file systems, host times and the byte layouts of stat, statx and statfs (glob
    patterns are predicates, the host's descriptors and its working directory arguments); and every other file: the interposer's hooks, detours and patching, the socket calls of the fabric,
    devices, process limits, signals, capture files, the Windows host, the CLI and
    the shims: they translate the host's calls and structures, or need a model of the host they run
    on. What could be modelled next is tzcode's mktime and strftime, the readiness registry and the
    executive, and the socket calls over the registries of [Ports] and [Listen].

    This file holds the shared arithmetic, tactics and lemmas on lists and ordered maps. *)

From Stdlib Require Export ZArith Lia Bool.
From Stdlib Require Import ZifyClasses ZifyInst.
From stdpp Require Export base strings numbers gmap sorting list_numbers list.
#[export] Set Default Goal Selector "!".
#[global] Open Scope Z_scope.

(** ** The host the crate is built for: [cfg!(target_os = ...)]. *)

Inductive target_os := Linux | MacOs | Windows.

#[export] Instance target_os_eq_dec : EqDecision target_os.
Proof. solve_decision. Defined.

Definition is_linux (os : target_os) : bool := bool_decide (os = Linux).
Definition is_macos (os : target_os) : bool := bool_decide (os = MacOs).
Definition is_windows (os : target_os) : bool := bool_decide (os = Windows).

(** The error numbers of the calls modelled in this development. *)
Inductive errno :=
  | EPERM | ENOENT | EINTR | EBADF | EAGAIN | EACCES | EFAULT | EEXIST | ENODEV | EINVAL | EPIPE
  | EOVERFLOW | EOPNOTSUPP | ECONNRESET | ENOBUFS | EWOULDBLOCK | ETIMEDOUT | ENOTSUPP | ECONNREFUSED | ECONNABORTED | ENOTCONN
  | ENOTDIR | EISDIR | ENOTEMPTY | EBUSY | ELOOP | EXDEV | EFBIG | ENOSPC | ENOMEM | EMFILE | ERANGE | ENAMETOOLONG
  | ENETUNREACH | EHOSTUNREACH | EADDRNOTAVAIL | ENETDOWN | EMSGSIZE | EADDRINUSE.

#[export] Instance errno_eq_dec : EqDecision errno.
Proof. solve_decision. Defined.

(** ** Machine integers

    A [w]-bit integer is a [Z]; the operations that saturate, wrap or fail in the source are
    written out here. *)

Abbreviation u64_max := 18446744073709551615%Z.
Abbreviation u32_max := 4294967295%Z.
Abbreviation i64_min := (-9223372036854775808)%Z.
Abbreviation i64_max := 9223372036854775807%Z.
Abbreviation i32_min := (-2147483648)%Z.
Abbreviation i32_max := 2147483647%Z.

Abbreviation is_u64 x := (0 ≤ x ≤ u64_max)%Z (only parsing).
Abbreviation is_i64 x := (i64_min ≤ x ≤ i64_max)%Z (only parsing).

(** [u64::saturating_add] and [u64::saturating_sub] *)
Definition sat_add (a b : Z) : Z := Z.min (a + b) u64_max.
Definition sat_sub (a b : Z) : Z := Z.max 0 (a - b).
Definition sat_mul (a b : Z) : Z := Z.min (a * b) u64_max.
(** [div_ceil] on non-negative integers *)
Definition div_ceil (a b : Z) : Z := (a + (b - 1)) / b.
(** A [u64] modulo 2^64, and a two's complement [i64] or [i32]. *)
Definition wrap_u64 (x : Z) : Z := x mod 2 ^ 64.
Definition wrap_i64 (x : Z) : Z := (x + 2 ^ 63) mod 2 ^ 64 - 2 ^ 63.
Definition wrap_i32 (x : Z) : Z := (x + 2 ^ 31) mod 2 ^ 32 - 2 ^ 31.
(** [i64::checked_add] *)
Definition in_i64 (x : Z) : bool := (i64_min <=? x) && (x <=? i64_max).
Definition in_i32 (x : Z) : bool := (i32_min <=? x) && (x <=? i32_max).
Definition checked_add_i64 (a b : Z) : option Z :=
  if in_i64 (a + b) then Some (a + b) else None.
Definition checked_sub_i64 (a b : Z) : option Z :=
  if in_i64 (a - b) then Some (a - b) else None.
(** [i64::from(bool)] *)
Definition b2z (b : bool) : Z := if b then 1 else 0.

Definition u64b (x : Z) : bool := (0 <=? x) && (x <=? u64_max).

Lemma u64b_ok x : u64b x = true → is_u64 x.
Proof. unfold u64b. rewrite andb_true_iff, !Z.leb_le. tauto. Qed.

(** ** Tactics *)

(** Turns boolean comparisons in hypotheses and goal into propositions. *)
Ltac zbool :=
  repeat match goal with
  | H : context [Z.eqb ?a ?b] |- _ => destruct (Z.eqb_spec a b)
  | H : context [Z.leb ?a ?b] |- _ => destruct (Z.leb_spec a b)
  | H : context [Z.ltb ?a ?b] |- _ => destruct (Z.ltb_spec a b)
  | |- context [Z.eqb ?a ?b] => destruct (Z.eqb_spec a b)
  | |- context [Z.leb ?a ?b] => destruct (Z.leb_spec a b)
  | |- context [Z.ltb ?a ?b] => destruct (Z.ltb_spec a b)
  end.

(** [lia] after quotients and remainders are replaced by their defining equations. *)
Ltac dlia := Z.to_euclidean_division_equations; lia.

(** [lia] over the saturating operations. *)
#[global] Instance sat_add_op : BinOp sat_add :=
  { TBOp a b := Z.min (a + b) u64_max; TBOpInj _ _ := eq_refl }.
#[global] Instance sat_sub_op : BinOp sat_sub :=
  { TBOp a b := Z.max 0 (a - b); TBOpInj _ _ := eq_refl }.
Add Zify BinOp sat_add_op.
Add Zify BinOp sat_sub_op.

Create HintDb snare discriminated.

(** ** Integers *)

Lemma sat_add_u64 a b : is_u64 a → 0 ≤ b → is_u64 (sat_add a b).
Proof. lia. Qed.
Lemma sat_sub_u64 a b : is_u64 a → 0 ≤ b → is_u64 (sat_sub a b).
Proof. lia. Qed.
Lemma sat_add_ge a b : is_u64 a → 0 ≤ b → a ≤ sat_add a b.
Proof. lia. Qed.
Lemma max_u64 a b : is_u64 a → is_u64 b → is_u64 (Z.max a b).
Proof. lia. Qed.
Lemma min_u64 a b : is_u64 a → is_u64 b → is_u64 (Z.min a b).
Proof. lia. Qed.

#[export] Hint Resolve sat_add_u64 sat_sub_u64 sat_add_ge max_u64 min_u64 : snare.

Lemma div_ceil_spec a b : 0 ≤ a → 0 < b →
  b * div_ceil a b >= a ∧ b * (div_ceil a b - 1) < a ∧ 0 ≤ div_ceil a b.
Proof.
  intros Ha Hb. unfold div_ceil.
  pose proof (Z.div_mod (a + (b - 1)) b ltac:(lia)).
  pose proof (Z.mod_pos_bound (a + (b - 1)) b Hb).
  pose proof (Z.div_pos (a + (b - 1)) b ltac:(lia) Hb). nia.
Qed.

Lemma div_ceil_le a b c : 0 ≤ a → 0 < b → a ≤ b * c → div_ceil a b ≤ c.
Proof. intros Ha Hb Hc. destruct (div_ceil_spec a b Ha Hb). nia. Qed.

(** ** Lists *)

(** [Vec::swap_remove(i)]: the last element takes the place of the removed one. Out of range it
    panics; the model returns the list unchanged there, and no caller gets there. *)
Definition swap_remove {A} (i : nat) (l : list A) : list A :=
  match last l with
  | Some x => take (length l - 1) (<[i:=x]> l)
  | None => l
  end.

Lemma take_app_last {A} (l : list A) x : take (length (l ++ [x]) - 1) (l ++ [x]) = l.
Proof.
  rewrite length_app, Nat.add_sub. apply take_app_length.
Qed.

Lemma swap_remove_snoc {A} i (l : list A) x :
  swap_remove i (l ++ [x]) = if decide (i = length l) then l else <[i:=x]> l.
Proof.
  unfold swap_remove. rewrite last_snoc, length_app, Nat.add_sub.
  case_decide as Hi.
  - subst i. rewrite insert_app_r_alt by lia. by rewrite take_app_length.
  - destruct (decide (i < length l)%nat).
    + rewrite insert_app_l by done. rewrite <- (length_insert l i x) at 1. apply take_app_length.
    + rewrite list_insert_ge by (rewrite length_app; simpl; lia).
      rewrite (list_insert_ge l) by lia. apply take_app_length.
Qed.

Lemma swap_remove_lookup {A} (l : list A) i j :
  (i < length l)%nat → (j < length l - 1)%nat →
  swap_remove i l !! j = if decide (j = i) then last l else l !! j.
Proof.
  intros Hi Hj. induction l as [|x l _] using rev_ind; [simpl in *; lia|].
  rewrite length_app in *; simpl in *. rewrite swap_remove_snoc, last_snoc.
  repeat case_decide; subst; try lia.
  - rewrite lookup_app_l by lia. done.
  - rewrite list_lookup_insert_eq by lia. done.
  - rewrite list_lookup_insert_ne by done. rewrite lookup_app_l by lia. done.
Qed.

Lemma length_swap_remove {A} (l : list A) i :
  length (swap_remove i l) = (length l - 1)%nat.
Proof.
  induction l as [|x l _] using rev_ind; [done|].
  rewrite swap_remove_snoc, length_app; simpl. case_decide; rewrite ?length_insert; lia.
Qed.

Lemma swap_remove_Permutation {A} (l : list A) i x :
  l !! i = Some x → l ≡ₚ x :: swap_remove i l.
Proof.
  intros Hi. pose proof (lookup_lt_Some _ _ _ Hi) as Hlt.
  destruct l as [|y l _] using rev_ind; [done|].
  rewrite swap_remove_snoc. rewrite length_app in Hlt. simpl in Hlt. case_decide as Hd.
  - subst i. rewrite list_lookup_middle in Hi by done. simplify_eq. symmetry. apply Permutation_cons_append.
  - rewrite lookup_app_l in Hi by lia. rewrite <- (take_drop_middle l i x Hi) at 1.
    rewrite (insert_take_drop l i y) by lia.
    rewrite (Permutation_app_comm _ [y]). simpl.
    rewrite <- !Permutation_middle. apply Permutation_swap.
Qed.

(** The position of the first element with [p], as [Iterator::position]. *)
Fixpoint position {A} (p : A → bool) (l : list A) : option nat :=
  match l with
  | [] => None
  | x :: l => if p x then Some 0%nat else S <$> position p l
  end.

Lemma position_Some {A} (p : A → bool) l i :
  position p l = Some i → ∃ x, l !! i = Some x ∧ p x = true.
Proof.
  revert i. induction l as [|x l IH]; intros i; [done|]. simpl.
  destruct (p x) eqn:Hp.
  - intros [= <-]. by exists x.
  - destruct (position p l) eqn:Hl; [|done]. simpl. intros [= <-]. by apply IH.
Qed.

Lemma position_first {A} (p : A → bool) l i :
  position p l = Some i ↔
  (∃ x, l !! i = Some x ∧ p x = true) ∧ ∀ j x, (j < i)%nat → l !! j = Some x → p x = false.
Proof.
  revert i. induction l as [|y l IH]; intros i; cbn [position].
  - split; [done|]. intros [(x & Hx & _) _]. done.
  - destruct (p y) eqn:Hy.
    + split.
      * intros [= <-]. split; [by exists y|]. lia.
      * intros [_ Hlt]. destruct i as [|i]; [done|]. rewrite (Hlt 0%nat y) in Hy; [done|lia|done].
    + destruct i as [|i].
      * split; [by destruct (position p l)|]. intros [(x & Hx & ?) _]. simplify_eq/=. congruence.
      * transitivity (position p l = Some i).
        { destruct (position p l); cbn; split; intros; simplify_eq; done. }
        rewrite IH. split; intros [Hx Hlt]; (split; [done|]).
        -- intros [|j] x Hj Hl; simplify_eq/=; [done|]. apply (Hlt j); [lia|done].
        -- intros j x Hj Hl. apply (Hlt (S j)); [lia|done].
Qed.

Lemma position_None {A} (p : A → bool) l : position p l = None → ∀ x, x ∈ l → p x = false.
Proof.
  induction l as [|y l IH]; simpl; [by intros _ ? ?%elem_of_nil|]. destruct (p y) eqn:E; [done|].
  destruct (position p l); [done|]. intros _ x [->|Hx]%elem_of_cons; auto.
Qed.

(** The first element with [p], as [Iterator::find]. *)
Fixpoint find_first {A} (p : A → bool) (l : list A) : option A :=
  match l with
  | [] => None
  | x :: l => if p x then Some x else find_first p l
  end.

Lemma find_first_Some {A} (p : A → bool) l x :
  find_first p l = Some x → x ∈ l ∧ p x = true.
Proof.
  induction l as [|y l IH]; simpl; [done|]. destruct (p y) eqn:Hp.
  - intros [= ->]. split; [apply elem_of_cons; by left|done].
  - intros H. destruct (IH H). split; [apply elem_of_cons; by right|done].
Qed.

Lemma find_first_None {A} (p : A → bool) l :
  find_first p l = None ↔ ∀ x, x ∈ l → p x = false.
Proof.
  induction l as [|y l IH]; simpl.
  - split; [|done]. intros _ x Hx. by apply elem_of_nil in Hx.
  - destruct (p y) eqn:Hp.
    + split; [done|]. intros H. rewrite (H y) in Hp; [done|]. apply elem_of_cons. by left.
    + rewrite IH. split; intros H x.
      * intros [->|?]%elem_of_cons; auto.
      * intros Hx. apply H, elem_of_cons. by right.
Qed.

(** The elements [p] keeps, as [Vec::retain]. *)
Fixpoint retain {A} (p : A → bool) (l : list A) : list A :=
  match l with
  | [] => []
  | x :: l => if p x then x :: retain p l else retain p l
  end.

Lemma elem_of_retain {A} (p : A → bool) l x : x ∈ retain p l ↔ x ∈ l ∧ p x = true.
Proof.
  induction l as [|y l IH]; simpl.
  - rewrite !elem_of_nil. tauto.
  - destruct (p y) eqn:Hp; rewrite ?elem_of_cons, IH; split.
    + intros [->|[? ?]]; auto.
    + intros [[->|?] ?]; auto.
    + intros [? ?]; auto.
    + intros [[->|?] ?]; [congruence|auto].
Qed.

Lemma retain_app {A} (p : A → bool) l k : retain p (l ++ k) = retain p l ++ retain p k.
Proof. induction l as [|x l IH]; simpl; [done|]. destruct (p x); simpl; by rewrite IH. Qed.

Lemma retain_all {A} (p : A → bool) l : (∀ x, x ∈ l → p x = true) → retain p l = l.
Proof.
  induction l as [|x l IH]; intros H; [done|]. simpl.
  rewrite H by (apply elem_of_cons; by left). f_equal. apply IH. intros y Hy.
  apply H, elem_of_cons. by right.
Qed.

Lemma retain_none {A} (p : A → bool) l : (∀ x, x ∈ l → p x = false) → retain p l = [].
Proof.
  induction l as [|x l IH]; intros H; [done|]. simpl.
  rewrite H by (apply elem_of_cons; by left). apply IH. intros y Hy. apply H, elem_of_cons. by right.
Qed.

Lemma retain_perm {A} (p : A → bool) l k : l ≡ₚ k → retain p l ≡ₚ retain p k.
Proof. induction 1 as [|x l k _ IH|x y l|l k m _ IH1 _ IH2]; cbn; [done| | |by rewrite IH1]; repeat destruct (p _); try done; [by constructor|constructor]. Qed.
Lemma length_retain {A} (p : A → bool) l : (length (retain p l) ≤ length l)%nat.
Proof. induction l as [|x l IH]; simpl; [lia|]. destruct (p x); simpl; lia. Qed.

(** ** Ordered maps

    A [BTreeMap<u64, V>] is a [gmap Z V] with its keys listed in order. *)

Section ordered_map.
Context {V : Type}.
Implicit Types (m : gmap Z V) (k n : Z).

Definition keys m : list Z := merge_sort Z.le ((map_to_list m).*1).

Lemma elem_of_keys m k : k ∈ keys m ↔ is_Some (m !! k).
Proof.
  unfold keys. rewrite (merge_sort_Permutation Z.le), list_elem_of_fmap.
  split.
  - intros ([k' v] & -> & Hv%elem_of_map_to_list). by exists v.
  - intros [v Hv]. exists (k, v). split; [done|]. by apply elem_of_map_to_list.
Qed.

Lemma keys_sorted m : StronglySorted Z.le (keys m).
Proof. apply (StronglySorted_merge_sort Z.le). Qed.

Lemma keys_NoDup m : NoDup (keys m).
Proof.
  unfold keys. rewrite (merge_sort_Permutation Z.le). apply NoDup_fst_map_to_list.
Qed.

(** [range(..=n)] and [range(n..)], in order. *)
Definition keys_upto m n : list Z := retain (λ k, k <=? n) (keys m).
Definition keys_from m n : list Z := retain (λ k, n <=? k) (keys m).
(** [range(n..).next()] *)
Definition first_from m n : option Z := head (keys_from m n).
(** [first_key_value()] *)
Definition first_key m : option Z := head (keys m).
(** [split_off(&n)]: the part from [n] on. *)
Definition split_off m n : gmap Z V * gmap Z V :=
  (filter (λ kv, kv.1 < n) m, filter (λ kv, n ≤ kv.1) m).

Lemma elem_of_keys_upto m n k : k ∈ keys_upto m n ↔ is_Some (m !! k) ∧ k ≤ n.
Proof. unfold keys_upto. by rewrite elem_of_retain, elem_of_keys, Z.leb_le. Qed.

Lemma elem_of_keys_from m n k : k ∈ keys_from m n ↔ is_Some (m !! k) ∧ n ≤ k.
Proof. unfold keys_from. by rewrite elem_of_retain, elem_of_keys, Z.leb_le. Qed.

Lemma retain_sorted (p : Z → bool) l : StronglySorted Z.le l → StronglySorted Z.le (retain p l).
Proof.
  induction 1 as [|x l Hl IH Hx]; simpl; [constructor|]. destruct (p x); [|done].
  constructor; [done|]. rewrite list.Forall_forall in *. intros y [Hy _]%elem_of_retain. auto.
Qed.

Lemma head_least l k : StronglySorted Z.le l → head l = Some k →
  k ∈ l ∧ ∀ j, j ∈ l → k ≤ j.
Proof.
  intros Hs Hk. destruct l as [|x l]; [done|]. simplify_eq/=. split; [apply elem_of_cons; by left|].
  inversion Hs as [|? ? ? Hx]; subst. rewrite list.Forall_forall in Hx.
  intros j [->|Hj]%elem_of_cons; [lia|auto].
Qed.

Lemma first_from_Some m n k :
  first_from m n = Some k ↔
  is_Some (m !! k) ∧ n ≤ k ∧ ∀ j, is_Some (m !! j) → n ≤ j → k ≤ j.
Proof.
  unfold first_from. split.
  - intros H. apply head_least in H; [|apply retain_sorted, keys_sorted].
    destruct H as [Hk Hmin]. apply elem_of_keys_from in Hk as [? ?].
    split_and!; [done..|]. intros j Hj Hn. apply Hmin. by apply elem_of_keys_from.
  - intros (Hk & Hn & Hmin). destruct (head (keys_from m n)) as [j|] eqn:Hj.
    + apply head_least in Hj; [|apply retain_sorted, keys_sorted]. destruct Hj as [Hj Hle].
      pose proof (Hle k ltac:(by apply elem_of_keys_from)).
      apply elem_of_keys_from in Hj as [? ?]. f_equal. specialize (Hmin j). apply Z.le_antisymm; auto.
    + apply head_None in Hj.
      assert (k ∈ keys_from m n) as Hin by by apply elem_of_keys_from.
      rewrite Hj in Hin. by apply elem_of_nil in Hin.
Qed.

Lemma first_from_None m n :
  first_from m n = None ↔ ∀ j, is_Some (m !! j) → j < n.
Proof.
  unfold first_from. rewrite head_None. split.
  - intros H j Hj. destruct (Z.lt_ge_cases j n) as [|Hn]; [done|].
    assert (j ∈ keys_from m n) as Hin by by apply elem_of_keys_from.
    rewrite H in Hin. by apply elem_of_nil in Hin.
  - intros H. destruct (keys_from m n) as [|j l] eqn:E; [done|].
    assert (j ∈ keys_from m n) as [Hj Hn]%elem_of_keys_from by (rewrite E; apply elem_of_cons; by left).
    specialize (H j Hj). lia.
Qed.

Lemma first_key_Some m k :
  first_key m = Some k → is_Some (m !! k) ∧ ∀ j, is_Some (m !! j) → k ≤ j.
Proof.
  intros H. apply head_least in H; [|apply keys_sorted]. destruct H as [Hk Hmin].
  split; [by apply elem_of_keys|]. intros j Hj. apply Hmin. by apply elem_of_keys.
Qed.

Lemma first_key_None m : first_key m = None ↔ m = ∅.
Proof.
  unfold first_key. rewrite head_None. split.
  - intros H. apply map_empty. intros k. destruct (m !! k) as [v|] eqn:E; [|done].
    assert (k ∈ keys m) as Hin by (apply elem_of_keys; by exists v).
    rewrite H in Hin. by apply elem_of_nil in Hin.
  - intros ->. done.
Qed.

End ordered_map.
