(* ===== verification/Method.v ===== *)
(** * Fallible stateful code

    A method on [&mut self] that returns [Result<T, c_int>]: it ends with a value, an error number
    or a panic, and leaves a state behind in each case. The monad, its operations, and the rules
    by which a property of the outcome and the state is shown of a method one statement at a time. *)

From S2P Require Import Prelude.

Inductive outcome (A : Type) := Ok (a : A) | Err (e : errno) | Panic.
Arguments Ok {A} a.
Arguments Err {A} e.
Arguments Panic {A}.

Definition method (S A : Type) : Type := S → outcome A * S.

#[export] Instance method_ret {S} : MRet (method S) := λ A a s, (Ok a, s).
#[export] Instance method_bind {S} : MBind (method S) := λ A B f m s,
  match m s with
  | (Ok a, s) => f a s
  | (Err e, s) => (Err e, s)
  | (Panic, s) => (Panic, s)
  end.

Definition fail {S A} (e : errno) : method S A := λ s, (Err e, s).
Definition panic {S A} : method S A := λ s, (Panic, s).
Definition get {S A} (f : S → A) : method S A := λ s, (Ok (f s), s).
Definition update {S} (f : S → S) : method S unit := λ s, (Ok tt, f s).
(** [if b { return Err(e) }] *)
Definition fail_if {S} (b : bool) (e : errno) : method S unit := if b then fail e else mret tt.
(** [o.ok_or(e)?] *)
Definition ok_or {S A} (o : option A) (e : errno) : method S A :=
  match o with Some a => mret a | None => fail e end.
(** [o.unwrap()], [map[&key]] *)
Definition unwrap {S A} (o : option A) : method S A :=
  match o with Some a => mret a | None => panic end.

(** [Result] into the method's early return, [r?] *)
Definition lift {S A} (r : errno + A) : method S A :=
  match r with inr a => mret a | inl e => fail e end.

(** ** Rules *)

(** [m], run from [s], ends with an outcome and a state that meet [Q]. *)
Definition runs {S A} (m : method S A) (s : S) (Q : outcome A → S → Prop) : Prop :=
  Q (m s).1 (m s).2.

Section rules.
Context {S A B : Type}.
Implicit Types (s : S).

Lemma runs_ret (a : A) s (Q : outcome A → S → Prop) : Q (Ok a) s → runs (mret a) s Q.
Proof. done. Qed.

Lemma runs_bind (m : method S A) (f : A → method S B) s (Q : outcome B → S → Prop) :
  runs m s (λ r s, match r with
                   | Ok a => runs (f a) s Q
                   | Err e => Q (Err e) s
                   | Panic => Q Panic s
                   end) →
  runs (m ≫= f) s Q.
Proof. unfold runs, mbind, method_bind. by destruct (m s) as [[a|e|] s']. Qed.

Lemma runs_fail e s (Q : outcome A → S → Prop) : Q (Err e) s → runs (fail e) s Q.
Proof. done. Qed.

Lemma runs_panic s (Q : outcome A → S → Prop) : Q Panic s → runs panic s Q.
Proof. done. Qed.

Lemma runs_get (f : S → A) s (Q : outcome A → S → Prop) : Q (Ok (f s)) s → runs (get f) s Q.
Proof. done. Qed.

Lemma runs_update (f : S → S) s (Q : outcome unit → S → Prop) :
  Q (Ok tt) (f s) → runs (update f) s Q.
Proof. done. Qed.

Lemma runs_fail_if b e s (Q : outcome unit → S → Prop) :
  (b = true → Q (Err e) s) → (b = false → Q (Ok tt) s) → runs (fail_if b e) s Q.
Proof. destruct b; intros H1 H2; [by apply H1|by apply H2]. Qed.

Lemma runs_ok_or (o : option A) e s (Q : outcome A → S → Prop) :
  (o = None → Q (Err e) s) → (∀ a, o = Some a → Q (Ok a) s) → runs (ok_or o e) s Q.
Proof. destruct o; intros H1 H2; [by apply H2|by apply H1]. Qed.

Lemma runs_unwrap (o : option A) s (Q : outcome A → S → Prop) :
  (o = None → Q Panic s) → (∀ a, o = Some a → Q (Ok a) s) → runs (unwrap o) s Q.
Proof. destruct o; intros H1 H2; [by apply H2|by apply H1]. Qed.

Lemma runs_lift (r : errno + A) s (Q : outcome A → S → Prop) :
  (∀ e, r = inl e → Q (Err e) s) → (∀ a, r = inr a → Q (Ok a) s) → runs (lift r) s Q.
Proof. destruct r; intros H1 H2; [by apply H1|by apply H2]. Qed.

Lemma runs_mono (m : method S A) s (P Q : outcome A → S → Prop) :
  runs m s P → (∀ r s, P r s → Q r s) → runs m s Q.
Proof. unfold runs. auto. Qed.

(** The same forwards: a method whose first statement succeeds goes on. *)
Lemma bind_ok (m : method S A) (f : A → method S B) s a s' :
  m s = (Ok a, s') → (m ≫= f) s = f a s'.
Proof. unfold mbind, method_bind. by intros ->. Qed.

Lemma fail_if_false b e s : b = false → fail_if b e s = (Ok tt, s).
Proof. by intros ->. Qed.

End rules.

(** One statement of a method; what a guard decides becomes a hypothesis. *)
Ltac mstep :=
  match goal with
  | |- runs (mbind _ _) _ _ => apply runs_bind
  | |- runs (mret _) _ _ => apply runs_ret
  | |- runs (fail _) _ _ => apply runs_fail
  | |- runs panic _ _ => apply runs_panic
  | |- runs (get _) _ _ => apply runs_get
  | |- runs (update _) _ _ => apply runs_update
  | |- runs (fail_if _ _) _ _ => apply runs_fail_if; intros ?
  | |- runs (ok_or _ _) _ _ => apply runs_ok_or; [intros ?|intros ? ?]
  | |- runs (unwrap _) _ _ => apply runs_unwrap; [intros ?|intros ? ?]
  | |- runs (lift _) _ _ => apply runs_lift; intros ? ?
  | |- runs (if ?b then _ else _) _ _ => destruct b eqn:?
  | |- runs (match ?o with Some _ => _ | None => _ end) _ _ => destruct o eqn:?
  end; cbn beta iota.
Ltac msteps := repeat mstep.
