(* ===== verification/Bytes.v ===== *)
(** * Bytes

    What the message formats share: integers as native-endian bytes (the targets of the crate are
    little-endian), slices, attribute padding, byte strings and [String::from_utf8_lossy]. *)

From S2P Require Import Prelude.

(** ** Integers as bytes *)

(** [to_ne_bytes] of an [n]-byte integer, of its two's complement value *)
Fixpoint to_ne_bytes (n : nat) (x : Z) : list Z :=
  match n with
  | O => []
  | S n => x mod 256 :: to_ne_bytes n (x / 256)
  end.

(** [from_ne_bytes], unsigned *)
Fixpoint from_ne_bytes (l : list Z) : Z :=
  match l with
  | [] => 0
  | b :: l => b + 256 * from_ne_bytes l
  end.

(** [u32::from_be_bytes], [i64::from_be_bytes] *)
Fixpoint from_be (acc : Z) (l : list Z) : Z :=
  match l with
  | [] => acc
  | b :: l => from_be (acc * 256 + b) l
  end.

(** [x as u16], [x as u32] *)
Definition as_u16 (x : Z) : Z := x mod 2 ^ 16.
Definition as_u32 (x : Z) : Z := x mod 2 ^ 32.

Definition is_byte (b : Z) : Prop := 0 ≤ b < 256.

Lemma length_to_ne_bytes n x : length (to_ne_bytes n x) = n.
Proof. revert x. induction n as [|n IH]; intros x; simpl; [done|]. by rewrite IH. Qed.

Lemma to_ne_bytes_bytes n x : Forall is_byte (to_ne_bytes n x).
Proof.
  revert x. induction n as [|n IH]; intros x; simpl; constructor; [|done].
  unfold is_byte. dlia.
Qed.

Lemma from_to_ne_bytes n x : from_ne_bytes (to_ne_bytes n x) = x mod 256 ^ Z.of_nat n.
Proof.
  revert x. induction n as [|n IH]; intros x.
  - simpl. by rewrite Z.mod_1_r.
  - cbn [to_ne_bytes from_ne_bytes]. rewrite IH, Nat2Z.inj_succ, Z.pow_succ_r by lia.
    assert (0 < 256 ^ Z.of_nat n) by (apply Z.pow_pos_nonneg; lia).
    rewrite Z.rem_mul_r by lia. done.
Qed.

Lemma from_ne_bytes_bound l : Forall is_byte l → 0 ≤ from_ne_bytes l < 256 ^ Z.of_nat (length l).
Proof.
  induction 1 as [|b l Hb _ IH]; [simpl; lia|].
  cbn [from_ne_bytes length]. rewrite Nat2Z.inj_succ, Z.pow_succ_r by lia. unfold is_byte in Hb. lia.
Qed.

(** ** Slices *)

(** [&l[a..b]]; out of range it panics, and every use is behind a bound. *)
Definition slice {A} (a b : nat) (l : list A) : list A := take (b - a) (drop a l).

Definition u16_at (l : list Z) (at_ : nat) : Z := from_ne_bytes (slice at_ (at_ + 2) l).
Definition u32_at (l : list Z) (at_ : nat) : Z := from_ne_bytes (slice at_ (at_ + 4) l).

Lemma slice_app_l {A} a b (l k : list A) : (b ≤ length l)%nat → slice a b (l ++ k) = slice a b l.
Proof.
  intros Hb. unfold slice. destruct (decide (a ≤ length l)%nat).
  - rewrite drop_app_le by done. rewrite take_app_le by (rewrite length_drop; lia). done.
  - replace (b - a)%nat with 0%nat by lia. done.
Qed.

Lemma slice_app_r {A} a b (l k : list A) : (length l ≤ a)%nat →
  slice a b (l ++ k) = slice (a - length l) (b - length l) k.
Proof.
  intros Ha. unfold slice. rewrite drop_app_ge by done. f_equal. lia.
Qed.

Lemma slice_all {A} (l : list A) : slice 0 (length l) l = l.
Proof. unfold slice. rewrite Nat.sub_0_r, drop_0. by apply take_ge. Qed.

Lemma slice_prefix {A} n (l k : list A) : length l = n → slice 0 n (l ++ k) = l.
Proof. intros <-. rewrite slice_app_l by done. apply slice_all. Qed.

Lemma slice_mid {A} a b (h l k : list A) :
  length h = a → (a + length l)%nat = b → slice a b (h ++ l ++ k) = l.
Proof.
  intros Ha Hb. rewrite slice_app_r by lia. rewrite Ha, Nat.sub_diag. apply slice_prefix. lia.
Qed.

Lemma length_slice {A} a b (l : list A) : (b ≤ length l)%nat → length (slice a b l) = (b - a)%nat.
Proof. intros. unfold slice. rewrite length_take, length_drop. lia. Qed.

(** [usize::next_multiple_of(4)] and the padding up to it *)
Definition next_multiple_of_4 (n : nat) : nat := ((n + 3) / 4 * 4)%nat.
Definition padding (n : nat) : list Z := replicate (next_multiple_of_4 n - n) 0.

Lemma next_multiple_of_4_spec n :
  (n ≤ next_multiple_of_4 n < n + 4)%nat ∧ (next_multiple_of_4 n mod 4 = 0)%nat.
Proof.
  unfold next_multiple_of_4. split; [|by rewrite Nat.Div0.mod_mul].
  pose proof (Nat.div_mod_eq (n + 3) 4). pose proof (Nat.mod_upper_bound (n + 3) 4). lia.
Qed.

Lemma next_multiple_of_4_add a b :
  (a mod 4 = 0)%nat → next_multiple_of_4 (a + b) = (a + next_multiple_of_4 b)%nat.
Proof.
  intros Ha. unfold next_multiple_of_4.
  apply Nat.Div0.div_exact in Ha. rewrite Ha at 1.
  replace (4 * (a / 4) + b + 3)%nat with ((b + 3) + a / 4 * 4)%nat by lia.
  rewrite Nat.div_add by lia. lia.
Qed.

(** ** Strings *)

(** The bytes of an ASCII string literal *)
Definition bytes (s : string) : list Z := (λ c, Z.of_nat (Ascii.nat_of_ascii c)) <$> String.list_ascii_of_string s.

(** The bytes before the first NUL, [k.iter().position(|&b| b == 0).unwrap_or(k.len())] *)
Definition until_nul (l : list Z) : list Z :=
  take (default (length l) (position (Z.eqb 0) l)) l.

(** [String::from_utf8]: the well-formed byte sequences of UTF-8. *)
Fixpoint valid_utf8 (s : list Z) : bool :=
  let cont c := (128 <=? c) && (c <=? 191) in
  match s with
  | [] => true
  | a :: s1 =>
      if a <=? 127 then valid_utf8 s1
      else match s1 with
      | [] => false
      | b :: s2 =>
          if (194 <=? a) && (a <=? 223) then cont b && valid_utf8 s2
          else match s2 with
          | [] => false
          | c :: s3 =>
              if (224 <=? a) && (a <=? 239) then
                cont b && (negb (a =? 224) || (160 <=? b)) && (negb (a =? 237) || (b <=? 159)) &&
                cont c && valid_utf8 s3
              else match s3 with
              | [] => false
              | d :: s4 =>
                  (240 <=? a) && (a <=? 244) && cont b && (negb (a =? 240) || (144 <=? b)) &&
                  (negb (a =? 244) || (b <=? 143)) && cont c && cont d && valid_utf8 s4
              end
          end
      end
  end.

Definition from_utf8 (s : list Z) : option (list Z) := if valid_utf8 s then Some s else None.

(** U+FFFD in UTF-8 *)
Definition REPLACEMENT : list Z := [239; 191; 189].

(** [String::from_utf8_lossy]: each maximal ill-formed part becomes U+FFFD *)
Fixpoint from_utf8_lossy (s : list Z) : list Z :=
  let cont c := (128 <=? c) && (c <=? 191) in
  match s with
  | [] => []
  | a :: s1 =>
      if a <=? 127 then a :: from_utf8_lossy s1
      else if (194 <=? a) && (a <=? 244) then
        match s1 with
        | [] => REPLACEMENT
        | b :: s2 =>
            if (a <=? 223) && cont b then a :: b :: from_utf8_lossy s2
            else if (224 <=? a) && cont b && (negb (a =? 224) || (160 <=? b)) &&
                    (negb (a =? 237) || (b <=? 159)) && (negb (a =? 240) || (144 <=? b)) &&
                    (negb (a =? 244) || (b <=? 143)) then
              match s2 with
              | [] => REPLACEMENT
              | c :: s3 =>
                  if (a <=? 239) && cont c then a :: b :: c :: from_utf8_lossy s3
                  else if (240 <=? a) && cont c then
                    match s3 with
                    | [] => REPLACEMENT
                    | d :: s4 =>
                        if cont d then a :: b :: c :: d :: from_utf8_lossy s4
                        else REPLACEMENT ++ from_utf8_lossy s3
                    end
                  else REPLACEMENT ++ from_utf8_lossy s2
              end
            else REPLACEMENT ++ from_utf8_lossy s1
        end
      else REPLACEMENT ++ from_utf8_lossy s1
  end.

(** A byte string that is ASCII with no NUL: what a qdisc's name is *)
Definition plain (l : list Z) : Prop := Forall (λ b, 0 < b ≤ 127) l.

Lemma from_utf8_lossy_plain l : plain l → from_utf8_lossy l = l.
Proof.
  induction 1 as [|b l Hb _ IH]; [done|]. cbn [from_utf8_lossy].
  destruct (Z.leb_spec b 127); [by rewrite IH|lia].
Qed.

Lemma until_nul_plain l k : plain l → until_nul (l ++ 0 :: k) = l.
Proof.
  intros Hl. unfold until_nul.
  assert (position (Z.eqb 0) (l ++ 0 :: k) = Some (length l)) as ->.
  { induction Hl as [|b l Hb _ IH]; [done|]. cbn [app position].
    destruct (Z.eqb_spec 0 b); [lia|]. by rewrite IH. }
  apply take_app_length.
Qed.

#[export] Instance plain_dec l : Decision (plain l).
Proof. unfold plain. apply _. Defined.
