(* ===== verification/Line.v ===== *)
(** * Virtual time as a line through real time

    Models [Line], [rate_to_q32] and [validate_rate] of crates/snare/src/clock.rs: the reading of
    a virtual clock as a function of real time, its partial inverse, and the conversion of a rate
    to the 32.32 fixed point the line keeps. The 128-bit intermediate products are exact in [Z];
    the two saturations to 64 bits are written out. *)

From S2P Require Import Prelude.

From Stdlib Require Import QArith Qround.
#[local] Open Scope Z_scope.

(** [Line] *)
Record line := mk_line {
  anchor_v : Z;
  anchor_real : Z;
  rate_q32 : Z;
  horizon : Z;
}.

(** [Line::value_at] *)
Definition value_at (l : line) (real : Z) : Z :=
  let dr := sat_sub real (anchor_real l) in
  let dv := Z.shiftr (dr * rate_q32 l) 32 in
  let v := Z.min (anchor_v l + dv) u64_max in
  Z.min v (horizon l).

(** [Line::real_at] *)
Definition real_at (l : line) (v : Z) : option Z :=
  if horizon l <? v then None
  else if v <=? anchor_v l then Some (anchor_real l)
  else if rate_q32 l =? 0 then None
  else
    let dr := div_ceil (Z.shiftl (v - anchor_v l) 32) (rate_q32 l) in
    Some (Z.min (anchor_real l + dr) u64_max).

(** A clock rate: the [f64] the callers pass, which is a finite number or infinity.
    [validate_rate] keeps NaN and negative numbers out. *)
Inductive rate := RFinite (q : Q) | RInfinity.

Definition max_rate : Q := 1000000 # 1.
Definition rate_zero : rate := RFinite 0.
Definition rate_whole (n : Z) : rate := RFinite (inject_Z n).

Definition Qmin2 (a b : Q) : Q := if Qle_bool a b then a else b.
Definition Qmax2 (a b : Q) : Q := if Qle_bool a b then b else a.

(** [rate_to_q32]: [(rate.clamp(0.0, MAX_RATE) * Q32).round()]. Both factors of the product are
    exact in an [f64] (a power of two times a number below 2^20), and [round] of a non-negative
    number is the floor of its half-up neighbour. *)
Definition clamp_rate (r : rate) : Q :=
  match r with
  | RFinite q => Qmin2 (Qmax2 q 0) max_rate
  | RInfinity => max_rate
  end.

Definition rate_to_q32 (r : rate) : Z :=
  Qfloor (clamp_rate r * inject_Z (2 ^ 32) + (1 # 2)).

Definition rate_is_zero (r : rate) : bool :=
  match r with RFinite q => Qeq_bool q 0 | RInfinity => false end.

(** [validate_rate]: whether neither assertion fires. *)
Definition validate_rate (r : rate) (deterministic : bool) : bool :=
  match r with
  | RInfinity => true
  | RFinite q => Qle_bool 0 q && negb (deterministic && negb (Qle_bool q 0))
  end.

(** The fields are [u64]s. *)
Record line_wf (l : line) : Prop := {
  wf_anchor_v : is_u64 (anchor_v l);
  wf_anchor_real : is_u64 (anchor_real l);
  wf_rate : is_u64 (rate_q32 l);
  wf_horizon : is_u64 (horizon l);
}.

Section line_facts.
Context (l : line) (Hwf : line_wf l).

Lemma span_nonneg real : 0 ≤ Z.shiftr (sat_sub real (anchor_real l) * rate_q32 l) 32.
Proof.
  apply Z.shiftr_nonneg. destruct Hwf.
  apply Z.mul_nonneg_nonneg; lia.
Qed.

Lemma value_at_range real : is_u64 (value_at l real).
Proof.
  pose proof (span_nonneg real). destruct Hwf. unfold value_at. lia.
Qed.

Lemma value_at_ge_anchor real : Z.min (anchor_v l) (horizon l) ≤ value_at l real.
Proof.
  pose proof (span_nonneg real). destruct Hwf. unfold value_at. lia.
Qed.

Lemma value_at_le_horizon real : value_at l real ≤ horizon l.
Proof. unfold value_at. lia. Qed.

Lemma value_at_mono r1 r2 : r1 ≤ r2 → value_at l r1 ≤ value_at l r2.
Proof.
  intros Hr. unfold value_at.
  assert (Z.shiftr (sat_sub r1 (anchor_real l) * rate_q32 l) 32 ≤
          Z.shiftr (sat_sub r2 (anchor_real l) * rate_q32 l) 32); [|lia].
  rewrite !Z.shiftr_div_pow2 by lia. apply Z.div_le_mono; [lia|].
  destruct Hwf. apply Z.mul_le_mono_nonneg_r; lia.
Qed.

(** The real span [real_at] computes is the least one whose virtual span reaches [d]. *)
Lemma span_reaches d dr : 0 < rate_q32 l → 0 ≤ d → 0 ≤ dr →
  d ≤ Z.shiftr (dr * rate_q32 l) 32 ↔ div_ceil (Z.shiftl d 32) (rate_q32 l) ≤ dr.
Proof.
  intros Hr Hd Hdr. rewrite Z.shiftr_div_pow2, Z.shiftl_mul_pow2 by lia.
  destruct (div_ceil_spec (d * 2 ^ 32) (rate_q32 l) ltac:(lia) Hr) as (H1 & H2 & H3).
  split.
  - intros Hle. apply div_ceil_le; [lia..|].
    pose proof (Z.mul_div_le (dr * rate_q32 l) (2 ^ 32) ltac:(lia)). nia.
  - intros Hle. apply Z.div_le_lower_bound; [lia|]. nia.
Qed.

Lemma span_reached_by d : 0 < rate_q32 l → 0 ≤ d →
  ∃ dr, 0 ≤ dr ∧ d ≤ Z.shiftr (dr * rate_q32 l) 32.
Proof.
  intros Hr Hd. exists (div_ceil (Z.shiftl d 32) (rate_q32 l)).
  assert (0 ≤ div_ceil (Z.shiftl d 32) (rate_q32 l)) as Hdr.
  { apply div_ceil_spec; [by apply Z.shiftl_nonneg|done]. }
  split; [done|]. by apply span_reaches.
Qed.

End line_facts.

(** [Line::real_at] and [Line::value_at] are a Galois pair. For a time [v] past the anchor
    that the line can reach, a real time [real] reads at least [v] exactly from [real_at v] on:
    the real time returned is the earliest, and rounding never lands it short. This holds as long
    as the exact instant fits the 64 bits it is returned in. *)
Theorem real_at_earliest (l : line) (v r real : Z) :
  line_wf l → anchor_v l < v → is_u64 v → real_at l v = Some r → r < u64_max → 0 ≤ real →
  v ≤ value_at l real ↔ r ≤ real.
Proof.
  intros Hwf Hv Hv64 Hr Hsat Hreal. unfold real_at in Hr.
  destruct (Z.ltb_spec (horizon l) v) as [|Hh]; [done|].
  destruct (Z.leb_spec v (anchor_v l)); [lia|].
  destruct (Z.eqb_spec (rate_q32 l) 0) as [|Hrate]; [done|].
  injection Hr as <-. unfold value_at.
  pose proof (wf_rate _ Hwf). pose proof (wf_anchor_real _ Hwf).
  assert (0 < rate_q32 l) as Hpos by lia.
  pose proof (span_reaches l (v - anchor_v l) (sat_sub real (anchor_real l)) Hpos
    ltac:(lia) ltac:(lia)) as Hspan.
  pose proof (div_ceil_spec (Z.shiftl (v - anchor_v l) 32) (rate_q32 l)
    ltac:(apply Z.shiftl_nonneg; lia) Hpos) as (_ & Hlow & Hnn).
  assert (0 < div_ceil (Z.shiftl (v - anchor_v l) 32) (rate_q32 l)) as Hone.
  { assert (0 < Z.shiftl (v - anchor_v l) 32) by (rewrite Z.shiftl_mul_pow2; lia). 
    destruct (Z.lt_ge_cases 0 (div_ceil (Z.shiftl (v - anchor_v l) 32) (rate_q32 l))); [done|].
    pose proof (div_ceil_spec (Z.shiftl (v - anchor_v l) 32) (rate_q32 l)
      ltac:(lia) Hpos) as (Hup & _ & _). nia. }
  split.
  - intros Hle. apply Z.min_glb_iff in Hle as [Hle _]. apply Z.min_glb_iff in Hle as [Hle _].
    assert (div_ceil (Z.shiftl (v - anchor_v l) 32) (rate_q32 l) ≤ sat_sub real (anchor_real l))
      by (apply Hspan; lia). lia.
  - intros Hle. assert (v - anchor_v l ≤ Z.shiftr (sat_sub real (anchor_real l) * rate_q32 l) 32)
      by (apply Hspan; lia). lia.
Qed.

Lemma real_at_earliest_witness :
  2000 ≤ value_at (mk_line 1000 50 (2 ^ 33) u64_max) 550 ↔ 550 ≤ 550.
Proof.
  apply (real_at_earliest (mk_line 1000 50 (2 ^ 33) u64_max) 2000 550 550);
    [split; vm_compute; split; discriminate| | | | |]; vm_compute; try reflexivity;
    try (split; discriminate); discriminate.
Defined.

(** [Line::real_at] answers [None] exactly for the times no real instant ever reads. *)
Theorem real_at_none (l : line) (v : Z) : line_wf l → is_u64 v →
  real_at l v = None ↔ ∀ real, value_at l real < v.
Proof.
  intros Hwf Hv. pose proof (wf_rate _ Hwf). unfold real_at. split.
  - destruct (Z.ltb_spec (horizon l) v) as [Hh|Hh].
    + intros _ real. pose proof (value_at_le_horizon l real). lia.
    + destruct (Z.leb_spec v (anchor_v l)); [done|].
      destruct (Z.eqb_spec (rate_q32 l) 0) as [Hrate|]; [|done].
      intros _ real. unfold value_at. rewrite Hrate, Z.mul_0_r, Z.shiftr_0_l. lia.
  - intros Hall. destruct (Z.ltb_spec (horizon l) v) as [Hh|Hh]; [done|].
    destruct (Z.leb_spec v (anchor_v l)) as [Ha|Ha].
    + specialize (Hall (anchor_real l)). pose proof (value_at_ge_anchor l Hwf (anchor_real l)). lia.
    + destruct (Z.eqb_spec (rate_q32 l) 0) as [|Hrate]; [done|]. exfalso.
      destruct (span_reached_by l (v - anchor_v l) ltac:(lia) ltac:(lia)) as (dr & Hdr & Hle).
      specialize (Hall (anchor_real l + dr)). unfold value_at in Hall.
      replace (sat_sub (anchor_real l + dr) (anchor_real l)) with dr in Hall by lia.
      lia.
Qed.

Lemma real_at_none_witness :
  real_at (mk_line 10 0 0 u64_max) 11 = None ↔
  ∀ real, value_at (mk_line 10 0 0 u64_max) real < 11.
Proof.
  apply (real_at_none (mk_line 10 0 0 u64_max) 11);
    [split; vm_compute; split; discriminate|vm_compute; split; discriminate].
Defined.

(** the documentation of [Line::real_at] says that [value_at(real_at(v)) >= v] always holds.
    It does not when the exact instant is past the last [u64]: on the slowest running line (2^-32
    virtual nanoseconds per real one) the instant saturates and reads short of [v]. *)
Theorem real_at_saturates :
  ∃ l v r, line_wf l ∧ is_u64 v ∧ real_at l v = Some r ∧ value_at l r < v.
Proof.
  exists (mk_line 0 0 1 u64_max), (2 ^ 40), u64_max.
  split; [split; vm_compute; split; discriminate|].
  split; [vm_compute; split; discriminate|]. split; reflexivity.
Qed.

(** Rates convert into range: [rate_to_q32] stays below 2^52, and never turns a rate of at least
    2^-32 into a held clock. *)
Lemma clamp_rate_bounds r : (0 <= clamp_rate r)%Q ∧ (clamp_rate r <= max_rate)%Q.
Proof.
  unfold clamp_rate. destruct r as [q|]; [|split; [discriminate|apply Qle_refl]].
  unfold Qmin2, Qmax2.
  destruct (Qle_bool q 0) eqn:E0; destruct (Qle_bool _ max_rate) eqn:E1;
    rewrite ?Qle_bool_iff in *; try (split; [done || discriminate|]; try done; apply Qle_refl);
    split; try done; try discriminate; try apply Qle_refl.
  apply Qlt_le_weak, Qnot_le_lt. intros H. apply Qle_bool_iff in H. congruence.
Qed.

Lemma rate_to_q32_bounds r : 0 ≤ rate_to_q32 r < 2 ^ 52.
Proof.
  destruct (clamp_rate_bounds r) as [H0 H1]. unfold rate_to_q32.
  assert ((0 <= clamp_rate r * inject_Z (2 ^ 32) + (1 # 2))%Q) as Hlo.
  { apply (Qle_trans _ (0 * inject_Z (2 ^ 32) + 0)%Q); [discriminate|].
    apply Qplus_le_compat; [|discriminate]. apply Qmult_le_compat_r; [done|discriminate]. }
  assert ((clamp_rate r * inject_Z (2 ^ 32) + (1 # 2) <= inject_Z (2 ^ 52 - 1))%Q) as Hhi.
  { apply (Qle_trans _ (max_rate * inject_Z (2 ^ 32) + (1 # 2))%Q); [|discriminate].
    apply Qplus_le_compat; [|apply Qle_refl]. apply Qmult_le_compat_r; [done|discriminate]. }
  apply Qfloor_resp_le in Hlo, Hhi. rewrite Qfloor_Z in Hhi.
  change (Qfloor 0) with 0 in Hlo. lia.
Qed.
