(* ===== verification/Timers.v ===== *)
(** * Timer tables

    Models [TimerOwners], [Entry], [Timers], [WakeSlot], [take_upto] and [reached_wait] of
    crates/snare/src/clock.rs: what is due at each instant of a virtual clock, with an index from
    a registered wake to its place so that a cancel finds it at once.

    A [Waker] is opaque ([W]). An operation that would panic in the source (an [unwrap] of a
    missing entry, an index out of range) returns [None]; [timers_wf] is the invariant under which
    that never happens. *)

From S2P Require Import Prelude.

(** ** [TimerOwners]: a small vector, four owners inline and the rest in a [Vec] *)

Module Owners.

Record timer_owners := mk_owners {
  inline : list Z;     (* [u64; 4] *)
  len : nat;
  overflow : list Z;
}.

Abbreviation INLINE := 4%nat.

Definition default : timer_owners := mk_owners (replicate INLINE 0) 0 [].

(** [TimerOwners::iter] *)
Definition iter (o : timer_owners) : list Z :=
  take (Nat.min (len o) (length (inline o))) (inline o) ++ overflow o.

(** [TimerOwners::first] *)
Definition first (o : timer_owners) : option Z := head (iter o).

(** [TimerOwners::push] *)
Definition push (owner : Z) (o : timer_owners) : timer_owners :=
  if (len o <? length (inline o))%nat
  then mk_owners (<[len o := owner]> (inline o)) (S (len o)) (overflow o)
  else mk_owners (inline o) (S (len o)) (overflow o ++ [owner]).

(** [TimerOwners::pop] *)
Definition pop (o : timer_owners) : option Z * timer_owners :=
  if (len o =? 0)%nat then (None, o)
  else
    let n := (len o - 1)%nat in
    if (length (inline o) <=? n)%nat
    then (last (overflow o), mk_owners (inline o) n (take (length (overflow o) - 1) (overflow o)))
    else (inline o !! n, mk_owners (inline o) n (overflow o)).

(** [TimerOwners::swap_remove] *)
Definition swap_remove_owner (i : nat) (o : timer_owners) : timer_owners :=
  if (length (inline o) <=? i)%nat
  then mk_owners (inline o) (len o - 1) (swap_remove (i - length (inline o)) (overflow o))
  else
    let (last, o') := pop o in
    match last with
    | Some x => if (i <? len o')%nat then mk_owners (<[i := x]> (inline o')) (len o') (overflow o')
                else o'
    | None => o'
    end.

(** The array is full before anything overflows. *)
Record owners_wf (o : timer_owners) : Prop := {
  wf_inline : length (inline o) = INLINE;
  wf_overflow : length (overflow o) = (len o - INLINE)%nat;
}.

Lemma default_wf : owners_wf default.
Proof. by split. Qed.

Lemma length_iter o : owners_wf o → length (iter o) = len o.
Proof.
  intros [Hi Ho]. unfold iter. rewrite length_app, length_take, Hi, Ho. lia.
Qed.

Lemma iter_inline o : owners_wf o → (len o ≤ INLINE)%nat → iter o = take (len o) (inline o).
Proof.
  intros [Hi Ho] Hl. unfold iter. rewrite Hi. rewrite (Nat.min_l (len o)) by done.
  destruct (overflow o); [by rewrite app_nil_r|]. simpl in Ho. lia.
Qed.

Lemma iter_overflow o : owners_wf o → (INLINE ≤ len o)%nat → iter o = inline o ++ overflow o.
Proof.
  intros [Hi Ho] Hl. unfold iter. rewrite Hi, Nat.min_r by done. by rewrite <- Hi, firstn_all.
Qed.

Lemma push_spec owner o : owners_wf o →
  owners_wf (push owner o) ∧ iter (push owner o) = iter o ++ [owner].
Proof.
  intros Hwf. pose proof Hwf as [Hi Ho]. unfold push. rewrite Hi.
  destruct (Nat.ltb_spec (len o) INLINE) as [Hl|Hl].
  - assert (owners_wf (mk_owners (<[len o:=owner]> (inline o)) (S (len o)) (overflow o))) as Hwf'.
    { split; simpl; [by rewrite length_insert|]. lia. }
    split; [done|]. rewrite (iter_inline _ Hwf'), (iter_inline o) by (simpl; done || lia). simpl.
    rewrite (take_S_r _ _ owner) by (rewrite list_lookup_insert_eq; [done|lia]).
    by rewrite take_insert_ge.
  - assert (owners_wf (mk_owners (inline o) (S (len o)) (overflow o ++ [owner]))) as Hwf'.
    { split; simpl; [done|]. rewrite length_app; simpl. lia. }
    split; [done|]. rewrite (iter_overflow _ Hwf'), (iter_overflow o) by (simpl; done || lia). simpl.
    by rewrite app_assoc.
Qed.

Lemma pop_spec o : owners_wf o →
  owners_wf (pop o).2 ∧ (pop o).1 = last (iter o) ∧
  iter (pop o).2 = take (length (iter o) - 1) (iter o).
Proof.
  intros Hwf. pose proof Hwf as [Hi Ho]. rewrite length_iter by done. unfold pop.
  destruct (Nat.eqb_spec (len o) 0) as [Hz|Hz].
  { simpl. rewrite iter_inline, Hz by (done || lia). done. }
  rewrite Hi. destruct (Nat.leb_spec INLINE (len o - 1)) as [Hl|Hl]; simpl.
  - assert (owners_wf (mk_owners (inline o) (len o - 1)
      (take (length (overflow o) - 1) (overflow o)))) as Hwf'.
    { split; simpl; [done|]. rewrite length_take. lia. }
    split; [done|]. rewrite (iter_overflow _ Hwf'), (iter_overflow o) by (simpl; done || lia). simpl.
    destruct (overflow o) as [|x l _] using rev_ind.
    { simpl in Ho. lia. }
    rewrite app_assoc, !last_snoc, <- app_assoc. split; [done|].
    rewrite take_app_last. rewrite length_app in Ho. simpl in Ho.
    rewrite app_assoc, take_app_le by (rewrite length_app; lia).
    rewrite take_ge; [done|]. rewrite length_app. lia.
  - assert (owners_wf (mk_owners (inline o) (len o - 1) (overflow o))) as Hwf'.
    { split; simpl; [done|]. lia. }
    split; [done|]. rewrite (iter_inline _ Hwf'), (iter_inline o) by (simpl; done || lia).
    simpl. rewrite take_take, Nat.min_l by lia. split; [|done].
    rewrite last_lookup, length_take, Hi.
    rewrite lookup_take_lt by (lia). f_equal. lia.
Qed.

Lemma take_insert_lt_eq {A} (l : list A) n i x :
  (i < n)%nat → take n (<[i:=x]> l) = <[i:=x]> (take n l).
Proof. intros. by apply take_insert_lt. Qed.

(** [swap_remove] acts on the list of owners as [Vec::swap_remove] does. *)
Lemma swap_remove_owner_spec i o : owners_wf o → (i < len o)%nat →
  owners_wf (swap_remove_owner i o) ∧ iter (swap_remove_owner i o) = swap_remove i (iter o).
Proof.
  intros Hwf Hlt. pose proof Hwf as [Hi Ho]. unfold swap_remove_owner. rewrite Hi.
  destruct (Nat.leb_spec INLINE i) as [Hge|Hge].
  - assert (owners_wf (mk_owners (inline o) (len o - 1) (swap_remove (i - INLINE) (overflow o))))
      as Hwf'.
    { split; simpl; [done|]. rewrite length_swap_remove. lia. }
    split; [done|]. rewrite (iter_overflow _ Hwf'), (iter_overflow o) by (simpl; done || lia).
    simpl. destruct (overflow o) as [|x l _] using rev_ind.
    { simpl in Ho. lia. }
    rewrite app_assoc, !swap_remove_snoc, length_app. rewrite length_app in Ho. simpl in Ho.
    repeat case_decide; try lia; [done|].
    rewrite insert_app_r_alt by lia. by rewrite Hi.
  - pose proof (pop_spec o Hwf) as (Hpwf & Hpl & Hpi). destruct (pop o) as [x o'] eqn:Hp. simpl in *.
    pose proof (length_iter o Hwf) as Hli. pose proof (length_iter o' Hpwf) as Hli'.
    destruct (iter o) as [|y l _] using rev_ind; [simpl in *; lia|].
    rewrite last_snoc in Hpl. subst x. rewrite take_app_last in Hpi.
    rewrite length_app in Hli; simpl in Hli. rewrite Hpi in Hli'.
    rewrite swap_remove_snoc. destruct (Nat.ltb_spec i (len o')) as [Hl|Hl].
    + destruct (decide (i = length l)); [lia|].
      pose proof Hpwf as [Hi' Ho']. split.
      { split; simpl; [by rewrite length_insert|done]. }
      unfold iter in *. simpl in *. rewrite length_insert.
      rewrite take_insert_lt_eq by (rewrite Hi'; lia).
      rewrite <- insert_app_l, Hpi; [done|].
      rewrite length_take, Hi'. lia.
    + destruct (decide (i = length l)); [|lia]. done.
Qed.

End Owners.

(** ** [Entry] and [Timers] *)

(** [WakeSlot] *)
Inductive wake_slot := Pending (i : nat) | Held (i : nat).

#[export] Instance wake_slot_eq_dec : EqDecision wake_slot.
Proof. solve_decision. Defined.

Section timers.
Context {W : Type}.

(** [Entry]; the counters are [u32]s. *)
Record entry := mk_entry {
  waits : Z;
  events : Z;
  wakers : list (Z * option Z * W);
  awaiting : list Z;
  owners : Owners.timer_owners;
}.

Definition entry_default : entry := mk_entry 0 0 [] [] Owners.default.

(** [Entry::is_empty] *)
Definition is_empty (e : entry) : bool :=
  (waits e =? 0) && (events e =? 0) &&
  match wakers e with [] => true | _ => false end &&
  match awaiting e with [] => true | _ => false end.

(** [Entry::count] *)
Definition count (e : entry) : Z :=
  waits e + events e + Z.min (Z.of_nat (length (wakers e))) u32_max.

(** [Timers] *)
Record timers := mk_timers {
  entries : gmap Z entry;
  wake_deadlines : gmap Z (Z * wake_slot);
}.

Definition timers_default : timers := mk_timers ∅ ∅.

Definition waker_id (x : Z * option Z * W) : Z := x.1.1.

(** [entry(at).or_default()] *)
Definition entry_or_default (m : gmap Z entry) (at_ : Z) : entry :=
  default entry_default (m !! at_).

(** [Timers::register_wake] *)
Definition register_wake (t : timers) (at_ id : Z) (owner : option Z) (w : W) : timers :=
  let e := entry_or_default (entries t) at_ in
  mk_timers
    (<[at_ := mk_entry (waits e) (events e) (wakers e ++ [(id, owner, w)]) (awaiting e) (owners e)]>
       (entries t))
    (<[id := (at_, Pending (length (wakers e)))]> (wake_deadlines t)).

(** The loop of [Timers::take_wakers_at] over the drained wakers: where each now stands. *)
Fixpoint take_loop (at_ : Z) (hold : bool) (ws : list (Z * option Z * W)) (aw : list Z)
    (wd : gmap Z (Z * wake_slot)) : list Z * gmap Z (Z * wake_slot) :=
  match ws with
  | [] => (aw, wd)
  | w :: ws =>
      if hold
      then take_loop at_ hold ws (aw ++ [waker_id w]) (<[waker_id w := (at_, Held (length aw))]> wd)
      else take_loop at_ hold ws aw (delete (waker_id w) wd)
  end.

(** [Timers::take_wakers_at]: whether there were any, the wakers taken, and the table; [None]
    stands for the panic on a missing entry. *)
Definition take_wakers_at (t : timers) (at_ : Z) (hold : bool) : option (bool * list W * timers) :=
  e ← entries t !! at_;
  let any := match wakers e with [] => false | _ => true end in
  let '(aw, wd) := take_loop at_ hold (wakers e) (awaiting e) (wake_deadlines t) in
  Some (any, (λ w, w.2) <$> wakers e,
        mk_timers (<[at_ := mk_entry (waits e) (events e) [] aw (owners e)]> (entries t)) wd).

(** The end of the operations that may leave an entry with nothing due: it leaves the table. *)
Definition put_entry (at_ : Z) (e : entry) (m : gmap Z entry) : gmap Z entry :=
  if is_empty e then delete at_ m else <[at_ := e]> m.

(** [Timers::cancel_wake]: outer [None] for the panics; inner [None] for an unknown id, else the
    waker if it was not yet delivered. *)
Definition cancel_wake (t : timers) (id : Z) : option (option (option W) * timers) :=
  match wake_deadlines t !! id with
  | None => Some (None, t)
  | Some (at_, slot) =>
      let wd := delete id (wake_deadlines t) in
      e ← entries t !! at_;
      match slot with
      | Pending i =>
          w ← wakers e !! i;
          let ws := swap_remove i (wakers e) in
          let wd := match ws !! i with
                    | Some moved => <[waker_id moved := (at_, Pending i)]> wd
                    | None => wd
                    end in
          Some (Some (Some w.2),
                mk_timers (put_entry at_ (mk_entry (waits e) (events e) ws (awaiting e) (owners e))
                             (entries t)) wd)
      | Held i =>
          _ ← awaiting e !! i;
          let aw := swap_remove i (awaiting e) in
          let wd := match aw !! i with
                    | Some moved => <[moved := (at_, Held i)]> wd
                    | None => wd
                    end in
          Some (Some None,
                mk_timers (put_entry at_ (mk_entry (waits e) (events e) (wakers e) aw (owners e))
                             (entries t)) wd)
      end
  end.

(** [reached_wait]: a wait at or before [now] still registered. *)
Definition awaited (e : entry) : bool :=
  (0 <? waits e) || match awaiting e with [] => false | _ => true end.

Definition reached_wait (t : timers) (now : Z) : bool :=
  existsb (λ k, match entries t !! k with Some e => awaited e | None => false end)
    (keys_upto (entries t) now).

(** [take_upto]: drops every entry at or before [upto], with whether there was one and their
    wakers. [split_off] keeps the entries from [upto + 1] on, saturated. *)
Definition entry_ids (e : entry) : list Z := awaiting e ++ (waker_id <$> wakers e).

Definition take_upto (t : timers) (upto : Z) : bool * list W * timers :=
  let '(due, later) := split_off (entries t) (sat_add upto 1) in
  let es := omap (λ k, due !! k) (keys due) in
  let wd := foldl (λ wd e, foldl (λ wd id, delete id wd) wd (entry_ids e)) (wake_deadlines t) es in
  (match es with [] => false | _ => true end,
   es ≫= (λ e, (λ w, w.2) <$> wakers e),
   mk_timers later wd).

(** *** Single-entry updates the clock makes on a table *)

(** A wait of the thread of lineage [me], or an [event], added at [wake]. *)
Definition add_pending (t : timers) (wake : Z) (event : bool) (me : Z) : timers :=
  let e := entry_or_default (entries t) wake in
  let e' := if event
            then mk_entry (waits e) (events e + 1) (wakers e) (awaiting e) (owners e)
            else mk_entry (waits e + 1) (events e) (wakers e) (awaiting e)
                          (Owners.push me (owners e)) in
  mk_timers (<[wake := e']> (entries t)) (wake_deadlines t).

(** One table's turn of [Clock::unregister_timer]: [None] when no wait stands at [wake]. *)
Definition drop_wait (t : timers) (wake me : Z) : option timers :=
  e ← entries t !! wake;
  if 0 <? waits e then
    let os := match position (λ o, o =? me) (Owners.iter (owners e)) with
              | Some i => Owners.swap_remove_owner i (owners e)
              | None => (Owners.pop (owners e)).2
              end in
    Some (mk_timers
            (put_entry wake (mk_entry (waits e - 1) (events e) (wakers e) (awaiting e) os)
               (entries t))
            (wake_deadlines t))
  else None.

(** [Clock::unregister_event] on the participants' table. *)
Definition drop_event (t : timers) (wake : Z) : timers :=
  match entries t !! wake with
  | Some e =>
      if 0 <? events e then
        mk_timers
          (put_entry wake (mk_entry (waits e) (events e - 1) (wakers e) (awaiting e) (owners e))
             (entries t))
          (wake_deadlines t)
      else t
  | None => t
  end.

(** One entry's turn of [Clock::fire_upto]: its events dropped, its wakers taken, and the entry
    removed if nothing is left. *)
Definition fire_at (t : timers) (at_ : Z) (hold : bool) : option (bool * list W * timers) :=
  e ← entries t !! at_;
  let t := mk_timers
             (<[at_ := mk_entry (waits e) 0 (wakers e) (awaiting e) (owners e)]> (entries t))
             (wake_deadlines t) in
  '(taken, ws, t) ← take_wakers_at t at_ hold;
  e' ← entries t !! at_;
  Some (taken, ws,
        if is_empty e' then mk_timers (delete at_ (entries t)) (wake_deadlines t) else t).

End timers.

Arguments entry : clear implicits.
Arguments timers : clear implicits.
