(* ===== verification/TimersWf.v ===== *)
(** * The timer table's invariant

    Every operation on a [Timers] keeps the index from a registered wake to its place exact, so
    none of the [unwrap]s and indexing of crates/snare/src/clock.rs can fail, and a cancel takes
    out the wake it names. *)

From S2P Require Import Prelude Timers.

Section wf.
Context {W : Type}.
Implicit Types (e : entry W) (m : gmap Z (entry W)) (t : timers W) (wd : gmap Z (Z * wake_slot)).

(** The ids in an entry, by kind of slot. *)
Definition slots e (pending : bool) : list Z :=
  if pending then waker_id <$> wakers e else awaiting e.

Definition slot (pending : bool) (i : nat) : wake_slot := if pending then Pending i else Held i.

Definition slot_kind (s : wake_slot) : bool := match s with Pending _ => true | Held _ => false end.
Definition slot_index (s : wake_slot) : nat := match s with Pending i | Held i => i end.

Lemma slot_inj c i s : slot c i = s ↔ slot_kind s = c ∧ slot_index s = i.
Proof.
  destruct c, s; simpl; split; try (intros [= ->]; done); try (intros [? ?]; done); intros [_ ->]; done.
Qed.

(** The id a place of the table holds. *)
Definition slot_id m (p : Z * wake_slot) : option Z :=
  e ← m !! p.1; slots e (slot_kind p.2) !! slot_index p.2.

Definition index_ok m wd : Prop := ∀ id p, wd !! id = Some p ↔ slot_id m p = Some id.

(** An entry names at most as many owners as it has waits, and leaves the table once nothing is
    due there. *)
Record entry_ok e : Prop := {
  wf_waits : 0 ≤ waits e;
  wf_events : 0 ≤ events e;
  wf_owners : Owners.owners_wf (owners e);
  wf_owned : Z.of_nat (Owners.len (owners e)) ≤ waits e;
}.

Definition entry_wf e : Prop := entry_ok e ∧ is_empty e = false.

Record timers_wf t : Prop := {
  wf_index : index_ok (entries t) (wake_deadlines t);
  wf_entries : ∀ k e, entries t !! k = Some e → entry_wf e;
}.

Lemma slot_id_insert m k e k' s :
  slot_id (<[k := e]> m) (k', s) =
    if decide (k = k') then slots e (slot_kind s) !! slot_index s else slot_id m (k', s).
Proof.
  unfold slot_id. simpl. case_decide; subst; by rewrite ?lookup_insert_eq, ?lookup_insert_ne.
Qed.

Lemma is_empty_slots e c : is_empty e = true → slots e c = [].
Proof.
  unfold is_empty, slots. rewrite !andb_true_iff. intros [[_ Hw] Ha].
  destruct c; [by destruct (wakers e)|by destruct (awaiting e)].
Qed.

Lemma slot_id_put m k e k' s :
  slot_id (put_entry k e m) (k', s) =
    if decide (k = k') then slots e (slot_kind s) !! slot_index s else slot_id m (k', s).
Proof.
  unfold put_entry. destruct (is_empty e) eqn:He; [|apply slot_id_insert].
  unfold slot_id. simpl. case_decide; subst.
  - rewrite lookup_delete_eq, is_empty_slots by done. done.
  - by rewrite lookup_delete_ne.
Qed.

(** Two places holding one id are the same place. *)
Lemma index_inj m wd p q id : index_ok m wd → slot_id m p = Some id → slot_id m q = Some id → p = q.
Proof. intros H Hp%H Hq%H. congruence. Qed.

Lemma slots_NoDup m wd k e c : index_ok m wd → m !! k = Some e → NoDup (slots e c).
Proof.
  intros H He. apply NoDup_alt. intros i j x Hi Hj.
  assert ((k, slot c i) = (k, slot c j)) as Hs.
  { apply (index_inj m wd _ _ x H); unfold slot_id; simpl; rewrite He; by destruct c. }
  destruct c; simplify_eq/=; done.
Qed.

Lemma entries_put_lookup m k e k' e' : entry_ok e →
  (∀ j x, m !! j = Some x → entry_wf x) → put_entry k e m !! k' = Some e' → entry_wf e'.
Proof.
  intros He Hm. unfold put_entry. destruct (is_empty e) eqn:Hemp.
  - rewrite lookup_delete. case_decide; [done|]. apply Hm.
  - rewrite lookup_insert. case_decide; [|apply Hm]. by intros [= <-].
Qed.

(** An update that keeps the wakes of an entry keeps the index. *)
Lemma index_same_slots m wd k e e' :
  index_ok m wd → (∀ c, slots e c = slots e' c) → (m !! k = Some e ∨ (m !! k = None ∧ ∀ c, slots e c = [])) →
  index_ok (<[k := e']> m) wd ∧ index_ok (put_entry k e' m) wd.
Proof.
  intros Hi Hs Hk.
  assert (∀ p, slot_id m p = if decide (k = p.1) then slots e' (slot_kind p.2) !! slot_index p.2
                             else slot_id m p) as Heq.
  { intros [k' s]. simpl. case_decide as Hkk; [|done]. subst k'. unfold slot_id. simpl. rewrite <- Hs.
    destruct Hk as [-> | [-> Hnil]]; [done|]. by rewrite Hnil. }
  split; intros id [k' s]; rewrite (Hi id (k', s)), (Heq (k', s)); simpl;
    by rewrite ?slot_id_insert, ?slot_id_put.
Qed.

Lemma index_empty : index_ok ∅ ∅.
Proof. intros id p. unfold slot_id. rewrite !lookup_empty. done. Qed.

Lemma timers_default_wf : timers_wf (timers_default (W := W)).
Proof. split; [apply index_empty|]. intros k e. simpl. by rewrite lookup_empty. Qed.

Lemma slots_default m k c : m !! k = None → slots (entry_or_default m k) c = [].
Proof. intros H. unfold entry_or_default. rewrite H. by destruct c. Qed.

Lemma entry_or_default_cases m k :
  m !! k = Some (entry_or_default m k) ∨ (m !! k = None ∧ ∀ c, slots (entry_or_default m k) c = []).
Proof.
  destruct (m !! k) as [e|] eqn:E; [left|right].
  - unfold entry_or_default. by rewrite E.
  - split; [done|]. intros c. by apply slots_default.
Qed.

(** ** Appending one id *)

Lemma index_append m wd k id c e' :
  index_ok m wd → wd !! id = None →
  slots e' c = slots (entry_or_default m k) c ++ [id] →
  slots e' (negb c) = slots (entry_or_default m k) (negb c) →
  index_ok (<[k := e']> m) (<[id := (k, slot c (length (slots (entry_or_default m k) c)))]> wd).
Proof.
  intros Hi Hid Hc Hn id' [k' s]. set (e := entry_or_default m k) in *.
  assert (∀ s, k' = k → slot_id m (k', s) = slots e (slot_kind s) !! slot_index s) as Hold.
  { intros s' ->. unfold slot_id. simpl.
    destruct (entry_or_default_cases m k) as [-> | [-> Hnil]]; [done|]. fold e in Hnil. by rewrite Hnil. }
  assert (slot_id m (k', s) ≠ Some id) as Hfresh by (rewrite <- (Hi id); congruence).
  rewrite slot_id_insert, lookup_insert. case_decide as Hid'; [subst id'|].
  - case_decide as Hk; [subst k'|].
    + rewrite Hold in Hfresh by done. destruct (decide (slot_kind s = c)) as [Hkind|Hkind].
      * subst c. rewrite Hc. split.
        -- intros [= <-]. destruct (slot_kind s); simpl; by rewrite list_lookup_middle.
        -- intros Hl. apply lookup_app_Some in Hl as [Hl|[Hge Hl]]; [done|].
           destruct (slot_index s - length (slots e (slot_kind s)))%nat as [|?] eqn:Hz; [|done].
           do 2 f_equal. apply slot_inj. split; [done|lia].
      * assert (slot_kind s = negb c) as Hk by (destruct (slot_kind s), c; done).
        rewrite Hk, Hn. rewrite Hk in Hfresh. split; [|done].
        intros [= <-]. destruct c; done.
    + split; [congruence|done].
  - rewrite (Hi id'). case_decide as Hk; [subst k'|done].
    rewrite Hold by done. destruct (decide (slot_kind s = c)) as [Hkind|Hkind].
    + subst c. rewrite Hc. split; [intros; by apply lookup_app_l_Some|].
      intros Hl. apply lookup_app_Some in Hl as [Hl|[Hge Hl]]; [done|].
      destruct (slot_index s - _)%nat; simplify_eq/=.
    + assert (slot_kind s = negb c) as -> by (destruct (slot_kind s), c; done). by rewrite Hn.
Qed.

(** ** Removing one id by [swap_remove] *)

(** What each place holds after the removal. *)
Lemma slot_id_swap_remove m k e e' c i p x :
  m !! k = Some e → (i < length (slots e c))%nat →
  slots e' c = swap_remove i (slots e c) → slots e' (negb c) = slots e (negb c) →
  let n := (length (slots e c) - 1)%nat in
  slot_id (put_entry k e' m) p = Some x ↔
    (p = (k, slot c i) ∧ i ≠ n ∧ slots e c !! n = Some x) ∨
    (p ≠ (k, slot c i) ∧ p ≠ (k, slot c n) ∧ slot_id m p = Some x).
Proof.
  intros He Hlt Hc Hn n. destruct p as [k' s]. rewrite slot_id_put.
  destruct (decide (k = k')) as [<-|Hk].
  2:{ split; [intros Hx; right; split_and!; [congruence..|done]|]. intros [(? & _)|(_ & _ & ?)]; congruence. }
  assert (slot_id m (k, s) = slots e (slot_kind s) !! slot_index s) as Hold
    by (unfold slot_id; simpl; by rewrite He).
  rewrite Hold. destruct (decide (slot_kind s = c)) as [Hkind|Hkind].
  2:{ assert (slot_kind s = negb c) as Hk by (destruct (slot_kind s), c; done).
      assert (∀ j, (k, s) ≠ (k, slot c j)) as Hne by (intros j [= ->]; destruct c; done).
      rewrite Hk, Hn. split; [intros Hx; right; eauto|]. intros [(? & _)|(_ & _ & ?)]; [by destruct (Hne i)|done]. }
  assert (∀ j, (k, s) = (k, slot c j) ↔ slot_index s = j) as Heq.
  { intros j. split; [intros [= ->]; by destruct c|]. intros Hj. f_equal. symmetry. by apply slot_inj. }
  rewrite !Heq, Hkind, Hc. destruct (decide (slot_index s < n)%nat) as [Hj|Hj].
  - rewrite swap_remove_lookup by (subst n; lia). case_decide as Hji.
    + rewrite Hji, last_lookup. subst n. replace (Nat.pred (length (slots e c))) with (length (slots e c) - 1)%nat by lia.
      split; [intros Hx; left; split_and!; [done|lia|done]|]. intros [(_ & _ & ?)|(? & _)]; done.
    + split; [intros Hx; right; split_and!; [done|lia|done]|]. intros [(? & _)|(_ & _ & ?)]; done.
  - rewrite lookup_ge_None_2 by (rewrite length_swap_remove; subst n; lia). split; [done|].
    intros [(Hji & Hin & Hx)|(Hji & Hjn & Hx)]; [subst n; lia|].
    apply lookup_lt_Some in Hx. subst n; lia.
Qed.

Lemma index_swap_remove m wd k e e' c i id :
  index_ok m wd → m !! k = Some e → slots e c !! i = Some id →
  slots e' c = swap_remove i (slots e c) → slots e' (negb c) = slots e (negb c) →
  index_ok (put_entry k e' m)
    (match slots e' c !! i with
     | Some moved => <[moved := (k, slot c i)]> (delete id wd)
     | None => delete id wd
     end).
Proof.
  intros Hi He Hid Hc Hn x p. pose proof (lookup_lt_Some _ _ _ Hid) as Hlt.
  rewrite (slot_id_swap_remove m k e e' c i p x He Hlt Hc Hn). simpl.
  set (n := (length (slots e c) - 1)%nat) in *.
  destruct (lookup_lt_is_Some_2 (slots e c) n) as [z Hz]; [subst n; lia|].
  assert (∀ j y, slots e c !! j = Some y → wd !! y = Some (k, slot c j)) as Hix.
  { intros j y Hy. apply Hi. unfold slot_id. simpl. rewrite He. by destruct c. }
  assert (slots e' c !! i = if decide (i = n) then None else Some z) as ->.
  { rewrite Hc. case_decide as Hd.
    - apply lookup_ge_None_2. rewrite length_swap_remove. lia.
    - rewrite swap_remove_lookup by (subst n; lia). rewrite decide_True by done.
      rewrite last_lookup, <- Hz. f_equal. subst n; lia. }
  apply Hix in Hid. pose proof (Hix _ _ Hz) as Hzw. rewrite Hz, <- (Hi x p).
  assert (∀ y1 y2 q, wd !! y1 = Some q → wd !! y2 = Some q → y1 = y2) as Hinj
    by (intros y1 y2 q Hq1%Hi Hq2%Hi; congruence).
  case_decide as Hd.
  - subst i. rewrite lookup_delete. case_decide; subst.
    + split; [done|]. intros [(_ & ? & _)|(? & _ & Hx)]; congruence.
    + split; [|intros [(_ & ? & _)|(_ & _ & ?)]; done].
      intros Hx. right. split_and!; [..|done]; intros ->; eauto.
  - assert ((k, slot c i) ≠ (k, slot c n)) as Hne by (intros [= ?]; destruct c; simplify_eq/=; done).
    assert (z ≠ id) by (intros ->; congruence).
    rewrite lookup_insert, lookup_delete. case_decide; [subst x|case_decide; [subst x|]].
    + split; [intros [= <-]; left; done|]. intros [(-> & _)|(_ & ? & ?)]; congruence.
    + split; [done|]. intros [(_ & _ & ?)|(? & _ & ?)]; congruence.
    + split; [|intros [(_ & _ & ?)|(_ & _ & ?)]; congruence].
      intros Hx. right. split_and!; [..|done]; intros ->; eauto.
Qed.

(** ** Taking the wakers of an entry *)

Lemma take_loop_spec (at_ : Z) hold (ws : list (Z * option Z * W)) aw wd :
  NoDup (waker_id <$> ws) →
  (take_loop at_ hold ws aw wd).1 = (if hold then aw ++ (waker_id <$> ws) else aw) ∧
  (∀ j id, (waker_id <$> ws) !! j = Some id →
     (take_loop at_ hold ws aw wd).2 !! id =
       if hold then Some (at_, Held (length aw + j)) else None) ∧
  (∀ id, id ∉ waker_id <$> ws → (take_loop at_ hold ws aw wd).2 !! id = wd !! id).
Proof.
  revert aw wd. induction ws as [|w ws IH]; intros aw wd Hnd; simpl in *.
  { split_and!; [by destruct hold; rewrite ?app_nil_r|done|done]. }
  apply NoDup_cons in Hnd as [Hw Hnd]. destruct hold; simpl.
  - destruct (IH (aw ++ [waker_id w]) (<[waker_id w := (at_, Held (length aw))]> wd) Hnd)
      as (H1 & H2 & H3).
    split_and!.
    + by rewrite H1, <- app_assoc.
    + intros [|j] id Hj; simplify_eq/=.
      * rewrite H3, lookup_insert_eq, Nat.add_0_r by done. done.
      * rewrite (H2 j) by done. rewrite length_app. simpl. do 3 f_equal. lia.
    + intros id [Hne Hni]%not_elem_of_cons. rewrite H3, lookup_insert_ne by done. done.
  - destruct (IH aw (delete (waker_id w) wd) Hnd) as (H1 & H2 & H3). split_and!; [done| |].
    + intros [|j] id Hj; simplify_eq/=; [by rewrite H3, lookup_delete_eq by done|by apply (H2 j)].
    + intros id [Hne Hni]%not_elem_of_cons. rewrite H3, lookup_delete_ne by done. done.
Qed.

Lemma index_take_wakers m wd k e hold n ev os :
  index_ok m wd → m !! k = Some e →
  let r := take_loop k hold (wakers e) (awaiting e) wd in
  index_ok (<[k := mk_entry n ev [] r.1 os]> m) r.2.
Proof.
  intros Hi He r. pose proof (slots_NoDup m wd k e true Hi He) as Hnd. simpl in Hnd.
  destruct (take_loop_spec k hold (wakers e) (awaiting e) wd Hnd) as (H1 & H2 & H3).
  fold r in H1, H2, H3. set (ids := waker_id <$> wakers e) in *.
  assert (∀ j x, ids !! j = Some x ↔ wd !! x = Some (k, Pending j)) as Hp.
  { intros j x. rewrite (Hi x). unfold slot_id. simpl. rewrite He. done. }
  assert (∀ j x, awaiting e !! j = Some x ↔ wd !! x = Some (k, Held j)) as Hh.
  { intros j x. rewrite (Hi x). unfold slot_id. simpl. rewrite He. done. }
  intros x [k' s]. rewrite slot_id_insert. simpl.
  assert (k = k' → slots (mk_entry n ev ([] : list (Z * option Z * W)) r.1 os) (slot_kind s)
            !! slot_index s = Some x → s = Held (slot_index s) ∧ r.1 !! slot_index s = Some x) as Hnew.
  { intros _. destruct s as [i|i]; simpl; [by rewrite lookup_nil|done]. }
  destruct (decide (x ∈ ids)) as [[j Hj]%list_elem_of_lookup|Hx].
  - rewrite (H2 j x Hj). pose proof (proj1 (Hp j x) Hj) as Hwx. split.
    + destruct hold; [|done]. intros [= <- <-]. rewrite decide_True by done. simpl. rewrite H1.
      rewrite lookup_app_r by lia. rewrite <- Hj. f_equal. lia.
    + case_decide as Hk.
      * intros Hs. destruct (Hnew Hk Hs) as [Heq Hl]. subst k'. rewrite H1 in Hl.
        destruct hold; [|apply Hh in Hl; congruence].
        apply lookup_app_Some in Hl as [Hl|[Hge Hl]]; [apply Hh in Hl; congruence|].
        rewrite Heq. do 3 f_equal. pose proof (NoDup_lookup _ _ _ _ Hnd Hj Hl). lia.
      * intros Hs. apply (Hi x) in Hs. congruence.
  - rewrite (H3 x Hx), (Hi x). unfold slot_id at 1. simpl. case_decide as Hk; [subst k'|done].
    rewrite He. destruct s as [i|i]; simpl.
    + rewrite lookup_nil. split; [|done]. intros Hl%list_elem_of_lookup_2. done.
    + rewrite H1. destruct hold; [|done]. rewrite lookup_app_Some. split; [by left|].
      intros [?|[_ Hl%list_elem_of_lookup_2]]; done.
Qed.

(** ** The operations preserve the invariant *)

Lemma default_entry_ok t k : (∀ j x, entries t !! j = Some x → entry_wf x) →
  entry_ok (entry_or_default (entries t) k).
Proof.
  intros He. unfold entry_or_default. destruct (entries t !! k) as [d|] eqn:E; simpl.
  - by destruct (He _ _ E).
  - by split; simpl.
Qed.

Lemma register_wake_wf t at_ id owner w :
  timers_wf t → wake_deadlines t !! id = None → timers_wf (register_wake t at_ id owner w).
Proof.
  intros [Hi He] Hid. split; simpl.
  - pose proof (index_append (entries t) (wake_deadlines t) at_ id true
      (mk_entry (waits (entry_or_default (entries t) at_)) (events (entry_or_default (entries t) at_))
        (wakers (entry_or_default (entries t) at_) ++ [(id, owner, w)])
        (awaiting (entry_or_default (entries t) at_)) (owners (entry_or_default (entries t) at_)))
      Hi Hid) as H. simpl in H. rewrite length_fmap in H. apply H; [by rewrite fmap_app|done].
  - intros k e. rewrite lookup_insert. case_decide; [|apply He]. intros [= <-].
    destruct (default_entry_ok t at_ He). split; [by split|].
    unfold is_empty. simpl. destruct (wakers _); simpl; by rewrite !andb_false_r.
Qed.

Lemma add_pending_wf t wake event me : timers_wf t → timers_wf (add_pending t wake event me).
Proof.
  intros [Hi He]. split; simpl.
  - apply (index_same_slots _ _ _ (entry_or_default (entries t) wake)); [done| |apply entry_or_default_cases].
    intros []; by destruct event.
  - intros k e. rewrite lookup_insert. case_decide; [|apply He]. intros [= <-].
    destruct (default_entry_ok t wake He) as [Hw Hev Ho Hl]. destruct event.
    + split; [split; simpl; done || lia|]. unfold is_empty. simpl.
      destruct (Z.eqb_spec (events (entry_or_default (entries t) wake) + 1) 0); [lia|].
      by rewrite andb_false_r.
    + destruct (Owners.push_spec me _ Ho) as [Hp Hit]. split; [split; simpl; try done; [lia|]|].
      * rewrite <- (Owners.length_iter _ Hp), Hit.
        rewrite length_app, Owners.length_iter by done. simpl. lia.
      * unfold is_empty. simpl.
        by destruct (Z.eqb_spec (waits (entry_or_default (entries t) wake) + 1) 0); [lia|].
Qed.

Lemma drop_event_wf t wake : timers_wf t → timers_wf (drop_event t wake).
Proof.
  intros [Hi He]. unfold drop_event. destruct (entries t !! wake) as [e|] eqn:E; [|done].
  destruct (Z.ltb_spec 0 (events e)); [|done]. destruct (He _ _ E) as [[] _]. split; simpl.
  - apply (index_same_slots _ _ _ e); [done|by intros []|by left].
  - intros k e'. apply entries_put_lookup; [|done]. split; simpl; done || lia.
Qed.

Lemma drop_wait_wf t wake me t' : timers_wf t → drop_wait t wake me = Some t' → timers_wf t'.
Proof.
  intros [Hi He]. unfold drop_wait. destruct (entries t !! wake) as [e|] eqn:E; [|done]. simpl.
  destruct (Z.ltb_spec 0 (waits e)) as [Hw|]; [|done]. intros [= <-].
  destruct (He _ _ E) as [[Hn Hev Ho Hl] _]. split; simpl.
  - apply (index_same_slots _ _ _ e); [done|by intros []|by left].
  - intros k e'. apply entries_put_lookup; [|done].
    match goal with |- entry_ok (mk_entry _ _ _ _ ?os) =>
      assert (Owners.owners_wf os ∧ (Owners.len os ≤ Owners.len (owners e) - 1)%nat) as [Hos Hlen] end.
    { destruct (position _ _) as [i|] eqn:Hp.
      - apply position_Some in Hp as (x & Hx & _). apply lookup_lt_Some in Hx.
        rewrite Owners.length_iter in Hx by done.
        destruct (Owners.swap_remove_owner_spec i _ Ho Hx) as [Hr Hit]. split; [done|].
        rewrite <- (Owners.length_iter _ Hr), Hit, length_swap_remove, Owners.length_iter; done.
      - destruct (Owners.pop_spec _ Ho) as (Hr & _ & Hit). split; [done|].
        rewrite <- (Owners.length_iter _ Hr), Hit, length_take, Owners.length_iter by done. lia. }
    split; simpl; done || lia.
Qed.

(** Firing an entry never panics, hands over its wakers in order, and keeps the invariant. *)
Lemma fire_at_spec t at_ hold e : timers_wf t → entries t !! at_ = Some e →
  ∃ t', fire_at t at_ hold =
          Some (match wakers e with [] => false | _ => true end, (λ w, w.2) <$> wakers e, t') ∧
        timers_wf t' ∧ (∀ k, k ≠ at_ → entries t' !! k = entries t !! k).
Proof.
  intros [Hi He] E. unfold fire_at. rewrite E. simpl.
  unfold take_wakers_at. simpl. rewrite lookup_insert_eq. simpl.
  pose proof (index_take_wakers (entries t) (wake_deadlines t) at_ e hold (waits e) 0 (owners e) Hi E)
    as Hix. simpl in Hix.
  destruct (take_loop at_ hold (wakers e) (awaiting e) (wake_deadlines t)) as [aw wd]. simpl in *.
  rewrite lookup_insert_eq. simpl. eexists. split; [done|].
  destruct (He _ _ E) as [[Hn Hev Ho Hl] _].
  set (e' := mk_entry (waits e) 0 [] aw (owners e)) in *. rewrite insert_insert_eq.
  replace (if is_empty e' then mk_timers (delete at_ (<[at_:=e']> (entries t))) wd
           else mk_timers (<[at_:=e']> (entries t)) wd)
    with (mk_timers (put_entry at_ e' (entries t)) wd)
    by (unfold put_entry; destruct (is_empty e'); [by rewrite delete_insert_eq|done]).
  split; [split; simpl|].
  - intros x [k s]. rewrite (Hix x (k, s)), slot_id_put, slot_id_insert. done.
  - intros k x. apply entries_put_lookup; [by split|done].
  - intros k Hk. simpl. unfold put_entry.
    destruct (is_empty e'); by rewrite ?lookup_delete_ne, ?lookup_insert_ne.
Qed.

(** ** The abstract view: a finite map from wake to deadline and pending waker *)

(** Everything registered in an entry: the pending wakes with their wakers, the delivered ones
    with none. *)
Definition wakes e : list (Z * option W) :=
  ((λ w, (waker_id w, Some w.2)) <$> wakers e) ++ ((λ id, (id, None)) <$> awaiting e).

(** What the table says of wake [id]: its deadline, and its waker unless already delivered. *)
Definition lookup_wake t (id : Z) : option (Z * option W) :=
  '(k, s) ← wake_deadlines t !! id;
  e ← entries t !! k;
  match s with
  | Pending i => w ← wakers e !! i; Some (k, Some w.2)
  | Held _ => Some (k, None)
  end.

Definition has_wake m (k id : Z) (w : option W) : Prop :=
  ∃ e, m !! k = Some e ∧ (id, w) ∈ wakes e.

Lemma elem_of_wakes e id w :
  (id, w) ∈ wakes e ↔
    (∃ i o v, w = Some v ∧ wakers e !! i = Some (id, o, v)) ∨ (w = None ∧ id ∈ awaiting e).
Proof.
  unfold wakes. rewrite elem_of_app, !list_elem_of_fmap. split.
  - intros [([[id' o] v] & [= -> ->] & [i Hi]%list_elem_of_lookup)|(id' & [= -> ->] & ?)]; [left|by right].
    by exists i, o, v.
  - intros [(i & o & v & -> & Hi)|[-> ?]]; [left|right; by exists id].
    exists (id, o, v). split; [done|]. by apply list_elem_of_lookup_2 in Hi.
Qed.

Lemma lookup_wake_spec t id k w : timers_wf t →
  lookup_wake t id = Some (k, w) ↔ has_wake (entries t) k id w.
Proof.
  intros [Hi _]. unfold lookup_wake, has_wake. split.
  - destruct (wake_deadlines t !! id) as [[k' s]|] eqn:Hid; [|done]. simpl.
    apply Hi in Hid. unfold slot_id in Hid. simpl in Hid.
    destruct (entries t !! k') as [e|] eqn:He; [|done]. simpl in *.
    destruct s as [i|i]; simpl in *.
    + apply list_lookup_fmap_Some in Hid as ([[id' o] v] & -> & Hw). rewrite Hw. simpl.
      intros [= -> <-]. exists e. split; [done|]. apply elem_of_wakes. left. by exists i, o, v.
    + intros [= -> <-]. exists e. split; [done|]. apply elem_of_wakes. right. split; [done|].
      by apply list_elem_of_lookup_2 in Hid.
  - intros (e & He & Hw). apply elem_of_wakes in Hw as [(i & o & v & -> & Hw)|[-> [i Ha]%list_elem_of_lookup]].
    + assert (wake_deadlines t !! id = Some (k, Pending i)) as ->.
      { apply Hi. unfold slot_id. simpl. rewrite He. simpl. by rewrite list_lookup_fmap, Hw. }
      simpl. rewrite He. simpl. by rewrite Hw.
    + assert (wake_deadlines t !! id = Some (k, Held i)) as ->.
      { apply Hi. unfold slot_id. simpl. rewrite He. done. }
      simpl. by rewrite He.
Qed.

Lemma lookup_wake_None t id : timers_wf t → lookup_wake t id = None ↔ wake_deadlines t !! id = None.
Proof.
  intros Hwf. split; [|intros H; unfold lookup_wake; by rewrite H]. intros H.
  destruct (wake_deadlines t !! id) as [[k s]|] eqn:E; [|done]. exfalso.
  apply (wf_index _ Hwf) in E. unfold slot_id in E. simpl in E.
  destruct (entries t !! k) as [e|] eqn:He; [|done]. simpl in E.
  assert (∃ w, has_wake (entries t) k id w) as [w Hw].
  { destruct s as [i|i]; simpl in E.
    - apply list_lookup_fmap_Some in E as ([[id' o] v] & -> & Hw). exists (Some v), e.
      split; [done|]. apply elem_of_wakes. left. by exists i, o, v.
    - exists None, e. split; [done|]. apply elem_of_wakes. right. split; [done|].
      by apply list_elem_of_lookup_2 in E. }
  apply lookup_wake_spec in Hw; [congruence|done].
Qed.

Lemma has_wake_insert m k e k' id w :
  has_wake (<[k := e]> m) k' id w ↔ if decide (k = k') then (id, w) ∈ wakes e else has_wake m k' id w.
Proof.
  unfold has_wake. case_decide; subst; rewrite ?lookup_insert_eq, ?lookup_insert_ne by done; [|done].
  split; [by intros (? & [= <-] & ?)|eauto].
Qed.

Lemma has_wake_put m k e k' id w :
  has_wake (put_entry k e m) k' id w ↔ if decide (k = k') then (id, w) ∈ wakes e else has_wake m k' id w.
Proof.
  unfold put_entry. destruct (is_empty e) eqn:Hemp; [|apply has_wake_insert].
  unfold has_wake. case_decide; subst; rewrite ?lookup_delete_eq, ?lookup_delete_ne by done; [|done].
  split; [by intros (? & ? & _)|]. unfold wakes.
  assert (wakers e = [] ∧ awaiting e = []) as [-> ->].
  { pose proof (is_empty_slots e true Hemp) as H1. pose proof (is_empty_slots e false Hemp).
    simpl in H1. by apply fmap_nil_inv in H1. }
  simpl. by intros ?%elem_of_nil.
Qed.

(** Registering a fresh wake adds it and touches no other. *)
Lemma register_wake_lookup t at_ id owner w id' :
  timers_wf t → wake_deadlines t !! id = None →
  lookup_wake (register_wake t at_ id owner w) id' =
    if decide (id' = id) then Some (at_, Some w) else lookup_wake t id'.
Proof.
  intros Hwf Hid. pose proof (register_wake_wf t at_ id owner w Hwf Hid) as Hwf'.
  apply option_eq. intros [k v]. rewrite lookup_wake_spec by done. simpl. rewrite has_wake_insert.
  set (d := entry_or_default (entries t) at_).
  assert (∀ x, (id', x) ∈ wakes (mk_entry (waits d) (events d) (wakers d ++ [(id, owner, w)])
            (awaiting d) (owners d)) ↔ (id' = id ∧ x = Some w) ∨ (id', x) ∈ wakes d) as Hmem.
  { intros x. unfold wakes. simpl. rewrite fmap_app, !elem_of_app. simpl. rewrite list_elem_of_singleton.
    split; [intros [[?|[= -> ->]]|?]; auto|intros [[-> ->]|[?|?]]; auto]. }
  assert (∀ x, has_wake (entries t) at_ id' x ↔ (id', x) ∈ wakes d) as Hd.
  { intros x. unfold has_wake, d, entry_or_default. destruct (entries t !! at_) as [e|]; simpl.
    - split; [by intros (? & [= <-] & ?)|eauto].
    - split; [by intros (? & ? & _)|]. unfold wakes. simpl. by intros ?%elem_of_nil. }
  case_decide as Hk.
  - subst k. rewrite Hmem, <- Hd, <- lookup_wake_spec by done. case_decide as Hx.
    + subst id'. split; [intros [[_ ->]|Hl]; [done|]|intros [= <-]; by left].
      rewrite (proj2 (lookup_wake_None t id Hwf) Hid) in Hl. done.
    + split; [intros [[? _]|?]; done|by right].
  - rewrite <- lookup_wake_spec by done. case_decide as Hx; [|done]. subst id'.
    rewrite (proj2 (lookup_wake_None t id Hwf) Hid). split; [done|congruence].
Qed.

Lemma elem_of_swap_remove {A} (l : list A) i x y :
  l !! i = Some x → y ∈ l ↔ y = x ∨ y ∈ swap_remove i l.
Proof. intros H. rewrite (swap_remove_Permutation l i x H) at 1. apply elem_of_cons. Qed.

Lemma fmap_swap_remove {A B} (f : A → B) i l : f <$> swap_remove i l = swap_remove i (f <$> l).
Proof.
  unfold swap_remove. rewrite fmap_last. destruct (last l) as [x|]; simpl; [|done].
  by rewrite fmap_take, list_fmap_insert, length_fmap.
Qed.

(** Cancelling never panics; it takes the wake out, hands back its waker if it was pending, and
    touches no other wake. *)
Lemma cancel_wake_spec t id : timers_wf t →
  ∃ t', cancel_wake t id = Some (snd <$> lookup_wake t id, t') ∧ timers_wf t' ∧
    ∀ id', lookup_wake t' id' = if decide (id' = id) then None else lookup_wake t id'.
Proof.
  intros Hwf. pose proof Hwf as [Hi He]. unfold cancel_wake, lookup_wake at 1.
  destruct (wake_deadlines t !! id) as [[k s]|] eqn:Hid; simpl.
  2:{ exists t. split_and!; [done..|]. intros id'. case_decide; [subst|done].
      by apply lookup_wake_None. }
  pose proof (proj1 (Hi id (k, s)) Hid) as Hslot. unfold slot_id in Hslot. simpl in Hslot.
  destruct (entries t !! k) as [e|] eqn:Hk; [|done]. simpl in *.
  assert (∀ e' wd', index_ok (put_entry k e' (entries t)) wd' → entry_ok e' → wd' !! id = None →
    (∀ x, x ≠ id → ∀ w, (x, w) ∈ wakes e' ↔ (x, w) ∈ wakes e) →
    let t' := mk_timers (put_entry k e' (entries t)) wd' in
    timers_wf t' ∧ ∀ id', lookup_wake t' id' = if decide (id' = id) then None else lookup_wake t id')
    as Hfin.
  { intros e' wd' Hix Hok Hnone Hmem t'.
    assert (timers_wf t') as Hwf'.
    { split; [done|]. intros j x. by apply entries_put_lookup. }
    split; [done|]. intros id'. case_decide as Hx; [subst; by apply lookup_wake_None|].
    apply option_eq. intros [j w]. rewrite !lookup_wake_spec by done. simpl. rewrite has_wake_put.
    case_decide; [subst j|done]. rewrite Hmem by done. unfold has_wake. rewrite Hk.
    split; [eauto|by intros (? & [= <-] & ?)]. }
  destruct (He _ _ Hk) as [[] _]. destruct s as [i|i]; simpl in *.
  - destruct (wakers e !! i) as [[[id0 o] v]|] eqn:Hw; [|by rewrite list_lookup_fmap, Hw in Hslot].
    rewrite list_lookup_fmap, Hw in Hslot. simplify_eq/=. eexists. split; [done|].
    pose proof (index_swap_remove (entries t) (wake_deadlines t) k e
      (mk_entry (waits e) (events e) (swap_remove i (wakers e)) (awaiting e) (owners e)) true i id0
      Hi Hk ltac:(simpl; by rewrite list_lookup_fmap, Hw) ltac:(apply fmap_swap_remove) eq_refl) as Hix.
    simpl in Hix.
    pose proof (swap_remove_Permutation (wakers e) i _ Hw) as Hperm.
    apply Hfin.
    + rewrite list_lookup_fmap in Hix.
      destruct (swap_remove i (wakers e) !! i) as [[[m0 o'] v']|]; exact Hix.
    + by split.
    + pose proof (slots_NoDup _ _ _ _ true Hi Hk) as Hnd. simpl in Hnd.
      rewrite Hperm in Hnd. simpl in Hnd. apply NoDup_cons in Hnd as [Hni _].
      destruct (swap_remove i (wakers e) !! i) as [[[m0 o'] v']|] eqn:Hm; [|apply lookup_delete_eq].
      rewrite lookup_insert_ne; [apply lookup_delete_eq|]. intros Heq.
      apply Hni, list_elem_of_fmap. exists (m0, o', v'). split; [by rewrite Heq|].
      by apply list_elem_of_lookup_2 in Hm.
    + intros x Hx w. unfold wakes. simpl. rewrite fmap_swap_remove, !elem_of_app.
      rewrite (elem_of_swap_remove ((λ w, (waker_id w, Some w.2)) <$> wakers e) i (id0, Some v))
        by (by rewrite list_lookup_fmap, Hw).
      split; [intros [?|?]; auto|intros [[[= -> _]|?]|?]; auto; by destruct Hx].
  - rewrite Hslot. simpl. eexists. split; [done|].
    pose proof (index_swap_remove (entries t) (wake_deadlines t) k e
      (mk_entry (waits e) (events e) (wakers e) (swap_remove i (awaiting e)) (owners e)) false i id
      Hi Hk Hslot eq_refl eq_refl) as Hix. simpl in Hix.
    pose proof (swap_remove_Permutation (awaiting e) i _ Hslot) as Hperm.
    apply Hfin; [exact Hix|by split| |].
    + pose proof (slots_NoDup _ _ _ _ false Hi Hk) as Hnd. simpl in Hnd.
      rewrite Hperm in Hnd. apply NoDup_cons in Hnd as [Hni _].
      destruct (swap_remove i (awaiting e) !! i) as [m0|] eqn:Hm; [|apply lookup_delete_eq].
      rewrite lookup_insert_ne; [apply lookup_delete_eq|]. intros <-.
      apply Hni. by apply list_elem_of_lookup_2 in Hm.
    + intros x Hx w. unfold wakes. simpl. rewrite fmap_swap_remove, !elem_of_app.
      rewrite (elem_of_swap_remove ((λ id, (id, None)) <$> awaiting e) i (id, None))
        by (by rewrite list_lookup_fmap, Hslot).
      split; [intros [?|?]; auto|intros [?|[?|?]]; auto; congruence].
Qed.

(** ** Delivering and pruning *)

Lemma has_wake_fire m k e (hold : bool) n ev os k' id w :
  m !! k = Some e → NoDup (waker_id <$> wakers e) →
  let aw := (if hold then awaiting e ++ (waker_id <$> wakers e) else awaiting e) in
  has_wake (<[k := mk_entry n ev [] aw os]> m) k' id w ↔
    (k' ≠ k ∧ has_wake m k' id w) ∨
    (k' = k ∧ w = None ∧ (has_wake m k id None ∨ (hold = true ∧ ∃ v, has_wake m k id (Some v)))).
Proof.
  intros He Hnd aw. rewrite has_wake_insert.
  assert (∀ x, has_wake m k id x ↔ (id, x) ∈ wakes e) as Hm.
  { intros x. unfold has_wake. rewrite He. split; [by intros (? & [= <-] & ?)|eauto]. }
  case_decide as Hk; [subst k'|split; [by left|intros [[_ ?]|[? _]]; [done|congruence]]].
  rewrite Hm. setoid_rewrite Hm. setoid_rewrite elem_of_wakes. simpl. split.
  - intros [(i & o & v & _ & Hi)|[-> Ha]]; [by rewrite lookup_nil in Hi|]. right. split_and!; [done..|].
    unfold aw in Ha. destruct hold; [|by left; right].
    apply elem_of_app in Ha as [Ha|Ha]; [by left; right|right]. split; [done|].
    apply list_elem_of_fmap in Ha as ([[id' o] v] & -> & [i Hi]%list_elem_of_lookup).
    exists v. left. by exists i, o, v.
  - intros [[? _]|(_ & -> & [[(? & ? & ? & ? & _)|[_ Ha]]|[-> [v [(i & o & v' & _ & Hi)|[? _]]]]])]; try done; right; (split; [done|]).
    + unfold aw. destruct hold; [apply elem_of_app; by left|done].
    + unfold aw. apply elem_of_app. right. apply list_elem_of_fmap. exists (id, o, v').
      split; [done|]. by apply list_elem_of_lookup_2 in Hi.
Qed.

(** Firing the entry at [at_] delivers exactly its pending wakes: each leaves the table, or with
    [hold] stays as delivered; every other wake is as it was. *)
Lemma fire_at_lookup t at_ hold e r t' id : timers_wf t → entries t !! at_ = Some e →
  fire_at t at_ hold = Some (r, t') →
  lookup_wake t' id =
    match lookup_wake t id with
    | Some (k, Some v) => if decide (k = at_) then (if hold then Some (k, None) else None)
                          else Some (k, Some v)
    | x => x
    end.
Proof.
  intros Hwf He Hf. destruct (fire_at_spec t at_ hold e Hwf He) as (t1 & Hf' & Hwf' & _).
  rewrite Hf in Hf'. injection Hf' as Hr <-. pose proof Hwf as [Hi _].
  pose proof (slots_NoDup _ _ _ _ true Hi He) as Hnd. simpl in Hnd.
  assert (∀ k w, has_wake (entries t') k id w ↔
    (k ≠ at_ ∧ has_wake (entries t) k id w) ∨
    (k = at_ ∧ w = None ∧ (has_wake (entries t) at_ id None ∨
        (hold = true ∧ ∃ v, has_wake (entries t) at_ id (Some v))))) as Hhas.
  { unfold fire_at, take_wakers_at in Hf. rewrite He in Hf. simpl in Hf.
    rewrite lookup_insert_eq in Hf. simpl in Hf.
    destruct (take_loop_spec at_ hold (wakers e) (awaiting e) (wake_deadlines t) Hnd) as (H1 & _ & _).
    destruct (take_loop at_ hold (wakers e) (awaiting e) (wake_deadlines t)) as [aw wd]. simpl in *.
    rewrite lookup_insert_eq in Hf. simpl in Hf. rewrite insert_insert_eq in Hf. subst aw.
    injection Hf as _ Ht. intros k w.
    rewrite <- (has_wake_fire _ _ _ hold (waits e) 0 (owners e) k id w He Hnd). subst t'.
    case_match eqn:Hemp; [|done]. simpl. rewrite delete_insert_eq.
    pose proof (has_wake_put (entries t) at_
      (mk_entry (waits e) 0 [] (if hold then awaiting e ++ (waker_id <$> wakers e) else awaiting e) (owners e))
      k id w) as Hp.
    unfold put_entry in Hp. rewrite Hemp in Hp. by rewrite Hp, has_wake_insert. }
  apply option_eq. intros [k w]. rewrite lookup_wake_spec, Hhas by done.
  rewrite <- !lookup_wake_spec by done. setoid_rewrite <- lookup_wake_spec; [|done].
  destruct (lookup_wake t id) as [[k0 [v0|]]|].
  - case_decide as Hk.
    + subst k0. destruct hold.
      * split; [intros [[? [= <- <-]]|(-> & -> & _)]; done|]. intros [= <- <-]. right.
        split_and!; [done..|]. right. eauto.
      * split; [intros [[? [= <- <-]]|(-> & -> & [?|[? _]])]; done|done].
    + split; [intros [[? ?]|(-> & -> & [[=]|[_ [v [= ]]]])]; congruence|]. intros [= <- <-]. by left.
  - split; [intros [[? ?]|(-> & -> & [?|[_ [v ?]]])]; congruence|]. intros [= <- <-].
    destruct (decide (k0 = at_)); [right|left]; subst; auto.
  - split; [intros [[? ?]|(-> & -> & [?|[_ [v ?]]])]; done|done].
Qed.

Lemma foldl_delete_lookup (ids : list Z) wd id :
  foldl (λ wd id, delete id wd) wd ids !! id = if decide (id ∈ ids) then None else wd !! id.
Proof.
  revert wd. induction ids as [|x ids IH]; intros wd; cbn [foldl].
  - case_decide as H; [by apply elem_of_nil in H|done].
  - rewrite IH, lookup_delete. destruct (decide (id ∈ x :: ids)) as [Hin|Hni].
    + apply elem_of_cons in Hin as [->|Hin]; repeat case_decide; done.
    + apply not_elem_of_cons in Hni as [Hne Hni]. repeat case_decide; congruence.
Qed.

Lemma foldl_delete_entries (es : list (entry W)) wd id :
  foldl (λ wd e, foldl (λ wd id, delete id wd) wd (entry_ids e)) wd es !! id =
    if decide (id ∈ es ≫= entry_ids) then None else wd !! id.
Proof.
  revert wd. induction es as [|x es IH]; intros wd; cbn [foldl].
  - case_decide as H; [by apply elem_of_nil in H|done].
  - rewrite IH, foldl_delete_lookup, bind_cons.
    destruct (decide (id ∈ entry_ids x ++ (es ≫= entry_ids))) as [Hin|Hni].
    + apply elem_of_app in Hin as [Hin|Hin]; repeat case_decide; done.
    + apply not_elem_of_app in Hni as [Hne Hni]. repeat case_decide; done.
Qed.

Lemma elem_of_entry_ids e id : id ∈ entry_ids e ↔ ∃ c i, slots e c !! i = Some id.
Proof.
  unfold entry_ids. rewrite elem_of_app, !list_elem_of_lookup. split.
  - intros [[i Hi]|[i Hi]]; [by exists false, i|by exists true, i].
  - intros ([] & i & Hi); [right|left]; by exists i.
Qed.

Lemma take_upto_entries t upto k :
  entries (take_upto t upto).2 !! k = if decide (sat_add upto 1 ≤ k) then entries t !! k else None.
Proof.
  unfold take_upto, split_off. simpl. case_decide as Hk.
  - destruct (entries t !! k) as [e|] eqn:E.
    + by apply map_lookup_filter_Some.
    + apply map_lookup_filter_None. by left.
  - apply map_lookup_filter_None. right. intros e _. done.
Qed.

Lemma take_upto_deadlines t upto id : timers_wf t →
  wake_deadlines (take_upto t upto).2 !! id =
    match wake_deadlines t !! id with
    | Some (k, s) => if decide (sat_add upto 1 ≤ k) then Some (k, s) else None
    | None => None
    end.
Proof.
  intros [Hi _]. unfold take_upto, split_off. simpl. rewrite foldl_delete_entries.
  match goal with |- context [decide (id ∈ ?l)] =>
    assert (id ∈ l ↔ ∃ k s, wake_deadlines t !! id = Some (k, s) ∧ k < sat_add upto 1) as Hin end.
  { rewrite list_elem_of_bind. split.
    - intros (e & Hid & He). apply list_elem_of_omap in He as (k & _ & He).
      apply map_lookup_filter_Some in He as [He Hk]. simpl in Hk.
      apply elem_of_entry_ids in Hid as (c & i & Hs). exists k, (slot c i). split; [|done].
      apply Hi. unfold slot_id. simpl. rewrite He. by destruct c.
    - intros (k & s & Hs & Hk). apply Hi in Hs. unfold slot_id in Hs. simpl in Hs.
      destruct (entries t !! k) as [e|] eqn:He; [|done]. simpl in Hs. exists e.
      split; [apply elem_of_entry_ids; eauto|]. apply list_elem_of_omap. exists k.
      assert (filter (λ kv : Z * entry W, kv.1 < sat_add upto 1) (entries t) !! k = Some e) as Hf
        by by apply map_lookup_filter_Some.
      split; [apply elem_of_keys; by rewrite Hf|done]. }
  destruct (wake_deadlines t !! id) as [[k s]|] eqn:Hid.
  - case_decide as Hd; case_decide as Hk; try done; exfalso.
    + apply Hin in Hd as (? & ? & [= <- <-] & ?). lia.
    + apply Hd, Hin. exists k, s. split; [done|lia].
  - case_decide as Hd; [|done]. apply Hin in Hd as (? & ? & ? & _). done.
Qed.

Lemma take_upto_wf t upto : timers_wf t → timers_wf (take_upto t upto).2.
Proof.
  intros Hwf. pose proof Hwf as [Hi He]. split.
  - intros id [k s]. rewrite take_upto_deadlines by done.
    unfold slot_id. cbn [fst snd]. rewrite take_upto_entries. specialize (Hi id (k, s)).
    unfold slot_id in Hi. simpl in Hi. case_decide as Hk.
    + rewrite <- Hi. destruct (wake_deadlines t !! id) as [[k' s']|]; [|done].
      case_decide as Hk'; [done|]. split; [done|]. intros [= -> ->]. done.
    + destruct (wake_deadlines t !! id) as [[k' s']|]; [|done].
      case_decide; [|done]. split; [|done]. intros [= -> ->]. done.
  - intros k e. rewrite take_upto_entries. case_decide; [apply He|done].
Qed.

Lemma take_upto_lookup t upto id : timers_wf t →
  lookup_wake (take_upto t upto).2 id =
    match lookup_wake t id with
    | Some (k, w) => if decide (sat_add upto 1 ≤ k) then Some (k, w) else None
    | None => None
    end.
Proof.
  intros Hwf. pose proof (take_upto_wf t upto Hwf) as Hwf'. apply option_eq. intros [k w].
  rewrite lookup_wake_spec by done. unfold has_wake. rewrite take_upto_entries.
  destruct (lookup_wake t id) as [[k0 w0]|] eqn:Hl.
  - apply lookup_wake_spec in Hl as Hl'; [|done]. case_decide as Hk.
    + assert (has_wake (entries t) k id w ↔ lookup_wake t id = Some (k, w)) as Hw
        by (symmetry; by apply lookup_wake_spec).
      unfold has_wake in Hw. rewrite Hw, Hl. case_decide; [done|]. split; [intros [= -> ->]|]; done.
    + split; [by intros (? & ? & _)|]. case_decide; [|done]. intros [= -> ->]. done.
  - split; [|done]. case_decide; [|by intros (? & ? & _)]. intros Hw.
    apply (lookup_wake_spec t id k w Hwf) in Hw. congruence.
Qed.

Lemma reached_wait_spec t now :
  reached_wait t now = true ↔ ∃ k e, entries t !! k = Some e ∧ k ≤ now ∧ awaited e = true.
Proof.
  unfold reached_wait. rewrite existsb_exists. split.
  - intros (k & Hk & Ha). apply list_elem_of_In, elem_of_keys_upto in Hk as [[e He] Hn].
    rewrite He in Ha. eauto.
  - intros (k & e & He & Hn & Ha). exists k. rewrite He. split; [|done].
    apply list_elem_of_In, elem_of_keys_upto. eauto.
Qed.

End wf.
