(* ===== verification/Clock.v ===== *)
(** * The virtual clock

    Models [Clock] of crates/snare/src/clock.rs: the clock a sim runs on, its base modes
    (discrete-event and as-fast-as-possible), its scaled, paused and driven modes, its two timer
    tables and the time skip between deadlines.

    The atomics of the source are the fields of four records, by what uses them together: the
    [dial] (the line published under the seqlock, the floor of readings handed out, and an
    executive's ownership), the [setup] fixed before the sim's threads run, the [tables] of timers
    and the [pace] that holds the clock to real time. Each operation runs as one step: the source
    serialises every writer with [Clock::control] and the tables' mutexes. What an operation takes
    from outside is an argument: [real] is a sample of [real_nanos()] (an operation that samples
    twice takes [real] and [real']), [me] the calling thread's lineage, [foreign] whether it is not
    a participant, [got] whether [try_control] found the lock free. A [Waker] is opaque; an
    operation that takes wakers returns them for its caller to wake ([Clock::wake_taken]). *)

From S2P Require Import Prelude Line Timers TimersWf.

(** [ClockKind] *)
Inductive clock_kind := Monotonic | Realtime | Tai.

(** [SpinStep] of crates/snare-interpose/src/layer.rs *)
Inductive spin_result := SpinHeld | SpinRuns | SpinWaking | SpinMoved (fired : bool).

Definition FIXED_EPOCH_NANOS : Z := 1700000000 * 1000000000.
Definition START_GRAIN : Z := 1000000000.
Definition SPIN_SETTLE : Z := 5000000.
Definition HELD_POLL : Z := 200000000.
Definition CHILD_GRACE : Z := 100000000.
Definition WINDOWS_TIMER_UNIT : Z := 100.

(** The part of the clock a reading depends on. *)
Record dial := mk_dial {
  the_line : line;          (* monotonic_nanos, anchor_real, rate_q32, horizon *)
  paused : bool;
  scaled_rate : rate;
  floor : Z;
  driven : bool;
  stamp : Z;
  driver_gen : Z;
}.

Abbreviation monotonic_nanos d := (anchor_v (the_line d)).

Record setup := mk_setup {
  base_realtime_nanos : Z;
  origin : Z;
  begun : bool;
  tai_offset_nanos : Z;
  discrete : bool;
  deterministic : bool;
}.

Record pace := mk_pace {
  dormant : bool;
  dormant_v : Z;
  dormant_real : Z;
  outside : Z;
  outside_v : Z;
  outside_real : Z;
  children : list (Z * option Z);
}.

Section clock.
Context {W : Type}.
(** The build's target and the frequency of the host's performance counter ([QueryPerformanceFrequency],
    a Windows API), positive. *)
Context (os : target_os) (frequency : Z).

Record tables := mk_tables {
  pending : timers W;
  foreign : timers W;
  fired : bool;
  woke_timers : bool;
  spin_due_since : Z;
  held : bool;
}.

Record clock := mk_clock {
  dl : dial;
  su : setup;
  tb : tables;
  pc : pace;
}.

Definition with_dial (f : dial → dial) (c : clock) : clock := mk_clock (f (dl c)) (su c) (tb c) (pc c).
Definition with_tables (f : tables → tables) (c : clock) : clock :=
  mk_clock (dl c) (su c) (f (tb c)) (pc c).
Definition with_pace (f : pace → pace) (c : clock) : clock := mk_clock (dl c) (su c) (tb c) (f (pc c)).

Definition set_line (l : line) (d : dial) : dial :=
  mk_dial l (paused d) (scaled_rate d) (floor d) (driven d) (stamp d) (driver_gen d).
Definition set_mono (v : Z) (d : dial) : dial :=
  set_line (mk_line v (anchor_real (the_line d)) (rate_q32 (the_line d)) (horizon (the_line d))) d.
Definition set_paused (b : bool) (d : dial) : dial :=
  mk_dial (the_line d) b (scaled_rate d) (floor d) (driven d) (stamp d) (driver_gen d).
Definition set_scaled_rate (r : rate) (d : dial) : dial :=
  mk_dial (the_line d) (paused d) r (floor d) (driven d) (stamp d) (driver_gen d).
(** [floor.fetch_max(v)] *)
Definition raise_floor (v : Z) (d : dial) : dial :=
  mk_dial (the_line d) (paused d) (scaled_rate d) (Z.max (floor d) v) (driven d) (stamp d)
    (driver_gen d).
Definition set_driven (b : bool) (d : dial) : dial :=
  mk_dial (the_line d) (paused d) (scaled_rate d) (floor d) b (stamp d) (driver_gen d).
Definition set_stamp_to (v : Z) (d : dial) : dial :=
  mk_dial (the_line d) (paused d) (scaled_rate d) (floor d) (driven d) v (driver_gen d).
Definition next_driver_gen (d : dial) : dial :=
  mk_dial (the_line d) (paused d) (scaled_rate d) (floor d) (driven d) (stamp d)
    (wrap_u64 (driver_gen d + 1)).

Definition set_pending (t : timers W) (x : tables) : tables :=
  mk_tables t (foreign x) (fired x) (woke_timers x) (spin_due_since x) (held x).
Definition set_foreign (t : timers W) (x : tables) : tables :=
  mk_tables (pending x) t (fired x) (woke_timers x) (spin_due_since x) (held x).
Definition set_fired (b : bool) (x : tables) : tables :=
  mk_tables (pending x) (foreign x) b (woke_timers x) (spin_due_since x) (held x).
Definition set_woke (b : bool) (x : tables) : tables :=
  mk_tables (pending x) (foreign x) (fired x) b (spin_due_since x) (held x).
Definition set_spin_due (v : Z) (x : tables) : tables :=
  mk_tables (pending x) (foreign x) (fired x) (woke_timers x) v (held x).
Definition set_held (b : bool) (x : tables) : tables :=
  mk_tables (pending x) (foreign x) (fired x) (woke_timers x) (spin_due_since x) b.

(** [Clock::timers(foreign)] *)
Definition timers_of (fgn : bool) (c : clock) : timers W :=
  if fgn then foreign (tb c) else pending (tb c).
Definition set_timers (fgn : bool) (t : timers W) (c : clock) : clock :=
  with_tables (if fgn then set_foreign t else set_pending t) c.

(** [Clock::new] *)
Definition new (tai_offset_secs : Z) : clock :=
  mk_clock
    (mk_dial (mk_line 0 0 0 u64_max) false rate_zero 0 false 0 0)
    (mk_setup FIXED_EPOCH_NANOS 0 false (tai_offset_secs * 1000000000) true false)
    (mk_tables timers_default timers_default false false 0 false)
    (mk_pace false 0 0 0 0 0 []).

(** [nanos(d)] of a duration counted in nanoseconds. *)
Definition nanos (d : Z) : Z := Z.min d u64_max.

(** [next_performance_count] of crates/snare-interpose/src/os/windows.rs *)
Definition next_performance_count (t : Z) : Z :=
  let next := t * frequency / 1000000000 + 1 in
  wrap_u64 (div_ceil (next * 1000000000) frequency).

(** [creep_past] *)
Definition creep_past (t : Z) : Z :=
  if is_windows os then
    let tick := nanos (next_performance_count t) in
    let tick := if t <? tick then tick else sat_add t 1 in
    Z.max tick (sat_add t WINDOWS_TIMER_UNIT)
  else sat_add t 1.

(** ** Modes *)

Definition is_driven (c : clock) : bool := driven (dl c).
Definition is_discrete (c : clock) : bool := discrete (su c).
Definition is_deterministic (c : clock) : bool := deterministic (su c).
Definition is_paused (c : clock) : bool := paused (dl c).
(** [Clock::is_scaled] *)
Definition dial_scaled (d : dial) : bool := negb (rate_q32 (the_line d) =? 0).
Definition is_scaled (c : clock) : bool := dial_scaled (dl c).
Definition is_dormant (c : clock) : bool := dormant (pc c).

(** [Clock::jumps] *)
Definition jumps (c : clock) : bool :=
  negb (is_discrete c) && negb (is_paused c) && negb (is_scaled c) && negb (is_driven c) &&
  negb (is_dormant c).

(** ** Reading *)

(** [Clock::held_value] *)
Definition held_value (d : dial) : Z := Z.max (monotonic_nanos d) (floor d).

(** [Clock::line_value] *)
Definition line_value (real : Z) (d : dial) : Z * dial :=
  let v := value_at (the_line d) real in
  (Z.max (floor d) v, raise_floor v d).

(** [Clock::peek] *)
Definition peek_dial (real : Z) (d : dial) : Z * dial :=
  if driven d then line_value real d
  else if paused d || negb (dial_scaled d) then (held_value d, d)
  else line_value real d.

Definition peek (real : Z) (c : clock) : Z * clock :=
  let '(v, d) := peek_dial real (dl c) in (v, with_dial (λ _, d) c).

(** [Clock::realtime_at] *)
Definition realtime_at (s : setup) (monotonic : Z) : Z := sat_add (base_realtime_nanos s) monotonic.

(** [Clock::reading] *)
Definition reading (s : setup) (kind : clock_kind) (m : Z) : Z :=
  match kind with
  | Monotonic => m
  | Realtime => realtime_at s m
  | Tai => realtime_at s m + tai_offset_nanos s
  end.

(** [Clock::high_water] *)
Definition high_water (real : Z) (c : clock) : (Z * Z) * clock :=
  let '(v, c) := peek real c in
  let m := Z.max v (stamp (dl c)) in ((m, realtime_at (su c) m), c).

(** [Clock::sim_time] and [Clock::at_sim_time] *)
Definition sim_time (s : setup) (monotonic : Z) : Z := sat_sub monotonic (origin s).
Definition at_sim_time (s : setup) (t : Z) : Z := sat_add (origin s) (nanos t).

(** [Clock::monotonic] and [Clock::value] *)
Definition monotonic (real : Z) (c : clock) : Z * clock :=
  let '(v, c) := peek real c in (Z.max v (stamp (dl c)), c).
Definition value (real : Z) (c : clock) : Z * clock :=
  let '(v, c) := monotonic real c in (sim_time (su c) v, c).

(** ** Writing the dial *)

(** [Clock::publish] *)
Definition publish (real rate_q32' : Z) (paused' : bool) (to : Z → Z) (d : dial) : dial :=
  let held := held_value d in
  let now := if paused d || negb (dial_scaled d) then held
             else Z.max (value_at (the_line d) real) held in
  set_paused paused'
    (set_line (mk_line (Z.max (monotonic_nanos d) (to now)) real rate_q32' u64_max) d).

(** [Clock::publish_line] *)
Definition publish_line (anchor_v' anchor_real' rate_q32' horizon' : Z) (d : dial) : dial :=
  set_line (mk_line (Z.max (monotonic_nanos d) anchor_v') anchor_real' rate_q32' horizon') d.

(** [Clock::step_base]: the readings before and after. *)
Definition step_base (by_ : Z) (d : dial) : (Z * Z) * dial :=
  let before := Z.max (monotonic_nanos d) (floor d) in
  let after := sat_add before by_ in
  ((before, after), raise_floor after (set_mono after d)).

(** [Clock::jump_to] *)
Definition jump_to (wake : Z) (c : clock) : bool * clock :=
  if jumps c then (true, with_dial (λ d, set_mono (Z.max (monotonic_nanos d) wake) d) c)
  else (false, c).

(** [Clock::advance] *)
Definition advance (real : Z) (got : bool) (c : clock) : Z * clock :=
  if negb (jumps c) then
    let stamp := stamp (dl c) in
    let '(v, c) := peek real c in (Z.max v stamp, c)
  else if negb got then peek real c
  else let '((_, after), d) := step_base 1000 (dl c) in (after, with_dial (λ _, d) c).

(** [Clock::now] *)
Definition now (kind : clock_kind) (real : Z) (got : bool) (c : clock) : Z * clock :=
  let '(m, c) := advance real got c in (reading (su c) kind m, c).

(** [Clock::start_at] *)
Definition start_at (monotonic realtime : Z) (c : clock) : clock :=
  let base := Z.max (sat_sub realtime monotonic) FIXED_EPOCH_NANOS in
  let start := if (monotonic =? 0) && (realtime =? 0) then 0
               else sat_mul (div_ceil (sat_add monotonic START_GRAIN) START_GRAIN) START_GRAIN in
  let s := su c in
  mk_clock
    (raise_floor start
       (publish_line start (anchor_real (the_line (dl c))) (rate_q32 (the_line (dl c)))
          (horizon (the_line (dl c))) (dl c)))
    (mk_setup base start (begun s) (tai_offset_nanos s) (discrete s) (deterministic s))
    (tb c) (pc c).

(** [Clock::begin] on a clock not yet begun, given the highest readings of the process's other
    clocks ([TIMELINES]: those dropped, and the [high_water] of those alive). *)
Definition begin (fixed : bool) (monotonic realtime : Z) (c : clock) : clock :=
  if begun (su c) then c
  else
    let c := if fixed then c else start_at monotonic realtime c in
    let s := su c in
    mk_clock (dl c)
      (mk_setup (base_realtime_nanos s) (origin s) true (tai_offset_nanos s) (discrete s)
         (deterministic s)) (tb c) (pc c).

(** [Clock::set_rate] *)
Definition set_rate (real : Z) (r : rate) (c : clock) : clock :=
  if is_driven c then c
  else if rate_is_zero r then
    if is_paused c then c
    else with_dial (λ d, publish real (rate_q32 (the_line d)) true (λ now, now) d) c
  else
    let '(q32, scaled) :=
      match r with
      | RFinite q => (rate_to_q32 (RFinite (Qmin2 q max_rate)), RFinite (Qmin2 q max_rate))
      | RInfinity => (0, rate_zero)
      end in
    with_dial (λ d, set_scaled_rate scaled (publish real q32 false (λ now, now) d)) c.

(** [Clock::rate] *)
Definition get_rate (c : clock) : rate :=
  if is_driven c then scaled_rate (dl c)
  else if is_paused c then rate_zero
  else if rate_is_zero (scaled_rate (dl c)) then RInfinity else scaled_rate (dl c).

(** [Clock::pause] and [Clock::resume] *)
Definition pause (real : Z) (c : clock) : clock := set_rate real rate_zero c.
Definition resume (real : Z) (c : clock) : clock :=
  if negb (is_paused c) || is_driven c then c
  else with_dial (λ d, publish real (rate_q32 (the_line d)) false (λ now, now) d) c.

(** [Clock::advance_by] *)
Definition advance_by (real : Z) (d : Z) (c : clock) : clock :=
  if d =? 0 then c
  else if is_driven c then c
  else with_dial (λ x, publish real (rate_q32 (the_line x)) (paused x)
                         (λ now, sat_add now (nanos d)) x) c.

(** [Clock::set_value]: [inr] of the current sim time when the value lies before it. *)
Definition set_value (real real' : Z) (value : Z) (c : clock) : (unit + Z) * clock :=
  let value := sat_add (origin (su c)) (nanos value) in
  let '(now, c) := peek real c in
  if is_driven c then (inl tt, c)
  else if value <? now then (inr (sim_time (su c) now), c)
  else if now <? value then
    (inl tt, with_dial (λ x, publish real' (rate_q32 (the_line x)) (paused x)
                               (λ now, Z.max now value) x) c)
  else (inl tt, c).

(** ** An executive's ownership *)

(** [Clock::attach_driven] *)
Definition attach_driven (real real' : Z) (c : clock) : clock :=
  let '(now, c) := peek real c in
  with_dial (λ d, set_paused false (set_driven true (set_scaled_rate rate_zero
                    (publish_line now real' 0 now d)))) c.

(** [Clock::detach_driven] *)
Definition detach_driven (real real' : Z) (c : clock) : clock :=
  if negb (is_driven c) then c
  else
    let '(v, c) := peek real c in
    let now := Z.max v (stamp (dl c)) in
    with_dial (λ d, set_scaled_rate rate_zero (set_driven false (next_driver_gen
      (set_stamp_to 0 (raise_floor now (publish_line now real' 0 u64_max d)))))) c.

(** [Clock::grant] *)
Definition grant (real real' : Z) (anchor_v' anchor_real' : Z) (r : rate) (horizon' : Z) (c : clock)
    : clock :=
  if negb (is_driven c) then c
  else
    let '(now, c) := peek real c in
    let '(av, ar) := if now <=? anchor_v' then (anchor_v', anchor_real') else (now, real') in
    with_dial (λ d, set_scaled_rate r
                      (publish_line av ar (rate_to_q32 r) (Z.max horizon' av) d)) c.

(** [Clock::freeze] *)
Definition freeze (real real' : Z) (c : clock) : clock :=
  if negb (is_driven c) then c
  else
    let '(now, c) := peek real c in
    with_dial (λ d, set_scaled_rate rate_zero (publish_line now real' 0 now d)) c.

(** [Clock::set_stamp] *)
Definition set_stamp (t : option Z) (c : clock) : clock :=
  with_dial (set_stamp_to (default 0 t)) c.

(** ** Deadlines *)

(** [Clock::next_deadline_after], [Clock::next_any_after] *)
Definition next_deadline_after (now : Z) (c : clock) : option Z :=
  first_from (entries (pending (tb c))) (sat_add now 1).

Definition option_min (a b : option Z) : option Z :=
  match a, b with
  | Some x, Some y => Some (Z.min x y)
  | Some x, None => Some x
  | None, b => b
  end.

Definition next_any_after (now : Z) (c : clock) : option Z :=
  option_min (first_from (entries (pending (tb c))) (sat_add now 1))
             (first_from (entries (foreign (tb c))) (sat_add now 1)).

(** [Clock::jump_driven] *)
Definition jump_driven (real real' : Z) (t : Z) (to_next past : bool) (c : clock) : (Z * Z) * clock :=
  let '(now, c) := peek real c in
  if negb (is_driven c) then ((now, now), c)
  else
    let landing := match (if to_next then next_deadline_after now c else None) with
                   | Some next => Z.min next t
                   | None => t
                   end in
    let to := Z.max now landing in
    let reach := if past then creep_past to else to in
    let hz := Z.max (horizon (the_line (dl c))) reach in
    ((now, to), with_dial (λ d, publish_line to real' (rate_q32 (the_line d)) hz d) c).

(** [Clock::due]: the owner of the earliest participant timer reached and not taken. *)
Definition due (real : Z) (c : clock) : option (option Z) * clock :=
  let '(now, c) := peek real c in
  let t := pending (tb c) in
  (match keys_upto (entries t) now with
   | k :: _ => Some (e ← entries t !! k; Owners.first (owners e))
   | [] => None
   end, c).

(** [Clock::reached]: whether any timer falls in [(before, after]]. *)
Definition in_range (m : gmap Z (entry W)) (before after : Z) : bool :=
  match first_from m (sat_add before 1) with Some k => k <=? after | None => false end.
Definition reached (before after : Z) (c : clock) : bool :=
  in_range (entries (pending (tb c))) before after ||
  in_range (entries (foreign (tb c))) before after.

(** [Clock::add_pending] *)
Definition add_timer (wake : Z) (fgn event : bool) (me : Z) (c : clock) : clock :=
  set_timers fgn (add_pending (timers_of fgn c) wake event me) c.

(** [Clock::fire_upto], one table: the count over [(from, t]], the wakers in order, the table. *)
Definition fire_one (counted hold : bool) (from : Z) (acc : Z * bool * list W * timers W) (at_ : Z)
    : Z * bool * list W * timers W :=
  let '(n, any, ws, t) := acc in
  match entries t !! at_ with
  | None => (n, any, ws, t)
  | Some e =>
      let n := if counted && (from <? at_) then Z.min (n + count e) u32_max else n in
      match fire_at t at_ hold with
      | Some (taken, ws', t) => (n, any || taken, ws ++ ws', t)
      | None => (n, any, ws, t)
      end
  end.

Definition fire_table (t : timers W) (counted hold : bool) (from upto : Z)
    : Z * bool * list W * timers W :=
  foldl (fire_one counted hold from) (0, false, [], t) (keys_upto (entries t) upto).

(** [Clock::fire_upto] *)
Definition fire_upto (from t : Z) (c : clock) : (Z * list W) * clock :=
  let hold := negb (is_deterministic c) in
  let '(n, any, ws, p) := fire_table (pending (tb c)) true hold from t in
  let '(_, _, ws', f) := fire_table (foreign (tb c)) false false from t in
  let x := set_foreign f (set_pending p (tb c)) in
  let x := if hold && any then set_held true x else x in
  let x := match ws ++ ws' with [] => x | _ => set_woke true x end in
  ((n, ws ++ ws'), with_tables (λ _, x) c).

(** [Clock::take_wakers], one table and then both. *)
Definition take_table (t : timers W) (hold : bool) (upto : Z) : bool * list W * timers W :=
  foldl (λ '(any, ws, t) at_,
      match take_wakers_at t at_ hold with
      | Some (taken, ws', t) =>
          (any || taken, ws ++ ws',
           match entries t !! at_ with
           | Some e => if is_empty e then mk_timers (delete at_ (entries t)) (wake_deadlines t) else t
           | None => t
           end)
      | None => (any, ws, t)
      end)
    (false, [], t)
    (retain (λ k, match entries t !! k with
                  | Some e => match wakers e with [] => false | _ => true end
                  | None => false
                  end) (keys_upto (entries t) upto)).

Definition take_wakers (t : Z) (c : clock) : list W * clock :=
  let hold := negb (is_deterministic c) in
  let '(any, ws, p) := take_table (pending (tb c)) hold t in
  let '(_, ws', f) := take_table (foreign (tb c)) false t in
  let x := set_foreign f (set_pending p (tb c)) in
  let x := if hold && any then set_held true x else x in
  (ws ++ ws', with_tables (λ _, x) c).

(** [Clock::wake_taken]: notes that wakers were woken. *)
Definition wake_taken (ws : list W) (c : clock) : clock :=
  match ws with [] => c | _ => with_tables (set_woke true) c end.

End clock.

Arguments tables : clear implicits.
Arguments clock : clear implicits.
