(* ===== verification/ClockOps.v ===== *)
(** * The virtual clock's operations

    The rest of [Clock] of crates/snare/src/clock.rs: registering and taking timers and wakers,
    latency charges and clock spins, the quiescence time skip, holding the clock to real time, and
    what the clock tells the waiters. What an operation does to the rest of the process (waking the
    sim's waiters, scheduling a real-time wake) is part of its result. *)

From S2P Require Import Prelude Line Timers TimersWf Clock.

(** What an operation asks of the readiness machinery: [bump_time_unscheduled] and
    [skip_idle_later]. *)
Record kicks := mk_kicks { bump : bool; skip_later : bool }.
Definition no_kicks : kicks := mk_kicks false false.

Section ops.
Context {W : Type} (os : target_os) (frequency : Z).
Implicit Types (c : clock W).

(** ** Holding the clock to real time *)

(** [Clock::set_dormant] *)
Definition set_dormant (real real' : Z) (on : bool) (c : clock W) : clock W :=
  let c := if on then
             let '(v, c) := peek real c in
             with_pace (λ p, mk_pace (dormant p) v real' (outside p) (outside_v p) (outside_real p)
                               (children p)) c
           else c in
  with_pace (λ p, mk_pace on (dormant_v p) (dormant_real p) (outside p) (outside_v p)
                    (outside_real p) (children p)) c.

(** [Clock::dormant_limit] *)
Definition dormant_limit (real : Z) (p : pace) : option Z :=
  if dormant p then Some (sat_add (dormant_v p) (sat_sub real (dormant_real p))) else None.

Definition set_outside (n : Z) (p : pace) : pace :=
  mk_pace (dormant p) (dormant_v p) (dormant_real p) n (outside_v p) (outside_real p) (children p).
Definition set_children (l : list (Z * option Z)) (p : pace) : pace :=
  mk_pace (dormant p) (dormant_v p) (dormant_real p) (outside p) (outside_v p) (outside_real p) l.

(** [outside.fetch_sub(1)] *)
Definition outside_less (p : pace) : pace := set_outside (wrap_u64 (outside p - 1)) p.

(** [Clock::hold_outside] *)
Definition hold_outside (real real' : Z) (on : bool) (c : clock W) : clock W :=
  if negb on then with_pace outside_less c
  else
    let first := outside (pc c) =? 0 in
    let c := with_pace (λ p, set_outside (wrap_u64 (outside p + 1)) p) c in
    if first then
      let '(v, c) := peek real c in
      with_pace (λ p, mk_pace (dormant p) (dormant_v p) (dormant_real p) (outside p) v real'
                        (children p)) c
    else c.

(** [Clock::hold_child] *)
Definition hold_child (real real' : Z) (pid : Z) (c : clock W) : clock W :=
  with_pace (λ p, set_children (children p ++ [(pid, None)]) p) (hold_outside real real' true c).

(** [Clock::release_child] *)
Definition release_child (pid : Z) (c : clock W) : clock W :=
  match position (λ ch : Z * option Z, ch.1 =? pid) (children (pc c)) with
  | Some i => with_pace (λ p, outside_less (set_children (swap_remove i (children p)) p)) c
  | None => c
  end.

(** [Clock::release_children]: [status] answers [child_status], a [waitid] of the host. *)
Definition child_gone (status : Z → option bool) (now : Z) (ch : Z * option Z)
    : bool * (Z * option Z) :=
  let '(pid, exited) := ch in
  match status pid with
  | None => (true, ch)
  | Some false => (false, ch)
  | Some true =>
      let since := default now exited in
      (CHILD_GRACE <=? sat_sub now since, (pid, Some since))
  end.

Fixpoint release_loop (status : Z → option bool) (now : Z) (l : list (Z * option Z)) (out : Z)
    : list (Z * option Z) * Z :=
  match l with
  | [] => ([], out)
  | ch :: l =>
      let '(gone, ch) := child_gone status now ch in
      let out := if gone then wrap_u64 (out - 1) else out in
      let '(l, out) := release_loop status now l out in
      (if gone then l else ch :: l, out)
  end.

Definition release_children (status : Z → option bool) (now : Z) (p : pace) : pace :=
  match children p with
  | [] => p
  | l => let '(l, out) := release_loop status now l (outside p) in
         set_outside out (set_children l p)
  end.

(** The real-time samples of [Clock::pace_limit], in the order it takes them, and what the host
    answers of the children. *)
Record paced := mk_paced {
  status : Z → option bool;
  real_children : Z;
  real_outside : Z;
  real_dormant : Z;
}.

(** [Clock::pace_limit] *)
Definition pace_limit (s : paced) (p : pace) : option Z * pace :=
  let p := if is_windows os then p else release_children (status s) (real_children s) p in
  let out := if 0 <? outside p
             then Some (sat_add (outside_v p) (sat_sub (real_outside s) (outside_real p)))
             else None in
  (match dormant_limit (real_dormant s) p, out with
   | Some d, Some o => Some (Z.min d o)
   | Some d, None => Some d
   | None, o => o
   end, p).

(** ** Waits, events and wakers *)

(** [Clock::holds_wakers] *)
Definition table_holds_wakers (t : timers W) : bool :=
  existsb (λ e : entry W, match wakers e with [] => false | _ => true end)
    (omap (λ k, entries t !! k) (keys (entries t))).
Definition holds_wakers (c : clock W) : bool :=
  table_holds_wakers (pending (tb c)) || table_holds_wakers (foreign (tb c)).

Definition any_reached_wait (now : Z) (c : clock W) : bool :=
  reached_wait (pending (tb c)) now || reached_wait (foreign (tb c)) now.

(** [Clock::release_held]; [alive] tells whether the sim's domain still is. *)
Definition release_held (real : Z) (alive : bool) (c : clock W) : kicks * clock W :=
  if negb (held (tb c)) then (no_kicks, c)
  else
    let '(now, c) := peek real c in
    if any_reached_wait now c then (no_kicks, c)
    else
      let c := with_tables (set_held false) c in
      (mk_kicks true (holds_wakers c && alive), c).

(** [Clock::register_timer]: the deadline's key, and the wakers of the timers pruned. *)
Definition register_timer (real : Z) (after : Z) (fgn event : bool) (me : Z) (c : clock W)
    : (option Z * list W) * clock W :=
  if jumps c || (event && (after =? 0)) then ((None, []), c)
  else
    let '(now, c) := peek real c in
    let wake := sat_add now (nanos after) in
    if fgn then ((Some wake, []), add_timer wake true event me c)
    else
      let prune := is_scaled c && negb (is_driven c) &&
                   match first_key (entries (pending (tb c))) with
                   | Some first => first <=? now
                   | None => false
                   end in
      let '(pruned, c) :=
        if prune then
          let '(_, ws, t) := take_upto (pending (tb c)) now in
          (ws, with_tables (λ x, set_fired true (set_pending t x)) c)
        else ([], c) in
      let c := add_timer wake false event me c in
      ((Some wake, pruned), wake_taken pruned c).

(** [Clock::unregister_timer] *)
Definition unregister_timer (real : Z) (alive : bool) (wake : Z) (fgn : bool) (me : Z) (c : clock W)
    : kicks * clock W :=
  let c := match drop_wait (timers_of fgn c) wake me with
           | Some t => set_timers fgn t c
           | None => match drop_wait (timers_of (negb fgn) c) wake me with
                     | Some t => set_timers (negb fgn) t c
                     | None => c
                     end
           end in
  release_held real alive c.

(** [Clock::unregister_event] *)
Definition unregister_event (wake : Z) (c : clock W) : clock W :=
  with_tables (λ x, set_pending (drop_event (pending x) wake) x) c.

(** [Clock::register_wake] on an id not used before: the id, and the real time at which a scaled
    clock also wakes it. *)
Definition register_waker (at_ id : Z) (owner : option Z) (w : W) (fgn : bool) (c : clock W)
    : (option Z * option Z) * clock W :=
  if jumps c then ((None, None), c)
  else
    let scheduled := if is_scaled c && negb (is_driven c) && negb (is_paused c)
                     then real_at (the_line (dl c)) at_ else None in
    ((Some id, scheduled), set_timers fgn (register_wake (timers_of fgn c) at_ id owner w) c).

(** [Clock::cancel_wake]; [None] for the panics of [Timers::cancel_wake]. *)
Definition cancel_waker (real : Z) (alive : bool) (id : Z) (c : clock W) : option (kicks * clock W) :=
  '(r, t) ← cancel_wake (pending (tb c)) id;
  match r with
  | Some _ => Some (release_held real alive (with_tables (set_pending t) c))
  | None =>
      '(r, t) ← cancel_wake (foreign (tb c)) id;
      match r with
      | Some _ => Some (release_held real alive (with_tables (set_foreign t) c))
      | None => Some (no_kicks, c)
      end
  end.

(** ** Latency charged to the code under test *)

(** [Clock::creep_past_timer_at] *)
Definition creep_past_timer_at (t : Z) (c : clock W) : clock W :=
  let reach := creep_past os frequency t in
  if negb (stamp (dl c) =? 0) && (stamp (dl c) <=? reach) then c
  else match entries (pending (tb c)) !! t with
       | None => c
       | Some _ =>
           with_dial (λ d, publish_line (monotonic_nanos d) (anchor_real (the_line d))
                             (rate_q32 (the_line d)) reach d) c
       end.

(** [Clock::charge_driven] *)
Definition charge_driven (real : Z) (got : bool) (latency : Z) (c : clock W)
    : (bool * list W) * clock W :=
  if negb got then ((false, []), c)
  else if negb (is_driven c) then ((false, []), c)
  else
    let '(before, c) := peek real c in
    let hz := horizon (the_line (dl c)) in
    let after := Z.min (sat_add before (nanos latency)) hz in
    if after <=? before then ((false, []), c)
    else
      let c := with_dial (raise_floor after) c in
      let c := if after =? hz then creep_past_timer_at after c else c in
      let r := reached before after c in
      let '((_, ws), c) := fire_upto before after c in
      ((r, ws), wake_taken ws c).

(** [Clock::charge] *)
Definition charge (real : Z) (got : bool) (latency : Z) (c : clock W) : (bool * list W) * clock W :=
  if is_driven c then charge_driven real got latency c
  else if negb (is_discrete c && negb (is_paused c) && negb (is_scaled c)) then ((false, []), c)
  else if negb got then ((false, []), c)
  else
    let '((before, after), d) := step_base (nanos latency) (dl c) in
    let c := with_dial (λ _, d) c in
    let r := reached before after c in
    let '((_, ws), c) := fire_upto before after c in
    ((r, ws), wake_taken ws c).

(** Where [Clock::spin_step] lands from [now]. *)
Definition spin_landing (now step : Z) (c : clock W) : Z :=
  let target := sat_add now (Z.max (nanos step) 1) in
  match next_deadline_after now c with
  | Some at_ =>
      if (at_ <=? target) && (now <? at_ - 1) then at_ - 1
      else if at_ <=? target then creep_past os frequency at_
      else target
  | None => target
  end.

(** [Clock::spin_step] where it runs its closure itself (everywhere but on Windows outside a
    deterministic schedule, where the readiness machinery may refuse to run it). *)
Definition spin_step (real real' : Z) (step : Z) (c : clock W) : (spin_result * list W) * clock W :=
  if is_paused c || is_driven c then ((SpinHeld, []), c)
  else if negb (is_discrete c) || is_scaled c then ((SpinRuns, []), c)
  else
    let '(now, c) := peek real c in
    let '(waiting, c) :=
      if negb (is_deterministic c) && match (due real c).1 with Some _ => true | None => false end
      then
        let r := Z.max real' 1 in
        let since := if spin_due_since (tb c) =? 0 then r else spin_due_since (tb c) in
        (sat_sub r since <? nanos SPIN_SETTLE, with_tables (set_spin_due since) c)
      else (false, c) in
    if waiting then ((SpinWaking, []), c)
    else
      let c := with_tables (set_spin_due 0) c in
      let landing := spin_landing now step c in
      let '((before, after), d) := step_base (landing - now) (dl c) in
      let c := with_dial (λ _, d) c in
      let r := reached before after c in
      let '((_, ws), c) := fire_upto before after c in
      ((SpinMoved r, ws), wake_taken ws c).

(** [Clock::expire] and [Clock::reach_realtime] *)
Definition expire (deadline : Z) (c : clock W) : clock W :=
  if jumps c then (jump_to (nanos deadline) c).2 else c.
Definition reach_realtime (realtime : Z) (c : clock W) : clock W :=
  if jumps c then (jump_to (sat_sub (nanos realtime) (realtime_at (su c) 0)) c).2 else c.

(** [SleepRequest], and the wake time [Clock::sleep] computes. *)
Inductive sleep_request := SleepFor (d : Z) | SleepUntil (kind : clock_kind) (t : Z).

Definition sleep_wake (now : Z) (s : setup) (r : sleep_request) : Z :=
  match r with
  | SleepFor d => sat_add now (nanos d)
  | SleepUntil Monotonic t => nanos t
  | SleepUntil Tai t => sat_sub (nanos t) (realtime_at s (tai_offset_nanos s))
  | SleepUntil Realtime t => sat_sub (nanos t) (realtime_at s 0)
  end.

(** [done] of [Clock::sleep], and its first part: whether the sleep is over at once, and else the
    timer it waits on ([fgn] when the sleeper is not a participant, whose wait registers its own). *)
Definition sleep_done (real : Z) (wake : Z) (c : clock W) : bool * clock W :=
  let '(v, c) := peek real c in
  if wake <=? v then (true, c) else if jumps c then jump_to wake c else (false, c).

Definition sleep_start (real real' : Z) (fgn : bool) (me : Z) (r : sleep_request) (c : clock W)
    : option Z * clock W :=
  let '(wake, c) := match r with
                    | SleepFor _ => let '(v, c) := peek real c in (sleep_wake v (su c) r, c)
                    | SleepUntil _ _ => (sleep_wake 0 (su c) r, c)
                    end in
  let '(over, c) := sleep_done real' wake c in
  if over then (None, c) else (Some wake, if fgn then c else add_timer wake false false me c).

(** ** The quiescence time skip *)

(** [Clock::wait_due] *)
Definition wait_due (real : Z) (c : clock W) : bool * clock W :=
  if negb (is_discrete c) || is_scaled c || is_paused c || is_driven c || is_deterministic c
  then (false, c)
  else
    let '(v, c) := peek real c in
    let d := reached_wait (pending (tb c)) v in
    (d, if d then with_tables (set_held true) c else c).

(** [Clock::wait_reached] *)
Definition wait_reached (real : Z) (c : clock W) : bool * clock W :=
  let '(v, c) := peek real c in (any_reached_wait v c, c).

(** [Clock::wake_due] *)
Definition wake_due (real : Z) (c : clock W) : list W * clock W :=
  let '(v, c) := peek real c in
  let '(ws, c) := take_wakers v c in (ws, wake_taken ws c).

(** [monotonic_nanos.fetch_max(landing)] and the wakers it passes. *)
Definition land (landing : Z) (c : clock W) : list W * clock W :=
  take_wakers landing (with_dial (λ d, set_mono (Z.max (monotonic_nanos d) landing) d) c).

(** [Clock::skip_to_next_deadline] *)
Definition skip_to_next_deadline (real : Z) (s : paced) (c : clock W) : (bool * list W) * clock W :=
  let '(now, c) := peek real c in
  if negb (is_deterministic c) && reached_wait (pending (tb c)) now then
    ((false, []), with_tables (set_held true) c)
  else
    let '(_, pruned, t) := take_upto (pending (tb c)) now in
    let c := with_tables (set_pending t) c in
    match first_key (entries t) with
    | None => ((false, pruned), c)
    | Some next =>
        let '(limit, p) := pace_limit s (pc c) in
        let c := with_pace (λ _, p) c in
        if match limit with Some limit => limit <=? next | None => false end
        then ((false, pruned), c)
        else let '(ws, c) := land (creep_past os frequency next) c in ((true, pruned ++ ws), c)
    end.

(** [Clock::advance_to_next_deadline] (its [collect_skip] run here, as on Unix) *)
Definition advance_to_next_deadline (real : Z) (s : paced) (c : clock W)
    : (bool * list W) * clock W :=
  let '((moved, pruned), c) :=
    if is_paused c || is_driven c then ((false, []), c)
    else if is_scaled c then
      let '(now, c) := peek real c in
      let '(any, pruned, t) := take_upto (pending (tb c)) now in
      ((fired (tb c) || any, pruned), with_tables (λ x, set_fired false (set_pending t x)) c)
    else if negb (is_discrete c) && negb (is_dormant c) then ((false, []), c)
    else skip_to_next_deadline real s c in
  ((moved, pruned), wake_taken pruned c).

(** [Clock::advance_to_next_any_deadline] *)
Definition advance_to_next_any_deadline (real : Z) (s : paced) (c : clock W)
    : (bool * list W) * clock W :=
  let '((moved, pruned), c) :=
    if is_paused c || is_scaled c || (negb (is_discrete c) && negb (is_dormant c)) || is_driven c
    then ((false, []), c)
    else
      let '(now, c) := peek real c in
      if negb (is_deterministic c) && any_reached_wait now c then
        ((false, []), with_tables (set_held true) c)
      else
        let '(_, pruned1, t1) := take_upto (pending (tb c)) now in
        let '(_, pruned2, t2) := take_upto (foreign (tb c)) now in
        let c := with_tables (λ x, set_foreign t2 (set_pending t1 x)) c in
        let pruned := pruned1 ++ pruned2 in
        match option_min (first_key (entries t1)) (first_key (entries t2)) with
        | None => ((false, pruned), c)
        | Some next =>
            let '(limit, p) := pace_limit s (pc c) in
            let c := with_pace (λ _, p) c in
            if match limit with Some limit => next <? limit | None => true end then
              let '(ws, c) := land (creep_past os frequency next) c in ((true, pruned ++ ws), c)
            else ((false, pruned), c)
        end in
  ((moved, pruned), wake_taken pruned c).

(** ** What the clock tells its waiters *)

(** [Clock::virtual_now] *)
Definition virtual_now (real : Z) (c : clock W) : option Z * clock W :=
  if jumps c then (None, c) else let '(v, c) := peek real c in (Some v, c).

(** [Clock::real_span] *)
Definition real_span (span : Z) (c : clock W) : option Z :=
  if is_paused c && negb (is_driven c) then None
  else
    let q := rate_q32 (the_line (dl c)) in
    if q =? 0 then None else real_at (mk_line 0 0 q u64_max) (nanos span).

(** [Clock::register_event_quiet] *)
Definition register_event_quiet (real : Z) (after : Z) (me : Z) (c : clock W) : option Z * clock W :=
  if jumps c || (after =? 0) then (None, c)
  else
    let '(v, c) := peek real c in
    let c := add_timer (sat_add v (nanos after)) false true me c in
    (real_span after c, c).

(** [Clock::idle_wait] *)
Definition idle_wait (real : Z) (s : paced) (c : clock W) : option Z * clock W :=
  if is_paused c || is_driven c then (Some HELD_POLL, c)
  else
    let '(limit, p) := pace_limit s (pc c) in
    let c := with_pace (λ _, p) c in
    match (if is_scaled c then None else limit) with
    | Some limit =>
        let '(now, c) := peek real c in
        (match next_any_after now c with
         | None => Some HELD_POLL
         | Some earliest => Some (Z.max (sat_sub (sat_add earliest 1) limit) 1000)
         end, c)
    | None =>
        if negb (is_scaled c) then (None, c)
        else
          let '(now, c) := peek real c in
          (earliest ← next_deadline_after now c;
           span ← real_span (earliest - now) c;
           Some (Z.max span 1000), c)
    end.

(** [Clock::next_flow_wake] *)
Definition next_flow_wake (real : Z) (c : clock W) : option Z * clock W :=
  if negb (is_driven c) then (None, c)
  else
    let l := the_line (dl c) in
    if rate_q32 l =? 0 then (None, c)
    else let '(v, c) := peek real c in (next ← next_any_after v c; real_at l next, c).

(** [PendingTimer], [Clock::pending_timers] and [Clock::pending_timer_count] *)
Definition entry_timers (at_ : Z) (e : entry W) : list (Z * option Z) :=
  ((λ o, (at_, Some o)) <$> Owners.iter (owners e)) ++
  replicate (Z.to_nat (waits e) - Owners.len (owners e)) (at_, None) ++
  replicate (Z.to_nat (events e)) (at_, None) ++
  ((λ w : Z * option Z * W, (at_, w.1.2)) <$> wakers e).

Fixpoint list_timers (n : nat) (l : list (Z * entry W)) (out : list (Z * option Z))
    : bool * list (Z * option Z) :=
  match l with
  | [] => (false, out)
  | (at_, e) :: l =>
      let out := out ++ entry_timers at_ e in
      if (n <=? length out)%nat then (true, take n out) else list_timers n l out
  end.

Definition table_entries (t : timers W) : list (Z * entry W) :=
  omap (λ k, e ← entries t !! k; Some (k, e)) (keys (entries t)).

Definition pending_timers (n : nat) (c : clock W) : list (Z * option Z) :=
  let '(full, out) := list_timers n (table_entries (pending (tb c))) [] in
  if full then out else (list_timers n (table_entries (foreign (tb c))) out).2.

Definition table_timer_count (t : timers W) : nat :=
  sum_list ((λ '(_, e), Nat.max (Owners.len (owners e)) (Z.to_nat (waits e)) +
                        Z.to_nat (events e) + length (wakers e))%nat <$> table_entries t).
Definition pending_timer_count (c : clock W) : nat :=
  (table_timer_count (pending (tb c)) + table_timer_count (foreign (tb c)))%nat.

(** [Clock::ptp_sample]: device, realtime and raw monotonic time, in seconds and nanoseconds. *)
Definition split_nanos (n : Z) : Z * Z := (n / 1000000000, n mod 1000000000).
Definition ptp_sample (phc_offset : Z) (real : Z) (got : bool) (c : clock W)
    : ((Z * Z) * (Z * Z) * (Z * Z)) * clock W :=
  let '(m, c) := advance real got c in
  let realtime := realtime_at (su c) m in
  let device := Z.max 0 (Z.min (realtime + phc_offset) u64_max) in
  ((split_nanos device, split_nanos realtime, split_nanos m), c).

(** [Clock::set_discrete] and [Clock::set_deterministic], before the sim's threads run *)
Definition with_setup (f : setup → setup) (c : clock W) : clock W :=
  mk_clock (dl c) (f (su c)) (tb c) (pc c).
Definition set_discrete (on : bool) (c : clock W) : clock W :=
  with_setup (λ s, mk_setup (base_realtime_nanos s) (origin s) (begun s) (tai_offset_nanos s) on
                     (deterministic s)) c.
Definition set_deterministic (on : bool) (c : clock W) : clock W :=
  with_setup (λ s, mk_setup (base_realtime_nanos s) (origin s) (begun s) (tai_offset_nanos s)
                     (discrete s) on) c.
(** [Clock::check_rate]: whether it returns *)
Definition check_rate (r : rate) (c : clock W) : bool := validate_rate r (deterministic (su c)).

(** [Clock::timeline_realtime], [Clock::realtime_peek] and [Clock::tick_realtime] *)
Definition timeline_realtime (c : clock W) : Z := realtime_at (su c) (origin (su c)).
Definition realtime_peek (real : Z) (c : clock W) : Z * clock W :=
  let '(v, c) := peek real c in (realtime_at (su c) v, c).
Definition tick_realtime (real : Z) (got : bool) (c : clock W) : Z * clock W :=
  let '(v, c) := advance real got c in (realtime_at (su c) v, c).

(** [Clock::driver_time_at], [Clock::driver_time] and [Clock::driver_value]: a time under the
    executive of its generation, [set] being the calling thread's [DRIVER_TIME]. *)
Definition driver_time_at (t : Z) (c : clock W) : Z * Z := (t, driver_gen (dl c)).
Definition driver_time (set : option (Z * Z)) (c : clock W) : option Z :=
  '(t, generation) ← set;
  if generation =? driver_gen (dl c) then Some t else None.
Definition driver_value (set : option (Z * Z)) (c : clock W) : option Z :=
  sim_time (su c) <$> driver_time set c.

(** [Clock::owner_at] *)
Definition owner_at (at_ : Z) (c : clock W) : option Z :=
  e ← entries (pending (tb c)) !! at_;
  Owners.first (owners e).

End ops.
