(* ===== verification/ClockMoves.v ===== *)
(** * How the clock's operations move its reading

    The invariant of the dial and, for each operation of [Clock], that it keeps the invariant and
    never lowers the highest reading the clock may have handed out. *)

From S2P Require Import Prelude Line Timers TimersWf Clock ClockOps.

(** The dial is a [u64] everywhere, runs to the end of time unless an executive owns it, and its
    anchor never lies past what a reading can reach. *)
Record dial_wf (d : dial) : Prop := {
  wf_line : line_wf (the_line d);
  wf_floor : is_u64 (floor d);
  wf_stamp : is_u64 (stamp d);
  wf_undriven : driven d = false → horizon (the_line d) = u64_max;
  wf_anchor : monotonic_nanos d ≤ Z.max (floor d) (horizon (the_line d));
}.

(** [d'] may follow [d]: the invariant is kept and no later reading is lower. *)
Definition moves (d d' : dial) : Prop :=
  dial_wf d → dial_wf d' ∧ held_value d ≤ held_value d' ∧ driven d' = driven d ∧ stamp d' = stamp d.

#[export] Instance moves_preorder : PreOrder moves.
Proof.
  split.
  - intros d Hd. split; [done|split; [lia|done]].
  - intros d1 d2 d3 H12 H23 H1. destruct (H12 H1) as (H2 & ? & ? & ?).
    destruct (H23 H2) as (? & ? & ? & ?).
    split; [done|split; [lia|split; congruence]].
Qed.

Section moves.
Context {W : Type} (os : target_os) (frequency : Z).
Implicit Types (d : dial) (c : clock W).

Lemma creep_past_le t : creep_past os frequency t ≤ u64_max.
Proof. unfold creep_past. destruct (is_windows os); [|lia]. zbool; unfold nanos; lia. Qed.

Lemma creep_past_ge t : sat_add t 1 ≤ creep_past os frequency t.
Proof.
  unfold creep_past, WINDOWS_TIMER_UNIT. destruct (is_windows os); [|lia].
  destruct (Z.ltb_spec t (nanos (next_performance_count frequency t))); lia.
Qed.

(** [held_value] after a dial's line, anchor or floor is set. *)
Lemma dial_wf_line d l : dial_wf d → line_wf l →
  (driven d = false → horizon l = u64_max) → anchor_v l ≤ Z.max (floor d) (horizon l) →
  dial_wf (set_line l d).
Proof. intros [] ? ? ?. by split. Qed.

Lemma raise_floor_moves d v : is_u64 v → moves d (raise_floor v d).
Proof.
  intros Hv Hd. unfold held_value. split; [|split; [simpl; lia|done]].
  destruct Hd as [? ? ? ? Ha]. split; simpl; try done; lia.
Qed.

Lemma set_mono_moves d v : driven d = false → is_u64 v → moves d (set_mono (Z.max (monotonic_nanos d) v) d).
Proof.
  intros Hu Hv Hd. unfold held_value. split; [|split; [simpl; lia|done]].
  pose proof (wf_undriven _ Hd Hu). destruct Hd as [[] ? ? ? Ha]. split; simpl; try done; [|lia].
  split; simpl; lia.
Qed.

Lemma publish_line_moves d av ar q h : is_u64 av → is_u64 ar → is_u64 q → is_u64 h →
  (driven d = false → h = u64_max) → Z.max (monotonic_nanos d) av ≤ Z.max (floor d) h →
  moves d (publish_line av ar q h d).
Proof.
  intros ? ? ? ? Hu Ha Hd. unfold publish_line. split.
  - apply dial_wf_line; [done| |done|done]. destruct Hd as [[]]. split; simpl; lia.
  - unfold held_value. simpl. split; [lia|done].
Qed.

Lemma value_at_reach d real : dial_wf d →
  held_value d ≤ Z.max (floor d) (value_at (the_line d) real) ∧
  is_u64 (value_at (the_line d) real).
Proof.
  intros Hd. pose proof (value_at_range _ (wf_line _ Hd) real).
  pose proof (value_at_ge_anchor _ (wf_line _ Hd) real). pose proof (wf_anchor _ Hd).
  unfold held_value. lia.
Qed.

Lemma publish_moves d real q p to : is_u64 real → is_u64 q → driven d = false →
  (∀ v, is_u64 v → is_u64 (to v)) → moves d (publish real q p to d).
Proof.
  intros Hr Hq Hu Hto Hd. unfold publish.
  set (now := if _ : bool then _ else _).
  assert (is_u64 now) as Hnow.
  { subst now. destruct (value_at_reach d real Hd). destruct Hd as [[] ? ? ? ?].
    unfold held_value. destruct (paused d || _); lia. }
  specialize (Hto _ Hnow). destruct Hd as [[] ? ? ? Ha]. split.
  - split; simpl; try done; [|lia]. split; simpl; lia.
  - unfold held_value. simpl. split; [lia|done].
Qed.

Lemma step_base_moves d by_ : driven d = false → 0 ≤ by_ → moves d (step_base by_ d).2.
Proof.
  intros Hu Hb Hd. pose proof (wf_undriven _ Hd Hu). destruct Hd as [[] ? ? ? Ha].
  unfold step_base, held_value. simpl. split; [|split; [lia|done]].
  split; simpl; try done; try lia. split; simpl; lia.
Qed.

Lemma set_scaled_rate_moves d r : moves d (set_scaled_rate r d).
Proof. intros Hd. split; [by destruct Hd|done]. Qed.

(** The invariant of the dial moved from may be used in showing the move. *)
Lemma moves_if d d' : (dial_wf d → moves d d') → moves d d'.
Proof. intros H Hd. by apply H. Qed.

(** ** Reading *)

(** A reading is never below one already handed out, and none after it is lower. *)
Lemma peek_dial_spec d real : dial_wf d →
  held_value d ≤ (peek_dial real d).1 ∧ held_value (peek_dial real d).2 = (peek_dial real d).1 ∧
  is_u64 (peek_dial real d).1.
Proof.
  intros Hd. destruct (value_at_reach d real Hd).
  assert (is_u64 (held_value d)). { unfold held_value. destruct Hd as [[] ? ? ? ?]. lia. }
  assert (held_value (raise_floor (value_at (the_line d) real) d) =
          Z.max (floor d) (value_at (the_line d) real)).
  { unfold held_value in *. simpl. lia. }
  unfold peek_dial, line_value.
  destruct (driven d), (paused d || negb (dial_scaled d)); simpl; unfold held_value in *; lia.
Qed.

Lemma peek_dial_moves d real : moves d (peek_dial real d).2.
Proof.
  intros Hd. revert Hd. change (moves d (peek_dial real d).2). unfold peek_dial, line_value.
  assert (moves d (raise_floor (value_at (the_line d) real) d)).
  { intros Hd. apply raise_floor_moves; [apply value_at_reach|]; done. }
  destruct (driven d), (paused d || negb (dial_scaled d)); simpl; done.
Qed.

Lemma peek_spec real c v c' : peek real c = (v, c') → dial_wf (dl c) →
  dial_wf (dl c') ∧ held_value (dl c) ≤ v ∧ held_value (dl c') = v ∧ is_u64 v.
Proof.
  unfold peek. pose proof (peek_dial_moves (dl c) real) as Hm.
  pose proof (peek_dial_spec (dl c) real) as Hs. destruct (peek_dial real (dl c)) as [v' d'].
  intros [= <- <-] Hd. destruct (Hm Hd), (Hs Hd) as (? & ? & ?). done.
Qed.

(** A peek moves nothing but the floor of readings. *)
Lemma peek_frame real c v c' : peek real c = (v, c') →
  moves (dl c) (dl c') ∧ su c' = su c ∧ tb c' = tb c ∧ pc c' = pc c ∧ the_line (dl c') = the_line (dl c) ∧
  paused (dl c') = paused (dl c) ∧ driven (dl c') = driven (dl c) ∧ stamp (dl c') = stamp (dl c).
Proof.
  unfold peek. pose proof (peek_dial_moves (dl c) real) as Hm.
  destruct (peek_dial real (dl c)) as [v' d'] eqn:E. intros [= <- <-]. split; [done|]. simpl.
  revert E. unfold peek_dial, line_value. repeat case_match; intros [= <- <-]; done.
Qed.

(** ** Operations that leave the dial alone *)

Lemma fire_upto_dl from t c : dl (fire_upto from t c).2 = dl c.
Proof. unfold fire_upto. repeat case_match; done. Qed.
Lemma take_wakers_dl t c : dl (take_wakers t c).2 = dl c.
Proof. unfold take_wakers. repeat case_match; done. Qed.
Lemma wake_taken_dl ws c : dl (wake_taken ws c) = dl c.
Proof. by destruct ws. Qed.
Lemma unregister_event_dl wake c : dl (unregister_event wake c) = dl c.
Proof. done. Qed.
Lemma release_child_dl pid c : dl (release_child pid c) = dl c.
Proof. unfold release_child. by case_match. Qed.
Lemma register_waker_dl at_ id owner (w : W) fgn c : dl (register_waker at_ id owner w fgn c).2 = dl c.
Proof. unfold register_waker. by case_match. Qed.

End moves.

(** Case analysis on an operation's branches; a peek met on the way is a move of the dial. *)
Ltac peeked :=
  match goal with
  | |- context [peek ?r ?c] =>
      let v := fresh "now" in let c' := fresh "c" in let E := fresh "Hpeek" in
      let Hm := fresh "Hm" in
      destruct (peek r c) as [v c'] eqn:E;
      destruct (peek_frame r c v c' E) as (Hm & ? & ? & ? & ? & ? & ? & ?); cbn beta iota
  end.
Ltac branches := repeat (peeked || (case_match; simplify_eq; cbn [fst snd])).
(** Closes a goal that some dial follows another through the moves in the context. *)
Ltac chain :=
  simpl; rewrite ?fire_upto_dl, ?take_wakers_dl, ?wake_taken_dl; simpl;
  repeat (done || (etransitivity; [eassumption|])).

Section ops_move.
Context {W : Type} (os : target_os) (frequency : Z).
Implicit Types (d : dial) (c : clock W).

Lemma release_held_moves real alive c : moves (dl c) (dl (release_held real alive c).2).
Proof. unfold release_held. branches; chain. Qed.

Lemma set_dormant_moves real real' on c : moves (dl c) (dl (set_dormant real real' on c)).
Proof. unfold set_dormant. branches; chain. Qed.

Lemma hold_outside_moves real real' on c : moves (dl c) (dl (hold_outside real real' on c)).
Proof. unfold hold_outside. branches; chain. Qed.

Lemma register_timer_moves real after fgn event me c :
  moves (dl c) (dl (register_timer real after fgn event me c).2).
Proof. unfold register_timer. branches; chain. Qed.

Lemma register_event_quiet_moves real after me c :
  moves (dl c) (dl (register_event_quiet real after me c).2).
Proof. unfold register_event_quiet. branches; chain. Qed.

Lemma unregister_timer_moves real alive wake fgn me c :
  moves (dl c) (dl (unregister_timer real alive wake fgn me c).2).
Proof.
  unfold unregister_timer. set (c' := match drop_wait _ _ _ with Some _ => _ | None => _ end).
  assert (dl c' = dl c) as <- by (subst c'; repeat case_match; done). apply release_held_moves.
Qed.

Lemma cancel_waker_moves real alive id c r c' :
  cancel_waker real alive id c = Some (r, c') → moves (dl c) (dl c').
Proof.
  unfold cancel_waker. destruct (cancel_wake (pending (tb c)) id) as [[[r1|] t1]|]; [| |done]; cbn.
  - intros [= H]. apply (f_equal snd) in H; change ((r, c').2) with c' in H; subst c'.
    apply (release_held_moves real alive (with_tables _ c)).
  - destruct (cancel_wake (foreign (tb c)) id) as [[[r2|] t2]|]; [| |done]; cbn; intros [= H].
    + apply (f_equal snd) in H; change ((r, c').2) with c' in H; subst c'.
    apply (release_held_moves real alive (with_tables _ c)).
    + by subst.
Qed.

Lemma wait_due_moves real c : moves (dl c) (dl (wait_due real c).2).
Proof. unfold wait_due. branches; chain. Qed.
Lemma wait_reached_moves real c : moves (dl c) (dl (wait_reached real c).2).
Proof. unfold wait_reached. branches; chain. Qed.
Lemma virtual_now_moves real c : moves (dl c) (dl (virtual_now real c).2).
Proof. unfold virtual_now. branches; chain. Qed.
Lemma idle_wait_moves real s c : moves (dl c) (dl (idle_wait os real s c).2).
Proof. unfold idle_wait. branches; chain. Qed.
Lemma next_flow_wake_moves real c : moves (dl c) (dl (next_flow_wake real c).2).
Proof. unfold next_flow_wake. branches; chain. Qed.
Lemma wake_due_moves real c : moves (dl c) (dl (wake_due real c).2).
Proof.
  unfold wake_due. peeked. destruct (take_wakers now c0) as [ws c'] eqn:E. cbn [snd].
  rewrite wake_taken_dl. replace c' with (take_wakers now c0).2 by by rewrite E. chain.
Qed.

(** ** Operations that move time *)

Lemma jump_to_moves wake c : is_u64 wake → moves (dl c) (dl (jump_to wake c).2).
Proof.
  intros Hw. unfold jump_to. destruct (jumps c) eqn:E; [|done]. apply set_mono_moves; [|done].
  unfold jumps, is_driven in E. by destruct (driven (dl c)); rewrite ?andb_false_r in E.
Qed.

Lemma expire_moves t c : 0 ≤ t → moves (dl c) (dl (expire t c)).
Proof.
  intros Ht. unfold expire. case_match; [|done]. apply jump_to_moves. unfold nanos. lia.
Qed.

Lemma reach_realtime_moves t c : 0 ≤ t → 0 ≤ realtime_at (su c) 0 →
  moves (dl c) (dl (reach_realtime t c)).
Proof.
  intros Ht Hr. unfold reach_realtime. case_match; [|done]. apply jump_to_moves. unfold nanos. lia.
Qed.

Lemma jumps_undriven c : jumps c = true → driven (dl c) = false.
Proof. unfold jumps, is_driven. destruct (driven (dl c)); by rewrite ?andb_false_r. Qed.

Lemma advance_moves real got c : moves (dl c) (dl (advance real got c).2).
Proof.
  unfold advance. destruct (jumps c) eqn:E; cbn [negb]; [|branches; chain].
  destruct got; cbn [negb]; [|branches; chain].
  pose proof (step_base_moves (dl c) 1000 (jumps_undriven c E)) as Hm.
  destruct (step_base 1000 (dl c)) as [[b a] d]. by apply Hm.
Qed.

Lemma is_scaled_q q : is_u64 (rate_to_q32 q).
Proof. pose proof (rate_to_q32_bounds q). lia. Qed.

Lemma with_publish_moves real q p to c : is_driven c = false → is_u64 real →
  (dial_wf (dl c) → is_u64 q) → (∀ v, is_u64 v → is_u64 (to v)) →
  moves (dl c) (publish real q p to (dl c)).
Proof. intros Hd Hr Hq Hto Hwf. apply publish_moves; auto. Qed.

Lemma set_rate_moves real r c : is_u64 real → moves (dl c) (dl (set_rate real r c)).
Proof.
  intros Hr. unfold set_rate. destruct (is_driven c) eqn:Hd; [done|].
  destruct (rate_is_zero r).
  - case_match; [done|]. apply with_publish_moves; [done..| |done]. intros Hwf. apply Hwf.
  - destruct r as [q|]; cbn iota zeta.
    + etransitivity; [|apply set_scaled_rate_moves].
      apply publish_moves; auto using is_scaled_q.
    + etransitivity; [|apply set_scaled_rate_moves]. apply publish_moves; auto. lia.
Qed.

Lemma resume_moves real c : is_u64 real → moves (dl c) (dl (resume real c)).
Proof.
  intros Hr. unfold resume. destruct (is_driven c) eqn:Hd; rewrite ?orb_true_r; [done|].
  case_match; [done|]. apply with_publish_moves; [done..| |done]. intros Hwf. apply Hwf.
Qed.

Lemma advance_by_moves real x c : is_u64 real → 0 ≤ x → moves (dl c) (dl (advance_by real x c)).
Proof.
  intros Hr Hx. unfold advance_by. destruct (x =? 0); [done|].
  destruct (is_driven c) eqn:Hd; [done|]. apply with_publish_moves; [done..| |].
  - intros Hwf. apply Hwf.
  - unfold nanos. lia.
Qed.

Lemma set_value_moves real real' v c : is_u64 real' → 0 ≤ v →
  moves (dl c) (dl (set_value real real' v c).2).
Proof.
  intros Hr Hv. unfold set_value. peeked. destruct (is_driven c0) eqn:Hd; [chain|].
  destruct (_ <? now); [chain|]. destruct (now <? _); [|chain].
  etransitivity; [exact Hm|]. apply with_publish_moves; [done..| |].
  - intros Hwf. apply Hwf.
  - unfold nanos. lia.
Qed.

Lemma grant_moves real real' av ar r h c :
  is_u64 real' → is_u64 av → is_u64 ar → is_u64 h →
  moves (dl c) (dl (grant real real' av ar r h c)).
Proof.
  intros Hr Hav Har Hh. unfold grant. destruct (is_driven c) eqn:Hd; [|done]. cbn [negb].
  peeked. apply moves_if. intros Hwf.
  destruct (peek_spec _ _ _ _ Hpeek Hwf) as (Hwf' & ? & Hval & ?).
  pose proof (is_scaled_q r). unfold held_value, is_driven in *. etransitivity; [exact Hm|].
  destruct (Z.leb_spec now av); (etransitivity; [|apply set_scaled_rate_moves]);
    apply publish_line_moves; try lia; congruence.
Qed.

Lemma freeze_moves real real' c : is_u64 real' → moves (dl c) (dl (freeze real real' c)).
Proof.
  intros Hr. unfold freeze. destruct (is_driven c) eqn:Hd; [|done]. cbn [negb].
  peeked. apply moves_if. intros Hwf.
  destruct (peek_spec _ _ _ _ Hpeek Hwf) as (Hwf' & ? & Hval & ?).
  unfold held_value, is_driven in *. etransitivity; [exact Hm|].
  etransitivity; [|apply set_scaled_rate_moves]. apply publish_line_moves; try lia. congruence.
Qed.

Lemma jump_driven_moves real real' t to_next past c : is_u64 real' → is_u64 t →
  moves (dl c) (dl (jump_driven os frequency real real' t to_next past c).2).
Proof.
  intros Hr Ht. unfold jump_driven. peeked. destruct (is_driven c0) eqn:Hd; [|done]. cbn [negb].
  apply moves_if. intros Hwf. destruct (peek_spec _ _ _ _ Hpeek Hwf) as (Hwf' & ? & Hval & ?).
  pose proof (wf_rate _ (wf_line _ Hwf')). pose proof (wf_horizon _ (wf_line _ Hwf')).
  unfold held_value, is_driven in *. etransitivity; [exact Hm|].
  set (landing := match _ with Some _ => _ | None => _ end).
  assert (landing ≤ t) by (subst landing; case_match; lia).
  pose proof (creep_past_le os frequency (Z.max now landing)).
  pose proof (creep_past_ge os frequency (Z.max now landing)).
  apply publish_line_moves; try congruence; try lia; case_match; lia.
Qed.

Lemma creep_past_timer_at_moves t c : is_u64 t → monotonic_nanos (dl c) ≤ Z.max (floor (dl c)) t →
  driven (dl c) = true → moves (dl c) (dl (creep_past_timer_at os frequency t c)).
Proof.
  intros Ht Ha Hd. unfold creep_past_timer_at. case_match; [done|]. case_match; [|done].
  apply moves_if. intros [[]].
  pose proof (creep_past_le os frequency t). pose proof (creep_past_ge os frequency t).
  apply publish_line_moves; try congruence; lia.
Qed.

Lemma charge_driven_moves real got latency c : 0 ≤ latency →
  moves (dl c) (dl (charge_driven os frequency real got latency c).2).
Proof.
  intros Hl. unfold charge_driven. destruct got; [|done]. destruct (is_driven c) eqn:Hd; [|done].
  cbn [negb]. peeked. apply moves_if. intros Hwf.
  destruct (peek_spec _ _ _ _ Hpeek Hwf) as (Hwf' & ? & Hval & ?).
  pose proof (wf_horizon _ (wf_line _ Hwf')).
  set (after := Z.min _ _). destruct (Z.leb_spec after now); [done|].
  set (c1 := with_dial (raise_floor after) c0).
  assert (moves (dl c) (dl c1)) as Hm1.
  { etransitivity; [exact Hm|]. apply raise_floor_moves. subst after. unfold nanos. lia. }
  set (c2 := if after =? _ then _ else c1).
  assert (moves (dl c) (dl c2)) as Hm2.
  { subst c2. destruct (Z.eqb_spec after (horizon (the_line (dl c0)))); [|done].
    etransitivity; [exact Hm1|]. apply creep_past_timer_at_moves.
    - subst after. unfold nanos. lia.
    - pose proof (wf_anchor _ Hwf'). simpl. lia.
    - simpl. unfold is_driven in *. congruence. }
  pose proof (fire_upto_dl now after c2) as Hf.
  destruct (fire_upto now after c2) as [[? ws] c']. cbn [snd] in *. by rewrite wake_taken_dl, Hf.
Qed.

(** The end of a charge and of a spin's step: the base clock steps, and what it reached fires. *)
Lemma step_fire_moves {R} by_ (f : Z → Z → clock W → R) c : driven (dl c) = false → 0 ≤ by_ →
  moves (dl c)
    (dl (let '((before, after), d) := step_base by_ (dl c) in
         let c := with_dial (λ _, d) c in
         let r := f before after c in
         let '((_, ws), c) := fire_upto before after c in
         ((r, ws), wake_taken ws c)).2).
Proof.
  intros Hd Hb. pose proof (step_base_moves (dl c) by_ Hd Hb) as Hm.
  destruct (step_base by_ (dl c)) as [[b a] d]. cbn zeta beta.
  pose proof (fire_upto_dl b a (with_dial (λ _, d) c)) as Hf.
  destruct (fire_upto b a (with_dial (λ _, d) c)) as [[? ws] c']. cbn [snd] in *.
  by rewrite wake_taken_dl, Hf.
Qed.

Lemma charge_moves real got latency c : 0 ≤ latency →
  moves (dl c) (dl (charge os frequency real got latency c).2).
Proof.
  intros Hl. unfold charge. destruct (is_driven c) eqn:Hd; [by apply charge_driven_moves|].
  case_match; [done|]. case_match; [done|].
  apply (step_fire_moves _ (λ b a c, reached b a c)); [done|unfold nanos; lia].
Qed.

Lemma spin_landing_ge now step c : is_u64 now → 0 ≤ step → now ≤ spin_landing os frequency now step c.
Proof.
  intros Hn Hs. unfold spin_landing, nanos.
  destruct (next_deadline_after now c) as [z|] eqn:E; [|lia].
  unfold next_deadline_after in E. apply first_from_Some in E as (_ & Hk & _).
  destruct (Z.leb_spec z (sat_add now (Z.max (Z.min step u64_max) 1))); simpl; [|lia].
  pose proof (creep_past_ge os frequency z). zbool; lia.
Qed.

Lemma spin_step_moves real real' step c : 0 ≤ step →
  moves (dl c) (dl (spin_step os frequency real real' step c).2).
Proof.
  intros Hs. unfold spin_step. destruct (is_paused c || is_driven c) eqn:Hd; [done|].
  apply orb_false_iff in Hd as [_ Hd]. case_match; [done|]. peeked.
  apply moves_if. intros Hwf. destruct (peek_spec _ _ _ _ Hpeek Hwf) as (Hwf' & ? & Hval & ?).
  match goal with |- context [if ?b then (?x, ?y) else (false, c0)] => set (w := if b then (x, y) else (false, c0)) end.
  assert (dl w.2 = dl c0) as Hw by (subst w; by case_match).
  destruct w as [waiting c1]. cbn [snd] in Hw. case_match; [by rewrite <- Hw in Hm|].
  etransitivity; [exact Hm|]. rewrite <- Hw.
  apply (step_fire_moves _ (λ b a c, SpinMoved (reached b a c)) (with_tables (set_spin_due 0) c1)).
  - simpl. rewrite Hw. unfold is_driven in Hd. congruence.
  - pose proof (spin_landing_ge now step (with_tables (set_spin_due 0) c1) ltac:(lia) Hs). lia.
Qed.

Lemma sleep_wake_u64 now s r : is_u64 now → 0 ≤ base_realtime_nanos s → 0 ≤ tai_offset_nanos s →
  match r with SleepFor d => 0 ≤ d | SleepUntil _ t => 0 ≤ t end → is_u64 (sleep_wake now s r).
Proof.
  intros Hn Hb Ht Hr. unfold sleep_wake, nanos, realtime_at.
  destruct r as [d|[] t]; lia.
Qed.

Lemma sleep_done_moves real wake c : is_u64 wake → moves (dl c) (dl (sleep_done real wake c).2).
Proof.
  intros Hw. unfold sleep_done. peeked. case_match; [done|]. case_match; [|done].
  etransitivity; [exact Hm|]. by apply jump_to_moves.
Qed.

Lemma sleep_start_moves real real' fgn me r c :
  0 ≤ base_realtime_nanos (su c) → 0 ≤ tai_offset_nanos (su c) →
  match r with SleepFor d => 0 ≤ d | SleepUntil _ t => 0 ≤ t end →
  moves (dl c) (dl (sleep_start real real' fgn me r c).2).
Proof.
  intros Hb Ht Hr. unfold sleep_start.
  assert (∀ wake c', is_u64 wake → moves (dl c) (dl c') →
    moves (dl c) (dl (let '(over, c) := sleep_done real' wake c' in
      if over then (None, c)
      else (Some wake, if fgn then c else add_timer wake false false me c)).2)) as Hend.
  { intros wake c' Hw Hm. pose proof (sleep_done_moves real' wake c' Hw) as Hs.
    destruct (sleep_done real' wake c') as [over c1]. cbn [snd] in Hs.
    repeat case_match; simpl; by etransitivity. }
  destruct r as [d|k t].
  - peeked. apply moves_if. intros Hwf.
    destruct (peek_spec _ _ _ _ Hpeek Hwf) as (_ & _ & _ & ?). apply Hend; [|done].
    apply sleep_wake_u64; congruence || done.
  - apply Hend; [|done]. by apply sleep_wake_u64.
Qed.

Lemma land_moves landing c : driven (dl c) = false → is_u64 (Z.max (monotonic_nanos (dl c)) landing) →
  moves (dl c) (dl (land landing c).2).
Proof.
  intros Hd Hl. unfold land. rewrite take_wakers_dl. simpl.
  replace (Z.max (monotonic_nanos (dl c)) landing)
    with (Z.max (monotonic_nanos (dl c)) (Z.max (monotonic_nanos (dl c)) landing)) by lia.
  by apply set_mono_moves.
Qed.

(** A skip lands just past a deadline. *)
Lemma land_creep_moves next c : driven (dl c) = false →
  moves (dl c) (dl (land (creep_past os frequency next) c).2).
Proof.
  intros Hd. apply moves_if. intros [[]]. pose proof (creep_past_le os frequency next).
  apply land_moves; [done|lia].
Qed.

Lemma skip_to_next_deadline_moves real s c : driven (dl c) = false →
  moves (dl c) (dl (skip_to_next_deadline os frequency real s c).2).
Proof.
  intros Hd. unfold skip_to_next_deadline. peeked. case_match; [done|].
  destruct (take_upto _ _) as [[any pruned] t]. case_match; [|done].
  destruct (pace_limit os s _) as [limit p]. case_match; [done|].
  match goal with |- context [land ?l ?c'] =>
    pose proof (land_creep_moves z c') as Hl; destruct (land l c') as [ws c2] end.
  simpl in *. etransitivity; [exact Hm|]. apply Hl. congruence.
Qed.

Lemma advance_to_next_deadline_moves real s c :
  moves (dl c) (dl (advance_to_next_deadline os frequency real s c).2).
Proof.
  unfold advance_to_next_deadline.
  match goal with |- context [let '(_, _) := ?r in _] => set (res := r) end.
  assert (moves (dl c) (dl res.2)) as Hr.
  { subst res. destruct (is_paused c || is_driven c) eqn:Hd; [done|].
    apply orb_false_iff in Hd as [_ Hd]. destruct (is_scaled c).
    - peeked. destruct (take_upto _ _) as [[any pruned] t]. done.
    - case_match; [done|]. by apply skip_to_next_deadline_moves. }
  destruct res as [[moved pruned] c']. cbn [snd] in *. by rewrite wake_taken_dl.
Qed.

Lemma advance_to_next_any_deadline_moves real s c :
  moves (dl c) (dl (advance_to_next_any_deadline os frequency real s c).2).
Proof.
  unfold advance_to_next_any_deadline.
  match goal with |- context [let '(_, _) := ?r in _] => set (res := r) end.
  assert (moves (dl c) (dl res.2)) as Hr.
  { subst res. destruct (_ || is_driven c) eqn:Hd; [done|].
    apply orb_false_iff in Hd as [_ Hd]. peeked. case_match; [done|].
    destruct (take_upto (pending _) _) as [[any1 pruned1] t1].
    destruct (take_upto (foreign _) _) as [[any2 pruned2] t2]. case_match; [|done].
    destruct (pace_limit os s _) as [limit p]. case_match; [|done].
    match goal with |- context [land ?l ?c'] =>
      pose proof (land_creep_moves z c') as Hl; destruct (land l c') as [ws c2] end.
    simpl in *. etransitivity; [exact Hm|]. apply Hl. unfold is_driven in *. congruence. }
  destruct res as [[moved pruned] c']. cbn [snd] in *. by rewrite wake_taken_dl.
Qed.

End ops_move.
