(* ===== verification/ClockRun.v ===== *)
(** * Runs of the clock

    Every operation of [Clock] as a step of one machine, and what holds of any sequence of them:
    time never goes back, whatever real time does and in whatever order writers, readers, skips,
    charges and an executive take their turns. *)

From S2P Require Import Prelude Line Timers TimersWf Clock ClockOps ClockMoves.

Section run.
Context {W : Type} (os : target_os) (frequency : Z).
Implicit Types (c : clock W).

(** A call of one of the clock's operations, with what it takes from outside. *)
Inductive op :=
  | OpPeek (real : Z)
  | OpNow (kind : clock_kind) (real : Z) (got : bool)
  | OpBegin (fixed : bool) (past_monotonic past_realtime : Z)
  | OpSetRate (real : Z) (r : rate)
  | OpResume (real : Z)
  | OpAdvanceBy (real d : Z)
  | OpSetValue (real real' v : Z)
  | OpAttach (real real' : Z)
  | OpDetach (real real' : Z)
  | OpGrant (real real' av ar : Z) (r : rate) (h : Z)
  | OpFreeze (real real' : Z)
  | OpJump (real real' t : Z) (to_next past : bool)
  | OpStamp (t : option Z)
  | OpDormant (real real' : Z) (on : bool)
  | OpOutside (real real' : Z) (on : bool)
  | OpHoldChild (real real' pid : Z)
  | OpReleaseChild (pid : Z)
  | OpRegister (real after : Z) (fgn event : bool) (me : Z)
  | OpRegisterQuiet (real after me : Z)
  | OpUnregister (real : Z) (alive : bool) (wake : Z) (fgn : bool) (me : Z)
  | OpUnregisterEvent (wake : Z)
  | OpRegisterWake (at_ id : Z) (owner : option Z) (w : W) (fgn : bool)
  | OpCancelWake (real : Z) (alive : bool) (id : Z)
  | OpCharge (real : Z) (got : bool) (latency : Z)
  | OpSpin (real real' step : Z)
  | OpExpire (deadline : Z)
  | OpReachRealtime (t : Z)
  | OpSleep (real real' : Z) (fgn : bool) (me : Z) (r : sleep_request)
  | OpWaitDue (real : Z)
  | OpWakeDue (real : Z)
  | OpIdleWait (real : Z) (s : paced)
  | OpSkip (real : Z) (s : paced)
  | OpSkipAny (real : Z) (s : paced).

(** What a step hands out: the clock's own position, or a reading of the code under test. *)
Inductive event := Position (v : Z) | Read (kind : clock_kind) (m v : Z).

Definition quiet (c : clock W) : list event * clock W := ([], c).

(** [OpRead] also records the monotonic time [m] its reading stands for. *)
Definition step (o : op) (c : clock W) : list event * clock W :=
  match o with
  | OpPeek real => let '(v, c) := peek real c in ([Position v], c)
  | OpNow kind real got =>
      let '(m, c) := advance real got c in ([Read kind m (reading (su c) kind m)], c)
  | OpBegin fixed m r => quiet (begin fixed m r c)
  | OpSetRate real r => quiet (set_rate real r c)
  | OpResume real => quiet (resume real c)
  | OpAdvanceBy real d => quiet (advance_by real d c)
  | OpSetValue real real' v => quiet (set_value real real' v c).2
  | OpAttach real real' => quiet (attach_driven real real' c)
  | OpDetach real real' => quiet (detach_driven real real' c)
  | OpGrant real real' av ar r h => quiet (grant real real' av ar r h c)
  | OpFreeze real real' => quiet (freeze real real' c)
  | OpJump real real' t n p =>
      let '((before, to), c) := jump_driven os frequency real real' t n p c in
      ([Position before; Position to], c)
  | OpStamp t => quiet (set_stamp t c)
  | OpDormant real real' on => quiet (set_dormant real real' on c)
  | OpOutside real real' on => quiet (hold_outside real real' on c)
  | OpHoldChild real real' pid => quiet (hold_child real real' pid c)
  | OpReleaseChild pid => quiet (release_child pid c)
  | OpRegister real after fgn event me => quiet (register_timer real after fgn event me c).2
  | OpRegisterQuiet real after me => quiet (register_event_quiet real after me c).2
  | OpUnregister real alive wake fgn me => quiet (unregister_timer real alive wake fgn me c).2
  | OpUnregisterEvent wake => quiet (unregister_event wake c)
  | OpRegisterWake at_ id owner w fgn => quiet (register_waker at_ id owner w fgn c).2
  | OpCancelWake real alive id =>
      quiet (match cancel_waker real alive id c with Some (_, c) => c | None => c end)
  | OpCharge real got latency => quiet (charge os frequency real got latency c).2
  | OpSpin real real' s => quiet (spin_step os frequency real real' s c).2
  | OpExpire t => quiet (expire t c)
  | OpReachRealtime t => quiet (reach_realtime t c)
  | OpSleep real real' fgn me r => quiet (sleep_start real real' fgn me r c).2
  | OpWaitDue real => quiet (wait_due real c).2
  | OpWakeDue real => quiet (wake_due real c).2
  | OpIdleWait real s => quiet (idle_wait os real s c).2
  | OpSkip real s => quiet (advance_to_next_deadline os frequency real s c).2
  | OpSkipAny real s => quiet (advance_to_next_any_deadline os frequency real s c).2
  end.

Fixpoint run (os_ : list op) (c : clock W) : list event * clock W :=
  match os_ with
  | [] => ([], c)
  | o :: os_ => let '(e, c) := step o c in let '(es, c) := run os_ c in (e ++ es, c)
  end.

(** The arguments are the [u64]s and [Duration]s their types say. *)
Definition op_ok (o : op) : Prop :=
  match o with
  | OpBegin _ m r => is_u64 m ∧ is_u64 r
  | OpSetRate real _ | OpResume real => is_u64 real
  | OpAdvanceBy real d => is_u64 real ∧ 0 ≤ d
  | OpSetValue _ real' v => is_u64 real' ∧ 0 ≤ v
  | OpAttach _ real' | OpDetach _ real' | OpFreeze _ real' => is_u64 real'
  | OpGrant _ real' av ar _ h => is_u64 real' ∧ is_u64 av ∧ is_u64 ar ∧ is_u64 h
  | OpJump _ real' t _ _ => is_u64 real' ∧ is_u64 t
  | OpStamp t => is_u64 (default 0 t)
  | OpCharge _ _ latency => 0 ≤ latency
  | OpSpin _ _ s => 0 ≤ s
  | OpExpire t | OpReachRealtime t => 0 ≤ t
  | OpSleep _ _ _ _ (SleepFor t) | OpSleep _ _ _ _ (SleepUntil _ t) => 0 ≤ t
  | _ => True
  end.

(** The rules an executive keeps with a timestamp: it opens one on a clock it owns, and replaces or
    closes it only once the clock, or the new timestamp, has reached it. *)
Definition stamp_ok (o : op) (c : clock W) : Prop :=
  match o with
  | OpStamp t =>
      (default 0 t = 0 ∨ driven (dl c) = true) ∧ stamp (dl c) ≤ Z.max (held_value (dl c)) (default 0 t)
  | _ => True
  end.

Fixpoint stamps_ok (ops : list op) (c : clock W) : Prop :=
  match ops with
  | [] => True
  | o :: ops => stamp_ok o c ∧ stamps_ok ops (step o c).2
  end.

Record setup_wf (s : setup) : Prop := {
  wf_base : 0 ≤ base_realtime_nanos s;
  wf_tai : 0 ≤ tai_offset_nanos s;
}.

Definition clock_wf c : Prop := dial_wf (dl c) ∧ setup_wf (su c).

(** The invariant as a check to run on a concrete clock. *)
Definition clock_wfb c : bool :=
  let d := dl c in let l := the_line d in
  u64b (anchor_v l) && u64b (anchor_real l) && u64b (rate_q32 l) && u64b (horizon l) &&
  u64b (floor d) && u64b (stamp d) && (driven d || (horizon l =? u64_max)) &&
  (anchor_v l <=? Z.max (floor d) (horizon l)) &&
  (0 <=? base_realtime_nanos (su c)) && (0 <=? tai_offset_nanos (su c)).

Lemma clock_wfb_ok c : clock_wfb c = true → clock_wf c.
Proof.
  unfold clock_wfb. rewrite !andb_true_iff, orb_true_iff, !Z.leb_le, Z.eqb_eq.
  intros (((((((((? & ?) & ?) & ?) & ?) & ?) & Hd) & ?) & ?) & ?).
  split; [|by split]. split; eauto using u64b_ok.
  - split; by apply u64b_ok.
  - destruct Hd; [congruence|done].
Qed.

(** [c'] may follow [c] in a run. *)
Definition follows c c' : Prop :=
  clock_wf c → clock_wf c' ∧ held_value (dl c) ≤ held_value (dl c').

Lemma moves_follows c c' : moves (dl c) (dl c') → su c' = su c → follows c c'.
Proof. intros Hm Hs [Hd Hsu]. destruct (Hm Hd) as (? & ? & _). by rewrite <- Hs in Hsu. Qed.

(** ** The setup stays as [begin] left it *)

Lemma fire_upto_su from t c r c' : fire_upto from t c = (r, c') → su c' = su c.
Proof. unfold fire_upto. repeat case_match; by intros [= <- <-]. Qed.
Lemma take_wakers_su t c r c' : take_wakers t c = (r, c') → su c' = su c.
Proof. unfold take_wakers. repeat case_match; by intros [= <- <-]. Qed.
Lemma wake_taken_su (ws : list W) c : su (wake_taken ws c) = su c.
Proof. by destruct ws. Qed.
Lemma peek_su real c v c' : peek real c = (v, c') → su c' = su c.
Proof. intros H. by apply peek_frame in H as (_ & ? & _). Qed.
Lemma release_held_su real alive c r c' : release_held real alive c = (r, c') → su c' = su c.
Proof.
  unfold release_held. repeat case_match; intros [= <- <-]; simpl; try done;
    by eapply peek_su.
Qed.
Lemma jump_to_su wake c r c' : jump_to wake c = (r, c') → su c' = su c.
Proof. unfold jump_to. case_match; by intros [= <- <-]. Qed.

Ltac su_facts :=
  repeat match goal with
  | H : peek _ _ = (_, _) |- _ => apply peek_su in H
  | H : fire_upto _ _ _ = (_, _) |- _ => apply fire_upto_su in H
  | H : take_wakers _ _ = (_, _) |- _ => apply take_wakers_su in H
  | H : release_held _ _ _ = (_, _) |- _ => apply release_held_su in H
  | H : jump_to _ _ = (_, _) |- _ => apply jump_to_su in H
  end.
Ltac su_frame :=
  repeat (case_match; simplify_eq); cbn [fst snd]; rewrite ?wake_taken_su; su_facts; simpl in *; congruence.

Lemma begin_cases o : (∃ f m r, o = OpBegin f m r) ∨ (∀ c, su (step o c).2 = su c).
Proof.
  destruct o; try (left; by eauto); right; intros c; cbn [step quiet snd].
  - su_frame.
  - unfold advance, step_base. su_frame.
  - unfold set_rate. su_frame.
  - unfold resume. su_frame.
  - unfold advance_by. su_frame.
  - unfold set_value. su_frame.
  - unfold attach_driven. su_frame.
  - unfold detach_driven. su_frame.
  - unfold grant. su_frame.
  - unfold freeze. su_frame.
  - unfold jump_driven. su_frame.
  - done.
  - unfold set_dormant. su_frame.
  - unfold hold_outside. su_frame.
  - unfold hold_child, hold_outside. su_frame.
  - unfold release_child. su_frame.
  - unfold register_timer. su_frame.
  - unfold register_event_quiet. su_frame.
  - unfold unregister_timer. destruct (release_held _ _ _) eqn:E. apply release_held_su in E.
    cbn [snd]. rewrite E. su_frame.
  - done.
  - unfold register_waker. su_frame.
  - unfold cancel_waker. destruct (cancel_wake (pending (tb c)) id) as [[[|] ?]|]; cbn -[release_held].
    + su_frame.
    + destruct (cancel_wake (foreign (tb c)) id) as [[[|] ?]|]; cbn -[release_held]; su_frame.
    + done.
  - unfold charge, charge_driven, creep_past_timer_at, step_base. su_frame.
  - unfold spin_step, step_base. su_frame.
  - unfold expire. destruct (jump_to _ _) eqn:E. su_frame.
  - unfold reach_realtime. destruct (jump_to _ _) eqn:E. su_frame.
  - unfold sleep_start, sleep_done. su_frame.
  - unfold wait_due. su_frame.
  - unfold wake_due. su_frame.
  - unfold idle_wait. su_frame.
  - unfold advance_to_next_deadline, skip_to_next_deadline, land. su_frame.
  - unfold advance_to_next_any_deadline, land. su_frame.
Qed.

(** ** A step never lowers the reading *)

Lemma start_at_follows m r c : is_u64 m → is_u64 r → follows c (start_at m r c).
Proof.
  intros Hm Hr [Hd [Hb Ht]]. unfold start_at. set (start := if _ : bool then _ else _).
  assert (is_u64 start) as Hs.
  { subst start. unfold sat_mul, START_GRAIN. case_match; [lia|].
    destruct (div_ceil_spec (sat_add m 1000000000) 1000000000 ltac:(lia) ltac:(lia)). lia. }
  unfold clock_wf, held_value. simpl. destruct Hd as [[] ? ? ? ?]. split; [split|lia].
  - split; simpl; try done; [split; simpl; lia|lia|lia].
  - split; simpl; [|done]. unfold FIXED_EPOCH_NANOS. lia.
Qed.

Lemma begin_follows f m r c : is_u64 m → is_u64 r → follows c (begin f m r c).
Proof.
  intros Hm Hr Hc. unfold begin. case_match; [split; [done|lia]|].
  destruct f; cbn zeta iota.
  - destruct Hc as [Hd []]. split; [split; [done|by split]|simpl; lia].
  - destruct (start_at_follows m r c Hm Hr Hc) as [[Hd []] ?].
    split; [split; [done|by split]|done].
Qed.

Lemma attach_follows real real' c : is_u64 real' → follows c (attach_driven real real' c).
Proof.
  intros Hr [Hd Hs]. unfold attach_driven. destruct (peek real c) as [now c1] eqn:Hp.
  destruct (peek_spec _ _ _ _ Hp Hd) as ([[] ? ? ? ?] & ? & Hv & ?).
  apply peek_su in Hp. unfold clock_wf, held_value in *. simpl. rewrite Hp.
  split; [split; [|done]|lia]. split; simpl; try done; [split; simpl; lia|lia].
Qed.

Lemma detach_follows real real' c : is_u64 real' → follows c (detach_driven real real' c).
Proof.
  intros Hr [Hd Hs]. unfold detach_driven. case_match; [done|].
  destruct (peek real c) as [now c1] eqn:Hp.
  destruct (peek_spec _ _ _ _ Hp Hd) as ([[] ? ? ? ?] & ? & Hv & ?).
  apply peek_su in Hp. unfold clock_wf, held_value in *. simpl. rewrite Hp.
  split; [split; [|done]|lia]. split; simpl; try done; try lia. split; simpl; lia.
Qed.

(** Every operation but [begin] and those that change the clock's owner or its stamp is a move. *)
Definition is_move (o : op) : bool :=
  match o with OpBegin _ _ _ | OpAttach _ _ | OpDetach _ _ | OpStamp _ => false | _ => true end.

Lemma step_moves o c : is_move o = true → op_ok o → setup_wf (su c) → moves (dl c) (dl (step o c).2).
Proof.
  intros Ho Hok [Hb Ht]. destruct o; try done; cbn [step quiet snd op_ok] in *.
  - destruct (peek real c) eqn:E. by apply peek_frame in E as [? _].
  - pose proof (advance_moves real got c) as Hm. by destruct (advance real got c).
  - by apply set_rate_moves.
  - by apply resume_moves.
  - apply advance_by_moves; apply Hok.
  - destruct Hok. by apply set_value_moves.
  - apply grant_moves; apply Hok.
  - by apply freeze_moves.
  - destruct Hok as [H1 H2].
    pose proof (jump_driven_moves os frequency real real' t to_next past c H1 H2) as Hm.
    by destruct (jump_driven _ _ _ _ _ _ _ c) as [[? ?] ?].
  - apply set_dormant_moves.
  - apply hold_outside_moves.
  - apply hold_outside_moves.
  - by rewrite release_child_dl.
  - apply register_timer_moves.
  - apply register_event_quiet_moves.
  - apply unregister_timer_moves.
  - by rewrite register_waker_dl.
  - destruct (cancel_waker real alive id c) as [[k c']|] eqn:E; [|done]. by apply cancel_waker_moves in E.
  - by apply charge_moves.
  - by apply spin_step_moves.
  - by apply expire_moves.
  - apply reach_realtime_moves; [done|]. unfold realtime_at. lia.
  - apply sleep_start_moves; [done..|]. by destruct r.
  - apply wait_due_moves.
  - apply wake_due_moves.
  - apply idle_wait_moves.
  - apply advance_to_next_deadline_moves.
  - apply advance_to_next_any_deadline_moves.
Qed.

Lemma step_follows o c : op_ok o → follows c (step o c).2.
Proof.
  intros Hok Hc. destruct (is_move o) eqn:Ho.
  - destruct (begin_cases o) as [(? & ? & ? & ->)|Hsu]; [done|].
    apply moves_follows; [|done..]. apply step_moves; [done..|apply Hc].
  - destruct o; try done; cbn [step quiet snd op_ok] in *.
    + apply begin_follows; [apply Hok..|done].
    + by apply attach_follows.
    + by apply detach_follows.
    + destruct Hc as [[] Hs]. split; [split; [by split|done]|]. unfold held_value. simpl. lia.
Qed.

(** ** What a run hands out *)

Definition position_of (e : event) : option Z := match e with Position v => Some v | Read _ _ _ => None end.
Definition positions (es : list event) : list Z := omap position_of es.

Definition kind_eqb (k k' : clock_kind) : bool :=
  match k, k' with
  | Monotonic, Monotonic | Realtime, Realtime | Tai, Tai => true
  | _, _ => false
  end.
Definition read_of (kind : clock_kind) (e : event) : option Z :=
  match e with Read k _ v => if kind_eqb k kind then Some v else None | Position _ => None end.
Definition reads (kind : clock_kind) (es : list event) : list Z := omap (read_of kind) es.

Lemma step_positions o c : op_ok o → clock_wf c →
  StronglySorted Z.le (positions (step o c).1) ∧
  Forall (λ v, held_value (dl c) ≤ v ≤ held_value (dl (step o c).2)) (positions (step o c).1).
Proof.
  intros Hok [Hd Hs]. destruct o; try (split; constructor); cbn [step].
  - destruct (peek real c) as [v c'] eqn:E. destruct (peek_spec _ _ _ _ E Hd) as (_ & ? & ? & _).
    cbn. split; repeat constructor; lia.
  - destruct (advance real got c). cbn. split; constructor.
  - unfold jump_driven. destruct (peek real c) as [v c'] eqn:E.
    destruct (peek_spec _ _ _ _ E Hd) as (_ & ? & ? & _). destruct (negb (is_driven c')); cbn.
    + split; repeat constructor; lia.
    + unfold held_value in *. simpl. split; repeat constructor; lia.
Qed.

(** Lists of values handed out one after the other between bounds that only rise are sorted. *)
Lemma sorted_app_bounds (l k : list Z) (m : Z) :
  StronglySorted Z.le l → StronglySorted Z.le k →
  Forall (λ v, v ≤ m) l → Forall (λ v, m ≤ v) k → StronglySorted Z.le (l ++ k).
Proof.
  intros Hl Hk. induction Hl as [|x l Hl IH Hx]; intros Hlm Hkm; [done|]. inversion Hlm; subst.
  simpl. constructor; [auto|]. apply Forall_app. split; [done|].
  eapply Forall_impl; [done|]. simpl. lia.
Qed.

Lemma run_positions ops c : Forall op_ok ops → clock_wf c →
  StronglySorted Z.le (positions (run ops c).1) ∧
  Forall (λ v, held_value (dl c) ≤ v) (positions (run ops c).1).
Proof.
  revert c. induction ops as [|o ops IH]; intros c Hok Hc; [by split; constructor|].
  inversion Hok as [|? ? Ho Hops]; subst. simpl.
  destruct (step_follows o c Ho Hc) as [Hc' Hle]. destruct (step_positions o c Ho Hc) as [Hs Hb].
  destruct (step o c) as [e c']. cbn [fst snd] in *.
  destruct (IH c' Hops Hc') as [IHs IHb]. destruct (run ops c') as [es c'']. cbn [fst snd] in *.
  unfold positions in *. rewrite omap_app. split.
  - apply (sorted_app_bounds _ _ (held_value (dl c'))); [done..| |done].
    eapply Forall_impl; [done|]. simpl. lia.
  - apply Forall_app. split; (eapply Forall_impl; [done|]); simpl; lia.
Qed.

Lemma new_wf tai : 0 ≤ tai → clock_wf (new (W := W) tai).
Proof.
  intros Ht. split; [|split; simpl; unfold FIXED_EPOCH_NANOS; lia].
  split; simpl; try done; lia.
Qed.

(** A clock as a sim sets it up: its base mode, discrete or as-fast-as-possible, and whether its
    schedule is deterministic, chosen before it begins. *)
Definition fresh (discrete deterministic : bool) (tai : Z) : clock W :=
  set_deterministic deterministic (set_discrete discrete (new tai)).

Lemma fresh_wf disc det tai : 0 ≤ tai → clock_wf (fresh disc det tai).
Proof. intros Ht. destruct (new_wf tai Ht) as [Hd [Hb Hta]]. by split; [|split]. Qed.

(** ** Timestamps *)

(** The highest monotonic time the code under test may have read. *)
Definition seen (d : dial) : Z := Z.max (held_value d) (stamp d).
Definition stamped_driven (d : dial) : Prop := stamp d = 0 ∨ driven d = true.

Lemma step_seen o c : op_ok o → stamp_ok o c → clock_wf c → stamped_driven (dl c) →
  seen (dl c) ≤ seen (dl (step o c).2) ∧ stamped_driven (dl (step o c).2).
Proof.
  intros Hok Hst Hc Hsd. destruct (step_follows o c Hok Hc) as [_ Hle].
  unfold seen, stamped_driven in *. destruct (is_move o) eqn:Ho.
  - destruct (step_moves o c Ho Hok (proj2 Hc) (proj1 Hc)) as (_ & _ & -> & ->). split; [lia|done].
  - destruct o; try done; cbn [step quiet snd] in *.
    + assert (stamp (dl (begin fixed past_monotonic past_realtime c)) = stamp (dl c) ∧
              driven (dl (begin fixed past_monotonic past_realtime c)) = driven (dl c)) as [-> ->].
      { unfold begin. by destruct (begun (su c)), fixed. }
      split; [lia|done].
    + assert (stamp (dl (attach_driven real real' c)) = stamp (dl c)) as ->.
      { unfold attach_driven. destruct (peek real c) eqn:E. apply peek_frame in E. simpl. tauto. }
      split; [lia|]. right. unfold attach_driven. by destruct (peek real c).
    + unfold detach_driven in *. destruct (negb (is_driven c)); [split; [lia|done]|].
      destruct (peek real c) as [v c'] eqn:E. apply peek_frame in E as (_ & _ & _ & _ & _ & _ & _ & Hs).
      unfold held_value in *. simpl in *. split; [lia|by left].
    + destruct Hst as [Hdr Hcl]. unfold held_value in *. simpl. split; [lia|tauto].
Qed.

Lemma step_reads o c kind : clock_wf c → stamped_driven (dl c) →
  reads kind (step o c).1 = [] ∨
  ∃ m, reads kind (step o c).1 = [reading (su (step o c).2) kind m] ∧
       seen (dl c) ≤ m ≤ seen (dl (step o c).2).
Proof.
  intros [Hd Hs] Hsd. destruct o; try (left; reflexivity); cbn [step].
  - left. by destruct (peek real c).
  - destruct (advance real got c) as [m c'] eqn:E. cbn. destruct (kind_eqb kind0 kind) eqn:Hk; [|by left].
    assert (kind0 = kind) as -> by by destruct kind0, kind. right. exists m. split; [done|].
    unfold advance in E. destruct (jumps c) eqn:Hj; cbn [negb] in E.
    + apply jumps_undriven in Hj. assert (stamp (dl c) = 0) as Hst by (destruct Hsd; congruence).
      pose proof (wf_stamp _ Hd). unfold seen. rewrite Hst. destruct got; cbn [negb] in E.
      * injection E as <- <-. pose proof (wf_floor _ Hd). destruct (wf_line _ Hd).
        unfold held_value. simpl. lia.
      * destruct (peek_spec _ _ _ _ E Hd) as (_ & ? & ? & ?). lia.
    + destruct (peek real c) as [v c1] eqn:Hp. injection E as <- <-.
      destruct (peek_spec _ _ _ _ Hp Hd) as (_ & ? & ? & ?).
      apply peek_frame in Hp as (_ & _ & _ & _ & _ & _ & _ & Hst). unfold seen. lia.
  - left. by destruct (jump_driven os frequency real real' t to_next past c) as [[? ?] ?].
Qed.

Lemma step_begun o c : begun (su c) = true → su (step o c).2 = su c.
Proof.
  intros Hb. destruct (begin_cases o) as [(f & m & r & ->)|Hsu]; [|done].
  simpl. unfold begin. by rewrite Hb.
Qed.

Lemma reading_mono s kind m m' : m ≤ m' → reading s kind m ≤ reading s kind m'.
Proof. intros Hm. destruct kind; unfold reading, realtime_at; lia. Qed.

Lemma run_reads ops c kind : Forall op_ok ops → stamps_ok ops c → clock_wf c →
  begun (su c) = true → stamped_driven (dl c) →
  StronglySorted Z.le (reads kind (run ops c).1) ∧
  Forall (λ v, reading (su c) kind (seen (dl c)) ≤ v) (reads kind (run ops c).1).
Proof.
  revert c. induction ops as [|o ops IH]; intros c Hok Hst Hc Hb Hsd; [by split; constructor|].
  inversion Hok as [|? ? Ho Hops]; subst. destruct Hst as [Hst Hsts]. simpl.
  destruct (step_follows o c Ho Hc) as [Hc' _]. destruct (step_seen o c Ho Hst Hc Hsd) as [Hle Hsd'].
  pose proof (step_reads o c kind Hc Hsd) as Hr. pose proof (step_begun o c Hb) as Hsu.
  destruct (step o c) as [e c']. cbn [fst snd] in *. rewrite Hsu in Hr.
  destruct (IH c' Hops Hsts Hc' ltac:(congruence) Hsd') as [IHs IHb].
  destruct (run ops c') as [es c'']. cbn [fst snd] in *. rewrite Hsu in IHb.
  unfold reads in *. rewrite omap_app. pose proof (reading_mono (su c) kind _ _ Hle).
  assert (Forall (λ v, reading (su c) kind (seen (dl c)) ≤ v) (omap (read_of kind) es)).
  { eapply Forall_impl; [done|]. simpl. lia. }
  destruct Hr as [->|(m & -> & Hm1 & Hm2)]; [done|].
  apply (reading_mono (su c) kind) in Hm1, Hm2. split.
  - constructor; [done|]. eapply Forall_impl; [exact IHb|]. simpl. lia.
  - by constructor.
Qed.

End run.

Arguments op : clear implicits.
