(* ===== verification/ClockProps.v ===== *)
(** * What the virtual clock promises

    The theorems about [Clock] of crates/snare/src/clock.rs. *)

From S2P Require Import Prelude Line Timers TimersWf Clock ClockOps ClockMoves ClockRun.

(** Discharges the typing of a concrete sequence of operations. *)
Ltac ops_ok :=
  repeat (apply List.Forall_cons; [cbn; first [exact I | lia | repeat split; lia]|]);
  apply List.Forall_nil.

(** C3: the clock's own position never goes back. From a fresh clock in either base
    mode, over any sequence of its operations (rate changes, pauses, writers, an executive's
    grants, jumps and freezes, charges, spins, sleeps, time skips, registrations) with any
    real-time samples, even ones that step back, the positions it hands out are in non-decreasing
    order. *)
Theorem positions_monotone {W} (os : target_os) (frequency tai : Z) (disc det : bool)
    (ops : list (op W)) :
  0 ≤ tai → Forall op_ok ops →
  StronglySorted Z.le (positions (run os frequency ops (fresh disc det tai)).1).
Proof. intros Ht Hok. apply run_positions; [done|by apply fresh_wf]. Qed.

Lemma positions_monotone_witness :
  (positions (run Linux 1 [OpSetRate 5 (rate_whole 2); OpPeek 1000; OpPeek 7; OpAdvanceBy 2000 50;
     OpAttach 2000 2001; OpJump 2001 2002 9000 false true; OpCharge 2100 true 3000;
     OpPeek 2100] (fresh (W := unit) true false 37)).1) = [1990; 1990; 4040; 9000; 9001] ∧
  StronglySorted Z.le (positions (run Linux 1 [OpSetRate 5 (rate_whole 2); OpPeek 1000; OpPeek 7;
     OpAdvanceBy 2000 50; OpAttach 2000 2001; OpJump 2001 2002 9000 false true;
     OpCharge 2100 true 3000; OpPeek 2100] (fresh (W := unit) true false 37)).1).
Proof.
  split; [vm_compute; reflexivity|].
  apply (positions_monotone (W := unit) Linux 1 37 true false); [lia|].
  ops_ok.
Defined.

(** time as the code under test reads it never goes back. Once a clock in
    either base mode has begun, the readings it gives of each clock kind are in non-decreasing order over any sequence of
    operations, timestamps included, as long as the executive opens timestamps only on a clock it
    drives and closes one only once the clock or its next timestamp has reached it. *)
Theorem reads_monotone {W} (os : target_os) (frequency tai pm pr : Z)
    (disc det fixed : bool) (ops : list (op W)) (kind : clock_kind) :
  0 ≤ tai → is_u64 pm → is_u64 pr → Forall op_ok ops →
  stamps_ok os frequency ops (begin fixed pm pr (fresh disc det tai)) →
  StronglySorted Z.le (reads kind (run os frequency ops (begin fixed pm pr (fresh disc det tai))).1).
Proof.
  intros Ht Hpm Hpr Hok Hst. apply run_reads; [done..| | |].
  - apply begin_follows; [done..|]. by apply fresh_wf.
  - by destruct fixed.
  - left. by destruct fixed.
Qed.

Lemma reads_monotone_witness :
  reads Tai (run Linux 1 [OpNow Tai 0 true; OpAttach 1 1; OpStamp (Some 4000000100);
     OpNow Tai 1 true; OpGrant 1 1 4000000050 7 (rate_whole 1) 4000000200; OpNow Tai 60 true; OpNow Tai 500 true;
     OpStamp None; OpNow Tai 500 true]
     (begin false 3000000000 5 (fresh (W := unit) true false 37))).1 =
    [1700000041000000000; 1700000041000000100; 1700000041000000103; 1700000041000000200;
     1700000041000000200] ∧
  StronglySorted Z.le (reads Tai (run Linux 1 [OpNow Tai 0 true; OpAttach 1 1; OpStamp (Some 4000000100);
     OpNow Tai 1 true; OpGrant 1 1 4000000050 7 (rate_whole 1) 4000000200; OpNow Tai 60 true; OpNow Tai 500 true;
     OpStamp None; OpNow Tai 500 true] (begin false 3000000000 5 (fresh (W := unit) true false 37))).1).
Proof.
  split; [vm_compute; reflexivity|].
  apply (reads_monotone (W := unit) Linux 1 37 3000000000 5 true false false); [lia..| |].
  - ops_ok.
  - repeat split; vm_compute; try discriminate; right; reflexivity.
Defined.

(** ** Starting and changing rate *)

(** [Clock::begin] continues the process's timeline. With [pm] and [pr] the highest monotonic
    and realtime readings of the process's earlier clocks, a clock that is not the first starts on
    a whole second at least one second past [pm] and less than two, reads no realtime before [pr]
    or the fixed epoch, and counts sim time from there. *)
Theorem begin_continues {W} (tai pm pr real : Z) :
  is_u64 pm → is_u64 pr → pm + 2 * START_GRAIN ≤ u64_max → (pm ≠ 0 ∨ pr ≠ 0) →
  let c := begin false pm pr (new (W := W) tai) in
  let '(start, c') := peek real c in
  start mod START_GRAIN = 0 ∧ pm + START_GRAIN ≤ start < pm + 2 * START_GRAIN ∧
  pr ≤ reading (su c') Realtime start ∧ FIXED_EPOCH_NANOS ≤ reading (su c') Realtime start ∧
  sim_time (su c') start = 0.
Proof.
  intros Hm Hr Hfit Hpast. unfold begin. cbn [begun su new]. cbn zeta iota.
  unfold peek, peek_dial. cbn. unfold held_value, realtime_at, sat_mul, FIXED_EPOCH_NANOS, START_GRAIN in *.
  replace ((pm =? 0) && (pr =? 0)) with false by (symmetry; rewrite andb_false_iff, !Z.eqb_neq; lia).
  destruct (div_ceil_spec (sat_add pm 1000000000) 1000000000 ltac:(lia) ltac:(lia)) as (? & ? & ?).
  set (q := div_ceil _ _) in *. cbn.
  replace (Z.min (q * 1000000000) u64_max) with (q * 1000000000) by lia.
  replace (Z.max (Z.max 0 (q * 1000000000)) (Z.max 0 (q * 1000000000))) with (q * 1000000000) by lia.
  split; [apply Z_mod_mult|]. unfold sim_time. cbn [origin]. lia.
Qed.

Lemma begin_continues_witness :
  let '(start, c') := peek 0 (begin false 1500000000 1700000007000000000 (new (W := unit) 37)) in
  start mod START_GRAIN = 0 ∧ 1500000000 + START_GRAIN ≤ start < 1500000000 + 2 * START_GRAIN ∧
  1700000007000000000 ≤ reading (su c') Realtime start ∧
  FIXED_EPOCH_NANOS ≤ reading (su c') Realtime start ∧ sim_time (su c') start = 0.
Proof.
  apply (begin_continues (W := unit) 37 1500000000 1700000007000000000 0);
    [lia|lia|vm_compute; discriminate|left; lia].
Defined.

(** A line reads its anchor at the instant it was anchored. *)
Lemma value_at_anchor v real q : v ≤ u64_max → value_at (mk_line v real q u64_max) real = v.
Proof.
  intros Hv. unfold value_at. simpl. replace (sat_sub real real) with 0 by lia.
  rewrite Z.mul_0_l, Z.shiftr_0_l. lia.
Qed.

(** Where [publish] anchors: at the reading of that instant. *)
Lemma publish_reading d real q p to : dial_wf d → driven d = false →
  (peek_dial real d).1 ≤ to (peek_dial real d).1 → to (peek_dial real d).1 ≤ u64_max →
  the_line (publish real q p to d) = mk_line (to (peek_dial real d).1) real q u64_max.
Proof.
  intros Hd Hu Hto Hmax. destruct (peek_dial_spec d real Hd) as (Hge & _ & _).
  destruct (value_at_reach d real Hd) as [Hreach _].
  unfold publish, peek_dial, line_value in *. rewrite Hu in *. cbn.
  destruct (paused d || negb (dial_scaled d)); cbn in *; f_equal; unfold held_value in *; [lia|].
  assert (Z.max (value_at (the_line d) real) (Z.max (monotonic_nanos d) (floor d)) =
          Z.max (floor d) (value_at (the_line d) real)) as -> by lia. lia.
Qed.

(** A reading after [publish] kept the reading [now] and set the rate [q]. *)
Lemma publish_peek d real real' q p : dial_wf d → driven d = false → is_u64 q → real ≤ real' →
  let now := (peek_dial real d).1 in
  (peek_dial real' (publish real q p (λ now, now) d)).1 =
    if p || (q =? 0) then now else Z.min (now + Z.shiftr ((real' - real) * q) 32) u64_max.
Proof.
  intros Hd Hu Hq Hle. cbn zeta. destruct (peek_dial_spec d real Hd) as (Hge & _ & Hu64).
  pose proof (publish_reading d real q p (λ now, now) Hd Hu ltac:(cbv beta; lia) ltac:(cbv beta; lia)) as Hpub.
  assert (floor (publish real q p (λ now, now) d) = floor d) as Hfl by done.
  assert (paused (publish real q p (λ now, now) d) = p) as Hp by done.
  assert (driven (publish real q p (λ now, now) d) = driven d) as Hdr by done.
  generalize dependent (publish real q p (λ now, now) d). intros d' Hpub Hfl Hp Hdr.
  generalize dependent (peek_dial real d).1. intros now Hge Hu64 Hpub. unfold held_value in Hge.
  unfold peek_dial, line_value, dial_scaled, held_value. rewrite Hdr, Hp, Hu, Hpub. cbn.
  rewrite negb_involutive, Hfl. destruct (p || (q =? 0)); cbn; [lia|].
  unfold value_at. cbn. replace (sat_sub real' real) with (real' - real) by lia.
  assert (0 ≤ Z.shiftr ((real' - real) * q) 32).
  { apply Z.shiftr_nonneg. apply Z.mul_nonneg_nonneg; lia. }
  lia.
Qed.

Lemma peek_scaled_rate real r d : (peek_dial real (set_scaled_rate r d)).1 = (peek_dial real d).1.
Proof. destruct d as [l [] r' f [] st g]; unfold peek_dial, dial_scaled; cbn; by repeat case_match. Qed.

Lemma peek_fst {W} real (c : clock W) : (peek real c).1 = (peek_dial real (dl c)).1.
Proof. unfold peek. by destruct (peek_dial real (dl c)). Qed.

(** [Clock::set_rate] keeps the current reading and runs from it at the new rate: on a clock
    no executive owns, a reading at a later instant [real'] is the reading at [real] plus the real
    time passed times the rate (in 32.32 fixed point, rounded down), to the end of the clock; and
    the reading holds still when the rate is zero, or infinity on a base clock. *)
Theorem set_rate_runs_from_reading {W} (real real' : Z) (r : rate) (c : clock W) :
  clock_wf c → is_driven c = false → real ≤ real' →
  let now := (peek real c).1 in
  (peek real' (set_rate real r c)).1 =
    match r with
    | RFinite q =>
        if rate_is_zero r then now
        else Z.min (now + Z.shiftr ((real' - real) * rate_to_q32 (RFinite (Qmin2 q max_rate))) 32) u64_max
    | RInfinity => now
    end.
Proof.
  intros [Hd Hs] Hu Hle. cbn zeta. rewrite !peek_fst. unfold set_rate. rewrite Hu.
  destruct (rate_is_zero r) eqn:Hz.
  - transitivity (peek_dial real (dl c)).1; [|by destruct r]. destruct (is_paused c) eqn:Hp.
    + unfold peek_dial. unfold is_driven, is_paused in *. by rewrite Hu, Hp.
    + apply (publish_peek (dl c) real real' _ true); [done..| |done]. apply Hd.
  - destruct r as [q|]; cbn [dl with_dial]; rewrite peek_scaled_rate;
      [|by apply (publish_peek (dl c) real real' 0 false)].
    pose proof (is_scaled_q (RFinite (Qmin2 q max_rate))) as Hq. revert Hq.
    generalize (rate_to_q32 (RFinite (Qmin2 q max_rate))). intros q32 Hq.
    etransitivity; [by apply (publish_peek (dl c) real real' q32 false)|]. cbn [orb].
    destruct (Z.eqb_spec q32 0) as [->|]; [|done].
    destruct (peek_dial_spec (dl c) real Hd). rewrite Z.mul_0_r, Z.shiftr_0_l. lia.
Qed.

Lemma set_rate_runs_from_reading_witness :
  (peek 3000 (set_rate 1000 (rate_whole 3) (advance_by 0 500 (new (W := unit) 37)))).1 = 6500.
Proof.
  rewrite (set_rate_runs_from_reading 1000 3000 (rate_whole 3) (advance_by 0 500 (new (W := unit) 37)));
    [vm_compute; reflexivity| |reflexivity|lia].
  apply clock_wfb_ok. vm_compute. reflexivity.
Defined.

(** ** How far the clock moves in one step

    The theorems about the quiescence time skip, a clock spin, a charge under an executive's grant
    and the real time an idle wait asks for, of crates/snare/src/clock.rs. *)

Section skip.
Context {W : Type} (os : target_os) (frequency : Z).
Implicit Types (c : clock W) (t : timers W).

(** The reading of a running base clock. *)
Lemma peek_base real c : is_paused c || negb (is_scaled c) = true → is_driven c = false →
  peek real c = (held_value (dl c), c).
Proof.
  unfold peek, peek_dial, is_paused, is_scaled, is_driven. intros -> ->. by destruct c.
Qed.

(** Once the entries reached are dropped, the first one left is the next deadline. *)
Lemma first_key_take_upto t now : first_key (entries (take_upto t now).2) = first_from (entries t) (sat_add now 1).
Proof.
  destruct (first_key (entries (take_upto t now).2)) as [k|] eqn:E; symmetry.
  - apply first_key_Some in E as [Hk Hmin]. apply first_from_Some.
    rewrite take_upto_entries in Hk. case_decide; [|by destruct Hk].
    split; [done|split; [done|]]. intros j Hj Hle. apply Hmin. rewrite take_upto_entries.
    by rewrite decide_True.
  - apply first_key_None in E. apply first_from_None. intros j [e Hj].
    destruct (Z.lt_ge_cases j (sat_add now 1)) as [|Hle]; [done|].
    pose proof (take_upto_entries t now j) as H. rewrite E, lookup_empty, decide_True in H by done.
    congruence.
Qed.

(** Landing raises the anchor, and nothing else of the dial. *)
Lemma land_held landing c : held_value (dl c) ≤ landing → held_value (dl (land landing c).2) = landing.
Proof. intros H. unfold land. rewrite take_wakers_dl. unfold held_value in *. simpl. lia. Qed.

Lemma skip_spec real s c :
  clock_wf c → is_paused c = false → is_driven c = false → is_scaled c = false →
  let now := held_value (dl c) in
  let r := skip_to_next_deadline os frequency real s c in
  match r.1.1 with
  | true => ∃ next,
      next_deadline_after now c = Some next ∧
      (is_deterministic c = true ∨ reached_wait (pending (tb c)) now = false) ∧
      (match (pace_limit os s (pc c)).1 with Some limit => next < limit | None => True end) ∧
      held_value (dl r.2) = creep_past os frequency next
  | false => held_value (dl r.2) = now ∧
      ((is_deterministic c = false ∧ reached_wait (pending (tb c)) now = true) ∨
       match next_deadline_after now c with
       | None => True
       | Some next => ∃ limit, (pace_limit os s (pc c)).1 = Some limit ∧ limit ≤ next
       end)
  end.
Proof.
  intros Hwf Hp Hd Hs. cbn zeta. unfold skip_to_next_deadline.
  rewrite peek_base by (rewrite ?Hp, ?Hs; done).
  destruct (negb (is_deterministic c) && _) eqn:Hrw.
  { apply andb_true_iff in Hrw as [Hdet%negb_true_iff Hrw]. split; [done|by left]. }
  assert (is_deterministic c = true ∨ reached_wait (pending (tb c)) (held_value (dl c)) = false) as Hfree.
  { apply andb_false_iff in Hrw as [?%negb_false_iff|?]; [by left|by right]. }
  pose proof (first_key_take_upto (pending (tb c)) (held_value (dl c))) as Hfk.
  destruct (take_upto (pending (tb c)) (held_value (dl c))) as [[any pruned] t]. cbn [snd] in Hfk.
  rewrite Hfk. fold (next_deadline_after (held_value (dl c)) c).
  destruct (next_deadline_after (held_value (dl c)) c) as [next|] eqn:Hn; [|split; [done|by right]].
  change (pc (with_tables (set_pending t) c)) with (pc c).
  destruct (pace_limit os s (pc c)) as [limit p] eqn:Hl. cbn [fst].
  destruct (match limit with Some limit => limit <=? next | None => false end) eqn:Hlim.
  { split; [done|right]. destruct limit as [limit|]; [|done]. exists limit. split; [done|].
    by apply Z.leb_le. }
  set (c1 := with_pace _ _). pose proof (land_held (creep_past os frequency next) c1) as Hland.
  destruct (land (creep_past os frequency next) c1) as [ws c2]. cbn [fst snd] in *.
  exists next. split; [done|split; [done|split]].
  - destruct limit; [|done]. by apply Z.leb_gt.
  - apply Hland. unfold next_deadline_after in Hn. apply first_from_Some in Hn as (_ & Hn & _).
    pose proof (creep_past_ge os frequency next). destruct Hwf as [[[] ? ? ? ?] _].
    change (dl c1) with (dl c). unfold held_value in *. lia.
Qed.

End skip.

(** the quiescence time skip of a running discrete clock, on every branch. It moves time
    exactly when no wait it has reached is left untaken (a deterministic sim skips regardless), a
    participant's deadline lies ahead, and that deadline is within what real time allows a dormant
    or outside-held clock; it then reads just past the earliest such deadline. Otherwise the
    reading ([held_value], the reading of a base clock) stays where it was. *)
Theorem skip_lands_past_next {W} (os : target_os) (frequency real : Z) (s : paced) (c : clock W) :
  clock_wf c → is_paused c = false → is_driven c = false → is_scaled c = false → is_discrete c = true →
  let now := held_value (dl c) in
  let '((moved, _), c') := advance_to_next_deadline os frequency real s c in
  if moved then ∃ next,
    is_Some (entries (pending (tb c)) !! next) ∧ sat_add now 1 ≤ next ∧
    (∀ k, is_Some (entries (pending (tb c)) !! k) → k < sat_add now 1 ∨ next ≤ k) ∧
    (is_deterministic c = true ∨ reached_wait (pending (tb c)) now = false) ∧
    (∀ limit, (pace_limit os s (pc c)).1 = Some limit → next < limit) ∧
    held_value (dl c') = creep_past os frequency next
  else
    held_value (dl c') = now ∧
    ((is_deterministic c = false ∧ reached_wait (pending (tb c)) now = true) ∨
     ∀ k, is_Some (entries (pending (tb c)) !! k) → k < sat_add now 1 ∨
       ∃ limit, (pace_limit os s (pc c)).1 = Some limit ∧ limit ≤ k).
Proof.
  intros Hwf Hp Hd Hs Hdisc. unfold advance_to_next_deadline. rewrite Hp, Hd, Hs, Hdisc. cbn [orb negb andb].
  pose proof (skip_spec os frequency real s c Hwf Hp Hd Hs) as Hspec.
  destruct (skip_to_next_deadline os frequency real s c) as [[moved ws] c1]. cbn [fst snd] in *.
  rewrite wake_taken_dl. destruct moved.
  - destruct Hspec as (next & (Hk & Hle & Hmin)%first_from_Some & Hfree & Hlim & Hheld).
    exists next. split_and!; try done.
    + intros k Hk'. destruct (Z.lt_ge_cases k (sat_add (held_value (dl c)) 1)); [by left|right; auto].
    + intros limit Hl. by rewrite Hl in Hlim.
  - destruct Hspec as [Hheld [Hw|Hn]]; (split; [done|]); [by left|right]. intros k Hk.
    destruct (next_deadline_after (held_value (dl c)) c) as [next|] eqn:E.
    + apply first_from_Some in E as (_ & _ & Hmin). destruct Hn as (limit & Hl & Hle).
      destruct (Z.lt_ge_cases k (sat_add (held_value (dl c)) 1)); [by left|right].
      exists limit. split; [done|]. specialize (Hmin k Hk). lia.
    + unfold next_deadline_after in E. rewrite first_from_None in E. left. auto.
Qed.

Definition paced_now (real : Z) : paced := mk_paced (λ _, None) real real real.

(** A fresh clock with timers 50 and 70 ns ahead. *)
Definition two_timers : clock unit :=
  (register_timer 0 70 false false 9 (register_timer 0 50 false false 7 (new 37)).2).2.

Lemma skip_lands_past_next_witness :
  held_value (dl (advance_to_next_deadline Linux 1 0 (paced_now 0) two_timers).2) = 51 ∧
  ∃ next, is_Some (entries (pending (tb two_timers)) !! next) ∧
    held_value (dl (advance_to_next_deadline Linux 1 0 (paced_now 0) two_timers).2) =
      creep_past Linux 1 next.
Proof.
  split; [vm_compute; reflexivity|].
  assert (H := skip_lands_past_next Linux 1 0 (paced_now 0) two_timers
    (clock_wfb_ok two_timers ltac:(vm_compute; reflexivity)) ltac:(reflexivity) ltac:(reflexivity)
    ltac:(reflexivity) ltac:(reflexivity)).
  cbn zeta in H. assert ((advance_to_next_deadline Linux 1 0 (paced_now 0) two_timers).1.1 = true) as E
    by (vm_compute; reflexivity).
  destruct (advance_to_next_deadline Linux 1 0 (paced_now 0) two_timers) as [[moved ws] c'].
  cbn [fst] in E. rewrite E in H. destruct H as (next & Hk & _ & _ & _ & _ & Hn). by exists next.
Defined.

(** on a Unix host, while the sim's runs have ended or something outside the sim is waited
    on, a time skip never carries the clock further past the reading that spell began at than real
    time has moved since. *)
Theorem skip_paced {W} (os : target_os) (frequency real limit : Z) (s : paced) (c : clock W) :
  os ≠ Windows → clock_wf c → is_paused c = false → is_driven c = false → is_scaled c = false →
  (pace_limit os s (pc c)).1 = Some limit →
  held_value (dl (advance_to_next_deadline os frequency real s c).2) ≤ Z.max (held_value (dl c)) limit.
Proof.
  intros Hos Hwf Hp Hd Hs Hl. unfold advance_to_next_deadline. rewrite Hp, Hd, Hs. cbn [orb].
  destruct (negb (is_discrete c) && negb (is_dormant c)); [simpl; lia|].
  pose proof (skip_spec os frequency real s c Hwf Hp Hd Hs) as Hspec.
  destruct (skip_to_next_deadline os frequency real s c) as [[moved ws] c1]. cbn [fst snd] in *.
  rewrite wake_taken_dl. rewrite Hl in Hspec. destruct moved; [|lia].
  destruct Hspec as (next & _ & _ & Hlt & ->). unfold creep_past, is_windows.
  rewrite bool_decide_false by done. lia.
Qed.

(** A clock with a timer 50 ns ahead, dormant since real time 1000. *)
Definition dormant_clock : clock unit :=
  set_dormant 1000 1000 true (register_timer 0 50 false false 7 (new 37)).2.

Lemma skip_paced_witness :
  held_value (dl (advance_to_next_deadline Linux 1 1051 (paced_now 1051) dormant_clock).2) = 51 ∧
  held_value (dl (advance_to_next_deadline Linux 1 1051 (paced_now 1051) dormant_clock).2) ≤
    Z.max (held_value (dl dormant_clock)) 51.
Proof.
  split; [vm_compute; reflexivity|].
  apply (skip_paced Linux 1 1051 51 (paced_now 1051) dormant_clock);
    [discriminate|apply clock_wfb_ok; vm_compute; reflexivity|reflexivity..].
Defined.

(** *** Spinning *)

(** Where a spin that moves the clock lands. *)
Lemma spin_moved {W} os frequency real real' st (c : clock W) f ws c' :
  clock_wf c → 0 ≤ st → spin_step os frequency real real' st c = ((SpinMoved f, ws), c') →
  held_value (dl c') = spin_landing os frequency (held_value (dl c)) st c.
Proof.
  intros Hwf Hst. unfold spin_step.
  destruct (is_paused c || is_driven c) eqn:Hpd; [done|]. apply orb_false_iff in Hpd as [Hp Hd].
  destruct (negb (is_discrete c) || is_scaled c) eqn:Hds; [done|]. apply orb_false_iff in Hds as [_ Hs].
  rewrite peek_base by (rewrite ?Hp, ?Hs; done).
  match goal with |- context [if ?b then (?x, ?y) else (false, c)] => set (w := if b then (x, y) else (false, c)) end.
  assert (dl w.2 = dl c ∧ tb w.2 = set_spin_due (spin_due_since (tb w.2)) (tb c)) as [Hw Ht].
  { subst w. case_match; simpl; [done|]. by destruct (tb c). }
  destruct w as [waiting c1]. cbn [snd] in *. destruct waiting; [done|].
  set (c2 := with_tables (set_spin_due 0) c1).
  assert (spin_landing os frequency (held_value (dl c)) st c2 =
          spin_landing os frequency (held_value (dl c)) st c) as Hland.
  { unfold spin_landing, next_deadline_after. subst c2. simpl. by rewrite Ht. }
  rewrite Hland. pose proof (spin_landing_ge os frequency (held_value (dl c)) st c) as Hge.
  destruct Hwf as [[[] ? ? ? ?] _].
  assert (spin_landing os frequency (held_value (dl c)) st c ≤ u64_max) as Hmax.
  { unfold spin_landing. pose proof (creep_past_le os frequency).
    destruct (next_deadline_after _ c); zbool; simpl; try lia. apply H. }
  assert (is_u64 (held_value (dl c))) as Hu by (unfold held_value; lia). specialize (Hge Hu Hst).
  destruct (step_base _ (dl c2)) as [[before after] d] eqn:Hsb.
  pose proof (fire_upto_dl before after (with_dial (λ _, d) c2)) as Hf.
  destruct (fire_upto before after _) as [[n ws'] c3]. cbn [snd] in Hf.
  intros [= <- <- <-]. rewrite wake_taken_dl, Hf. simpl. unfold step_base in Hsb.
  injection Hsb as <- <- <-. change (dl c2) with (dl c1). rewrite Hw. unfold held_value in *. simpl. lia.
Qed.

(** a step of a clock spin moves time (unless the clock is at its end), and never carries
    it past the earliest participant timer ahead in one step: it lands short of the timer, or, from
    the last instant before it, just past it, as a time skip does. *)
Theorem spin_never_overruns {W} (os : target_os) (frequency real real' st : Z) (c c' : clock W)
    (f : bool) (ws : list W) :
  clock_wf c → 0 ≤ st → spin_step os frequency real real' st c = ((SpinMoved f, ws), c') →
  let before := held_value (dl c) in
  let after := held_value (dl c') in
  (before < u64_max → before < after) ∧
  match next_deadline_after before c with
  | Some next => after < next ∨ (next - 1 ≤ before ∧ after = creep_past os frequency next)
  | None => after = sat_add before (Z.max (nanos st) 1)
  end.
Proof.
  intros Hwf Hst Hspin. pose proof (spin_moved _ _ _ _ _ _ _ _ _ Hwf Hst Hspin) as Hland.
  cbn zeta. rewrite Hland. unfold spin_landing. destruct Hwf as [[[] ? ? ? ?] _].
  unfold held_value in *. unfold nanos.
  destruct (next_deadline_after _ c) as [next|] eqn:E; [|split; lia].
  apply first_from_Some in E as (_ & Hn & _). pose proof (creep_past_ge os frequency next).
  zbool; simpl; split; lia.
Qed.

Lemma spin_never_overruns_witness :
  held_value (dl (spin_step Linux 1 0 0 1000 two_timers).2) = 49 ∧
  (0 < u64_max → 0 < held_value (dl (spin_step Linux 1 0 0 1000 two_timers).2)).
Proof.
  split; [vm_compute; reflexivity|].
  destruct (spin_never_overruns Linux 1 0 0 1000 two_timers (spin_step Linux 1 0 0 1000 two_timers).2
    false []) as [H _].
  - apply clock_wfb_ok. vm_compute. reflexivity.
  - lia.
  - vm_compute. reflexivity.
  - exact H.
Defined.

(** *** Under an executive *)

(** latency charged to a driven clock never carries it past its grant. It reads the reading
    it had plus the latency, cut off at the grant's horizon (unchanged when another writer holds
    the clock, and never lower); and while the executive's open timestamp lies past both the
    reading and the horizon, it still does afterwards, even when the charge widens the horizon to
    let a timer on it be passed. *)
Theorem charge_driven_bounded {W} (os : target_os) (frequency real latency : Z) (got : bool) (c : clock W) :
  clock_wf c → is_driven c = true → 0 ≤ latency →
  let now := (peek real c).1 in
  let c' := (charge os frequency real got latency c).2 in
  let st := stamp (dl c) in
  (got = true →
     held_value (dl c') = Z.max now (Z.min (sat_add now (nanos latency)) (horizon (the_line (dl c))))) ∧
  (got = false → c' = c) ∧
  (st ≠ 0 → held_value (dl c) < st → horizon (the_line (dl c)) < st →
     held_value (dl c') < st ∧ horizon (the_line (dl c')) < st ∧ stamp (dl c') = st).
Proof.
  intros [Hd Hs] Hdr Hl. cbn zeta.
  pose proof (charge_moves os frequency real got latency c Hl Hd) as (_ & _ & _ & Hst).
  rewrite Hst. clear Hst. unfold charge. rewrite Hdr. unfold charge_driven.
  destruct got; [|split_and!; done]. rewrite Hdr. cbn [negb].
  destruct (peek real c) as [now c1] eqn:Hp. destruct (peek_spec _ _ _ _ Hp Hd) as (Hd1 & Hge & Hval & Hu).
  apply peek_frame in Hp as Hfr. destruct Hfr as (_ & _ & _ & _ & Hline & _ & _ & Hst).
  assert (stamp (dl c) ≠ 0 → held_value (dl c) < stamp (dl c) → horizon (the_line (dl c)) < stamp (dl c) →
          now < stamp (dl c)) as Hshort.
  { intros _ H1 H2. unfold peek, peek_dial, line_value in Hp. unfold is_driven in Hdr.
    rewrite Hdr in Hp. injection Hp as <- _. unfold held_value in *.
    pose proof (value_at_le_horizon (the_line (dl c)) real). lia. }
  cbn [fst]. rewrite Hline. set (hz := horizon (the_line (dl c))) in *.
  set (after := Z.min _ hz).
  destruct (Z.leb_spec after now) as [Ha|Ha]; cbn [fst snd].
  { rewrite Hline. fold hz. split; [intros _; lia|]. split; [done|]. intros. split; [|done]. rewrite Hval. auto. }
  set (c2 := if after =? hz then _ else _).
  assert (held_value (dl c2) = after ∧
    (stamp (dl c) ≠ 0 → hz < stamp (dl c) → horizon (the_line (dl c2)) < stamp (dl c))) as [H2 H3].
  { subst c2. unfold held_value in *.
    destruct (after =? hz); [|simpl; rewrite Hline; split; [lia|done]].
    unfold creep_past_timer_at. simpl. rewrite Hst.
    destruct (negb (stamp (dl c) =? 0) && _) eqn:E; [simpl; rewrite Hline; split; [lia|done]|].
    case_match; simpl; [|rewrite Hline; split; [lia|done]]. split; [lia|]. intros Hne _.
    apply andb_false_iff in E as [?%negb_false_iff%Z.eqb_eq|?%Z.leb_gt]; [done|lia]. }
  pose proof (fire_upto_dl now after c2) as Hf.
  destruct (fire_upto now after c2) as [[n ws] c3]. cbn [fst snd] in *. rewrite wake_taken_dl, Hf, H2.
  split; [intros _; lia|]. split; [done|]. intros Hne H1 Hh. split; [lia|]. auto.
Qed.

(** A driven clock at 100 with a horizon of 130 and a timer on it, and a timestamp open at 200. *)
Definition granted : clock unit :=
  set_stamp (Some 200)
    (grant 0 0 100 0 rate_zero 130
      (attach_driven 0 0 (register_timer 0 130 false false 7 (new 37)).2)).

Lemma charge_driven_bounded_witness :
  held_value (dl (charge Linux 1 0 true 500 granted).2) = 130 ∧
  horizon (the_line (dl (charge Linux 1 0 true 500 granted).2)) = 131 ∧
  held_value (dl (charge Linux 1 0 true 500 granted).2) =
    Z.max (peek 0 granted).1 (Z.min (sat_add (peek 0 granted).1 (nanos 500)) (horizon (the_line (dl granted)))).
Proof.
  split; [vm_compute; reflexivity|]. split; [vm_compute; reflexivity|].
  apply (charge_driven_bounded Linux 1 0 500 true granted);
    [apply clock_wfb_ok; vm_compute; reflexivity|reflexivity|lia|reflexivity].
Defined.

(** *** Waiting in real time *)

(** What a line gains over two spans is at least what it gains over each. *)
Lemma shiftr_superadd a b : 0 ≤ a → 0 ≤ b → Z.shiftr a 32 + Z.shiftr b 32 ≤ Z.shiftr (a + b) 32.
Proof.
  intros Ha Hb. rewrite !Z.shiftr_div_pow2 by lia.
  apply Z.div_le_lower_bound; [lia|].
  pose proof (Z.mul_div_le a (2 ^ 32) ltac:(lia)). pose proof (Z.mul_div_le b (2 ^ 32) ltac:(lia)). lia.
Qed.

(** the real time an idle wait sleeps on a clock running at a rate is enough. When
    [idle_wait], sampled at [real] where the reading is on the line, asks for [w] nanoseconds (that
    fit the [u64] they are counted in), then from [real + w] on the clock reads at least the next
    participant timer's deadline: the waiter never wakes before there is something to do. *)
Theorem idle_wait_reaches_timer {W} (os : target_os) (real real' w next : Z) (s : paced) (c : clock W) :
  clock_wf c → is_paused c = false → is_driven c = false → is_scaled c = true →
  anchor_real (the_line (dl c)) ≤ real → floor (dl c) ≤ value_at (the_line (dl c)) real →
  next_deadline_after (peek real c).1 c = Some next → next ≤ u64_max →
  (idle_wait os real s c).1 = Some w → w < u64_max → real + w ≤ real' →
  next ≤ (peek real' c).1.
Proof.
  intros [Hd Hs] Hp Hdr Hsc Hreal Hfl Hn Hmax Hw Hfit Hle.
  assert (∀ r, (peek r c).1 = Z.max (floor (dl c)) (value_at (the_line (dl c)) r)) as Hpk.
  { intros r. rewrite peek_fst. unfold peek_dial, line_value, is_paused, is_driven, is_scaled in *.
    by rewrite Hp, Hdr, Hsc. }
  unfold idle_wait in Hw. rewrite Hp, Hdr in Hw. cbn [orb] in Hw.
  destruct (pace_limit os s (pc c)) as [limit p].
  change (is_scaled (with_pace (λ _, p) c)) with (is_scaled c) in Hw. rewrite Hsc in Hw. cbn [negb] in Hw.
  pose proof (peek_fst real (with_pace (λ _, p) c)) as Hpf.
  change (dl (with_pace (λ _, p) c)) with (dl c) in Hpf. rewrite <- peek_fst in Hpf.
  destruct (peek real (with_pace (λ _, p) c)) as [now c1] eqn:E. cbn [fst] in *. rewrite <- Hpf in Hn.
  apply peek_frame in E as (_ & _ & Htb & _ & Hline & Hpz & Hdz & _). simpl in *.
  unfold next_deadline_after in *. rewrite Htb, Hn in Hw. cbn in Hw.
  unfold real_span, is_paused, is_driven in *. rewrite Hpz, Hdz, Hp, Hline in Hw. cbn in Hw.
  apply first_from_Some in Hn as (_ & Hnow & _).
  rewrite Hpk in Hpf. rewrite Hpk. destruct Hd as [[] Hflr ? Hh ?]. specialize (Hh Hdr).
  pose proof (value_at_range (the_line (dl c)) ltac:(by split) real).
  destruct (Z.eqb_spec (rate_q32 (the_line (dl c))) 0) as [|Hq]; [done|].
  unfold real_at in Hw. cbn in Hw. unfold nanos in Hw.
  destruct (Z.ltb_spec u64_max (Z.min (next - now) u64_max)); [done|].
  set (l := the_line (dl c)) in *. set (gain := λ r, Z.shiftr (sat_sub r (anchor_real l) * rate_q32 l) 32).
  assert (∀ r, value_at l r = Z.min (anchor_v l + gain r) u64_max) as Hv.
  { intros r. unfold value_at. fold (gain r). lia. }
  assert (0 ≤ gain real) as Hg0 by (apply span_nonneg; by split).
  assert (Z.min (next - now) u64_max = next - now) as Hmin by lia. rewrite Hmin in Hw.
  assert (∃ dr, 0 ≤ dr ∧ dr ≤ w ∧ next - now ≤ Z.shiftr (dr * rate_q32 l) 32) as (dr & Hdr0 & Hdrw & Hgain).
  { destruct (Z.leb_spec (next - now) 0); cbn -[Z.shiftl div_ceil] in Hw.
    - injection Hw as Hw. exists 0. rewrite Z.mul_0_l, Z.shiftr_0_l. lia.
    - destruct (Z.eqb_spec (rate_q32 l) 0); [done|]. injection Hw as Hw.
      rewrite Z.sub_0_r in Hw. set (dr := div_ceil _ _) in *. exists dr.
      assert (0 ≤ dr) by (apply div_ceil_spec; [apply Z.shiftl_nonneg; lia|lia]).
      split; [done|]. split; [lia|]. apply span_reaches; [lia|lia|done|]. subst dr. lia. }
  assert (gain real + (next - now) ≤ gain real') as Hgr.
  { etransitivity; [apply Z.add_le_mono_l, Hgain|].
    etransitivity; [apply shiftr_superadd; apply Z.mul_nonneg_nonneg; lia|].
    unfold gain. rewrite !Z.shiftr_div_pow2 by lia. apply Z.div_le_mono; [lia|].
    rewrite <- Z.mul_add_distr_r. apply Z.mul_le_mono_nonneg_r; lia. }
  rewrite !Hv in *. lia.
Qed.

(** A clock at rate 3 since real time 1000, with a timer 500 ns ahead. *)
Definition scaled_clock : clock unit :=
  (register_timer 1000 500 false false 7 (set_rate 1000 (rate_whole 3) (new 37))).2.

Lemma idle_wait_reaches_timer_witness :
  (idle_wait Linux 1000 (paced_now 1000) scaled_clock).1 = Some 1000 ∧ 500 ≤ (peek 2000 scaled_clock).1.
Proof.
  split; [vm_compute; reflexivity|].
  apply (idle_wait_reaches_timer Linux 1000 2000 1000 500 (paced_now 1000) scaled_clock);
    try reflexivity; try (vm_compute; discriminate).
  apply clock_wfb_ok. vm_compute. reflexivity.
Defined.
