(* ===== verification/TimersProps.v ===== *)
(** * What the timer tables promise

    The small-array owner list behaves as a plain list, and a timer table, with its index from a
    wake to its place, behaves as a finite map from the wakes registered to their deadlines; what
    the clock reaches is delivered once, in order. *)

From S2P Require Import Prelude Line Timers TimersWf Clock ClockOps.

(** ** The owners of an entry *)

(** What the clock does with an entry's owners: a registration adds the caller's lineage, a
    release takes out the caller's own, or else any one ([Clock::unregister_timer]). *)
Inductive owner_op := Add (me : Z) | Release (me : Z).

Definition owner_step (os : Owners.timer_owners) (o : owner_op) : Owners.timer_owners :=
  match o with
  | Add me => Owners.push me os
  | Release me =>
      match position (λ o, o =? me) (Owners.iter os) with
      | Some i => Owners.swap_remove_owner i os
      | None => (Owners.pop os).2
      end
  end.

(** The same on a plain list. *)
Definition owner_spec (l : list Z) (o : owner_op) : list Z :=
  match o with
  | Add me => l ++ [me]
  | Release me =>
      match position (λ o, o =? me) l with
      | Some i => swap_remove i l
      | None => take (length l - 1) l
      end
  end.

Lemma owner_step_refines os o : Owners.owners_wf os →
  Owners.owners_wf (owner_step os o) ∧ Owners.iter (owner_step os o) = owner_spec (Owners.iter os) o.
Proof.
  intros Hwf. destruct o as [me|me]; simpl; [by apply Owners.push_spec|].
  destruct (position _ (Owners.iter os)) as [i|] eqn:E.
  - apply position_Some in E as (x & Hi & _). apply Owners.swap_remove_owner_spec; [done|].
    apply lookup_lt_Some in Hi. by rewrite Owners.length_iter in Hi.
  - destruct (Owners.pop_spec os Hwf) as (? & _ & ?). done.
Qed.

(** [TimerOwners], four lineages inline and the rest on the heap, refines a plain list under
    every sequence of registrations and releases: its length, its first element and what it
    iterates over are those of the list. *)
Theorem owners_refine_list (ops : list owner_op) :
  let os := foldl owner_step Owners.default ops in
  let l := foldl owner_spec [] ops in
  Owners.iter os = l ∧ Owners.len os = length l ∧ Owners.first os = head l.
Proof.
  cbn zeta.
  assert (∀ os l, Owners.owners_wf os → Owners.iter os = l →
    Owners.owners_wf (foldl owner_step os ops) ∧
    Owners.iter (foldl owner_step os ops) = foldl owner_spec l ops) as H.
  { induction ops as [|o ops IH]; intros os l Hwf Hl; [done|]. simpl. subst l.
    apply IH; apply owner_step_refines; done. }
  destruct (H Owners.default [] Owners.default_wf eq_refl) as [Hwf Hi].
  unfold Owners.first. rewrite Hi. split; [done|split; [|done]].
  by rewrite <- Hi, Owners.length_iter.
Qed.

(** ** A timer table as a map from wakes to deadlines *)

Section table.
Context {W : Type}.
Implicit Types (t : timers W) (m : gmap Z (Z * option W)).

(** What the clock does with one table. *)
Inductive table_op :=
  | TRegister (at_ id : Z) (owner : option Z) (w : W)
  | TCancel (id : Z)
  | TFire (upto : Z) (hold : bool)
  | TPrune (upto : Z)
  | TAddWait (wake : Z) (event : bool) (me : Z)
  | TDropWait (wake me : Z)
  | TDropEvent (wake : Z).

(** What it returns: the wakers delivered, or the waker cancelled if it was still undelivered. *)
Definition table_step (o : table_op) t : option (list W * timers W) :=
  match o with
  | TRegister at_ id owner w => Some ([], register_wake t at_ id owner w)
  | TCancel id => '(r, t) ← cancel_wake t id;
                  Some (match r with Some (Some w) => [w] | _ => [] end, t)
  | TFire upto hold => let '(_, _, ws, t) := fire_table t true hold 0 upto in Some (ws, t)
  | TPrune upto => let '(_, ws, t) := take_upto t upto in Some (ws, t)
  | TAddWait wake event me => Some ([], add_pending t wake event me)
  | TDropWait wake me => Some ([], default t (drop_wait t wake me))
  | TDropEvent wake => Some ([], drop_event t wake)
  end.

(** The map from an id to its deadline and, until it is delivered, its waker. *)
Definition map_step (o : table_op) m : gmap Z (Z * option W) :=
  match o with
  | TRegister at_ id _ w => <[id := (at_, Some w)]> m
  | TCancel id => delete id m
  | TFire upto hold =>
      omap (λ '(k, w), match w with
                       | Some _ => if k <=? upto then (if hold then Some (k, None) else None)
                                   else Some (k, w)
                       | None => Some (k, w)
                       end) m
  | TPrune upto => omap (λ '(k, w), if sat_add upto 1 <=? k then Some (k, w) else None) m
  | TAddWait _ _ _ | TDropWait _ _ | TDropEvent _ => m
  end.

(** A wake's id is new when it is registered ([wake_id] never repeats). *)
Definition table_ok (o : table_op) m : Prop :=
  match o with TRegister _ id _ _ => m !! id = None | _ => True end.

Definition refines t m : Prop := timers_wf t ∧ ∀ id, lookup_wake t id = m !! id.

(** *** Firing a table *)

(** The wakers of the entries at [ks], in order. *)
Definition wakers_at t (ks : list Z) : list W :=
  ks ≫= λ k, match entries t !! k with Some e => (λ w, w.2) <$> wakers e | None => [] end.

Lemma wakers_at_frame t t' ks : (∀ k, k ∈ ks → entries t' !! k = entries t !! k) →
  wakers_at t' ks = wakers_at t ks.
Proof.
  intros H. unfold wakers_at. induction ks as [|k ks IH]; [done|]. simpl.
  rewrite H by (apply elem_of_cons; by left). f_equal. apply IH. intros j Hj. apply H, elem_of_cons. by right.
Qed.

Lemma fire_fold counted hold from ks n any ws t : timers_wf t → NoDup ks →
  let r := foldl (fire_one counted hold from) (n, any, ws, t) ks in
  timers_wf r.2 ∧ r.1.2 = ws ++ wakers_at t ks ∧
  ∀ id, lookup_wake r.2 id =
    match lookup_wake t id with
    | Some (k, Some v) => if decide (k ∈ ks) then (if hold then Some (k, None) else None)
                          else Some (k, Some v)
    | x => x
    end.
Proof.
  revert n any ws t. induction ks as [|k ks IH]; intros n any ws t Hwf Hnd; cbn zeta.
  - cbn [foldl fst snd]. split; [done|split; [symmetry; apply app_nil_r|]]. intros id.
    destruct (lookup_wake t id) as [[k [v|]]|]; [|done..]. by rewrite decide_False by apply not_elem_of_nil.
  - apply NoDup_cons in Hnd as [Hk Hnd]. cbn [foldl]. unfold fire_one at 2 4 6.
    destruct (entries t !! k) as [e|] eqn:He.
    + destruct (fire_at_spec t k hold e Hwf He) as (t1 & Hf & Hwf1 & Hfr). rewrite Hf.
      pose proof (λ id, fire_at_lookup t k hold e _ t1 id Hwf He Hf) as Hlk.
      destruct (IH (if counted && (from <? k) then Z.min (n + count e) u32_max else n)
        (any || match wakers e with [] => false | _ => true end) (ws ++ ((λ w, w.2) <$> wakers e)) t1 Hwf1 Hnd)
        as (H1 & H2 & H3).
      split; [done|split].
      * rewrite H2, <- app_assoc. f_equal. unfold wakers_at at 2. simpl. rewrite He. f_equal.
        apply wakers_at_frame. intros j Hj. apply Hfr. intros ->. done.
      * intros id. rewrite H3, Hlk. clear Hlk H3.
        destruct (lookup_wake t id) as [[k' [v|]]|]; [|done..].
        destruct (decide (k' = k)) as [->|Hne].
        -- rewrite decide_True by (apply elem_of_cons; by left). by destruct hold.
        -- repeat case_decide; try done; rewrite elem_of_cons in *; tauto.
    + destruct (IH n any ws t Hwf Hnd) as (H1 & H2 & H3). split; [done|split].
      * rewrite H2. f_equal. unfold wakers_at at 2. simpl. by rewrite He.
      * intros id. rewrite H3. destruct (lookup_wake t id) as [[k' [v|]]|] eqn:E; [|done..].
        apply lookup_wake_spec in E as (e & E & _); [|done].
        assert (k' ≠ k) by congruence. repeat case_decide; try done; rewrite elem_of_cons in *; tauto.
Qed.

(** Firing delivers the wakers due by [upto], in order, and nothing else of the table's wakes
    changes. *)
Lemma fire_table_spec t counted hold from upto : timers_wf t →
  let r := fire_table t counted hold from upto in
  timers_wf r.2 ∧ r.1.2 = wakers_at t (keys_upto (entries t) upto) ∧
  ∀ id, lookup_wake r.2 id =
    match lookup_wake t id with
    | Some (k, Some v) => if k <=? upto then (if hold then Some (k, None) else None)
                          else Some (k, Some v)
    | x => x
    end.
Proof.
  intros Hwf. cbn zeta.
  assert (NoDup (keys_upto (entries t) upto)) as Hnd.
  { unfold keys_upto. generalize (keys_NoDup (entries t)). generalize (keys (entries t)). intros l.
    induction 1 as [|k l Hk Hl IH]; simpl; [constructor|]. destruct (k <=? upto); [|done].
    constructor; [|done]. rewrite elem_of_retain. tauto. }
  destruct (fire_fold counted hold from _ 0 false [] t Hwf Hnd) as (H1 & H2 & H3).
  split; [exact H1|split; [exact H2|]]. intros id. etransitivity; [exact (H3 id)|].
  destruct (lookup_wake t id) as [[k [v|]]|] eqn:E; [|done..].
  apply lookup_wake_spec in E as (e & E & _); [|done].
  destruct (Z.leb_spec k upto); [rewrite decide_True|rewrite decide_False]; try done;
    rewrite elem_of_keys_upto; [by eauto|]. intros [_ ?]. lia.
Qed.

(** *** Waits and events do not touch the wakes *)

Lemma same_wakes t t' : timers_wf t → timers_wf t' →
  (∀ k id w, has_wake (entries t') k id w ↔ has_wake (entries t) k id w) →
  ∀ id, lookup_wake t' id = lookup_wake t id.
Proof.
  intros Hwf Hwf' H id. apply option_eq. intros [k w]. by rewrite !lookup_wake_spec, H.
Qed.

Lemma default_wakes t k id w :
  has_wake (entries t) k id w ↔ (id, w) ∈ wakes (entry_or_default (entries t) k).
Proof.
  unfold has_wake, entry_or_default. destruct (entries t !! k) as [e|]; simpl.
  - split; [by intros (? & [= <-] & ?)|eauto].
  - split; [by intros (? & ? & _)|intros []%elem_of_nil].
Qed.

Lemma add_pending_lookup t wake event me id : timers_wf t →
  lookup_wake (add_pending t wake event me) id = lookup_wake t id.
Proof.
  intros Hwf. apply same_wakes; [done|by apply add_pending_wf|]. intros k id' w. unfold add_pending.
  simpl. rewrite has_wake_insert. case_decide; [|done]. subst k. rewrite default_wakes. by destruct event.
Qed.

Lemma drop_wait_lookup t wake me id : timers_wf t →
  timers_wf (default t (drop_wait t wake me)) ∧
  lookup_wake (default t (drop_wait t wake me)) id = lookup_wake t id.
Proof.
  intros Hwf. destruct (drop_wait t wake me) as [t'|] eqn:E; [|done]. simpl.
  pose proof (drop_wait_wf _ _ _ _ Hwf E) as Hwf'. split; [done|]. apply same_wakes; [done..|].
  intros k id' w. unfold drop_wait in E. destruct (entries t !! wake) as [e|] eqn:He; [|done]. simpl in E.
  destruct (0 <? waits e); [|done]. injection E as <-. simpl. rewrite has_wake_put.
  case_decide; [|done]. subst k. rewrite default_wakes. unfold entry_or_default. by rewrite He.
Qed.

Lemma drop_event_lookup t wake id : timers_wf t → lookup_wake (drop_event t wake) id = lookup_wake t id.
Proof.
  intros Hwf. apply same_wakes; [done|by apply drop_event_wf|]. intros k id' w. unfold drop_event.
  destruct (entries t !! wake) as [e|] eqn:He; [|done]. destruct (0 <? events e); [|done]. simpl.
  rewrite has_wake_put. case_decide; [|done]. subst k. rewrite default_wakes. unfold entry_or_default. by rewrite He.
Qed.

Lemma table_step_refines o t m : refines t m → table_ok o m →
  ∃ ws t', table_step o t = Some (ws, t') ∧ refines t' (map_step o m).
Proof.
  intros [Hwf Hm] Hok. destruct o; cbn [table_step map_step table_ok] in *.
  - assert (wake_deadlines t !! id = None) as Hid.
    { apply lookup_wake_None; [done|]. by rewrite Hm. }
    eexists _, _. split; [done|split; [by apply register_wake_wf|]]. intros id'.
    rewrite register_wake_lookup by done. case_decide; subst.
    + by rewrite lookup_insert_eq.
    + by rewrite lookup_insert_ne.
  - destruct (cancel_wake_spec t id Hwf) as (t' & -> & Hwf' & Hl). simpl.
    eexists _, _. split; [done|split; [done|]]. intros id'. rewrite Hl.
    case_decide; subst; [by rewrite lookup_delete_eq|by rewrite lookup_delete_ne].
  - destruct (fire_table_spec t true hold 0 upto Hwf) as (H1 & _ & H3).
    destruct (fire_table t true hold 0 upto) as [[[n any] ws] t']. simpl in *.
    eexists _, _. split; [done|split; [done|]]. intros id. rewrite H3, Hm, lookup_omap.
    destruct (m !! id) as [[k [v|]]|]; done.
  - pose proof (take_upto_wf t upto Hwf) as H1. pose proof (λ id, take_upto_lookup t upto id Hwf) as H2.
    destruct (take_upto t upto) as [[any ws] t']. simpl in *.
    eexists _, _. split; [done|split; [done|]]. intros id. rewrite H2, Hm, lookup_omap.
    destruct (m !! id) as [[k w]|]; [|done]. simpl.
    destruct (Z.leb_spec (sat_add upto 1) k); case_decide; done || lia.
  - eexists _, _. split; [done|split; [by apply add_pending_wf|]]. intros id.
    by rewrite add_pending_lookup.
  - eexists _, _. split; [done|]. split; [by apply (drop_wait_lookup t wake me 0)|]. intros id.
    by rewrite (proj2 (drop_wait_lookup t wake me id Hwf)).
  - eexists _, _. split; [done|split; [by apply drop_event_wf|]]. intros id. by rewrite drop_event_lookup.
Qed.

(** A table's run, and the map's. *)
Fixpoint table_run (ops : list table_op) t : option (timers W) :=
  match ops with
  | [] => Some t
  | o :: ops => '(_, t) ← table_step o t; table_run ops t
  end.

Fixpoint table_ops_ok (ops : list table_op) m : Prop :=
  match ops with
  | [] => True
  | o :: ops => table_ok o m ∧ table_ops_ok ops (map_step o m)
  end.

End table.

Arguments table_op : clear implicits.

(** C28: a timer table refines a finite map from wake ids to deadlines and undelivered wakers.
    Over any sequence of registrations (under fresh ids), cancellations, firings, prunings, waits
    and events, none of the table's [unwrap]s and indexing fails, and what it holds of each wake is
    what the map says: the swap-removals and the moves from pending to delivered never lose,
    duplicate or confuse a wake. *)
Theorem timers_refine_map {W} (ops : list (table_op W)) :
  table_ops_ok ops ∅ →
  ∃ t, table_run ops timers_default = Some t ∧
    ∀ id, lookup_wake t id = foldl (λ m o, map_step o m) ∅ ops !! id.
Proof.
  assert (∀ (t : timers W) m, refines t m → table_ops_ok ops m →
    ∃ t', table_run ops t = Some t' ∧ refines t' (foldl (λ m o, map_step o m) m ops)) as H.
  { induction ops as [|o ops IH]; intros t m Hr Hok; [by exists t|]. destruct Hok as [Ho Hops].
    destruct (table_step_refines o t m Hr Ho) as (ws & t1 & Hs & Hr1). simpl. rewrite Hs. simpl.
    by apply IH. }
  intros Hok. destruct (H timers_default ∅) as (t & Ht & _ & Hl).
  - split; [apply timers_default_wf|]. done.
  - done.
  - by exists t.
Qed.

Lemma timers_refine_map_witness :
  ∃ t, table_run [TRegister 10 1 None true; TRegister 10 2 None true; TRegister 10 3 None false;
         TRegister 20 4 None true; TCancel 1; TFire 10 true; TCancel 3; TAddWait 30 false 9] timers_default = Some t ∧
    ∀ id, lookup_wake t id = foldl (λ m o, map_step o m) ∅
       [TRegister 10 1 None true; TRegister 10 2 None true; TRegister 10 3 None false;
         TRegister 20 4 None true; TCancel 1; TFire 10 true; TCancel 3; TAddWait 30 false 9] !! id.
Proof. apply (timers_refine_map (W := bool)). repeat split; reflexivity. Defined.

(** [Clock::fire_upto] delivers each waker due exactly once and in order. It returns the
    undelivered wakers of the deadlines up to [t], the participants' in time order and then the
    other threads', each entry's in registration order; afterwards no undelivered waker is left at
    or before [t], those later are untouched, and in a deterministic sim nothing is held for a
    delivered wake. *)
Theorem fire_upto_delivers {W} (from t : Z) (c : clock W) :
  timers_wf (pending (tb c)) → timers_wf (foreign (tb c)) →
  let '((_, ws), c') := fire_upto from t c in
  ws = wakers_at (pending (tb c)) (keys_upto (entries (pending (tb c))) t) ++
       wakers_at (foreign (tb c)) (keys_upto (entries (foreign (tb c))) t) ∧
  (∀ fgn id k w, lookup_wake (timers_of fgn c') id = Some (k, Some w) ↔
     t < k ∧ lookup_wake (timers_of fgn c) id = Some (k, Some w)) ∧
  (is_deterministic c = true → ∀ fgn id k, lookup_wake (timers_of fgn c') id = Some (k, None) ↔
     lookup_wake (timers_of fgn c) id = Some (k, None)) ∧
  (ws ≠ [] → woke_timers (tb c') = true).
Proof.
  intros Hp Hf. unfold fire_upto.
  destruct (fire_table_spec (pending (tb c)) true (negb (is_deterministic c)) from t Hp) as (_ & H2 & H3).
  destruct (fire_table_spec (foreign (tb c)) false false from t Hf) as (_ & H5 & H6).
  destruct (fire_table (pending (tb c)) _ _ _ _) as [[[n any] ws] p].
  destruct (fire_table (foreign (tb c)) _ _ _ _) as [[[n' any'] ws'] f]. cbn [fst snd] in *.
  set (x := set_foreign f _).
  set (x' := match ws ++ ws' with [] => _ | _ => _ end).
  assert (pending x' = p ∧ foreign x' = f) as [Ep Ef].
  { subst x' x. by destruct (ws ++ ws'), (negb (is_deterministic c) && any). }
  assert (∀ (fgn : bool) (id : Z), lookup_wake (if fgn then foreign x' else pending x') id =
    match lookup_wake (timers_of fgn c) id with
    | Some (k, Some v) => if k <=? t then (if negb fgn && negb (is_deterministic c) then Some (k, None) else None)
                          else Some (k, Some v)
    | x => x
    end) as Hl.
  { intros [] id; rewrite ?Ep, ?Ef; [apply H6|apply H3]. }
  split; [congruence|]. unfold timers_of at 1 3. cbn [tb with_tables]. split; [|split].
  - intros fgn id k w. rewrite Hl. destruct (lookup_wake (timers_of fgn c) id) as [[k' [v|]]|];
      [|split; [done|by intros [_ ?]]..].
    destruct (Z.leb_spec k' t); [|split; [intros [= <- <-]; auto|by intros [_ ?]]].
    destruct (negb fgn && _); (split; [done|]); intros [? [= <- <-]]; lia.
  - intros Hdet fgn id k. rewrite Hl, Hdet, andb_false_r.
    destruct (lookup_wake (timers_of fgn c) id) as [[k' [v|]]|]; [|done..].
    split; [destruct (k' <=? t)|]; done.
  - intros Hne. subst x'. by destruct (ws ++ ws').
Qed.

(** Two wakers tied on one deadline, one later, and one of another thread. *)
Definition waking_clock : clock nat :=
  (register_waker 9 4 None 40%nat true
    (register_waker 50 3 None 30%nat false
      (register_waker 10 2 None 20%nat false
        (register_waker 10 1 None 10%nat false (new 37)).2).2).2).2.

Lemma fire_upto_delivers_witness :
  (fire_upto 0 10 waking_clock).1.2 = [10; 20; 40]%nat ∧
  (fire_upto 0 10 waking_clock).1.2 =
    wakers_at (pending (tb waking_clock)) (keys_upto (entries (pending (tb waking_clock))) 10) ++
    wakers_at (foreign (tb waking_clock)) (keys_upto (entries (foreign (tb waking_clock))) 10).
Proof.
  split; [vm_compute; reflexivity|].
  assert (timers_wf (pending (tb waking_clock))) as Hp.
  { cbn. repeat (apply register_wake_wf; [|vm_compute; reflexivity]). apply timers_default_wf. }
  assert (timers_wf (foreign (tb waking_clock))) as Hf.
  { cbn. repeat (apply register_wake_wf; [|vm_compute; reflexivity]). apply timers_default_wf. }
  pose proof (fire_upto_delivers 0 10 waking_clock Hp Hf) as H.
  destruct (fire_upto 0 10 waking_clock) as [[n ws] c']. exact (proj1 H).
Defined.
