(* ===== verification/FsLocks.v ===== *)
(** * Advisory file locks

    Models crates/snare/src/fs_locks.rs: the [fcntl] record locks and [flock] locks of one inode.
    A lock call that must wait returns [Blocks] with the attempt it then retries ([retry]) whenever the
    readiness machinery wakes it. [wakes] tells whether the call woke every waiter
    to retry. *)

From S2P Require Import Prelude.

Definition TO_END : Z := u64_max.

(** [Owner] *)
Inductive owner := Process | Description (d : Z) | Flock (d : Z).

#[export] Instance owner_eq_dec : EqDecision owner.
Proof. solve_decision. Defined.

(** [Range]: bytes [[start, end)]. *)
Record range := mk_range { r_start : Z; r_end : Z; r_write : bool; r_owner : owner }.

(** [Range::overlaps] *)
Definition overlaps (r : range) (start end_ : Z) : bool := (r_start r <? end_) && (start <? r_end r).

(** [Table] *)
Record table := mk_table { records : list range; flocks : list (Z * bool) }.

Definition table_default : table := mk_table [] [].

Definition owned_by (o : owner) (r : range) : bool := bool_decide (r_owner r = o).

(** [Table::conflict] *)
Definition conflict (l : list range) (o : owner) (start end_ : Z) (write : bool) : option range :=
  find_first (λ r, negb (owned_by o r) && (write || r_write r) && overlaps r start end_) l.

(** [sort_by_key(|r| r.start)], a stable sort. *)
Fixpoint insert_by_start (r : range) (l : list range) : list range :=
  match l with
  | [] => [r]
  | x :: l' => if r_start r <? r_start x then r :: l else x :: insert_by_start r l'
  end.
Definition sort_by_start (l : list range) : list range := foldl (λ l r, insert_by_start r l) [] l.

(** One lock's turn in the loop of [Table::set]: what is left of it, and whether that lets others
    in. *)
Definition trim (start end_ : Z) (r : range) : list range :=
  if negb (overlaps r start end_) then [r]
  else (if r_start r <? start then [mk_range (r_start r) start (r_write r) (r_owner r)] else []) ++
       (if end_ <? r_end r then [mk_range end_ (r_end r) (r_write r) (r_owner r)] else []).

Definition lets_go (start end_ : Z) (write : option bool) (r : range) : bool :=
  overlaps r start end_ && (negb (bool_decide (write = Some true)) || r_write r).

Definition joins (start end_ : Z) (write : bool) (r : range) : bool :=
  eqb (r_write r) write && (r_start r <=? end_) && (start <=? r_end r).

(** The locks of [owner] after the new one replaced what it overlaps: merged and in order. *)
Definition place (o : owner) (start end_ : Z) (write : option bool) (mine : list range) : list range :=
  let kept := mine ≫= trim start end_ in
  let kept := match write with
              | None => kept
              | Some w =>
                  let joined := retain (joins start end_ w) kept in
                  let low := foldl (λ low r, Z.min low (r_start r)) start joined in
                  let high := foldl (λ high r, Z.max high (r_end r)) end_ joined in
                  retain (λ r, negb (joins start end_ w r)) kept ++ [mk_range low high w o]
              end in
  sort_by_start kept.

(** [Table::set] *)
Definition set (l : list range) (o : owner) (start end_ : Z) (write : option bool)
    : bool * list range :=
  let at_ := position (owned_by o) l in
  let mine := retain (owned_by o) l in
  let others := retain (λ r, negb (owned_by o r)) l in
  let released := existsb (lets_go start end_ write) mine in
  let i := default (length others) at_ in
  (released, take i others ++ place o start end_ write mine ++ drop i others).

(** [Table::flock_conflict] *)
Definition flock_conflict (l : list (Z * bool)) (description : Z) (exclusive : bool) : bool :=
  existsb (λ '(holder, held), negb (holder =? description) && (exclusive || held)) l.

(** ** [fcntl] *)

(** The fields of the caller's [struct flock] and of the descriptor it names. *)
Inductive whence := SeekSet | SeekCur | SeekEnd | SeekOther.
Inductive lock_type := RdLck | WrLck | UnLck | OtherLck.

Record flock_arg := mk_flock {
  l_type : lock_type;
  l_whence : whence;
  l_start : Z;
  l_len : Z;
  l_pid : Z;
}.

(** [Target] *)
Record target := mk_target {
  readable : bool;
  writable : bool;
  cursor : Z;
  file_len : Z;
  description : Z;
}.

(** [Request] *)
Inductive request := Get | Set_ | Wait (timed : bool).

(** The [fcntl] commands [classify] knows. *)
Inductive command :=
  | F_GETLK | F_SETLK | F_SETLKW | F_OFD_GETLK | F_OFD_SETLK | F_OFD_SETLKW
  | F_SETLKWTIMEOUT | F_OFD_SETLKWTIMEOUT | OtherCommand.

Definition classify (os : target_os) (cmd : command) : option (request * bool) :=
  match cmd with
  | F_GETLK => Some (Get, false)
  | F_SETLK => Some (Set_, false)
  | F_SETLKW => Some (Wait false, false)
  | F_OFD_GETLK => Some (Get, true)
  | F_OFD_SETLK => Some (Set_, true)
  | F_OFD_SETLKW => Some (Wait false, true)
  | F_SETLKWTIMEOUT => if is_macos os then Some (Wait true, false) else None
  | F_OFD_SETLKWTIMEOUT => if is_macos os then Some (Wait true, true) else None
  | OtherCommand => None
  end.

(** [span] *)
Definition span (fl : flock_arg) (t : target) : errno + (Z * Z) :=
  match (match l_whence fl with
         | SeekSet => Some 0
         | SeekCur => Some (wrap_i64 (cursor t))
         | SeekEnd => Some (wrap_i64 (file_len t))
         | SeekOther => None
         end) with
  | None => inl EINVAL
  | Some base =>
      match checked_add_i64 base (l_start fl) with
      | None => inl EOVERFLOW
      | Some start =>
          match (if l_len fl =? 0 then inr (start, None)
                 else if 0 <? l_len fl then
                   match checked_add_i64 start (l_len fl) with
                   | Some end_ => inr (start, Some end_)
                   | None => inl EOVERFLOW
                   end
                 else match checked_add_i64 start (l_len fl) with
                      | Some start' => inr (start', Some start)
                      | None => inl EINVAL
                      end) with
          | inl e => inl e
          | inr (start, end_) =>
              if start <? 0 then inl EINVAL else inr (start, default TO_END end_)
          end
      end
  end.

(** What a lock call comes to: an error, success (with the caller's [struct flock] rewritten by
    [F_GETLK]), or a wait. *)
(** What a call that has begun has still to do, under the lock of the table again: the attempt of a record lock, the attempt of a [flock], or, on macOS, to drop
    the [flock] held before it waits for an exclusive one *)
Inductive waiting :=
  | ForRecord (o : owner) (start end_ : Z) (kind : option bool)
  | ForFlock (d : Z) (exclusive : bool)
  | DropFirst (d : Z).
Inductive outcome := Fails (e : errno) | Succeeds (reply : option flock_arg) | Blocks (w : waiting).

Record result := mk_result { what : outcome; wakes : bool; after : table }.

Definition lock_kind (t : lock_type) : option (option bool) :=
  match t with
  | RdLck => Some (Some false)
  | WrLck => Some (Some true)
  | UnLck => Some None
  | OtherLck => None
  end.

(** What [F_GETLK] writes of a lock that conflicts. *)
Definition report (pid : Z) (fl : flock_arg) (held : option range) : flock_arg :=
  match held with
  | Some r =>
      mk_flock (if r_write r then WrLck else RdLck) SeekSet (r_start r)
        (if r_end r =? TO_END then 0 else r_end r - r_start r)
        (match r_owner r with Process => pid | Description _ | Flock _ => -1 end)
  | None => mk_flock UnLck (l_whence fl) (l_start fl) (l_len fl) (l_pid fl)
  end.

(** [attempt] of [Locks::fcntl] *)
Definition attempt (l : list range) (o : owner) (start end_ : Z) (kind : option bool)
    : option (bool * list range) :=
  match kind with
  | Some write => match conflict l o start end_ write with
                  | Some _ => None
                  | None => Some (set l o start end_ kind)
                  end
  | None => Some (set l o start end_ kind)
  end.

(** The call that makes the attempt: done, or as [otherwise] says when it conflicts *)
Definition attempted (o : owner) (start end_ : Z) (kind : option bool) (otherwise : outcome) (tab : table) : result :=
  match attempt (records tab) o start end_ kind with
  | Some (released, l) => mk_result (Succeeds None) released (mk_table l (flocks tab))
  | None => mk_result otherwise false tab
  end.

(** [Locks::fcntl], with [arg] the caller's [struct flock] ([None] for a null pointer) and [pid]
    the process's id: [None] for a command that is not a record lock's. *)
Definition fcntl (os : target_os) (pid : Z) (cmd : command) (arg : option flock_arg) (t : target)
    (tab : table) : option result :=
  '(req, ofd) ← classify os cmd;
  Some (
    match arg with
    | None => mk_result (Fails EFAULT) false tab
    | Some fl =>
        if is_linux os && ofd && negb (l_pid fl =? 0) then mk_result (Fails EINVAL) false tab
        else match span fl t with
        | inl e => mk_result (Fails e) false tab
        | inr (start, end_) =>
            let o := if ofd then Description (description t) else Process in
            match lock_kind (l_type fl) with
            | None => mk_result (Fails EINVAL) false tab
            | Some kind =>
                match req with
                | Get =>
                    match (match kind with
                           | Some w => Some w
                           | None => if is_macos os then Some true else None
                           end) with
                    | None => mk_result (Fails EINVAL) false tab
                    | Some write =>
                        mk_result
                          (Succeeds (Some (report pid fl (conflict (records tab) o start end_ write))))
                          false tab
                    end
                | _ =>
                    if (bool_decide (kind = Some false) && negb (readable t)) ||
                       (bool_decide (kind = Some true) && negb (writable t))
                    then mk_result (Fails EBADF) false tab
                    else attempted o start end_ kind
                           (match req with Wait _ => Blocks (ForRecord o start end_ kind) | _ => Fails EAGAIN end) tab
                end
            end
        end
    end).

(** How a blocked [fcntl] that got no lock ends: its deadline passed, or the wait ended otherwise
    ([interrupted] by a signal, or the sim deadlocked). *)
Definition gave_up (deadline interrupted : bool) : errno :=
  if negb interrupted && deadline then ETIMEDOUT else EINTR.

(** [timeout]: when a timed wait gives up, in nanoseconds from now; [None] for never. *)
Definition timeout (tv_sec tv_nsec : Z) : option Z :=
  let nanos := tv_sec * 1000000000 + tv_nsec in
  if 0 <? nanos then Some (Z.min nanos u64_max) else None.

(** ** [flock] *)

Definition LOCK_SH : Z := 1.
Definition LOCK_EX : Z := 2.
Definition LOCK_NB : Z := 4.
Definition LOCK_UN : Z := 8.

(** [operation_kind]: [None] to unlock. *)
Definition operation_kind (os : target_os) (operation : Z) : option (errno + bool) :=
  if is_macos os then
    if negb (Z.land operation LOCK_UN =? 0) then None
    else if negb (Z.land operation LOCK_EX =? 0) then Some (inr true)
    else if negb (Z.land operation LOCK_SH =? 0) then Some (inr false)
    else Some (inl EBADF)
  else
    let op := Z.land operation (Z.lnot LOCK_NB) in
    if op =? LOCK_SH then Some (inr false)
    else if op =? LOCK_EX then Some (inr true)
    else if op =? LOCK_UN then None
    else Some (inl EINVAL).

(** [Locks::drop_flock] *)
Definition drop_flock (d : Z) (tab : table) : bool * table :=
  let before := (length (flocks tab) + length (records tab))%nat in
  let f := retain (λ h : Z * bool, negb (h.1 =? d)) (flocks tab) in
  let r := retain (λ r, negb (owned_by (Flock d) r)) (records tab) in
  (negb (length f + length r =? before)%nat, mk_table r f).

(** [attempt] of [Locks::flock] *)
Definition flock_attempt (d : Z) (exclusive : bool) (tab : table) : option table :=
  if flock_conflict (flocks tab) d exclusive then None
  else Some (mk_table (records tab) (flocks tab ++ [(d, exclusive)])).

(** The wait of [Locks::flock_record] on macOS, for an exclusive lock after the one held is dropped *)
Definition flock_sleep (d : Z) (exclusive : bool) (tab : table) : result :=
  attempted (Flock d) 0 TO_END (Some exclusive) (Blocks (ForRecord (Flock d) 0 TO_END (Some exclusive))) tab.
Definition drop_and_sleep (d : Z) (tab : table) : result :=
  let '(dropped, tab) := drop_flock d tab in
  let r := flock_sleep d true tab in mk_result (what r) (dropped || wakes r) (after r).
(** [Locks::flock_record] *)
Definition flock_record (d : Z) (exclusive nonblocking : bool) (tab : table) : result :=
  match attempt (records tab) (Flock d) 0 TO_END (Some exclusive) with
  | Some (released, l) => mk_result (Succeeds None) released (mk_table l (flocks tab))
  | None =>
      if nonblocking then mk_result (Fails EWOULDBLOCK) false tab
      else if exclusive then drop_and_sleep d tab
      else flock_sleep d false tab
  end.

(** The first half of [Locks::flock] on Linux: [None] when the lock is held as asked, else whether one held otherwise was dropped *)
Definition flock_convert (d : Z) (exclusive : bool) (tab : table) : option (bool * table) :=
  match position (λ h : Z * bool, h.1 =? d) (flocks tab) with
  | Some i =>
      if bool_decide (snd <$> flocks tab !! i = Some exclusive) then None
      else Some (true, mk_table (records tab) (take i (flocks tab) ++ drop (S i) (flocks tab)))
  | None => Some (false, tab)
  end.
(** [Locks::flock] *)
Definition flock (os : target_os) (d operation : Z) (tab : table) : result :=
  let nonblocking := negb (Z.land operation LOCK_NB =? 0) in
  match operation_kind os operation with
  | None => let '(dropped, tab) := drop_flock d tab in mk_result (Succeeds None) dropped tab
  | Some (inl e) => mk_result (Fails e) false tab
  | Some (inr exclusive) =>
      if is_macos os then flock_record d exclusive nonblocking tab
      else
        match flock_convert d exclusive tab with
        | None => mk_result (Succeeds None) false tab
        | Some (converted, tab) =>
            match flock_attempt d exclusive tab with
            | Some tab => mk_result (Succeeds None) converted tab
            | None => mk_result (if nonblocking then Fails EWOULDBLOCK else Blocks (ForFlock d exclusive)) converted tab
            end
        end
  end.

(** What a call woken to retry does. *)
Definition retry (w : waiting) (tab : table) : result :=
  match w with
  | ForRecord o start end_ kind => attempted o start end_ kind (Blocks w) tab
  | ForFlock d exclusive =>
      match flock_attempt d exclusive tab with
      | Some tab => mk_result (Succeeds None) false tab
      | None => mk_result (Blocks w) false tab
      end
  | DropFirst d => drop_and_sleep d tab
  end.

(** A [flock] call up to where it lets go of the table's lock for the first time, when another thread may come before it goes on: on Linux between the conversion and
    the attempt, on macOS, for a call that is to wait, between the first attempt and the drop *)
Definition flock_begin (os : target_os) (d : Z) (exclusive : bool) (tab : table) : result :=
  if is_macos os then
    attempted (Flock d) 0 TO_END (Some exclusive) (Blocks (if exclusive then DropFirst d else ForRecord (Flock d) 0 TO_END (Some exclusive))) tab
  else
    match flock_convert d exclusive tab with
    | None => mk_result (Succeeds None) false tab
    | Some (converted, tab) => mk_result (Blocks (ForFlock d exclusive)) converted tab
    end.

(** ** Closing descriptors *)

(** [Locks::release_process] *)
Definition release_process (tab : table) : bool * table :=
  let r := retain (λ r, negb (owned_by Process r)) (records tab) in
  (negb (length r =? length (records tab))%nat, mk_table r (flocks tab)).

(** [Locks::release_description] *)
Definition release_description (d : Z) (tab : table) : bool * table :=
  let r := retain (λ r, negb (owned_by (Description d) r)) (records tab) in
  let records' := negb (length r =? length (records tab))%nat in
  let '(dropped, tab) := drop_flock d (mk_table r (flocks tab)) in
  (dropped || records', tab).
