(* ===== verification/FsLocksWf.v ===== *)
(** * The record locks' invariant

    Each owner's locks are nonempty ranges in order of start that neither overlap nor could be
    merged; [Table::set] keeps them so and changes what the owner holds on exactly the bytes it
    names. *)

From S2P Require Import Prelude FsLocks.

(** [a] ends before [b] starts, and touches it only if they are of different types. *)
Definition gap (a b : range) : Prop :=
  r_end a < r_start b ∨ (r_end a = r_start b ∧ r_write a ≠ r_write b).
Definition before (a b : range) : Prop := r_owner a = r_owner b → gap a b.
Definition apart (a b : range) : Prop := r_owner a = r_owner b → gap a b ∨ gap b a.

Definition nonempty (r : range) : Prop := r_start r < r_end r.

Record records_wf (l : list range) : Prop := {
  wf_nonempty : Forall nonempty l;
  wf_before : StronglySorted before l;
}.

Definition covers (r : range) (b : Z) : Prop := r_start r ≤ b < r_end r.

(** [o] holds a lock of type [w] on byte [b]. *)
Definition holds (l : list range) (o : owner) (b : Z) (w : bool) : Prop :=
  ∃ r, r ∈ l ∧ r_owner r = o ∧ covers r b ∧ r_write r = w.

(** ** Pairwise relations *)

Lemma apart_sym a b : apart a b → apart b a.
Proof. unfold apart. intros H E. symmetry in E. destruct (H E); auto. Qed.

Lemma before_apart a b : before a b → apart a b.
Proof. intros H E. left. auto. Qed.

Lemma sorted_weaken {A} (R S : A → A → Prop) l :
  (∀ a b, R a b → S a b) → StronglySorted R l → StronglySorted S l.
Proof.
  intros H. induction 1 as [|x l Hl IH Hx]; constructor; [done|].
  eapply Forall_impl; [done|]. auto.
Qed.

Lemma sorted_app {A} (R : A → A → Prop) l k :
  StronglySorted R (l ++ k) ↔
  StronglySorted R l ∧ StronglySorted R k ∧ ∀ x y, x ∈ l → y ∈ k → R x y.
Proof.
  induction l as [|z l IH]; simpl.
  - split; [intros H; split_and!; [constructor|done|by intros ? ? ?%elem_of_nil]|tauto].
  - split.
    + intros H. inversion H as [|? ? Hs Hz]; subst. apply IH in Hs as (H1 & H2 & H3).
      apply Forall_app in Hz as [Hz1 Hz2]. split_and!; [by constructor|done|].
      intros x y [->|Hx]%elem_of_cons Hy; [|auto]. by eapply Forall_forall in Hz2.
    + intros (H1 & H2 & H3). inversion H1 as [|? ? Hs Hz]; subst. constructor.
      * apply IH. split_and!; [done..|]. intros x y Hx Hy. apply H3; [|done]. apply elem_of_cons. by right.
      * apply Forall_app. split; [done|]. apply Forall_forall. intros y Hy. apply H3; [|done].
        apply elem_of_cons. by left.
Qed.

Lemma sorted_perm {A} (R : A → A → Prop) l k : (∀ a b, R a b → R b a) →
  l ≡ₚ k → StronglySorted R l → StronglySorted R k.
Proof.
  intros Hsym. induction 1 as [|x l k Hp IH|x y l|l k j _ IH1 _ IH2]; intros H.
  - done.
  - inversion H as [|? ? Hs Hx]; subst. constructor; [auto|]. by rewrite <- Hp.
  - inversion H as [|? ? Hs Hy]; subst. inversion Hs as [|? ? Hs' Hx]; subst.
    inversion Hy as [|? ? Hxy Hy']; subst. repeat constructor; auto.
  - auto.
Qed.

Lemma sorted_retain {A} (R : A → A → Prop) (p : A → bool) l :
  StronglySorted R l → StronglySorted R (retain p l).
Proof.
  induction 1 as [|x l Hl IH Hx]; simpl; [constructor|]. destruct (p x); [|done].
  constructor; [done|]. apply Forall_forall. intros y [Hy _]%elem_of_retain.
  by eapply Forall_forall in Hx.
Qed.

Lemma Forall_retain {A} (P : A → Prop) (p : A → bool) l : Forall P l → Forall P (retain p l).
Proof.
  rewrite !Forall_forall. intros H x [Hx _]%elem_of_retain. auto.
Qed.

Lemma retain_wf (p : range → bool) l : records_wf l → records_wf (retain p l).
Proof. intros []. split; [by apply Forall_retain|by apply sorted_retain]. Qed.

(** ** One lock per byte and owner *)

Lemma apart_unique a b x : apart a b → nonempty a → nonempty b → r_owner a = r_owner b →
  covers a x → covers b x → False.
Proof. unfold apart, gap, nonempty, covers. intros H ? ? E. destruct (H E); lia. Qed.

Lemma unique_cover l r r' b : StronglySorted apart l → Forall nonempty l →
  r ∈ l → r' ∈ l → r_owner r = r_owner r' → covers r b → covers r' b → r = r'.
Proof.
  intros Hs Hn. induction Hs as [|x l Hs IH Hx]; [by intros ?%elem_of_nil|].
  inversion Hn as [|? ? Hx0 Hn']; subst. rewrite Forall_forall in Hx, Hn'.
  intros [->|Hr]%elem_of_cons [->|Hr']%elem_of_cons Ho Hc Hc'; [done| | |].
  - exfalso. by apply (apart_unique x r' b (Hx _ Hr') Hx0 (Hn' _ Hr')).
  - exfalso. by apply (apart_unique x r b (Hx _ Hr) Hx0 (Hn' _ Hr)).
  - apply IH; try done. by apply Forall_forall.
Qed.

Lemma wf_apart l : records_wf l → StronglySorted apart l.
Proof. intros []. eapply sorted_weaken; [apply before_apart|done]. Qed.

Lemma holds_functional l o b w w' : records_wf l → holds l o b w → holds l o b w' → w = w'.
Proof.
  intros Hwf (r & Hr & Ho & Hc & <-) (r' & Hr' & Ho' & Hc' & <-). f_equal.
  apply (unique_cover l r r' b); try done; [by apply wf_apart|by apply wf_nonempty|congruence].
Qed.

(** ** Sorting by start *)

Lemma insert_by_start_perm r l : insert_by_start r l ≡ₚ r :: l.
Proof.
  induction l as [|x l IH]; simpl; [done|]. destruct (_ <? _); [done|]. rewrite IH. by constructor.
Qed.

Lemma sort_by_start_perm l : sort_by_start l ≡ₚ l.
Proof.
  unfold sort_by_start. enough (∀ k, foldl (λ l r, insert_by_start r l) k l ≡ₚ k ++ l) as H by by apply H.
  induction l as [|x l IH]; intros k; simpl; [by rewrite app_nil_r|].
  rewrite IH, insert_by_start_perm. simpl. by rewrite Permutation_middle.
Qed.

Definition starts_before (a b : range) : Prop := r_start a ≤ r_start b.

Lemma insert_by_start_sorted r l :
  StronglySorted starts_before l → StronglySorted starts_before (insert_by_start r l).
Proof.
  unfold starts_before. induction 1 as [|x l Hl IH Hx]; simpl; [by repeat constructor|].
  destruct (Z.ltb_spec (r_start r) (r_start x)).
  - constructor; [by constructor|]. constructor; [lia|]. eapply Forall_impl; [done|]. simpl. lia.
  - constructor; [done|]. rewrite insert_by_start_perm. by constructor.
Qed.

Lemma sort_by_start_sorted l : StronglySorted starts_before (sort_by_start l).
Proof.
  unfold sort_by_start. enough (∀ k, StronglySorted starts_before k →
    StronglySorted starts_before (foldl (λ l r, insert_by_start r l) k l)) as H by (apply H; constructor).
  induction l as [|x l IH]; intros k Hk; simpl; [done|]. by apply IH, insert_by_start_sorted.
Qed.

(** Sorting ranges that are apart puts them in order. *)
Lemma sort_by_start_wf l : Forall nonempty l → StronglySorted apart l → records_wf (sort_by_start l).
Proof.
  intros Hn Hs. pose proof (sort_by_start_perm l) as Hp. pose proof (sort_by_start_sorted l) as Hst.
  apply (sorted_perm apart l (sort_by_start l)) in Hs; [|apply apart_sym|done].
  rewrite <- Hp in Hn. split; [done|]. clear Hp. induction Hst as [|x k Hk IH Hx]; [constructor|].
  inversion Hn as [|? ? Hn1 Hn2]; inversion Hs as [|? ? Hs1 Hs2]; subst.
  constructor; [auto|]. rewrite !Forall_forall in *.
  intros y Hy Ho. unfold apart, gap, nonempty, starts_before in *.
  destruct (Hs2 y Hy Ho) as [|Hg]; [done|]. specialize (Hx y Hy). specialize (Hn2 y Hy). exfalso. lia.
Qed.

(** ** Trimming and merging *)

Section place.
Context (o : owner) (start end_ : Z) (Hse : start < end_).

Lemma overlaps_spec r : overlaps r start end_ = true ↔ r_start r < end_ ∧ start < r_end r.
Proof. unfold overlaps. by rewrite andb_true_iff, !Z.ltb_lt. Qed.

(** What is left of a lock: parts of it outside [[start, end)], and all of those. *)
Lemma elem_of_trim r r' : nonempty r → r' ∈ trim start end_ r →
  nonempty r' ∧ r_owner r' = r_owner r ∧ r_write r' = r_write r ∧
  r_start r ≤ r_start r' ∧ r_end r' ≤ r_end r ∧ (r_end r' ≤ start ∨ end_ ≤ r_start r').
Proof.
  unfold trim, nonempty. intros Hr. destruct (overlaps r start end_) eqn:E; simpl.
  - apply overlaps_spec in E. rewrite elem_of_app.
    destruct (Z.ltb_spec (r_start r) start), (Z.ltb_spec end_ (r_end r));
      rewrite ?list_elem_of_singleton, ?elem_of_nil; intros [?|?]; subst; simpl; try done; split_and!; done || lia.
  - intros ->%list_elem_of_singleton. apply not_true_iff_false in E. rewrite overlaps_spec in E.
    split_and!; try done; lia.
Qed.

Lemma trim_covers r b w : nonempty r →
  (∃ r', r' ∈ trim start end_ r ∧ covers r' b ∧ r_write r' = w) ↔
  covers r b ∧ ¬ start ≤ b < end_ ∧ r_write r = w.
Proof.
  intros Hr. split.
  - intros (r' & Hr' & Hc & <-). apply elem_of_trim in Hr' as (? & ? & -> & ? & ? & ?); [|done].
    unfold covers in *. split_and!; [lia|lia|lia|done].
  - intros (Hc & Hout & <-). unfold trim, covers in *. destruct (overlaps r start end_) eqn:E; simpl.
    + apply overlaps_spec in E. setoid_rewrite elem_of_app.
      destruct (Z.lt_ge_cases b start).
      * exists (mk_range (r_start r) start (r_write r) (r_owner r)). simpl. split; [left|split; [lia|done]].
        rewrite (proj2 (Z.ltb_lt _ _)) by lia. by apply list_elem_of_singleton.
      * exists (mk_range end_ (r_end r) (r_write r) (r_owner r)). simpl. split; [right|split; [lia|done]].
        rewrite (proj2 (Z.ltb_lt _ _)) by lia. by apply list_elem_of_singleton.
    + exists r. split; [by apply list_elem_of_singleton|done].
Qed.

Lemma trim_sorted r : nonempty r → StronglySorted before (trim start end_ r).
Proof.
  intros Hr. unfold trim. destruct (negb _); [by repeat constructor|].
  destruct (_ <? _), (_ <? _); simpl; repeat constructor. simpl. lia.
Qed.

Lemma trimmed_wf mine : records_wf mine → records_wf (mine ≫= trim start end_).
Proof.
  intros [Hn Hb]. split.
  - rewrite Forall_forall in *. intros r' (r & Hr' & Hr)%list_elem_of_bind.
    apply elem_of_trim in Hr' as [? _]; auto.
  - induction Hb as [|r l Hb IH Hr]; [constructor|]. inversion Hn as [|? ? Hr0 Hn']; subst. simpl.
    apply sorted_app. split; [by apply trim_sorted|split; [auto|]].
    intros x y Hx (r2 & Hy & Hr2)%list_elem_of_bind Ho. rewrite Forall_forall in Hr, Hn'.
    apply elem_of_trim in Hx as (_ & Eo & Ew & _ & ? & _); [|done].
    apply elem_of_trim in Hy as (_ & Eo' & Ew' & ? & _ & _); [|auto].
    destruct (Hr r2 Hr2 ltac:(congruence)) as [?|[? ?]]; unfold gap.
    + left. lia.
    + destruct (Z.eq_dec (r_end x) (r_start y)); [right|left; lia]. split; [done|congruence].
Qed.

Lemma trimmed_holds mine b w : Forall nonempty mine → (∀ r, r ∈ mine → r_owner r = o) →
  holds (mine ≫= trim start end_) o b w ↔ holds mine o b w ∧ ¬ start ≤ b < end_.
Proof.
  intros Hn Ho. rewrite Forall_forall in Hn. unfold holds. split.
  - intros (r' & (r & Hr' & Hr)%list_elem_of_bind & Ho' & Hc & Hw).
    destruct (proj1 (trim_covers r b w (Hn r Hr))) as (? & ? & ?); [by exists r'|]. eauto 10.
  - intros [(r & Hr & Hor & Hc & Hw) Hout].
    destruct (proj2 (trim_covers r b w (Hn r Hr))) as (r' & Hr' & Hc' & Hw'); [done|].
    exists r'. split_and!; try done; [by apply list_elem_of_bind; eauto|].
    apply elem_of_trim in Hr' as (_ & -> & _); auto.
Qed.

(** *** Merging *)

Lemma fold_low (J : list range) s : let low := foldl (λ low r, Z.min low (r_start r)) s J in
  low ≤ s ∧ (∀ r, r ∈ J → low ≤ r_start r) ∧ (low = s ∨ ∃ r, r ∈ J ∧ low = r_start r).
Proof.
  revert s. induction J as [|x J IH]; intros s; cbn zeta; simpl.
  - split; [lia|split; [by intros ? ?%elem_of_nil|by left]].
  - destruct (IH (Z.min s (r_start x))) as (H1 & H2 & H3). split; [lia|split].
    + intros r [->|Hr]%elem_of_cons; [lia|auto].
    + destruct H3 as [H3|(r & Hr & H3)].
      * destruct (Z.le_gt_cases s (r_start x)); [left; lia|right]. exists x.
        split; [apply elem_of_cons; by left|lia].
      * right. exists r. split; [apply elem_of_cons; by right|done].
Qed.

Lemma fold_high (J : list range) e : let high := foldl (λ high r, Z.max high (r_end r)) e J in
  e ≤ high ∧ (∀ r, r ∈ J → r_end r ≤ high) ∧ (high = e ∨ ∃ r, r ∈ J ∧ high = r_end r).
Proof.
  revert e. induction J as [|x J IH]; intros e; cbn zeta; simpl.
  - split; [lia|split; [by intros ? ?%elem_of_nil|by left]].
  - destruct (IH (Z.max e (r_end x))) as (H1 & H2 & H3). split; [lia|split].
    + intros r [->|Hr]%elem_of_cons; [lia|auto].
    + destruct H3 as [H3|(r & Hr & H3)].
      * destruct (Z.le_gt_cases (r_end x) e); [left; lia|right]. exists x.
        split; [apply elem_of_cons; by left|lia].
      * right. exists r. split; [apply elem_of_cons; by right|done].
Qed.

Lemma joins_spec w r : joins start end_ w r = true ↔ r_write r = w ∧ r_start r ≤ end_ ∧ start ≤ r_end r.
Proof. unfold joins. rewrite !andb_true_iff, !Z.leb_le, eqb_true_iff. tauto. Qed.

(** The merged lock covers the bytes asked for and those of the locks it absorbed. *)
Section merge.
Context (w : bool) (T : list range) (HT : records_wf T).
Context (HTo : ∀ r, r ∈ T → r_owner r = o) (Hout : ∀ r, r ∈ T → r_end r ≤ start ∨ end_ ≤ r_start r).
Let J := retain (joins start end_ w) T.
Let R := retain (λ r, negb (joins start end_ w r)) T.
Let merged := mk_range (foldl (λ low r, Z.min low (r_start r)) start J)
                       (foldl (λ high r, Z.max high (r_end r)) end_ J) w o.

Lemma merged_covers b : covers merged b ↔ start ≤ b < end_ ∨ ∃ r, r ∈ J ∧ covers r b.
Proof.
  destruct (fold_low J start) as (Hl1 & Hl2 & Hl3). destruct (fold_high J end_) as (Hh1 & Hh2 & Hh3).
  unfold covers, merged. simpl. split.
  - intros [Hlo Hhi]. destruct (Z.lt_ge_cases b start); [|destruct (Z.lt_ge_cases b end_); [by left|]].
    + destruct Hl3 as [?|(r & Hr & ?)]; [lia|]. right. exists r. split; [done|].
      apply elem_of_retain in Hr as [_ (_ & _ & ?)%joins_spec]. lia.
    + destruct Hh3 as [?|(r & Hr & ?)]; [lia|]. right. exists r. split; [done|].
      apply elem_of_retain in Hr as [_ (_ & ? & _)%joins_spec]. lia.
  - intros [?|(r & Hr & ?)]; [lia|]. specialize (Hl2 r Hr). specialize (Hh2 r Hr). lia.
Qed.

(** A lock left alone neither overlaps the merged one nor could join it. *)
Lemma merged_apart r : r ∈ R → apart r merged.
Proof.
  intros [Hr Hnj%negb_true_iff]%elem_of_retain Ho.
  pose proof (wf_nonempty _ HT) as Hn. rewrite Forall_forall in Hn.
  pose proof (Hn r Hr) as Hr0. pose proof (Hout r Hr) as Hro. unfold nonempty in Hr0.
  apply not_true_iff_false in Hnj. rewrite joins_spec in Hnj.
  assert (∀ j, j ∈ J → gap r j ∨ gap j r) as Hj.
  { intros j [HjT Hjj]%elem_of_retain.
    assert (r ≠ j) as Hne by (intros ->; apply joins_spec in Hjj; tauto).
    clear -HT Hr HjT Hne HTo. pose proof (wf_before _ HT) as Hb.
    pose proof (HTo _ Hr). pose proof (HTo _ HjT).
    induction Hb as [|x l Hb IH Hx]; [by apply elem_of_nil in Hr|]. rewrite Forall_forall in Hx.
    apply elem_of_cons in Hr as [->|Hr], HjT as [->|HjT]; [done| | |].
    - left. apply Hx; [done|congruence].
    - right. apply Hx; [done|congruence].
    - apply IH; try done.
      + destruct HT as [Hn Hs]. inversion Hn; inversion Hs; by split.
      + intros x' Hx'. apply HTo, elem_of_cons. by right. }
  destruct (fold_low J start) as (Hl1 & Hl2 & Hl3). destruct (fold_high J end_) as (Hh1 & Hh2 & Hh3).
  unfold gap, merged in *. simpl in *.
  set (low := foldl _ start J) in *. set (high := foldl _ end_ J) in *.
  assert (∀ j, j ∈ J → r_write j = w ∧ r_start j ≤ end_ ∧ start ≤ r_end j ∧ r_start j < r_end j) as HJ.
  { intros j [HjT Hjj%joins_spec]%elem_of_retain. pose proof (Hn j HjT). unfold nonempty in *. tauto. }
  destruct Hro as [Hro|Hro]; [left|right].
  - destruct (Z.eq_dec (r_end r) low) as [E|E]; [right; split; [done|]|left].
    + intros Hw. destruct Hl3 as [El|(j & Hj' & El)]; [apply Hnj; split_and!; [done|lia|lia]|].
      destruct (HJ j Hj') as (? & ? & ? & ?). destruct (Hj j Hj') as [[?|[? ?]]|[?|[? ?]]]; (congruence || lia).
    + destruct Hl3 as [El|(j & Hj' & El)]; [lia|]. specialize (HJ j Hj').
      destruct (Hj j Hj') as [[?|[? ?]]|[?|[? ?]]]; lia.
  - destruct (Z.eq_dec high (r_start r)) as [E|E]; [right; split; [done|]|left].
    + intros Hw. destruct Hh3 as [El|(j & Hj' & El)]; [apply Hnj; split_and!; [done|lia|lia]|].
      destruct (HJ j Hj') as (? & ? & ? & ?). destruct (Hj j Hj') as [[?|[? ?]]|[?|[? ?]]]; (congruence || lia).
    + destruct Hh3 as [El|(j & Hj' & El)]; [lia|]. specialize (HJ j Hj').
      destruct (Hj j Hj') as [[?|[? ?]]|[?|[? ?]]]; lia.
Qed.

Lemma merged_wf : records_wf (sort_by_start (R ++ [merged])).
Proof.
  destruct (fold_low J start) as (Hl1 & _ & _). destruct (fold_high J end_) as (Hh1 & _ & _).
  apply sort_by_start_wf.
  - apply Forall_app. split; [apply Forall_retain, HT|]. repeat constructor. unfold nonempty. simpl. lia.
  - apply sorted_app. split; [apply sorted_retain, wf_apart, HT|split; [repeat constructor|]].
    intros x y Hx ->%list_elem_of_singleton. by apply merged_apart.
Qed.

Lemma merged_holds b x : holds (R ++ [merged]) o b x ↔
  if decide (start ≤ b < end_) then x = w else holds T o b x.
Proof.
  unfold holds. setoid_rewrite elem_of_app. setoid_rewrite list_elem_of_singleton.
  assert (∀ r, r ∈ T → covers r b → ¬ start ≤ b < end_) as Hno.
  { intros r Hr Hc. pose proof (Hout r Hr). unfold covers in *. lia. }
  split.
  - intros (r & [[Hr _]%elem_of_retain| ->] & Ho & Hc & <-).
    + rewrite decide_False by eauto. by exists r.
    + apply merged_covers in Hc as [Hc|(j & [Hj (Hw & _)%joins_spec]%elem_of_retain & Hc)].
      * by rewrite decide_True.
      * rewrite decide_False by eauto. exists j. split_and!; auto.
  - case_decide as Hb.
    + intros ->. exists merged. split_and!; try done; [by right|]. apply merged_covers. by left.
    + intros (r & Hr & Ho & Hc & <-). destruct (joins start end_ w r) eqn:E.
      * exists merged. split; [by right|]. split; [done|]. split.
        -- apply merged_covers. right. exists r. split; [|done]. by apply elem_of_retain.
        -- by apply joins_spec in E as [-> _].
      * exists r. split; [|done]. left. apply elem_of_retain. by rewrite E.
Qed.

End merge.

Lemma place_spec write mine : records_wf mine → (∀ r, r ∈ mine → r_owner r = o) →
  records_wf (place o start end_ write mine) ∧
  (∀ r, r ∈ place o start end_ write mine → r_owner r = o) ∧
  ∀ b x, holds (place o start end_ write mine) o b x ↔
    if decide (start ≤ b < end_) then write = Some x else holds mine o b x.
Proof.
  intros Hwf Ho. set (T := mine ≫= trim start end_).
  assert (records_wf T) as HT by by apply trimmed_wf.
  assert (∀ r, r ∈ T → r_owner r = o ∧ (r_end r ≤ start ∨ end_ ≤ r_start r)) as HTr.
  { pose proof (wf_nonempty _ Hwf) as Hn. rewrite Forall_forall in Hn.
    intros r' (r & Hr' & Hr)%list_elem_of_bind.
    apply elem_of_trim in Hr' as (_ & -> & _ & _ & _ & ?); auto. }
  pose proof (trimmed_holds mine) as Hh.
  assert (∀ l l' b x, l ≡ₚ l' → holds l o b x ↔ holds l' o b x) as Hperm.
  { intros l l' b x Hp. unfold holds. by setoid_rewrite Hp. }
  unfold place. fold T. destruct write as [w|].
  - split; [apply (merged_wf w T HT); apply HTr|]. split.
    + intros r. rewrite sort_by_start_perm, elem_of_app, list_elem_of_singleton.
      intros [[Hr _]%elem_of_retain| ->]; [by apply HTr|done].
    + intros b x. rewrite (Hperm _ _ b x (sort_by_start_perm _)).
      rewrite (merged_holds w T) by apply HTr.
      case_decide; [split; congruence|]. unfold T. rewrite Hh by (done || apply Hwf). tauto.
  - split; [apply sort_by_start_wf; [apply HT|by apply wf_apart]|]. split.
    + intros r. rewrite sort_by_start_perm. apply HTr.
    + intros b x. rewrite (Hperm _ _ b x (sort_by_start_perm _)). unfold T.
      rewrite Hh by (done || apply Hwf). case_decide; [split; [tauto|done]|tauto].
Qed.

End place.

(** ** [Table::set] *)

Lemma set_elem l o start end_ write r : r ∈ (set l o start end_ write).2 ↔
  (r ∈ l ∧ r_owner r ≠ o) ∨ r ∈ place o start end_ write (retain (owned_by o) l).
Proof.
  unfold set. simpl. set (P := place _ _ _ _ _). set (i := default _ _).
  rewrite !elem_of_app.
  assert (r ∈ l ∧ r_owner r ≠ o ↔ r ∈ take i (retain (λ r, negb (owned_by o r)) l) ∨
          r ∈ drop i (retain (λ r, negb (owned_by o r)) l)) as ->; [|tauto].
  rewrite <- elem_of_app, take_drop, elem_of_retain. unfold owned_by.
  by rewrite negb_true_iff, bool_decide_eq_false.
Qed.

Lemma owned_retain l o r : r ∈ retain (owned_by o) l ↔ r ∈ l ∧ r_owner r = o.
Proof. rewrite elem_of_retain. unfold owned_by. by rewrite bool_decide_eq_true. Qed.

Lemma set_wf l o start end_ write : records_wf l → start < end_ →
  records_wf (set l o start end_ write).2.
Proof.
  intros Hwf Hse. unfold set. simpl.
  destruct (place_spec o start end_ Hse write (retain (owned_by o) l)) as (Hp & Hpo & _).
  { by apply retain_wf. }
  { intros r Hr. by apply owned_retain in Hr as [_ ?]. }
  set (P := place _ _ _ _ _) in *. set (i := default _ _).
  assert (∀ r, r ∈ retain (λ r, negb (owned_by o r)) l → r_owner r ≠ o) as Hne.
  { intros r [_ Hr]%elem_of_retain. unfold owned_by in Hr.
    by rewrite negb_true_iff, bool_decide_eq_false in Hr. }
  pose proof (retain_wf (λ r, negb (owned_by o r)) l Hwf) as Hothers.
  set (O := retain (λ r, negb (owned_by o r)) l) in *. clearbody P O i.
  rewrite <- (take_drop i O) in Hothers, Hne. destruct Hothers as [Hn Hb].
  apply Forall_app in Hn as [Hn1 Hn2]. apply sorted_app in Hb as (Hb1 & Hb2 & Hb3). split.
  - rewrite !Forall_app. split_and!; [done|apply Hp|done].
  - apply sorted_app. split; [done|split].
    + apply sorted_app. split; [apply Hp|split; [done|]]. intros x y Hx Hy E. exfalso.
      apply (Hne y); [apply elem_of_app; by right|]. rewrite <- E. auto.
    + intros x y Hx [Hy|Hy]%elem_of_app; [|auto]. intros E. exfalso.
      apply (Hne x); [apply elem_of_app; by left|]. rewrite E. auto.
Qed.

Lemma set_holds l o start end_ write o' b x : records_wf l → start < end_ →
  holds (set l o start end_ write).2 o' b x ↔
    if decide (o' = o ∧ start ≤ b < end_) then write = Some x else holds l o' b x.
Proof.
  intros Hwf Hse.
  destruct (place_spec o start end_ Hse write (retain (owned_by o) l)) as (_ & Hpo & Hh).
  { by apply retain_wf. }
  { intros r Hr. by apply owned_retain in Hr as [_ ?]. }
  assert (∀ b x, holds (retain (owned_by o) l) o b x ↔ holds l o b x) as Hm.
  { intros. unfold holds. setoid_rewrite owned_retain. split; intros (r & ?); exists r; tauto. }
  destruct (decide (o' = o)) as [->|Hne].
  - transitivity (holds (place o start end_ write (retain (owned_by o) l)) o b x).
    { unfold holds. setoid_rewrite set_elem. split; intros (r & ?); exists r; tauto. }
    rewrite Hh. repeat case_decide; rewrite ?Hm; tauto.
  - rewrite decide_False by tauto. unfold holds. setoid_rewrite set_elem.
    split; intros (r & H); exists r; [|destruct H as (? & <- & ?); tauto].
    destruct H as ([[? ?]|Hr] & ? & ?); [tauto|]. rewrite (Hpo r Hr) in *. congruence.
Qed.
