(* ===== verification/FsLocksProps.v ===== *)
(** * What the advisory locks promise

    The theorems about crates/snare/src/fs_locks.rs: what a lock call changes, that conflicting
    locks never coexist, that [F_GETLK] agrees with [F_SETLK], that no waiter is left asleep when
    its lock comes free, and which byte range a request names. *)

From S2P Require Import Prelude FsLocks FsLocksWf.

(** ** Conflicts *)

Lemma conflict_spec l o start end_ w : start < end_ → Forall nonempty l →
  is_Some (conflict l o start end_ w) ↔
  ∃ o' b x, o' ≠ o ∧ start ≤ b < end_ ∧ holds l o' b x ∧ (w || x = true).
Proof.
  intros Hse Hn. rewrite Forall_forall in Hn. unfold conflict. split.
  - intros [r Hr]. apply find_first_Some in Hr as [Hr H]. rewrite !andb_true_iff in H.
    destruct H as [[Ho Hw] Hov]. unfold owned_by in Ho. rewrite negb_true_iff, bool_decide_eq_false in Ho.
    unfold overlaps in Hov. rewrite andb_true_iff, !Z.ltb_lt in Hov. specialize (Hn r Hr).
    unfold nonempty in Hn. exists (r_owner r), (Z.max start (r_start r)), (r_write r).
    split_and!; try done; try lia. exists r. split_and!; try done; unfold covers; lia.
  - intros (o' & b & x & Hne & Hb & (r & Hr & <- & Hc & <-) & Hw).
    destruct (find_first _ l) as [r'|] eqn:E; [done|]. rewrite find_first_None in E.
    specialize (E r Hr). unfold covers in Hc. unfold owned_by, overlaps in E.
    rewrite bool_decide_false, Hw in E by done. simpl in E.
    rewrite andb_false_iff, !Z.ltb_ge in E. lia.
Qed.

(** No byte is locked by two owners unless both only read. *)
Definition exclusive (l : list range) : Prop :=
  ∀ o o' b w w', o ≠ o' → holds l o b w → holds l o' b w' → w = false ∧ w' = false.

Definition flocks_wf (l : list (Z * bool)) : Prop :=
  ∀ d d' x x', (d, x) ∈ l → (d', x') ∈ l → d ≠ d' → x = false ∧ x' = false.

Record table_wf (tab : table) : Prop := {
  wf_records : records_wf (records tab);
  wf_exclusive : exclusive (records tab);
  wf_flocks : flocks_wf (flocks tab);
}.

Lemma table_default_wf : table_wf table_default.
Proof.
  split; simpl.
  - split; constructor.
  - intros ? ? ? ? ? _ (r & ?%elem_of_nil & _). done.
  - by intros ? ? ? ? ?%elem_of_nil.
Qed.

Lemma holds_retain p l o b w : holds (retain p l) o b w → holds l o b w.
Proof. intros (r & [Hr _]%elem_of_retain & H). by exists r. Qed.

Lemma exclusive_retain p l : exclusive l → exclusive (retain p l).
Proof. intros H o o' b w w' Hne H1 H2. eapply H; eauto using holds_retain. Qed.

Lemma attempt_spec l o start end_ kind released l' :
  attempt l o start end_ kind = Some (released, l') →
  (released, l') = set l o start end_ kind ∧ ∀ w, kind = Some w → conflict l o start end_ w = None.
Proof.
  unfold attempt. destruct kind as [w|]; [|intros H%(inj Some); split; [congruence|done]].
  destruct (conflict l o start end_ w) eqn:E; [done|]. intros H%(inj Some). split; [congruence|].
  by intros w' [= <-].
Qed.

Lemma attempt_wf l o start end_ kind released l' : records_wf l → exclusive l → start < end_ →
  attempt l o start end_ kind = Some (released, l') → records_wf l' ∧ exclusive l'.
Proof.
  intros Hwf Hex Hse Ha. apply attempt_spec in Ha as [Hs Hc].
  replace l' with (set l o start end_ kind).2 by by rewrite <- Hs. split; [by apply set_wf|].
  assert (∀ o' b x w, o' ≠ o → start ≤ b < end_ → kind = Some w → holds l o' b x → w = false ∧ x = false) as Hno.
  { intros o' b x w Hne Hb -> Hh. specialize (Hc w eq_refl).
    destruct (w || x) eqn:Hw; [exfalso|by apply orb_false_iff in Hw].
    assert (is_Some (conflict l o start end_ w)) as [? ?]; [|congruence].
    apply conflict_spec; [done|apply Hwf|]. eauto 10. }
  intros o1 o2 b w w' Hne. rewrite !set_holds by done.
  repeat case_decide; intros H1 H2; destruct_and?; subst; try done.
  - destruct (Hno o2 b w' w); auto.
  - destruct (Hno o1 b w w'); auto.
  - eauto.
Qed.

Lemma drop_flock_wf d tab : table_wf tab → table_wf (drop_flock d tab).2.
Proof.
  intros [Hr Hx Hf]. unfold drop_flock. split; simpl.
  - by apply retain_wf.
  - by apply exclusive_retain.
  - intros d1 d2 x1 x2 [H1 _]%elem_of_retain [H2 _]%elem_of_retain. eauto.
Qed.

Lemma set_records_wf tab l : table_wf tab → records_wf l → exclusive l → table_wf (mk_table l (flocks tab)).
Proof. intros []. by split. Qed.

Lemma flock_attempt_wf d x tab tab' : table_wf tab → flock_attempt d x tab = Some tab' → table_wf tab'.
Proof.
  intros [Hr Hx Hf]. unfold flock_attempt. destruct (flock_conflict _ d x) eqn:E; [done|].
  intros [= <-]. split; simpl; [done..|].
  assert (∀ d' x', (d', x') ∈ flocks tab → d' ≠ d → x = false ∧ x' = false) as Hc.
  { intros d' x' Hin Hne. unfold flock_conflict in E. apply not_true_iff_false in E.
    rewrite existsb_exists in E. destruct (x || x') eqn:Ex; [|by apply orb_false_iff in Ex].
    exfalso. apply E. exists (d', x'). split; [by apply list_elem_of_In|].
    by rewrite Ex, (proj2 (Z.eqb_neq d' d) Hne). }
  intros d1 d2 x1 x2. rewrite !elem_of_app, !list_elem_of_singleton.
  intros [H1|[= -> ->]] [H2|[= -> ->]] Hne; [eauto| | |done].
  - destruct (Hc d1 x1); auto.
  - destruct (Hc d2 x2); auto.
Qed.

(** The range a request names is never empty. *)
Lemma span_nonempty fl t start end_ : span fl t = inr (start, end_) → 0 ≤ start < end_ ∧ end_ ≤ TO_END.
Proof.
  unfold span, TO_END. destruct (match l_whence fl with SeekSet => _ | _ => _ end) as [base|]; [|done].
  unfold checked_add_i64, in_i64. destruct (_ && _) eqn:E1; [|done].
  apply andb_true_iff in E1 as [?%Z.leb_le ?%Z.leb_le].
  destruct (Z.eqb_spec (l_len fl) 0).
  { destruct (Z.ltb_spec (base + l_start fl) 0); [done|]. intros [= <- <-]. simpl. lia. }
  destruct (Z.ltb_spec 0 (l_len fl)); (destruct (_ && _) eqn:E2; [|done]);
    apply andb_true_iff in E2 as [?%Z.leb_le ?%Z.leb_le];
    (case_match eqn:E3; [done|]); apply Z.ltb_ge in E3; intros [= <- <-]; simpl; lia.
Qed.

(** A call leaves a good table, and what it waits to do is well formed. *)
Definition waiting_ok (w : waiting) : Prop := match w with ForRecord _ start end_ _ => start < end_ | _ => True end.
Definition result_ok (r : result) : Prop := table_wf (after r) ∧ match what r with Blocks w => waiting_ok w | _ => True end.

Lemma stays_ok o wk tab : table_wf tab → match o with Blocks w => waiting_ok w | _ => True end → result_ok (mk_result o wk tab).
Proof. by split. Qed.
Lemma attempted_ok o start end_ kind otherwise tab : table_wf tab → start < end_ →
  match otherwise with Blocks w => waiting_ok w | _ => True end → result_ok (attempted o start end_ kind otherwise tab).
Proof.
  intros Hwf Hse Ho. unfold attempted. destruct (attempt _ _ _ _ _) as [[released l]|] eqn:Ea; [|by apply stays_ok].
  split; [|done]. destruct (attempt_wf (records tab) o start end_ kind released l (wf_records _ Hwf) (wf_exclusive _ Hwf) Hse Ea). by apply set_records_wf.
Qed.

Lemma fcntl_ok os pid cmd arg t tab r : table_wf tab → fcntl os pid cmd arg t tab = Some r → result_ok r.
Proof.
  intros Hwf. unfold fcntl. destruct (classify os cmd) as [[req ofd]|]; [|done]. simpl.
  intros [= <-]. destruct arg as [fl|]; [|done]. case_match; [done|].
  destruct (span fl t) as [e|[start end_]] eqn:Hs; [done|]. apply span_nonempty in Hs.
  destruct (lock_kind (l_type fl)) as [kind|]; [|done].
  destruct req; [by destruct kind, (is_macos os)|..]; (destruct (_ || _); [done|]); apply attempted_ok; simpl; done || lia.
Qed.

Lemma TO_END_pos : 0 < TO_END.
Proof. done. Qed.

Lemma flock_sleep_ok d x tab : table_wf tab → result_ok (flock_sleep d x tab).
Proof. intros Hwf. by apply attempted_ok. Qed.
Lemma drop_and_sleep_ok d tab : table_wf tab → result_ok (drop_and_sleep d tab).
Proof.
  intros Hwf%(drop_flock_wf d). unfold drop_and_sleep. destruct (drop_flock d tab) as [dropped tab']. destruct (flock_sleep_ok d true tab' Hwf). by split.
Qed.
Lemma flock_record_ok d x nb tab : table_wf tab → result_ok (flock_record d x nb tab).
Proof.
  intros Hwf. pose proof (attempted_ok (Flock d) 0 TO_END (Some x) (Fails EINTR) tab Hwf TO_END_pos I) as Ha.
  unfold flock_record, attempted in *. destruct (attempt (records tab) _ _ _ _) as [[released l]|]; [done|].
  destruct nb; [by apply stays_ok|]. destruct x; [by apply drop_and_sleep_ok|by apply flock_sleep_ok].
Qed.

Lemma flock_convert_spec d x tab c tab' : flock_convert d x tab = Some (c, tab') →
  records tab' = records tab ∧ (c = false → tab' = tab) ∧ (∀ h, h ∈ flocks tab' → h ∈ flocks tab) ∧
  (c = false → d ∉ (flocks tab).*1) ∧ (c = true → (flocks tab).*1 ≡ₚ d :: (flocks tab').*1).
Proof.
  unfold flock_convert. destruct (position _ (flocks tab)) as [i|] eqn:Hp.
  - case_match; [done|]. intros [= <- <-]. apply position_Some in Hp as ([d' y] & Hi & Hd). simpl in Hd. apply Z.eqb_eq in Hd. subst d'.
    pose proof (take_drop_middle _ i _ Hi) as Hl. simpl. split_and!; try done.
    + intros h Hh. rewrite <- Hl. rewrite elem_of_app in *. rewrite elem_of_cons. tauto.
    + intros _. rewrite <- Hl at 1. by rewrite fmap_app, fmap_cons, <- Permutation_middle, fmap_app.
  - intros [= <- <-]. split_and!; try done. intros _ ([d' y] & -> & Hin)%list_elem_of_fmap.
    pose proof (position_None _ _ Hp _ Hin) as Hz. simpl in Hz. by rewrite Z.eqb_refl in Hz.
Qed.
Lemma flock_convert_wf d x tab c tab' : table_wf tab → flock_convert d x tab = Some (c, tab') → table_wf tab'.
Proof.
  intros [Hr Hx Hf] (E & _ & Hin & _)%flock_convert_spec. split; rewrite ?E; try done. intros d1 d2 x1 x2 H1%Hin H2%Hin. eauto.
Qed.

Lemma flock_ok os d op tab : table_wf tab → result_ok (flock os d op tab).
Proof.
  intros Hwf. unfold flock. destruct (operation_kind os op) as [[e|x]|]; [by apply stays_ok| |].
  2: { pose proof (drop_flock_wf d tab Hwf) as Hd. by destruct (drop_flock d tab). }
  destruct (is_macos os); [by apply flock_record_ok|]. destruct (flock_convert d x tab) as [[c tab']|] eqn:E; [|by apply stays_ok].
  apply flock_convert_wf in E; [|done]. destruct (flock_attempt d x tab') as [t|] eqn:Ea; [|by destruct (negb _); apply stays_ok].
  apply stays_ok; [by eapply flock_attempt_wf|done].
Qed.
Lemma flock_begin_ok os d x tab : table_wf tab → result_ok (flock_begin os d x tab).
Proof.
  intros Hwf. unfold flock_begin. destruct (is_macos os); [by apply attempted_ok; destruct x|].
  destruct (flock_convert d x tab) as [[c tab']|] eqn:E; [|by apply stays_ok]. by apply stays_ok; [eapply flock_convert_wf|].
Qed.
Lemma retry_ok w tab : table_wf tab → waiting_ok w → result_ok (retry w tab).
Proof.
  intros Hwf Hw. destruct w as [o start end_ kind|d x|d]; cbn [retry]; [by apply attempted_ok| |by apply drop_and_sleep_ok].
  destruct (flock_attempt d x tab) eqn:E; [|by apply stays_ok]. by apply stays_ok; [eapply flock_attempt_wf|].
Qed.

Lemma release_process_wf tab : table_wf tab → table_wf (release_process tab).2.
Proof. intros []. split; simpl; [by apply retain_wf|by apply exclusive_retain|done]. Qed.

Lemma release_description_wf d tab : table_wf tab → table_wf (release_description d tab).2.
Proof.
  intros []. unfold release_description.
  pose proof (drop_flock_wf d (mk_table (retain (λ r, negb (owned_by (Description d) r)) (records tab)) (flocks tab))) as Hd.
  destruct (drop_flock d _) as [dropped tab']. apply Hd.
  split; simpl; [by apply retain_wf|by apply exclusive_retain|done].
Qed.

(** ** Any interleaving of calls *)

(** The calls on an inode, as steps: a whole call up to where it waits; a [flock] only up to where it first lets go of the table, so that others may come between;
    a call that waits woken to retry; and one that gives up, as its deadline or a signal has it *)
Inductive lock_call :=
  | CallFcntl (pid : Z) (cmd : command) (arg : option flock_arg) (t : target)
  | CallFlock (d operation : Z)
  | BeginFlock (d : Z) (exclusive : bool)
  | Retry (i : nat)
  | Leave (i : nat)
  | CallReleaseProcess
  | CallReleaseDescription (d : Z).
(** The table, and what the calls that have begun have still to do *)
Definition lock_state : Type := table * list waiting.

Definition went (r : result) (ws : list waiting) : bool * lock_state :=
  (wakes r, (after r, ws ++ match what r with Blocks w => [w] | _ => [] end)).
(** What a step does, and whether it woke the waiters. *)
Definition call (os : target_os) (c : lock_call) (s : lock_state) : bool * lock_state :=
  let '(tab, ws) := s in
  match c with
  | CallFcntl pid cmd arg t => match fcntl os pid cmd arg t tab with Some r => went r ws | None => (false, s) end
  | CallFlock d operation => went (flock os d operation tab) ws
  | BeginFlock d exclusive => went (flock_begin os d exclusive tab) ws
  | Retry i => match ws !! i with Some w => went (retry w tab) (delete i ws) | None => (false, s) end
  | Leave i => (false, (tab, delete i ws))
  | CallReleaseProcess => let '(woke, tab) := release_process tab in (woke, (tab, ws))
  | CallReleaseDescription d => let '(woke, tab) := release_description d tab in (woke, (tab, ws))
  end.
Definition calls (os : target_os) (cs : list lock_call) (s : lock_state) : lock_state := foldl (λ s c, (call os c s).2) s cs.
Definition locks_default : lock_state := (table_default, []).

Definition state_ok (s : lock_state) : Prop := table_wf s.1 ∧ Forall waiting_ok s.2.
Lemma went_ok r ws : result_ok r → Forall waiting_ok ws → state_ok (went r ws).2.
Proof. intros [Ht Hw] Hws. split; [done|]. cbn. apply Forall_app. split; [done|]. destruct (what r); repeat constructor; done. Qed.
Lemma lock_call_ok os c s : state_ok s → state_ok (call os c s).2.
Proof.
  destruct s as [tab ws]. intros [Hwf Hws]. cbn in Hwf, Hws. destruct c as [pid cmd arg t|d op|d x|i|i| |d]; cbn [call].
  - destruct (fcntl os pid cmd arg t tab) eqn:E; [|done]. apply went_ok; [by eapply fcntl_ok|done].
  - apply went_ok; [by apply flock_ok|done].
  - apply went_ok; [by apply flock_begin_ok|done].
  - destruct (ws !! i) as [w|] eqn:E; [|done]. apply went_ok; [apply retry_ok; [done|by eapply Forall_lookup_1]|by apply Forall_delete].
  - split; [done|by apply Forall_delete].
  - pose proof (release_process_wf tab Hwf). by destruct (release_process tab).
  - pose proof (release_description_wf d tab Hwf). by destruct (release_description d tab).
Qed.
Lemma calls_ok os cs s : state_ok s → state_ok (calls os cs s).
Proof. revert s. induction cs as [|c cs IH]; intros s Hs; [done|]. simpl. by apply IH, lock_call_ok. Qed.
Lemma default_ok : state_ok locks_default.
Proof. split; [apply table_default_wf|constructor]. Qed.

(** ** One lock for a description *)

(** The descriptions whose [flock] is under way, and the steps that begin another for one of them *)
Definition under_way (ws : list waiting) : list Z := omap (λ w, match w with ForFlock d _ => Some d | _ => None end) ws.
Definition begins (os : target_os) (c : lock_call) : option Z :=
  match c with
  | CallFlock d operation => match operation_kind os operation with Some (inr _) => Some d | _ => None end
  | BeginFlock d _ => Some d
  | _ => None
  end.
(** No description begins a [flock] while another of its own is under way. *)
Fixpoint one_at_a_time (os : target_os) (cs : list lock_call) (s : lock_state) : bool :=
  match cs with
  | [] => true
  | c :: cs => match begins os c with Some d => negb (bool_decide (d ∈ under_way s.2)) | None => true end && one_at_a_time os cs (call os c s).2
  end.

(** The descriptions that hold a [flock] or are getting one are all different. *)
Definition sole (s : lock_state) : Prop := NoDup ((flocks s.1).*1 ++ under_way s.2).
Lemma under_way_app ws ws' : under_way (ws ++ ws') = under_way ws ++ under_way ws'.
Proof. apply omap_app. Qed.
Lemma sole_sublist s s' : sole s → ((flocks s'.1).*1 `sublist_of` (flocks s.1).*1) → (under_way s'.2 `sublist_of` under_way s.2) → sole s'.
Proof. intros H H1 H2. unfold sole in *. eapply sublist_NoDup; [exact H|]. by apply sublist_app. Qed.
Lemma retain_keys p (l : list (Z * bool)) : (retain p l).*1 `sublist_of` l.*1.
Proof. induction l as [|x l IH]; simpl; [done|]. destruct (p x); simpl; by constructor. Qed.
Lemma drop_flock_sole d tab ws : sole (tab, ws) → sole ((drop_flock d tab).2, ws).
Proof. intros H. eapply sole_sublist; [exact H| |done]. apply retain_keys. Qed.
Lemma attempted_sole o start end_ kind otherwise tab ws : sole (tab, ws) → match otherwise with Blocks (ForFlock _ _) => False | _ => True end →
  sole (went (attempted o start end_ kind otherwise tab) ws).2.
Proof.
  intros H Ho. unfold attempted. destruct (attempt _ _ _ _ _) as [[released l]|]; unfold sole, went in *; cbn; rewrite ?app_nil_r; [done|]. rewrite under_way_app.
  destruct otherwise as [| |[]]; cbn; rewrite ?app_nil_r; done.
Qed.
Lemma drop_and_sleep_sole d tab ws : sole (tab, ws) → sole (went (drop_and_sleep d tab) ws).2.
Proof.
  intros H%(drop_flock_sole d). unfold drop_and_sleep. destruct (drop_flock d tab) as [dropped tab']. exact (attempted_sole (Flock d) 0 TO_END (Some true) (Blocks (ForRecord (Flock d) 0 TO_END (Some true))) tab' ws H I).
Qed.
Lemma flock_attempt_sole d x tab ws wk : sole (tab, ws) → d ∉ (flocks tab).*1 ++ under_way ws →
  sole (went match flock_attempt d x tab with Some tab => mk_result (Succeeds None) wk tab | None => mk_result (Blocks (ForFlock d x)) wk tab end ws).2 ∧
  sole (went (mk_result (Blocks (ForFlock d x)) wk tab) ws).2.
Proof.
  intros H Hd. assert (NoDup (d :: (flocks tab).*1 ++ under_way ws)) as Hn by (by constructor).
  assert (sole (went (mk_result (Blocks (ForFlock d x)) wk tab) ws).2) as Hb.
  { unfold sole, went. cbn. rewrite under_way_app. cbn. eapply NoDup_Permutation_proper; [|exact Hn]. solve_Permutation. }
  split; [|exact Hb]. unfold flock_attempt. destruct (flock_conflict _ _ _); [done|]. unfold sole, went. cbn. rewrite app_nil_r, fmap_app. cbn.
  eapply NoDup_Permutation_proper; [|exact Hn]. solve_Permutation.
Qed.
Lemma flock_convert_sole d x tab ws c tab' : sole (tab, ws) → d ∉ under_way ws → flock_convert d x tab = Some (c, tab') →
  sole (tab', ws) ∧ d ∉ (flocks tab').*1 ++ under_way ws.
Proof.
  intros H Hd (_ & Hs & _ & Hno & Hp)%flock_convert_spec. unfold sole in *. cbn [fst snd] in *. destruct c.
  - rewrite (Hp eq_refl) in H. cbn in H. by apply NoDup_cons in H as [? ?].
  - rewrite (Hs eq_refl). split; [done|]. rewrite elem_of_app. intros [?|?]; [by apply Hno|done].
Qed.
Lemma flock_sole os d op tab ws : sole (tab, ws) → match operation_kind os op with Some (inr _) => d ∉ under_way ws | _ => True end →
  sole (went (flock os d op tab) ws).2.
Proof.
  intros H Hd. unfold flock. destruct (operation_kind os op) as [[e|x]|].
  - unfold went, sole in *. cbn. by rewrite app_nil_r.
  - destruct (is_macos os).
    + pose proof (attempted_sole (Flock d) 0 TO_END (Some x) (Fails EINTR) tab ws H I) as Ha. unfold flock_record, attempted in *.
      destruct (attempt (records tab) _ _ _ _) as [[released l]|]; [done|]. destruct (negb _); [done|]. destruct x; [by apply drop_and_sleep_sole|].
      by apply attempted_sole.
    + destruct (flock_convert d x tab) as [[c tab']|] eqn:E; [|by unfold went, sole in *; cbn; rewrite app_nil_r].
      destruct (flock_convert_sole d x tab ws c tab' H Hd E) as [H' Hd']. destruct (flock_attempt_sole d x tab' ws c H' Hd') as [Ha _].
      destruct (flock_attempt d x tab') as [t|]; [done|]. destruct (negb _); [|done]. unfold went, sole in *. cbn. by rewrite app_nil_r.
  - pose proof (drop_flock_sole d tab ws H) as Hs. destruct (drop_flock d tab). unfold went, sole in *. cbn in *. by rewrite app_nil_r.
Qed.
Lemma retry_sole w tab ws : sole (tab, w :: ws) → sole (went (retry w tab) ws).2.
Proof.
  intros H. destruct w as [o start end_ kind|d x|d]; cbn [retry].
  - by apply attempted_sole.
  - unfold sole in H. cbn in H. rewrite <- Permutation_middle in H. apply NoDup_cons in H as [Hd H]. by apply (flock_attempt_sole d x tab ws false).
  - by apply drop_and_sleep_sole.
Qed.
Lemma call_sole os c s : sole s → match begins os c with Some d => d ∉ under_way s.2 | None => True end → sole (call os c s).2.
Proof.
  destruct s as [tab ws]. intros H Hd. destruct c as [pid cmd arg t|d op|d x|i|i| |d]; cbn [call begins snd] in *.
  - unfold fcntl. destruct (classify os cmd) as [[req ofd]|]; [|done]. cbn [mbind option_bind]. assert (∀ o, match o with Blocks (ForFlock _ _) => False | _ => True end → sole (went (mk_result o false tab) ws).2) as Hs.
    { intros o Ho. unfold sole, went in *. cbn in *. rewrite under_way_app. destruct o as [| |[]]; cbn; rewrite ?app_nil_r; done. }
    destruct arg as [fl|]; [|by apply Hs]. case_match; [by apply Hs|]. destruct (span fl t) as [e|[start end_]]; [by apply Hs|]. destruct (lock_kind (l_type fl)) as [kind|]; [|by apply Hs].
    destruct req; [by destruct kind, (is_macos os); apply Hs|..]; (destruct (_ || _); [by apply Hs|by apply attempted_sole]).
  - apply flock_sole; [done|]. by destruct (operation_kind os op) as [[]|].
  - unfold flock_begin. destruct (is_macos os); [by apply attempted_sole; destruct x|].
    destruct (flock_convert d x tab) as [[c tab']|] eqn:E; [|by unfold went, sole in *; cbn; rewrite app_nil_r].
    destruct (flock_convert_sole d x tab ws c tab' H Hd E) as [H' Hd']. by apply flock_attempt_sole.
  - destruct (ws !! i) as [w|] eqn:E; [|done]. apply retry_sole. unfold sole in *. eapply NoDup_Permutation_proper; [|exact H]. cbn [fst snd]. f_equiv.
    unfold under_way. apply omap_Permutation. symmetry. by apply delete_Permutation.
  - eapply sole_sublist; [exact H|done|]. cbn. unfold under_way. clear. revert i. induction ws as [|w ws IH]; intros [|i]; cbn; [done..| |]; destruct w; cbn; try (by constructor); done || apply IH.
  - by unfold release_process.
  - unfold release_description. apply (drop_flock_sole d) in H. by unfold drop_flock, sole in *.
Qed.
Lemma calls_sole os cs s : sole s → one_at_a_time os cs s = true → sole (calls os cs s).
Proof.
  revert s. induction cs as [|c cs IH]; intros s Hs; [done|]. cbn [one_at_a_time]. intros [H1 H2]%andb_true_iff. simpl. apply IH; [|done]. apply call_sole; [done|].
  destruct (begins os c); [|done]. by apply negb_true_iff, bool_decide_eq_false in H1.
Qed.

(** C6: conflicting locks never coexist. After any interleaving of [fcntl] and [flock] calls and
    descriptor closings on one inode, on Linux and on macOS, of calls that wait, are woken and try again, and of calls that give up: no byte has a write lock of
    one owner and any lock of another; no two descriptions hold a [flock] unless both are shared; each owner's record locks are nonempty ranges in order of start
    that neither overlap nor touch without differing in type; and a description holds one [flock] at most, provided it begins none while another of its own is
    under way. *)
Theorem locks_exclusive (os : target_os) (cs : list lock_call) :
  let tab := (calls os cs locks_default).1 in
  (∀ o o' b w w', o ≠ o' → holds (records tab) o b w → holds (records tab) o' b w' →
     w = false ∧ w' = false) ∧
  (∀ d d' x x', (d, x) ∈ flocks tab → (d', x') ∈ flocks tab → d ≠ d' → x = false ∧ x' = false) ∧
  Forall nonempty (records tab) ∧ StronglySorted before (records tab) ∧
  (one_at_a_time os cs locks_default = true → NoDup (flocks tab).*1).
Proof.
  destruct (calls_ok os cs locks_default default_ok) as [[[Hn Hb] Hx Hf] _].
  cbn zeta. split_and!; [exact Hx|exact Hf|done..|]. intros H. pose proof (calls_sole os cs locks_default ltac:(constructor) H) as Hs. by apply NoDup_app in Hs as [? _].
Qed.

(** Description 1 holds its file; two threads wait for locks of description 2 on it, one exclusive and one shared; description 1 lets go and both are woken. *)
Definition two_waiters : list lock_call :=
  [CallFlock 1 LOCK_EX; CallFlock 2 LOCK_EX; CallFlock 2 LOCK_SH; CallFlock 1 LOCK_UN; Retry 0; Retry 0].
(** two calls of one description that wait together both get their lock on Linux: an exclusive one and a shared one are then held at once, a conversion to
    shared gives up only one of the two, and the file stays locked exclusively for others. *)
Theorem description_holds_two :
  (calls Linux two_waiters locks_default).1 = mk_table [] [(2, true); (2, false)] ∧
  (calls Linux ([CallFlock 1 LOCK_EX; CallFlock 2 LOCK_SH; CallFlock 2 LOCK_EX; CallFlock 1 LOCK_UN; Retry 0; Retry 0] ++ [CallFlock 2 LOCK_SH]) locks_default).1 =
    mk_table [] [(2, false); (2, true)] ∧
  what (flock Linux 3 (LOCK_SH + LOCK_NB) (mk_table [] [(2, false); (2, true)])) = Fails EWOULDBLOCK.
Proof. vm_compute. done. Qed.

(** C26: [Table::set] changes what its owner holds on exactly the bytes it names. Afterwards each
    byte of the range has the new lock, or none when unlocking, and every other byte and every
    other owner is as it was, whatever was split, trimmed and merged to get there. *)
Theorem set_exact (l : list range) (o : owner) (start end_ : Z) (write : option bool)
    (o' : owner) (b : Z) (w : bool) :
  records_wf l → start < end_ →
  holds (set l o start end_ write).2 o' b w ↔
    if decide (o' = o ∧ start ≤ b < end_) then write = Some w else holds l o' b w.
Proof. apply set_holds. Qed.

(** Two locks of the process with a gap, and one of a description. *)
Definition some_records : list range :=
  [mk_range 0 10 false Process; mk_range 20 30 false Process; mk_range 40 50 true (Description 7)].

Lemma some_records_wf : records_wf some_records.
Proof.
  split; [repeat constructor|].
  repeat (apply SSorted_cons; [|repeat (apply List.Forall_cons; [intros E; try discriminate E; left; reflexivity|]); apply List.Forall_nil]).
  apply SSorted_nil.
Qed.

Lemma set_exact_witness :
  (set some_records Process 5 25 (Some false)).2 =
    [mk_range 0 30 false Process; mk_range 40 50 true (Description 7)] ∧
  (holds (set some_records Process 5 25 (Some false)).2 Process 15 false ↔
    if decide (Process = Process ∧ 5 ≤ 15 < 25) then Some false = Some false
    else holds some_records Process 15 false).
Proof.
  split; [vm_compute; reflexivity|].
  apply (set_exact some_records Process 5 25 (Some false) Process 15 false);
    [apply some_records_wf|lia].
Defined.

(** [F_GETLK] tells the truth. For a readable and writable descriptor and a read or write
    request whose range is valid, [F_GETLK] answers [F_UNLCK] exactly when [F_SETLK] for the same
    range and type would succeed, which otherwise fails with [EAGAIN]; and a lock it reports
    belongs to another owner, overlaps the range and conflicts with the request. *)
Theorem getlk_agrees (os : target_os) (pid : Z) (fl : flock_arg) (t : target) (tab : table)
    (start end_ : Z) (w : bool) :
  span fl t = inr (start, end_) → lock_kind (l_type fl) = Some (Some w) →
  readable t = true → writable t = true →
  ∃ reply set_,
    fcntl os pid F_GETLK (Some fl) t tab = Some (mk_result (Succeeds (Some reply)) false tab) ∧
    fcntl os pid F_SETLK (Some fl) t tab = Some set_ ∧
    ((l_type reply = UnLck ∧ what set_ = Succeeds None) ∨
     (l_type reply ≠ UnLck ∧ what set_ = Fails EAGAIN ∧ after set_ = tab ∧
      ∃ r, r ∈ records tab ∧ r_owner r ≠ Process ∧ overlaps r start end_ = true ∧ (w || r_write r) = true ∧
           reply = report pid fl (Some r))).
Proof.
  intros Hs Hk Hr Hw. unfold fcntl. cbn [classify mbind option_bind]. rewrite andb_false_r. cbn [andb].
  rewrite Hs, Hk, Hr, Hw. cbn [negb]. rewrite !andb_false_r. unfold attempted. cbn [orb attempt].
  eexists _, _. split; [done|split; [done|]].
  destruct (conflict (records tab) Process start end_ w) as [r|] eqn:E.
  - right. apply find_first_Some in E as [Hin H]. rewrite !andb_true_iff in H. destruct H as [[Ho Hwr] Hov].
    unfold owned_by in Ho. rewrite negb_true_iff, bool_decide_eq_false in Ho.
    split; [by simpl; destruct (r_write r)|]. split; [done|split; [done|]]. by exists r.
  - left. split; [done|]. by destruct (set (records tab) Process start end_ (Some w)).
Qed.

Lemma getlk_agrees_witness :
  ∃ reply set_,
    fcntl Linux 1 F_GETLK (Some (mk_flock RdLck SeekCur 30 0 0)) (mk_target true true 5 100 3)
      (mk_table some_records []) =
      Some (mk_result (Succeeds (Some reply)) false (mk_table some_records [])) ∧
    fcntl Linux 1 F_SETLK (Some (mk_flock RdLck SeekCur 30 0 0)) (mk_target true true 5 100 3)
      (mk_table some_records []) = Some set_ ∧
    ((l_type reply = UnLck ∧ what set_ = Succeeds None) ∨
     (l_type reply ≠ UnLck ∧ what set_ = Fails EAGAIN ∧ after set_ = mk_table some_records [] ∧
      ∃ r, r ∈ some_records ∧ r_owner r ≠ Process ∧ overlaps r 35 TO_END = true ∧
           (false || r_write r) = true ∧ reply = report 1 (mk_flock RdLck SeekCur 30 0 0) (Some r))).
Proof.
  apply (getlk_agrees Linux 1 (mk_flock RdLck SeekCur 30 0 0) (mk_target true true 5 100 3)
    (mk_table some_records []) 35 TO_END false); reflexivity.
Defined.

(** ** Waking the waiters *)

(** Every lock of [l] is matched in [l'] by one at least as strong. *)
Definition no_weaker (l l' : list range) : Prop :=
  ∀ o b x, holds l o b x → ∃ x', holds l' o b x' ∧ (x = true → x' = true).

Lemma no_weaker_refl l : no_weaker l l.
Proof. intros o b x H. eauto. Qed.

Lemma set_no_weaker l o start end_ write l' : records_wf l → start < end_ →
  set l o start end_ write = (false, l') → no_weaker l l'.
Proof.
  intros Hwf Hse Hset o' b x Hh. replace l' with (set l o start end_ write).2 by by rewrite Hset.
  destruct (decide (o' = o ∧ start ≤ b < end_)) as [[-> Hb]|Hout].
  - assert (write = Some true) as ->.
    { destruct Hh as (r & Hr & Ho & Hc & Hw). unfold set in Hset. injection Hset as Hrel _.
      apply not_true_iff_false in Hrel. rewrite existsb_exists in Hrel.
      destruct write as [[]|]; [done| |]; exfalso; apply Hrel; exists r;
        (split; [apply list_elem_of_In; by apply owned_retain|]);
        unfold lets_go; rewrite bool_decide_false by done; cbn; rewrite andb_true_r;
        apply overlaps_spec; unfold covers in *; lia. }
    exists true. split; [|done]. apply set_holds; [done..|]. by rewrite decide_True.
  - exists x. split; [|done]. apply set_holds; [done..|]. by rewrite decide_False.
Qed.

Lemma conflict_no_weaker l l' o start end_ w : start < end_ → Forall nonempty l → Forall nonempty l' →
  no_weaker l l' → is_Some (conflict l o start end_ w) → is_Some (conflict l' o start end_ w).
Proof.
  intros Hse Hn Hn' Hnw. rewrite !conflict_spec by done.
  intros (o' & b & x & Hne & Hb & Hh & Hw). destruct (Hnw _ _ _ Hh) as (x' & Hh' & Hx).
  exists o', b, x'. split_and!; try done; try lia. destruct w, x; try done. rewrite Hx by done. done.
Qed.

Lemma retain_all_length {A} (p : A → bool) l : length (retain p l) = length l → retain p l = l.
Proof.
  induction l as [|x l IH]; simpl; [done|]. destruct (p x); simpl.
  - intros [= H]. f_equal. auto.
  - intros H. pose proof (length_retain p l). lia.
Qed.

Lemma drop_flock_quiet d tab tab' : drop_flock d tab = (false, tab') → tab' = tab.
Proof.
  unfold drop_flock. intros [= H <-]. apply negb_false_iff, Nat.eqb_eq in H.
  pose proof (length_retain (λ h : Z * bool, negb (h.1 =? d)) (flocks tab)).
  pose proof (length_retain (λ r, negb (owned_by (Flock d) r)) (records tab)).
  rewrite !retain_all_length by lia. by destruct tab.
Qed.

(** A call that wakes no one leaves every record and every [flock] at least as it was. *)
Definition quiet (tab tab' : table) : Prop :=
  no_weaker (records tab) (records tab') ∧ ∀ h, h ∈ flocks tab → h ∈ flocks tab'.

Lemma quiet_refl tab : quiet tab tab.
Proof. split; [apply no_weaker_refl|done]. Qed.

Lemma attempt_quiet tab o start end_ kind l : table_wf tab → start < end_ →
  attempt (records tab) o start end_ kind = Some (false, l) → quiet tab (mk_table l (flocks tab)).
Proof.
  intros Hwf Hse [Hs _]%attempt_spec. split; [|done]. eapply set_no_weaker; [apply Hwf|done|by symmetry].
Qed.

Lemma attempted_quiet o start end_ kind otherwise tab : table_wf tab → start < end_ →
  wakes (attempted o start end_ kind otherwise tab) = false → quiet tab (after (attempted o start end_ kind otherwise tab)).
Proof.
  intros Hwf Hse. unfold attempted. destruct (attempt _ _ _ _ _) as [[[] l]|] eqn:Ea; simpl; [done| |intros; apply quiet_refl]. intros _. by eapply attempt_quiet.
Qed.
Lemma drop_and_sleep_quiet d tab : table_wf tab → wakes (drop_and_sleep d tab) = false → quiet tab (after (drop_and_sleep d tab)).
Proof.
  intros Hwf. unfold drop_and_sleep. destruct (drop_flock d tab) as [[] tab'] eqn:Ed; [done|]. apply drop_flock_quiet in Ed as ->. cbn. by apply attempted_quiet.
Qed.
Lemma flock_attempt_quiet d x tab tab' : flock_attempt d x tab = Some tab' → quiet tab tab'.
Proof.
  unfold flock_attempt. destruct (flock_conflict _ _ _); [done|]. intros [= <-]. split; simpl; [apply no_weaker_refl|]. intros h Hh. apply elem_of_app. by left.
Qed.
Lemma flock_quiet os d op tab : table_wf tab → wakes (flock os d op tab) = false → quiet tab (after (flock os d op tab)).
Proof.
  intros Hwf. unfold flock. destruct (operation_kind os op) as [[e|x]|]; [intros; apply quiet_refl| |].
  - destruct (is_macos os).
    + pose proof (attempted_quiet (Flock d) 0 TO_END (Some x) (Fails EINTR) tab Hwf TO_END_pos) as Ha. unfold flock_record, attempted in *.
      destruct (attempt (records tab) _ _ _ _) as [[released l]|]; [done|]. destruct (negb _); [intros; apply quiet_refl|]. destruct x; [by apply drop_and_sleep_quiet|by apply attempted_quiet].
    + destruct (flock_convert d x tab) as [[c tab']|] eqn:E; [|intros; apply quiet_refl]. apply flock_convert_spec in E as (_ & Hs & _).
      destruct (flock_attempt d x tab') eqn:Ea; cbn; intros ->; rewrite (Hs eq_refl) in *; [by eapply flock_attempt_quiet|apply quiet_refl].
  - destruct (drop_flock d tab) as [[] tab'] eqn:E; [done|]. apply drop_flock_quiet in E as ->. intros; apply quiet_refl.
Qed.
Lemma call_quiet os c s : state_ok s → (call os c s).1 = false → quiet s.1 (call os c s).2.1.
Proof.
  destruct s as [tab ws]. intros [Hwf Hws]. cbn in Hwf, Hws. destruct c as [pid cmd arg t|d op|d x|i|i| |d]; cbn [call fst snd].
  - unfold fcntl. destruct (classify os cmd) as [[req ofd]|]; [|intros; apply quiet_refl]. cbn [mbind option_bind].
    destruct arg as [fl|]; [|intros; apply quiet_refl]. case_match; [intros; apply quiet_refl|].
    destruct (span fl t) as [e|[start end_]] eqn:Hs; [intros; apply quiet_refl|].
    apply span_nonempty in Hs. destruct (lock_kind (l_type fl)) as [kind|]; [|intros; apply quiet_refl].
    destruct req; [by destruct kind, (is_macos os); intros; apply quiet_refl|..]; (destruct (_ || _); [intros; apply quiet_refl|]); apply attempted_quiet; done || lia.
  - by apply flock_quiet.
  - unfold flock_begin. destruct (is_macos os); [by apply attempted_quiet|].
    destruct (flock_convert d x tab) as [[c tab']|] eqn:E; [|intros; apply quiet_refl]. apply flock_convert_spec in E as (_ & Hs & _). cbn. intros ->. rewrite (Hs eq_refl). apply quiet_refl.
  - destruct (ws !! i) as [w|] eqn:E; [|intros; apply quiet_refl]. apply (Forall_lookup_1 _ _ _ _ Hws) in E. destruct w as [o start end_ kind|d x|d]; cbn [retry].
    + by apply attempted_quiet.
    + destruct (flock_attempt d x tab) eqn:Ea; cbn; intros _; [by eapply flock_attempt_quiet|apply quiet_refl].
    + by apply drop_and_sleep_quiet.
  - intros; apply quiet_refl.
  - unfold release_process. cbn [fst snd]. intros H%negb_false_iff%Nat.eqb_eq.
    rewrite retain_all_length by done. destruct tab. apply quiet_refl.
  - unfold release_description. destruct (drop_flock d _) as [dropped tab'] eqn:E. simpl.
    intros [-> H%negb_false_iff%Nat.eqb_eq]%orb_false_iff. apply drop_flock_quiet in E as ->.
    rewrite retain_all_length by done. destruct tab. apply quiet_refl.
Qed.

(** no waiter is left asleep. A step that does not wake the waiters has let
    none of them in: every record request and every [flock] request that conflicted before it,
    whoever made it, still conflicts after it. *)
Theorem no_lost_wakeup (os : target_os) (cs : list lock_call) (c : lock_call) :
  let s := calls os cs locks_default in
  let '(woke, s') := call os c s in
  woke = false →
  (∀ o start end_ w, start < end_ → is_Some (conflict (records s.1) o start end_ w) →
     is_Some (conflict (records s'.1) o start end_ w)) ∧
  (∀ d x, flock_conflict (flocks s.1) d x = true → flock_conflict (flocks s'.1) d x = true).
Proof.
  cbn zeta. set (s := calls os cs locks_default).
  assert (state_ok s) as Hs by apply calls_ok, default_ok.
  pose proof (call_quiet os c s Hs) as Hq. pose proof (lock_call_ok os c s Hs) as [Hwf' _]. destruct Hs as [Hwf _].
  destruct (call os c s) as [woke s']. cbn [fst snd] in *. intros Hw.
  destruct (Hq Hw) as [Hr Hf]. split.
  - intros o start end_ w Hse. by apply conflict_no_weaker; [|apply Hwf|apply Hwf'|].
  - intros d x. unfold flock_conflict. rewrite !existsb_exists. intros (h & Hh & Hc). exists h.
    rewrite <- list_elem_of_In in *. auto.
Qed.

(** A description writes bytes 0 to 9; the process then read-locks 20 to 29 and wakes nobody. *)
Definition ofd_write : list lock_call :=
  [CallFcntl 1 F_OFD_SETLK (Some (mk_flock WrLck SeekSet 0 10 0)) (mk_target true true 0 100 3)].
Definition process_read : lock_call :=
  CallFcntl 1 F_SETLK (Some (mk_flock RdLck SeekSet 20 10 0)) (mk_target true true 0 100 3).

Lemma no_lost_wakeup_witness :
  let s := calls Linux ofd_write locks_default in
  let s' := (call Linux process_read s).2 in
  (call Linux process_read s).1 = false ∧ is_Some (conflict (records s.1) Process 5 6 false) ∧
  is_Some (conflict (records s'.1) Process 5 6 false).
Proof.
  pose proof (no_lost_wakeup Linux ofd_write process_read) as H. cbn zeta in *.
  assert ((call Linux process_read (calls Linux ofd_write locks_default)).1 = false) as E by reflexivity.
  destruct (call Linux process_read (calls Linux ofd_write locks_default)) as [woke s'].
  cbn [fst snd] in *. split; [exact E|].
  assert (is_Some (conflict (records (calls Linux ofd_write locks_default).1) Process 5 6 false)) as Hc
    by (eexists; reflexivity).
  split; [exact Hc|]. exact (proj1 (H E) Process 5 6 false eq_refl Hc).
Defined.

(** [span] names the range POSIX gives a [struct flock]: from [l_start] past the base,
    [l_len] bytes forward, [-l_len] bytes back from it, or to the end of any growth when it is 0.
    A range it accepts is nonempty, starts at a non-negative offset and fits the lock list. *)
Theorem span_names_range (fl : flock_arg) (t : target) (start end_ : Z) :
  span fl t = inr (start, end_) →
  ∃ base, base = match l_whence fl with
                 | SeekSet => 0 | SeekCur => wrap_i64 (cursor t) | _ => wrap_i64 (file_len t) end ∧
  let first := base + l_start fl in
  0 ≤ start < end_ ∧ end_ ≤ TO_END ∧ (end_ ≠ TO_END → end_ ≤ i64_max) ∧
  ∀ b, start ≤ b < end_ ↔
    (l_len fl = 0 ∧ first ≤ b < TO_END) ∨ (0 < l_len fl ∧ first ≤ b < first + l_len fl) ∨
    (l_len fl < 0 ∧ first + l_len fl ≤ b < first).
Proof.
  intros Hs. pose proof (span_nonempty _ _ _ _ Hs) as Hne. revert Hs. unfold span.
  destruct (match l_whence fl with SeekSet => Some 0 | _ => _ end) as [base|] eqn:Eb; [|done].
  intros Hs. exists base. split; [by destruct (l_whence fl); simplify_eq|]. cbn zeta.
  unfold checked_add_i64, in_i64 in Hs.
  destruct ((i64_min <=? base + l_start fl) && _) eqn:E1; [|done].
  apply andb_true_iff in E1 as [?%Z.leb_le ?%Z.leb_le].
  split; [tauto|]. split; [tauto|]. unfold TO_END in *.
  destruct (Z.eqb_spec (l_len fl) 0).
  { destruct (Z.ltb_spec (base + l_start fl) 0); [done|]. injection Hs as <- <-. simpl. split; [lia|].
    intros b. lia. }
  destruct (Z.ltb_spec 0 (l_len fl));
    destruct ((i64_min <=? base + l_start fl + l_len fl) && _) eqn:E2; try done;
    apply andb_true_iff in E2 as [?%Z.leb_le ?%Z.leb_le];
    (destruct (_ <? 0) eqn:E3; [done|]); apply Z.ltb_ge in E3; injection Hs as <- <-; simpl;
    (split; [lia|]); intros b; lia.
Qed.

Lemma span_names_range_witness :
  ∃ base, base = 0 ∧
    let first := base + 100 in
    0 ≤ 60 < 100 ∧ 100 ≤ TO_END ∧ (100 ≠ TO_END → 100 ≤ i64_max) ∧
    ∀ b, 60 ≤ b < 100 ↔
      (-40 = 0 ∧ first ≤ b < TO_END) ∨ (0 < -40 ∧ first ≤ b < first + -40) ∨ (-40 < 0 ∧ first + -40 ≤ b < first).
Proof.
  apply (span_names_range (mk_flock RdLck SeekSet 100 (-40) 0) (mk_target true true 5 100 3) 60 100).
  reflexivity.
Defined.
