(* ===== verification/FsPerm.v ===== *)
(** * File permissions

    Models crates/snare/src/fs_perm.rs: who the caller of a file call is, and what the mode bits,
    ownership, the sticky bit and set-group-ID directories let it do. Modes are the [u32]s of the
    source, written in hexadecimal (07777 is 0xfff); [!bits] is [Z.lnot] within the 32 bits the conjunction cuts it to. *)

From S2P Require Import Prelude.

Definition SET_UID : Z := 0x800.
Definition SET_GID : Z := 0x400.
Definition STICKY : Z := 0x200.
Definition GROUP_EXEC : Z := 0x8.
Definition ANY_EXEC : Z := 0x49.

Definition READ : Z := 4.
Definition WRITE : Z := 2.
Definition EXEC : Z := 1.

(** [Owner] *)
Record node := mk_node { mode : Z; n_uid : Z; n_gid : Z }.

(** [Kind] *)
Inductive kind := File | Directory | Symlink.

#[export] Instance kind_eq_dec : EqDecision kind.
Proof. solve_decision. Defined.

(** [Credentials] *)
Record credentials := mk_credentials {
  uid : Z;
  gid : Z;
  groups : list Z;
  privileged : bool;
  umask : Z;
}.

(** [mode & !bits] *)
Definition without (m bits : Z) : Z := Z.land m (Z.lnot bits).
(** [m & bits != 0] *)
Definition has (m bits : Z) : bool := negb (Z.land m bits =? 0).

Section perm.
Context (os : target_os).

(** [Credentials::in_group] *)
Definition in_group (c : credentials) (g : Z) : bool := bool_decide (g ∈ groups c).

(** [Credentials::permits] *)
Definition permits (c : credentials) (n : node) (k : kind) (want : Z) : bool :=
  if privileged c then
    (Z.land want EXEC =? 0) || bool_decide (k = Directory) || has (mode n) ANY_EXEC
  else
    let bits := if n_uid n =? uid c then Z.shiftr (mode n) 6
                else if in_group c (n_gid n) then Z.shiftr (mode n) 3
                else mode n in
    Z.land (Z.land bits 7) want =? want.

(** [Credentials::check] and [Credentials::search] *)
Definition check (c : credentials) (n : node) (k : kind) (want : Z) : errno + unit :=
  if permits c n k want then inr tt else inl EACCES.
Definition search (c : credentials) (n : node) : errno + unit := check c n Directory EXEC.

(** [Credentials::owns] *)
Definition owns (c : credentials) (n : node) : bool := privileged c || (n_uid n =? uid c).

(** [Credentials::may_remove] *)
Definition may_remove (c : credentials) (dir victim : node) : errno + unit :=
  match check c dir Directory (Z.lor WRITE EXEC) with
  | inl e => inl e
  | inr _ =>
      if has (mode dir) STICKY && negb (privileged c) && negb (n_uid victim =? uid c) &&
         negb (n_uid dir =? uid c)
      then inl EPERM else inr tt
  end.

(** [Credentials::create] *)
Definition create (c : credentials) (parent : node) (m : Z) (k : kind) : node :=
  if is_macos os then
    mk_node (match k with Symlink => without 0x1ff (umask c) | _ => Z.land m 0x1ff end)
      (uid c) (n_gid parent)
  else
    let inherits := has (mode parent) SET_GID in
    let g := if inherits then n_gid parent else gid c in
    let m := match k with
             | Symlink => 0x1ff
             | Directory =>
                 if inherits then Z.lor (Z.land m (Z.lor 0x1ff STICKY)) SET_GID
                 else Z.land m (Z.lor 0x1ff STICKY)
             | File =>
                 if inherits && (Z.land m (Z.lor SET_GID GROUP_EXEC) =? Z.lor SET_GID GROUP_EXEC) &&
                    negb (privileged c) && negb (in_group c g)
                 then without (Z.land m 0xfff) SET_GID
                 else Z.land m 0xfff
             end in
    mk_node m (uid c) g.

(** [Credentials::chmod] *)
Definition chmod (c : credentials) (n : node) (m : Z) : errno + node :=
  if negb (owns c n) then inl EPERM
  else
    let m := Z.land m 0xfff in
    let m := if negb (privileged c) && negb (in_group c (n_gid n)) then without m SET_GID else m in
    inr (mk_node m (n_uid n) (n_gid n)).

Definition named_id (x : Z) : option Z := if x =? u32_max then None else Some x.
Definition none_or (x : option Z) (p : Z → bool) : bool := match x with Some x => p x | None => true end.

(** Linux's removal of set-user-ID, and set-group-ID with group execute. *)
Definition kill_privs (m : Z) : Z :=
  let m := without m SET_UID in
  if has m GROUP_EXEC then without m SET_GID else m.

(** [Credentials::chown]: the node, and whether the call marks the change time. *)
Definition chown (c : credentials) (n : node) (k : kind) (u g : Z) : errno + (node * bool) :=
  let u := named_id u in
  let g := named_id g in
  let mine := n_uid n =? uid c in
  let allowed :=
    if is_macos os then
      none_or u (λ u, u =? n_uid n) && none_or g (λ g, (g =? n_gid n) || (mine && in_group c g))
    else
      none_or u (λ u, mine && (u =? n_uid n)) &&
      none_or g (λ g, mine && ((g =? n_gid n) || in_group c g)) in
  if negb (privileged c) && negb allowed then inl EPERM
  else
    let n := mk_node (mode n) (default (n_uid n) u) (default (n_gid n) g) in
    if is_macos os then
      let named := match u, g with None, None => false | _, _ => true end in
      let m := if named && negb (privileged c) then without (mode n) (Z.lor SET_UID SET_GID) else mode n in
      inr (mk_node m (n_uid n) (n_gid n), named)
    else
      let m := match k with Directory => mode n | _ => kill_privs (mode n) end in
      inr (mk_node m (n_uid n) (n_gid n), true).

(** [Credentials::wrote] *)
Definition wrote (c : credentials) (n : node) (truncate : bool) : node :=
  if privileged c then n
  else if is_macos os then
    if truncate then n else mk_node (without (mode n) (Z.lor SET_UID SET_GID)) (n_uid n) (n_gid n)
  else mk_node (kill_privs (mode n)) (n_uid n) (n_gid n).

(** [Credentials::set_times] *)
Definition set_times (c : credentials) (n : node) (k : kind) (explicit now : bool) : errno + unit :=
  if owns c n then inr tt
  else if explicit then inl EPERM
  else if now then check c n k WRITE
  else inr tt.

End perm.
