(* ===== verification/FsPermProps.v ===== *)
(** * What the file permissions promise

    The theorems about crates/snare/src/fs_perm.rs: a permission is what the caller's one class of
    mode bits grants, and no sequence of calls of an unprivileged caller takes it across an
    ownership boundary or gains it a set-ID bit it could not set. *)

From S2P Require Import Prelude FsPerm.

(** ** Bits *)

Lemma testbit_without m bits i : 0 ≤ i → Z.testbit (without m bits) i = Z.testbit m i && negb (Z.testbit bits i).
Proof. intros Hi. unfold without. by rewrite Z.land_spec, Z.lnot_spec. Qed.

(** A power of two has one bit. *)
Lemma testbit_pow2 k i : 0 ≤ k → Z.testbit (2 ^ k) i = (i =? k).
Proof.
  intros Hk. destruct (Z.eqb_spec i k) as [->|Hne]; [by apply Z.pow2_bits_true|].
  apply Z.pow2_bits_false. lia.
Qed.

Lemma has_bit m k : 0 ≤ k → has m (2 ^ k) = Z.testbit m k.
Proof.
  intros Hk. unfold has. destruct (Z.testbit m k) eqn:E.
  - apply negb_true_iff, Z.eqb_neq. intros H. apply (f_equal (λ x, Z.testbit x k)) in H.
    by rewrite Z.land_spec, testbit_pow2, Z.eqb_refl, E, Z.bits_0 in H.
  - apply negb_false_iff, Z.eqb_eq. apply Z.bits_inj'. intros i Hi.
    rewrite Z.land_spec, testbit_pow2, Z.bits_0 by done. destruct (Z.eqb_spec i k) as [->|]; [by rewrite E|].
    apply andb_false_r.
Qed.

(** The set-ID, sticky and group-execute bits of a mode. *)
Definition set_uid_bit (m : Z) : bool := Z.testbit m 11.
Definition set_gid_bit (m : Z) : bool := Z.testbit m 10.
Definition group_exec_bit (m : Z) : bool := Z.testbit m 3.

Lemma SET_UID_pow : SET_UID = 2 ^ 11. Proof. done. Qed.
Lemma SET_GID_pow : SET_GID = 2 ^ 10. Proof. done. Qed.
Lemma GROUP_EXEC_pow : GROUP_EXEC = 2 ^ 3. Proof. done. Qed.

Lemma kill_privs_bits m i : 0 ≤ i →
  Z.testbit (kill_privs m) i =
    Z.testbit m i && negb (i =? 11) && negb ((i =? 10) && group_exec_bit m).
Proof.
  intros Hi. unfold kill_privs, group_exec_bit. rewrite GROUP_EXEC_pow, has_bit by done.
  rewrite testbit_without by done. rewrite SET_UID_pow, testbit_pow2 by done.
  replace (3 =? 11) with false by done. rewrite andb_true_r.
  destruct (Z.testbit m 3).
  - rewrite !testbit_without by done. rewrite SET_GID_pow, !testbit_pow2 by done. by rewrite andb_true_r.
  - rewrite testbit_without by done. rewrite testbit_pow2 by done. rewrite andb_false_r. by rewrite andb_true_r.
Qed.

(** [want] of the low three bits is contained in [bits]. *)
Lemma land_contains bits want : 0 ≤ want < 8 →
  (Z.land (Z.land bits 7) want =? want) = true ↔
  ∀ i, 0 ≤ i < 3 → Z.testbit want i = true → Z.testbit bits i = true.
Proof.
  intros Hw. rewrite Z.eqb_eq. split.
  - intros H i Hi Hwi. rewrite <- H in Hwi. rewrite !Z.land_spec in Hwi.
    by apply andb_true_iff in Hwi as [[? _]%andb_true_iff _].
  - intros H. apply Z.bits_inj'. intros i Hi. rewrite !Z.land_spec.
    destruct (Z.testbit want i) eqn:E; [|apply andb_false_r]. rewrite andb_true_r.
    assert (i < 3) as Hi3.
    { destruct (Z.lt_ge_cases i 3); [done|]. rewrite Z.testbit_eqb in E by done.
      rewrite Z.div_small in E; [done|]. split; [lia|].
      apply (Z.lt_le_trans _ (2 ^ 3)); [lia|]. apply Z.pow_le_mono_r; lia. }
    rewrite H by done. change 7 with (Z.ones 3). by rewrite Z.ones_spec_low by lia.
Qed.

(** The class of mode bits that applies to a caller: 2 for the owner, 1 for the group, 0 for
    everyone else, each class at bit [3 * class]. *)
Definition class (c : credentials) (n : node) : Z :=
  if n_uid n =? uid c then 2 else if in_group c (n_gid n) then 1 else 0.

(** an unprivileged caller is granted exactly what its one class grants. [permits] holds iff
    every permission asked for is set in the bits of the caller's class (owner, then group, then
    other), so an owner denied by its own bits is not let in by the group's or the others'; and a
    privileged one is granted all but execute on a non-directory without any execute bit. *)
Theorem permits_by_class (c : credentials) (n : node) (k : kind) (want : Z) :
  0 ≤ want < 8 →
  permits c n k want = true ↔
  if privileged c
  then Z.testbit want 0 = true → k = Directory ∨ ∃ i, (i = 0 ∨ i = 3 ∨ i = 6) ∧ Z.testbit (mode n) i = true
  else ∀ i, 0 ≤ i < 3 → Z.testbit want i = true → Z.testbit (mode n) (i + 3 * class c n) = true.
Proof.
  intros Hw. unfold permits. destruct (privileged c).
  - rewrite !orb_true_iff, bool_decide_eq_true. unfold has.
    assert ((Z.land want EXEC =? 0) = negb (Z.testbit want 0)) as ->.
    { unfold EXEC. change 1 with (2 ^ 0). rewrite <- has_bit by done. unfold has. by rewrite negb_involutive. }
    assert (negb (Z.land (mode n) ANY_EXEC =? 0) = true ↔
            ∃ i, (i = 0 ∨ i = 3 ∨ i = 6) ∧ Z.testbit (mode n) i = true) as ->.
    { rewrite negb_true_iff, Z.eqb_neq. split.
      - intros H. destruct (Z.testbit (mode n) 0) eqn:E0; [exists 0; auto|].
        destruct (Z.testbit (mode n) 3) eqn:E3; [exists 3; auto|].
        destruct (Z.testbit (mode n) 6) eqn:E6; [exists 6; auto|]. exfalso. apply H.
        unfold ANY_EXEC. change 0x49 with (Z.lor (2 ^ 0) (Z.lor (2 ^ 3) (2 ^ 6))).
        apply Z.bits_inj'. intros i Hi. rewrite Z.land_spec, !Z.lor_spec, !testbit_pow2, Z.bits_0 by done.
        destruct (Z.eqb_spec i 0) as [->|]; [by rewrite E0|].
        destruct (Z.eqb_spec i 3) as [->|]; [by rewrite E3|].
        destruct (Z.eqb_spec i 6) as [->|]; [by rewrite E6|]. apply andb_false_r.
      - intros (i & Hi & Hm) H. apply (f_equal (λ x, Z.testbit x i)) in H.
        rewrite Z.land_spec, Hm, Z.bits_0 in H. by destruct Hi as [->|[->| ->]]. }
    destruct (Z.testbit want 0); simpl.
    + split; [intros [[H|H]|H] _; [done|by left|by right]|].
      intros H. destruct (H eq_refl); [by left; right|by right].
    + split; [done|]. intros _. by left; left.
  - rewrite land_contains by done. unfold class.
    destruct (n_uid n =? uid c), (in_group c (n_gid n));
      (split; intros H i Hi Hwi; specialize (H i Hi Hwi)); rewrite ?Z.shiftr_spec in * by lia; exact H ||
      (rewrite Z.add_0_r in *; exact H).
Qed.

Lemma permits_by_class_witness :
  permits (mk_credentials 1000 100 [100] false 0) (mk_node 0x38 1000 100) File READ = false ∧
  (permits (mk_credentials 1000 100 [100] false 0) (mk_node 0x38 1000 100) File READ = true ↔
   ∀ i, 0 ≤ i < 3 → Z.testbit READ i = true →
     Z.testbit 0x38 (i + 3 * class (mk_credentials 1000 100 [100] false 0) (mk_node 0x38 1000 100)) = true).
Proof.
  split; [reflexivity|].
  apply (permits_by_class (mk_credentials 1000 100 [100] false 0) (mk_node 0x38 1000 100) File READ).
  unfold READ. lia.
Defined.

(** ** What an unprivileged caller can do to a node *)

Inductive file_op := Chmod (m : Z) | Chown (k : kind) (u g : Z) | Wrote (truncate : bool).

(** The node after the call: unchanged when it fails. *)
Definition after_op (os : target_os) (c : credentials) (n : node) (o : file_op) : node :=
  match o with
  | Chmod m => match chmod c n m with inr n' => n' | inl _ => n end
  | Chown k u g => match chown os c n k u g with inr (n', _) => n' | inl _ => n end
  | Wrote t => wrote os c n t
  end.

Record confined (c : credentials) (n n' : node) : Prop := {
  same_owner : n_uid n' = n_uid n;
  own_group : n_gid n' ≠ n_gid n → n_uid n = uid c ∧ in_group c (n_gid n') = true;
  no_new_bits : n_uid n ≠ uid c → ∀ i, 0 ≤ i → Z.testbit (mode n') i = true → Z.testbit (mode n) i = true;
  own_set_gid : set_gid_bit (mode n') = true →
    (set_gid_bit (mode n) = true ∧ n_gid n' = n_gid n) ∨ in_group c (n_gid n') = true;
}.

Lemma confined_refl c n : confined c n n.
Proof. split; auto; done. Qed.

Lemma confined_trans c n1 n2 n3 : confined c n1 n2 → confined c n2 n3 → confined c n1 n3.
Proof.
  intros [Ho1 Hg1 Hb1 Hs1] [Ho2 Hg2 Hb2 Hs2]. rewrite Ho1 in *. split; [done| | |].
  - intros Hne. destruct (decide (n_gid n3 = n_gid n2)) as [E|E]; [rewrite E in *|]; auto.
  - auto.
  - intros H3. destruct (Hs2 H3) as [[H2 E]|?]; [|by right]. rewrite E in *. auto.
Qed.

Lemma without_incl m bits i : 0 ≤ i → Z.testbit (without m bits) i = true → Z.testbit m i = true.
Proof. intros Hi. rewrite testbit_without by done. by intros [? _]%andb_true_iff. Qed.

Lemma kill_privs_incl m i : 0 ≤ i → Z.testbit (kill_privs m) i = true → Z.testbit m i = true.
Proof. intros Hi. rewrite kill_privs_bits by done. by intros [[? _]%andb_true_iff _]%andb_true_iff. Qed.

(** A call that only takes mode bits away is confined. *)
Lemma confined_less c n m : (∀ i, 0 ≤ i → Z.testbit m i = true → Z.testbit (mode n) i = true) →
  confined c n (mk_node m (n_uid n) (n_gid n)).
Proof.
  intros H. split; simpl; [done|done|auto|]. intros Hs. left. split; [by apply H|done].
Qed.

Lemma chmod_confined c n m n' : privileged c = false → chmod c n m = inr n' → confined c n n'.
Proof.
  intros Hp. unfold chmod, owns. rewrite Hp. cbn [orb negb andb].
  destruct (Z.eqb_spec (n_uid n) (uid c)) as [Hu|]; [|done]. cbn [negb]. intros [= <-].
  split; simpl; try done. intros Hs. right. destruct (in_group c (n_gid n)); [done|]. exfalso. cbn [negb] in Hs.
  unfold set_gid_bit in Hs. rewrite testbit_without, SET_GID_pow, testbit_pow2 in Hs by done.
  by rewrite andb_false_r in Hs.
Qed.

Lemma chown_confined os c n k u g n' b : privileged c = false → chown os c n k u g = inr (n', b) →
  confined c n n'.
Proof.
  intros Hp. unfold chown. rewrite Hp. cbn [negb andb].
  set (allowed := if is_macos os then _ else _). destruct allowed eqn:Ha; [|done]. cbn [negb].
  set (u' := named_id u) in *. set (g' := named_id g) in *.
  assert (default (n_uid n) u' = n_uid n) as Hu.
  { subst allowed. destruct (is_macos os), u' as [x|]; simpl in *; try done;
      apply andb_true_iff in Ha as [Ha _]; [|apply andb_true_iff in Ha as [_ Ha]]; by apply Z.eqb_eq. }
  assert (default (n_gid n) g' ≠ n_gid n → n_uid n = uid c ∧ in_group c (default (n_gid n) g') = true) as Hg.
  { subst allowed. intros Hne. destruct g' as [x|]; [|done]. simpl in *.
    assert ((n_uid n =? uid c) && in_group c x = true) as [?%Z.eqb_eq ?]%andb_true_iff; [|done].
    apply Z.eqb_neq in Hne. destruct (is_macos os); apply andb_true_iff in Ha as [_ Ha];
      by rewrite Hne in Ha. }
  assert (∀ m, (∀ i, 0 ≤ i → Z.testbit m i = true → Z.testbit (mode n) i = true) →
    confined c n (mk_node m (default (n_uid n) u') (default (n_gid n) g'))) as Hc.
  { intros m Hm. split; simpl; [done|done|auto|]. intros Hs.
    destruct (decide (default (n_gid n) g' = n_gid n)) as [E|E]; [left|right; by apply Hg].
    split; [|done]. by apply Hm. }
  destruct (is_macos os).
  - intros [= <- <-]. apply Hc. intros i Hi. repeat case_match; try done; by apply without_incl.
  - intros [= <- <-]. apply Hc. intros i Hi. destruct k; try done; by apply kill_privs_incl.
Qed.

Lemma wrote_confined os c n t : confined c n (wrote os c n t).
Proof.
  unfold wrote. destruct (privileged c); [apply confined_refl|].
  destruct (is_macos os).
  - destruct t; [apply confined_refl|]. apply confined_less. intros i Hi. by apply without_incl.
  - apply confined_less. intros i Hi. by apply kill_privs_incl.
Qed.

Lemma after_op_confined os c n o : privileged c = false → confined c n (after_op os c n o).
Proof.
  intros Hp. destruct o as [m|k u g|t]; simpl.
  - destruct (chmod c n m) eqn:E; [apply confined_refl|by eapply chmod_confined].
  - destruct (chown os c n k u g) as [|[n' b]] eqn:E; [apply confined_refl|by eapply chown_confined].
  - apply wrote_confined.
Qed.

(** an unprivileged caller stays within its rights. After any sequence of its [chmod]s,
    [chown]s and writes on a node, on either host: the node's user is the one it had; its group is
    the one it had, or, on a node the caller owns, one the caller is in; a node of another user has
    gained no mode bit; and a set-group-ID bit the node has is the one it had on the same group, or
    is for a group the caller is in. *)
Theorem unprivileged_confined (os : target_os) (c : credentials) (n : node) (ops : list file_op) :
  privileged c = false →
  let n' := foldl (after_op os c) n ops in
  n_uid n' = n_uid n ∧
  (n_gid n' ≠ n_gid n → n_uid n = uid c ∧ in_group c (n_gid n') = true) ∧
  (n_uid n ≠ uid c → ∀ i, 0 ≤ i → Z.testbit (mode n') i = true → Z.testbit (mode n) i = true) ∧
  (set_gid_bit (mode n') = true →
     (set_gid_bit (mode n) = true ∧ n_gid n' = n_gid n) ∨ in_group c (n_gid n') = true).
Proof.
  intros Hp. cbn zeta. enough (confined c n (foldl (after_op os c) n ops)) as [] by done.
  revert n. induction ops as [|o ops IH]; intros n; [apply confined_refl|]. simpl.
  eapply confined_trans; [by apply after_op_confined|apply IH].
Qed.

Lemma unprivileged_confined_witness :
  let c := mk_credentials 1000 100 [100; 200] false 0 in
  let n' := foldl (after_op Linux c) (mk_node 0x1ed 1000 100) [Chmod 0x5ff; Chown Directory u32_max 200] in
  n' = mk_node 0x5ff 1000 200 ∧ n_uid n' = 1000.
Proof.
  cbn zeta. split; [vm_compute; reflexivity|].
  refine (proj1 (unprivileged_confined Linux (mk_credentials 1000 100 [100; 200] false 0)
    (mk_node 0x1ed 1000 100) [Chmod 0x5ff; Chown Directory u32_max 200] _)). reflexivity.
Defined.

(** a new node is its creator's. [create] gives it the caller's uid, the caller's or the
    parent's group and no mode bit the caller did not ask for (but a directory's inherited
    set-group-ID bit, and a symlink's own mode); and an unprivileged caller, a member of its own
    group, never creates a group-executable set-group-ID file of a group it is not in. *)
Theorem create_confined (os : target_os) (c : credentials) (parent : node) (m : Z) (k : kind) :
  in_group c (gid c) = true →
  let n := create os c parent m k in
  n_uid n = uid c ∧ (n_gid n = gid c ∨ n_gid n = n_gid parent) ∧
  (k ≠ Symlink → ∀ i, 0 ≤ i → Z.testbit (mode n) i = true →
     Z.testbit m i = true ∨ (k = Directory ∧ i = 10 ∧ set_gid_bit (mode parent) = true)) ∧
  (privileged c = false → k = File → set_gid_bit (mode n) = true → group_exec_bit (mode n) = true →
     in_group c (n_gid n) = true).
Proof.
  intros Hg. cbn zeta. unfold create. destruct (is_macos os).
  { split; [done|split; [by right|split]].
    - intros Hk i Hi. destruct k; [| |done]; simpl; rewrite Z.land_spec;
        (intros [? _]%andb_true_iff; by left).
    - intros _ -> Hs. exfalso. cbn [mode] in Hs. unfold set_gid_bit in Hs. rewrite Z.land_spec in Hs.
      by rewrite andb_false_r in Hs. }
  rewrite SET_GID_pow, has_bit by done. fold (set_gid_bit (mode parent)).
  assert (∀ a b i, Z.testbit (Z.land a b) i = true → Z.testbit a i = true) as Hl.
  { intros a b i. rewrite Z.land_spec. by intros [? _]%andb_true_iff. }
  split; [done|]. cbn [n_uid n_gid mode].
  split; [destruct (set_gid_bit (mode parent)); auto|]. split.
  - intros Hk i Hi. destruct k; [|destruct (set_gid_bit (mode parent)) eqn:E|done].
    + intros Hm. left. destruct (_ && negb (in_group c _)); [|eauto]. apply without_incl in Hm; eauto.
    + rewrite Z.lor_spec, testbit_pow2 by done. intros [?|?%Z.eqb_eq]%orb_true_iff; eauto.
    + eauto.
  - intros Hp -> Hs He. destruct (set_gid_bit (mode parent)) eqn:Ei; [|done]. cbn [andb] in *.
    rewrite Hp in *. cbn [negb] in *. rewrite andb_true_r in *.
    destruct (in_group c (n_gid parent)) eqn:Eg; [done|]. exfalso. cbn [negb] in *. rewrite andb_true_r in *.
    destruct (Z.land m (Z.lor (2 ^ 10) GROUP_EXEC) =? Z.lor (2 ^ 10) GROUP_EXEC) eqn:E.
    + unfold set_gid_bit in Hs. rewrite testbit_without, testbit_pow2 in Hs by done. by rewrite andb_false_r in Hs.
    + apply Z.eqb_neq in E. apply E. unfold set_gid_bit, group_exec_bit in *.
      rewrite Z.land_spec in Hs, He. apply andb_true_iff in Hs as [Hs _], He as [He _].
      apply Z.bits_inj'. intros i Hi. rewrite Z.land_spec, Z.lor_spec, GROUP_EXEC_pow, !testbit_pow2 by done.
      destruct (Z.eqb_spec i 10) as [->|]; [by rewrite Hs|].
      destruct (Z.eqb_spec i 3) as [->|]; [by rewrite He|]. apply andb_false_r.
Qed.

Lemma create_confined_witness :
  let c := mk_credentials 1000 100 [100] false 0x12 in
  create Linux c (mk_node 0x5ed 0 50) 0x5ed File = mk_node 0x1ed 1000 50 ∧
  n_uid (create Linux c (mk_node 0x5ed 0 50) 0x5ed File) = 1000.
Proof.
  cbn zeta. split; [vm_compute; reflexivity|].
  refine (proj1 (create_confined Linux (mk_credentials 1000 100 [100] false 0x12) (mk_node 0x5ed 0 50)
    0x5ed File _)). reflexivity.
Defined.
