(* ===== verification/Transport.v ===== *)
(** * The TCP byte transport

    Models crates/snare/src/tcp_transport.rs: one direction of a TCP connection, from the writes
    queued by the sender, cut into segments the receiver's window allows, to the window the
    receiver advertises as bytes arrive. A [usize] is 64 bits wide; the loops that drain the queue
    and pick the window scale recurse on the queue and on the scale's seven steps. *)

From S2P Require Import Prelude.

Section transport.
Context {B : Type}.

(** [Segment] *)
Record segment := mk_segment { seg_bytes : list B; seg_mss : Z; seg_end : Z }.

(** [TcpTransport] *)
Record transport := mk_transport {
  pending : list (list B);
  offset : nat;
  written : Z;
  transmitted : Z;
  received : Z;
  window_end : Z;
  advertised : Z;
  max_window : Z;
  buffer : Z;
  ratio : Z;
  threshold : Z;
  clamp : Z;
  receive_mss : Z;
  advmss : Z;
  initial_mss : Z;
  initial_goal : Z;
  initial_pushes : Z;
  scale : Z;
  gso_max : Z;
  cwnd : Z;
}.

(** The loop of [TcpTransport::new] that picks the window scale: at most seven doublings. *)
Fixpoint window_scale (fuel : nat) (buffer scale : Z) : Z :=
  match fuel with
  | O => scale
  | S fuel =>
      if (65535 <? buffer / 2 / scale) && (scale <? 128) then window_scale fuel buffer (scale * 2)
      else scale
  end.

(** [TcpTransport::new] *)
Definition new (buffer mtu : Z) (v6 : bool) (gso_size : Z) : transport :=
  let header := if v6 then 72 else 52 in
  let advmss := Z.max (sat_sub (Z.min mtu 65535) header) 1 in
  let gso_max := Z.max (sat_sub gso_size header) advmss in
  let space := buffer / 2 in
  let advertised := if advmss <? space then space / advmss * advmss else space in
  let advertised := Z.min advertised 65535 in
  let scale := window_scale 8 buffer 1 in
  let initial_mss := Z.min advmss (Z.max (advertised / 2) 1) in
  let initial_goal := initial_mss * Z.max (Z.min gso_max (advertised / 2) / initial_mss) 1 in
  mk_transport [] 0 0 0 0 advertised advertised advertised buffer 128 space space
    (Z.min initial_goal 536) advmss initial_mss initial_goal 2 scale gso_max 10.

Definition set_queue (p : list (list B)) (o : nat) (t : transport) : transport :=
  mk_transport p o (written t) (transmitted t) (received t) (window_end t) (advertised t)
    (max_window t) (buffer t) (ratio t) (threshold t) (clamp t) (receive_mss t) (advmss t)
    (initial_mss t) (initial_goal t) (initial_pushes t) (scale t) (gso_max t) (cwnd t).
Definition set_counts (w x : Z) (t : transport) : transport :=
  mk_transport (pending t) (offset t) w x (received t) (window_end t) (advertised t)
    (max_window t) (buffer t) (ratio t) (threshold t) (clamp t) (receive_mss t) (advmss t)
    (initial_mss t) (initial_goal t) (initial_pushes t) (scale t) (gso_max t) (cwnd t).
Definition set_pushes (n : Z) (t : transport) : transport :=
  mk_transport (pending t) (offset t) (written t) (transmitted t) (received t) (window_end t)
    (advertised t) (max_window t) (buffer t) (ratio t) (threshold t) (clamp t) (receive_mss t)
    (advmss t) (initial_mss t) (initial_goal t) n (scale t) (gso_max t) (cwnd t).
Definition set_window (we adv mw : Z) (t : transport) : transport :=
  mk_transport (pending t) (offset t) (written t) (transmitted t) (received t) we adv mw
    (buffer t) (ratio t) (threshold t) (clamp t) (receive_mss t) (advmss t) (initial_mss t)
    (initial_goal t) (initial_pushes t) (scale t) (gso_max t) (cwnd t).
Definition set_estimate (rcv r th cl rm : Z) (t : transport) : transport :=
  mk_transport (pending t) (offset t) (written t) (transmitted t) rcv (window_end t)
    (advertised t) (max_window t) (buffer t) r th cl rm (advmss t) (initial_mss t)
    (initial_goal t) (initial_pushes t) (scale t) (gso_max t) (cwnd t).

(** [TcpTransport::pending_bytes] *)
Definition pending_bytes (t : transport) : Z :=
  Z.of_nat (sum_list (length <$> pending t)) - Z.of_nat (offset t).

(** [TcpTransport::push] *)
Definition push (bytes : list B) (t : transport) : transport :=
  set_counts (written t + Z.of_nat (length bytes)) (transmitted t)
    (set_queue (pending t ++ [bytes]) (offset t) t).

Definition current_mss (t : transport) : Z := Z.min (advmss t) (Z.max (max_window t / 2) 1).

(** [TcpTransport::direct] *)
Definition direct (len : Z) (t : transport) : option Z * transport :=
  let mss := current_mss t in
  if match pending t with [] => false | _ => true end || (mss <? len) ||
     (sat_sub (window_end t) (transmitted t) <? len)
  then (None, t)
  else (Some mss, set_counts (written t + len) (transmitted t + len) t).

(** The loop of [TcpTransport::next]: [n] bytes off the front of the queue; [None] stands for the
    panic on an empty queue. *)
Fixpoint take_queue (n : nat) (queue : list (list B)) (off : nat)
    : option (list B * list (list B) * nat) :=
  if (n =? 0)%nat then Some ([], queue, off)
  else match queue with
  | [] => None
  | front :: rest =>
      let take_ := Nat.min n (length front - off) in
      let part := take take_ (drop off front) in
      if (off + take_ =? length front)%nat then
        '(bytes, queue, off) ← take_queue (n - take_) rest 0;
        Some (part ++ bytes, queue, off)
      else Some (part, queue, off + take_)%nat
  end.

(** The number of bytes the next segment carries, with its segment size, and whether it uses up
    one of the initial pushes. *)
Definition next_size (t : transport) (available pending_ : Z) : Z * Z * bool :=
  let mss := current_mss t in
  let initial := (0 <? initial_pushes t) && (initial_goal t <? pending_) in
  let goal := if initial then initial_goal t
              else mss * Z.min (Z.max (gso_max t / mss) 1) (Z.max (cwnd t / 2) 1) in
  let packet_mss := if initial then initial_mss t else mss in
  (Z.min (Z.min (Z.min goal (packet_mss * Z.max (cwnd t / 2) 1)) available) pending_,
   packet_mss, initial).

(** [TcpTransport::next]; the outer [None] is the loop's panic. *)
Definition next (t : transport) : option (option segment * transport) :=
  let available := sat_sub (window_end t) (transmitted t) in
  if available =? 0 then Some (None, t)
  else
    let pending_ := pending_bytes t in
    if pending_ =? 0 then Some (None, t)
    else
      let '(n, mss, initial) := next_size t available pending_ in
      '(bytes, queue, off) ← take_queue (Z.to_nat n) (pending t) (offset t);
      let t := if initial then set_pushes (initial_pushes t - 1) t else t in
      let t := set_counts (written t) (transmitted t + n) (set_queue queue off t) in
      Some (Some (mk_segment bytes mss (transmitted t)), t).

(** [TcpTransport::advertise] *)
Definition advertise (memory : Z) (t : transport) : transport :=
  let allowed := sat_mul (buffer t) (ratio t) / 256 in
  let full := Z.min (clamp t) allowed in
  let mss := Z.max (Z.min (receive_mss t) full) 1 in
  let free := sat_sub (buffer t) memory * ratio t / 256 in
  let free := if (free <? full / 2) && ((free <? allowed / 16) || (free <? mss)) then 0 else free in
  let free := Z.min free (threshold t) in
  let window := if 1 <? scale t then div_ceil free (scale t) * scale t
                else if (free <? advertised t) || (advertised t <=? sat_sub free mss)
                then free / mss * mss
                else advertised t in
  let end_ := received t + window in
  let we := if Z.max (Z.min mss (allowed / 2)) 1 <=? sat_sub end_ (window_end t) then end_
            else window_end t in
  let adv := sat_sub we (received t) in
  set_window we adv (Z.max (max_window t) adv) t.

(** [TcpTransport::arrive] *)
Definition arrive (len mss memory head : Z) (t : transport) : transport :=
  let measured := Z.min len mss in
  let '(r, cl, rm) :=
    if receive_mss t <=? measured then
      let '(r, cl) := if measured =? receive_mss t then (ratio t, clamp t)
                      else let r := Z.max (sat_mul len 256 / (len + head)) 1 in
                           (r, sat_mul (buffer t) r / 256) in
      (r, cl, Z.min measured (advmss t))
    else (ratio t, clamp t, receive_mss t) in
  let th := if 128 <=? len then
              let free := sat_sub (buffer t) memory * r / 256 in
              let room := sat_sub (Z.min cl free) (threshold t) in
              threshold t + Z.min room (Z.max (2 * advmss t) (2 * len))
            else threshold t in
  let t' := set_estimate (received t + len) r th cl rm t in
  if negb (rm =? receive_mss t) || negb (th =? threshold t) then advertise memory t'
  else set_window (window_end t) (sat_sub (window_end t) (received t + len)) (max_window t) t'.

End transport.

Arguments transport : clear implicits.
Arguments segment : clear implicits.
