(* ===== verification/TransportProps.v ===== *)
(** * What the TCP transport promises

    The theorems about crates/snare/src/tcp_transport.rs: the segments are the bytes written, in
    order and without loss or repetition; they stay within a window that is never taken back; and
    what the window allows is sent. *)

From S2P Require Import Prelude Transport.

Section props.
Context {B : Type}.
Implicit Types (t : transport B) (q : list (list B)).

(** The bytes queued and not yet sent. *)
Definition queued t : list B := drop (offset t) (concat (pending t)).

Definition offset_ok q (off : nat) : Prop :=
  match q with [] => off = 0%nat | front :: _ => (off ≤ length front)%nat end.

Lemma sum_length_concat q : sum_list (length <$> q) = length (concat q).
Proof. induction q as [|x q IH]; [done|]. csimpl. by rewrite length_app, IH. Qed.

Lemma offset_ok_le q off : offset_ok q off → (off ≤ length (concat q))%nat.
Proof. destruct q as [|x q]; simpl; intros Ho; [lia|]. rewrite length_app. lia. Qed.

Lemma pending_bytes_queued t : offset_ok (pending t) (offset t) →
  pending_bytes t = Z.of_nat (length (queued t)).
Proof.
  intros Ho%offset_ok_le. unfold pending_bytes, queued. rewrite sum_length_concat, length_drop. lia.
Qed.

(** The loop of [next] takes the first [n] bytes queued and leaves the rest. *)
Lemma take_queue_spec n q off : offset_ok q off → (n ≤ length (drop off (concat q)))%nat →
  ∃ q' off', take_queue n q off = Some (take n (drop off (concat q)), q', off') ∧
    drop off' (concat q') = drop n (drop off (concat q)) ∧ offset_ok q' off'.
Proof.
  revert n off. induction q as [|front rest IH]; intros n off Ho Hn.
  - simpl concat in *. rewrite drop_nil in *. destruct n; [|simpl in Hn; lia].
    exists [], off. simpl. by rewrite drop_nil.
  - cbn [take_queue]. destruct (Nat.eqb_spec n 0) as [->|Hz].
    { exists (front :: rest), off. done. }
    simpl in Ho, Hn. simpl concat in *. rewrite drop_app_le in * by done.
    rewrite length_app, length_drop in Hn.
    set (m := Nat.min n (length front - off)).
    assert (m = Nat.min n (length front - off)) as Hdef by done. clearbody m. destruct (Nat.eqb_spec (off + m) (length front)) as [He|He].
    + assert (m = length front - off)%nat as Hm by lia.
      destruct (IH (n - m)%nat 0%nat) as (q' & off' & Ht & Hd & Hok).
      { by destruct rest; simpl; lia. }
      { rewrite drop_0. lia. }
      rewrite drop_0 in *. rewrite Ht. simpl. exists q', off'.
      rewrite (take_app_ge (drop off front)) by (rewrite length_drop; lia).
      rewrite (drop_app_ge (drop off front)) by (rewrite length_drop; lia).
      rewrite length_drop, Hd, (take_ge (drop off front)) by (rewrite length_drop; lia).
      by replace (n - (length front - off))%nat with (n - m)%nat by lia.
    + assert (m = n) as -> by lia. exists (front :: rest), (off + n)%nat.
      rewrite take_app_le by (rewrite length_drop; lia). split; [done|]. simpl concat.
      rewrite drop_app_le by lia. rewrite drop_app_le by (rewrite length_drop; lia).
      rewrite drop_drop. simpl. split; [done|]. lia.
Qed.

(** What every operation keeps. *)
Record transport_wf t : Prop := {
  wf_offset : offset_ok (pending t) (offset t);
  wf_sent : 0 ≤ transmitted t ≤ window_end t;
  wf_advmss : 1 ≤ advmss t;
  wf_initial : 1 ≤ initial_mss t ∧ 1 ≤ initial_goal t;
  wf_cwnd : cwnd t = 10;
}.

Lemma current_mss_pos t : transport_wf t → 1 ≤ current_mss t ≤ advmss t.
Proof. intros []. unfold current_mss. lia. Qed.

Lemma next_size_pos t available p : transport_wf t → 0 < available → 0 < p →
  1 ≤ (next_size t available p).1.1 ∧ (next_size t available p).1.1 ≤ available ∧
  (next_size t available p).1.1 ≤ p.
Proof.
  intros Hwf Ha Hp. pose proof (current_mss_pos t Hwf) as [Hm _]. destruct Hwf as [_ _ _ [Hi Hg] Hc].
  unfold next_size. cbn [fst snd]. rewrite Hc. change (10 / 2) with 5.
  assert (1 ≤ current_mss t * Z.min (Z.max (gso_max t / current_mss t) 1) (Z.max 5 1)) by nia.
  destruct (_ && _); lia.
Qed.

(** [next] never panics; it sends nothing only when the window is used up or nothing is queued,
    and else the next bytes queued, at least one and within the window. *)
Lemma next_spec t : transport_wf t →
  ∃ r t', next t = Some (r, t') ∧ transport_wf t' ∧ window_end t' = window_end t ∧ written t' = written t ∧
  match r with
  | None => t' = t ∧ (transmitted t = window_end t ∨ queued t = [])
  | Some s =>
      queued t = seg_bytes s ++ queued t' ∧ seg_bytes s ≠ [] ∧ seg_end s = transmitted t' ∧
      transmitted t' = transmitted t + Z.of_nat (length (seg_bytes s))
  end.
Proof.
  intros Hwf. pose proof Hwf as [Ho Hs Hm Hi Hc]. pose proof (pending_bytes_queued t Ho) as Hp.
  unfold next. destruct (Z.eqb_spec (sat_sub (window_end t) (transmitted t)) 0) as [Hw|Hw].
  { eexists _, _. split; [done|]. split_and!; try done. left. lia. }
  destruct (Z.eqb_spec (pending_bytes t) 0) as [Hz|Hz].
  { eexists _, _. split; [done|]. split_and!; try done. right. destruct (queued t); [done|]. simpl in Hp. lia. }
  pose proof (next_size_pos t (sat_sub (window_end t) (transmitted t)) (pending_bytes t) Hwf
    ltac:(lia) ltac:(lia)) as (H1 & H2 & H3).
  destruct (next_size t _ _) as [[n mss] initial]. cbn [fst] in *.
  destruct (take_queue_spec (Z.to_nat n) (pending t) (offset t) Ho) as (q' & off' & Ht & Hd & Hok).
  { fold (queued t). lia. }
  rewrite Ht. simpl. fold (queued t) in *. eexists _, _. split; [done|]. cbn [seg_bytes seg_end].
  assert (length (take (Z.to_nat n) (queued t)) = Z.to_nat n) as Hlen by (rewrite length_take; lia).
  split; [|split; [by destruct initial|split; [by destruct initial|]]].
  - destruct initial; (split; [done|simpl; lia|done..]).
  - split; [|split; [|split; [done|]]].
    + unfold queued at 3. transitivity (take (Z.to_nat n) (queued t) ++ drop (Z.to_nat n) (queued t));
        [by rewrite take_drop|]. f_equal. rewrite <- Hd. by destruct initial.
    + intros E. rewrite E in Hlen. simpl in Hlen. lia.
    + rewrite Hlen, Z2Nat.id by lia. by destruct initial.
Qed.

(** The window's end moves only forward. *)
Lemma reopened x e w : w ≤ (if Z.max x 1 <=? sat_sub e w then e else w).
Proof. destruct (Z.leb_spec (Z.max x 1) (sat_sub e w)); lia. Qed.

Lemma advertise_spec m t : transport_wf t →
  transport_wf (advertise m t) ∧ window_end t ≤ window_end (advertise m t) ∧
  queued (advertise m t) = queued t ∧ transmitted (advertise m t) = transmitted t ∧
  written (advertise m t) = written t.
Proof.
  intros [Ho Hs Hm Hi Hc]. unfold advertise. set (we := if _ <=? _ then _ else _).
  assert (window_end t ≤ we) by apply reopened.
  split; [|done]. split; simpl; try done. lia.
Qed.

Lemma arrive_spec len mss m h t : transport_wf t →
  transport_wf (arrive len mss m h t) ∧ window_end t ≤ window_end (arrive len mss m h t) ∧
  queued (arrive len mss m h t) = queued t ∧ transmitted (arrive len mss m h t) = transmitted t ∧
  written (arrive len mss m h t) = written t.
Proof.
  intros Hwf. unfold arrive.
  destruct (if receive_mss t <=? Z.min len mss then _ else _) as [[r cl] rm].
  set (th := if 128 <=? len then _ else _).
  assert (transport_wf (set_estimate (received t + len) r th cl rm t)) as Hwf' by by destruct Hwf.
  destruct (_ || _).
  - exact (advertise_spec m _ Hwf').
  - split; [by destruct Hwf|]. simpl. split; [lia|done].
Qed.

(** ** Any sequence of operations *)

Inductive tcp_op :=
  | TPush (bytes : list B)
  | TDirect (bytes : list B)
  | TNext
  | TArrive (len mss memory head : Z)
  | TAdvertise (memory : Z).

(** The bytes the operation took from the writer and those it put on the wire. *)
Definition tcp_step (o : tcp_op) t : option (list B * list B * transport B) :=
  match o with
  | TPush bytes => Some (bytes, [], push bytes t)
  | TDirect bytes =>
      match direct (Z.of_nat (length bytes)) t with
      | (Some _, t) => Some (bytes, bytes, t)
      | (None, t) => Some ([], [], t)
      end
  | TNext => '(s, t) ← next t;
             Some ([], match s with Some s => seg_bytes s | None => [] end, t)
  | TArrive len mss memory head => Some ([], [], arrive len mss memory head t)
  | TAdvertise memory => Some ([], [], advertise memory t)
  end.

Fixpoint tcp_run (ops : list tcp_op) t : option (list B * list B * transport B) :=
  match ops with
  | [] => Some ([], [], t)
  | o :: ops =>
      '(a, w, t) ← tcp_step o t;
      '(a', w', t) ← tcp_run ops t;
      Some (a ++ a', w ++ w', t)
  end.

Lemma queued_push bytes t : offset_ok (pending t) (offset t) →
  queued (push bytes t) = queued t ++ bytes.
Proof.
  intros Ho%offset_ok_le. unfold queued, push. simpl. rewrite concat_app. simpl. rewrite app_nil_r.
  by rewrite drop_app_le.
Qed.

Lemma tcp_step_spec o t : transport_wf t → ∃ a w t', tcp_step o t = Some (a, w, t') ∧
  transport_wf t' ∧ window_end t ≤ window_end t' ∧ queued t ++ a = w ++ queued t' ∧
  transmitted t' = transmitted t + Z.of_nat (length w) ∧ written t' = written t + Z.of_nat (length a).
Proof.
  intros Hwf. destruct o as [bytes|bytes| |len mss m h|m]; simpl.
  - eexists _, _, _. split; [done|]. destruct Hwf as [Ho Hs Hm Hi Hc]. split.
    { split; simpl; try done. destruct (pending t); simpl in *; [lia|done]. }
    rewrite queued_push by done. simpl. split; [lia|]. split; [done|]. lia.
  - unfold direct. destruct (pending t) as [|x q] eqn:Eq; simpl.
    + destruct (Z.ltb_spec (current_mss t) (Z.of_nat (length bytes))); simpl.
      { eexists _, _, _. split; [done|]. rewrite app_nil_r. simpl. split_and!; try done; lia. }
      destruct (Z.ltb_spec (sat_sub (window_end t) (transmitted t)) (Z.of_nat (length bytes))).
      { eexists _, _, _. split; [done|]. rewrite app_nil_r. simpl. split_and!; try done; lia. }
      eexists _, _, _. split; [done|]. destruct Hwf as [Ho Hs Hm Hi Hc]. split; [split; simpl; done || lia|].
      unfold queued. simpl. rewrite Eq. simpl. rewrite !drop_nil, app_nil_r. split_and!; done || lia.
    + eexists _, _, _. split; [done|]. rewrite app_nil_r. simpl. split_and!; try done; lia.
  - destruct (next_spec t Hwf) as (r & t' & Hn & Hwf' & Hwe & Hwr & Hr). rewrite Hn. simpl.
    eexists _, _, _. split; [done|]. split; [done|]. rewrite Hwe, Hwr, app_nil_r. split; [lia|].
    destruct r as [s|].
    + destruct Hr as (Hq & _ & _ & Ht). split; [done|]. simpl. split; [done|lia].
    + destruct Hr as [-> _]. simpl. split; [done|]. lia.
  - destruct (arrive_spec len mss m h t Hwf) as (? & ? & Hq & Ht & Hw). eexists _, _, _. split; [done|].
    rewrite Hq, Ht, Hw, app_nil_r. simpl. split_and!; try done; lia.
  - destruct (advertise_spec m t Hwf) as (? & ? & Hq & Ht & Hw). eexists _, _, _. split; [done|].
    rewrite Hq, Ht, Hw, app_nil_r. simpl. split_and!; try done; lia.
Qed.

Lemma tcp_run_spec ops t : transport_wf t → ∃ a w t', tcp_run ops t = Some (a, w, t') ∧
  transport_wf t' ∧ window_end t ≤ window_end t' ∧ queued t ++ a = w ++ queued t' ∧
  transmitted t' = transmitted t + Z.of_nat (length w) ∧ written t' = written t + Z.of_nat (length a).
Proof.
  revert t. induction ops as [|o ops IH]; intros t Hwf.
  - eexists _, _, _. split; [done|]. simpl. rewrite app_nil_r. split_and!; try done; lia.
  - destruct (tcp_step_spec o t Hwf) as (a & w & t1 & Hs & Hwf1 & Hwe & Hq & Ht & Hw).
    destruct (IH t1 Hwf1) as (a' & w' & t2 & Hr & Hwf2 & Hwe2 & Hq2 & Ht2 & Hw2).
    simpl. rewrite Hs. simpl. rewrite Hr. simpl. eexists _, _, _. split; [done|].
    split; [done|]. split; [lia|]. rewrite !length_app. split; [|lia].
    by rewrite app_assoc, Hq, <- app_assoc, Hq2, app_assoc.
Qed.

Lemma window_scale_pos fuel b s : 1 ≤ s → 1 ≤ window_scale fuel b s.
Proof.
  revert s. induction fuel as [|fuel IH]; intros s Hs; simpl; [done|]. destruct (_ && _); [|done].
  apply IH. lia.
Qed.

Lemma transport_new_wf buffer mtu v6 gso : 0 ≤ buffer → transport_wf (new buffer mtu v6 gso : transport B).
Proof.
  intros Hb. unfold new.
  set (advmss := Z.max (sat_sub (Z.min mtu 65535) (if v6 then 72 else 52)) 1).
  assert (1 ≤ advmss) by lia. pose proof (Z.div_pos buffer 2 Hb ltac:(lia)) as Hsp.
  assert (0 ≤ Z.min (if advmss <? buffer / 2 then buffer / 2 / advmss * advmss else buffer / 2) 65535).
  { destruct (_ <? _); [|lia]. pose proof (Z.div_pos (buffer / 2) advmss Hsp ltac:(lia)). nia. }
  split; simpl; try done; try lia; nia.
Qed.

End props.

Arguments tcp_op : clear implicits.

(** the stream is what was written. From a fresh transport, over any sequence of writes,
    direct sends, segments, arrivals and window updates, nothing panics; the bytes put on the wire,
    in order, followed by those still queued, are exactly the bytes taken from the writer, in order;
    and the two counters are their lengths. *)
Theorem stream_intact {B} (buffer mtu gso : Z) (v6 : bool) (ops : list (tcp_op B)) :
  0 ≤ buffer →
  ∃ accepted wire t, tcp_run ops (new buffer mtu v6 gso) = Some (accepted, wire, t) ∧
    accepted = wire ++ queued t ∧
    transmitted t = Z.of_nat (length wire) ∧ written t = Z.of_nat (length accepted).
Proof.
  intros Hb. destruct (tcp_run_spec ops _ (transport_new_wf buffer mtu v6 gso Hb)) as (a & w & t & Hr & _ & _ & Hq & Ht & Hw).
  exists a, w, t. split; [done|]. split; [done|]. simpl in Ht, Hw. lia.
Qed.

Lemma stream_intact_witness :
  ∃ accepted wire t,
    tcp_run [TPush [1; 2; 3]; TPush []; TPush [4; 5]; TNext; TDirect [6]; TArrive 3 3 10 7; TNext; TDirect [7]]
      (new 8 60 false 9) = Some (accepted, wire, t) ∧
    accepted = wire ++ queued t ∧
    transmitted t = Z.of_nat (length wire) ∧ written t = Z.of_nat (length accepted).
Proof. apply (stream_intact (B := Z) 8 60 9 false). lia. Defined.

(** the receiver's window is respected and never taken back. Over any sequence of operations
    the bytes on the wire never pass the window the receiver has advertised, and the window's end
    never moves back. *)
Theorem window_respected {B} (buffer mtu gso : Z) (v6 : bool) (ops ops' : list (tcp_op B)) :
  0 ≤ buffer →
  ∃ a w t a' w' t', tcp_run ops (new buffer mtu v6 gso) = Some (a, w, t) ∧
    tcp_run ops' t = Some (a', w', t') ∧
    Z.of_nat (length w) ≤ window_end t ∧ window_end t ≤ window_end t' ∧
    Z.of_nat (length (w ++ w')) ≤ window_end t'.
Proof.
  intros Hb. destruct (tcp_run_spec ops _ (transport_new_wf buffer mtu v6 gso Hb)) as (a & w & t & Hr & Hwf & _ & _ & Ht & _).
  destruct (tcp_run_spec ops' t Hwf) as (a' & w' & t' & Hr' & Hwf' & Hle & _ & Ht' & _).
  exists a, w, t, a', w', t'. simpl in Ht. pose proof (wf_sent _ Hwf). pose proof (wf_sent _ Hwf').
  rewrite length_app. split_and!; done || lia.
Qed.

Lemma window_respected_witness :
  ∃ a w t a' w' t', tcp_run [TPush [1; 2; 3; 4; 5]; TNext; TNext] (new 8 60 false 9) = Some (a, w, t) ∧
    tcp_run [TArrive 4 8 0 7; TAdvertise 0; TNext] t = Some (a', w', t') ∧
    Z.of_nat (length w) ≤ window_end t ∧ window_end t ≤ window_end t' ∧
    Z.of_nat (length (w ++ w')) ≤ window_end t'.
Proof.
  apply (window_respected (B := Z) 8 60 9 false [TPush [1; 2; 3; 4; 5]; TNext; TNext]
    [TArrive 4 8 0 7; TAdvertise 0; TNext]). lia.
Defined.

(** Sends until the transport has nothing more to send now. *)
Fixpoint drain {B} (fuel : nat) (t : transport B) : option (list B * transport B) :=
  match fuel with
  | O => None
  | S fuel =>
      '(s, t) ← next t;
      match s with
      | None => Some ([], t)
      | Some s => '(bytes, t) ← drain fuel t; Some (seg_bytes s ++ bytes, t)
      end
  end.

Lemma drain_spec {B} (t : transport B) fuel : transport_wf t → (length (queued t) < fuel)%nat →
  ∃ bytes t', drain fuel t = Some (bytes, t') ∧ queued t = bytes ++ queued t' ∧
    (queued t' = [] ∨ transmitted t' = window_end t).
Proof.
  revert t. induction fuel as [|fuel IH]; intros t Hwf Hf; [lia|]. cbn [drain].
  destruct (next_spec t Hwf) as (r & t' & Hn & Hwf' & Hwe & _ & Hr). rewrite Hn. cbn.
  destruct r as [s|].
  - destruct Hr as (Hq & Hne & _ & _). rewrite Hq, length_app in Hf.
    destruct (seg_bytes s) as [|b bs] eqn:Es; [done|]. simpl in Hf.
    destruct (IH t' Hwf' ltac:(lia)) as (bytes & t2 & Hd & Hq2 & Hend). rewrite Hd. cbn.
    exists ((b :: bs) ++ bytes), t2. split; [done|]. rewrite Hq, Hq2, <- Hwe.
    by rewrite <- app_assoc.
  - destruct Hr as [-> Hend]. exists [], t. split; [done|]. split; [done|]. tauto.
Qed.

(** C36: what the window allows is sent. From any transport a run can reach, asking for segments
    until there is none ends after at most as many segments as there are bytes queued, having sent
    everything queued, or as much as the window allows. *)
Theorem drains {B} (buffer mtu gso : Z) (v6 : bool) (ops : list (tcp_op B)) (a w : list B) (t : transport B) :
  0 ≤ buffer → tcp_run ops (new buffer mtu v6 gso) = Some (a, w, t) →
  ∃ bytes t', drain (S (length (queued t))) t = Some (bytes, t') ∧ queued t = bytes ++ queued t' ∧
    (queued t' = [] ∨ transmitted t' = window_end t).
Proof.
  intros Hb Hr. destruct (tcp_run_spec ops _ (transport_new_wf buffer mtu v6 gso Hb)) as (a' & w' & t' & Hr' & Hwf & _).
  rewrite Hr in Hr'. simplify_eq. apply drain_spec; [done|lia].
Qed.

Definition filled : transport Z := push [1; 2; 3; 4; 5] (new 8 60 false 9).

Lemma drains_witness :
  ∃ bytes t', drain (S (length (queued filled))) filled = Some (bytes, t') ∧ queued filled = bytes ++ queued t' ∧
    (queued t' = [] ∨ transmitted t' = window_end filled).
Proof. apply (drains 8 60 9 false [TPush [1; 2; 3; 4; 5]] [1; 2; 3; 4; 5] [] filled); [lia|reflexivity]. Defined.
