(* ===== verification/Rng.v ===== *)
(** * Deterministic randomness

    Models [SplitMix64] of crates/snare/src/netpolicy.rs and [RandomLayer] of
    crates/snare/src/random.rs: the generator behind every random decision of a sim, and the
    per-thread streams that answer the code under test's randomness calls. *)

From S2P Require Import Prelude.

Module SplitMix64.

Definition INCREMENT : Z := 0x9e3779b97f4a7c15.
Definition MUL1 : Z := 0xbf58476d1ce4e5b9.
Definition MUL2 : Z := 0x94d049bb133111eb.

(** [z ^ (z >> k)] *)
Definition xorshift (k z : Z) : Z := Z.lxor z (Z.shiftr z k).
(** [wrapping_mul] *)
Definition wrapping_mul (a b : Z) : Z := wrap_u64 (a * b).

(** The finaliser of [SplitMix64::next_u64]. *)
Definition finalise (z : Z) : Z :=
  let z := wrapping_mul (xorshift 30 z) MUL1 in
  let z := wrapping_mul (xorshift 27 z) MUL2 in
  xorshift 31 z.

(** [SplitMix64::next_u64]: the output and the next state. *)
Definition next_u64 (state : Z) : Z * Z :=
  let state := wrap_u64 (state + INCREMENT) in
  (finalise state, state).

(** [SplitMix64::unit]: the numerator over 2^53 of the value in [[0, 1)]. *)
Definition unit (state : Z) : Z * Z :=
  let '(x, state) := next_u64 state in (Z.shiftr x 11, state).

(** The outputs of [n] draws, and the state after them. *)
Fixpoint draws (n : nat) (state : Z) : list Z * Z :=
  match n with
  | O => ([], state)
  | S n => let '(x, state) := next_u64 state in
           let '(xs, state) := draws n state in (x :: xs, state)
  end.

End SplitMix64.

Module RandomLayer.

(** [u64::to_le_bytes] *)
Definition to_le_bytes (x : Z) : list Z :=
  (λ i, Z.land (Z.shiftr x (8 * i)) 255) <$> [0; 1; 2; 3; 4; 5; 6; 7].

(** [u64::rotate_left(32)] *)
Definition rotate_left_32 (x : Z) : Z := Z.lor (wrap_u64 (Z.shiftl x 32)) (Z.shiftr x 32).

(** The loop of [RandomLayer::random] over the buffer's 8-byte chunks. *)
Fixpoint fill (fuel : nat) (len : nat) (rng : Z) : list Z * Z :=
  match fuel with
  | O => ([], rng)
  | S fuel =>
      if (len =? 0)%nat then ([], rng)
      else
        let '(word, rng) := SplitMix64.next_u64 rng in
        let chunk := take (Nat.min len 8) (to_le_bytes word) in
        let '(rest, rng) := fill fuel (len - 8) rng in
        (chunk ++ rest, rng)
  end.

(** A layer: its seed and identity. *)
Record layer := mk_layer { seed : Z; id : Z }.

(** The calling thread's [STREAMS], keyed by the layer's identity and the thread's lineage. *)
Abbreviation streams := (gmap (Z * Z) Z).

(** Where a stream starts. *)
Definition stream_seed (l : layer) (lineage : Z) : Z :=
  (SplitMix64.next_u64 (Z.lxor (seed l) (rotate_left_32 lineage))).1.

(** [RandomLayer::random] filling [len] bytes, with [alive] telling which layers still exist (a
    [Weak] to the layer's [lifetime]). *)
Definition random (alive : Z → bool) (l : layer) (lineage : Z) (len : nat) (s : streams)
    : list Z * streams :=
  let key := (id l, lineage) in
  let s := match s !! key with
           | Some _ => s
           | None => <[key := stream_seed l lineage]> (filter (λ kv, alive kv.1.1 = true) s)
           end in
  let '(bytes, rng) := fill len len (default 0 (s !! key)) in
  (bytes, <[key := rng]> s).

End RandomLayer.

(** ** What the deterministic randomness promises

    The theorems about [SplitMix64] and [RandomLayer]: the generator visits every 64-bit value
    before it repeats one, and a thread's bytes depend on its sim's seed, its lineage and its own
    calls alone. *)

(** *** The finaliser is a bijection *)

Import SplitMix64.

Lemma wrap_u64_range x : is_u64 (wrap_u64 x).
Proof. unfold wrap_u64. pose proof (Z.mod_pos_bound x (2 ^ 64) ltac:(lia)). lia. Qed.

Lemma wrap_u64_small x : is_u64 x → wrap_u64 x = x.
Proof. intros Hx. unfold wrap_u64. apply Z.mod_small. lia. Qed.

Lemma testbit_u64 x : is_u64 x ↔ 0 ≤ x ∧ ∀ i, 64 ≤ i → Z.testbit x i = false.
Proof.
  split.
  - intros Hx. split; [lia|]. intros i Hi. destruct (decide (x = 0)) as [->|]; [apply Z.bits_0|].
    apply Z.bits_above_log2; [lia|]. pose proof (Z.log2_lt_pow2 x 64 ltac:(lia)). lia.
  - intros [H0 H]. destruct (decide (x = 0)) as [->|]; [lia|].
    destruct (Z.lt_ge_cases x (2 ^ 64)) as [|Hge]; [lia|]. exfalso.
    assert (64 ≤ Z.log2 x) as Hl by (apply Z.log2_le_pow2; lia).
    specialize (H _ Hl). rewrite Z.bit_log2 in H by lia. done.
Qed.

Lemma xorshift_range k z : 0 ≤ k → is_u64 z → is_u64 (xorshift k z).
Proof.
  intros Hk Hz. apply testbit_u64 in Hz as [H0 Hb]. apply testbit_u64. unfold xorshift. split.
  - apply Z.lxor_nonneg. pose proof (Z.shiftr_nonneg z k). tauto.
  - intros i Hi. rewrite Z.lxor_spec, Z.shiftr_spec by lia. rewrite !Hb by lia. done.
Qed.

(** The top bits pass through a xorshift unchanged, and the others follow from those above. *)
Lemma xorshift_inj k z z' : 0 < k → is_u64 z → is_u64 z' → xorshift k z = xorshift k z' → z = z'.
Proof.
  intros Hk Hz Hz' E. apply testbit_u64 in Hz as [Hz0 Hz], Hz' as [Hz0' Hz'].
  assert (∀ i, 0 ≤ i → Z.testbit z i = Z.testbit z' i) as H; [|by apply Z.bits_inj'].
  assert (∀ n i, 0 ≤ i → 64 - k * n ≤ i → 0 ≤ n → Z.testbit z i = Z.testbit z' i) as H.
  { intros n i Hi Hn Hn0. revert i Hi Hn. pattern n. apply natlike_ind; [| |done]; clear n Hn0.
    - intros i Hi Hge. rewrite Hz, Hz' by lia. done.
    - intros n Hn IH i Hi Hge. apply (f_equal (λ x, Z.testbit x i)) in E. unfold xorshift in E.
      rewrite !Z.lxor_spec, !Z.shiftr_spec in E by done. rewrite (IH (i + k)) in E by lia.
      destruct (Z.testbit z i), (Z.testbit z' i), (Z.testbit z' (i + k)); done. }
  intros i Hi. apply (H 64); [done|nia|lia].
Qed.

(** Multiplying by an odd number loses nothing modulo 2^64. *)
Lemma wrapping_mul_inj m inv z z' : wrap_u64 (m * inv) = 1 → is_u64 z → is_u64 z' →
  wrapping_mul z m = wrapping_mul z' m → z = z'.
Proof.
  intros Hinv Hz Hz' E. unfold wrapping_mul, wrap_u64 in *.
  assert (∀ x, is_u64 x → (x * m) mod 2 ^ 64 * inv mod 2 ^ 64 = x) as H.
  { intros x Hx. rewrite Z.mul_mod_idemp_l by lia. rewrite <- Z.mul_assoc.
    rewrite <- Z.mul_mod_idemp_r, Hinv, Z.mul_1_r by lia. apply Z.mod_small. lia. }
  rewrite <- (H z Hz), <- (H z' Hz'). by rewrite E.
Qed.

Definition INV1 : Z := 0x96de1b173f119089.
Definition INV2 : Z := 0x319642b2d24d8ec3.

Lemma finalise_inj z z' : is_u64 z → is_u64 z' → finalise z = finalise z' → z = z'.
Proof.
  intros Hz Hz' E. unfold finalise in E.
  apply xorshift_inj in E; [|lia|apply wrap_u64_range..].
  apply (wrapping_mul_inj MUL2 INV2) in E; [|vm_compute; reflexivity|apply xorshift_range; [lia|apply wrap_u64_range]..].
  apply xorshift_inj in E; [|lia|apply wrap_u64_range..].
  apply (wrapping_mul_inj MUL1 INV1) in E; [|vm_compute; reflexivity|apply xorshift_range; [lia|done]..].
  by apply xorshift_inj in E.
Qed.

(** The state after [n] draws. *)
Definition state_after (n : nat) (seed : Z) : Z := wrap_u64 (seed + Z.of_nat n * INCREMENT).

Lemma draws_lookup n seed i x : is_u64 seed → (draws n seed).1 !! i = Some x →
  (i < n)%nat ∧ x = finalise (state_after (S i) seed).
Proof.
  intros Hs. revert seed Hs i. induction n as [|n IH]; intros seed Hs i; [done|]. simpl.
  destruct (draws n (wrap_u64 (seed + INCREMENT))) as [xs st] eqn:E. destruct i as [|i]; simpl.
  - intros [= <-]. split; [lia|]. unfold state_after. do 2 f_equal; lia.
  - intros Hi. destruct (IH (wrap_u64 (seed + INCREMENT)) (wrap_u64_range _) i) as [Hlt ->]; [by rewrite E|].
    split; [lia|]. f_equal. unfold state_after, wrap_u64. rewrite Z.add_mod_idemp_l by lia. f_equal; lia.
Qed.

(** the generator does not repeat itself. From any seed, the first 2^64 outputs of
    [SplitMix64] are pairwise different: its period is the largest a 64-bit state allows. *)
Theorem splitmix_full_period (n : nat) (seed : Z) (i j : nat) (x : Z) :
  is_u64 seed → Z.of_nat n ≤ 2 ^ 64 →
  (draws n seed).1 !! i = Some x → (draws n seed).1 !! j = Some x → i = j.
Proof.
  intros Hs Hn Hi Hj. apply draws_lookup in Hi as [Hi ->], Hj as [Hj E]; [|done..].
  apply finalise_inj in E; [|apply wrap_u64_range..]. unfold state_after, wrap_u64 in E.
  apply (f_equal (λ z, (z - seed) * 0xf1de83e19937733d mod 2 ^ 64)) in E.
  assert (∀ k, (((seed + k * INCREMENT) mod 2 ^ 64 - seed) * 0xf1de83e19937733d) mod 2 ^ 64 = k mod 2 ^ 64) as H.
  { intros k. rewrite <- Z.mul_mod_idemp_l, Zminus_mod_idemp_l by lia.
    replace (seed + k * INCREMENT - seed) with (k * INCREMENT) by lia.
    rewrite Z.mul_mod_idemp_l, <- Z.mul_assoc, <- Z.mul_mod_idemp_r by lia.
    replace (INCREMENT * 0xf1de83e19937733d mod 2 ^ 64) with 1 by (vm_compute; reflexivity). by rewrite Z.mul_1_r. }
  cbv beta in E. rewrite !H in E.
  assert (∀ k, (k < n)%nat → Z.of_nat (S k) mod 2 ^ 64 = if decide (Z.of_nat (S k) = 2 ^ 64) then 0 else Z.of_nat (S k)) as Hk.
  { intros k Hk. case_decide as Ek; [by rewrite Ek|]. apply Z.mod_small. lia. }
  rewrite !Hk in E by done. repeat case_decide; lia.
Qed.

Lemma splitmix_full_period_witness :
  (draws 3 1234567).1 = [6457827717110365317; 3203168211198807973; 9817491932198370423] ∧ 1%nat = 1%nat.
Proof.
  split; [vm_compute; reflexivity|].
  apply (splitmix_full_period 3 1234567 1 1 3203168211198807973); [lia|lia|vm_compute; reflexivity..].
Defined.

(** *** Streams *)

Import RandomLayer.

(** A randomness call on a thread: the layer and lineage it is made under, how many bytes it asks
    for, and which layers exist then. *)
Record random_call := mk_call { c_layer : layer; c_lineage : Z; c_len : nat; c_alive : Z → bool }.

Definition c_key (c : random_call) : Z * Z := (id (c_layer c), c_lineage c).

(** The bytes each call gets. *)
Fixpoint random_run (cs : list random_call) (s : streams) : list (list Z) :=
  match cs with
  | [] => []
  | c :: cs =>
      let '(bytes, s) := random (c_alive c) (c_layer c) (c_lineage c) (c_len c) s in
      bytes :: random_run cs s
  end.

(** The bytes of the calls made under one layer and lineage, drawn from a stream of its own. *)
Fixpoint solo (lens : list nat) (rng : Z) : list (list Z) :=
  match lens with
  | [] => []
  | n :: lens => let '(bytes, rng) := fill n n rng in bytes :: solo lens rng
  end.

Definition is_key (k : Z * Z) (c : random_call) : bool := bool_decide (c_key c = k).

(** Of the results of [cs], those of the calls under [k]. *)
Fixpoint select {A} (k : Z * Z) (cs : list random_call) (xs : list A) : list A :=
  match cs, xs with
  | c :: cs, x :: xs => if is_key k c then x :: select k cs xs else select k cs xs
  | _, _ => []
  end.

(** A layer that is used again still exists, and layers of one identity are one layer. *)
Fixpoint calls_ok (seed_of : Z → Z) (cs : list random_call) : Prop :=
  match cs with
  | [] => True
  | c :: cs =>
      seed (c_layer c) = seed_of (id (c_layer c)) ∧
      (∀ c', c' ∈ cs → c_alive c (id (c_layer c')) = true) ∧ calls_ok seed_of cs
  end.

Definition start (seed_of : Z → Z) (k : Z * Z) : Z := stream_seed (mk_layer (seed_of k.1) k.1) k.2.

Lemma select_none {A} k cs (xs : list A) : retain (is_key k) cs = [] → select k cs xs = [].
Proof.
  revert xs. induction cs as [|c cs IH]; intros [|x xs]; simpl; try done.
  destruct (is_key k c); [done|]. auto.
Qed.

Lemma random_run_select seed_of k cs s : calls_ok seed_of cs →
  select k cs (random_run cs s) =
    solo (c_len <$> retain (is_key k) cs) (default (start seed_of k) (s !! k)).
Proof.
  revert s. induction cs as [|c cs IH]; intros s Hok; [done|]. destruct Hok as (Hseed & Halive & Hok).
  cbn [random_run retain]. unfold random. fold (c_key c).
  set (s1 := match s !! c_key c with Some _ => s | None => _ end).
  destruct (fill (c_len c) (c_len c) (default 0 (s1 !! c_key c))) as [bytes rng] eqn:Ef.
  cbn [select]. specialize (IH (<[c_key c := rng]> s1) Hok).
  destruct (is_key k c) eqn:Hk.
  - apply bool_decide_eq_true in Hk. subst k. rewrite IH. csimpl. rewrite lookup_insert_eq. simpl.
    assert (default 0 (s1 !! c_key c) = default (start seed_of (c_key c)) (s !! c_key c)) as <-.
    { subst s1. destruct (s !! c_key c) eqn:E; [by rewrite E|]. rewrite lookup_insert_eq. simpl.
      unfold start. f_equal. unfold c_key. simpl. rewrite <- Hseed. by destruct (c_layer c). }
    by rewrite Ef.
  - apply bool_decide_eq_false in Hk. destruct (retain (is_key k) cs) as [|c' l] eqn:Hl.
    { by rewrite select_none. }
    rewrite IH. do 2 f_equal. rewrite lookup_insert_ne by done. subst s1.
    destruct (s !! c_key c); [done|]. rewrite lookup_insert_ne by done.
    rewrite map_lookup_filter. destruct (s !! k) as [r|]; [|done]. simpl.
    assert (c' ∈ cs ∧ is_key k c' = true) as [Hin Hk']
      by (apply elem_of_retain; rewrite Hl; apply elem_of_cons; by left).
    apply bool_decide_eq_true in Hk'. subst k. simpl. by rewrite option_guard_True by auto.
Qed.

(** a thread's randomness is its own. The bytes the calls under one sim and lineage get, in
    any interleaving with calls under others and any clean-up of streams of sims that are gone, are
    those of a generator seeded by that sim's seed and that lineage and drawn on by those calls
    alone. *)
Theorem streams_independent (seed_of : Z → Z) (cs : list random_call) (i lineage : Z) :
  calls_ok seed_of cs →
  select (i, lineage) cs (random_run cs ∅) =
    solo (c_len <$> retain (is_key (i, lineage)) cs) (stream_seed (mk_layer (seed_of i) i) lineage).
Proof. intros Hok. by rewrite (random_run_select seed_of). Qed.

Definition mixed_calls : list random_call :=
  [mk_call (mk_layer 7 1) 100 3 (λ _, true); mk_call (mk_layer 9 2) 100 16 (λ _, true);
   mk_call (mk_layer 9 2) 200 5 (λ _, true); mk_call (mk_layer 7 1) 100 8 (λ _, true)].

Lemma streams_independent_witness :
  select (1, 100) mixed_calls (random_run mixed_calls ∅) =
    solo [3%nat; 8%nat] (stream_seed (mk_layer 7 1) 100).
Proof.
  apply (streams_independent (λ i, if i =? 1 then 7 else 9) mixed_calls 1 100).
  cbn. repeat split; reflexivity.
Defined.
