(* ===== verification/Calendar.v ===== *)
(** * The proleptic Gregorian calendar

    Models the date arithmetic of crates/snare-interpose/src/os/tz.rs: [is_leap], [month_length],
    [days_from_civil] and [civil_from_days], the day a POSIX TZ rule names in a year, and when it
    falls. [/] and [%] of the source truncate; on the non-negative operands here they are [Z.div]
    and [Z.modulo], and [year % n == 0] does not depend on the rounding. *)

From S2P Require Import Prelude.

(** [is_leap] *)
Definition is_leap (year : Z) : bool :=
  (Z.rem year 4 =? 0) && (negb (Z.rem year 100 =? 0) || (Z.rem year 400 =? 0)).

(** [month_length] *)
Definition month_length (year month : Z) : Z :=
  if (month =? 2) && is_leap year then 29
  else if month =? 2 then 28
  else if (month =? 4) || (month =? 6) || (month =? 9) || (month =? 11) then 30
  else 31.

(** [days_from_civil] *)
Definition days_from_civil (year month day : Z) : Z :=
  let y := if month <=? 2 then year - 1 else year in
  let era := y / 400 in
  let yoe := y - era * 400 in
  let mp := (month + 9) mod 12 in
  let doy := (153 * mp + 2) / 5 + day - 1 in
  let doe := yoe * 365 + yoe / 4 - yoe / 100 + doy in
  era * 146097 + doe - 719468.

(** [civil_from_days] *)
Definition civil_from_days (days : Z) : Z * Z * Z :=
  let z := days + 719468 in
  let era := z / 146097 in
  let doe := z - era * 146097 in
  let yoe := (doe - doe / 1460 + doe / 36524 - doe / 146096) / 365 in
  let doy := doe - (365 * yoe + yoe / 4 - yoe / 100) in
  let mp := (5 * doy + 2) / 153 in
  let day := doy - (153 * mp + 2) / 5 + 1 in
  let month := if mp <? 10 then mp + 3 else mp - 9 in
  (yoe + era * 400 + b2z (month <=? 2), month, day).

(** A date of the calendar. *)
Definition valid_date (year month day : Z) : Prop :=
  1 ≤ month ≤ 12 ∧ 1 ≤ day ≤ month_length year month.

(** ** Years within an era of 400 *)

Lemma is_leap_spec year : is_leap year = true ↔ year mod 4 = 0 ∧ (year mod 100 ≠ 0 ∨ year mod 400 = 0).
Proof.
  unfold is_leap. rewrite andb_true_iff, orb_true_iff, negb_true_iff, Z.eqb_neq, !Z.eqb_eq.
  by rewrite !Z.rem_mod_eq_0 by lia.
Qed.

(** Whether the year that starts in March of year [yoe] of an era ends with a leap day. *)
Definition ends_leap (yoe : Z) : bool := is_leap (yoe + 1).

(** The digits of a year of an era in centuries, four-year cycles and years. *)
Lemma yoe_digits yoe : 0 ≤ yoe < 400 →
  ∃ c q r, yoe = 100 * c + 4 * q + r ∧ 0 ≤ c ≤ 3 ∧ 0 ≤ q ≤ 24 ∧ 0 ≤ r ≤ 3 ∧
    yoe / 4 = 25 * c + q ∧ yoe / 100 = c ∧
    (ends_leap yoe = true ↔ r = 3 ∧ (q ≠ 24 ∨ c = 3)).
Proof.
  intros Hy. exists (yoe / 100), (yoe mod 100 / 4), (yoe mod 4).
  unfold ends_leap. rewrite is_leap_spec.
  assert (yoe mod 100 = 4 * (yoe mod 100 / 4) + yoe mod 4) by dlia.
  split_and!; dlia.
Qed.

(** The year and day of an era's day. *)
Lemma doe_spec yoe doy : 0 ≤ yoe < 400 → 0 ≤ doy → doy ≤ 364 + b2z (ends_leap yoe) →
  let doe := 365 * yoe + yoe / 4 - yoe / 100 + doy in
  0 ≤ doe < 146097 ∧ (doe - doe / 1460 + doe / 36524 - doe / 146096) / 365 = yoe.
Proof.
  intros Hy Hd Hl. cbn zeta. destruct (yoe_digits yoe Hy) as (c & q & r & -> & Hc & Hq & Hr & -> & -> & Hleap).
  replace (365 * (100 * c + 4 * q + r) + (25 * c + q) - c + doy) with (36524 * c + 1461 * q + 365 * r + doy) by lia.
  set (doe := 36524 * c + 1461 * q + 365 * r + doy).
  assert (doy ≤ 364 ∨ (doy = 365 ∧ r = 3 ∧ (q ≠ 24 ∨ c = 3))) as Hdoy.
  { destruct (ends_leap _); simpl in Hl; [|lia]. destruct Hleap as [Hleap _]. specialize (Hleap eq_refl). lia. }
  clear Hl Hleap. split; [subst doe; lia|].
  assert (doe / 146096 = if decide (doe = 146096) then 1 else 0) as E3.
  { case_decide as E; [by rewrite E|]. apply Z.div_small. subst doe. lia. }
  assert (doe / 36524 = if decide (doe = 146096) then 4 else c) as E2.
  { subst doe. case_decide; dlia. }
  assert (doe / 1460 = 25 * c + q + (36524 * c + 1461 * q + 365 * r + doy - 1460 * (25 * c + q)) / 1460) as E1.
  { subst doe. dlia. }
  rewrite E2, E3. subst doe. case_decide; dlia.
Qed.

(** Every day of an era is a day of one of its years. *)
Lemma doe_exists doe : 0 ≤ doe < 146097 →
  ∃ yoe doy, 0 ≤ yoe < 400 ∧ 0 ≤ doy ≤ 364 + b2z (ends_leap yoe) ∧
    doe = 365 * yoe + yoe / 4 - yoe / 100 + doy.
Proof.
  intros Hd. set (c := Z.min 3 (doe / 36524)). set (d1 := doe - 36524 * c).
  set (q := d1 / 1461). set (d2 := d1 - 1461 * q). set (r := Z.min 3 (d2 / 365)).
  assert (0 ≤ c ≤ 3 ∧ 0 ≤ d1 ∧ (d1 < 36524 ∨ (c = 3 ∧ d1 ≤ 36524))) as (Hc & Hd1 & Hd1') by (subst c d1; dlia).
  assert (0 ≤ q ≤ 24 ∧ 0 ≤ d2 < 1461 ∧ (q = 24 → d2 = 1460 → c = 3)) as (Hq & Hd2 & Hd2').
  { subst q d2. clearbody d1 c. dlia. }
  assert (0 ≤ r ≤ 3 ∧ 0 ≤ d2 - 365 * r ∧ (d2 - 365 * r ≤ 364 ∨ (d2 - 365 * r = 365 ∧ r = 3 ∧ d2 = 1460)))
    as (Hr & Hdoy & Hdoy') by (subst r; clearbody d2; dlia).
  exists (100 * c + 4 * q + r), (d2 - 365 * r).
  assert (0 ≤ 100 * c + 4 * q + r < 400) as Hy by lia. split; [done|].
  destruct (yoe_digits _ Hy) as (c' & q' & r' & Heq & ? & ? & ? & H4 & H100 & Hleap).
  assert (c' = c ∧ q' = q ∧ r' = r) as (-> & -> & ->) by lia. rewrite H4, H100. clear H4 H100 Heq.
  split; [|subst d2 d1; lia]. split; [done|].
  destruct Hdoy' as [?|(? & -> & ?)]; [destruct (ends_leap _); simpl; lia|].
  destruct Hleap as [_ Hleap]. rewrite Hleap; [simpl; lia|]. split; [done|].
  destruct (decide (q = 24)) as [->|]; [right; auto|by left].
Qed.

(** ** Months, from March *)

(** The length of the [mp]th month from March of a year that ends with a leap day or not. *)
Definition mp_length (mp : Z) (leap : bool) : Z :=
  if mp =? 11 then 28 + b2z leap
  else if (mp =? 1) || (mp =? 3) || (mp =? 6) || (mp =? 8) then 30 else 31.

Lemma mp_cases mp : 0 ≤ mp ≤ 11 →
  mp = 0 ∨ mp = 1 ∨ mp = 2 ∨ mp = 3 ∨ mp = 4 ∨ mp = 5 ∨ mp = 6 ∨ mp = 7 ∨ mp = 8 ∨ mp = 9 ∨ mp = 10 ∨ mp = 11.
Proof. lia. Qed.

(** The day of the year and the month and day it is. *)
Lemma doy_spec mp day leap : 0 ≤ mp ≤ 11 → 1 ≤ day ≤ mp_length mp leap →
  let doy := (153 * mp + 2) / 5 + day - 1 in
  0 ≤ doy ≤ 364 + b2z leap ∧ (5 * doy + 2) / 153 = mp.
Proof.
  intros Hm Hd. cbn zeta. destruct (mp_cases mp Hm) as [->|[->|[->|[->|[->|[->|[->|[->|[->|[->|[->| ->]]]]]]]]]]];
    cbn in Hd; destruct leap; cbn in *; split; dlia.
Qed.

Lemma doy_exists doy leap : 0 ≤ doy ≤ 364 + b2z leap →
  ∃ mp day, 0 ≤ mp ≤ 11 ∧ 1 ≤ day ≤ mp_length mp leap ∧ doy = (153 * mp + 2) / 5 + day - 1.
Proof.
  intros Hd. set (mp := (5 * doy + 2) / 153).
  assert (0 ≤ mp ≤ 11) as Hm by (subst mp; destruct leap; cbn in Hd; dlia).
  exists mp, (doy - (153 * mp + 2) / 5 + 1). split; [done|]. split; [|lia].
  assert (153 * mp ≤ 5 * doy + 2 < 153 * mp + 153) as Hb by (subst mp; dlia). clearbody mp.
  destruct (mp_cases mp Hm) as [->|[->|[->|[->|[->|[->|[->|[->|[->|[->|[->| ->]]]]]]]]]]];
    cbn; destruct leap; cbn in *; dlia.
Qed.

(** The month of [mp] in its civil year. *)
Definition month_of (mp : Z) : Z := if mp <? 10 then mp + 3 else mp - 9.

Lemma is_leap_era year era : is_leap (year + era * 400) = is_leap year.
Proof.
  apply eq_iff_eq_true. rewrite !is_leap_spec.
  assert ((year + era * 400) mod 4 = year mod 4) as -> by dlia.
  assert ((year + era * 400) mod 100 = year mod 100) as -> by dlia.
  assert ((year + era * 400) mod 400 = year mod 400) as -> by dlia. done.
Qed.

Lemma month_length_mp yoe era mp : 0 ≤ mp ≤ 11 →
  month_length (yoe + era * 400 + b2z (month_of mp <=? 2)) (month_of mp) = mp_length mp (ends_leap yoe).
Proof.
  intros Hm. unfold ends_leap. destruct (mp_cases mp Hm) as [->|[->|[->|[->|[->|[->|[->|[->|[->|[->|[->| ->]]]]]]]]]]]; try reflexivity.
  change (month_of 11) with 2. change (b2z (2 <=? 2)) with 1. unfold month_length, mp_length.
  change (2 =? 2) with true. change (11 =? 11) with true. cbn [andb].
  replace (yoe + era * 400 + 1) with (yoe + 1 + era * 400) by lia.
  rewrite is_leap_era. by destruct (is_leap (yoe + 1)).
Qed.

(** ** The two conversions *)

(** A day as its era, year, month and day of the month. *)
Lemma civil_from_days_digits era yoe mp day :
  0 ≤ yoe < 400 → 0 ≤ mp ≤ 11 → 1 ≤ day ≤ mp_length mp (ends_leap yoe) →
  civil_from_days (era * 146097 + (365 * yoe + yoe / 4 - yoe / 100 + ((153 * mp + 2) / 5 + day - 1)) - 719468) =
    (yoe + era * 400 + b2z (month_of mp <=? 2), month_of mp, day).
Proof.
  intros Hy Hm Hd. destruct (doy_spec mp day _ Hm Hd) as [Hdoy Hmp].
  destruct (doe_spec yoe ((153 * mp + 2) / 5 + day - 1) Hy ltac:(lia) ltac:(lia)) as [Hdoe Hyoe].
  unfold civil_from_days. set (doe := 365 * yoe + yoe / 4 - yoe / 100 + ((153 * mp + 2) / 5 + day - 1)) in *.
  replace (era * 146097 + doe - 719468 + 719468) with (doe + era * 146097) by lia.
  assert ((doe + era * 146097) / 146097 = era) as -> by (rewrite Z.div_add, Z.div_small; lia).
  replace (doe + era * 146097 - era * 146097) with doe by lia. rewrite Hyoe.
  replace (doe - (365 * yoe + yoe / 4 - yoe / 100)) with ((153 * mp + 2) / 5 + day - 1) by (subst doe; lia).
  rewrite Hmp. fold (month_of mp). f_equal. lia.
Qed.

Lemma month_of_range mp : 0 ≤ mp ≤ 11 → 1 ≤ month_of mp ≤ 12.
Proof. intros Hm. unfold month_of. destruct (Z.ltb_spec mp 10); lia. Qed.

Lemma days_from_civil_digits era yoe mp day : 0 ≤ yoe < 400 → 0 ≤ mp ≤ 11 →
  days_from_civil (yoe + era * 400 + b2z (month_of mp <=? 2)) (month_of mp) day =
    era * 146097 + (365 * yoe + yoe / 4 - yoe / 100 + ((153 * mp + 2) / 5 + day - 1)) - 719468.
Proof.
  intros Hy Hm. unfold days_from_civil.
  assert ((if month_of mp <=? 2 then yoe + era * 400 + b2z (month_of mp <=? 2) - 1
           else yoe + era * 400 + b2z (month_of mp <=? 2)) = yoe + era * 400) as ->
    by (destruct (month_of mp <=? 2); simpl; lia).
  assert ((yoe + era * 400) / 400 = era) as -> by (rewrite Z.div_add, Z.div_small; lia).
  replace (yoe + era * 400 - era * 400) with yoe by lia.
  assert ((month_of mp + 9) mod 12 = mp) as ->.
  { unfold month_of. destruct (Z.ltb_spec mp 10); dlia. }
  lia.
Qed.

(** Every day count has such digits. *)
Lemma days_digits days : ∃ era yoe mp day,
  0 ≤ yoe < 400 ∧ 0 ≤ mp ≤ 11 ∧ 1 ≤ day ≤ mp_length mp (ends_leap yoe) ∧
  days = era * 146097 + (365 * yoe + yoe / 4 - yoe / 100 + ((153 * mp + 2) / 5 + day - 1)) - 719468.
Proof.
  destruct (doe_exists ((days + 719468) mod 146097)) as (yoe & doy & Hy & Hd & He); [dlia|].
  destruct (doy_exists doy _ Hd) as (mp & day & Hm & Hday & ->).
  exists ((days + 719468) / 146097), yoe, mp, day. split_and!; try done; try lia.
  pose proof (Z.div_mod (days + 719468) 146097 ltac:(lia)). lia.
Qed.

Lemma civil_from_days_valid days : let '(y, m, d) := civil_from_days days in
  valid_date y m d ∧ days_from_civil y m d = days.
Proof.
  destruct (days_digits days) as (era & yoe & mp & day & Hy & Hm & Hd & ->).
  rewrite civil_from_days_digits by done. split.
  - split; [by apply month_of_range|]. by rewrite month_length_mp.
  - by rewrite days_from_civil_digits.
Qed.

Lemma days_from_civil_inv y m d : valid_date y m d → civil_from_days (days_from_civil y m d) = (y, m, d).
Proof.
  intros [Hm Hd].
  set (mp := (m + 9) mod 12). assert (0 ≤ mp ≤ 11) as Hmp by (subst mp; dlia).
  assert (month_of mp = m) as Hmo.
  { unfold month_of. subst mp. destruct (Z.ltb_spec ((m + 9) mod 12) 10); dlia. }
  set (y' := y - b2z (m <=? 2)). set (era := y' / 400). set (yoe := y' mod 400).
  assert (0 ≤ yoe < 400) as Hy by (subst yoe; dlia).
  assert (y = yoe + era * 400 + b2z (month_of mp <=? 2)) as Ey.
  { rewrite Hmo. subst yoe era. pose proof (Z.div_mod y' 400 ltac:(lia)). subst y'. lia. }
  clearbody mp yoe era. subst y m. rewrite month_length_mp in Hd by done.
  rewrite days_from_civil_digits by done. by rewrite civil_from_days_digits.
Qed.
