(* ===== verification/TzZone.v ===== *)
(** * Local time zones

    Models the zones of crates/snare-interpose/src/os/tz.rs: local time types, POSIX TZ rules and
    when they change ([day_of], [change], [Rule::at]), zones with TZif transitions ([Zone::at],
    [recent_types], [standard], [tzset_types], [glibc_names_at], [note_conversion]) and
    localtime_r(3) over them ([break_down]). A C string is the list of its bytes; an index out of
    range, a panic in the source, is [None]. *)

From S2P Require Import Prelude Calendar.

(** ** Data *)

(** [LocalType] *)
Record LocalType := { utoff : Z; isdst : bool; abbr : list Z }.

#[export] Instance LocalType_eq_dec : EqDecision LocalType.
Proof. solve_decision. Defined.

(** [Day] *)
Inductive Day :=
  | Julian (n : Z)
  | Ordinal (n : Z)
  | Month (month week weekday : Z).

(** [Change] *)
Definition Change : Type := Day * Z.

(** [Rule] *)
Record Rule := { std : LocalType; dst : option (LocalType * Change * Change) }.

(** [Quirk] *)
Inductive Quirk := NoQuirk | Untyped | Unparsed.

#[export] Instance Quirk_eq_dec : EqDecision Quirk.
Proof. solve_decision. Defined.

(** [Zone] *)
Record Zone := {
  transitions : list Z;
  indices : list Z;
  types : list LocalType;
  rule : option Rule;
  posix : bool;
  quirk : Quirk;
}.

(** [intern]: the C string of [bytes], empty when they hold a NUL. *)
Definition intern (bytes : list Z) : list Z :=
  if existsb (Z.eqb 0) bytes then [] else bytes.

(** [Zone::from_rule] *)
Definition from_rule (r : Rule) : Zone :=
  {| posix := true; quirk := NoQuirk; transitions := []; indices := []; types := [std r];
     rule := Some r |}.

(** ** When a rule changes *)

(** [while day >= length { day -= 7; }] of [day_of]; the fuel is enough when
    [day < length + 7 * fuel]. *)
Fixpoint step_back (fuel : nat) (day length : Z) : Z :=
  match fuel with
  | O => day
  | S fuel => if length <=? day then step_back fuel (day - 7) length else day
  end.

(** [day_of] *)
Definition day_of (year : Z) (day : Day) : Z :=
  let jan1 := days_from_civil year 1 1 in
  match day with
  | Julian n =>
      let n := n - 1 in
      jan1 + n + b2z (is_leap year && (59 <=? n))
  | Ordinal n => jan1 + n
  | Month month week weekday =>
      let first := days_from_civil year month 1 in
      let first_weekday := (first + 4) mod 7 in
      let day := (weekday - first_weekday) mod 7 + 7 * (week - 1) in
      first + step_back (Z.to_nat week) day (month_length year month)
  end.

(** [i64::saturating_mul] and [i64::saturating_add] *)
Definition sat_i64 (x : Z) : Z := Z.max i64_min (Z.min i64_max x).

(** [change] *)
Definition change (os : target_os) (year : Z) (c : Change) (utoff : Z) : Z :=
  let '(day, time) := c in
  let jan1 := days_from_civil year 1 1 in
  let base := if is_linux os && (year <=? 1970) then 0 else jan1 in
  sat_i64 (sat_i64 ((base + day_of year day - jan1) * 86400) + (time - utoff)).

(** [Rule::at] *)
Definition rule_at (os : target_os) (r : Rule) (t : Z) : LocalType :=
  match dst r with
  | None => std r
  | Some (dst, start, end_) =>
      let year := (civil_from_days (t / 86400)).1.1 in
      let start := change os year start (utoff (std r)) in
      let end_ := change os year end_ (utoff dst) in
      let in_dst :=
        if start <? end_ then (start <=? t) && (t <? end_)
        else negb ((end_ <=? t) && (t <? start)) in
      if in_dst then dst else std r
  end.

(** [Rule::first_change], built on macOS only *)
Definition first_change (os : target_os) (r : Rule) : option Z :=
  match dst r with
  | None => None
  | Some (dst, start, end_) =>
      Some (Z.min (change os 1970 start (utoff (std r))) (change os 1970 end_ (utoff dst)))
  end.

(** ** Lookups *)

(** The loop of [slice::binary_search_by] that [slice::partition_point] runs: [size] elements
    from [base] are left, and half of them go at each turn. *)
Fixpoint partition_loop {A} (fuel : nat) (p : A → bool) (l : list A) (base size : nat) : nat :=
  match fuel with
  | O => base
  | S fuel =>
      if (1 <? Z.of_nat size) then
        let half := Nat.div2 size in
        let mid := (base + half)%nat in
        let base := if from_option p false (l !! mid) then mid else base in
        partition_loop fuel p l base (size - half)
      else base
  end.

(** [slice::partition_point] *)
Definition partition_point {A} (p : A → bool) (l : list A) : nat :=
  match l with
  | [] => O
  | _ =>
      let base := partition_loop (length l) p l 0 (length l) in
      if from_option p false (l !! base) then S base else base
  end.

(** [zone.types[usize::from(i)]] *)
Definition type_at (z : Zone) (i : Z) : option LocalType := types z !! Z.to_nat i.

(** [Zone::at] *)
Definition at_ (os : target_os) (z : Zone) (t : Z) : option LocalType :=
  let early :=
    if is_macos os then
      match transitions z, rule z with
      | [], Some r =>
          match first_change os r with
          | Some first => if t <? first then Some (std r) else None
          | None => None
          end
      | _, _ => None
      end
    else None in
  match early with
  | Some ty => Some ty
  | None =>
      let after := partition_point (λ x, x <=? t) (transitions z) in
      match (if bool_decide (after = length (transitions z)) then rule z else None) with
      | Some r => Some (rule_at os r t)
      | None =>
          match after with
          | S i => indices z !! i ≫= type_at z
          | O => types z !! 0%nat
          end
      end
  end.

(** [Zone::standard] *)
Definition standard (z : Zone) : option LocalType :=
  match rule z with
  | Some r => Some (std r)
  | None => types z !! 0%nat
  end.

(** The loop of [recent_types]: each type not yet there. *)
Fixpoint push_new (out : list LocalType) (tys : list LocalType) : list LocalType :=
  match tys with
  | [] => out
  | ty :: tys =>
      push_new (if bool_decide (ty ∈ out) then out else out ++ [ty]) tys
  end.

(** [Zone::recent_types] *)
Definition recent_types (z : Zone) : option (list LocalType) :=
  let of_rule :=
    match rule z with
    | None => []
    | Some r => match dst r with Some (d, _, _) => [d] | None => [] end ++ [std r]
    end in
  tys ← mapM (type_at z) (reverse (indices z));
  Some (push_new [] (of_rule ++ tys)).

(** ** What [tzset] leaves *)

(** The scan of [tzset_types], the latest type of each kind. *)
Fixpoint scan_types (z : Zone) (ixs : list Z) (std dst : option LocalType) :
    option (option LocalType * option LocalType) :=
  match ixs with
  | [] => Some (std, dst)
  | i :: ixs =>
      ty ← type_at z i;
      let '(std, dst) :=
        if isdst ty then (std, Some (default ty dst)) else (Some (default ty std), dst) in
      match std, dst with
      | Some _, Some _ => Some (std, dst)
      | _, _ => scan_types z ixs std dst
      end
  end.

(** [LocalType { abbr, ..ty }] *)
Definition renamed (abbr : list Z) (ty : LocalType) : LocalType :=
  {| utoff := utoff ty; isdst := isdst ty; abbr := abbr |}.

(** [tzset_types] *)
Definition tzset_types (os : target_os) (z : Zone) : option (LocalType * LocalType) :=
  '(std, dst) ← scan_types z (reverse (indices z)) None None;
  let '(std, dst) :=
    match transitions z, rule z with
    | [], Some r => (Some (TzZone.std r), (λ d, d.1.1) <$> TzZone.dst r)
    | _, _ => (std, dst)
    end in
  first ← match indices z with [] => types z !! 0%nat | i :: _ => type_at z i end;
  if is_macos os then
    let wild := renamed (intern [32; 32; 32]) first in
    if bool_decide (quirk z = Untyped) then Some (wild, wild)
    else Some (default wild std, default wild dst)
  else
    (* [unwrap_or(zone.types[0])] indexes whether or not [std] is there *)
    type0 ← types z !! 0%nat;
    let std := default type0 std in
    if bool_decide (quirk z = Unparsed) then Some (std, renamed [] std)
    else Some (std, default std dst).

(** [glibc_names_at] before the first transition: [while i < types.len() && types[i].isdst],
    counting the daylight types the file starts with. *)
Fixpoint leading_dst (tys : list LocalType) : nat :=
  match tys with
  | ty :: tys => if isdst ty then S (leading_dst tys) else O
  | [] => O
  end.

(** [glibc_names_at]'s [for j in i..count]: the first type of each kind not yet named; a zone has as many
    indices as transitions. *)
Fixpoint name_following (z : Zone) (ixs : list Z) (std dst : option LocalType) :
    option (option LocalType * option LocalType) :=
  match ixs with
  | [] => Some (std, dst)
  | i :: ixs =>
      next ← type_at z i;
      match (if isdst next then dst else std) with
      | Some _ => name_following z ixs std dst
      | None =>
          let '(std, dst) := if isdst next then (std, Some next) else (Some next, dst) in
          match std, dst with
          | Some _, Some _ => Some (std, dst)
          | _, _ => name_following z ixs std dst
          end
      end
  end.

(** [glibc_names_at], for a zone with transitions *)
Definition glibc_names_at (z : Zone) (t : Z) : option (LocalType * LocalType) :=
  let count := length (transitions z) in
  t0 ← transitions z !! 0%nat;
  names ←
    (if t <? t0 then
       let i := leading_dst (types z) in
       let names1 := if (0 <? Z.of_nat i) then types z !! 0%nat else None in
       let i := if bool_decide (i = length (types z)) then O else i in
       names0 ← types z !! i;
       Some (inr (Some names0,
                  match names1 with
                  | Some ty => Some ty
                  | None => find_first isdst (drop i (types z))
                  end))
     else
       last ← transitions z !! (count - 1)%nat;
       match (if last <=? t then rule z else None) with
       | Some r => Some (inl (std r, from_option (λ d, d.1.1) (std r) (dst r)))
       | None =>
           let i := partition_point (λ x, x <=? t) (transitions z) in
           (* [i - 1] underflows when no transition is before [t] *)
           before ← match i with O => None | S i => indices z !! i ≫= type_at z end;
           let '(std, dst) :=
             if isdst before then (None, Some before) else (Some before, None) in
           '(std, dst) ← name_following z (drop i (take count (indices z))) std dst;
           Some (inr (match std with None => dst | Some _ => std end, dst))
       end);
  match names with
  | inl both => Some both
  | inr (std, dst) =>
      type0 ← types z !! 0%nat;
      let std := default type0 std in
      Some (std, default std dst)
  end.

(** [note_conversion]: the names after the C library converts [t], from [names]. *)
Definition note_conversion (os : target_os) (z : Zone) (t : Z) (names : list Z * list Z) :
    option (list Z * list Z) :=
  ty ← at_ os z t;
  if is_macos os then
    Some (if isdst ty then (names.1, abbr ty) else (abbr ty, names.2))
  else
    match transitions z with
    | [] => Some names
    | _ =>
        '(std, dst) ← glibc_names_at z t;
        Some (abbr std, abbr dst)
    end.

(** ** localtime_r(3) *)

(** [struct tm] *)
Record tm := {
  tm_sec : Z; tm_min : Z; tm_hour : Z; tm_mday : Z; tm_mon : Z; tm_year : Z;
  tm_wday : Z; tm_yday : Z; tm_isdst : Z; tm_gmtoff : Z; tm_zone : list Z;
}.

(** [break_down]: [None] for an index out of range, [Some None] for [false]. *)
Definition break_down (os : target_os) (z : Zone) (t : Z) : option (option tm) :=
  if 2 ^ 56 <=? Z.abs t then Some None
  else
    ty ← at_ os z t;
    match checked_add_i64 t (utoff ty) with
    | None => Some None
    | Some local =>
        let days := local / 86400 in
        let secs := local mod 86400 in
        let '(year, month, day) := civil_from_days days in
        if in_i32 (year - 1900) then
          Some (Some {|
            tm_sec := Z.rem secs 60;
            tm_min := Z.rem (Z.quot secs 60) 60;
            tm_hour := Z.quot secs 3600;
            tm_mday := day;
            tm_mon := month - 1;
            tm_year := year - 1900;
            tm_wday := (days + 4) mod 7;
            tm_yday := days - days_from_civil year 1 1;
            tm_isdst := b2z (isdst ty);
            tm_gmtoff := utoff ty;
            tm_zone := abbr ty;
          |})
        else Some None
    end.
