(* ===== verification/TzZoneProps.v ===== *)
(** * Correctness of local time zones

    The day a TZ rule names, the type a zone has at an instant, and the fields localtime_r(3)
    fills in. *)

From S2P Require Import Prelude Calendar TzZone.

(** ** Day counts *)

(** The days before March 1 of a year, counted from March 1 of year 0. *)
Definition march_days (y : Z) : Z := 365 * y + y / 4 - y / 100 + y / 400.

Lemma march_days_era y :
  y / 400 * 146097 + ((y - y / 400 * 400) * 365 + (y - y / 400 * 400) / 4 - (y - y / 400 * 400) / 100) =
    march_days y.
Proof. unfold march_days. dlia. Qed.

Lemma march_days_step y : march_days y = march_days (y - 1) + 365 + b2z (is_leap y).
Proof.
  unfold march_days. destruct (is_leap y) eqn:E.
  - apply is_leap_spec in E. simpl. dlia.
  - assert (¬ (y mod 4 = 0 ∧ (y mod 100 ≠ 0 ∨ y mod 400 = 0))) as E'
      by (rewrite <- is_leap_spec, E; done). simpl. dlia.
Qed.

Lemma march_days_mono a b : a ≤ b → march_days a + 365 * (b - a) ≤ march_days b.
Proof. unfold march_days. intros H. dlia. Qed.

(** The days before a month of a common year. *)
Definition month_start (m : Z) : Z :=
  match m with
  | 1 => 0 | 2 => 31 | 3 => 59 | 4 => 90 | 5 => 120 | 6 => 151 | 7 => 181 | 8 => 212
  | 9 => 243 | 10 => 273 | 11 => 304 | _ => 334
  end.

Lemma month_cases m : 1 ≤ m ≤ 12 →
  m = 1 ∨ m = 2 ∨ m = 3 ∨ m = 4 ∨ m = 5 ∨ m = 6 ∨ m = 7 ∨ m = 8 ∨ m = 9 ∨ m = 10 ∨ m = 11 ∨ m = 12.
Proof. lia. Qed.

(** Case analysis on a month. *)
Ltac by_month H :=
  destruct (month_cases _ H) as [->|[->|[->|[->|[->|[->|[->|[->|[->|[->|[->| ->]]]]]]]]]]].

Lemma days_from_civil_march y m d :
  days_from_civil y m d =
    march_days (if m <=? 2 then y - 1 else y) + (153 * ((m + 9) mod 12) + 2) / 5 + d - 1 - 719468.
Proof. unfold days_from_civil. rewrite <- march_days_era. lia. Qed.

Lemma days_from_civil_jan1 y : days_from_civil y 1 1 = march_days (y - 1) + 306 - 719468.
Proof. rewrite days_from_civil_march. change ((153 * ((1 + 9) mod 12) + 2) / 5) with 306. simpl. lia. Qed.

(** A day as an offset from January 1. *)
Lemma days_from_civil_yday y m d : 1 ≤ m ≤ 12 →
  days_from_civil y m d =
    days_from_civil y 1 1 + month_start m + (d - 1) + b2z (is_leap y && (3 <=? m)).
Proof.
  intros Hm. rewrite days_from_civil_jan1, days_from_civil_march. pose proof (march_days_step y) as Hs.
  by_month Hm; match goal with |- context [(153 * ?k + 2) / 5] =>
    let v := eval vm_compute in ((153 * k + 2) / 5) in change ((153 * k + 2) / 5) with v end;
    cbn; destruct (is_leap y); cbn in *; lia.
Qed.

Lemma month_length_bounds y m : 28 ≤ month_length y m ≤ 31.
Proof. unfold month_length. repeat case_match; lia. Qed.

(** The day of the year of a date. *)
Lemma yday_bounds y m d : valid_date y m d →
  0 ≤ month_start m + (d - 1) + b2z (is_leap y && (3 <=? m)) ≤ 364 + b2z (is_leap y).
Proof.
  intros [Hm Hd]. by_month Hm; unfold month_length in Hd; cbn in *; destruct (is_leap y); cbn in *; lia.
Qed.

(** A day of a month, by its number. *)
Lemma civil_of_month_day y m k : 1 ≤ m ≤ 12 → 0 ≤ k < month_length y m →
  civil_from_days (days_from_civil y m 1 + k) = (y, m, k + 1).
Proof.
  intros Hm Hk. rewrite <- (days_from_civil_inv y m (k + 1)) by (split; lia).
  f_equal. rewrite !days_from_civil_march. lia.
Qed.

(** ** The day a rule names *)

Lemma step_back_spec fuel day len : 0 < len → day < len + 7 * Z.of_nat fuel → 
  let r := step_back fuel day len in
  r < len ∧ r mod 7 = day mod 7 ∧ (day < len → r = day) ∧ (len ≤ day → len - 7 ≤ r).
Proof.
  intros Hl. revert day. induction fuel as [|fuel IH]; intros day Hd; cbn [step_back].
  - cbn zeta. split_and!; lia.
  - destruct (Z.leb_spec len day).
    + destruct (IH (day - 7) ltac:(lia)) as (? & Hm & Hs & Hg). cbn zeta in *. split_and!; [done| |lia|].
      * rewrite Hm. dlia.
      * intros _. destruct (Z.lt_ge_cases (day - 7) len); [rewrite Hs; lia|auto].
    + cbn zeta. split_and!; lia.
Qed.

(** a rule day [Mm.w.d] is in month [m] of its year, a [d] day of the week, and the [w]th one
    of the month, or the last for [w] 5. *)
Theorem month_rule_day year m w d : 1 ≤ m ≤ 12 → 1 ≤ w ≤ 5 → 0 ≤ d ≤ 6 →
  ∃ mday, civil_from_days (day_of year (Month m w d)) = (year, m, mday) ∧
    (day_of year (Month m w d) + 4) mod 7 = d ∧
    (w < 5 → 7 * (w - 1) < mday ≤ 7 * w) ∧
    (w = 5 → month_length year m - 7 < mday).
Proof.
  intros Hm Hw Hd. cbn [day_of]. pose proof (month_length_bounds year m) as Hlen.
  set (first := days_from_civil year m 1).
  set (day := (d - (first + 4) mod 7) mod 7 + 7 * (w - 1)).
  destruct (step_back_spec (Z.to_nat w) day (month_length year m)) as (Hr & Hmod & Hs & Hg);
    [lia|subst day; dlia|]. cbn zeta in *.
  set (r := step_back _ _ _) in *.
  assert (0 ≤ r) by (destruct (Z.lt_ge_cases day (month_length year m)); [rewrite Hs by lia; subst day; dlia|lia]).
  exists (r + 1). split_and!.
  - by apply civil_of_month_day.
  - clearbody r. subst day. dlia.
  - intros. rewrite Hs; subst day; dlia.
  - intros ->. destruct (Z.lt_ge_cases day (month_length year m)); [|lia].
    rewrite Hs by lia. subst day. dlia.
Qed.

(** The European rule in 2023: the last Sunday of March, the 26th. *)
Lemma month_rule_day_witness :
  ∃ mday, civil_from_days (day_of 2023 (Month 3 5 0)) = (2023, 3, mday) ∧
    (day_of 2023 (Month 3 5 0) + 4) mod 7 = 0 ∧
    (5 < 5 → 7 * (5 - 1) < mday ≤ 7 * 5) ∧ (5 = 5 → month_length 2023 3 - 7 < mday).
Proof. apply (month_rule_day 2023 3 5 0); lia. Defined.

(** a rule day [Jn] is the same date in every year: the [n]th of a common year. *)
Theorem julian_rule_day year n : 1 ≤ n ≤ 365 →
  ∃ m d, civil_from_days (n - 1) = (1970, m, d) ∧
    civil_from_days (day_of year (Julian n)) = (year, m, d).
Proof.
  intros Hn. pose proof (civil_from_days_valid (n - 1)) as Hv.
  destruct (civil_from_days (n - 1)) as [[y m] d] eqn:E. destruct Hv as [[Hm Hd] Hdays].
  assert (y = 1970) as ->.
  { rewrite days_from_civil_yday, days_from_civil_jan1 in Hdays by done.
    pose proof (yday_bounds y m d ltac:(by split)). pose proof (march_days_step y) as Hs.
    assert (march_days 1969 = 719162) as E1 by done. assert (march_days 1970 = 719527) as E2 by done.
    destruct (Z.lt_trichotomy y 1970) as [?|[?|?]]; [|done|].
    - pose proof (march_days_mono y 1969 ltac:(lia)). lia.
    - pose proof (march_days_mono 1970 (y - 1) ltac:(lia)). lia. }
  exists m, d. split; [done|].
  rewrite days_from_civil_yday in Hdays by done.
  change (days_from_civil 1970 1 1) with 0 in Hdays. change (is_leap 1970) with false in Hdays. cbn in Hdays.
  rewrite <- (days_from_civil_inv year m d).
  - f_equal. cbn [day_of]. rewrite (days_from_civil_yday year m d) by done.
    assert ((59 <=? n - 1) = (3 <=? m)) as ->; [|lia].
    apply eq_iff_eq_true. rewrite !Z.leb_le.
    by_month Hm; cbn in Hdays; match type of Hd with _ ≤ _ ≤ ?l =>
      let v := eval vm_compute in l in change l with v in Hd end; lia.
  - split; [done|]. by_month Hm; try exact Hd. change (month_length 1970 2) with 28 in Hd.
    unfold month_length. cbn. destruct (is_leap year); lia.
Qed.

(** [J60] is March 1, also in the leap year 2024. *)
Lemma julian_rule_day_witness :
  ∃ m d, civil_from_days (60 - 1) = (1970, m, d) ∧ civil_from_days (day_of 2024 (Julian 60)) = (2024, m, d).
Proof. apply (julian_rule_day 2024 60); lia. Defined.

(** the two calendar conversions are inverse to each other, and every day count is a date. *)
Theorem calendar_bijection days y m d :
  (let '(y, m, d) := civil_from_days days in valid_date y m d ∧ days_from_civil y m d = days) ∧
  (valid_date y m d → civil_from_days (days_from_civil y m d) = (y, m, d)).
Proof. split; [apply civil_from_days_valid|apply days_from_civil_inv]. Qed.

(** Leap day of year 0 and the day before the epoch. *)
Lemma calendar_bijection_witness :
  (let '(y, m, d) := civil_from_days (-1) in valid_date y m d ∧ days_from_civil y m d = -1) ∧
  (valid_date 0 2 29 → civil_from_days (days_from_civil 0 2 29) = (0, 2, 29)) ∧ valid_date 0 2 29.
Proof.
  destruct (calendar_bijection (-1) 0 2 29) as [H1 H2]. split_and!; [exact H1|exact H2|].
  split; vm_compute; split; discriminate.
Defined.

(** ** The type in effect at an instant, and its fields

    [partition_point] against its contract, the zones that never index out of range, and the
    correctness of [Zone::at] and [break_down] on them. *)

(** *** Binary search *)

Section partition.
Context {A : Type} (p : A → bool) (l : list A).

(** Whether the element at [i] is there and has [p]. *)
Definition holds (i : nat) : bool := from_option p false (l !! i).

(** The elements with [p] come first. *)
Definition partitioned : Prop := ∀ i j, (i ≤ j)%nat → holds j = true → holds i = true.

Lemma partition_loop_bound fuel base size :
  (base + size ≤ length l)%nat → (1 ≤ size)%nat →
  (partition_loop fuel p l base size < length l)%nat.
Proof.
  revert base size. induction fuel as [|fuel IH]; intros base size Hb Hs; cbn [partition_loop]; [lia|].
  destruct (Z.ltb_spec 1 (Z.of_nat size)); [|lia].
  rewrite Nat.div2_div.
  assert (1 ≤ size / 2)%nat by (apply Nat.div_le_lower_bound; lia).
  assert (size / 2 < size)%nat by (apply Nat.div_lt; lia).
  destruct (from_option p false _); apply IH; lia.
Qed.

Lemma partition_point_cons : l ≠ [] → partition_point p l =
  let base := partition_loop (length l) p l 0 (length l) in if holds base then S base else base.
Proof. unfold partition_point, holds. by destruct l. Qed.

Lemma partition_point_le : (partition_point p l ≤ length l)%nat.
Proof.
  destruct (decide (l = [])) as [El|El]; [by rewrite El|]. rewrite partition_point_cons by done.
  assert (1 ≤ length l)%nat by (destruct l; simpl; [done|lia]).
  pose proof (partition_loop_bound (length l) 0 (length l) ltac:(lia) ltac:(done)).
  cbn zeta. destruct (holds _); lia.
Qed.

Lemma partition_loop_spec fuel base size : partitioned →
  (size ≤ S fuel)%nat → (1 ≤ size)%nat → (base + size ≤ length l)%nat →
  (∀ i, (i < base)%nat → holds i = true) → (∀ i, (base + size ≤ i)%nat → holds i = false) →
  let b := partition_loop fuel p l base size in
  (∀ i, (i < b)%nat → holds i = true) ∧ (∀ i, (S b ≤ i)%nat → holds i = false).
Proof.
  intros Hp. revert base size. induction fuel as [|fuel IH]; intros base size Hf Hs Hb Hlo Hhi; cbn [partition_loop].
  - cbn zeta. split; [done|]. intros i Hi. apply Hhi. lia.
  - destruct (Z.ltb_spec 1 (Z.of_nat size)) as [Hlt|Hlt].
    2:{ cbn zeta. split; [done|]. intros i Hi. apply Hhi. lia. }
    rewrite Nat.div2_div.
    assert (1 ≤ size / 2)%nat by (apply Nat.div_le_lower_bound; lia).
    assert (size / 2 < size)%nat by (apply Nat.div_lt; lia).
    assert (size / 2 ≤ size - size / 2)%nat by (pose proof (Nat.Div0.mul_div_le size 2); lia).
    fold (holds (base + size / 2)). destruct (holds (base + size / 2)) eqn:E.
    + apply IH; try lia.
      * intros i Hi. apply (Hp _ (base + size / 2)%nat); [lia|done].
      * intros i Hi. apply Hhi. lia.
    + apply IH; try lia; [done|]. intros i Hi.
      destruct (holds i) eqn:Ei; [|done]. rewrite <- E. symmetry. apply (Hp _ i); [lia|done].
Qed.

(** [partition_point] finds the end of the elements with [p]. *)
Lemma partition_point_spec : partitioned →
  ∀ i, holds i = bool_decide (i < partition_point p l)%nat.
Proof.
  intros Hp i. destruct (decide (l = [])) as [El|El].
  { unfold holds. by rewrite El. }
  rewrite partition_point_cons by done.
  assert (1 ≤ length l)%nat by (destruct l; simpl; [done|lia]).
  destruct (partition_loop_spec (length l) 0 (length l) Hp) as [Hlo Hhi]; [lia..| |].
  { intros j Hj. unfold holds. by rewrite lookup_ge_None_2. }
  cbn zeta in *. set (b := partition_loop _ _ _ _ _) in *.
  destruct (Nat.lt_trichotomy i b) as [?|[->|?]].
  - rewrite Hlo by done. symmetry. apply bool_decide_eq_true. destruct (holds b); lia.
  - destruct (holds b) eqn:E; symmetry; [apply bool_decide_eq_true|apply bool_decide_eq_false]; lia.
  - rewrite Hhi by lia. symmetry. apply bool_decide_eq_false. destruct (holds b); lia.
Qed.

End partition.

Lemma sorted_partitioned t l : StronglySorted Z.le l → partitioned (λ x, x <=? t) l.
Proof.
  intros Hs i j Hij. unfold holds. destruct (l !! j) as [y|] eqn:Ej; simpl; [|done].
  destruct (lookup_lt_is_Some_2 l i) as [x Ex]; [apply lookup_lt_Some in Ej; lia|]. rewrite Ex. simpl.
  rewrite !Z.leb_le. intros Hy. destruct (decide (i = j)) as [->|]; [congruence|].
  assert (x ≤ y); [|lia].
  revert i j Hij x y Ex Ej n Hy. induction Hs as [|z l Hs IH Hz]; intros [|i] [|j] Hij x y Ex Ej n Hy; simplify_eq/=; try lia.
  - rewrite list.Forall_forall in Hz. apply Hz. by eapply list_elem_of_lookup_2.
  - apply (IH i j); auto; lia.
Qed.

(** *** Well-formed zones *)

(** An offset that fits its [i32]. *)
Definition type_ok (ty : LocalType) : bool := in_i32 (utoff ty).

Definition rule_ok (r : Rule) : bool :=
  type_ok (std r) && match dst r with Some (d, _, _) => type_ok d | None => true end.

(** A zone whose indices are in range: a type for each transition, and at least one type. *)
Definition zone_ok (z : Zone) : bool :=
  bool_decide (length (indices z) = length (transitions z)) &&
  forallb (λ i, (0 <=? i) && (i <? Z.of_nat (length (types z)))) (indices z) &&
  (0 <? Z.of_nat (length (types z))) && forallb type_ok (types z) && from_option rule_ok true (rule z).

Lemma forallb_elem {A} (f : A → bool) l x : forallb f l = true → x ∈ l → f x = true.
Proof. rewrite forallb_forall. intros H Hx. apply H. by apply list_elem_of_In. Qed.

Section zone.
Context (z : Zone) (Hz : zone_ok z = true).

Lemma zone_ok_parts :
  length (indices z) = length (transitions z) ∧
  (∀ i, i ∈ indices z → 0 ≤ i < Z.of_nat (length (types z))) ∧
  (0 < length (types z))%nat ∧ (∀ ty, ty ∈ types z → type_ok ty = true) ∧
  (∀ r, rule z = Some r → rule_ok r = true).
Proof.
  unfold zone_ok in Hz. rewrite !andb_true_iff in Hz. destruct Hz as ((((Hl & Hi) & Ht) & Hty) & Hr).
  apply bool_decide_eq_true in Hl. apply Z.ltb_lt in Ht. split_and!; [done| |lia| |].
  - intros i Hin. apply (forallb_elem _ _ _ Hi) in Hin. rewrite andb_true_iff, Z.leb_le, Z.ltb_lt in Hin. lia.
  - intros ty Hin. by apply (forallb_elem _ _ _ Hty).
  - intros r Er. by rewrite Er in Hr.
Qed.

(** A transition's type is there. *)
Lemma type_at_ok i : i ∈ indices z → ∃ ty, type_at z i = Some ty ∧ type_ok ty = true.
Proof.
  destruct zone_ok_parts as (_ & Hi & _ & Hty & _). intros Hin. specialize (Hi i Hin).
  destruct (lookup_lt_is_Some_2 (types z) (Z.to_nat i)) as [ty E]; [lia|].
  exists ty. split; [done|]. apply Hty. by eapply list_elem_of_lookup_2.
Qed.

Lemma type0_ok : ∃ ty, types z !! 0%nat = Some ty ∧ type_ok ty = true.
Proof.
  destruct zone_ok_parts as (_ & _ & Ht & Hty & _).
  destruct (lookup_lt_is_Some_2 (types z) 0 Ht) as [ty E]. exists ty. split; [done|].
  apply Hty. by eapply list_elem_of_lookup_2.
Qed.

Lemma transition_type_ok i : (i < length (transitions z))%nat →
  ∃ ty, indices z !! i ≫= type_at z = Some ty ∧ type_ok ty = true.
Proof.
  destruct zone_ok_parts as (Hl & _). intros Hi.
  destruct (lookup_lt_is_Some_2 (indices z) i) as [k E]; [lia|]. rewrite E. simpl.
  apply type_at_ok. by eapply list_elem_of_lookup_2.
Qed.

Lemma rule_at_ok os r t : rule_ok r = true → type_ok (rule_at os r t) = true.
Proof.
  unfold rule_ok, rule_at. rewrite andb_true_iff. intros [Hs Hd]. destruct (dst r) as [[[d s] e]|]; [|done].
  cbn zeta. by destruct (if _ <? _ then _ else _).
Qed.

(** A well-formed zone has a type at every instant. *)
Lemma at_ok os t : ∃ ty, at_ os z t = Some ty ∧ type_ok ty = true.
Proof.
  destruct zone_ok_parts as (_ & _ & _ & _ & Hr). unfold at_. cbn zeta.
  set (early := if is_macos os then _ else _).
  destruct early as [ty|] eqn:E.
  { exists ty. split; [done|]. subst early. destruct (is_macos os); [|done].
    destruct (transitions z); [|done]. destruct (rule z) as [r|]; [|done].
    destruct (first_change os r); [|done]. destruct (t <? z0); [|done]. injection E as <-.
    specialize (Hr r eq_refl). unfold rule_ok in Hr. by apply andb_true_iff in Hr as [? _]. }
  clear early E. pose proof (partition_point_le (λ x, x <=? t) (transitions z)) as Hp.
  case_bool_decide as El; [destruct (rule z) as [r|]|].
  { eexists. split; [done|]. by apply rule_at_ok, Hr. }
  all: destruct (partition_point _ _) as [|i]; [apply type0_ok|apply transition_type_ok; lia].
Qed.

End zone.

(** with its transitions in order, a zone has from each transition the type it names until
    the next one, its rule's after the last where it has a rule, and its first type before the
    first. *)
Theorem zone_at_latest os z t :
  StronglySorted Z.le (transitions z) → transitions z ≠ [] →
  (∀ i x, transitions z !! i = Some x → x ≤ t → (∀ y, transitions z !! S i = Some y → t < y) →
     at_ os z t = match rule z with
                  | Some r => if bool_decide (S i = length (transitions z)) then Some (rule_at os r t)
                              else indices z !! i ≫= type_at z
                  | None => indices z !! i ≫= type_at z
                  end) ∧
  ((∀ x, transitions z !! 0%nat = Some x → t < x) → at_ os z t = types z !! 0%nat).
Proof.
  intros Hs Hne. unfold at_. cbn zeta.
  replace (if is_macos os then _ else None) with (@None LocalType)
    by (destruct (is_macos os); [|done]; by destruct (transitions z)).
  pose proof (partition_point_spec (λ x, x <=? t) (transitions z) (sorted_partitioned t _ Hs)) as Hp.
  set (k := partition_point _ _) in *. split.
  - intros i x Hi Hx Hnext. assert (k = S i) as ->.
    { pose proof (Hp i) as H1. pose proof (Hp (S i)) as H2. unfold holds in H1, H2. rewrite Hi in H1.
      simpl in H1. rewrite (proj2 (Z.leb_le _ _) Hx) in H1. symmetry in H1. apply bool_decide_eq_true in H1.
      assert (from_option (λ x, x <=? t) false (transitions z !! S i) = false) as H3.
      { destruct (transitions z !! S i) as [y|]; [|done]. simpl. apply Z.leb_gt. auto. }
      rewrite H3 in H2. symmetry in H2. apply bool_decide_eq_false in H2. lia. }
    case_bool_decide; by destruct (rule z).
  - intros Hlt. assert (k = 0%nat) as ->.
    { pose proof (Hp 0%nat) as H1. unfold holds in H1. destruct (transitions z) as [|x l]; [done|]. simpl in *.
      rewrite (proj2 (Z.leb_gt _ _) (Hlt x eq_refl)) in H1. symmetry in H1. apply bool_decide_eq_false in H1. lia. }
    case_bool_decide as E; [|done]. symmetry in E. by apply nil_length_inv in E.
Qed.

(** A zone that moved once, and the instants around its move. *)
Definition moved_once : Zone :=
  {| transitions := [1000]; indices := [1];
     types := [{| utoff := 0; isdst := false; abbr := [] |}; {| utoff := 3600; isdst := false; abbr := [] |}];
     rule := None; posix := false; quirk := NoQuirk |}.

Lemma zone_at_latest_witness :
  at_ Linux moved_once 1000 = [1] !! 0%nat ≫= type_at moved_once ∧
  at_ Linux moved_once 999 = types moved_once !! 0%nat.
Proof.
  assert (StronglySorted Z.le (transitions moved_once)) as Hs by (repeat constructor).
  assert (transitions moved_once ≠ []) as Hne by done. split.
  - apply (proj1 (zone_at_latest Linux moved_once 1000 Hs Hne) 0%nat 1000); [done|lia|done].
  - apply (proj2 (zone_at_latest Linux moved_once 999 Hs Hne)). intros x [= <-]. lia.
Defined.

(** *** The fields of an instant *)

(** The day and second a [struct tm] names, as if UTC. *)
Definition tm_days (f : tm) : Z := days_from_civil (tm_year f + 1900) (tm_mon f + 1) (tm_mday f).
Definition tm_local (f : tm) : Z :=
  tm_days f * 86400 + tm_hour f * 3600 + tm_min f * 60 + tm_sec f.

(** Every field in its range, and the day of the week and year those of the date. *)
Definition tm_normal (f : tm) : Prop :=
  0 ≤ tm_sec f < 60 ∧ 0 ≤ tm_min f < 60 ∧ 0 ≤ tm_hour f < 24 ∧
  valid_date (tm_year f + 1900) (tm_mon f + 1) (tm_mday f) ∧ in_i32 (tm_year f) = true ∧
  tm_wday f = (tm_days f + 4) mod 7 ∧
  tm_yday f = tm_days f - days_from_civil (tm_year f + 1900) 1 1 ∧
  0 ≤ tm_yday f ≤ 364 + b2z (is_leap (tm_year f + 1900)).

Lemma in_i32_spec x : in_i32 x = true ↔ i32_min ≤ x ≤ i32_max.
Proof. unfold in_i32. rewrite andb_true_iff, !Z.leb_le. tauto. Qed.

(** Every year [tm_year] holds lies within 2^56 seconds of the epoch, with 2^31 to spare for an
    offset. *)
Lemma far_years y m d : valid_date y m d → in_i32 (y - 1900) = true →
  -(2 ^ 56 - 2 ^ 31) < days_from_civil y m d * 86400 < 2 ^ 56 - 2 ^ 31 - 86400.
Proof.
  intros Hv Hy%in_i32_spec. pose proof (yday_bounds y m d Hv). destruct Hv as [Hm _].
  rewrite days_from_civil_yday, days_from_civil_jan1 by done.
  destruct (is_leap y); cbn [b2z] in *; unfold march_days; dlia.
Qed.

(** The fields [break_down] fills in. *)
Lemma break_down_spec os z t : zone_ok z = true →
  ∃ ty, at_ os z t = Some ty ∧
    let local := t + utoff ty in
    if in_i32 ((civil_from_days (local / 86400)).1.1 - 1900) then
      ∃ f, break_down os z t = Some (Some f) ∧ tm_normal f ∧ tm_local f = local ∧
        tm_isdst f = b2z (isdst ty) ∧ tm_gmtoff f = utoff ty ∧ tm_zone f = abbr ty
    else break_down os z t = Some None.
Proof.
  intros Hz. destruct (at_ok z Hz os t) as (ty & Hat & Hty%in_i32_spec). exists ty. split; [done|]. cbn zeta.
  unfold break_down. rewrite Hat. cbn [mbind option_bind].
  pose proof (civil_from_days_valid ((t + utoff ty) / 86400)) as Hv.
  destruct (civil_from_days ((t + utoff ty) / 86400)) as [[y m] d] eqn:E. destruct Hv as [Hv Hdays]. cbn [fst].
  destruct (Z.leb_spec (2 ^ 56) (Z.abs t)).
  { destruct (in_i32 (y - 1900)) eqn:Ey; [|done]. pose proof (far_years y m d Hv Ey). dlia. }
  unfold checked_add_i64. assert (in_i64 (t + utoff ty) = true) as ->
    by (unfold in_i64; rewrite andb_true_iff, !Z.leb_le; lia).
  rewrite E. destruct (in_i32 (y - 1900)) eqn:Ey; [|done]. eexists. split; [done|].
  unfold tm_normal, tm_local, tm_days. cbn [tm_sec tm_min tm_hour tm_mday tm_mon tm_year tm_wday tm_yday tm_isdst tm_gmtoff tm_zone].
  replace (y - 1900 + 1900) with y by lia. replace (m - 1 + 1) with m by lia. rewrite Hdays.
  pose proof (yday_bounds y m d Hv). destruct Hv as [Hm Hd].
  rewrite days_from_civil_yday in Hdays by done.
  split_and!; try done; try lia; dlia.
Qed.

(** localtime_r(3) in a well-formed zone fills in the date and time of day of the instant at
    the zone's offset then, every field in range and the day of the week and of the year with
    them, and fails exactly when the year does not fit [tm_year]. *)
Theorem local_fields os z t : zone_ok z = true →
  ∃ ty, at_ os z t = Some ty ∧
    let local := t + utoff ty in
    if in_i32 ((civil_from_days (local / 86400)).1.1 - 1900) then
      ∃ f, break_down os z t = Some (Some f) ∧ tm_normal f ∧ tm_local f = local ∧
        tm_isdst f = b2z (isdst ty) ∧ tm_gmtoff f = utoff ty ∧ tm_zone f = abbr ty
    else break_down os z t = Some None.
Proof. apply break_down_spec. Qed.

(** The year 2^31 after 1900 does not fit; the epoch does. *)
Lemma local_fields_witness :
  zone_ok moved_once = true ∧
  break_down Linux moved_once 67768036191676800 = Some None ∧
  ∃ ty, at_ Linux moved_once 0 = Some ty ∧
    let local := 0 + utoff ty in
    if in_i32 ((civil_from_days (local / 86400)).1.1 - 1900) then
      ∃ f, break_down Linux moved_once 0 = Some (Some f) ∧ tm_normal f ∧ tm_local f = local ∧
        tm_isdst f = b2z (isdst ty) ∧ tm_gmtoff f = utoff ty ∧ tm_zone f = abbr ty
    else break_down Linux moved_once 0 = Some None.
Proof.
  assert (zone_ok moved_once = true) as Hz by reflexivity.
  split_and!; [exact Hz|vm_compute; reflexivity|exact (local_fields Linux moved_once 0 Hz)].
Defined.
