(* ===== verification/TzParse.v ===== *)
(** * Parsing time zones

    Models [Parser] and [parse_posix] of crates/snare-interpose/src/os/tz.rs, which read a POSIX
    TZ string, [parse_tzif], which reads a TZif file, and the choice between them of [resolve]
    and its helpers. A byte is a [Z]. The [Parser] over [s] at [at] is its unread bytes
    [&s[at..]]; an operation that gives [None] ends the parse everywhere, so where it leaves [at]
    does not matter. *)

From S2P Require Import Prelude Bytes Calendar TzZone.

(** ** Bytes *)

Definition is_ascii_digit (c : Z) : bool := (48 <=? c) && (c <=? 57).
Definition is_ascii_alphabetic (c : Z) : bool :=
  ((65 <=? c) && (c <=? 90)) || ((97 <=? c) && (c <=? 122)).
Definition is_ascii_alphanumeric (c : Z) : bool := is_ascii_alphabetic c || is_ascii_digit c.

(** [while self.peek().is_some_and(p) { self.at += 1; }]: the bytes passed and the rest. *)
Fixpoint take_while (p : Z → bool) (s : list Z) : list Z * list Z :=
  match s with
  | c :: s' => if p c then let '(name, rest) := take_while p s' in (c :: name, rest) else ([], s)
  | [] => ([], [])
  end.

(** ** [Parser] *)

(** [Parser::peek] *)
Definition peek (s : list Z) : option Z := head s.

(** [Parser::done] *)
Definition done (s : list Z) : bool := match s with [] => true | _ => false end.

(** [Parser::eat] *)
Definition eat (c : Z) (s : list Z) : option (list Z) :=
  match s with
  | c' :: s' => if c' =? c then Some s' else None
  | [] => None
  end.

(** A byte of a [<...>] abbreviation *)
Definition name_byte (c : Z) : bool := is_ascii_alphanumeric c || (c =? 43) || (c =? 45).

(** [(name.len() >= 3).then_some(name)] *)
Definition long_enough (name rest : list Z) : option (list Z * list Z) :=
  if 3 <=? Z.of_nat (length name) then Some (name, rest) else None.

(** [Parser::name] *)
Definition name (s : list Z) : option (list Z * list Z) :=
  match eat 60 s with
  | Some s =>
      let '(name, rest) := take_while name_byte s in
      rest ← eat 62 rest;
      long_enough name rest
  | None =>
      let '(name, rest) := take_while is_ascii_alphabetic s in
      long_enough name rest
  end.

(** The loop of [Parser::number], [n] read so far *)
Fixpoint digits (n : Z) (s : list Z) : option (Z * list Z) :=
  match s with
  | c :: s' =>
      if is_ascii_digit c then
        if u32_max <? n * 10 then None
        else if u32_max <? n * 10 + (c - 48) then None
        else digits (n * 10 + (c - 48)) s'
      else Some (n, s)
  | [] => Some (n, [])
  end.

(** [Parser::number] *)
Definition number (max : Z) (s : list Z) : option (Z * list Z) :=
  '(n, rest) ← digits 0 s;
  if (Z.of_nat (length rest) <? Z.of_nat (length s)) && (n <=? max) then Some (n, rest) else None.

(** [self.number(max).filter(|&n| n >= 1)] *)
Definition positive_number (max : Z) (s : list Z) : option (Z * list Z) :=
  '(n, rest) ← number max s;
  if 1 <=? n then Some (n, rest) else None.

(** [Parser::offset] *)
Definition offset (max_hours : Z) (s : list Z) : option (Z * list Z) :=
  let '(sign, s) :=
    match s with
    | c :: s' => if c =? 45 then (-1, s') else if c =? 43 then (1, s') else (1, s)
    | [] => (1, s)
    end in
  '(hours, s) ← number max_hours s;
  let secs := hours * 3600 in
  match eat 58 s with
  | None => Some (sign * secs, s)
  | Some s =>
      '(minutes, s) ← number 59 s;
      let secs := secs + minutes * 60 in
      match eat 58 s with
      | None => Some (sign * secs, s)
      | Some s =>
          '(seconds, s) ← number 59 s;
          Some (sign * (secs + seconds), s)
      end
  end.

(** The date of [Parser::change] *)
Definition rule_day (s : list Z) : option (Day * list Z) :=
  c ← peek s;
  if c =? 74 then
    '(n, s) ← positive_number 365 (tail s);
    Some (Julian n, s)
  else if c =? 77 then
    '(month, s) ← positive_number 12 (tail s);
    s ← eat 46 s;
    '(week, s) ← positive_number 5 s;
    s ← eat 46 s;
    '(weekday, s) ← number 6 s;
    Some (Month month week weekday, s)
  else
    '(n, s) ← number 365 s;
    Some (Ordinal n, s).

(** [Parser::change] *)
Definition parse_change (s : list Z) : option (Change * list Z) :=
  '(day, s) ← rule_day s;
  match eat 47 s with
  | Some s =>
      '(time, s) ← offset 167 s;
      Some ((day, time), s)
  | None => Some ((day, 7200), s)
  end.

(** [parse_posix] *)
Definition parse_posix (s : list Z) : option Rule :=
  '(std_name, s) ← name s;
  '(std_offset, s) ← offset 24 s;
  let std_utoff := - std_offset in
  let std := {| utoff := std_utoff; isdst := false; abbr := intern std_name |} in
  if done s then Some {| std := std; dst := None |}
  else
    '(dst_name, s) ← name s;
    '(dst_utoff, s) ←
      match peek s with
      | None => Some (std_utoff + 3600, s)
      | Some c =>
          if c =? 44 then Some (std_utoff + 3600, s)
          else '(o, s) ← offset 24 s; Some (- o, s)
      end;
    let dst := {| utoff := dst_utoff; isdst := true; abbr := intern dst_name |} in
    '(start, end_, s) ←
      (if done s then Some ((Month 3 2 0, 7200), (Month 11 1 0, 7200), s)
       else
         s ← eat 44 s;
         '(start, s) ← parse_change s;
         s ← eat 44 s;
         '(end_, s) ← parse_change s;
         Some (start, end_, s));
    if done s then Some {| std := std; dst := Some (dst, start, end_) |} else None.

(** ** TZif files *)

(** [data.get(at..at + n)] *)
Definition get_range (at_ n : Z) (data : list Z) : option (list Z) :=
  if at_ + n <=? Z.of_nat (length data) then Some (take (Z.to_nat n) (drop (Z.to_nat at_) data))
  else None.

(** The big-endian word of [h] at [i] *)
Definition be_u32 (h : list Z) (i : nat) : Z := from_be 0 (take 4 (drop i h)).

(** The six counts of a header: isutcnt, isstdcnt, leapcnt, timecnt, typecnt, charcnt. *)
Record counts := {
  isutcnt : Z; isstdcnt : Z; leapcnt : Z; timecnt : Z; typecnt : Z; charcnt : Z;
}.

(** [header], the closure of [parse_tzif] *)
Definition header (data : list Z) (at_ : Z) : option (Z * counts) :=
  h ← get_range at_ 44 data;
  if bool_decide (take 4 h = [84; 90; 105; 102]) then
    version ← h !! 4%nat;
    Some (version,
      {| isutcnt := be_u32 h 20; isstdcnt := be_u32 h 24; leapcnt := be_u32 h 28;
         timecnt := be_u32 h 32; typecnt := be_u32 h 36; charcnt := be_u32 h 40 |})
  else None.

(** [block_len], the closure of [parse_tzif] *)
Definition block_len (c : counts) (time : Z) : Z :=
  timecnt c * time + timecnt c + typecnt c * 6 + charcnt c + leapcnt c * (time + 4) +
  isstdcnt c + isutcnt c.

(** [chunks(n)] *)
Fixpoint chunks {A} (fuel : nat) (n : nat) (l : list A) : list (list A) :=
  match fuel, l with
  | _, [] => []
  | O, _ => []
  | S fuel, _ => take n l :: chunks fuel n (drop n l)
  end.

(** [i64::from_be_bytes(c)] and [i64::from(i32::from_be_bytes(c))] *)
Definition transition_of (time : Z) (c : list Z) : Z :=
  if time =? 8 then wrap_i64 (from_be 0 c) else wrap_i32 (from_be 0 c).

(** A local time type record *)
Definition info_of (chars c : list Z) : option LocalType :=
  dstb ← c !! 4%nat;
  start ← c !! 5%nat;
  abbr ← (if start <=? Z.of_nat (length chars) then Some (drop (Z.to_nat start) chars) else None);
  end_ ← position (Z.eqb 0) abbr;
  Some {| utoff := wrap_i32 (from_be 0 (take 4 c)); isdst := negb (dstb =? 0);
          abbr := intern (take end_ abbr) |}.

(** The footer of [parse_tzif]: [None] malformed, [Some None] empty *)
Definition footer_rule (data : list Z) (from : Z) : option (option Rule) :=
  if from <=? Z.of_nat (length data) then
    footer ← eat 10 (drop (Z.to_nat from) data);
    end_ ← position (Z.eqb 10) footer;
    match take end_ footer with
    | [] => Some None
    | tz => r ← parse_posix tz; Some (Some r)
    end
  else None.

(** [parse_tzif] *)
Definition parse_tzif (data : list Z) : option Zone :=
  '(version, v1) ← header data 0;
  '(at_, c, time) ←
    (if 50 <=? version then
       let second := 44 + block_len v1 4 in
       '(_, c) ← header data second;
       Some (second + 44, c, 8)
     else Some (44, v1, 4));
  if typecnt c =? 0 then None
  else
    body ← get_range at_ (block_len c time) data;
    let times := take (Z.to_nat (timecnt c * time)) body in
    let rest := drop (Z.to_nat (timecnt c * time)) body in
    let indices := take (Z.to_nat (timecnt c)) rest in
    let rest := drop (Z.to_nat (timecnt c)) rest in
    let infos := take (Z.to_nat (typecnt c * 6)) rest in
    let rest := drop (Z.to_nat (typecnt c * 6)) rest in
    let chars := take (Z.to_nat (charcnt c)) rest in
    let transitions := transition_of time <$> chunks (length times) (Z.to_nat time) times in
    if existsb (λ i, typecnt c <=? i) indices then None
    else
      types ← mapM (info_of chars) (chunks (length infos) 6 infos);
      rule ←
        (if 50 <=? version then footer_rule data (at_ + Z.of_nat (length body))
         else Some None);
      Some {| posix := false; quirk := NoQuirk; transitions := transitions; indices := indices;
              types := types; rule := rule |}.
