(* ===== verification/TzParseProps.v ===== *)
(** * Correctness of time zone parsing

    A printer of POSIX TZ strings that [parse_posix] inverts, the rules it can give, and the
    zones [parse_tzif] can give whatever the file holds. *)

From S2P Require Import Prelude Bytes Calendar TzZone TzZoneProps TzParse.

(** ** Printing *)

Definition print_number (n : Z) : list Z :=
  if n <? 10 then [48 + n]
  else if n <? 100 then [48 + n / 10; 48 + n mod 10]
  else [48 + n / 100; 48 + n / 10 mod 10; 48 + n mod 10].

(** [[-]hh:mm:ss] *)
Definition print_offset (o : Z) : list Z :=
  (if o <? 0 then [45] else []) ++ print_number (Z.abs o / 3600) ++
  [58] ++ print_number (Z.abs o / 60 mod 60) ++ [58] ++ print_number (Z.abs o mod 60).

Definition print_name (name : list Z) : list Z := [60] ++ name ++ [62].

Definition print_day (d : Day) : list Z :=
  match d with
  | Julian n => [74] ++ print_number n
  | Ordinal n => print_number n
  | Month m w d => [77] ++ print_number m ++ [46] ++ print_number w ++ [46] ++ print_number d
  end.

Definition print_change (c : Change) : list Z := print_day c.1 ++ [47] ++ print_offset c.2.

(** A daylight type an hour ahead of standard time has no offset of its own. *)
Definition print_posix (r : Rule) : list Z :=
  print_name (abbr (std r)) ++ print_offset (- utoff (std r)) ++
  match dst r with
  | None => []
  | Some (d, start, end_) =>
      print_name (abbr d) ++
      (if utoff d =? utoff (std r) + 3600 then [] else print_offset (- utoff d)) ++
      [44] ++ print_change start ++ [44] ++ print_change end_
  end.

(** ** The rules a TZ string can name *)

Definition name_valid (name : list Z) : bool :=
  (3 <=? Z.of_nat (length name)) && forallb name_byte name.

(** An offset of at most [max] hours, 59 minutes and 59 seconds *)
Definition offset_valid (max o : Z) : bool := Z.abs o <=? max * 3600 + 3599.

Definition day_valid (d : Day) : bool :=
  match d with
  | Julian n => (1 <=? n) && (n <=? 365)
  | Ordinal n => (0 <=? n) && (n <=? 365)
  | Month m w d =>
      (1 <=? m) && (m <=? 12) && (1 <=? w) && (w <=? 5) && (0 <=? d) && (d <=? 6)
  end.

Definition change_valid (c : Change) : bool := day_valid c.1 && offset_valid 167 c.2.

Definition rule_valid (r : Rule) : bool :=
  name_valid (abbr (std r)) && negb (isdst (std r)) && offset_valid 24 (utoff (std r)) &&
  match dst r with
  | None => true
  | Some (d, start, end_) =>
      name_valid (abbr d) && isdst d &&
      ((utoff d =? utoff (std r) + 3600) || offset_valid 24 (utoff d)) &&
      change_valid start && change_valid end_
  end.

(** Runs the parser up to its next number or name. *)
Ltac pstep := cbn [mbind option_bind app eat]; rewrite ?Z.eqb_refl; cbn [mbind option_bind app].

(** ** Numbers *)

(** What follows a number. *)
Definition no_digit (s : list Z) : bool :=
  match s with c :: _ => negb (is_ascii_digit c) | [] => true end.

Lemma digits_step n d s : 0 ≤ n → 0 ≤ d ≤ 9 → n * 10 + d ≤ u32_max →
  digits n (48 + d :: s) = digits (n * 10 + d) s.
Proof.
  intros Hn Hd Hm. cbn [digits]. unfold is_ascii_digit.
  rewrite (proj2 (Z.leb_le 48 (48 + d))), (proj2 (Z.leb_le (48 + d) 57)) by lia. cbn [andb].
  rewrite (proj2 (Z.ltb_ge u32_max (n * 10))) by lia.
  replace (n * 10 + (48 + d - 48)) with (n * 10 + d) by lia. by rewrite (proj2 (Z.ltb_ge _ _)) by lia.
Qed.

Lemma digits_end n s : no_digit s = true → digits n s = Some (n, s).
Proof. destruct s as [|c s]; [done|]. cbn. by destruct (is_ascii_digit c). Qed.

Lemma digits_print n s : 0 ≤ n ≤ 999 → no_digit s = true → digits 0 (print_number n ++ s) = Some (n, s).
Proof.
  intros Hn Hs. unfold print_number. destruct (Z.ltb_spec n 10); [|destruct (Z.ltb_spec n 100)]; cbn [app].
  - rewrite digits_step by lia. by rewrite digits_end.
  - rewrite digits_step by dlia. rewrite digits_step by dlia. rewrite digits_end by done. f_equal. f_equal. dlia.
  - rewrite digits_step by dlia. rewrite digits_step by dlia. rewrite digits_step by dlia.
    rewrite digits_end by done. f_equal. f_equal. dlia.
Qed.

Lemma print_number_length n : (0 < length (print_number n))%nat.
Proof. unfold print_number. repeat case_match; simpl; lia. Qed.

Lemma number_print max n s : 0 ≤ n ≤ max → max ≤ 999 → no_digit s = true →
  number max (print_number n ++ s) = Some (n, s).
Proof.
  intros Hn Hm Hs. unfold number. rewrite digits_print by (done || lia). cbn [mbind option_bind].
  rewrite length_app. pose proof (print_number_length n).
  rewrite (proj2 (Z.ltb_lt _ _)), (proj2 (Z.leb_le _ _)) by lia. done.
Qed.

Lemma positive_number_print max n s : 1 ≤ n ≤ max → max ≤ 999 → no_digit s = true →
  positive_number max (print_number n ++ s) = Some (n, s).
Proof.
  intros Hn Hm Hs. unfold positive_number. rewrite number_print by (done || lia). cbn.
  by rewrite (proj2 (Z.leb_le _ _)) by lia.
Qed.

Lemma print_number_digit n : 0 ≤ n ≤ 999 → ∃ c l, print_number n = c :: l ∧ is_ascii_digit c = true.
Proof.
  intros Hn. unfold print_number, is_ascii_digit.
  destruct (Z.ltb_spec n 10); [|destruct (Z.ltb_spec n 100)]; eexists _, _; (split; [done|]);
    rewrite andb_true_iff, !Z.leb_le; dlia.
Qed.

(** ** Offsets, names and changes *)

Lemma offset_print max o s : offset_valid max o = true → 0 ≤ max ≤ 999 → no_digit s = true →
  offset max (print_offset o ++ s) = Some (o, s).
Proof.
  intros Hv Hm Hs. unfold offset, print_offset. rewrite <- !app_assoc.
  assert (0 ≤ Z.abs o / 3600 ≤ 999) as Hh by (unfold offset_valid in Hv; apply Z.leb_le in Hv; dlia).
  destruct (print_number_digit _ Hh) as (c & l & Ec & Hc).
  unfold offset_valid in Hv. apply Z.leb_le in Hv.
  assert (number max (print_number (Z.abs o / 3600) ++ [58] ++ print_number (Z.abs o / 60 mod 60) ++
      [58] ++ print_number (Z.abs o mod 60) ++ s) =
    Some (Z.abs o / 3600, [58] ++ print_number (Z.abs o / 60 mod 60) ++ [58] ++ print_number (Z.abs o mod 60) ++ s))
    as Hn by (apply number_print; [dlia|lia|done]).
  destruct (Z.ltb_spec o 0).
  - cbn [app]. change (45 =? 45) with true. cbn iota. cbn [app] in Hn. rewrite Hn.
    pstep.
    rewrite number_print by (done || dlia). pstep.
    rewrite number_print by (done || dlia). cbn [mbind option_bind]. f_equal. f_equal. dlia.
  - cbn [app] in *. rewrite Ec in *. cbn [app] in *.
    unfold is_ascii_digit in Hc. rewrite andb_true_iff, !Z.leb_le in Hc.
    rewrite (proj2 (Z.eqb_neq c 45)), (proj2 (Z.eqb_neq c 43)) by lia. rewrite Hn.
    pstep.
    rewrite number_print by (done || dlia). pstep.
    rewrite number_print by (done || dlia). cbn [mbind option_bind]. f_equal. f_equal. dlia.
Qed.

Lemma take_while_all p l c s : forallb p l = true → p c = false → take_while p (l ++ c :: s) = (l, c :: s).
Proof.
  intros Hl Hc. induction l as [|x l IH]; cbn in *; [by rewrite Hc|].
  apply andb_true_iff in Hl as [-> Hl]. by rewrite IH.
Qed.

Lemma name_print nm s : name_valid nm = true → name (print_name nm ++ s) = Some (nm, s).
Proof.
  unfold name_valid, name, print_name. rewrite andb_true_iff. intros [Hl Hb].
  rewrite <- !app_assoc. pstep.
  rewrite take_while_all by done. pstep.
  unfold long_enough. cbn. by rewrite Hl.
Qed.

Lemma rule_day_print d s : day_valid d = true → no_digit s = true → rule_day (print_day d ++ s) = Some (d, s).
Proof.
  intros Hd Hs. unfold rule_day. destruct d as [n|n|m w d]; cbn [day_valid] in Hd;
    rewrite !andb_true_iff, !Z.leb_le in Hd; cbn [print_day].
  - rewrite <- app_assoc. cbn [app peek head mbind option_bind tail]. rewrite Z.eqb_refl.
    by rewrite positive_number_print by (done || lia).
  - destruct (print_number_digit n ltac:(lia)) as (c & l & Ec & Hc). unfold peek.
    rewrite Ec at 1. cbn [app head mbind option_bind].
    unfold is_ascii_digit in Hc. rewrite andb_true_iff, !Z.leb_le in Hc.
    rewrite (proj2 (Z.eqb_neq c 74)), (proj2 (Z.eqb_neq c 77)) by lia.
    by rewrite number_print by (done || lia).
  - rewrite <- !app_assoc. cbn [app peek head mbind option_bind tail].
    change (77 =? 74) with false. change (77 =? 77) with true. cbn iota.
    rewrite positive_number_print by (done || lia). pstep.
    rewrite positive_number_print by (done || lia). pstep.
    by rewrite number_print by (done || lia).
Qed.

Lemma change_print c s : change_valid c = true → no_digit s = true →
  parse_change (print_change c ++ s) = Some (c, s).
Proof.
  unfold change_valid, print_change, parse_change. destruct c as [d t]. cbn [fst snd].
  rewrite andb_true_iff. intros [Hd Ho] Hs. rewrite <- !app_assoc.
  rewrite rule_day_print by done. pstep.
  by rewrite offset_print by (done || lia).
Qed.

Lemma intern_name nm : forallb name_byte nm = true → intern nm = nm.
Proof.
  unfold intern. destruct (existsb (Z.eqb 0) nm) eqn:E; [|done]. intros H.
  apply existsb_exists in E as (c & Hc & <-%Z.eqb_eq). rewrite forallb_forall in H.
  by specialize (H 0 Hc).
Qed.

(** The daylight offset and the changes, after the daylight name. *)
Lemma posix_tail_print (so dn : Z) (start end_ : Change) :
  (dn =? so + 3600) || offset_valid 24 dn = true →
  change_valid start = true → change_valid end_ = true →
  ('(dst_utoff, s) ←
     match peek ((if dn =? so + 3600 then [] else print_offset (- dn)) ++
                 [44] ++ print_change start ++ [44] ++ print_change end_) with
     | None => Some (so + 3600, (if dn =? so + 3600 then [] else print_offset (- dn)) ++
                 [44] ++ print_change start ++ [44] ++ print_change end_)
     | Some c =>
         if c =? 44 then Some (so + 3600, (if dn =? so + 3600 then [] else print_offset (- dn)) ++
                 [44] ++ print_change start ++ [44] ++ print_change end_)
         else '(o, s) ← offset 24 ((if dn =? so + 3600 then [] else print_offset (- dn)) ++
                 [44] ++ print_change start ++ [44] ++ print_change end_); Some (- o, s)
     end;
   Some (dst_utoff, s)) = Some (dn, [44] ++ print_change start ++ [44] ++ print_change end_).
Proof.
  intros Ho Hs He. destruct (Z.eqb_spec dn (so + 3600)) as [->|Hne].
  - cbn [app peek head]. by rewrite Z.eqb_refl.
  - cbn [orb] in Ho.
    assert (offset_valid 24 (- dn) = true) as Ho' by (unfold offset_valid in *; by rewrite Z.abs_opp).
    rewrite offset_print by (done || lia). cbn [mbind option_bind]. rewrite Z.opp_involutive.
    assert (∃ c l, print_offset (- dn) = c :: l ∧ c ≠ 44) as (c & l & -> & Hc).
    { unfold print_offset. destruct (_ <? 0); [by eexists _, _|]. unfold offset_valid in Ho'. apply Z.leb_le in Ho'.
      destruct (print_number_digit (Z.abs (- dn) / 3600)) as (c & l & -> & Hc); [dlia|].
      eexists c, _. split; [reflexivity|]. unfold is_ascii_digit in Hc. rewrite andb_true_iff, !Z.leb_le in Hc. lia. }
    cbn [app peek head]. by rewrite (proj2 (Z.eqb_neq c 44)).
Qed.

Lemma name_valid_parts nm : name_valid nm = true → intern nm = nm.
Proof. unfold name_valid. rewrite andb_true_iff. intros [_ ?]. by apply intern_name. Qed.

(** Every valid rule is printed as a string that parses back to it. *)
Lemma posix_roundtrip r : rule_valid r = true → parse_posix (print_posix r) = Some r.
Proof.
  unfold rule_valid, print_posix, parse_posix. destruct r as [[su sd sa] d]. cbn [std dst abbr utoff isdst].
  rewrite !andb_true_iff. intros (((Hn & Hi) & Ho) & Hd).
  assert (sd = false) as -> by (by destruct sd).
  assert (offset_valid 24 (- su) = true) as Ho' by (unfold offset_valid in *; by rewrite Z.abs_opp).
  rewrite name_print by done. cbn [mbind option_bind].
  destruct d as [[[[du dd da] start] end_]|].
  2:{ rewrite offset_print by (done || lia). cbn. by rewrite Z.opp_involutive, name_valid_parts. }
  cbn [abbr utoff isdst] in Hd |- *. rewrite !andb_true_iff in Hd. destruct Hd as ((((Hdn & Hdd) & Hdo) & Hs) & He).
  destruct dd; [|done].
  rewrite offset_print by (done || lia). cbn [mbind option_bind]. rewrite Z.opp_involutive.
  assert (∀ l, done (print_name da ++ l) = false) as -> by done.
  rewrite name_print by done. cbn [mbind option_bind].
  pose proof (posix_tail_print su du start end_ Hdo Hs He) as Ht.
  set (s := (if du =? su + 3600 then [] else print_offset (- du)) ++ _) in *.
  destruct (match peek s with Some c => _ | None => _ end) as [[u rest]|]; [|done].
  cbn [mbind option_bind] in *. injection Ht as -> ->.
  cbn [app done]. pstep. rewrite change_print by done. pstep.
  rewrite <- (app_nil_r (print_change end_)). rewrite change_print by done. cbn.
  by rewrite !name_valid_parts by done.
Qed.

(** Chatham Islands, whose daylight time is 45 minutes off the hour. *)
Definition chatham : Rule :=
  {| std := {| utoff := 45900; isdst := false; abbr := [43; 49; 50; 52; 53] |};
     dst := Some ({| utoff := 49500; isdst := true; abbr := [43; 49; 51; 52; 53] |},
                  (Month 9 5 0, 9900), (Month 4 1 0, 13500)) |}.

(** ** What a parse can give *)

Lemma digits_bound n s m rest : 0 ≤ n → digits n s = Some (m, rest) → 0 ≤ m.
Proof.
  revert n. induction s as [|c s IH]; intros n Hn; cbn [digits]; [intros [= <- <-]; done|].
  destruct (is_ascii_digit c) eqn:E; [|intros [= <- <-]; done].
  unfold is_ascii_digit in E. rewrite andb_true_iff, !Z.leb_le in E.
  destruct (_ <? _); [done|]. destruct (_ <? _); [done|]. apply IH. lia.
Qed.

Lemma number_bound max s n rest : number max s = Some (n, rest) → 0 ≤ n ≤ max.
Proof.
  unfold number. destruct (digits 0 s) as [[m r]|] eqn:E; [|done]. cbn [mbind option_bind].
  destruct (_ && (m <=? max)) eqn:Em; [|done]. intros [= -> ->].
  apply andb_true_iff in Em as [_ Hm%Z.leb_le]. apply digits_bound in E; lia.
Qed.

Lemma positive_number_bound max s n rest : positive_number max s = Some (n, rest) → 1 ≤ n ≤ max.
Proof.
  unfold positive_number. destruct (number max s) as [[m r]|] eqn:E; [|done]. cbn [mbind option_bind].
  destruct (Z.leb_spec 1 m); [|done]. intros [= -> ->]. apply number_bound in E. lia.
Qed.

(** Opens each step of a successful parse. *)
Ltac popen H :=
  repeat match type of H with
  | context [mbind _ ?e] =>
      let E := fresh "E" in
      first [destruct e as [[? ?]|] eqn:E | destruct e as [?|] eqn:E]; cbn [mbind option_bind] in H;
      [|discriminate H]
  end.

Lemma offset_bound max s o rest : 0 ≤ max → offset max s = Some (o, rest) → offset_valid max o = true.
Proof.
  intros Hm. unfold offset, offset_valid.
  set (ss := match s with [] => _ | _ => _ end).
  assert (ss.1 = 1 ∨ ss.1 = -1) as Hsign by (subst ss; repeat case_match; auto). clearbody ss.
  destruct ss as [sign s']. cbn [fst] in Hsign. rewrite Z.leb_le. intros H. popen H.
  pose proof (number_bound _ _ _ _ E) as Hh.
  destruct (eat 58 _) as [s1|]; [|injection H as <- <-; nia]. popen H.
  pose proof (number_bound _ _ _ _ E0) as Hmin.
  destruct (eat 58 _) as [s2|]; [|injection H as <- <-; nia]. popen H.
  pose proof (number_bound _ _ _ _ E1) as Hsec. injection H as <- <-. nia.
Qed.

Lemma take_while_forall p s l rest : take_while p s = (l, rest) → forallb p l = true.
Proof.
  revert l rest. induction s as [|c s IH]; intros l rest; cbn; [by intros [= <- <-]|].
  destruct (p c) eqn:E; [|by intros [= <- <-]]. destruct (take_while p s) as [l' r'].
  intros [= <- <-]. cbn. rewrite E. by apply (IH _ r').
Qed.

Lemma name_bound s nm rest : name s = Some (nm, rest) → name_valid nm = true.
Proof.
  unfold name, long_enough, name_valid.
  destruct (eat 60 s) as [s'|].
  - destruct (take_while name_byte s') as [l r] eqn:E. destruct (eat 62 r); [|done]. cbn [mbind option_bind].
    destruct (3 <=? _) eqn:El; [|done]. intros [= <- <-]. rewrite El. by apply take_while_forall in E.
  - destruct (take_while _ s) as [l r] eqn:E. destruct (3 <=? _) eqn:El; [|done]. intros [= <- <-].
    rewrite El. apply take_while_forall in E. cbn. rewrite forallb_forall in *. intros c Hc. specialize (E c Hc).
    unfold name_byte, is_ascii_alphanumeric. by rewrite E.
Qed.

Lemma rule_day_bound s d rest : rule_day s = Some (d, rest) → day_valid d = true.
Proof.
  unfold rule_day. intros H. popen H. destruct (_ =? 74); [|destruct (_ =? 77)]; popen H;
    repeat match goal with
    | E : positive_number _ _ = Some _ |- _ => apply positive_number_bound in E
    | E : number _ _ = Some _ |- _ => apply number_bound in E
    end; injection H as <- <-; cbn; rewrite !andb_true_iff, !Z.leb_le; lia.
Qed.

Lemma change_bound s c rest : parse_change s = Some (c, rest) → change_valid c = true.
Proof.
  unfold parse_change, change_valid. intros H. popen H. apply rule_day_bound in E.
  destruct (eat 47 _); popen H; injection H as <- <-; cbn [fst snd]; rewrite E; [|done].
  by apply offset_bound in E0.
Qed.

Lemma parse_posix_valid s r : parse_posix s = Some r → rule_valid r = true.
Proof.
  unfold parse_posix. intros H. popen H. apply name_bound in E. apply offset_bound in E0; [|lia].
  assert (offset_valid 24 (- z) = true) as Ho by (unfold offset_valid in *; by rewrite Z.abs_opp).
  destruct (TzParse.done _).
  { injection H as <-. unfold rule_valid. cbn. by rewrite name_valid_parts, E, Ho by done. }
  popen H. apply name_bound in E1. destruct p as [start end_].
  destruct (TzParse.done l5); [|done]. injection H as <-. unfold rule_valid. cbn.
  rewrite !name_valid_parts, E, E1, Ho by done. cbn [andb negb].
  assert ((z0 =? - z + 3600) || offset_valid 24 z0 = true) as ->.
  { destruct (peek l3); [destruct (_ =? 44)|].
    - injection E2 as <- <-. by rewrite Z.eqb_refl.
    - popen E2. injection E2 as <- <-. apply offset_bound in E4; [|lia].
      unfold offset_valid in *. by rewrite Z.abs_opp, E4, orb_true_r.
    - injection E2 as <- <-. by rewrite Z.eqb_refl. }
  cbn [andb]. destruct (TzParse.done l4); [injection E3 as <- <- <-; done|].
  popen E3. injection E3 as <- <- <-. apply change_bound in E5, E7. by rewrite E5, E7.
Qed.

(** A valid rule's offsets fit an [i32]. *)
Lemma rule_valid_ok r : rule_valid r = true → rule_ok r = true.
Proof.
  unfold rule_valid, rule_ok, type_ok, offset_valid. rewrite !andb_true_iff. intros (((_ & _) & Ho%Z.leb_le) & Hd).
  split; [apply in_i32_spec; lia|]. destruct (dst r) as [[[d st] e]|]; [|done].
  rewrite !andb_true_iff, orb_true_iff, Z.eqb_eq, Z.leb_le in Hd. apply in_i32_spec. lia.
Qed.


(** the TZ strings give exactly the valid rules: names of three or more letters, digits or
    signs, offsets within 24:59:59 (the daylight one also an hour ahead of standard time), days
    and times in the ranges of IEEE Std 1003.1 and RFC 8536. A valid rule parses back from its
    printed form. *)
Theorem posix_rules_exact r :
  ((∃ s, parse_posix s = Some r) ↔ rule_valid r = true) ∧
  (rule_valid r = true → parse_posix (print_posix r) = Some r).
Proof.
  split; [split|apply posix_roundtrip].
  - intros [s Hs]. by apply (parse_posix_valid s).
  - intros Hr. exists (print_posix r). by apply posix_roundtrip.
Qed.

Lemma posix_rules_exact_witness :
  rule_valid chatham = true ∧ parse_posix (print_posix chatham) = Some chatham.
Proof.
  assert (rule_valid chatham = true) as H by reflexivity.
  split; [exact H|]. exact (proj2 (posix_rules_exact chatham) H).
Defined.

(** ** Files *)

(** A string of bytes. *)
Definition bytes (l : list Z) : Prop := Forall (λ b, 0 ≤ b < 256) l.

Lemma bytes_take n l : bytes l → bytes (take n l).
Proof. apply Forall_take. Qed.
Lemma bytes_drop n l : bytes l → bytes (drop n l).
Proof. apply Forall_drop. Qed.

Lemma from_be_nonneg acc l : 0 ≤ acc → bytes l → 0 ≤ from_be acc l.
Proof.
  intros Ha Hl. revert acc Ha. induction Hl as [|b l Hb _ IH]; intros acc Ha; cbn; [done|]. apply IH. lia.
Qed.

Lemma get_range_spec from n data l : get_range from n data = Some l → 0 ≤ from → 0 ≤ n → bytes data →
  Z.of_nat (length l) = n ∧ bytes l.
Proof.
  unfold get_range. destruct (Z.leb_spec (from + n) (Z.of_nat (length data))); [|done].
  intros [= <-] Hf Hn Hd. split; [rewrite length_take, length_drop; lia|]. by apply bytes_take, bytes_drop.
Qed.

Definition counts_ok (c : counts) : Prop :=
  0 ≤ isutcnt c ∧ 0 ≤ isstdcnt c ∧ 0 ≤ leapcnt c ∧ 0 ≤ timecnt c ∧ 0 ≤ typecnt c ∧ 0 ≤ charcnt c.

Lemma header_ok data from v c : header data from = Some (v, c) → 0 ≤ from → bytes data → counts_ok c.
Proof.
  unfold header. intros H Hf Hd. destruct (get_range from 44 data) as [h|] eqn:E; [|done].
  apply get_range_spec in E as [_ Hh]; [|done..]. cbn [mbind option_bind] in H.
  case_bool_decide; [|done]. destruct (h !! 4%nat); [|done]. cbn [mbind option_bind] in H. injection H as <- <-.
  unfold counts_ok, be_u32; cbn. split_and!; apply from_be_nonneg; try lia; by apply bytes_take, bytes_drop.
Qed.

Lemma block_len_nonneg c time : counts_ok c → 0 ≤ time → 0 ≤ block_len c time.
Proof. unfold counts_ok, block_len. intros. nia. Qed.

Lemma length_chunks {A} fuel n k (l : list A) :
  (0 < n)%nat → (length l ≤ fuel)%nat → length l = (k * n)%nat → length (chunks fuel n l) = k.
Proof.
  intros Hn. revert k l. induction fuel as [|fuel IH]; intros k l Hf Hl.
  - destruct l; [|cbn in Hf; lia]. cbn in *. destruct k; [done|nia].
  - destruct l as [|x l]; [cbn in *; destruct k; [done|nia]|].
    destruct k as [|k]; [cbn in Hl; lia|]. cbn [chunks length]. f_equal. apply IH; rewrite length_drop; cbn [length] in *; nia.
Qed.

Lemma wrap_i32_range x : in_i32 (wrap_i32 x) = true.
Proof. apply in_i32_spec. unfold wrap_i32. dlia. Qed.

Lemma info_of_ok chars c ty : info_of chars c = Some ty → type_ok ty = true.
Proof. unfold info_of. intros H. popen H. injection H as <-. apply wrap_i32_range. Qed.

Lemma footer_rule_ok data from r : footer_rule data from = Some r → from_option rule_ok true r = true.
Proof.
  unfold footer_rule. intros H. destruct (from <=? _); [|done]. popen H.
  destruct (take _ _); [by injection H as <-|]. popen H. injection H as <-.
  by eapply rule_valid_ok, parse_posix_valid.
Qed.

(** The block a file's header names: where it starts, its counts and the width of a time. *)
Lemma block_ok data v1 version at_ c time : bytes data → counts_ok v1 →
  (if 50 <=? version then
     let second := 44 + block_len v1 4 in
     '(_, c) ← header data second; Some (second + 44, c, 8)
   else Some (44, v1, 4)) = Some (at_, c, time) →
  0 ≤ at_ ∧ counts_ok c ∧ (time = 4 ∨ time = 8).
Proof.
  intros Hd Hv H. pose proof (block_len_nonneg v1 4 Hv ltac:(lia)).
  destruct (50 <=? version).
  - cbn zeta in H. popen H. injection H as <- <- <-. split_and!; [lia| |by right].
    apply (header_ok _ _ _ _ E); [lia|done].
  - injection H as <- <- <-. split_and!; [lia|done|by left].
Qed.

(** The types of a block's indices are all there. *)
Lemma indices_ok n ixs : bytes ixs → existsb (λ i, n <=? i) ixs = false →
  forallb (λ i, (0 <=? i) && (i <? n)) ixs = true.
Proof.
  intros Hb H. apply forallb_forall. intros i Hi. unfold bytes in Hb. rewrite List.Forall_forall in Hb.
  specialize (Hb i Hi). apply andb_true_iff. rewrite Z.leb_le, Z.ltb_lt. split; [lia|].
  destruct (Z.lt_ge_cases i n) as [|Hn]; [done|].
  assert (existsb (λ i, n <=? i) ixs = true); [|congruence].
  apply existsb_exists. exists i. split; [done|]. by apply Z.leb_le.
Qed.

(** Any file that parses is a well-formed zone. *)
Lemma parse_tzif_ok data z : bytes data → parse_tzif data = Some z → zone_ok z = true.
Proof.
  intros Hd. unfold parse_tzif. intros H. popen H. apply header_ok in E; [|lia|done].
  destruct p as [from cs]. apply block_ok in E0 as (Hat & Hc & Htime); [|done..].
  destruct (Z.eqb_spec (typecnt cs) 0) as [|Htc]; [done|].
  popen H. apply get_range_spec in E0 as [Hlen Hb]; [|done|apply block_len_nonneg; [done|lia]|done].
  destruct (existsb _ _) eqn:Ei; [done|]. popen H. injection H as <-.
  unfold zone_ok. cbn [indices transitions types rule].
  assert (0 ≤ timecnt cs ∧ 0 ≤ typecnt cs) as [Htn Hyn] by (unfold counts_ok in Hc; lia).
  pose proof Hc as (? & ? & ? & ? & ? & ?).
  assert (timecnt cs * z1 + timecnt cs + typecnt cs * 6 ≤ Z.of_nat (length l)) as Hfit
    by (rewrite Hlen; unfold block_len; destruct Htime as [->| ->]; lia).
  assert (Z.of_nat (length l0) = typecnt cs) as Hty.
  { rewrite <- (length_mapM _ _ _ E0), (length_chunks _ _ (Z.to_nat (typecnt cs)));
      [lia|lia|done|]. rewrite length_take, !length_drop. destruct Htime as [->| ->]; lia. }
  rewrite Hty, !andb_true_iff. split_and!.
  - apply bool_decide_eq_true. rewrite length_fmap, (length_chunks _ _ (Z.to_nat (timecnt cs)));
      [|destruct Htime as [->| ->]; lia|done|rewrite length_take; destruct Htime as [->| ->]; lia].
    rewrite length_take, length_drop. destruct Htime as [->| ->]; lia.
  - apply indices_ok; [|done]. by apply bytes_take, bytes_drop.
  - apply Z.ltb_lt. lia.
  - apply forallb_forall. intros ty Hin%list_elem_of_In.
    apply (mapM_Some_1 (info_of _)) in E0. apply list_elem_of_lookup in Hin as [i Hi].
    destruct (Forall2_lookup_r _ _ _ _ _ E0 Hi) as (info & _ & Hc'). by apply info_of_ok in Hc'.
  - destruct (50 <=? z0); [by apply footer_rule_ok in E1|]. by injection E1 as <-.
Qed.
