(* ===== verification/TzResolve.v ===== *)
(** * Resolving a sim's zone

    Models how crates/snare-interpose/src/os/tz.rs decides a sim's local zone: [resolve] and its
    helpers over the files the sim's plane serves, the cache of [current] and [invalidate], and
    the names a sim's [tzname] holds ([with_names], [tzname], [note_conversion]). What
    [std::fs::read] and [std::fs::read_link] give is an argument of the model, as is the domain's
    setting. *)

From S2P Require Import Prelude Bytes Calendar TzZone TzParse.

(** The files a sim reads: the bytes of a file, and the target of a link. *)
Record files := { fs_read : list Z → option (list Z); fs_link : list Z → option (list Z) }.

(** [Setting] *)
Record Setting := { serial : Z; tz : option (list Z); tzdir : option (list Z) }.

#[export] Instance Setting_eq_dec : EqDecision Setting.
Proof. solve_decision. Defined.

(** [Resolved] *)
Record Resolved := {
  zone : Zone;
  zname : option (list Z);
  data : option (list Z);
  key : option (list Z) * option (list Z);
}.

(** ** Names *)

(** [b"zoneinfo/"] *)
Definition MARK : list Z := [122; 111; 110; 101; 105; 110; 102; 111; 47].

(** What follows the last [MARK] of [path], [windows(9).rposition(|w| w == MARK)] *)
Fixpoint after_mark (path : list Z) : option (list Z) :=
  match path with
  | [] => None
  | _ :: path' =>
      match after_mark path' with
      | Some name => Some name
      | None => if bool_decide (take 9 path = MARK) then Some (drop 9 path) else None
      end
  end.

(** [zone_name] *)
Definition zone_name (path : list Z) : option (list Z) :=
  name ← after_mark path;
  match name with [] => None | _ => from_utf8 name end.

(** ** [resolve] *)

(** [utc] *)
Definition utc : Resolved :=
  {| zone := from_rule {| std := {| utoff := 0; isdst := false; abbr := intern [85; 84; 67] |};
                          dst := None |};
     zname := Some [85; 84; 67]; data := None; key := (None, None) |}.

(** [zone.quirk = ...] *)
Definition with_quirk (q : Quirk) (z : Zone) : Zone :=
  {| transitions := transitions z; indices := indices z; types := types z; rule := rule z;
     posix := posix z; quirk := q |}.

(** [unparsed] *)
Definition unparsed (tz : list Z) : Resolved :=
  let abbr := from_option fst [] (name tz) in
  {| zone := with_quirk Unparsed
       (from_rule {| std := {| utoff := 0; isdst := false; TzZone.abbr := intern abbr |}; dst := None |});
     zname := None; data := None; key := (None, None) |}.

(** [b"/etc"] and [b"/etc/localtime"] *)
Definition ETC : list Z := [47; 101; 116; 99].
Definition LOCALTIME : list Z := ETC ++ [47; 108; 111; 99; 97; 108; 116; 105; 109; 101].
(** [b"/usr/share/zoneinfo"] *)
Definition ZONEINFO : list Z :=
  [47; 117; 115; 114; 47; 115; 104; 97; 114; 101; 47; 122; 111; 110; 101; 105; 110; 102; 111].
(** [b"Universal"] *)
Definition UNIVERSAL : list Z := [85; 110; 105; 118; 101; 114; 115; 97; 108].

(** [starts_with(b"/")] *)
Definition is_absolute (path : list Z) : bool :=
  match path with c :: _ => c =? 47 | [] => false end.

(** [local_file] *)
Definition local_file (fs : files) : option Resolved :=
  let link := (λ target, if is_absolute target then target else ETC ++ [47] ++ target) <$>
              fs_link fs LOCALTIME in
  data ← match fs_read fs LOCALTIME with
         | Some data => Some data
         | None => link ≫= fs_read fs
         end;
  zone ← parse_tzif data;
  Some {| zone := zone; zname := link ≫= zone_name; data := Some data; key := (None, None) |}.

(** [resolve] of a non-empty [tz]: a file, else a TZ string, else the C library's fallback *)
Definition resolve_named (os : target_os) (fs : files) (dir tz : list Z) : Resolved :=
  let path := if is_absolute tz then tz else dir ++ [47] ++ tz in
  match (d ← fs_read fs path; z ← parse_tzif d; Some (d, z)) with
  | Some (data, zone) =>
      {| zone := zone;
         zname := if is_absolute tz then zone_name tz else from_utf8 tz;
         data := Some data; key := (None, None) |}
  | None =>
      match parse_posix tz with
      | Some r => {| zone := from_rule r; zname := None; data := None; key := (None, None) |}
      | None => if is_linux os then unparsed tz else utc
      end
  end.

(** [resolve] *)
Definition resolve (os : target_os) (fs : files) (setting : Setting) : Resolved :=
  let dir := match tzdir setting with
             | Some [] | None => ZONEINFO
             | Some d => d
             end in
  match tz setting with
  | None => default utc (local_file fs)
  | Some tz =>
      let tz := match tz with c :: tz' => if c =? 58 then tz' else tz | [] => tz end in
      match tz with
      | [] =>
          if is_linux os then resolve_named os fs dir UNIVERSAL
          else {| zone := with_quirk Untyped (zone utc); zname := zname utc; data := data utc;
                  key := key utc |}
      | _ => resolve_named os fs dir tz
      end
  end.

(** ** [current] *)

(** A thread's [CACHE] and the process's [GENERATION] *)
Definition cache : Type := list (Setting * Z * Resolved).

(** The hit of [current] *)
Definition cached (c : cache) (setting : Setting) (generation : Z) : option Resolved :=
  snd <$> find_first (λ e, bool_decide (e.1.1 = setting) && (e.1.2 =? generation)) c.

(** [resolved.key = (setting.tz.clone(), setting.tzdir.clone())] *)
Definition keyed (setting : Setting) (r : Resolved) : Resolved :=
  {| zone := zone r; zname := zname r; data := data r; key := (tz setting, tzdir setting) |}.

(** [current]: the zone the thread uses, and its cache after. *)
Definition current (os : target_os) (fs : files) (setting : option Setting) (generation : Z)
    (fresh : bool) (c : cache) : option Resolved * cache :=
  match setting with
  | None => (None, c)
  | Some setting =>
      match (if fresh then None else cached c setting generation) with
      | Some hit => (Some hit, c)
      | None =>
          let resolved := keyed setting (resolve os fs setting) in
          let kept := retain (λ e, (e.1.2 =? generation) && negb (serial e.1.1 =? serial setting)) c in
          (Some resolved, take 7 kept ++ [(setting, generation, resolved)])
      end
  end.

(** [invalidate] *)
Definition invalidate (generation : Z) : Z := wrap_u64 (generation + 1).

(** ** A sim's [tzname] *)

(** [TzNames] *)
Record TzNames := { names_key : option (list Z) * option (list Z); names : list Z * list Z }.

(** The names [with_names] runs its operation on. *)
Definition names_for (os : target_os) (r : Resolved) (state : option TzNames) :
    option (list Z * list Z) :=
  match state with
  | Some n => if bool_decide (names_key n = key r) then Some (names n)
              else '(std, dst) ← tzset_types os (zone r); Some (abbr std, abbr dst)
  | None => '(std, dst) ← tzset_types os (zone r); Some (abbr std, abbr dst)
  end.

(** [tzname] on a sim: the names, and the state after. *)
Definition tzname (os : target_os) (r : Resolved) (state : option TzNames) :
    option ((list Z * list Z) * option TzNames) :=
  n ← names_for os r state;
  Some (n, Some {| names_key := key r; names := n |}).

(** [note_conversion] on a sim: the state after. *)
Definition note_conversion_sim (os : target_os) (r : Resolved) (t : Z) (state : option TzNames) :
    option (option TzNames) :=
  n ← names_for os r state;
  n ← note_conversion os (zone r) t n;
  Some (Some {| names_key := key r; names := n |}).
