(* ===== verification/TzResolveProps.v ===== *)
(** * Correctness of zone resolution

    Whatever the setting and the files, the zone a sim gets never indexes out of range, and the
    cache answers what resolving would. *)

From S2P Require Import Prelude Bytes Calendar TzZone TzZoneProps TzParse TzParseProps TzResolve.

(** ** Lookups in a well-formed zone are there *)

Lemma partition_point_pos {A} (p : A → bool) l : holds p l 0 = true → (0 < partition_point p l)%nat.
Proof.
  intros H0. destruct (decide (l = [])) as [->|Hne]; [done|]. rewrite partition_point_cons by done. cbn zeta.
  set (b := partition_loop _ _ _ _ _). destruct b as [|b]; [rewrite H0; lia|]. destruct (holds p l (S b)); lia.
Qed.

Section lookups.
Context (z : Zone) (Hz : zone_ok z = true).

Lemma scan_types_total ixs s d : ixs ⊆ indices z → is_Some (scan_types z ixs s d).
Proof.
  revert s d. induction ixs as [|i ixs IH]; intros s d Hi; cbn [scan_types]; [done|].
  destruct (type_at_ok z Hz i) as (ty & -> & _); [set_solver|]. cbn [mbind option_bind].
  assert (ixs ⊆ indices z) by set_solver.
  destruct (isdst ty), s, d; cbn; eauto.
Qed.

Lemma name_following_total ixs s d : ixs ⊆ indices z → is_Some (name_following z ixs s d).
Proof.
  revert s d. induction ixs as [|i ixs IH]; intros s d Hi; cbn [name_following]; [done|].
  destruct (type_at_ok z Hz i) as (ty & -> & _); [set_solver|]. cbn [mbind option_bind].
  assert (ixs ⊆ indices z) by set_solver.
  destruct (isdst ty), s, d; cbn; eauto.
Qed.

Lemma tzset_types_total os : is_Some (tzset_types os z).
Proof.
  unfold tzset_types.
  destruct (scan_types_total (reverse (indices z)) None None) as [[s d] ->];
    [intros i; by rewrite elem_of_reverse|]. cbn [mbind option_bind].
  destruct (type0_ok z Hz) as (ty0 & E0 & _).
  assert (is_Some (match indices z with [] => types z !! 0%nat | i :: _ => type_at z i end)) as [first ->].
  { destruct (indices z) as [|i ixs] eqn:E; [by eexists|].
    destruct (type_at_ok z Hz i) as (ty & -> & _); [rewrite E; set_solver|done]. }
  rewrite E0. cbn [mbind option_bind]. destruct (transitions z), (rule z), (is_macos os); cbn; repeat case_bool_decide; done.
Qed.

Lemma recent_types_total : is_Some (recent_types z).
Proof.
  unfold recent_types. assert (is_Some (mapM (type_at z) (reverse (indices z)))) as [tys ->]; [|done].
  apply mapM_is_Some_2. apply list.Forall_forall. intros i Hi. rewrite elem_of_reverse in Hi.
  destruct (type_at_ok z Hz i Hi) as (ty & E & _). by exists ty.
Qed.

Lemma leading_dst_le tys : (leading_dst tys ≤ length tys)%nat.
Proof. induction tys as [|ty tys IH]; cbn; [done|]. destruct (isdst ty); lia. Qed.

Lemma glibc_names_at_total t : transitions z ≠ [] → is_Some (glibc_names_at z t).
Proof.
  intros Hne. unfold glibc_names_at. cbn zeta. destruct (zone_ok_parts z Hz) as (Hl & _ & Hty & _).
  assert (0 < length (transitions z))%nat as Hpos by (destruct (transitions z); [done|cbn; lia]).
  destruct (type0_ok z Hz) as (ty0 & E0 & _).
  destruct (lookup_lt_is_Some_2 (transitions z) 0 Hpos) as [t0 Ht0]. rewrite Ht0. cbn [mbind option_bind].
  destruct (Z.ltb_spec t t0).
  { pose proof (leading_dst_le (types z)).
    set (i := if bool_decide _ then _ else _). assert (i < length (types z))%nat as Hi
      by (subst i; case_bool_decide; lia).
    destruct (lookup_lt_is_Some_2 (types z) i Hi) as [ty ->]. cbn [mbind option_bind]. rewrite E0. done. }
  destruct (lookup_lt_is_Some_2 (transitions z) (length (transitions z) - 1)) as [tl ->]; [lia|]. cbn [mbind option_bind].
  destruct (if tl <=? t then rule z else None); [done|].
  assert (0 < partition_point (λ x : Z, (x <=? t)%Z) (transitions z))%nat as Hp.
  { apply partition_point_pos. unfold holds. rewrite Ht0. cbn. by apply Z.leb_le. }
  pose proof (partition_point_le (λ x : Z, (x <=? t)%Z) (transitions z)).
  destruct (partition_point _ _) as [|i]; [lia|].
  destruct (transition_type_ok z Hz i) as (ty & -> & _); [lia|]. cbn [mbind option_bind].
  set (sd := if isdst ty then _ else _). destruct sd as [s d].
  destruct (name_following_total (drop (S i) (take (length (transitions z)) (indices z))) s d) as [[s' d'] ->].
  { intros j [k Hk]%list_elem_of_lookup. rewrite lookup_drop in Hk.
    apply lookup_take_Some in Hk as [Hk _]. by eapply list_elem_of_lookup_2. }
  cbn [mbind option_bind]. by rewrite E0.
Qed.

Lemma note_conversion_total os t n : is_Some (note_conversion os z t n).
Proof.
  unfold note_conversion. destruct (at_ok z Hz os t) as (ty & -> & _). cbn [mbind option_bind].
  destruct (is_macos os); [done|]. destruct (decide (transitions z = [])) as [->|Hne]; [done|].
  destruct (glibc_names_at_total t Hne) as [[s d] ->]. by destruct (transitions z).
Qed.

Lemma break_down_total os t : is_Some (break_down os z t).
Proof.
  unfold break_down. destruct (_ <=? _); [done|]. destruct (at_ok z Hz os t) as (ty & -> & _).
  cbn [mbind option_bind]. destruct (checked_add_i64 _ _); [|done].
  destruct (civil_from_days _) as [[y m] d]. by destruct (in_i32 _).
Qed.

End lookups.

(** ** [resolve] *)

(** Files hold bytes. *)
Definition files_ok (fs : files) : Prop := ∀ path d, fs_read fs path = Some d → bytes d.

Lemma from_rule_ok r : rule_ok r = true → zone_ok (from_rule r) = true.
Proof.
  intros Hr. unfold zone_ok, from_rule. cbn. rewrite Hr. unfold rule_ok in Hr.
  apply andb_true_iff in Hr as [-> _]. done.
Qed.

Lemma local_file_ok fs r : files_ok fs → local_file fs = Some r → zone_ok (zone r) = true.
Proof.
  intros Hf. unfold local_file. cbn zeta. set (link := _ <$> _).
  destruct (match fs_read fs LOCALTIME with Some d => _ | None => _ end) as [d|] eqn:E; [|done].
  cbn [mbind option_bind]. destruct (parse_tzif d) as [zn|] eqn:Ez; [|done]. intros [= <-]. cbn.
  apply (parse_tzif_ok d); [|done]. destruct (fs_read fs LOCALTIME) eqn:Er.
  - injection E as <-. by eapply Hf.
  - destruct link as [p|]; [|done]. by eapply Hf.
Qed.

Lemma resolve_named_ok os fs dir t : files_ok fs → zone_ok (zone (resolve_named os fs dir t)) = true.
Proof.
  intros Hf. unfold resolve_named. cbn zeta.
  destruct (fs_read fs _) as [d|] eqn:Ed; cbn [mbind option_bind];
    [destruct (parse_tzif d) as [z|] eqn:Ez; cbn [mbind option_bind]|].
  { apply (parse_tzif_ok d); [by eapply Hf|done]. }
  all: destruct (parse_posix t) as [r|] eqn:Er;
    [by eapply from_rule_ok, rule_valid_ok, parse_posix_valid|by destruct (is_linux os)].
Qed.

Lemma resolve_zone_ok os fs setting : files_ok fs → zone_ok (zone (resolve os fs setting)) = true.
Proof.
  intros Hf. unfold resolve. destruct (tz setting) as [t|].
  2:{ destruct (local_file fs) as [r|] eqn:E; [by apply (local_file_ok fs)|reflexivity]. }
  cbn zeta. destruct (match t with [] => t | c :: tz' => _ end); [destruct (is_linux os)|];
    try by apply resolve_named_ok. reflexivity.
Qed.

(** whatever its [TZ], [TZDIR] and files, a sim gets a zone in which every lookup is there at
    every instant: the type in effect, the types tzset(3) leaves, the recent types of mktime(3),
    glibc's names, and localtime_r(3). *)
Theorem resolved_never_panics os fs setting t names : files_ok fs →
  let z := zone (resolve os fs setting) in
  is_Some (at_ os z t) ∧ is_Some (tzset_types os z) ∧ is_Some (recent_types z) ∧
  is_Some (note_conversion os z t names) ∧ is_Some (break_down os z t).
Proof.
  intros Hf. cbn zeta. pose proof (resolve_zone_ok os fs setting Hf) as Hz. split_and!.
  - destruct (at_ok _ Hz os t) as (ty & -> & _). done.
  - by apply tzset_types_total.
  - by apply recent_types_total.
  - by apply note_conversion_total.
  - by apply break_down_total.
Qed.

(** A version 1 file of one type and one transition, and one that names a type it lacks. *)
Definition tzif_header (timecnt typecnt charcnt : Z) : list Z :=
  [84; 90; 105; 102; 0] ++ replicate 15 0 ++
  [0; 0; 0; 0; 0; 0; 0; 0; 0; 0; 0; 0; 0; 0; 0; timecnt; 0; 0; 0; typecnt; 0; 0; 0; charcnt].
Definition small_tzif (index : Z) : list Z :=
  tzif_header 1 1 4 ++ [0; 0; 3; 232] ++ [index] ++ [0; 0; 14; 16; 0; 0] ++ [67; 69; 84; 0].
Definition small_files : files :=
  {| fs_read := λ p, if bool_decide (p = LOCALTIME) then Some (small_tzif 0) else None; fs_link := λ _, None |}.

Lemma resolved_never_panics_witness :
  parse_tzif (small_tzif 1) = None ∧
  tm_hour <$> (break_down Linux (zone (resolve Linux small_files {| serial := 1; tz := None; tzdir := None |})) 7200 ≫= id)
    = Some 3 ∧
  is_Some (at_ Linux (zone (resolve Linux small_files {| serial := 1; tz := None; tzdir := None |})) 7200).
Proof.
  split_and!; [vm_compute; reflexivity..|].
  refine (proj1 (resolved_never_panics Linux small_files {| serial := 1; tz := None; tzdir := None |} 7200 ([], []) _)).
  intros p d. unfold small_files. cbn. case_bool_decide; [|done]. intros [= <-].
  unfold bytes. apply List.Forall_forall. intros b Hb. vm_compute in Hb.
  repeat (destruct Hb as [<-|Hb]; [split; [discriminate|reflexivity]|]). destruct Hb.
Defined.

(** ** The cache *)

(** A thread's calls: a conversion under a setting, fresh or not, and a tzset(3), before which
    the files may have changed. *)
Inductive tz_op :=
  | Ask (setting : Setting) (fresh : bool)
  | Tzset (fs : files).

(** The answers of a thread with a cache. *)
Fixpoint run_cached (os : target_os) (fs : files) (generation : Z) (c : cache) (ops : list tz_op) :
    list (option Resolved) :=
  match ops with
  | [] => []
  | Ask s fresh :: ops =>
      let '(r, c) := current os fs (Some s) generation fresh c in
      r :: run_cached os fs generation c ops
  | Tzset fs :: ops => run_cached os fs (invalidate generation) c ops
  end.

(** The answers without one. *)
Fixpoint run_plain (os : target_os) (fs : files) (ops : list tz_op) : list (option Resolved) :=
  match ops with
  | [] => []
  | Ask s _ :: ops => Some (keyed s (resolve os fs s)) :: run_plain os fs ops
  | Tzset fs :: ops => run_plain os fs ops
  end.

(** The entries of this generation are what resolving gives, and none is of a later one. *)
Definition cache_ok (os : target_os) (fs : files) (generation : Z) (c : cache) : Prop :=
  ∀ s g r, (s, g, r) ∈ c → g ≤ generation ∧ (g = generation → r = keyed s (resolve os fs s)).

Lemma current_ok os fs s g fresh c : cache_ok os fs g c →
  (current os fs (Some s) g fresh c).1 = Some (keyed s (resolve os fs s)) ∧
  cache_ok os fs g (current os fs (Some s) g fresh c).2.
Proof.
  intros Hc. unfold current. destruct (if fresh then None else cached c s g) as [hit|] eqn:E; cbn [fst snd].
  - destruct fresh; [done|]. unfold cached in E. destruct (find_first _ c) as [[[s' g'] r']|] eqn:Ef; [|done].
    injection E as <-. apply find_first_Some in Ef as [Hin Hp]. cbn in Hp.
    apply andb_true_iff in Hp as [->%bool_decide_eq_true ->%Z.eqb_eq].
    split; [|done]. f_equal. by apply (Hc _ _ _ Hin).
  - split; [done|]. intros s' g' r' [Hin|Hin]%elem_of_app.
    + apply list_elem_of_lookup in Hin as [k Hk]. apply lookup_take_Some in Hk as [Hk _].
      apply (list_elem_of_lookup_2 _ _ _), elem_of_retain in Hk as [Hk _]. by apply Hc.
    + apply list_elem_of_singleton in Hin as [= -> -> ->]. done.
Qed.

Lemma run_cached_ok os fs g c ops : 0 ≤ g → g + Z.of_nat (length ops) ≤ u64_max → cache_ok os fs g c →
  run_cached os fs g c ops = run_plain os fs ops.
Proof.
  revert fs g c. induction ops as [|[s fresh|fs'] ops IH]; intros fs g c Hg Hl Hc; [done|..]; cbn [length] in Hl.
  - cbn [run_cached run_plain]. destruct (current_ok os fs s g fresh c Hc) as [Hr Hc'].
    destruct (current os fs (Some s) g fresh c) as [r c']. cbn [fst snd] in *. subst r. f_equal. apply IH; [lia..|done].
  - cbn [run_cached run_plain]. assert (invalidate g = g + 1) as -> by (unfold invalidate, wrap_u64; rewrite Z.mod_small; lia).
    apply IH; [lia..|]. intros s g' r Hin. destruct (Hc s g' r Hin). split; lia.
Qed.

(** a thread's cache of zones is invisible between two tzset(3): each conversion gets the zone
    its setting and the files then resolve to, and after a tzset(3) the files it made visible,
    over any sequence of fewer than 2^64 calls. *)
Theorem zone_cache_transparent os fs ops : Z.of_nat (length ops) ≤ u64_max →
  run_cached os fs 0 [] ops = run_plain os fs ops.
Proof. intros Hl. apply run_cached_ok; [lia..|]. intros s g r Hin. by apply elem_of_nil in Hin. Qed.

(** The files of a sim before and after a zone is installed. *)
Lemma zone_cache_transparent_witness :
  let s := {| serial := 1; tz := None; tzdir := None |} in
  let ops := [Ask s true; Ask s false; Tzset small_files; Ask s false; Ask s false] in
  let empty := {| fs_read := λ _, None; fs_link := λ _, None |} in
  map (λ r, from_option (λ r, Z.of_nat (length (transitions (zone r)))) 9 r) (run_cached Linux empty 0 [] ops) = [0; 0; 1; 1] ∧
  run_cached Linux empty 0 [] ops = run_plain Linux empty ops.
Proof. cbn zeta. split; [vm_compute; reflexivity|]. apply (zone_cache_transparent Linux). cbn. lia. Defined.
