(* ===== verification/Mktime.v ===== *)
(** * mktime(3) as glibc computes it

    Models the glibc half of crates/snare-interpose/src/os/tz_mktime.rs (module [glibc], built on
    Linux) and [make_time] and [MktimeOffset] of os/tz.rs: the search for the instant whose local
    time is the one asked for, from the offset the sim's previous call found. [/] and [%] truncate
    and [&] and [>>] are two's complement, as in the source; [i64] sums that cannot wrap are exact. *)

From S2P Require Import Prelude Calendar TzZone.

(** [convert]; a zone that resolves is one where [break_down] never indexes out of range. *)
Definition convert (z : Zone) (t : Z) : option tm := default None (break_down Linux z t).

(** [leapyear] *)
Definition leapyear (year : Z) : bool :=
  (Z.land year 3 =? 0) &&
  (negb (Z.rem year 100 =? 0) || (Z.land (Z.quot year 100) 3 =? Z.land (- (Z.quot 1900 100)) 3)).

(** [MON_YDAY] *)
Definition MON_YDAY (leap : bool) : list Z :=
  if leap then [0; 31; 60; 91; 121; 152; 182; 213; 244; 274; 305; 335; 366]
  else [0; 31; 59; 90; 120; 151; 181; 212; 243; 273; 304; 334; 365].

(** [isdst_differ] *)
Definition isdst_differ (a b : Z) : bool :=
  negb (eqb (a =? 0) (b =? 0)) && (0 <=? a) && (0 <=? b).

(** [shr] *)
Definition shr (a b : Z) : Z := Z.shiftr a b.

(** [ydhms_diff] *)
Definition ydhms_diff (year1 yday1 hour1 min1 sec1 year0 yday0 hour0 min0 sec0 : Z) : Z :=
  let a4 := shr year1 2 + shr 1900 2 - b2z (Z.land year1 3 =? 0) in
  let b4 := shr year0 2 + shr 1900 2 - b2z (Z.land year0 3 =? 0) in
  let a100 := Z.quot (a4 + b2z (a4 <? 0)) 25 - b2z (a4 <? 0) in
  let b100 := Z.quot (b4 + b2z (b4 <? 0)) 25 - b2z (b4 <? 0) in
  let a400 := shr a100 2 in
  let b400 := shr b100 2 in
  let leap_days := (a4 - b4) - (a100 - b100) + (a400 - b400) in
  let years := year1 - year0 in
  let days := 365 * years + yday1 - yday0 + leap_days in
  let hours := 24 * days + hour1 - hour0 in
  let minutes := 60 * hours + min1 - min0 in
  60 * minutes + sec1 - sec0.

(** What [mktime] is asked for, once months are carried into the year: its locals [year], [yday],
    [hour], [min], [sec] and [isdst]. *)
Record request := {
  r_year : Z; r_yday : Z; r_hour : Z; r_min : Z; r_sec : Z; r_isdst : Z;
}.

(** [tm_diff] *)
Definition tm_diff (q : request) (f : tm) : Z :=
  ydhms_diff (r_year q) (r_yday q) (r_hour q) (r_min q) (r_sec q)
    (tm_year f) (tm_yday f) (tm_hour f) (tm_min f) (tm_sec f).

(** [avg] *)
Definition avg (a b : Z) : Z := shr a 1 + shr b 1 + Z.land (Z.lor a b) 1.

(** The bisection of [ranged_convert]: the last time that converted, and what it gave. Each turn
    halves [bad - ok], so 65 turns are enough for two [i64]s. *)
Fixpoint bisect (fuel : nat) (z : Zone) (ok bad : Z) (found : option tm) : Z * option tm :=
  match fuel with
  | O => (ok, found)
  | S fuel =>
      let mid := avg ok bad in
      if (mid =? ok) || (mid =? bad) then (ok, found)
      else match convert z mid with
           | Some f => bisect fuel z mid bad (Some f)
           | None => bisect fuel z ok mid found
           end
  end.

(** [ranged_convert]: the time it moves [t] to, and that time converted. *)
Definition ranged_convert (z : Zone) (t : Z) : option (Z * tm) :=
  match convert z t with
  | Some f => Some (t, f)
  | None =>
      let '(ok, found) := bisect 65 z 0 t None in
      f ← found;
      Some (ok, f)
  end.

(** The main loop of [mktime], with [remaining] probes left: the time found, converted, and
    whether it has the local time asked for (the loop ended by [break], not by [break 'search]). *)
Fixpoint probe (remaining : nat) (z : Zone) (q : request) (t t1 t2 : Z) (dst2 : bool) :
    option (bool * Z * tm) :=
  match remaining with
  | O => None
  | S remaining =>
      '(t, f) ← ranged_convert z t;
      let dt := tm_diff q f in
      if dt =? 0 then Some (true, t, f)
      else if (t =? t1) && negb (t =? t2) &&
              ((tm_isdst f <? 0) ||
               (if r_isdst q <? 0 then negb dst2 || negb (tm_isdst f =? 0)
                else negb (eqb (negb (r_isdst q =? 0)) (negb (tm_isdst f =? 0)))))
      then Some (false, t, f)
      else match remaining with
           | O => None
           | S _ => probe remaining z q (t + dt) t2 t (negb (tm_isdst f =? 0))
           end
  end.

(** How the hunt for an instant of the daylight state asked for goes on: it found one, the call
    fails, or the hunt goes on. *)
Inductive hunted := Found (t : Z) (f : tm) | Failed | Missed.

(** One direction of the hunt *)
Definition hunt_at (z : Zone) (q : request) (t delta direction : Z) : hunted :=
  match checked_add_i64 t (delta * direction) with
  | None => Missed
  | Some ot =>
      match ranged_convert z ot with
      | None => Failed
      | Some (ot, otm) =>
          if negb (isdst_differ (r_isdst q) (tm_isdst otm)) then
            let gt := ot + tm_diff q otm in
            match convert z gt with
            | Some gtm => Found gt gtm
            | None => Missed
            end
          else Missed
      end
  end.

(** [STRIDE] and [delta_bound] *)
Definition STRIDE : Z := 601200.
Definition DURATION_MAX : Z := 457243209.
Definition delta_bound : Z := DURATION_MAX / 2 + STRIDE.

(** [while delta < delta_bound]; 382 turns are enough for [delta_bound / STRIDE]. *)
Fixpoint hunt (fuel : nat) (z : Zone) (q : request) (t delta : Z) : hunted :=
  match fuel with
  | O => Missed
  | S fuel =>
      if delta <? delta_bound then
        match hunt_at z q t delta (-1) with
        | Missed =>
            match hunt_at z q t delta 1 with
            | Missed => hunt fuel z q t (delta + STRIDE)
            | other => other
            end
        | other => other
        end
      else Missed
  end.

(** The request of [tp], its seconds clamped; [None] for a month out of its table, which the
    remainder never is. *)
Definition request_of (tp : tm) : option request :=
  let mon := tm_mon tp in
  let mon_remainder := Z.rem mon 12 in
  let negative_mon_remainder := b2z (mon_remainder <? 0) in
  let mon_years := Z.quot mon 12 - negative_mon_remainder in
  let year := tm_year tp + mon_years in
  start ← MON_YDAY (leapyear year) !! Z.to_nat (mon_remainder + 12 * negative_mon_remainder);
  let mon_yday := start - 1 in
  let yday := mon_yday + tm_mday tp in
  Some {| r_year := year; r_yday := yday; r_hour := tm_hour tp; r_min := tm_min tp;
          r_sec := Z.max 0 (Z.min 59 (tm_sec tp)); r_isdst := tm_isdst tp |}.

(** The search of [mktime], up to its label's end *)
Definition search (z : Zone) (q : request) (t0 : Z) : option (Z * tm) :=
  '(hit, t, f) ← probe 6 z q t0 t0 t0 false;
  if negb hit then Some (t, f)
  else if isdst_differ (r_isdst q) (tm_isdst f) then
    let dst_difference := b2z (r_isdst q =? 0) - b2z (tm_isdst f =? 0) in
    match hunt 382 z q t STRIDE with
    | Found t f => Some (t, f)
    | Failed => None
    | Missed =>
        let t := t + 3600 * dst_difference in
        f ← convert z t;
        Some (t, f)
    end
  else Some (t, f).

(** [mktime]: the time and the [struct tm] it leaves, [None] for [EOVERFLOW]; and the offset it
    leaves for the next call. *)
Definition mktime (z : Zone) (tp : tm) (offset : Z) : option (Z * tm) * Z :=
  match request_of tp with
  | None => (None, offset)
  | Some q =>
      let sec_requested := tm_sec tp in
      let negative_offset_guess := wrap_i32 (0 - wrap_i32 offset) in
      let t0 := ydhms_diff (r_year q) (r_yday q) (r_hour q) (r_min q) (r_sec q)
                  70 0 0 0 negative_offset_guess in
      match search z q t0 with
      | None => (None, offset)
      | Some (t, f) =>
          let offset := wrap_i64 (wrap_i64 (t - t0) - negative_offset_guess) in
          (if sec_requested =? tm_sec f then Some (t, f)
           else
             let adjustment := b2z ((r_sec q =? 0) && (tm_sec f =? 60)) - r_sec q + sec_requested in
             t ← checked_add_i64 t adjustment;
             f ← convert z t;
             Some (t, f),
           offset)
      end
  end.

(** [make_time] on Linux: [mktime] on the sim's [MktimeOffset]. *)
Definition make_time (z : Zone) (tp : tm) (offset : Z) : (Z * tm + errno) * Z :=
  match mktime z tp offset with
  | (Some (t, f), offset) => (inl (t, f), offset)
  | (None, offset) => (inr EOVERFLOW, offset)
  end.
