(* ===== verification/MktimeProps.v ===== *)
(** * Correctness of mktime(3)

    The difference of two broken-down times is that of the seconds they name, what [mktime]
    returns describes the instant it returns, and in a zone of one standard and one daylight offset it finds an instant
    with the local time asked for whenever there is one. *)

From S2P Require Import Prelude Bytes Calendar TzZone TzZoneProps TzParse TzParseProps Mktime.

(** ** Years and seconds *)

Lemma land_3 x : Z.land x 3 = x mod 4.
Proof. change 3 with (Z.ones 2). by rewrite Z.land_ones. Qed.

Lemma leapyear_spec y : leapyear y = is_leap (y + 1900).
Proof.
  apply eq_iff_eq_true. rewrite is_leap_spec. unfold leapyear.
  rewrite !land_3. change (- (1900 ÷ 100) mod 4) with 1.
  rewrite andb_true_iff, orb_true_iff, negb_true_iff, Z.eqb_neq, !Z.eqb_eq. dlia.
Qed.

(** The seconds since the epoch of a year since 1900, a day of it and a time of day, as if UTC. *)
Definition seconds_of (year yday hour min sec : Z) : Z :=
  (days_from_civil (year + 1900) 1 1 + yday) * 86400 + hour * 3600 + min * 60 + sec.

(** The leap days [ydhms_diff] counts before a year. *)
Lemma leap_count y :
  let a4 := shr y 2 + shr 1900 2 - b2z (Z.land y 3 =? 0) in
  let a100 := Z.quot (a4 + b2z (a4 <? 0)) 25 - b2z (a4 <? 0) in
  365 * y + a4 - a100 + shr a100 2 = march_days (y + 1899) - 365 * 1899.
Proof.
  cbn zeta. unfold shr, march_days. rewrite !Z.shiftr_div_pow2, land_3 by lia.
  change (2 ^ 2) with 4. change (1900 / 4) with 475.
  set (a4 := y / 4 + 475 - b2z (y mod 4 =? 0)).
  assert (a4 = (y + 1899) / 4) as Ha by (subst a4; destruct (Z.eqb_spec (y mod 4) 0); cbn [b2z]; dlia).
  clearbody a4. set (a100 := Z.quot _ 25 - _).
  assert (a100 = (y + 1899) / 100) as Hb.
  { subst a100. destruct (Z.ltb_spec a4 0); cbn [b2z]; dlia. }
  clearbody a100. dlia.
Qed.

Lemma ydhms_diff_spec y1 d1 h1 m1 s1 y0 d0 h0 m0 s0 :
  ydhms_diff y1 d1 h1 m1 s1 y0 d0 h0 m0 s0 = seconds_of y1 d1 h1 m1 s1 - seconds_of y0 d0 h0 m0 s0.
Proof.
  unfold ydhms_diff, seconds_of. cbn zeta. rewrite !days_from_civil_jan1.
  pose proof (leap_count y1) as H1. pose proof (leap_count y0) as H0. cbn zeta in *.
  replace (y1 + 1900 - 1) with (y1 + 1899) by lia. replace (y0 + 1900 - 1) with (y0 + 1899) by lia. lia.
Qed.

(** ** The time asked for *)

(** The second a [struct tm] asks for, months, days and the time of day out of range carried. *)
Definition asked (tp : tm) : Z :=
  (days_from_civil (tm_year tp + 1900 + tm_mon tp / 12) (tm_mon tp mod 12 + 1) 1 + (tm_mday tp - 1)) * 86400 +
  tm_hour tp * 3600 + tm_min tp * 60 + tm_sec tp.

Definition wanted (q : request) : Z := seconds_of (r_year q) (r_yday q) (r_hour q) (r_min q) (r_sec q).

Lemma mon_carry mon :
  Z.quot mon 12 - b2z (Z.rem mon 12 <? 0) = mon / 12 ∧
  Z.rem mon 12 + 12 * b2z (Z.rem mon 12 <? 0) = mon mod 12.
Proof. destruct (Z.ltb_spec (Z.rem mon 12) 0); cbn [b2z]; split; dlia. Qed.

Lemma mon_yday_spec y m : 1 ≤ m ≤ 12 →
  MON_YDAY (is_leap y) !! Z.to_nat (m - 1) =
    Some (days_from_civil y m 1 - days_from_civil y 1 1).
Proof.
  intros Hm. rewrite (days_from_civil_yday y m 1) by done.
  generalize (days_from_civil y 1 1). intros j.
  by_month Hm; destruct (is_leap y); match goal with |- ?l = ?r =>
    let v := eval vm_compute in l in change (v = r) end;
    cbn -[Z.add Z.sub]; f_equal; cbn [andb b2z]; lia.
Qed.

(** The request has the second asked for, its seconds clamped to a minute. *)
Lemma request_of_spec tp : ∃ q, request_of tp = Some q ∧
  wanted q = asked tp - tm_sec tp + r_sec q ∧ r_sec q = Z.max 0 (Z.min 59 (tm_sec tp)) ∧
  r_isdst q = tm_isdst tp.
Proof.
  unfold request_of. cbn zeta. destruct (mon_carry (tm_mon tp)) as [-> ->].
  pose proof (Z.mod_pos_bound (tm_mon tp) 12 ltac:(lia)) as Hm.
  rewrite leapyear_spec.
  replace (Z.to_nat (tm_mon tp mod 12)) with (Z.to_nat (tm_mon tp mod 12 + 1 - 1)) by lia.
  rewrite mon_yday_spec by lia. cbn [mbind option_bind]. eexists. split; [reflexivity|].
  split_and!; [|done..]. unfold wanted, seconds_of, asked. cbn [r_year r_yday r_hour r_min r_sec].
  replace (tm_year tp + tm_mon tp / 12 + 1900) with (tm_year tp + 1900 + tm_mon tp / 12) by lia. lia.
Qed.

(** A normal [struct tm] as a year and a day of it. *)
Lemma tm_local_seconds f : tm_normal f →
  seconds_of (tm_year f) (tm_yday f) (tm_hour f) (tm_min f) (tm_sec f) = tm_local f.
Proof. intros (_ & _ & _ & _ & _ & _ & Hy & _). unfold seconds_of, tm_local. rewrite Hy. lia. Qed.

Lemma tm_diff_spec q f : tm_normal f → tm_diff q f = wanted q - tm_local f.
Proof. intros Hf. unfold tm_diff. by rewrite ydhms_diff_spec, tm_local_seconds. Qed.

(** ** What converting gives *)

Lemma convert_describes z t f : zone_ok z = true → convert z t = Some f →
  ∃ ty, at_ Linux z t = Some ty ∧ tm_normal f ∧ tm_local f = t + utoff ty ∧ tm_isdst f = b2z (isdst ty).
Proof.
  intros Hz. unfold convert. destruct (break_down_spec Linux z t Hz) as (ty & Hat & H). cbn zeta in H.
  destruct (in_i32 _); [|by rewrite H]. destruct H as (g & -> & Hn & Hl & Hd & _). cbn.
  intros [= <-]. by exists ty.
Qed.

(** Times well within the years of [tm_year] convert. *)
Lemma near_years y m d : valid_date y m d → Z.abs (days_from_civil y m d * 86400) ≤ 2 ^ 55 + 2 ^ 41 →
  in_i32 (y - 1900) = true.
Proof.
  intros Hv Hb. apply in_i32_spec. pose proof (yday_bounds y m d Hv) as Hy. destruct Hv as [Hm _].
  rewrite days_from_civil_yday, days_from_civil_jan1 in Hb by done.
  destruct (is_leap y); cbn [b2z] in *; unfold march_days in Hb; dlia.
Qed.

Lemma convert_near z t ty : zone_ok z = true → at_ Linux z t = Some ty →
  Z.abs (t + utoff ty) ≤ 2 ^ 55 + 2 ^ 40 → ∃ f, convert z t = Some f.
Proof.
  intros Hz Hat Hb. unfold convert. destruct (break_down_spec Linux z t Hz) as (ty' & Hat' & H).
  rewrite Hat in Hat'. injection Hat' as <-. cbn zeta in H.
  pose proof (civil_from_days_valid ((t + utoff ty) / 86400)) as Hv.
  destruct (civil_from_days _) as [[y m] d]. destruct Hv as [Hv Hd]. cbn [fst] in H.
  rewrite (near_years y m d Hv) in H by (rewrite Hd; dlia).
  destruct H as (f & -> & _). by exists f.
Qed.

(** A time [ranged_convert] moves to is converted as it is. *)
Lemma bisect_converts fuel z ok bad found t f :
  (∀ g, found = Some g → convert z ok = Some g) →
  bisect fuel z ok bad found = (t, Some f) → convert z t = Some f.
Proof.
  revert ok bad found. induction fuel as [|fuel IH]; intros ok bad found Hf; cbn [bisect]; [intros [= <- ->]; auto|].
  cbn zeta. destruct (_ || _); [intros [= <- ->]; auto|].
  destruct (convert z (avg ok bad)) as [g|] eqn:E; apply IH; [by intros ? [= <-]|done].
Qed.

Lemma ranged_convert_converts z t t' f : ranged_convert z t = Some (t', f) → convert z t' = Some f.
Proof.
  unfold ranged_convert. destruct (convert z t) as [g|] eqn:E; [by intros [= <- <-]|].
  destruct (bisect 65 z 0 t None) as [ok [g|]] eqn:Eb; [|done]. cbn. intros [= <- <-].
  by eapply bisect_converts; [|done].
Qed.

Lemma probe_converts n z q t t1 t2 d2 hit t' f :
  probe n z q t t1 t2 d2 = Some (hit, t', f) → convert z t' = Some f ∧ (hit = true → tm_diff q f = 0).
Proof.
  revert t t1 t2 d2. induction n as [|n IH]; intros t t1 t2 d2; cbn [probe]; [done|].
  destruct (ranged_convert z t) as [[s g]|] eqn:E; [|done]. cbn [mbind option_bind]. cbn zeta.
  apply ranged_convert_converts in E.
  destruct (Z.eqb_spec (tm_diff q g) 0); [by intros [= <- <- <-]|].
  destruct (_ && _); [by intros [= <- <- <-]|]. destruct n; [done|]. apply IH.
Qed.

Lemma hunt_at_converts z q t delta dir t' f : hunt_at z q t delta dir = Found t' f → convert z t' = Some f.
Proof.
  unfold hunt_at. destruct (checked_add_i64 _ _); [|done]. destruct (ranged_convert _ _) as [[? ?]|]; [|done].
  destruct (negb _); [|done]. destruct (convert z _) eqn:E; [|done]. by intros [= <- <-].
Qed.

Lemma hunt_converts fuel z q t delta t' f : hunt fuel z q t delta = Found t' f → convert z t' = Some f.
Proof.
  revert delta. induction fuel as [|fuel IH]; intros delta; cbn [hunt]; [done|].
  destruct (_ <? _); [|done]. destruct (hunt_at z q t delta (-1)) eqn:E1;
    [intros [= <- <-]; by apply hunt_at_converts in E1|done|].
  destruct (hunt_at z q t delta 1) eqn:E2; [intros [= <- <-]; by apply hunt_at_converts in E2|done|apply IH].
Qed.

Lemma search_converts z q t0 t f : search z q t0 = Some (t, f) → convert z t = Some f.
Proof.
  unfold search. destruct (probe _ _ _ _ _ _ _) as [[[hit s] g]|] eqn:E; [|done]. cbn [mbind option_bind].
  apply probe_converts in E as [E _]. destruct (negb hit); [by intros [= <- <-]|].
  destruct (isdst_differ _ _); [|by intros [= <- <-]].
  cbn zeta. destruct (hunt _ _ _ _ _) eqn:Eh; [intros [= <- <-]; by apply hunt_converts in Eh|done|].
  destruct (convert z (s + _)) eqn:Ec; [|done]. cbn. by intros [= <- <-].
Qed.

Lemma mktime_converts z tp o t f : (mktime z tp o).1 = Some (t, f) → convert z t = Some f.
Proof.
  unfold mktime. destruct (request_of tp) as [q|]; [|done]. cbn zeta.
  destruct (search _ _ _) as [[s g]|] eqn:E; [|done]. apply search_converts in E. cbn [fst].
  destruct (_ =? _); [by intros [= <- <-]|].
  destruct (checked_add_i64 _ _) as [s'|]; [|done]. cbn [mbind option_bind].
  destruct (convert z s') eqn:Ec; [|done]. cbn. by intros [= <- <-].
Qed.

(** in any well-formed zone, from any previous offset and whatever is asked for, the
    [struct tm] mktime(3) leaves is the local time of the instant it returns: every field in
    range, its date and time of day those of the instant at the zone's offset there. *)
Theorem mktime_describes z tp o t f : zone_ok z = true → (mktime z tp o).1 = Some (t, f) →
  ∃ ty, at_ Linux z t = Some ty ∧ tm_normal f ∧ tm_local f = t + utoff ty ∧ tm_isdst f = b2z (isdst ty).
Proof. intros Hz H. apply convert_describes; [done|]. by eapply mktime_converts. Qed.

(** US Central time, and 02:30 on 2023-03-12, which it skips, then 01:30 on 2023-11-05, which it
    has twice. *)
Definition central : Rule :=
  {| std := {| utoff := -21600; isdst := false; abbr := [67; 83; 84] |};
     dst := Some ({| utoff := -18000; isdst := true; abbr := [67; 68; 84] |},
                  (Month 3 2 0, 7200), (Month 11 1 0, 7200)) |}.
Definition ask (year mon mday hour min isdst : Z) : tm :=
  {| tm_sec := 0; tm_min := min; tm_hour := hour; tm_mday := mday; tm_mon := mon; tm_year := year;
     tm_wday := 0; tm_yday := 0; tm_isdst := isdst; tm_gmtoff := 0; tm_zone := [] |}.

Lemma mktime_describes_witness :
  fst <$> (mktime (from_rule central) (ask 123 10 5 1 30 1) 0).1 = Some 1699165800 ∧
  ∃ f ty, (mktime (from_rule central) (ask 123 10 5 1 30 1) 0).1 = Some (1699165800, f) ∧
    at_ Linux (from_rule central) 1699165800 = Some ty ∧ tm_normal f ∧
    tm_local f = 1699165800 + utoff ty ∧ tm_isdst f = b2z (isdst ty).
Proof.
  split; [vm_compute; reflexivity|].
  destruct (mktime (from_rule central) (ask 123 10 5 1 30 1) 0).1 as [[t f]|] eqn:E; [|vm_compute in E; discriminate].
  assert (t = 1699165800) as -> by (vm_compute in E; congruence).
  destruct (mktime_describes (from_rule central) (ask 123 10 5 1 30 1) 0 1699165800 f) as (ty & H); [reflexivity|exact E|].
  exists f, ty. split; [reflexivity|exact H].
Defined.

(** ** Finding the instant *)

(** How far from the epoch the search converts times. *)
Definition near (t : Z) : Prop := Z.abs t ≤ 2 ^ 55 + 2 ^ 39.

(** What the search for an instant needs of a zone: every time near enough converts, to the local
    time at the offset [u] of its kind, daylight time at the instants [b] picks. *)
Class TwoOffsets (z : Zone) (b : Z → bool) (u : bool → Z) : Prop := {
  convert_two t : near t → ∃ f, convert z t = Some f ∧ tm_normal f ∧
    tm_local f = t + u (b t) ∧ tm_isdst f = b2z (b t);
  offset_two d : Z.abs (u d) ≤ 2 ^ 31;
}.

(** The types a zone can give: its file's and its rule's. *)
Definition zone_types (z : Zone) : list LocalType :=
  types z ++ match rule z with
             | Some r => std r :: match dst r with Some (d, _, _) => [d] | None => [] end
             | None => []
             end.

(** A zone with one standard offset [us] and one daylight offset [ud]. *)
Definition offset_of (us ud : Z) (d : bool) : Z := if d then ud else us.
Definition two_offsets (us ud : Z) (z : Zone) : bool :=
  zone_ok z && in_i32 us && in_i32 ud &&
  forallb (λ ty, utoff ty =? offset_of us ud (isdst ty)) (zone_types z).

(** Whether [t] is daylight time in [z]. *)
Definition daylight (z : Zone) (t : Z) : bool := from_option isdst false (at_ Linux z t).

Lemma at_zone_types z t ty : at_ Linux z t = Some ty → ty ∈ zone_types z.
Proof.
  unfold at_. cbn zeta. change (is_macos Linux) with false. cbn iota. unfold zone_types.
  set (r := if bool_decide _ then rule z else None).
  destruct r as [r'|] eqn:Er.
  - intros [= <-]. subst r. case_bool_decide; [|done]. rewrite Er. apply elem_of_app. right.
    unfold rule_at. destruct (dst r') as [[[d st] e]|]; [|set_solver].
    cbn zeta. destruct (if _ <? _ then _ else _); set_solver.
  - intros H. apply elem_of_app. left.
    destruct (partition_point _ _) as [|i]; [by eapply list_elem_of_lookup_2|].
    destruct (indices z !! i) as [k|]; [|done]. cbn in H. by eapply list_elem_of_lookup_2.
Qed.

Lemma two_offsets_at us ud z t ty : two_offsets us ud z = true → at_ Linux z t = Some ty →
  utoff ty = offset_of us ud (isdst ty).
Proof.
  unfold two_offsets. rewrite !andb_true_iff. intros (_ & Hty) Hat. apply Z.eqb_eq.
  by apply (forallb_elem _ _ _ Hty), (at_zone_types z t).
Qed.

(** Such zones are what the search needs. *)
Lemma two_offsets_search us ud z : two_offsets us ud z = true →
  TwoOffsets z (daylight z) (offset_of us ud).
Proof.
  intros H. pose proof (two_offsets_at us ud z) as Hat. unfold two_offsets in H.
  rewrite !andb_true_iff, !in_i32_spec in H. destruct H as (((Hz & Hs) & Hd) & Hty). split.
  - intros t Ht. unfold near in Ht. destruct (at_ok z Hz Linux t) as (ty & Ety & Hb%in_i32_spec).
    destruct (convert_near z t ty Hz Ety) as [f Hf]; [lia|]. exists f. split; [done|].
    destruct (convert_describes z t f Hz Hf) as (ty' & Ety' & Hn & Hl & Hi). rewrite Ety in Ety'. injection Ety' as <-.
    unfold daylight. rewrite Ety. cbn. rewrite <- (Hat t ty); [done| |done].
    unfold two_offsets. by rewrite Hz, !(proj2 (in_i32_spec _)), Hty.
  - intros []; cbn; lia.
Qed.

(** The zone of any TZ string is one. *)
Lemma posix_two_offsets r : rule_valid r = true →
  two_offsets (utoff (std r)) (from_option (λ d, utoff d.1.1) (utoff (std r)) (dst r)) (from_rule r) = true.
Proof.
  intros Hr. pose proof (rule_valid_ok r Hr) as Hok. unfold rule_ok, type_ok in Hok.
  apply andb_true_iff in Hok as [Hs Hd]. unfold two_offsets, zone_ok, zone_types, from_rule, rule_ok, type_ok. cbn.
  unfold rule_valid in Hr. rewrite !andb_true_iff in Hr. destruct Hr as (((_ & Hns) & _) & Hrd).
  apply negb_true_iff in Hns. rewrite Hs, Hns. cbn.
  destruct (dst r) as [[[d st] e]|]; cbn; rewrite ?Hs, ?Hd, ?Hns; cbn; rewrite ?Hns; cbn [offset_of]; rewrite ?Z.eqb_refl; [|done].
  rewrite !andb_true_iff in Hrd. destruct Hrd as ((((_ & Hdd) & _) & _) & _). rewrite Hdd. cbn [offset_of]. by rewrite Z.eqb_refl.
Qed.

Section search.
Context (z : Zone) (b : Z → bool) (u : bool → Z) `{!TwoOffsets z b u}.

(** A request for the second [R] that leaves daylight time open. *)
Context (q : request) (Hq : r_isdst q < 0).
Let R := wanted q.
Context (HR : Z.abs R ≤ 2 ^ 55).

(** An instant with the local time asked for, and no such instant. *)
Definition solves (t : Z) : Prop := t + u (b t) = R.

Lemma not_gap d : negb (b2z d =? 0) = d.
Proof. by destruct d. Qed.

(** One turn of the loop. *)
Lemma probe_turn n t t1 t2 d2 : near t → ∃ f, convert z t = Some f ∧ tm_normal f ∧
  tm_local f = t + u (b t) ∧
  probe (S n) z q t t1 t2 d2 =
    if R - (t + u (b t)) =? 0 then Some (true, t, f)
    else if (t =? t1) && negb (t =? t2) && (negb d2 || b t) then Some (false, t, f)
    else match n with
         | O => None
         | S _ => probe n z q (R - u (b t)) t2 t (b t)
         end.
Proof.
  intros Ht. destruct (convert_two (u := u) t Ht) as (f & Hf & Hn & Hl & Hd). exists f. split_and!; [done..|].
  cbn [probe]. unfold ranged_convert. rewrite Hf. cbn [mbind option_bind]. cbn zeta.
  rewrite (tm_diff_spec q f Hn). fold R. rewrite Hl, Hd, !not_gap.
  rewrite (proj2 (Z.ltb_lt _ _) Hq), (proj2 (Z.ltb_ge (b2z (b t)) 0)) by (destruct (b t); cbn; lia).
  cbn [orb]. replace (t + (R - (t + u (b t)))) with (R - u (b t)) by lia. reflexivity.
Qed.

(** Neither candidate solving, none does: a solution is at one of the two offsets. *)
Lemma no_solution : ¬ solves (R - u false) → ¬ solves (R - u true) → ∀ t, ¬ solves t.
Proof.
  unfold solves. intros Hf Ht t Hs. destruct (b t) eqn:E.
  - apply Ht. assert (R - u true = t) as -> by lia. rewrite E. lia.
  - apply Hf. assert (R - u false = t) as -> by lia. rewrite E. lia.
Qed.

(** The loop ends well: it found an instant as asked, or there is none. *)
Definition settled (o : option (bool * Z * tm)) : Prop :=
  ∃ hit t f, o = Some (hit, t, f) ∧ convert z t = Some f ∧ tm_normal f ∧
    near t ∧ tm_local f = t + u (b t) ∧ (solves t ∨ ∀ s, ¬ solves s).

(** An exit of the loop at [t], by either way, when there is nothing better. *)
Lemma probe_exit n t t1 t2 d2 : near t →
  solves t ∨ ((∀ s, ¬ solves s) ∧ t = t1 ∧ t ≠ t2 ∧ (d2 = false ∨ b t = true)) →
  settled (probe (S n) z q t t1 t2 d2).
Proof.
  intros Ht H. destruct (probe_turn n t t1 t2 d2 Ht) as (f & Hf & Hn & Hl & ->).
  destruct (Z.eqb_spec (R - (t + u (b t))) 0).
  { exists true, t, f. split_and!; try done. left. unfold solves. lia. }
  destruct H as [Hs|(Hno & -> & Hne & Hd)]; [unfold solves in Hs; lia|].
  rewrite Z.eqb_refl, (proj2 (Z.eqb_neq _ _) Hne). assert (negb d2 || b t1 = true) as ->
    by (destruct Hd as [->| ->]; [done|apply orb_true_r]).
  exists false, t1, f. split_and!; try done. by right.
Qed.

(** A turn that ends the loop or goes on from the other candidate. *)
Lemma probe_next n t t1 t2 d2 : near t →
  (∀ s, ¬ solves s) ∨ t1 = t2 →
  settled (probe (S n) z q (R - u (b t)) t2 t (b t)) →
  settled (probe (S (S n)) z q t t1 t2 d2).
Proof.
  intros Ht H Hnext. destruct (probe_turn (S n) t t1 t2 d2 Ht) as (f & Hf & Hn & Hl & ->).
  destruct (Z.eqb_spec (R - (t + u (b t))) 0).
  { exists true, t, f. split_and!; try done. left. unfold solves. lia. }
  destruct ((t =? t1) && _ && _) eqn:E; [|done].
  exists false, t, f. split_and!; try done. destruct H as [H| ->]; [by right|].
  rewrite !andb_true_iff, negb_true_iff, Z.eqb_eq, Z.eqb_neq in E. tauto.
Qed.

Lemma unsolved_candidate d : ¬ solves (R - u d) → b (R - u d) = negb d.
Proof. unfold solves. intros H. destruct (b (R - u d)) eqn:E, d; try done; exfalso; apply H; lia. Qed.

Lemma candidate_near d : near (R - u d).
Proof. unfold near. pose proof (offset_two (TwoOffsets := _) d). lia. Qed.

(** Where there is no solution, the loop ends within four turns of a candidate. *)
Lemma probe_none d t1 t2 d2 : (∀ s, ¬ solves s) → settled (probe 4 z q (R - u d) t1 t2 d2).
Proof.
  intros Hno.
  assert (∀ d, b (R - u d) = negb d) as Hb by (intros; by apply unsolved_candidate).
  assert (R - u true ≠ R - u false) as Hne by (intros E; pose proof (Hb true) as H1; rewrite E, Hb in H1; done).
  assert (R - u false ≠ R - u true) as Hne' by done.
  apply probe_next; [apply candidate_near|by left|]. rewrite Hb.
  apply probe_next; [apply candidate_near|by left|]. rewrite Hb, negb_involutive.
  destruct d; cbn [negb].
  - apply probe_next; [apply candidate_near|by left|]. rewrite Hb. cbn [negb].
    apply probe_exit; [apply candidate_near|]. right. auto.
  - apply probe_exit; [apply candidate_near|]. right. rewrite Hb. auto.
Qed.

#[local] Instance solves_dec t : Decision (solves t).
Proof. unfold solves. apply _. Defined.

Lemma probe_settles t0 : near t0 → settled (probe 6 z q t0 t0 t0 false).
Proof.
  intros H0. apply probe_next; [done|by right|]. generalize (b t0). intros d.
  destruct (decide (solves (R - u d))) as [Hs|Hs]; [apply probe_exit; [apply candidate_near|by left]|].
  apply probe_next; [apply candidate_near|by right|]. rewrite (unsolved_candidate d Hs).
  destruct (decide (solves (R - u (negb d)))) as [Hs'|Hs']; [apply probe_exit; [apply candidate_near|by left]|].
  apply probe_none. by destruct d; apply no_solution.
Qed.

End search.

(** The local second of an instant in a zone. *)
Definition local_second (z : Zone) (t : Z) : option Z := (λ ty, t + utoff ty) <$> at_ Linux z t.

Lemma local_second_two us ud z t : two_offsets us ud z = true →
  local_second z t = Some (t + offset_of us ud (daylight z t)).
Proof.
  intros Hz. assert (zone_ok z = true) as Hok by (unfold two_offsets in Hz; rewrite !andb_true_iff in Hz; tauto).
  unfold local_second, daylight. destruct (at_ok z Hok Linux t) as (ty & E & _). rewrite E. cbn.
  by rewrite (two_offsets_at us ud z t ty).
Qed.

Lemma wrap_i32_id_bound x : Z.abs (wrap_i32 x) ≤ 2 ^ 31.
Proof. unfold wrap_i32. dlia. Qed.

(** C27: in a zone of one standard and one daylight offset, as a TZ string gives, from any offset a
    previous call left, mktime(3) as glibc's is modelled, asked for a local time within 2^55 seconds
    of the epoch with [tm_isdst] negative and [tm_sec] between 0 and 59, always returns an instant,
    and one whose local time is the one asked for, out-of-range months, days, hours and minutes
    carried, unless no instant has that local time. *)
Theorem mktime_solves us ud z tp o : two_offsets us ud z = true → tm_isdst tp < 0 → 0 ≤ tm_sec tp ≤ 59 →
  Z.abs (asked tp) ≤ 2 ^ 55 →
  ∃ t f, (mktime z tp o).1 = Some (t, f) ∧
    (local_second z t = Some (asked tp) ∨ ∀ s, local_second z s ≠ Some (asked tp)).
Proof.
  intros Hz Hd Hs HR. pose proof (two_offsets_search us ud z Hz) as Hz'. unfold mktime.
  destruct (request_of_spec tp) as (q & -> & Hw & Hsec & Hi).
  assert (wanted q = asked tp) as HW by lia. cbn zeta.
  rewrite ydhms_diff_spec. fold (wanted q). rewrite HW.
  set (g := wrap_i32 (0 - wrap_i32 o)). pose proof (wrap_i32_id_bound (0 - wrap_i32 o)) as Hg. fold g in Hg.
  assert (seconds_of 70 0 0 0 g = g) as -> by reflexivity.
  destruct (probe_settles z _ _ q ltac:(lia) ltac:(lia) (asked tp - g) ltac:(unfold near; lia))
    as (hit & t & f & Hp & Hf & Hn & Ht & Hl & Hsol).
  assert (search z q (asked tp - g) = Some (t, f)) as ->.
  { unfold search. rewrite Hp. cbn [mbind option_bind]. destruct (negb hit); [done|].
    unfold isdst_differ. rewrite Hi, (proj2 (Z.leb_gt 0 (tm_isdst tp))) by lia. by rewrite andb_false_r. }
  cbn [fst]. exists t, f. split.
  - destruct (Z.eqb_spec (tm_sec tp) (tm_sec f)); [done|].
    assert (b2z ((r_sec q =? 0) && (tm_sec f =? 60)) - r_sec q + tm_sec tp = 0) as ->.
    { destruct Hn as (Hns & _). rewrite (proj2 (Z.eqb_neq (tm_sec f) 60)), andb_false_r by lia. cbn. lia. }
    unfold near in Ht. unfold checked_add_i64, in_i64. rewrite Z.add_0_r, !(proj2 (Z.leb_le _ _)) by lia. cbn. by rewrite Hf.
  - unfold solves in Hsol. rewrite HW in Hsol.
    destruct Hsol as [Hsol|Hno]; [left|right; intros s]; [by rewrite (local_second_two us ud), Hsol|].
    rewrite (local_second_two us ud) by done. intros [= E]. by apply (Hno s).
Qed.

(** 02:30 on 2023-03-12 is no time in US Central, and 01:30 on 2023-11-05 is. *)
Lemma mktime_solves_witness :
  (fst <$> (mktime (from_rule central) (ask 123 2 12 2 30 (-1)) 0).1 = Some 1678609800 ∧
   local_second (from_rule central) 1678609800 ≠ Some (asked (ask 123 2 12 2 30 (-1)))) ∧
  ∃ t f, (mktime (from_rule central) (ask 123 10 5 1 30 (-1)) 7).1 = Some (t, f) ∧
    (local_second (from_rule central) t = Some (asked (ask 123 10 5 1 30 (-1))) ∨
     ∀ s, local_second (from_rule central) s ≠ Some (asked (ask 123 10 5 1 30 (-1)))).
Proof.
  split; [split; [vm_compute; reflexivity|vm_compute; discriminate]|].
  apply (mktime_solves (-21600) (-18000) (from_rule central) (ask 123 10 5 1 30 (-1)) 7);
    [reflexivity|reflexivity|split; discriminate|vm_compute; discriminate].
Defined.

(** ** The loops end *)

(** [avg] is the mean, rounded up. *)
Lemma avg_spec a c : avg a c = (a + c + 1) / 2.
Proof.
  unfold avg, shr. rewrite !Z.shiftr_div_pow2 by lia. change (2 ^ 1) with 2.
  assert (∀ x, Z.land x 1 = x mod 2) as Hl by (intros; change 1 with (Z.ones 1); by rewrite Z.land_ones).
  rewrite Z.land_lor_distr_l, !Hl.
  assert (a mod 2 = 0 ∨ a mod 2 = 1) as [Ha|Ha] by dlia;
    assert (c mod 2 = 0 ∨ c mod 2 = 1) as [Hc|Hc] by dlia; rewrite Ha, Hc; clear Hl;
    match goal with |- context [Z.lor ?a ?b] => let v := eval vm_compute in (Z.lor a b) in change (Z.lor a b) with v end; dlia.
Qed.

Lemma bisect_ends n k z ok bad found : Z.abs (bad - ok) ≤ 2 ^ Z.of_nat n →
  bisect (S n + k) z ok bad found = bisect (S n) z ok bad found.
Proof.
  revert ok bad found. induction n as [|n IH]; intros ok bad found Hd; cbn [Nat.add bisect]; cbn zeta; rewrite avg_spec.
  - change (2 ^ Z.of_nat 0) with 1 in Hd.
    assert (((ok + bad + 1) / 2 =? ok) || ((ok + bad + 1) / 2 =? bad) = true) as ->; [|done].
    apply orb_true_iff. rewrite !Z.eqb_eq. dlia.
  - rewrite Nat2Z.inj_succ, Z.pow_succ_r in Hd by lia.
    destruct (_ || _); [done|]. destruct (convert z _); apply IH; dlia.
Qed.

Lemma hunt_ends n k z q t delta : delta_bound ≤ delta + STRIDE * Z.of_nat n →
  hunt (n + k) z q t delta = hunt n z q t delta.
Proof.
  revert delta. induction n as [|n IH]; intros delta Hd; cbn [Nat.add].
  - destruct k; [done|]. cbn [hunt]. by rewrite (proj2 (Z.ltb_ge _ _)) by lia.
  - cbn [hunt]. rewrite IH by lia. done.
Qed.

(** the loops of mktime(3) end by themselves: the bisection of [ranged_convert] between 0 and
    any [i64] within 65 turns, and the hunt for an instant of the daylight state asked for
    within 382 strides; more turns change nothing. *)
Theorem mktime_loops_end z q t k : is_i64 t →
  bisect (65 + k) z 0 t None = bisect 65 z 0 t None ∧ hunt (382 + k) z q t STRIDE = hunt 382 z q t STRIDE.
Proof.
  intros Ht. split.
  - apply (bisect_ends 64). change (Z.of_nat 64) with 64. lia.
  - apply hunt_ends. vm_compute. discriminate.
Qed.

Lemma mktime_loops_end_witness :
  (bisect 65 (from_rule central) 0 (2 ^ 62) None).1 = 67768036191698399 ∧
  bisect (65 + 9) (from_rule central) 0 (2 ^ 62) None = bisect 65 (from_rule central) 0 (2 ^ 62) None.
Proof.
  split; [vm_compute; reflexivity|].
  refine (proj1 (mktime_loops_end (from_rule central)
    {| r_year := 0; r_yday := 0; r_hour := 0; r_min := 0; r_sec := 0; r_isdst := 0 |} (2 ^ 62) 9 _)).
  split; vm_compute; discriminate.
Defined.
