(* ===== verification/Netlink.v ===== *)
(** * Netlink messages

    The attribute and message formats of crates/snare/src/simhost.rs ([push_rtattr], [nl_message],
    [nl_done], [find_nlattr], the genetlink controller) and the attribute search of
    crates/snare/src/qdisc.rs ([find_attr]), with the round trip between printing and searching. *)

From S2P Require Import Prelude Bytes.

(** ** Printing *)

(** [while !out.len().is_multiple_of(4) { out.push(0); }] *)
Definition pad (out : list Z) : list Z := out ++ padding (length out).

(** [push_rtattr] *)
Definition push_rtattr (out : list Z) (ty : Z) (payload : list Z) (nul_terminate : bool) : list Z :=
  let data := payload ++ (if nul_terminate then [0] else []) in
  let len := as_u16 (4 + Z.of_nat (length data)) in
  pad (out ++ to_ne_bytes 2 len ++ to_ne_bytes 2 ty ++ data).

(** [nl_message] *)
Definition nl_message (ty flags seq : Z) (body : list Z) : list Z :=
  let len := as_u32 (16 + Z.of_nat (length body)) in
  pad (to_ne_bytes 4 len ++ to_ne_bytes 2 ty ++ to_ne_bytes 2 flags ++ to_ne_bytes 4 seq ++
       to_ne_bytes 4 0 ++ body).

Definition NLM_F_MULTI : Z := 2.
Definition NLMSG_ERROR : Z := 2.
Definition NLMSG_DONE : Z := 3.

(** [nl_done] *)
Definition nl_done (out : list Z) (seq : Z) : list Z :=
  out ++ nl_message NLMSG_DONE NLM_F_MULTI seq (to_ne_bytes 4 0).

(** ** Searching *)

(** The loop of [find_attr] and [find_nlattr] from position [pos]; [view] is what of the type is
    compared. *)
Fixpoint find_from (view : Z → Z) (fuel : nat) (attrs : list Z) (want : Z) (pos : nat)
    : option (list Z) :=
  match fuel with
  | O => None
  | S fuel =>
      if (pos + 4 <=? length attrs)%nat then
        let len := Z.to_nat (u16_at attrs pos) in
        let ty := view (u16_at attrs (pos + 2)) in
        if (len <? 4)%nat || (length attrs <? pos + len)%nat then None
        else if ty =? want then Some (slice (pos + 4) (pos + len) attrs)
        else find_from view fuel attrs want (pos + next_multiple_of_4 len)
      else None
  end.

(** [find_attr] of qdisc.rs: the flag bits of the type are ignored *)
Definition find_attr (attrs : list Z) (want : Z) : option (list Z) :=
  find_from (λ ty, Z.land ty 0x3FFF) (length attrs) attrs want 0.

(** [find_nlattr] of simhost.rs: the type is compared whole *)
Definition find_nlattr (attrs : list Z) (want : Z) : option (list Z) :=
  find_from (λ ty, ty) (length attrs) attrs want 0.

(** ** The genetlink controller *)

Definition CTRL_CMD_NEWFAMILY : Z := 1.
Definition CTRL_CMD_GETFAMILY : Z := 3.
Definition CTRL_ATTR_FAMILY_ID : Z := 1.
Definition CTRL_ATTR_FAMILY_NAME : Z := 2.
Definition GENL_ID_CTRL : Z := 16.
Definition NETDEV_FAMILY_ID : Z := 24.

(** The error numbers of Linux *)
Definition errno_code (e : errno) : Z :=
  match e with
  | EPERM => 1 | ENOENT => 2 | EINTR => 4 | EBADF => 9 | EAGAIN => 11 | EWOULDBLOCK => 11
  | EACCES => 13 | EFAULT => 14 | EEXIST => 17 | ENODEV => 19 | EINVAL => 22 | EPIPE => 32
  | EOVERFLOW => 75 | EOPNOTSUPP => 95 | ECONNRESET => 104 | ENOBUFS => 105 | ETIMEDOUT => 110 | ENOTSUPP => 524 | ECONNREFUSED => 111 | ECONNABORTED => 103 | ENOTCONN => 107
  | ENOTDIR => 20 | EISDIR => 21 | ENOTEMPTY => 39 | EBUSY => 16 | ELOOP => 40 | EXDEV => 18 | EFBIG => 27
  | ENOSPC => 28 | ENOMEM => 12 | EMFILE => 24 | ERANGE => 34 | ENAMETOOLONG => 36
  | EMSGSIZE => 90 | EADDRINUSE => 98 | EADDRNOTAVAIL => 99 | ENETDOWN => 100 | ENETUNREACH => 101 | EHOSTUNREACH => 113
  end.

(** The body of an [NLMSG_ERROR]: the negated error number, then the request's header *)
Definition error_reply (code : Z) (req : list Z) (seq : Z) : list Z :=
  nl_message NLMSG_ERROR 0 seq (to_ne_bytes 4 (- code) ++ take 16 req).

(** [build_genl_ctrl_reply] *)
Definition build_genl_ctrl_reply (req : list Z) (seq : Z) : list Z :=
  let cmd := default 0 (req !! 16%nat) in
  let name :=
    until_nul <$>
      (if (20 <=? length req)%nat then find_nlattr (drop 20 req) CTRL_ATTR_FAMILY_NAME else None) in
  if negb (cmd =? CTRL_CMD_GETFAMILY) || bool_decide (name ≠ Some (bytes "netdev")) then
    error_reply (errno_code ENODEV) req seq
  else
    let body := [CTRL_CMD_NEWFAMILY; 2; 0; 0] in
    let body := push_rtattr body CTRL_ATTR_FAMILY_ID (to_ne_bytes 2 NETDEV_FAMILY_ID) false in
    let body := push_rtattr body CTRL_ATTR_FAMILY_NAME (bytes "netdev") true in
    nl_message GENL_ID_CTRL 0 seq body.

(** ** Lemmas *)

Lemma length_pad out : length (pad out) = next_multiple_of_4 (length out).
Proof.
  unfold pad, padding. rewrite length_app, length_replicate.
  pose proof (next_multiple_of_4_spec (length out)). lia.
Qed.

Lemma pad_app out l : (length out mod 4 = 0)%nat → pad (out ++ l) = out ++ pad l.
Proof.
  intros H. unfold pad, padding.
  rewrite length_app, next_multiple_of_4_add, <- app_assoc by done. do 3 f_equal. lia.
Qed.

(** One attribute as printed: its header, its data and its padding. *)
Definition attr_bytes (ty : Z) (data : list Z) : list Z :=
  pad (to_ne_bytes 2 (as_u16 (4 + Z.of_nat (length data))) ++ to_ne_bytes 2 ty ++ data).

Lemma push_rtattr_app out ty payload nul :
  (length out mod 4 = 0)%nat →
  push_rtattr out ty payload nul = out ++ attr_bytes ty (payload ++ if nul then [0] else []).
Proof. intros H. unfold push_rtattr, attr_bytes. by rewrite pad_app. Qed.

Lemma length_attr_bytes ty data :
  length (attr_bytes ty data) = next_multiple_of_4 (4 + length data).
Proof. unfold attr_bytes. rewrite length_pad, !length_app, !length_to_ne_bytes. done. Qed.

Lemma attr_bytes_aligned ty data : (length (attr_bytes ty data) mod 4 = 0)%nat.
Proof. rewrite length_attr_bytes. apply next_multiple_of_4_spec. Qed.

(** The fields of an attribute that stands at position [pos]. *)
Lemma attr_at_pos pre ty data rest :
  0 ≤ ty < 2 ^ 16 → 4 + Z.of_nat (length data) < 2 ^ 16 →
  let attrs := pre ++ attr_bytes ty data ++ rest in
  let pos := length pre in
  u16_at attrs pos = 4 + Z.of_nat (length data) ∧
  u16_at attrs (pos + 2) = ty ∧
  slice (pos + 4) (pos + (4 + length data)) attrs = data.
Proof.
  intros Hty Hlen attrs pos. unfold attrs, u16_at, attr_bytes, pad. rewrite <- !app_assoc.
  split_and!.
  - rewrite slice_mid by (rewrite ?length_to_ne_bytes; done).
    rewrite from_to_ne_bytes. unfold as_u16. change (256 ^ Z.of_nat 2) with (2 ^ 16).
    rewrite Z.mod_mod by lia. apply Z.mod_small. lia.
  - rewrite (app_assoc pre), slice_mid by (rewrite ?length_app, ?length_to_ne_bytes; lia).
    rewrite from_to_ne_bytes. apply Z.mod_small. lia.
  - rewrite (app_assoc pre), (app_assoc _ _ (data ++ _)).
    apply slice_mid; rewrite ?length_app, ?length_to_ne_bytes; lia.
Qed.

Lemma find_from_at view fuel pre ty data rest want :
  0 ≤ ty < 2 ^ 16 → 4 + Z.of_nat (length data) < 2 ^ 16 →
  find_from view (S fuel) (pre ++ attr_bytes ty data ++ rest) want (length pre) =
  if view ty =? want then Some data
  else find_from view fuel (pre ++ attr_bytes ty data ++ rest) want
         (length pre + length (attr_bytes ty data)).
Proof.
  intros Hty Hlen. destruct (attr_at_pos pre ty data rest Hty Hlen) as (El & Et & Es).
  pose proof (next_multiple_of_4_spec (4 + length data)) as [? _].
  cbn [find_from]. rewrite El, Et.
  replace (Z.to_nat (4 + Z.of_nat (length data))) with (4 + length data)%nat by lia.
  rewrite Es, length_attr_bytes, !length_app, length_attr_bytes.
  destruct (Nat.leb_spec (length pre + 4)
    (length pre + (next_multiple_of_4 (4 + length data) + length rest))) as [?|?]; [|lia].
  destruct (Nat.ltb_spec (4 + length data) 4); [lia|].
  destruct (Nat.ltb_spec (length pre + (next_multiple_of_4 (4 + length data) + length rest))
    (length pre + (4 + length data))); [lia|]. done.
Qed.

(** The attributes of a run, first to last. *)
Definition attrs_bytes (l : list (Z * list Z)) : list Z := mjoin ((λ a, attr_bytes a.1 a.2) <$> l).

Lemma attrs_bytes_cons ty data l :
  attrs_bytes ((ty, data) :: l) = attr_bytes ty data ++ attrs_bytes l.
Proof. done. Qed.

Definition attr_ok (a : Z * list Z) : Prop := 0 ≤ a.1 < 2 ^ 16 ∧ 4 + Z.of_nat (length a.2) < 2 ^ 16.

Lemma find_from_attrs view l want : Forall attr_ok l → ∀ pre fuel,
  (length l < fuel)%nat →
  find_from view fuel (pre ++ attrs_bytes l) want (length pre) =
  snd <$> find_first (λ a, view a.1 =? want) l.
Proof.
  induction 1 as [|[ty data] l [Hty Hlen] _ IH]; intros pre fuel Hf.
  - destruct fuel; [done|]. simpl. rewrite app_nil_r.
    destruct (Nat.leb_spec (length pre + 4) (length pre)); [lia|done].
  - destruct fuel as [|fuel]; [lia|]. cbn [length] in Hf.
    rewrite attrs_bytes_cons, find_from_at by done. cbn [find_first fst].
    destruct (view ty =? want); [done|].
    rewrite app_assoc, <- length_app. apply IH. lia.
Qed.

Lemma length_attrs_bytes l : (length l * 4 ≤ length (attrs_bytes l))%nat.
Proof.
  induction l as [|[ty d] l IH]; [done|].
  rewrite attrs_bytes_cons, length_app, length_attr_bytes. cbn [length].
  pose proof (next_multiple_of_4_spec (4 + length d)) as [? _]. lia.
Qed.

(** Printing attributes and searching them: the first of the type searched is found. *)
Lemma find_from_printed view l want :
  Forall attr_ok l →
  find_from view (length (attrs_bytes l)) (attrs_bytes l) want 0 =
  snd <$> find_first (λ a, view a.1 =? want) l.
Proof.
  intros Hl. pose proof (length_attrs_bytes l) as Hb. destruct l as [|a l]; [done|].
  apply (find_from_attrs view (a :: l) want Hl []). cbn [length] in *. lia.
Qed.

Lemma find_attr_attrs l want :
  Forall attr_ok l →
  find_attr (attrs_bytes l) want = snd <$> find_first (λ a, Z.land a.1 0x3FFF =? want) l.
Proof. apply find_from_printed. Qed.

Lemma find_nlattr_attrs l want :
  Forall attr_ok l →
  find_nlattr (attrs_bytes l) want = snd <$> find_first (λ a, a.1 =? want) l.
Proof. apply find_from_printed. Qed.
