(* ===== verification/Qdisc.v ===== *)
(** * Traffic control

    crates/snare/src/qdisc.rs: the qdiscs of an interface, what a device starts with and what
    [RTM_NEWQDISC], [RTM_DELQDISC] and a dump do to and show of them; and of
    crates/snare/src/simhost.rs the requests that reach them ([change_qdisc], the qdisc branches of
    [netlink_reply]) and the dump ([build_getqdisc_dump]). *)

From S2P Require Import Prelude Method Bytes Netlink.

(** ** Constants *)

Definition TC_H_ROOT : Z := 0xFFFFFFFF.
Definition TC_H_INGRESS : Z := 0xFFFFFFF1.
Definition TC_H_MAJ_MASK : Z := 0xFFFF0000.
Definition TC_H_MIN_MASK : Z := 0x0000FFFF.
Definition NLM_F_REPLACE : Z := 0x100.
Definition NLM_F_EXCL : Z := 0x200.
Definition NLM_F_CREATE : Z := 0x400.
Definition TCA_KIND : Z := 1.
Definition TCA_OPTIONS : Z := 2.
Definition TCA_ETF_PARMS : Z := 1.
Definition TC_ETF_OFFLOAD_ON : Z := Z.shiftl 1 1.
Definition CLOCK_TAI : Z := 11.

Definition KINDS : list (list Z) :=
  bytes <$> ["pfifo_fast"; "pfifo"; "bfifo"; "noqueue"; "fq"; "fq_codel"; "codel"; "sfq"; "prio";
             "tbf"; "htb"; "mq"; "mqprio"; "taprio"; "etf"]%string.

(** ** State *)

Record Qdisc := mk_qdisc { kind : list Z; handle : Z; etf : option (Z * Z * Z) }.

#[export] Instance Qdisc_eq_dec : EqDecision Qdisc.
Proof. solve_decision. Defined.

Record NicQdiscs := mk_nic_qdiscs { root : Qdisc; children : gmap Z Qdisc }.

Record Device := mk_device {
  num_tx_queues : Z;
  real_tx_queues : Z;
  no_queue : bool;
  default_qdisc : list Z;
  etf_offload : option (list Z);
}.

(** ** [impl NicQdiscs] *)

Definition is_kind (k : list Z) (name : string) : bool := bool_decide (k = bytes name).

(** [default_for] *)
Definition default_for (dev : Device) (minor : Z) : Qdisc :=
  mk_qdisc (if minor <=? real_tx_queues dev then default_qdisc dev else bytes "pfifo_fast") 0 None.

(** [defaults] *)
Definition defaults (dev : Device) : gmap Z Qdisc :=
  list_to_map ((λ minor, (minor, default_for dev minor)) <$> seqZ 1 (as_u32 (num_tx_queues dev))).

(** [leaf], the closure of [initial] *)
Definition leaf (etf : option (Z * Z * Z)) (kind : list Z) : Qdisc :=
  mk_qdisc kind 0 (if is_kind kind "etf" then etf else None).

(** [initial] *)
Definition initial (dev : Device) (etf : option (Z * Z * Z)) : NicQdiscs :=
  if no_queue dev then mk_nic_qdiscs (leaf etf (bytes "noqueue")) ∅
  else if (1 <? num_tx_queues dev) && negb (is_kind (default_qdisc dev) "etf") then
    mk_nic_qdiscs (leaf etf (bytes "mq")) (defaults dev)
  else mk_nic_qdiscs (leaf etf (default_qdisc dev)) ∅.

(** [classful] *)
Definition classful (self : NicQdiscs) : bool :=
  let k := kind (root self) in is_kind k "mq" || is_kind k "mqprio" || is_kind k "taprio".

(** The [etf] parameters of [create] *)
Definition etf_parms {S} (dev : Device) (options : option (list Z)) (queue : option Z)
    : method S (Z * Z * Z) :=
  parms ← ok_or (o ← options; p ← find_attr o TCA_ETF_PARMS;
                 if (12 <=? length p)%nat then Some p else None) EINVAL;
  let delta := wrap_i32 (u32_at parms 0) in
  let clockid := wrap_i32 (u32_at parms 4) in
  let flags := u32_at parms 8 in
  fail_if (clockid <? 0) ENOTSUPP;;
  fail_if (negb (clockid =? CLOCK_TAI) || (delta <? 0)) EINVAL;;
  (if negb (Z.land flags TC_ETF_OFFLOAD_ON =? 0) then
     queues ← ok_or (etf_offload dev) EOPNOTSUPP;
     fail_if (negb (bool_decide (as_u16 (default 0 queue) ∈ queues))) EINVAL
   else mret tt);;
  mret (delta, clockid, flags).

(** [create] *)
Definition create {S} (dev : Device) (kind : list Z) (handle : Z) (options : option (list Z))
    (queue : option Z) : method S Qdisc :=
  fail_if (negb (bool_decide (kind ∈ KINDS))) ENOENT;;
  fail_if (is_kind kind "mq" && (bool_decide (is_Some queue) || (num_tx_queues dev <? 2)))
    EOPNOTSUPP;;
  etf ← (if is_kind kind "etf" then p ← etf_parms dev options queue; mret (Some p) else mret None);
  mret (mk_qdisc kind handle etf).

(** The kind a request names *)
Definition named_kind (attrs : list Z) : option (list Z) :=
  from_utf8_lossy ∘ until_nul <$> find_attr attrs TCA_KIND.

(** Whether to create, and whether that needs [NLM_F_CREATE], of [modify]; [inr] an error *)
Definition decide_create (existing : Qdisc) (flags handle_ : Z) (kind_ : option (list Z))
    : errno + option bool :=
  let present := negb (handle existing =? 0) in
  let differs := match kind_ with Some k => negb (bool_decide (k = kind existing)) | None => false end in
  let both a b := Z.land flags (Z.lor a b) =? Z.lor a b in
  if negb present || (handle_ =? 0) || negb (handle existing =? handle_) then
    if negb (handle_ =? 0) then
      if present && (Z.land flags NLM_F_REPLACE =? 0) then inl EEXIST
      else if negb (Z.land handle_ TC_H_MIN_MASK =? 0) then inl EINVAL
      else inr (Some true)
    else if negb present ||
            differs && (both NLM_F_CREATE NLM_F_REPLACE || both NLM_F_CREATE NLM_F_EXCL) then
      inr (Some true)
    else if differs &&
            (Z.land flags (Z.lor (Z.lor NLM_F_CREATE NLM_F_REPLACE) NLM_F_EXCL) =? 0) then
      inr (Some false)
    else inr None
  else inr None.

(** The queue a [modify] is for: [None] the root *)
Definition modify_queue (self : NicQdiscs) (dev : Device) (parent : Z) : errno + option Z :=
  if parent =? TC_H_ROOT then inr None
  else if (handle (root self) =? 0) ||
          negb (Z.land (handle (root self)) TC_H_MAJ_MASK =? Z.land parent TC_H_MAJ_MASK) then
    inl ENOENT
  else if negb (classful self) then inl EOPNOTSUPP
  else
    let minor := Z.land parent TC_H_MIN_MASK in
    if (minor =? 0) || (num_tx_queues dev <? minor) then inl ENOENT
    else inr (Some (minor - 1)).

(** [modify], on the table and the host's automatic handle *)
Definition modify (dev : Device) (flags handle_ parent : Z) (attrs : list Z)
    : method (NicQdiscs * Z) unit :=
  let kind_ := named_kind attrs in
  let options := find_attr attrs TCA_OPTIONS in
  fail_if (parent =? TC_H_INGRESS) EOPNOTSUPP;;
  fail_if (parent =? 0) (if handle_ =? 0 then EINVAL else ENOENT);;
  self ← get fst;
  queue ← lift (modify_queue self dev parent);
  existing ← unwrap (match queue with
                     | None => Some (root self)
                     | Some q => children self !! (q + 1)
                     end);
  let differs := match kind_ with Some k => negb (bool_decide (k = kind existing)) | None => false end in
  create_ ← lift (decide_create existing flags handle_ kind_);
  match create_ with
  | None =>
      fail_if (negb (Z.land flags NLM_F_EXCL =? 0)) EEXIST;;
      fail_if differs EINVAL;;
      fail_if (bool_decide (is_Some options) &&
               (is_kind (kind existing) "mq" || is_kind (kind existing) "etf")) EINVAL
  | Some needs_create_flag =>
      fail_if (needs_create_flag && (Z.land flags NLM_F_CREATE =? 0)) ENOENT;;
      k ← ok_or kind_ EINVAL;
      auto ← get snd;
      let next_auto := as_u32 (auto + 0x10000) in
      new ← create dev k (if negb (handle_ =? 0) then handle_ else next_auto) options queue;
      (if handle_ =? 0 then update (λ st, (fst st, next_auto)) else mret tt);;
      match queue with
      | None =>
          update (λ st, (mk_nic_qdiscs new
                           (if is_kind (kind new) "mq" then defaults dev else ∅), snd st))
      | Some q =>
          update (λ st, (mk_nic_qdiscs (root (fst st)) (<[q + 1 := new]> (children (fst st))), snd st))
      end
  end.

(** [delete] *)
Definition delete_qdisc (dev : Device) (handle_ parent : Z) : method NicQdiscs unit :=
  fail_if (parent =? 0) EINVAL;;
  self ← get (λ s, s);
  queue ← (if parent =? TC_H_ROOT then mret None
           else
             fail_if ((handle (root self) =? 0) ||
                      negb (Z.land (handle (root self)) TC_H_MAJ_MASK =? Z.land parent TC_H_MAJ_MASK) ||
                      negb (classful self)) ENOENT;;
             let minor := Z.land parent TC_H_MIN_MASK in
             fail_if ((minor =? 0) || (num_tx_queues dev <? minor)) ENOENT;;
             mret (Some minor));
  q ← unwrap (match queue with None => Some (root self) | Some m => children self !! m end);
  fail_if (negb (handle_ =? 0) && negb (handle q =? handle_)) EINVAL;;
  fail_if (handle q =? 0) ENOENT;;
  match queue with
  | None => update (λ _, initial dev None)
  | Some m => update (λ s, mk_nic_qdiscs (root s) (<[m := default_for dev m]> (children s)))
  end.

(** [listing] *)
Definition listing (self : NicQdiscs) (real_tx_queues : Z) : list (Z * Z * Qdisc) :=
  let major := Z.land (handle (root self)) TC_H_MAJ_MASK in
  (handle (root self), TC_H_ROOT, root self) ::
  (minor ← keys (children self);
   match children self !! minor with
   | Some q =>
       if negb (handle q =? 0) || (minor <=? real_tx_queues) then
         [(handle q, Z.lor major minor, q)]
       else []
   | None => []
   end).

(** ** The host's side *)

(** The fields of [NicState] the qdiscs use *)
Record nic := mk_nic {
  ifindex : Z; nic_tx_queues : Z; nic_num_tx_queues : Z; nic_no_queue : bool;
  nic_etf_offload : option (list Z); qdiscs : NicQdiscs;
}.

(** The fields of [HostState] the qdiscs use; [nics] in the order of the map *)
Record host := mk_host {
  net_admin : bool; nics : list nic; host_default_qdisc : list Z; qdisc_auto : Z;
}.

Definition device_of (h : host) (n : nic) : Device :=
  mk_device (nic_num_tx_queues n) (nic_tx_queues n) (nic_no_queue n) (host_default_qdisc h)
    (nic_etf_offload n).

Definition with_qdiscs (q : NicQdiscs) (n : nic) : nic :=
  mk_nic (ifindex n) (nic_tx_queues n) (nic_num_tx_queues n) (nic_no_queue n) (nic_etf_offload n) q.

(** What is left of the host after a request on the interface at [i] of its list *)
Definition put_nic (i : nat) (n : nic) (auto : Z) (h : host) : host :=
  mk_host (net_admin h) (<[i := n]> (nics h)) (host_default_qdisc h) auto.

(** The end of [change_qdisc]: the qdisc rules on the interface found *)
Definition apply_qdisc (new : bool) (flags handle_ parent : Z) (attrs : list Z) (i : nat) (n : nic)
    : method host unit := λ h,
  let dev := device_of h n in
  if new then
    let '(r, (q, auto)) := modify dev flags handle_ parent attrs (qdiscs n, qdisc_auto h) in
    (r, put_nic i (with_qdiscs q n) auto h)
  else
    let '(r, q) := delete_qdisc dev handle_ parent (qdiscs n) in
    (r, put_nic i (with_qdiscs q n) (qdisc_auto h) h).

(** [change_qdisc] *)
Definition change_qdisc (new : bool) (flags : Z) (req : list Z) : method host unit :=
  admin ← get net_admin;
  fail_if (negb admin) EPERM;;
  fail_if (length req <? 36)%nat EINVAL;;
  let ifindex_ := u32_at req 20 in
  let handle_ := u32_at req 24 in
  let parent := u32_at req 28 in
  let len := Nat.min (Nat.max (Z.to_nat (u32_at req 0)) 36) (length req) in
  let attrs := slice 36 len req in
  h ← get (λ h, h);
  i ← ok_or (position (λ n, ifindex n =? ifindex_) (nics h)) ENODEV;
  n ← unwrap (nics h !! i);
  apply_qdisc new flags handle_ parent attrs i n.

(** One [RTM_NEWQDISC] of a dump: its attributes, *)
Definition qdisc_attrs (body : list Z) (q : Qdisc) : list Z :=
  let body := push_rtattr body TCA_KIND (kind q) true in
  match etf q with
  | Some (delta, clockid, flags) =>
      let parms := to_ne_bytes 4 delta ++ to_ne_bytes 4 clockid ++ to_ne_bytes 4 flags in
      push_rtattr body TCA_OPTIONS (push_rtattr [] TCA_ETF_PARMS parms false) false
  | None => body
  end.

(** and the message. *)
Definition qdisc_body (n : nic) (entry : Z * Z * Qdisc) : list Z :=
  let '(handle, parent, q) := entry in
  qdisc_attrs ([0; 0; 0; 0] ++ to_ne_bytes 4 (ifindex n) ++ to_ne_bytes 4 handle ++
               to_ne_bytes 4 parent ++ to_ne_bytes 4 0) q.

Definition RTM_NEWQDISC : Z := 36.
Definition RTM_DELQDISC : Z := 37.
Definition RTM_GETQDISC : Z := 38.
Definition NLM_F_ACK : Z := 4.

(** [build_getqdisc_dump] *)
Definition build_getqdisc_dump (ns : list nic) (seq : Z) : list Z :=
  (n ← ns;
   entry ← listing (qdiscs n) (nic_tx_queues n);
   nl_message RTM_NEWQDISC NLM_F_MULTI seq (qdisc_body n entry)) ++
  nl_message NLMSG_DONE NLM_F_MULTI seq (to_ne_bytes 4 0).

(** The [RTM_NEWQDISC | RTM_DELQDISC] branch of [netlink_reply], for a request with a whole header;
    [None] a panic *)
Definition qdisc_reply (req : list Z) (h : host) : option (list Z) * host :=
  let ty := u16_at req 4 in
  let seq := u32_at req 8 in
  let flags := u16_at req 6 in
  let '(r, h) := change_qdisc (ty =? RTM_NEWQDISC) flags req h in
  let error code := Some (error_reply code req seq) in
  match r with
  | Panic => (None, h)
  | Ok _ => if Z.land flags NLM_F_ACK =? 0 then (Some [], h) else (error 0, h)
  | Err e => (error (errno_code e), h)
  end.
