(* ===== verification/QdiscProps.v ===== *)
(** * Traffic control: theorems

    The invariant of an interface's qdiscs and that every request keeps it, where a request panics,
    and that the messages of a dump, sent back, rebuild the table. *)

From S2P Require Import Prelude Method Bytes Netlink Qdisc.

(** ** Well-formed tables *)

(** The launch-time offload of an [etf] at [queue] is one the driver can do. *)
Definition offload_ok (dev : Device) (queue : option Z) (flags : Z) : Prop :=
  Z.land flags TC_ETF_OFFLOAD_ON = 0 ∨
  ∃ queues, etf_offload dev = Some queues ∧ as_u16 (default 0 queue) ∈ queues.

(** A qdisc a request created: what [create] checked of it. *)
Record created (dev : Device) (queue : option Z) (q : Qdisc) : Prop := {
  created_kind : kind q ∈ KINDS;
  created_handle : 0 < handle q < 2 ^ 32 ∧ Z.land (handle q) TC_H_MIN_MASK = 0;
  created_mq : kind q = bytes "mq" → queue = None ∧ 2 ≤ num_tx_queues dev;
  created_etf :
    if is_kind (kind q) "etf" then
      ∃ delta flags, etf q = Some (delta, CLOCK_TAI, flags) ∧ 0 ≤ delta ≤ i32_max ∧
        0 ≤ flags < 2 ^ 32 ∧ offload_ok dev queue flags
    else etf q = None;
}.

(** An interface's table: fresh, or under a root a request created; the queues of an [mq] each have
    a qdisc, their default or one a request created, and no other root has any. *)
Record table_ok (dev : Device) (t : NicQdiscs) : Prop := {
  ok_fresh : handle (root t) = 0 → ∃ e, t = initial dev e;
  ok_root : handle (root t) ≠ 0 → created dev None (root t);
  ok_classes : handle (root t) ≠ 0 →
    if is_kind (kind (root t)) "mq" then
      ∀ m, is_Some (children t !! m) ↔ 1 ≤ m ≤ num_tx_queues dev
    else children t = ∅;
  ok_child : ∀ m q, handle (root t) ≠ 0 → children t !! m = Some q →
    q = default_for dev m ∨ created dev (Some (m - 1)) q;
}.

(** A device: no more queues than a class minor can name below the reserved handles. *)
Definition dev_ok (dev : Device) : Prop := 0 ≤ num_tx_queues dev < 0xFFF1.

(** ** Defaults *)

Lemma defaults_lookup dev m :
  dev_ok dev →
  defaults dev !! m = if bool_decide (1 ≤ m ≤ num_tx_queues dev) then Some (default_for dev m) else None.
Proof.
  intros Hdev. unfold defaults. unfold dev_ok, as_u32 in *. rewrite Z.mod_small by lia.
  case_bool_decide as Hm.
  - apply elem_of_list_to_map_1.
    + rewrite <- list_fmap_compose. rewrite list_fmap_id. apply NoDup_seqZ.
    + apply list_elem_of_fmap. exists m. split; [done|]. apply elem_of_seqZ. lia.
  - apply not_elem_of_list_to_map_1. rewrite <- list_fmap_compose, list_fmap_id, elem_of_seqZ. lia.
Qed.

Lemma defaults_classes dev m :
  dev_ok dev → is_Some (defaults dev !! m) ↔ 1 ≤ m ≤ num_tx_queues dev.
Proof.
  intros Hdev. rewrite defaults_lookup by done. case_bool_decide.
  - split; [done|by eexists].
  - split; [by intros []|done].
Qed.

Lemma initial_ok dev e : table_ok dev (initial dev e).
Proof.
  assert (handle (root (initial dev e)) = 0) as H0
    by (unfold initial; destruct (no_queue dev); [done|]; by destruct (_ && _)).
  split; [by exists e|done..].
Qed.

(** ** [create] *)

Lemma find_from_bytes view fuel attrs want pos p :
  Forall is_byte attrs → find_from view fuel attrs want pos = Some p → Forall is_byte p.
Proof.
  intros Ha. revert pos. induction fuel as [|fuel IH]; intros pos; cbn [find_from]; [done|].
  repeat case_match; try done; [|eauto].
  intros [= <-]. unfold slice. by apply Forall_take, Forall_drop.
Qed.

Lemma u32_at_bound l i : Forall is_byte l → 0 ≤ u32_at l i < 2 ^ 32.
Proof.
  intros Hl. unfold u32_at, slice. set (k := take _ _).
  assert (Forall is_byte k) as Hk by by apply Forall_take, Forall_drop.
  assert (length k ≤ 4)%nat by (unfold k; rewrite length_take; lia).
  pose proof (from_ne_bytes_bound k Hk) as [? Hb]. split; [done|].
  eapply Z.lt_le_trans; [exact Hb|]. change (2 ^ 32) with (256 ^ 4).
  apply Z.pow_le_mono_r; lia.
Qed.

Lemma wrap_i32_bounds x : i32_min ≤ wrap_i32 x ≤ i32_max.
Proof. unfold wrap_i32. dlia. Qed.

(** The parameters [etf_parms] reads are bytes of the request. *)
Lemma etf_attr_bytes options p :
  (∀ o, options = Some o → Forall is_byte o) →
  (o ← options; p ← find_attr o TCA_ETF_PARMS; if (12 <=? length p)%nat then Some p else None)
    = Some p → Forall is_byte p.
Proof.
  intros Hbytes. destruct options as [o|]; [|done]. cbn [mbind option_bind].
  destruct (find_attr o _) as [p'|] eqn:Hp; [|done]. cbn [mbind option_bind].
  destruct (12 <=? length p')%nat; [|done]. intros [= ->].
  eapply find_from_bytes; [|exact Hp]. by apply Hbytes.
Qed.

(** [create] leaves the state alone, does not panic, and makes only what it checked. *)
Lemma etf_parms_runs {S} dev options queue (s : S) :
  (∀ o, options = Some o → Forall is_byte o) →
  runs (etf_parms dev options queue) s (λ r s',
    s' = s ∧
    match r with
    | Ok (delta, clockid, flags) =>
        clockid = CLOCK_TAI ∧ 0 ≤ delta ≤ i32_max ∧ 0 ≤ flags < 2 ^ 32 ∧ offload_ok dev queue flags
    | Err _ => True
    | Panic => False
    end).
Proof.
  intros Hbytes. unfold etf_parms. msteps; try done.
  all: match goal with H : _ = Some ?p |- _ => apply etf_attr_bytes in H; [|done] end.
  all: match goal with H : _ || _ = false |- _ => apply orb_false_iff in H as [Hc Hd] end.
  all: apply negb_false_iff, Z.eqb_eq in Hc; apply Z.ltb_ge in Hd.
  all: pose proof (wrap_i32_bounds (u32_at a 0)); split_and!; try done; try lia.
  all: try (apply u32_at_bound; done).
  - right. exists a0. split; [done|].
    match goal with H : negb (bool_decide _) = false |- _ =>
      by apply negb_false_iff, bool_decide_eq_true in H end.
  - left. match goal with H : negb _ = false |- _ =>  by apply negb_false_iff, Z.eqb_eq in H end.
Qed.

Lemma create_runs {S} dev k h options queue (s : S) :
  (∀ o, options = Some o → Forall is_byte o) →
  runs (create dev k h options queue) s (λ r s',
    s' = s ∧
    match r with
    | Ok q => kind q = k ∧ handle q = h ∧
        (0 < h < 2 ^ 32 → Z.land h TC_H_MIN_MASK = 0 → created dev queue q)
    | Err _ => True
    | Panic => False
    end).
Proof.
  intros Hbytes. unfold create. mstep. mstep; [done|]. mstep. mstep; [done|].
  apply negb_false_iff, bool_decide_eq_true in H.
  assert (k = bytes "mq" → queue = None ∧ 2 ≤ num_tx_queues dev) as Hmq.
  { intros ->. unfold is_kind in H0. rewrite bool_decide_eq_true_2 in H0 by done. simpl in H0.
    apply orb_false_iff in H0 as [Hq Hn]. apply bool_decide_eq_false in Hq.
    split; [|by apply Z.ltb_ge in Hn]. destruct queue; [|done]. by destruct Hq. }
  apply runs_bind. destruct (is_kind k "etf") eqn:He.
  - apply runs_bind. eapply runs_mono; [by apply etf_parms_runs|].
    intros [[[delta clockid] flags]|e|] s' [-> Hp]; [|done..]. destruct Hp as (-> & Hd & Hf & Ho).
    apply runs_ret, runs_ret. split_and!; [done..|]. intros ??. split; [done..|].
    cbn [kind]. rewrite He. by exists delta, flags.
  - apply runs_ret, runs_ret. split_and!; [done..|]. intros ??. split; [done..|].
    cbn [kind]. by rewrite He.
Qed.

(** ** Where a request goes *)

(** The class of the root the [parent] of a request names. *)
Definition names_class (dev : Device) (t : NicQdiscs) (parent minor : Z) : Prop :=
  parent ≠ TC_H_ROOT ∧ handle (root t) ≠ 0 ∧
  Z.land (handle (root t)) TC_H_MAJ_MASK = Z.land parent TC_H_MAJ_MASK ∧
  classful t = true ∧ minor = Z.land parent TC_H_MIN_MASK ∧ 1 ≤ minor ≤ num_tx_queues dev.

Lemma land_min_nonneg parent : 0 ≤ Z.land parent TC_H_MIN_MASK.
Proof. apply Z.land_nonneg. by right. Qed.

Lemma modify_queue_inr t dev parent queue :
  modify_queue t dev parent = inr queue ↔
  match queue with
  | None => parent = TC_H_ROOT
  | Some i => names_class dev t parent (i + 1)
  end.
Proof.
  pose proof (land_min_nonneg parent) as Hm. unfold modify_queue, names_class.
  destruct (Z.eqb_spec parent TC_H_ROOT) as [->|?]; [destruct queue; naive_solver|].
  destruct (Z.eqb_spec (handle (root t)) 0); cbn [orb]; [destruct queue; naive_solver|].
  destruct (Z.eqb_spec (Z.land (handle (root t)) TC_H_MAJ_MASK) (Z.land parent TC_H_MAJ_MASK));
    cbn [negb]; [|destruct queue; naive_solver].
  destruct (classful t) eqn:?; cbn [negb]; [|destruct queue; naive_solver].
  destruct (Z.eqb_spec (Z.land parent TC_H_MIN_MASK) 0); cbn [orb].
  { destruct queue; [|done]. split; [done|]. lia. }
  destruct (Z.ltb_spec (num_tx_queues dev) (Z.land parent TC_H_MIN_MASK)).
  { destruct queue; [|done]. split; [done|]. lia. }
  destruct queue as [i|]; [|done]. split.
  - intros [= <-]. split_and!; try done; lia.
  - intros (_ & _ & _ & _ & Hi & _). do 2 f_equal. lia.
Qed.

(** The qdisc a request puts in place: at the root, which takes its classes along, or at a class. *)
Definition place (dev : Device) (queue : option Z) (q : Qdisc) (t : NicQdiscs) : NicQdiscs :=
  match queue with
  | None => mk_nic_qdiscs q (if is_kind (kind q) "mq" then defaults dev else ∅)
  | Some i => mk_nic_qdiscs (root t) (<[i + 1 := q]> (children t))
  end.

Lemma place_root_ok dev q t :
  dev_ok dev → created dev None q → table_ok dev (place dev None q t).
Proof.
  intros Hdev Hq. pose proof (created_handle _ _ _ Hq) as [? _].
  split; cbn [place root children].
  - lia.
  - done.
  - intros _. destruct (is_kind (kind q) "mq"); [|done]. intros m. by apply defaults_classes.
  - intros m q' _. destruct (is_kind (kind q) "mq"); [|by rewrite lookup_empty].
    rewrite defaults_lookup by done. case_bool_decide; [|done]. intros [= <-]. by left.
Qed.

Lemma place_class_ok dev i q t :
  handle (root t) ≠ 0 → is_Some (children t !! (i + 1)) →
  created dev (Some i) q ∨ q = default_for dev (i + 1) →
  table_ok dev t → table_ok dev (place dev (Some i) q t).
Proof.
  intros Hh Hi Hq Ht. split; cbn [place root children].
  - done.
  - apply Ht.
  - intros _. pose proof (ok_classes _ _ Ht Hh) as Hc. destruct (is_kind _ "mq").
    + intros m. rewrite lookup_insert_is_Some', <- Hc. split; [intros [<-|?]; done|auto].
    + rewrite Hc, lookup_empty in Hi. by destruct Hi.
  - intros m q' _ [[<- <-]|[? ?]]%lookup_insert_Some; [|by eapply ok_child].
    replace (i + 1 - 1) with i by lia. tauto.
Qed.

(** ** [modify] *)

(** The host's counter of automatic handles before [n] more of them. *)
Definition auto_ok (n : Z) (auto : Z) : Prop :=
  0 ≤ auto ∧ auto + n * 0x10000 < 2 ^ 32 ∧ auto mod 0x10000 = 0.

Lemma land_min x : Z.land x TC_H_MIN_MASK = x mod 0x10000.
Proof. apply (Z.land_ones x 16). lia. Qed.

(** The qdisc at the place a request names. *)
Definition existing_at (t : NicQdiscs) (queue : option Z) : option Qdisc :=
  match queue with None => Some (root t) | Some q => children t !! (q + 1) end.

(** What a request that succeeds does: nothing, or it puts the qdisc it names in its place. *)
Definition modified (dev : Device) (handle_ parent : Z) (kind_ : option (list Z))
    (t : NicQdiscs) (auto : Z) (t' : NicQdiscs) (auto' : Z) : Prop :=
  (t' = t ∧ auto' = auto) ∨
  ∃ queue q, modify_queue t dev parent = inr queue ∧ is_Some (existing_at t queue) ∧
    created dev queue q ∧ kind_ = Some (kind q) ∧
    handle q = (if handle_ =? 0 then auto + 0x10000 else handle_) ∧
    auto' = (if handle_ =? 0 then auto + 0x10000 else auto) ∧ t' = place dev queue q t.

(** The class of a request is one an [mqprio] or [taprio] root has no table entry for. *)
Definition classless (dev : Device) (t : NicQdiscs) (parent : Z) : Prop :=
  parent ≠ TC_H_INGRESS ∧ parent ≠ 0 ∧ ∃ m, names_class dev t parent m ∧ kind (root t) ≠ bytes "mq".

Lemma decide_create_handle existing flags handle_ kind_ b :
  decide_create existing flags handle_ kind_ = inr (Some b) → handle_ ≠ 0 →
  Z.land handle_ TC_H_MIN_MASK = 0.
Proof.
  unfold decide_create. intros H Hh. destruct (Z.eqb_spec handle_ 0); [done|].
  destruct (Z.eqb_spec (Z.land handle_ TC_H_MIN_MASK) 0); [done|].
  repeat case_match; simplify_eq/=; done.
Qed.

Lemma new_handle_ok existing flags handle_ kind_ b auto :
  decide_create existing flags handle_ kind_ = inr (Some b) →
  0 ≤ handle_ < 2 ^ 32 → auto_ok 1 auto →
  let h := if negb (handle_ =? 0) then handle_ else as_u32 (auto + 0x10000) in
  h = (if handle_ =? 0 then auto + 0x10000 else handle_) ∧
  0 < h < 2 ^ 32 ∧ Z.land h TC_H_MIN_MASK = 0.
Proof.
  intros Hd Hh (? & ? & Ha). unfold as_u32. destruct (Z.eqb_spec handle_ 0); cbn [negb].
  - rewrite Z.mod_small by lia. rewrite land_min. split_and!; [done|lia|lia|].
    rewrite <- Ha. symmetry. rewrite <- (Z_mod_plus_full auto 1). f_equal.
  - split_and!; [done|lia|lia|]. by eapply decide_create_handle.
Qed.

Lemma options_bytes attrs o :
  Forall is_byte attrs → find_attr attrs TCA_OPTIONS = Some o → Forall is_byte o.
Proof. apply find_from_bytes. Qed.

Lemma classless_iff dev t parent queue :
  table_ok dev t → parent ≠ TC_H_INGRESS → parent ≠ 0 → modify_queue t dev parent = inr queue →
  classless dev t parent ↔ existing_at t queue = None.
Proof.
  intros Ht Hi H0 Hq. rewrite modify_queue_inr in Hq. unfold classless. destruct queue as [i|].
  - pose proof Hq as (_ & Hh & _ & _ & Hm & Hb). pose proof (ok_classes _ _ Ht Hh) as Hc.
    cbn [existing_at]. unfold is_kind in Hc. case_bool_decide as Hk; split.
    + intros (_ & _ & m & _ & ?). done.
    + intros Hn. destruct (proj2 (Hc (i + 1)) Hb) as [q Hq']. by rewrite Hq' in Hn.
    + intros _. by rewrite Hc, lookup_empty.
    + intros _. split_and!; [done..|]. by exists (i + 1).
  - split; [|done]. intros (_ & _ & m & (? & _) & _). done.
Qed.

Lemma not_classless_inl dev t parent e :
  modify_queue t dev parent = inl e → ¬ classless dev t parent.
Proof.
  intros He (_ & _ & m & Hm & _).
  pose proof (proj2 (modify_queue_inr t dev parent (Some (m - 1)))) as Hq. cbn beta iota in Hq.
  replace (m - 1 + 1) with m in Hq by lia. rewrite Hq in He; done.
Qed.

(** Every ending of [modify]: an error changes nothing, a success does what was asked, and it
    panics on a class the table has no entry for. *)
Lemma modify_runs dev flags handle_ parent attrs t auto :
  table_ok dev t → auto_ok 1 auto → 0 ≤ handle_ < 2 ^ 32 → Forall is_byte attrs →
  runs (modify dev flags handle_ parent attrs) (t, auto) (λ r st,
    match r with
    | Ok _ => modified dev handle_ parent (named_kind attrs) t auto st.1 st.2 ∧ ¬ classless dev t parent
    | Err _ => st = (t, auto) ∧ ¬ classless dev t parent
    | Panic => st = (t, auto) ∧ classless dev t parent
    end).
Proof.
  intros Ht Ha Hh Hb. unfold modify.
  do 2 mstep; [unfold classless; zbool; naive_solver|].
  do 2 mstep; [unfold classless; zbool; naive_solver|].
  do 2 mstep. cbn [fst].
  do 2 mstep; [split; [done|by eapply not_classless_inl]|].
  apply Z.eqb_neq in H, H0. rename a into queue, H1 into Hqueue.
  pose proof (classless_iff _ _ _ _ Ht H H0 Hqueue) as Hcl. fold (existing_at t queue).
  do 2 mstep; [tauto|]. rename a into existing.
  assert (¬ classless dev t parent) as Hn by (rewrite Hcl; congruence). clear Hcl.
  do 2 mstep; [done|]. destruct a as [needs|].
  2: { msteps; [done..|]. split; [by left|done]. }
  do 2 mstep; [done|]. do 2 mstep; [done|]. rename a into k. do 2 mstep. cbn [snd].
  destruct (new_handle_ok _ _ _ _ _ auto H2 Hh Ha) as (Eh & Hpos & Hmin).
  apply runs_bind. eapply runs_mono; [apply create_runs; intros o; by apply options_bytes|].
  intros [q|e|] st [-> Hq]; [|done..]. destruct Hq as (<- & Eq & Hq).
  assert (created dev queue q) as Hc by auto. rewrite Eh in Eq.
  apply runs_bind.
  assert (∀ st, st = (t, if handle_ =? 0 then auto + 0x10000 else auto) →
    modified dev handle_ parent (named_kind attrs) t auto
      (place dev queue q (fst st)) (snd st)) as Hdone.
  { intros ? ->. right. exists queue, q. by rewrite H1. }
  destruct (Z.eqb_spec handle_ 0); cbn [negb] in Eh; rewrite ?Eh.
  all: mstep; destruct queue as [i|]; mstep; (split; [|done]); by apply (Hdone (t, _)).
Qed.

Lemma modified_ok dev handle_ parent kind_ t auto t' auto' :
  dev_ok dev → table_ok dev t → modified dev handle_ parent kind_ t auto t' auto' → table_ok dev t'.
Proof.
  intros Hdev Ht [[-> ->]|(queue & q & Hq & Hex & Hc & _ & _ & _ & ->)]; [done|].
  destruct queue as [i|]; [|by apply place_root_ok].
  rewrite modify_queue_inr in Hq. destruct Hq as (_ & Hh & _). apply place_class_ok; auto.
Qed.

(** ** [delete] *)

(** Every ending of [delete]. *)
Lemma delete_runs dev handle_ parent t :
  table_ok dev t →
  runs (delete_qdisc dev handle_ parent) t (λ r t',
    let no_entry := ∃ m, names_class dev t parent m ∧ kind (root t) ≠ bytes "mq" in
    match r with
    | Ok _ => table_ok dev t' ∧ ¬ no_entry
    | Err _ => t' = t ∧ ¬ no_entry
    | Panic => t' = t ∧ no_entry
    end).
Proof.
  intros Ht. unfold delete_qdisc.
  do 2 mstep; [split; [done|]|].
  { intros (m & (? & ? & ? & ? & -> & ?) & ?). apply Z.eqb_eq in H. subst parent. change (Z.land 0 TC_H_MIN_MASK) with 0 in *. lia. }
  do 2 mstep. apply runs_bind. destruct (Z.eqb_spec parent TC_H_ROOT) as [->|Hroot].
  - assert (¬ ∃ m, names_class dev t TC_H_ROOT m ∧ kind (root t) ≠ bytes "mq") as Hn
      by (intros (m & (? & _) & _); done).
    mstep. msteps; try done. split; [apply initial_ok|done].
  - do 2 mstep; [split; [done|]|].
    { intros (m & (_ & ? & ? & Hc & _) & _). apply orb_true_iff in H0 as [H0|H0].
      - zbool; done.
      - by rewrite Hc in H0. }
    do 2 mstep; [split; [done|]|].
    { intros (m & (_ & _ & _ & _ & -> & ?) & _). zbool; simpl in *; lia. }
    mstep. set (m := Z.land parent TC_H_MIN_MASK) in *.
    pose proof (land_min_nonneg parent).
    assert (names_class dev t parent m) as Hm.
    { apply orb_false_iff in H0 as [[? ?]%orb_false_iff Hcl%negb_false_iff].
      apply orb_false_iff in H1 as [? ?]. apply negb_false_iff in H3.
      unfold names_class. fold m. zbool; try done. split_and!; try done; lia. }
    pose proof Hm as (_ & Hh & _ & _ & _ & Hb). pose proof (ok_classes _ _ Ht Hh) as Hc.
    do 2 mstep.
    + split; [done|]. exists m. split; [done|]. intros Hk. unfold is_kind in Hc.
      rewrite bool_decide_eq_true_2 in Hc by done. destruct (proj2 (Hc m) Hb). congruence.
    + assert (kind (root t) = bytes "mq") as Hk.
      { unfold is_kind in Hc. case_bool_decide; [done|]. rewrite Hc, lookup_empty in *. done. }
      assert (¬ ∃ m, names_class dev t parent m ∧ kind (root t) ≠ bytes "mq")
        by (intros (? & _ & ?); done).
      msteps; try done. split; [|done].
      replace m with (m - 1 + 1) by lia. apply (place_class_ok dev (m - 1)); try done.
      * replace (m - 1 + 1) with m by lia. by eexists.
      * by right.
Qed.

(** ** The host *)

Definition nic_ok (h : host) (n : nic) : Prop :=
  dev_ok (device_of h n) ∧ table_ok (device_of h n) (qdiscs n).

(** A host before [k] more requests. *)
Definition host_ok (k : Z) (h : host) : Prop := Forall (nic_ok h) (nics h) ∧ auto_ok k (qdisc_auto h).

(** An interface whose root has classes the table does not hold. *)
Definition classless_root (n : nic) : Prop :=
  handle (root (qdiscs n)) ≠ 0 ∧
  (kind (root (qdiscs n)) = bytes "mqprio" ∨ kind (root (qdiscs n)) = bytes "taprio").

Lemma classful_kinds t :
  classful t = true → kind (root t) ≠ bytes "mq" →
  kind (root t) = bytes "mqprio" ∨ kind (root t) = bytes "taprio".
Proof.
  unfold classful, is_kind. intros H Hk. rewrite bool_decide_eq_false_2 in H by done.
  apply orb_true_iff in H as [H|H]; apply bool_decide_eq_true in H; auto.
Qed.

Lemma put_nic_ok h i n q auto k :
  nics h !! i = Some n → dev_ok (device_of h n) → table_ok (device_of h n) q →
  Forall (nic_ok h) (nics h) → auto_ok k auto → host_ok k (put_nic i (with_qdiscs q n) auto h).
Proof.
  intros Hi Hdev Hq Hall Ha. split; [|done]. apply Forall_insert; [done|]. by split.
Qed.

Lemma put_nic_id h i n : nics h !! i = Some n → put_nic i (with_qdiscs (qdiscs n) n) (qdisc_auto h) h = h.
Proof.
  intros Hi. destruct h as [adm ns def auto], n; unfold put_nic, with_qdiscs; cbn in *.
  by rewrite list_insert_id.
Qed.

Lemma auto_ok_weaken k auto : auto_ok (k + 1) auto → 0 ≤ k → auto_ok k auto ∧ auto_ok k (auto + 0x10000) ∧ auto_ok 1 auto.
Proof.
  unfold auto_ok. intros (? & ? & Hm) ?. split_and!; try lia; try done.
  rewrite <- Hm. rewrite <- (Z_mod_plus_full auto 1). f_equal.
Qed.

(** What one request does to the host. *)
Definition served (k : Z) (h : host) (r : outcome unit) (h' : host) : Prop :=
  match r with
  | Ok _ => host_ok k h'
  | Err _ => h' = h
  | Panic => h' = h ∧ ∃ n, n ∈ nics h ∧ classless_root n
  end.

Lemma apply_served new flags handle_ parent attrs i n h k :
  host_ok (k + 1) h → 0 ≤ k → nics h !! i = Some n →
  0 ≤ handle_ < 2 ^ 32 → Forall is_byte attrs →
  runs (apply_qdisc new flags handle_ parent attrs i n) h (served k h).
Proof.
  intros [Hall Ha] Hk Hi Hh Hb. destruct (auto_ok_weaken _ _ Ha Hk) as (A1 & A2 & A3).
  pose proof Hall as Hall'. rewrite list.Forall_lookup in Hall'.
  destruct (Hall' i n Hi) as [Hdev Ht]. clear Hall'.
  assert (n ∈ nics h) as Hin by by eapply list_elem_of_lookup_2.
  unfold runs, apply_qdisc. destruct new.
  - pose proof (modify_runs (device_of h n) flags handle_ parent attrs _ _ Ht A3 Hh Hb) as Hm.
    unfold runs in Hm. destruct (modify _ _ _ _ _ _) as [r [q auto]]. cbn [fst snd] in *.
    destruct r as [[]|e|]; cbn [served].
    + destruct Hm as [Hm _]. pose proof (modified_ok _ _ _ _ _ _ _ _ Hdev Ht Hm).
      apply put_nic_ok; try done. destruct Hm as [[_ ->]|(? & ? & _ & _ & _ & _ & _ & -> & _)]; [done|].
      by destruct (handle_ =? 0).
    + destruct Hm as [[= -> ->] _]. by apply put_nic_id.
    + destruct Hm as [[= -> ->] (_ & _ & m & (_ & ? & _ & ? & _) & ?)].
      split; [by apply put_nic_id|]. exists n. split; [done|]. split; [done|]. by apply classful_kinds.
  - pose proof (delete_runs (device_of h n) handle_ parent _ Ht) as Hm.
    unfold runs in Hm. destruct (delete_qdisc _ _ _ _) as [r q]. cbn [fst snd] in *.
    destruct r as [[]|e|]; cbn [served].
    + apply put_nic_ok; try done. tauto.
    + destruct Hm as [-> _]. by apply put_nic_id.
    + destruct Hm as [-> (m & (_ & ? & _ & ? & _) & ?)].
      split; [by apply put_nic_id|]. exists n. split; [done|]. split; [done|]. by apply classful_kinds.
Qed.

Lemma change_served new flags req h k :
  host_ok (k + 1) h → 0 ≤ k → Forall is_byte req →
  runs (change_qdisc new flags req) h (λ r h',
    served k h r h' ∧
    (net_admin h = false → r = Err EPERM) ∧
    (net_admin h = true → (length req < 36)%nat → r = Err EINVAL) ∧
    (net_admin h = true → (36 ≤ length req)%nat →
       (∀ n, n ∈ nics h → ifindex n ≠ u32_at req 20) → r = Err ENODEV)).
Proof.
  intros Hh Hk Hb. unfold change_qdisc. do 2 mstep. do 2 mstep.
  { apply negb_true_iff in H. split_and!; try done; congruence. }
  apply negb_false_iff in H. do 2 mstep.
  { apply Nat.ltb_lt in H0. split_and!; try done; [congruence|lia]. }
  apply Nat.ltb_ge in H0. do 2 mstep. do 2 mstep.
  { split_and!; try done; [congruence|lia]. }
  rename a into i, H1 into Hi. apply position_Some in Hi as (n & Hi & Hn). rewrite Hi.
  apply Z.eqb_eq in Hn. do 2 mstep; [done|]. simplify_eq.
  eapply runs_mono.
  - eapply (apply_served _ _ _ _ _ _ _ _ k); try done.
    + by apply u32_at_bound.
    + unfold slice. by apply Forall_take, Forall_drop.
  - intros r h' Hs. split_and!; [done|congruence|lia|].
    intros _ _ Hno. exfalso. apply (Hno a); [by eapply list_elem_of_lookup_2|done].
Qed.

(** Requests one after another, with their replies. *)
Fixpoint serve (reqs : list (list Z)) (h : host) : list (option (list Z)) * host :=
  match reqs with
  | [] => ([], h)
  | req :: reqs =>
      let '(reply, h) := qdisc_reply req h in
      let '(replies, h) := serve reqs h in
      (reply :: replies, h)
  end.

Lemma qdisc_reply_ok req h k :
  host_ok (k + 1) h → 0 ≤ k → Forall is_byte req →
  host_ok k (qdisc_reply req h).2 ∧
  ((qdisc_reply req h).1 = None → ∃ n, n ∈ nics h ∧ classless_root n).
Proof.
  intros Hh Hk Hb. pose proof (change_served (u16_at req 4 =? RTM_NEWQDISC) (u16_at req 6) req h k Hh Hk Hb) as Hs.
  unfold runs in Hs. unfold qdisc_reply. destruct (change_qdisc _ _ _ _) as [r h']. cbn [fst snd] in Hs.
  destruct Hs as [Hs _]. assert (host_ok k h) as Hh'.
  { destruct Hh as [? Ha]. split; [done|]. by apply auto_ok_weaken. }
  destruct r as [[]|e|]; cbn [served] in Hs.
  - destruct (Z.land _ _ =? 0); done.
  - by subst.
  - destruct Hs as [-> ?]. done.
Qed.

Lemma serve_ok reqs : ∀ h, host_ok (Z.of_nat (length reqs)) h → Forall (Forall is_byte) reqs →
  host_ok 0 (serve reqs h).2.
Proof.
  induction reqs as [|req reqs IH]; intros h Hh Hb; [done|].
  apply Forall_cons in Hb as [Hb Hbs]. cbn [length] in Hh.
  replace (Z.of_nat (S (length reqs))) with (Z.of_nat (length reqs) + 1) in Hh by lia.
  pose proof (qdisc_reply_ok req h _ Hh ltac:(lia) Hb) as [Hok _].
  cbn [serve]. destruct (qdisc_reply req h) as [reply h1]. specialize (IH h1 Hok Hbs).
  by destruct (serve reqs h1).
Qed.

(** ** A host to run *)

Definition start_nic : nic :=
  mk_nic 2 2 4 false (Some [0; 1])
    (initial (mk_device 4 2 false (bytes "fq_codel") (Some [0; 1])) None).
Definition start_host : host := mk_host true [start_nic] (bytes "fq_codel") 0x80000000.

(** A request for interface 2, with its handle, parent and kind *)
Definition request_for (ty flags handle_ parent : Z) (name : string) : list Z :=
  let body := [0; 0; 0; 0] ++ to_ne_bytes 4 2 ++ to_ne_bytes 4 handle_ ++ to_ne_bytes 4 parent ++
              to_ne_bytes 4 0 in
  nl_message ty (Z.lor 1 flags) 7 (push_rtattr body TCA_KIND (bytes name) true).

(** [tc qdisc add dev eth0 root handle 1: mq], then [mqprio] in its place *)
Definition add_mq : list Z :=
  request_for RTM_NEWQDISC (Z.lor NLM_F_CREATE NLM_F_EXCL) 0x10000 TC_H_ROOT "mq".
Definition add_mqprio : list Z :=
  request_for RTM_NEWQDISC (Z.lor NLM_F_CREATE NLM_F_REPLACE) 0x20000 TC_H_ROOT "mqprio".
(** [tc qdisc add dev eth0 parent 2:1 fq] *)
Definition add_class : list Z :=
  request_for RTM_NEWQDISC (Z.lor NLM_F_CREATE NLM_F_EXCL) 0 0x20001 "fq".

#[export] Instance is_byte_dec b : Decision (is_byte b).
Proof. unfold is_byte. apply _. Defined.

Lemma start_host_ok k : 0 ≤ k ≤ 1000 → host_ok k start_host.
Proof.
  intros Hk. split.
  - constructor; [|constructor]. split; [done|apply initial_ok].
  - unfold auto_ok. cbn [qdisc_auto start_host]. split_and!; [lia..|done].
Qed.

(** ** The theorems *)

(** C15: as long as the host's counter of automatic handles cannot wrap, that is for fewer requests
    than the multiples of 0x10000 left above it (32767 from a new host's 0x80000000), whatever
    requests arrive at its interfaces keep every table well formed: under an [mq] root each
    allocated queue has a qdisc and no other root has any, and each qdisc is the device's default
    or one that passed [create]'s checks, with its handle's minor zero. *)
Theorem requests_keep_tables reqs h :
  host_ok (Z.of_nat (length reqs)) h → Forall (Forall is_byte) reqs →
  Forall (nic_ok (serve reqs h).2) (nics (serve reqs h).2).
Proof. intros Hh Hb. by apply serve_ok. Qed.

Lemma requests_keep_tables_witness :
  host_ok 2 start_host ∧
  Forall (nic_ok (serve [add_mq; add_mqprio] start_host).2)
    (nics (serve [add_mq; add_mqprio] start_host).2) ∧
  (kind ∘ root ∘ qdiscs <$> nics (serve [add_mq; add_mqprio] start_host).2) = [bytes "mqprio"].
Proof.
  split; [by apply start_host_ok|]. split; [|by vm_compute].
  apply (requests_keep_tables [add_mq; add_mqprio] start_host); [by apply start_host_ok|].
  apply (bool_decide_unpack _). by vm_compute.
Defined.

(** The bound is needed: the request that wraps the counter installs a root with handle 0, which
    then passes for the one the interface came up with. *)
Lemma wrapped_handle_is_zero :
  let '(replies, h) :=
    serve [request_for RTM_NEWQDISC (Z.lor NLM_F_CREATE NLM_F_REPLACE) 0 TC_H_ROOT "fq"]
      (mk_host true [start_nic] (bytes "fq_codel") 0xFFFF0000) in
  replies = [Some []] ∧ qdisc_auto h = 0 ∧
  (root ∘ qdiscs <$> nics h) = [mk_qdisc (bytes "fq") 0 None].
Proof. by vm_compute. Qed.

(** C34: a request that fails changes nothing, neither the tables nor the counter of automatic
    handles; without CAP_NET_ADMIN it fails with EPERM, too short with EINVAL, for an interface
    that is not there with ENODEV, in that order. *)
Theorem failed_request_changes_nothing new flags req h :
  host_ok 1 h → Forall is_byte req →
  (∀ e, (change_qdisc new flags req h).1 = Err e → (change_qdisc new flags req h).2 = h) ∧
  (net_admin h = false → (change_qdisc new flags req h).1 = Err EPERM) ∧
  (net_admin h = true → (length req < 36)%nat → (change_qdisc new flags req h).1 = Err EINVAL) ∧
  (net_admin h = true → (36 ≤ length req)%nat → (∀ n, n ∈ nics h → ifindex n ≠ u32_at req 20) →
     (change_qdisc new flags req h).1 = Err ENODEV).
Proof.
  intros Hh Hb. destruct (change_served new flags req h 0 Hh ltac:(lia) Hb) as [Hs Hrest].
  split; [|done]. intros e He. rewrite He in Hs. done.
Qed.

Lemma failed_request_changes_nothing_witness :
  (change_qdisc true (Z.lor NLM_F_CREATE NLM_F_EXCL) add_class start_host).1 = Err ENOENT ∧
  (change_qdisc true (Z.lor NLM_F_CREATE NLM_F_EXCL) add_class start_host).2 = start_host.
Proof.
  split; [by vm_compute|].
  refine (proj1 (failed_request_changes_nothing true (Z.lor NLM_F_CREATE NLM_F_EXCL) add_class
    start_host _ _) ENOENT _).
  - by apply start_host_ok.
  - apply (bool_decide_unpack _). by vm_compute.
  - by vm_compute.
Defined.

(** a request panics, indexing a class the table has no entry for, exactly when it is for a
    class in range of an [mqprio] or [taprio] root that a request installed; on every other table
    and request it returns. *)
Theorem modify_panics_exactly dev flags handle_ parent attrs t auto :
  table_ok dev t → auto_ok 1 auto → 0 ≤ handle_ < 2 ^ 32 → Forall is_byte attrs →
  (modify dev flags handle_ parent attrs (t, auto)).1 = Panic ↔ classless dev t parent.
Proof.
  intros Ht Ha Hh Hb. pose proof (modify_runs dev flags handle_ parent attrs t auto Ht Ha Hh Hb) as Hm.
  unfold runs in Hm. destruct (modify _ _ _ _ _ _) as [[[]|e|] st]; cbn [fst snd] in *; split; tauto || done.
Qed.

(** The root a request installs there has classes in range and no entry for them. *)
Lemma modify_panics_exactly_witness :
  let t := (modify (device_of start_host start_nic) (Z.lor NLM_F_CREATE NLM_F_REPLACE) 0x20000 TC_H_ROOT
             (slice 36 52 add_mqprio) (qdiscs start_nic, 0x80000000)).2.1 in
  kind (root t) = bytes "mqprio" ∧
  (modify (device_of start_host start_nic) (Z.lor NLM_F_CREATE NLM_F_EXCL) 0 0x20001
    (slice 36 44 add_class) (t, 0x80000000)).1 = Panic.
Proof.
  split; [by vm_compute|].
  apply (modify_panics_exactly (device_of start_host start_nic)); [|done|done| |].
  - eapply modified_ok; [| |refine (proj1 (modify_runs (device_of start_host start_nic)
      (Z.lor NLM_F_CREATE NLM_F_REPLACE) 0x20000 TC_H_ROOT (slice 36 52 add_mqprio)
      (qdiscs start_nic) 0x80000000 _ _ _ _))]; try done; try apply initial_ok.
    apply (bool_decide_unpack _). by vm_compute.
  - apply (bool_decide_unpack _). by vm_compute.
  - split_and!; [done|done|]. exists 1. by split_and!; vm_compute.
Defined.
