(* ===== verification/QdiscReplay.v ===== *)
(** * Traffic control: dumps

    What a dump prints, a request reads back: the messages of a dump that carry a handle, sent as
    requests to a host whose interface is as it came up, rebuild the table they were printed
    from. *)

From S2P Require Import Prelude Method Bytes Netlink Qdisc QdiscProps.

(** ** One message *)

Definition etf_bytes (p : Z * Z * Z) : list Z :=
  let '(delta, clockid, flags) := p in
  to_ne_bytes 4 delta ++ to_ne_bytes 4 clockid ++ to_ne_bytes 4 flags.

(** The attributes [qdisc_attrs] prints. *)
Definition printed (q : Qdisc) : list (Z * list Z) :=
  (TCA_KIND, kind q ++ [0]) ::
  match etf q with Some p => [(TCA_OPTIONS, attrs_bytes [(TCA_ETF_PARMS, etf_bytes p)])] | None => [] end.

Lemma qdisc_attrs_printed body q :
  (length body mod 4 = 0)%nat → qdisc_attrs body q = body ++ attrs_bytes (printed q).
Proof.
  intros Hb. unfold qdisc_attrs, printed. rewrite push_rtattr_app by done.
  destruct (etf q) as [[[delta clockid] flags]|].
  - rewrite (push_rtattr_app []) by done. rewrite push_rtattr_app.
    + rewrite <- app_assoc, attrs_bytes_cons. done.
    + rewrite length_app, Nat.Div0.add_mod, Hb, attr_bytes_aligned. done.
  - by rewrite attrs_bytes_cons, app_nil_r.
Qed.

Lemma kinds_plain k : k ∈ KINDS → plain k ∧ (length k < 20)%nat.
Proof.
  assert (Forall (λ k, plain k ∧ (length k < 20)%nat) KINDS) as H.
  { apply (bool_decide_unpack _). vm_compute. done. }
  rewrite list.Forall_forall in H. apply H.
Qed.

Lemma printed_ok q : kind q ∈ KINDS → Forall attr_ok (printed q).
Proof.
  intros [_ Hk]%kinds_plain. unfold printed. constructor.
  - split; cbn [fst snd]; [done|]. rewrite length_app. simpl. lia.
  - destruct (etf q) as [[[delta clockid] flags]|]; [|constructor].
    constructor; [|constructor]. split; cbn [fst snd]; [done|]. vm_compute. done.
Qed.

Lemma find_printed_kind q : kind q ∈ KINDS → named_kind (attrs_bytes (printed q)) = Some (kind q).
Proof.
  intros Hk. unfold named_kind. rewrite find_attr_attrs by by apply printed_ok.
  transitivity (Some (from_utf8_lossy (until_nul (kind q ++ [0])))); [done|]. apply kinds_plain in Hk as [Hk _]. rewrite until_nul_plain by done.
  by rewrite from_utf8_lossy_plain.
Qed.

Lemma find_printed_options q :
  kind q ∈ KINDS →
  find_attr (attrs_bytes (printed q)) TCA_OPTIONS =
  (λ p, attrs_bytes [(TCA_ETF_PARMS, etf_bytes p)]) <$> etf q.
Proof.
  intros Hk. rewrite find_attr_attrs by by apply printed_ok. unfold printed. cbn [find_first fst].
  change (Z.land TCA_KIND 0x3FFF =? TCA_OPTIONS) with false. cbn iota.
  by destruct (etf q).
Qed.

Lemma etf_word p i x :
  etf_bytes p = take i (etf_bytes p) ++ to_ne_bytes 4 x ++ drop (i + 4) (etf_bytes p) →
  length (take i (etf_bytes p)) = i → u32_at (etf_bytes p) i = x mod 2 ^ 32.
Proof.
  intros E Hi. unfold u32_at. rewrite E at 1. rewrite slice_mid by (rewrite ?length_to_ne_bytes; lia).
  rewrite from_to_ne_bytes. done.
Qed.

(** [create] reads back what a created qdisc printed. *)
Lemma etf_parms_reads_back {S} dev queue delta flags (s : S) :
  0 ≤ delta ≤ i32_max → 0 ≤ flags < 2 ^ 32 → offload_ok dev queue flags →
  etf_parms dev (Some (attrs_bytes [(TCA_ETF_PARMS, etf_bytes (delta, CLOCK_TAI, flags))])) queue s =
  (Ok (delta, CLOCK_TAI, flags), s).
Proof.
  intros Hd Hf Ho. unfold etf_parms.
  rewrite (bind_ok _ _ _ (etf_bytes (delta, CLOCK_TAI, flags)) s).
  2: { cbn [mbind option_bind]. rewrite find_attr_attrs; [done|].
       constructor; [split; [done|by vm_compute]|constructor]. }
  rewrite (etf_word _ 0 delta), (etf_word _ 4 CLOCK_TAI), (etf_word _ 8 flags) by done.
  rewrite (Z.mod_small delta), (Z.mod_small flags) by lia.
  assert (wrap_i32 delta = delta) as -> by (unfold wrap_i32; dlia).
  change (wrap_i32 (CLOCK_TAI mod 2 ^ 32)) with CLOCK_TAI.
  rewrite (bind_ok _ _ _ tt s) by done.
  rewrite (bind_ok _ _ _ tt s) by (apply fail_if_false; zbool; done || lia).
  rewrite (bind_ok _ _ _ tt s); [done|].
  destruct Ho as [->|(queues & -> & Hq)]; [done|]. case_match; [|done].
  rewrite (bind_ok _ _ _ queues s) by done. apply fail_if_false.
  by rewrite bool_decide_eq_true_2.
Qed.

Lemma create_reads_back {S} dev queue q (s : S) :
  created dev queue q →
  create dev (kind q) (handle q) (find_attr (attrs_bytes (printed q)) TCA_OPTIONS) queue s = (Ok q, s).
Proof.
  intros [Hk Hh Hmq He]. rewrite find_printed_options by done. unfold create.
  rewrite (bind_ok _ _ _ tt s) by (apply fail_if_false; by rewrite bool_decide_eq_true_2).
  rewrite (bind_ok _ _ _ tt s).
  2: { apply fail_if_false. unfold is_kind. case_bool_decide as E; [|done].
       destruct (Hmq E) as [-> ?]. by apply Z.ltb_ge. }
  rewrite (bind_ok _ _ _ (etf q) s); [by destruct q|].
  destruct (is_kind (kind q) "etf"); [|by rewrite He].
  destruct He as (delta & flags & -> & Hd & Hf & Ho).
  rewrite (bind_ok _ _ _ (delta, CLOCK_TAI, flags) s); [done|]. by apply etf_parms_reads_back.
Qed.

(** ** Sending a dump back *)

(** What the request made of a dumped entry asks of the interface's table. *)
Definition resend (dev : Device) (n : nic) (entry : Z * Z * Qdisc) : method (NicQdiscs * Z) unit :=
  let '(handle_, parent, q) := entry in
  modify dev (Z.lor NLM_F_CREATE NLM_F_REPLACE) handle_ parent (drop 20 (qdisc_body n entry)).

Fixpoint resend_all (dev : Device) (n : nic) (entries : list (Z * Z * Qdisc))
    : method (NicQdiscs * Z) unit :=
  match entries with
  | [] => mret tt
  | entry :: entries => resend dev n entry;; resend_all dev n entries
  end.

Lemma resend_attrs n h p q :
  drop 20 (qdisc_body n (h, p, q)) = attrs_bytes (printed q).
Proof.
  unfold qdisc_body. rewrite qdisc_attrs_printed.
  - by rewrite drop_app_length' by (rewrite !length_app, !length_to_ne_bytes; done).
  - by rewrite !length_app, !length_to_ne_bytes.
Qed.

(** A created qdisc, sent to a place that holds a default one, is put there. *)
Lemma resend_places dev n parent q queue t old auto :
  created dev queue q → parent ≠ TC_H_INGRESS → parent ≠ 0 →
  modify_queue t dev parent = inr queue → existing_at t queue = Some old → handle old = 0 →
  resend dev n (handle q, parent, q) (t, auto) = (Ok tt, (place dev queue q t, auto)).
Proof.
  intros Hc Hi H0 Hqueue Hold Hz. pose proof (created_kind _ _ _ Hc) as Hk.
  pose proof (created_handle _ _ _ Hc) as [[Hh _] Hmin].
  unfold resend. rewrite resend_attrs. unfold modify. rewrite find_printed_kind by done.
  rewrite (bind_ok _ _ _ tt (t, auto)) by (apply fail_if_false; by apply Z.eqb_neq).
  rewrite (bind_ok _ _ _ tt (t, auto)) by (apply fail_if_false; by apply Z.eqb_neq).
  rewrite (bind_ok _ _ _ t (t, auto)) by done.
  rewrite (bind_ok _ _ _ queue (t, auto)) by by rewrite Hqueue.
  fold (existing_at t queue). rewrite (bind_ok _ _ _ old (t, auto)) by by rewrite Hold.
  rewrite (bind_ok _ _ _ (Some true) (t, auto)).
  2: { unfold decide_create. rewrite Hz, Hmin. cbn [Z.eqb negb orb andb].
       destruct (Z.eqb_spec (handle q) 0); [lia|done]. }
  rewrite (bind_ok _ _ _ tt (t, auto)) by done.
  rewrite (bind_ok _ _ _ (kind q) (t, auto)) by done.
  rewrite (bind_ok _ _ _ auto (t, auto)) by done.
  destruct (Z.eqb_spec (handle q) 0); [lia|]. cbn [negb].
  rewrite (bind_ok _ _ _ q (t, auto)) by by apply create_reads_back.
  rewrite (bind_ok _ _ _ tt (t, auto)) by done. by destruct queue.
Qed.

(** The parent a dump prints for a class names that class. *)
Lemma class_parent h m :
  0 ≤ m < 0xFFF1 →
  let parent := Z.lor (Z.land h TC_H_MAJ_MASK) m in
  Z.land parent TC_H_MIN_MASK = m ∧ Z.land parent TC_H_MAJ_MASK = Z.land h TC_H_MAJ_MASK.
Proof.
  intros Hm parent. assert (Z.land m TC_H_MIN_MASK = m) as Em
    by (rewrite land_min; apply Z.mod_small; lia).
  unfold parent. rewrite !Z.land_lor_distr_l, <- !Z.land_assoc. split.
  - change (Z.land TC_H_MAJ_MASK TC_H_MIN_MASK) with 0. by rewrite Z.land_0_r, Em.
  - rewrite <- Em, <- Z.land_assoc. change (Z.land TC_H_MIN_MASK TC_H_MAJ_MASK) with 0.
    change (Z.land TC_H_MAJ_MASK TC_H_MAJ_MASK) with TC_H_MAJ_MASK. by rewrite Z.land_0_r, Z.lor_0_r.
Qed.

Lemma class_named dev t t' m :
  handle (root t) ≠ 0 → root t' = root t → classful t = true → 1 ≤ m ≤ num_tx_queues dev → dev_ok dev →
  let parent := Z.lor (Z.land (handle (root t)) TC_H_MAJ_MASK) m in
  parent ≠ TC_H_INGRESS ∧ parent ≠ 0 ∧ modify_queue t' dev parent = inr (Some (m - 1)).
Proof.
  intros Hh Hr Hc Hm Hdev. unfold dev_ok in Hdev. destruct (class_parent (handle (root t)) m) as [Hmin Hmaj]; [lia|].
  cbv zeta. set (parent := Z.lor _ _) in *.
  assert (∀ p, Z.land p TC_H_MIN_MASK ≠ m → parent ≠ p) as Hne by (intros p Hp ->; done).
  split_and!.
  - apply Hne. change (0xFFF1 ≠ m). lia.
  - apply Hne. change (0 ≠ m). lia.
  - apply modify_queue_inr. unfold names_class, classful. rewrite Hr. split_and!; try done; try lia.
    + apply Hne. change (0xFFFF ≠ m). lia.
Qed.

(** The classes of [t] that a dump lists and a request created, put into [c] one by one. *)
Fixpoint rebuilt (t : NicQdiscs) (c : gmap Z Qdisc) (ks : list Z) : gmap Z Qdisc :=
  match ks with
  | [] => c
  | m :: ks =>
      match children t !! m with
      | Some q => rebuilt t (if handle q =? 0 then c else <[m := q]> c) ks
      | None => rebuilt t c ks
      end
  end.

Lemma rebuilt_lookup t ks : ∀ c m,
  rebuilt t c ks !! m =
  match children t !! m with
  | Some q => if bool_decide (m ∈ ks) && negb (handle q =? 0) then Some q else c !! m
  | None => c !! m
  end.
Proof.
  induction ks as [|k ks IH]; intros c m; cbn [rebuilt].
  - destruct (children t !! m); [|done]. by rewrite bool_decide_eq_false_2 by apply not_elem_of_nil.
  - assert (bool_decide (m ∈ k :: ks) = bool_decide (m = k) || bool_decide (m ∈ ks)) as ->.
    { apply Bool.eq_iff_eq_true. rewrite orb_true_iff, !bool_decide_eq_true, elem_of_cons. done. }
    destruct (children t !! k) as [q|] eqn:Hk; rewrite IH; destruct (decide (m = k)) as [->|Hne].
    + rewrite Hk, (bool_decide_eq_true_2 (k = k)) by done. cbn [orb andb].
      destruct (handle q =? 0); cbn [negb]; [by rewrite andb_false_r|].
      rewrite lookup_insert_eq. by destruct (_ && _).
    + rewrite (bool_decide_eq_false_2 (m = k)) by done. cbn [orb].
      destruct (handle q =? 0); [done|]. by rewrite lookup_insert_ne.
    + by rewrite Hk.
    + by rewrite (bool_decide_eq_false_2 (m = k)).
Qed.

(** The entries of a dump the table's requests created. *)
Definition created_entries (t : NicQdiscs) (real_tx_queues : Z) : list (Z * Z * Qdisc) :=
  filter (λ e, e.1.1 ≠ 0) (listing t real_tx_queues).

Definition class_entries (t : NicQdiscs) (real : Z) (ks : list Z) : list (Z * Z * Qdisc) :=
  minor ← ks;
  match children t !! minor with
  | Some q =>
      if negb (handle q =? 0) || (minor <=? real) then
        [(handle q, Z.lor (Z.land (handle (root t)) TC_H_MAJ_MASK) minor, q)]
      else []
  | None => []
  end.

Lemma resend_classes dev n t real auto ks :
  dev_ok dev → table_ok dev t → handle (root t) ≠ 0 → classful t = true → NoDup ks → ∀ c,
  (∀ m, m ∈ ks → 1 ≤ m ≤ num_tx_queues dev ∧ c !! m = Some (default_for dev m)) →
  resend_all dev n (filter (λ e, e.1.1 ≠ 0) (class_entries t real ks))
    (mk_nic_qdiscs (root t) c, auto) =
  (Ok tt, (mk_nic_qdiscs (root t) (rebuilt t c ks), auto)).
Proof.
  intros Hdev Ht Hh Hcl. induction 1 as [|m ks Hm _ IH]; intros c Hks; [done|].
  unfold class_entries. cbn [mbind list_bind rebuilt]. fold (class_entries t real ks).
  assert (∀ m, m ∈ ks → 1 ≤ m ≤ num_tx_queues dev ∧ c !! m = Some (default_for dev m)) as Hks'.
  { intros k Hk. apply Hks, elem_of_cons. by right. }
  destruct (Hks m) as [Hr Hd]; [apply elem_of_cons; by left|].
  destruct (children t !! m) as [q|] eqn:Hq; [|by apply IH].
  destruct (Z.eqb_spec (handle q) 0) as [Hz|Hz]; cbn [negb orb].
  - rewrite filter_app. destruct (m <=? real); [|by apply IH].
    rewrite filter_cons_False by (cbn; tauto). by apply IH.
  - rewrite filter_app, filter_cons_True by (cbn; done). cbn [app filter list_filter resend_all].
    destruct (ok_child _ _ Ht m q Hh Hq) as [->|Hc]; [done|].
    destruct (class_named dev t (mk_nic_qdiscs (root t) c) m Hh eq_refl Hcl Hr Hdev) as (P1 & P2 & P3).
    rewrite (bind_ok _ _ _ tt (mk_nic_qdiscs (root t) (<[m := q]> c), auto)).
    + apply IH. intros k Hk. rewrite lookup_insert_ne by congruence. by apply Hks'.
    + rewrite (resend_places dev n _ q (Some (m - 1)) _ (default_for dev m)); try done.
      * cbn [place root children]. by replace (m - 1 + 1) with m by lia.
      * cbn [existing_at children]. by replace (m - 1 + 1) with m by lia.
Qed.

Lemma rebuilt_whole dev t :
  dev_ok dev → table_ok dev t → handle (root t) ≠ 0 → kind (root t) = bytes "mq" →
  rebuilt t (defaults dev) (keys (children t)) = children t.
Proof.
  intros Hdev Ht Hh Hk. pose proof (ok_classes _ _ Ht Hh) as Hc. unfold is_kind in Hc.
  rewrite bool_decide_eq_true_2 in Hc by done. apply map_eq. intros m.
  rewrite rebuilt_lookup, defaults_lookup by done.
  destruct (children t !! m) as [q|] eqn:Hq.
  - assert (is_Some (children t !! m)) as Hs by by eexists.
    rewrite bool_decide_eq_true_2 by by apply elem_of_keys. cbn [andb].
    destruct (Z.eqb_spec (handle q) 0) as [Hz|]; cbn [negb]; [|done].
    rewrite bool_decide_eq_true_2 by by apply Hc.
    destruct (ok_child _ _ Ht m q Hh Hq) as [->|[_ [? _] _ _]]; [done|lia].
  - rewrite bool_decide_eq_false_2; [done|]. rewrite <- Hc, Hq. by intros [].
Qed.

Lemma resend_listing dev n t e auto :
  dev_ok dev → table_ok dev t → handle (root t) ≠ 0 →
  resend_all dev n (created_entries t (real_tx_queues dev)) (initial dev e, auto) = (Ok tt, (t, auto)).
Proof.
  intros Hdev Ht Hh. unfold created_entries, listing.
  rewrite filter_cons_True by done. cbn [resend_all].
  rewrite (bind_ok _ _ _ tt (place dev None (root t) t, auto)).
  2: { rewrite (resend_places dev n _ (root t) None _ (root (initial dev e))); try done.
       - by apply (ok_root _ _ Ht).
       - unfold initial. destruct (no_queue dev); [done|]. by destruct (_ && _). }
  change (keys (children t) ≫= _) with (class_entries t (real_tx_queues dev) (keys (children t))).
  pose proof (ok_classes _ _ Ht Hh) as Hc. cbn [place]. unfold is_kind in *. case_bool_decide as Hk.
  - rewrite resend_classes; try done.
    + rewrite rebuilt_whole by done. by destruct t.
    + unfold classful, is_kind. by rewrite Hk.
    + apply keys_NoDup.
    + intros m Hm%elem_of_keys%Hc. split; [done|].
      rewrite defaults_lookup by done. by rewrite bool_decide_eq_true_2.
  - rewrite Hc. cbn. destruct t as [r c]. cbn in *. by rewrite Hc.
Qed.

(** ** The messages themselves *)

(** The bytes of a dumped message, whatever its flags. *)
Definition message_bytes (flags seq : Z) (n : nic) (entry : Z * Z * Qdisc) : list Z :=
  let '(h, p, q) := entry in
  to_ne_bytes 4 (36 + Z.of_nat (length (attrs_bytes (printed q)))) ++
  to_ne_bytes 2 RTM_NEWQDISC ++ to_ne_bytes 2 flags ++ to_ne_bytes 4 seq ++ to_ne_bytes 4 0 ++
  [0; 0; 0; 0] ++ to_ne_bytes 4 (ifindex n) ++ to_ne_bytes 4 h ++ to_ne_bytes 4 p ++
  to_ne_bytes 4 0 ++ attrs_bytes (printed q).

Lemma length_printed q :
  kind q ∈ KINDS →
  (length (attrs_bytes (printed q)) < 100)%nat ∧ (length (attrs_bytes (printed q)) mod 4 = 0)%nat.
Proof.
  intros [_ Hk]%kinds_plain. unfold printed. rewrite attrs_bytes_cons, length_app.
  rewrite length_attr_bytes, length_app. cbn [length].
  pose proof (next_multiple_of_4_spec (4 + (length (kind q) + 1))) as [? Hm].
  destruct (etf q) as [[[delta clockid] flags]|]; [|cbn [attrs_bytes]; simpl length at 2 4; split; [lia|]].
  - assert (length (attrs_bytes [(TCA_OPTIONS, attrs_bytes [(TCA_ETF_PARMS,
      etf_bytes (delta, clockid, flags))])]) = 20%nat) as -> by done.
    split; [lia|]. rewrite Nat.Div0.add_mod, (proj2 (next_multiple_of_4_spec _)). done.
  - rewrite Nat.add_0_r. apply next_multiple_of_4_spec.
Qed.

Lemma nl_message_bytes flags seq n entry :
  kind entry.2 ∈ KINDS →
  nl_message RTM_NEWQDISC flags seq (qdisc_body n entry) = message_bytes flags seq n entry.
Proof.
  destruct entry as [[h p] q]. cbn [snd]. intros Hk. destruct (length_printed q Hk) as [Hs Hm].
  unfold nl_message, message_bytes, qdisc_body. rewrite qdisc_attrs_printed by done.
  set (a := attrs_bytes (printed q)) in *. rewrite !length_app, !length_to_ne_bytes.
  change (length [0; 0; 0; 0]) with 4%nat.
  replace (as_u32 (16 + Z.of_nat (4 + (4 + (4 + (4 + 4))) + length a)))
    with (36 + Z.of_nat (length a)) by (unfold as_u32; rewrite Z.mod_small; lia).
  unfold pad, padding. rewrite !length_app, !length_to_ne_bytes.
  change (length [0; 0; 0; 0]) with 4%nat.
  replace (4 + (2 + (2 + (4 + (4 + (4 + (4 + (4 + (4 + 4))) + length a))))))%nat
    with (36 + length a)%nat by lia.
  rewrite (next_multiple_of_4_add 36) by done.
  assert (next_multiple_of_4 (length a) = length a) as ->.
  { pose proof (next_multiple_of_4_spec (length a)) as [? Hn].
    pose proof (Nat.div_mod_eq (length a) 4). pose proof (Nat.div_mod_eq (next_multiple_of_4 (length a)) 4).
    lia. }
  rewrite Nat.sub_diag. cbn [replicate]. rewrite app_nil_r. by rewrite <- !app_assoc.
Qed.

(** The fields a request is read by. *)
Lemma message_fields flags seq n h p q :
  let m := message_bytes flags seq n (h, p, q) in
  u32_at m 0 = (36 + Z.of_nat (length (attrs_bytes (printed q)))) mod 2 ^ 32 ∧
  u16_at m 4 = RTM_NEWQDISC ∧ u16_at m 6 = flags mod 2 ^ 16 ∧
  u32_at m 20 = ifindex n mod 2 ^ 32 ∧ u32_at m 24 = h mod 2 ^ 32 ∧ u32_at m 28 = p mod 2 ^ 32 ∧
  length m = (36 + length (attrs_bytes (printed q)))%nat ∧ drop 36 m = attrs_bytes (printed q).
Proof.
  cbv zeta. split_and!; try done.
  - exact (from_to_ne_bytes 4 (36 + Z.of_nat (length (attrs_bytes (printed q))))).
  - exact (from_to_ne_bytes 2 flags).
  - exact (from_to_ne_bytes 4 (ifindex n)).
  - exact (from_to_ne_bytes 4 h).
  - exact (from_to_ne_bytes 4 p).
Qed.

(** The messages of an interface in a dump. *)
Definition dumped (seq : Z) (n : nic) : list (list Z) :=
  (λ entry, nl_message RTM_NEWQDISC NLM_F_MULTI seq (qdisc_body n entry)) <$>
    listing (qdiscs n) (nic_tx_queues n).

(** A message of a dump as the request of a [tc qdisc replace]: its flags, at 6, changed. *)
Definition as_replace (m : list Z) : list Z :=
  take 6 m ++ to_ne_bytes 2 (Z.lor NLM_F_CREATE NLM_F_REPLACE) ++ drop 8 m.

(** The handle of a message: [tcm_handle]. *)
Definition tcm_handle (m : list Z) : Z := u32_at m 24.

(** A request made of a dumped entry does to the interface it names what [resend] does to its table. *)
Lemma replace_served seq h i n n0 entry t auto :
  net_admin h = true → nics h !! i = Some n →
  position (λ m, ifindex m =? ifindex n0) (nics h) = Some i → 0 ≤ ifindex n0 < 2 ^ 32 →
  kind entry.2 ∈ KINDS → 0 ≤ entry.1.1 < 2 ^ 32 → 0 ≤ entry.1.2 < 2 ^ 32 →
  resend (device_of h n) n0 entry (qdiscs n, qdisc_auto h) = (Ok tt, (t, auto)) →
  qdisc_reply (as_replace (nl_message RTM_NEWQDISC NLM_F_MULTI seq (qdisc_body n0 entry))) h =
  (Some [], put_nic i (with_qdiscs t n) auto h).
Proof.
  intros Hadm Hi Hpos Hix Hk Hh Hp Hr. rewrite nl_message_bytes by done.
  destruct entry as [[hd p] q]. cbn [fst snd] in *. destruct (length_printed q Hk) as [Hs _].
  set (f := Z.lor NLM_F_CREATE NLM_F_REPLACE) in *.
  change (as_replace (message_bytes NLM_F_MULTI seq n0 (hd, p, q)))
    with (message_bytes f seq n0 (hd, p, q)).
  destruct (message_fields f seq n0 hd p q) as (Elen & Ety & Efl & Eix & Ehd & Ep & El & Ed).
  set (m := message_bytes f seq n0 (hd, p, q)) in *.
  rewrite Z.mod_small in Elen, Eix, Ehd, Ep by (done || lia). change (f mod 2 ^ 16) with f in Efl.
  unfold resend in Hr. rewrite resend_attrs in Hr.
  assert (change_qdisc true f m h = (Ok tt, put_nic i (with_qdiscs t n) auto h)) as Hc.
  { unfold change_qdisc. rewrite (bind_ok _ _ _ true h) by by rewrite <- Hadm.
    rewrite (bind_ok _ _ _ tt h) by done.
    rewrite (bind_ok _ _ _ tt h) by (apply fail_if_false; apply Nat.ltb_ge; lia).
    rewrite (bind_ok _ _ _ h h) by done. rewrite Eix.
    rewrite (bind_ok _ _ _ i h) by by rewrite Hpos.
    rewrite (bind_ok _ _ _ n h) by by rewrite Hi.
    rewrite Ehd, Ep, Elen, El.
    replace (Nat.min _ _) with (length m) by lia.
    assert (slice 36 (length m) m = attrs_bytes (printed q)) as ->.
    { unfold slice. rewrite take_ge by (rewrite length_drop; lia). done. }
    unfold apply_qdisc. fold f in Hr. by rewrite Hr. }
  unfold qdisc_reply. rewrite Ety, Efl. change (RTM_NEWQDISC =? RTM_NEWQDISC) with true.
  rewrite Hc. done.
Qed.

Lemma position_put {A} (p : A → bool) l i x y :
  position p l = Some i → l !! i = Some x → p y = p x → position p (<[i := y]> l) = Some i.
Proof.
  intros Hp Hx E. apply position_first in Hp as [(x' & Hx' & Hpx) Hlt]. simplify_eq.
  apply position_first. split.
  - exists y. split; [|congruence]. apply list_lookup_insert_eq. by eapply lookup_lt_Some.
  - intros j z Hj. rewrite list_lookup_insert_ne by lia. by apply Hlt.
Qed.

Lemma put_nic_twice i n auto n' auto' h :
  put_nic i n' auto' (put_nic i n auto h) = put_nic i n' auto' h.
Proof. unfold put_nic. cbn. by rewrite list_insert_insert_eq. Qed.

(** An entry a message can carry. *)
Definition entry_fits (entry : Z * Z * Qdisc) : Prop :=
  kind entry.2 ∈ KINDS ∧ 0 ≤ entry.1.1 < 2 ^ 32 ∧ 0 ≤ entry.1.2 < 2 ^ 32.

Lemma replaces_served seq n0 entries i t auto : ∀ h n,
  net_admin h = true → nics h !! i = Some n →
  position (λ m, ifindex m =? ifindex n0) (nics h) = Some i → 0 ≤ ifindex n0 < 2 ^ 32 →
  Forall entry_fits entries →
  resend_all (device_of h n) n0 entries (qdiscs n, qdisc_auto h) = (Ok tt, (t, auto)) →
  serve (as_replace ∘ (λ entry, nl_message RTM_NEWQDISC NLM_F_MULTI seq (qdisc_body n0 entry)) <$> entries) h =
  (replicate (length entries) (Some []), put_nic i (with_qdiscs t n) auto h).
Proof.
  induction entries as [|entry entries IH]; intros h n Hadm Hi Hpos Hix Hf Hr.
  { cbn in Hr. injection Hr as <- <-. cbn [serve fmap list_fmap]. by rewrite put_nic_id. }
  apply Forall_cons in Hf as [(Hk & Hh & Hp) Hf]. cbn [resend_all] in Hr.
  destruct (resend (device_of h n) n0 entry (qdiscs n, qdisc_auto h)) as [r [t1 auto1]] eqn:E1.
  destruct r as [[]|e|]; [|by cbv [mbind method_bind] in Hr; rewrite E1 in Hr..].
  rewrite (bind_ok _ _ _ _ _ E1) in Hr.
  cbn [fmap list_fmap serve]. unfold compose at 1.
  rewrite (replace_served seq h i n n0 entry t1 auto1) by done.
  rewrite (IH _ (with_qdiscs t1 n)); [|done| | |done|done|].
  - by rewrite put_nic_twice.
  - cbn. apply list_lookup_insert_eq. by eapply lookup_lt_Some.
  - cbn. by eapply position_put.
  - exact Hr.
Qed.

Lemma lor_class h m : 0 ≤ h < 2 ^ 32 → 0 ≤ m < 2 ^ 32 → 0 ≤ Z.lor (Z.land h TC_H_MAJ_MASK) m < 2 ^ 32.
Proof.
  intros Hh Hm. rewrite <- (Z.mod_small m (2 ^ 32)) by done.
  rewrite <- !Z.land_ones by lia. change TC_H_MAJ_MASK with (Z.land TC_H_MAJ_MASK (Z.ones 32)).
  rewrite Z.land_assoc, <- Z.land_lor_distr_l, Z.land_ones by lia. by apply Z.mod_pos_bound.
Qed.

Lemma listing_fits dev t :
  table_ok dev t → handle (root t) ≠ 0 → dev_ok dev →
  Forall entry_fits (created_entries t (real_tx_queues dev)).
Proof.
  intros Ht Hh Hdev. apply list.Forall_forall. intros entry [Hz He]%list_elem_of_filter.
  pose proof (ok_root _ _ Ht Hh) as Hroot. pose proof (created_handle _ _ _ Hroot) as [? _].
  unfold listing in He. apply elem_of_cons in He as [->|He].
  { split; cbn; [by eapply created_kind|]. split; [lia|done]. }
  apply list_elem_of_bind in He as (m & He & _).
  destruct (children t !! m) as [q|] eqn:Hq; [|by apply not_elem_of_nil in He].
  destruct (_ || _); [|by apply not_elem_of_nil in He].
  apply list_elem_of_singleton in He as ->. cbn in Hz.
  assert (1 ≤ m ≤ num_tx_queues dev) as Hm.
  { pose proof (ok_classes _ _ Ht Hh) as Hc. destruct (is_kind _ _); [apply Hc; by eexists|].
    by rewrite Hc in Hq. }
  destruct (ok_child _ _ Ht m q Hh Hq) as [->|Hc]; [done|].
  pose proof (created_handle _ _ _ Hc) as [? _]. split; cbn; [by eapply created_kind|].
  split; [lia|]. unfold dev_ok in Hdev. apply lor_class; lia.
Qed.

Lemma tcm_handle_message flags seq n h p q :
  tcm_handle (nl_message RTM_NEWQDISC flags seq (qdisc_body n (h, p, q))) = h mod 2 ^ 32.
Proof.
  unfold qdisc_body, nl_message. rewrite qdisc_attrs_printed by done.
  exact (from_to_ne_bytes 4 h).
Qed.

Lemma dumped_created seq n t entries :
  Forall (λ e, 0 ≤ e.1.1 < 2 ^ 32) entries →
  filter (λ m, tcm_handle m ≠ 0)
    ((λ entry, nl_message RTM_NEWQDISC NLM_F_MULTI seq (qdisc_body (with_qdiscs t n) entry)) <$> entries) =
  (λ entry, nl_message RTM_NEWQDISC NLM_F_MULTI seq (qdisc_body (with_qdiscs t n) entry)) <$>
    filter (λ e, e.1.1 ≠ 0) entries.
Proof.
  induction 1 as [|[[h p] q] entries Hh _ IH]; [done|]. cbn [fst snd] in Hh. cbn [fmap list_fmap].
  destruct (decide (h = 0)) as [->|].
  - rewrite !filter_cons_False; [done| |].
    + cbn [fst snd]. tauto.
    + rewrite tcm_handle_message. tauto.
  - rewrite !filter_cons_True; [|done|].
    + cbn [fmap list_fmap]. by f_equal.
    + by rewrite tcm_handle_message, Z.mod_small.
Qed.

Lemma listing_handles dev t :
  table_ok dev t → handle (root t) ≠ 0 →
  Forall (λ e, 0 ≤ e.1.1 < 2 ^ 32) (listing t (real_tx_queues dev)).
Proof.
  intros Ht Hh. unfold listing. constructor.
  { pose proof (created_handle _ _ _ (ok_root _ _ Ht Hh)) as [? _]. cbn. lia. }
  apply list.Forall_forall. intros entry He. apply list_elem_of_bind in He as (m & He & _).
  destruct (children t !! m) as [q|] eqn:Hq; [|by apply not_elem_of_nil in He].
  destruct (_ || _); [|by apply not_elem_of_nil in He].
  apply list_elem_of_singleton in He as ->. cbn.
  destruct (ok_child _ _ Ht m q Hh Hq) as [->|Hc]; [cbn; lia|].
  pose proof (created_handle _ _ _ Hc) as [? _]. lia.
Qed.

(** C30: a dump replays. Of an interface whose root a request installed, the dump is its messages
    and the one that ends it; those that carry a handle, which are the qdiscs requests made (the
    device's own defaults carry 0), each with its flags changed to NLM_F_CREATE | NLM_F_REPLACE
    and nothing else, are accepted one after another by a host with CAP_NET_ADMIN whose interface
    of that index has the same device and is as it came up, and leave it with the table that was
    dumped, the defaults included, and every other interface and the counter of automatic handles
    as they were. *)
Theorem dump_replays seq h i n t e :
  let dev := device_of h n in
  let msgs := dumped seq (with_qdiscs t n) in
  let reqs := as_replace <$> filter (λ m, tcm_handle m ≠ 0) msgs in
  net_admin h = true → nics h !! i = Some n →
  position (λ m, ifindex m =? ifindex n) (nics h) = Some i → 0 ≤ ifindex n < 2 ^ 32 →
  qdiscs n = initial dev e → dev_ok dev → table_ok dev t → handle (root t) ≠ 0 →
  build_getqdisc_dump [with_qdiscs t n] seq =
    mjoin msgs ++ nl_message NLMSG_DONE NLM_F_MULTI seq (to_ne_bytes 4 0) ∧
  serve reqs h = (replicate (length reqs) (Some []), put_nic i (with_qdiscs t n) (qdisc_auto h) h).
Proof.
  intros dev msgs reqs Hadm Hi Hpos Hix Hq Hdev Ht Hh. split.
  { unfold build_getqdisc_dump. cbn [mbind list_bind]. rewrite app_nil_r. f_equal.
    unfold msgs, dumped. generalize (listing (qdiscs (with_qdiscs t n)) (nic_tx_queues (with_qdiscs t n))).
    intros l. induction l as [|entry l IH]; [done|]. exact (f_equal (app _) IH). }
  unfold reqs, msgs, dumped.
  rewrite dumped_created by apply (listing_handles dev t Ht Hh).
  change (filter _ (listing _ _)) with (created_entries t (real_tx_queues dev)).
  rewrite <- list_fmap_compose, length_fmap.
  apply replaces_served; try done; [by apply listing_fits|].
  rewrite Hq. by apply resend_listing.
Qed.

(** A four-queue interface with an [mq] root and, on its second queue, an [etf] that launches in
    hardware. *)
Definition sample_dev : Device := mk_device 4 2 false (bytes "fq_codel") (Some [0; 1]).
Definition sample_mq : Qdisc := mk_qdisc (bytes "mq") 0x10000 None.
Definition sample_etf : Qdisc := mk_qdisc (bytes "etf") 0x80010000 (Some (500000, CLOCK_TAI, 2)).
Definition sample_table : NicQdiscs :=
  place sample_dev (Some 1) sample_etf (place sample_dev None sample_mq (initial sample_dev None)).

Lemma sample_table_ok : table_ok sample_dev sample_table.
Proof.
  apply place_class_ok; [done|eexists; by vm_compute|left|apply place_root_ok; [done|]].
  - split; [|done|done|].
    + apply (bool_decide_unpack _). by vm_compute.
    + exists 500000, 2. split_and!; try done; try lia. right. exists [0; 1].
      split; [done|]. apply (bool_decide_unpack _). by vm_compute.
  - split; [|done|done|done]. apply (bool_decide_unpack _). by vm_compute.
Qed.

(** A host whose interface has that table, and one whose interface, not its first, is as it came up. *)
Definition dumped_nic : nic := mk_nic 2 2 4 false (Some [0; 1]) sample_table.
Definition fresh_nic : nic := mk_nic 2 2 4 false (Some [0; 1]) (initial sample_dev None).
Definition fresh_host : host :=
  mk_host true [mk_nic 1 1 1 true None (initial (mk_device 1 1 true (bytes "fq_codel") None) None);
                fresh_nic] (bytes "fq_codel") 0x80000000.

Lemma dump_replays_witness :
  let reqs := as_replace <$> filter (λ m, tcm_handle m ≠ 0) (dumped 7 dumped_nic) in
  length reqs = 2%nat ∧ length (dumped 7 dumped_nic) = 3%nat ∧
  serve reqs fresh_host =
    ([Some []; Some []], put_nic 1 dumped_nic 0x80000000 fresh_host).
Proof.
  split; [by vm_compute|]. split; [by vm_compute|].
  apply (dump_replays 7 fresh_host 1 fresh_nic sample_table None); try done.
  apply sample_table_ok.
Defined.
