(* ===== verification/Packet.v ===== *)
(** * Packets

    crates/snare/src/packet.rs: how a tester frames the byte stream into messages, the [Packet]
    trait and its four implementations, and the loops of crates/snare/src/tester.rs that take
    messages off a connection's buffer. The trait is a class; what the framings promise of it is
    the class [Framing]. *)

From S2P Require Import Prelude Bytes.

(** ** [trait Packet] *)

(** What [parse] does: [None] with the buffer untouched, a message with the rest of the buffer, or a
    panic. *)
Inductive parsed (P : Type) := Incomplete | Message (m : P) (rest : list Z) | Panicked.
Arguments Incomplete {P}.
Arguments Message {P} m rest.
Arguments Panicked {P}.

Class Packet (P : Type) := { parse : list Z → parsed P; to_bytes : P → list Z }.

(** ** [Bytes] *)

Record Bytes := mk_bytes { bytes_of : list Z }.

Definition parse_bytes (buf : list Z) : parsed Bytes :=
  match buf with [] => Incomplete | _ => Message (mk_bytes buf) [] end.

#[export] Instance Bytes_packet : Packet Bytes := { parse := parse_bytes; to_bytes := bytes_of }.

(** ** [Line] *)

(** A line's text, in UTF-8 *)
Record Line := mk_line { text_of : list Z }.

Definition parse_line (buf : list Z) : parsed Line :=
  match position (Z.eqb 10) buf with
  | None => Incomplete
  | Some e =>
      let line := take (e + 1) buf in
      Message (mk_line (from_utf8_lossy (take (length line - 1) line))) (drop (e + 1) buf)
  end.

Definition line_to_bytes (m : Line) : list Z := text_of m ++ [10].

#[export] Instance Line_packet : Packet Line := { parse := parse_line; to_bytes := line_to_bytes }.

(** ** [Delimited] *)

Definition Lf : list Z := [10].
Definition Cr : list Z := [13].
Definition CrLf : list Z := [13; 10].

Record Delimited (D : list Z) := mk_delimited { frame : list Z }.
Arguments mk_delimited {D} frame.
Arguments frame {D} d.

(** [Delimited::new] *)
Definition new_delimited {D} (body : list Z) : Delimited D := mk_delimited (body ++ D).

(** [[T]::strip_suffix] *)
Definition strip_suffix (suffix l : list Z) : option (list Z) :=
  if (length suffix <=? length l)%nat && bool_decide (drop (length l - length suffix) l = suffix) then
    Some (take (length l - length suffix) l)
  else None.

(** [Delimited::body] and [text] *)
Definition body {D} (m : Delimited D) : list Z := default (frame m) (strip_suffix D (frame m)).
Definition text {D} (m : Delimited D) : list Z := from_utf8_lossy (body m).

(** [windows(n)] *)
Definition windows (n : nat) (l : list Z) : list (list Z) :=
  (λ i, take n (drop i l)) <$> seq 0 (length l + 1 - n).

Definition parse_delimited (D : list Z) (buf : list Z) : parsed (Delimited D) :=
  match D with
  | [] => Panicked
  | _ =>
      match position (λ w, bool_decide (w = D)) (windows (length D) buf) with
      | None => Incomplete
      | Some start =>
          Message (mk_delimited (take (start + length D) buf)) (drop (start + length D) buf)
      end
  end.

#[export] Instance Delimited_packet D : Packet (Delimited D) :=
  { parse := parse_delimited D; to_bytes := frame }.

(** ** [LengthPrefixed] *)

Inductive Endian := Big | Little.

Record LengthField := mk_length_field { offset : nat; width : nat; endian : Endian; adjust : Z }.

Definition usize_max : Z := u64_max.

(** What [frame_len] does: panic, [None], or the length *)
Inductive frame_length := BadField | NotYet | Total (n : Z).

(** The field's value, zero-extended to eight bytes *)
Definition field_value (f : LengthField) (field : list Z) : Z :=
  match endian f with
  | Big => from_be 0 (replicate (8 - width f) 0 ++ field)
  | Little => from_ne_bytes (field ++ replicate (8 - width f) 0)
  end.

(** [LengthField::frame_len] *)
Definition frame_len (f : LengthField) (buf : list Z) : frame_length :=
  if negb (bool_decide (width f ∈ [1; 2; 4; 8]%nat)) then BadField
  else
    let end_ := (offset f + width f)%nat in
    if (end_ <=? length buf)%nat then
      let total := field_value f (slice (offset f) end_ buf) + adjust f in
      if total <? Z.of_nat end_ then BadField
      else Total (if total <=? usize_max then total else usize_max)
    else NotYet.

Record LengthPrefixed (L : LengthField) := mk_prefixed { prefixed : list Z }.
Arguments mk_prefixed {L} prefixed.
Arguments prefixed {L} l.

Definition parse_prefixed (L : LengthField) (buf : list Z) : parsed (LengthPrefixed L) :=
  match frame_len L buf with
  | BadField => Panicked
  | NotYet => Incomplete
  | Total total =>
      if Z.of_nat (length buf) <? total then Incomplete
      else Message (mk_prefixed (take (Z.to_nat total) buf)) (drop (Z.to_nat total) buf)
  end.

#[export] Instance LengthPrefixed_packet L : Packet (LengthPrefixed L) :=
  { parse := parse_prefixed L; to_bytes := prefixed }.

(** [LengthPrefixed::length_field]; [None] a panic *)
Definition length_field {L} (m : LengthPrefixed L) : option Z :=
  match frame_len L (prefixed m) with
  | Total total => Some (wrap_u64 (total - adjust L))
  | _ => None
  end.

(** ** The tester's loops *)

Section tester.
Context {P : Type} `{Packet P}.

(** The messages taken off a buffer with their lengths, and what is left; [None] if [parse] panicked
    after them. *)
Fixpoint take_messages (fuel : nat) (buf : list Z) : list (P * nat) * option (list Z) :=
  match fuel with
  | O => ([], Some buf)
  | S fuel =>
      match parse buf with
      | Incomplete => ([], Some buf)
      | Panicked => ([], None)
      | Message m rest =>
          let len := (length buf - length rest)%nat in
          let '(ms, tail_) := take_messages fuel rest in
          ((m, len) :: ms, tail_)
      end
  end.

Definition messages (buf : list Z) : list (P * nat) * option (list Z) :=
  take_messages (S (length buf)) buf.

(** A connection: each chunk that arrives is put behind the buffer, and the whole messages are
    taken off its front. *)
Fixpoint receive (buf : list Z) (chunks : list (list Z)) : list (P * nat) * option (list Z) :=
  match chunks with
  | [] => ([], Some buf)
  | chunk :: chunks =>
      match messages (buf ++ chunk) with
      | (ms, None) => (ms, None)
      | (ms, Some buf) => let '(ms', tail_) := receive buf chunks in (ms ++ ms', tail_)
      end
  end.

(** A datagram: the messages in it; the rest is dropped. *)
Definition datagram (d : list Z) : list (P * nat) := fst (messages d).

End tester.

(** ** What a framing promises *)

(** A message is never empty on the wire, and once its bytes are there more bytes change nothing;
    nor do they save a stream that panicked. *)
Class Framing (P : Type) `{Packet P} : Prop := {
  parse_shrinks : ∀ buf (m : P) rest, parse buf = Message m rest → (length rest < length buf)%nat;
  parse_stable : ∀ buf (m : P) rest more,
    parse buf = Message m rest → parse (buf ++ more) = Message m (rest ++ more);
  panic_stable : ∀ buf more, parse (P := P) buf = Panicked → parse (P := P) (buf ++ more) = Panicked;
}.

(** The messages a peer can send that come back as they are. *)
Class WellFramed (P : Type) `{Packet P} (ok : P → Prop) : Prop :=
  parse_to_bytes : ∀ m rest, ok m → parse (to_bytes m ++ rest) = Message m rest.
