(* ===== verification/PacketProps.v ===== *)
(** * Packets: theorems

    The three framings meet [Framing]; against that interface, how the stream is cut into chunks is
    invisible, and messages sent back to back come out as they went in. A line is always text; a
    frame's length field is read back, except where its length saturates. *)

From S2P Require Import Prelude Bytes Packet.

(** ** Lists *)

Lemma position_app {A} (p : A → bool) l k i :
  position p l = Some i → position p (l ++ k) = Some i.
Proof.
  revert i. induction l as [|x l IH]; intros i; [done|]. cbn [app position].
  destruct (p x); [done|]. destruct (position p l); [|done]. by rewrite (IH n).
Qed.

Lemma position_bound {A} (p : A → bool) l i : position p l = Some i → (i < length l)%nat.
Proof. intros (x & Hx & _)%position_Some. by eapply lookup_lt_Some. Qed.

(** ** UTF-8 *)

Lemma list_length_ind {A} (Q : list A → Prop) :
  (∀ l, (∀ k, (length k < length l)%nat → Q k) → Q l) → ∀ l, Q l.
Proof.
  intros H l. remember (length l) as n eqn:E. revert l E.
  induction n as [n IH] using lt_wf_ind. intros l ->. apply H. intros k Hk. by eapply IH.
Qed.

Ltac utf8_decide :=
  repeat match goal with
  | |- context [if ?c then _ else _] =>
      first [ replace c with true by lia | replace c with false by lia ]; cbn iota
  end.

(** Text is kept as it is. *)
Lemma lossy_keeps l : valid_utf8 l = true → from_utf8_lossy l = l.
Proof.
  induction l as [l IH] using list_length_ind. intros Hl.
  destruct l as [|a s1]; [done|]. cbn [from_utf8_lossy]. cbn [valid_utf8] in Hl.
  destruct (a <=? 127) eqn:E0.
  { rewrite IH; [done|cbn; lia|done]. }
  destruct s1 as [|b s2]; [done|].
  destruct ((194 <=? a) && (a <=? 223)) eqn:E1.
  { apply andb_true_iff in Hl as [Hb Hl]. rewrite (IH s2) by (done || cbn; lia). by utf8_decide. }
  destruct s2 as [|c s3]; [done|].
  destruct ((224 <=? a) && (a <=? 239)) eqn:E2.
  { apply andb_true_iff in Hl as [Hb Hl]. rewrite (IH s3) by (done || cbn; lia). by utf8_decide. }
  destruct s3 as [|d s4]; [done|].
  apply andb_true_iff in Hl as [Hb Hl]. rewrite (IH s4) by (done || cbn; lia). by utf8_decide.
Qed.

(** ** The framings *)

Lemma windows_app n l k : (0 < n)%nat → ∃ ws, windows n (l ++ k) = windows n l ++ ws.
Proof.
  intros Hn. unfold windows. rewrite length_app.
  replace (length l + length k + 1 - n)%nat
    with ((length l + 1 - n) + (length l + length k + 1 - n - (length l + 1 - n)))%nat by lia.
  rewrite seq_app, fmap_app. eexists. f_equal. apply list_fmap_ext. intros i j Hj.
  apply lookup_seq in Hj as [-> Hi]. rewrite drop_app_le by lia.
  by rewrite take_app_le by (rewrite length_drop; lia).
Qed.

Lemma windows_lookup n l i : (i + n ≤ length l)%nat → windows n l !! i = Some (take n (drop i l)).
Proof.
  intros Hi. unfold windows. rewrite list_lookup_fmap, lookup_seq_lt by lia. done.
Qed.

(** Where the first delimiter of a buffer starts *)
Lemma delimiter_at D buf start :
  position (λ w, bool_decide (w = D)) (windows (length D) buf) = Some start →
  (start + length D ≤ length buf)%nat.
Proof.
  intros Hs. apply position_bound in Hs. unfold windows in Hs. rewrite length_fmap, length_seq in Hs. lia.
Qed.

#[export] Instance Line_framing : Framing Line.
Proof.
  split; cbn [parse Line_packet]; unfold parse_line.
  - intros buf m rest. destruct (position _ buf) as [e|] eqn:He; [|done]. intros [= _ <-].
    apply position_bound in He. rewrite length_drop. lia.
  - intros buf m rest more. destruct (position _ buf) as [e|] eqn:He; [|done]. intros [= <- <-].
    pose proof (position_bound _ _ _ He). rewrite (position_app _ _ _ _ He).
    rewrite take_app_le, drop_app_le by lia. done.
  - intros buf more. by destruct (position _ buf).
Qed.

#[export] Instance Delimited_framing D : Framing (Delimited D).
Proof.
  split; cbn [parse Delimited_packet]; unfold parse_delimited; destruct D as [|d D'];
    try done; set (D := d :: D').
  - intros buf m rest. destruct (position _ _) as [e|] eqn:He; [|done]. intros [= _ <-].
    apply delimiter_at in He. rewrite length_drop. cbn in *. lia.
  - intros buf m rest more. destruct (position _ _) as [e|] eqn:He; [|done]. intros [= <- <-].
    pose proof (delimiter_at _ _ _ He).
    destruct (windows_app (length D) buf more) as [ws ->]; [cbn; lia|].
    rewrite (position_app _ _ _ _ He), take_app_le, drop_app_le by lia. done.
  - intros buf more. by destruct (position _ _).
Qed.

Lemma frame_len_stable L buf more :
  frame_len L buf ≠ NotYet → frame_len L (buf ++ more) = frame_len L buf.
Proof.
  unfold frame_len. destruct (negb _); [done|].
  destruct (Nat.leb_spec (offset L + width L) (length buf)); [|done]. intros _.
  rewrite length_app, slice_app_l by done.
  destruct (Nat.leb_spec (offset L + width L) (length buf + length more)); [done|lia].
Qed.

(** A length that [frame_len] gives covers the field. *)
Lemma frame_len_total L buf total :
  frame_len L buf = Total total →
  (width L ∈ [1; 2; 4; 8]%nat) ∧ (offset L + width L ≤ length buf)%nat ∧
  1 ≤ total ≤ usize_max ∧
  let exact := field_value L (slice (offset L) (offset L + width L) buf) + adjust L in
  Z.of_nat (offset L + width L) ≤ exact ∧ total = Z.min exact usize_max.
Proof.
  unfold frame_len. destruct (bool_decide (width L ∈ [1; 2; 4; 8]%nat)) eqn:Hw; [|done].
  apply bool_decide_eq_true in Hw. cbn [negb].
  assert (1 ≤ width L)%nat by (rewrite !elem_of_cons, elem_of_nil in Hw; lia).
  destruct (Nat.leb_spec (offset L + width L) (length buf)); [|done].
  set (exact := field_value _ _ + _). cbv zeta.
  destruct (Z.ltb_spec exact (Z.of_nat (offset L + width L))); [done|].
  intros [= <-]. split_and!; try done; unfold usize_max in *; zbool; lia.
Qed.

#[export] Instance LengthPrefixed_framing L : Framing (LengthPrefixed L).
Proof.
  split; cbn [parse LengthPrefixed_packet]; unfold parse_prefixed.
  - intros buf m rest. destruct (frame_len L buf) as [| |total] eqn:E; [done|done|].
    destruct (Z.ltb_spec (Z.of_nat (length buf)) total); [done|]. intros [= _ <-].
    apply frame_len_total in E as (_ & ? & ? & _). rewrite length_drop. lia.
  - intros buf m rest more. destruct (frame_len L buf) as [| |total] eqn:E; [done|done|].
    destruct (Z.ltb_spec (Z.of_nat (length buf)) total); [done|]. intros [= <- <-].
    rewrite frame_len_stable, E by by rewrite E. rewrite length_app.
    destruct (Z.ltb_spec (Z.of_nat (length buf + length more)) total); [lia|].
    rewrite take_app_le, drop_app_le by lia. done.
  - intros buf more. destruct (frame_len L buf) as [| |total] eqn:E; [|done|by case_match].
    intros _. by rewrite frame_len_stable, E by by rewrite E.
Qed.

(** What each framing brings back as it was sent: text without a newline, a frame whose only
    delimiter ends it, a frame as long as its field says. *)
Definition line_ok (m : Line) : Prop := valid_utf8 (text_of m) = true ∧ 10 ∉ text_of m.

#[export] Instance Line_well_framed : WellFramed Line line_ok.
Proof.
  intros [t] rest [Hv Hn]. cbn [parse to_bytes Line_packet]. unfold parse_line, line_to_bytes.
  cbn [text_of] in *. rewrite <- app_assoc.
  assert (position (Z.eqb 10) (t ++ [10] ++ rest) = Some (length t)) as ->.
  { apply position_first. split.
    - exists 10. split; [|done]. by rewrite lookup_app_r, Nat.sub_diag by done.
    - intros j x Hj Hx. rewrite lookup_app_l in Hx by done. apply Z.eqb_neq. intros <-.
      apply Hn. by eapply list_elem_of_lookup_2. }
  rewrite app_assoc, take_app_length', drop_app_length' by (rewrite length_app; done).
  rewrite length_app. cbn [length]. rewrite Nat.add_sub, take_app_length.
  by rewrite lossy_keeps.
Qed.

(** No delimiter starts in [f] before its last one. *)
Definition delimited_ok {D} (m : Delimited D) : Prop :=
  D ≠ [] ∧ ∃ b, frame m = b ++ D ∧
    ∀ i, (i < length b)%nat → take (length D) (drop i (frame m)) ≠ D.

#[export] Instance Delimited_well_framed D : WellFramed (Delimited D) delimited_ok.
Proof.
  intros [f] rest (HD & b & Hf & Hfirst). cbn [parse to_bytes Delimited_packet frame] in *. subst f.
  unfold parse_delimited. destruct D as [|d D'] eqn:ED; [done|]. rewrite <- ED in *.
  assert (position (λ w, bool_decide (w = D)) (windows (length D) ((b ++ D) ++ rest)) = Some (length b)) as ->.
  { apply position_first. split.
    - exists D. split; [|by apply bool_decide_eq_true].
      rewrite windows_lookup by (rewrite !length_app; lia).
      rewrite <- app_assoc, drop_app_length. by rewrite take_app_length.
    - intros j w Hj Hw. rewrite windows_lookup in Hw by (rewrite !length_app; lia).
      simplify_eq. apply bool_decide_eq_false. rewrite drop_app_le by (rewrite length_app; lia).
      rewrite take_app_le by (rewrite length_drop, length_app; lia). by apply Hfirst. }
  rewrite take_app_length', drop_app_length' by (rewrite length_app; done). done.
Qed.

Definition prefixed_ok {L} (m : LengthPrefixed L) : Prop :=
  frame_len L (prefixed m) = Total (Z.of_nat (length (prefixed m))).

#[export] Instance LengthPrefixed_well_framed L : WellFramed (LengthPrefixed L) prefixed_ok.
Proof.
  intros [f] rest Hf. unfold prefixed_ok in Hf. cbn [parse to_bytes LengthPrefixed_packet prefixed] in *.
  unfold parse_prefixed. rewrite frame_len_stable, Hf by by rewrite Hf. rewrite length_app.
  destruct (Z.ltb_spec (Z.of_nat (length f + length rest)) (Z.of_nat (length f))); [lia|].
  by rewrite Nat2Z.id, take_app_length, drop_app_length.
Qed.

(** ** Any framing *)

Section framing.
Context {P : Type} `{Framing P}.
Implicit Types (buf : list Z) (m : P).

Lemma take_messages_fuel n1 n2 buf :
  (length buf < n1)%nat → (length buf < n2)%nat →
  take_messages (P := P) n1 buf = take_messages n2 buf.
Proof.
  revert n2 buf. induction n1 as [|n1 IH]; intros n2 buf H1 H2; [lia|].
  destruct n2 as [|n2]; [lia|]. cbn [take_messages].
  destruct (parse buf) as [|m rest|] eqn:E; [done| |done].
  apply parse_shrinks in E. by rewrite (IH n2) by lia.
Qed.

Lemma messages_step buf :
  messages buf =
  match parse buf with
  | Incomplete => ([], Some buf)
  | Panicked => ([], None)
  | Message m rest =>
      let '(ms, tail_) := messages rest in ((m, (length buf - length rest)%nat) :: ms, tail_)
  end.
Proof.
  unfold messages. cbn [take_messages]. destruct (parse buf) as [|m rest|] eqn:E; [done| |done].
  apply parse_shrinks in E. by rewrite (take_messages_fuel _ (S (length rest))) by lia.
Qed.

(** The messages of a longer buffer are those of its front, then those of what was left of it. *)
Lemma messages_app buf more :
  messages (buf ++ more) =
  match messages buf with
  | (ms, None) => (ms, None)
  | (ms, Some rest) => let '(ms', tail_) := messages (rest ++ more) in (ms ++ ms', tail_)
  end.
Proof.
  induction buf as [buf IH] using list_length_ind. rewrite (messages_step buf).
  destruct (parse buf) as [|m rest|] eqn:E.
  - by destruct (messages _).
  - pose proof (parse_shrinks _ _ _ E). pose proof (parse_stable _ _ _ more E) as E'.
    rewrite messages_step, E', (IH rest) by done. rewrite !length_app.
    replace (length buf + length more - (length rest + length more))%nat
      with (length buf - length rest)%nat by lia.
    destruct (messages rest) as [ms [r|]]; [|done]. by destruct (messages (r ++ more)).
  - by rewrite messages_step, (panic_stable _ more E).
Qed.

Lemma receive_messages chunks : ∀ buf chunk,
  receive buf (chunk :: chunks) = messages (buf ++ chunk ++ mjoin chunks).
Proof.
  induction chunks as [|c chunks IH]; intros buf chunk; cbn [receive].
  - cbn [mjoin list_join]. rewrite app_nil_r. destruct (messages _) as [ms [r|]]; [|done].
    by rewrite app_nil_r.
  - rewrite app_assoc, (messages_app (buf ++ chunk)). destruct (messages (buf ++ chunk)) as [ms [r|]]; [|done].
    pose proof (IH r c) as E. cbn [receive] in E. rewrite E. done.
Qed.

Lemma messages_sent (ok : P → Prop) `{!WellFramed P ok} ms :
  parse (P := P) [] = Incomplete → Forall ok ms →
  messages (mjoin (to_bytes <$> ms)) = ((λ m, (m, length (to_bytes m))) <$> ms, Some []).
Proof.
  intros He. induction 1 as [|m ms Hm _ IH]; cbn [fmap list_fmap mjoin list_join].
  - by rewrite messages_step, He.
  - rewrite messages_step, (parse_to_bytes m _ Hm). fold (mjoin (M := list) (A := Z)).
    setoid_rewrite IH. rewrite length_app. do 3 f_equal. lia.
Qed.

Lemma parse_empty_incomplete m rest : parse (to_bytes m ++ rest) = Message m rest → parse (P := P) [] = Incomplete.
Proof.
  intros E. destruct (parse []) as [|m' r|] eqn:E0; [done| |].
  - apply parse_shrinks in E0. cbn in E0. lia.
  - pose proof (panic_stable [] (to_bytes m ++ rest) E0) as E1. cbn in E1. congruence.
Qed.

End framing.

(** ** The theorems *)

(** C16: in every framing, a stream gives the same messages, the same rest and the same panic however
    it is cut into chunks. *)
Theorem chunking_invisible {P} `{Framing P} (chunk chunk' : list Z) (chunks chunks' : list (list Z)) :
  mjoin (chunk :: chunks) = mjoin (chunk' :: chunks') →
  receive (P := P) [] (chunk :: chunks) = receive [] (chunk' :: chunks').
Proof. intros E. rewrite !receive_messages. cbn [mjoin list_join] in E. cbn [app]. by f_equal. Qed.

Lemma chunking_invisible_witness :
  receive (P := Delimited CrLf) [] [[65; 13]; [10; 66]; [13; 10; 67]] =
  receive [] [[65; 13; 10]; [66; 13; 10; 67]].
Proof. apply (chunking_invisible (P := Delimited CrLf)). done. Defined.

(** messages a framing accepts, sent back to back and cut into any chunks, are received whole,
    in order, each with its length, and nothing is left over. *)
Theorem messages_round_trip {P} `{Framing P} (ok : P → Prop) `{!WellFramed P ok}
    (m : P) (ms : list P) (chunk : list Z) (chunks : list (list Z)) :
  Forall ok (m :: ms) → mjoin (chunk :: chunks) = mjoin (to_bytes <$> m :: ms) →
  receive [] (chunk :: chunks) = ((λ m, (m, length (to_bytes m))) <$> m :: ms, Some []).
Proof.
  intros Hms E. rewrite receive_messages. change ([] ++ chunk ++ mjoin chunks) with (mjoin (chunk :: chunks)).
  rewrite E. apply (messages_sent ok); [|done]. apply Forall_cons in Hms as [Hm _].
  by eapply parse_empty_incomplete, (parse_to_bytes m []).
Qed.

(** A frame of the Leica AT960's GCOM socket: header, payload and ETX *)
Definition Gcom : LengthField := mk_length_field 2 2 Little 5.

Lemma messages_round_trip_witness :
  receive [] [[2; 1; 2]; [0; 65; 66; 3; 2; 1]; [0; 0; 3]] =
  ([(mk_prefixed (L := Gcom) [2; 1; 2; 0; 65; 66; 3], 7%nat); (mk_prefixed [2; 1; 0; 0; 3], 5%nat)], Some []).
Proof.
  refine (messages_round_trip (P := LengthPrefixed Gcom) prefixed_ok
    (mk_prefixed [2; 1; 2; 0; 65; 66; 3]) [mk_prefixed [2; 1; 0; 0; 3]]
    [2; 1; 2] [[0; 65; 66; 3; 2; 1]; [0; 0; 3]] _ _); [|done].
  repeat constructor.
Defined.

(** The lines of a text, by their newlines, and what comes after the last *)
Fixpoint split_lines (l : list Z) : list (list Z) * list Z :=
  match l with
  | [] => ([], [])
  | b :: l =>
      let '(ls, rest) := split_lines l in
      if b =? 10 then ([] :: ls, rest) else match ls with [] => ([], b :: rest) | x :: ls => ((b :: x) :: ls, rest) end
  end.
Lemma split_lines_position buf : split_lines buf = match position (Z.eqb 10) buf with
  | None => ([], buf)
  | Some i => let '(ls, rest) := split_lines (drop (S i) buf) in (take i buf :: ls, rest)
  end.
Proof.
  induction buf as [|b buf IH]; [done|]. cbn [split_lines position]. rewrite Z.eqb_sym. destruct (10 =? b); cbn [drop take]; [by rewrite drop_0|].
  rewrite IH. destruct (position (Z.eqb 10) buf) as [i|]; [|done]. cbn [fmap option_fmap option_map drop take]. by destruct (split_lines (drop (S i) buf)).
Qed.
Lemma line_messages buf : messages (P := Line) buf =
  ((λ l, (mk_line (from_utf8_lossy l), S (length l))) <$> (split_lines buf).1, Some (split_lines buf).2).
Proof.
  induction buf as [buf IH] using list_length_ind. rewrite messages_step, split_lines_position. cbn [parse Line_packet]. unfold parse_line.
  destruct (position (Z.eqb 10) buf) as [i|] eqn:E; [|done]. pose proof (position_bound _ _ _ E) as Hi. cbv zeta. rewrite Nat.add_1_r, IH by (rewrite length_drop; lia).
  destruct (split_lines (drop (S i) buf)) as [ls rest]. cbn [fst snd fmap list_fmap]. rewrite take_take, length_take, length_drop, length_take.
  replace (S i `min` length buf - 1)%nat with i by lia. replace (i `min` S i)%nat with i by lia. do 2 f_equal. f_equal. lia.
Qed.

(** C37: whatever bytes arrive, in whatever chunks, the messages of the [Line] framing are the lines of the stream, each without its newline and as text, with the
    bytes it took, in order; and what is kept for later is what follows the last newline. *)
Theorem lines_received (chunks : list (list Z)) :
  receive (P := Line) [] chunks =
    ((λ l, (mk_line (from_utf8_lossy l), S (length l))) <$> (split_lines (mjoin chunks)).1, Some (split_lines (mjoin chunks)).2).
Proof. destruct chunks as [|c chunks]; [done|]. rewrite receive_messages, line_messages. done. Qed.

Lemma field_value_bound L field :
  Forall is_byte field → length field = width L → (width L ≤ 8)%nat →
  0 ≤ field_value L field ≤ u64_max.
Proof.
  intros Hb Hl Hw. unfold field_value.
  assert (∀ l acc, from_be acc l = acc * 256 ^ Z.of_nat (length l) + from_ne_bytes (reverse l)) as Hbe.
  { induction l as [|x l IH]; intros acc; [cbn; lia|]. cbn [from_be length].
    rewrite IH, reverse_cons. clear IH.
    assert (∀ k y, from_ne_bytes (k ++ [y]) = from_ne_bytes k + 256 ^ Z.of_nat (length k) * y) as Hs.
    { induction k as [|z k IHk]; intros y; cbn [app from_ne_bytes length]; [lia|].
      rewrite IHk, Nat2Z.inj_succ, Z.pow_succ_r by lia. lia. }
    rewrite Hs, length_reverse, Nat2Z.inj_succ, Z.pow_succ_r by lia. lia. }
  set (z := replicate (8 - width L) 0).
  assert (Forall is_byte z) as Hz by (apply Forall_replicate; done).
  assert (length z = 8 - width L)%nat by apply length_replicate.
  destruct (endian L).
  - rewrite Hbe. pose proof (from_ne_bytes_bound (reverse (z ++ field))) as B.
    rewrite Forall_reverse, length_reverse, length_app in B.
    replace (length z + length field)%nat with 8%nat in B by lia.
    specialize (B ltac:(by apply Forall_app)). cbn in *. lia.
  - pose proof (from_ne_bytes_bound (field ++ z)) as B. rewrite length_app in B.
    replace (length field + length z)%nat with 8%nat in B by lia.
    specialize (B ltac:(by apply Forall_app)). cbn in *. lia.
Qed.

(** the length field of a frame is read back exactly when the frame's length fits in a [usize];
    where [frame_len] saturates, [length_field] is short by what was cut off. *)
Theorem length_field_exact L (m : LengthPrefixed L) (total : Z) :
  frame_len L (prefixed m) = Total total → Forall is_byte (prefixed m) → is_i64 (adjust L) →
  let value := field_value L (slice (offset L) (offset L + width L) (prefixed m)) in
  length_field m = Some (value - Z.max 0 (value + adjust L - usize_max)).
Proof.
  intros E Hb Ha value. unfold length_field. rewrite E. apply frame_len_total in E.
  destruct E as (Hw & Hl & Ht & He & ->). f_equal. unfold wrap_u64.
  assert (0 ≤ value ≤ u64_max).
  { apply field_value_bound.
    - unfold slice. by apply Forall_take, Forall_drop.
    - rewrite length_slice by done. lia.
    - rewrite !elem_of_cons, elem_of_nil in Hw. lia. }
  fold value in He |- *. unfold usize_max in *. rewrite Z.mod_small by lia. lia.
Qed.

(** A field counting all of 2^64 - 1 bytes, with five more: read back as 2^64 - 6 *)
Lemma length_field_exact_witness :
  let L := mk_length_field 0 8 Little 5 in
  let m := mk_prefixed (L := L) [255; 255; 255; 255; 255; 255; 255; 255] in
  field_value L (prefixed m) = u64_max ∧ length_field m = Some (u64_max - 5).
Proof.
  split; [done|].
  apply (length_field_exact (mk_length_field 0 8 Little 5)
    (mk_prefixed [255; 255; 255; 255; 255; 255; 255; 255]) usize_max); [done| |done].
  apply (bool_decide_unpack _). by vm_compute.
Defined.
