(* ===== verification/NetPolicy.v ===== *)
(** * Network policies

    crates/snare/src/netpolicy.rs: what the simulated link does to the traffic of an address,
    latency, jitter, loss, duplication, an MTU, a receive window, and the stalls that hold traffic
    back; and [link_deliveries] of crates/snare/src/netif.rs, which puts an interface's policy in
    front of an address's. Durations and instants are nanoseconds on one clock; a probability is
    a rational, and a draw its numerator over 2^53. *)

From Stdlib Require Import QArith.
From S2P Require Import Prelude Rng.

Local Open Scope Z_scope.

(** ** [Delays]: at most four, inline *)

Record Delays := mk_delays { values : list Z; dlen : nat }.

Definition delays_default : Delays := mk_delays [0; 0; 0; 0] 0.
(** [Delays::one] *)
Definition delays_one (d : Z) : Delays := mk_delays [d; 0; 0; 0] 1.

(** [Delays::extend]; [None] an index out of range *)
Fixpoint extend (ds : list Z) (s : Delays) : option Delays :=
  match ds with
  | [] => Some s
  | d :: ds =>
      if (dlen s <? length (values s))%nat then
        extend ds (mk_delays (<[dlen s := d]> (values s)) (dlen s + 1))
      else None
  end.

(** [deref]: the delays held *)
Definition delays_list (s : Delays) : list Z := take (dlen s) (values s).

(** ** Policies *)

Record UdpPolicy := mk_udp {
  latency : Z; jitter : Z; loss_rate : Q; duplicate_rate : Q; mtu : option Z;
  send_queue_depth : option Z;
}.
Definition udp_default : UdpPolicy := mk_udp 0 0 0 0 None None.

Record TcpPolicy := mk_tcp { tcp_latency : Z; tcp_jitter : Z; tcp_recv_window : option Z }.
Definition tcp_default : TcpPolicy := mk_tcp 0 0 None.

Record NicPolicy := mk_nic_policy {
  nic_latency : Z; nic_jitter : Z; nic_loss_rate : Q; nic_duplicate_rate : Q;
}.

Inductive LinkFault := Lost | TooBig | Duplicated.
Inductive Direction := Receive | Send | Both.

#[export] Instance LinkFault_eq_dec : EqDecision LinkFault.
Proof. solve_decision. Defined.

(** [policy == UdpPolicy::default()] and [TcpPolicy]'s *)
Definition udp_is_default (p : UdpPolicy) : bool :=
  (latency p =? 0) && (jitter p =? 0) && Qeq_bool (loss_rate p) 0 && Qeq_bool (duplicate_rate p) 0 &&
  bool_decide (mtu p = None) && bool_decide (send_queue_depth p = None).
Definition tcp_is_default (p : TcpPolicy) : bool :=
  (tcp_latency p =? 0) && (tcp_jitter p =? 0) && bool_decide (tcp_recv_window p = None).

(** A stall window of the history: [since <= t < until] *)
Record StallWindow := mk_window { since : Z; until : Z }.

Record Stall := mk_stall {
  receive_until : option Z; send_until : option Z;
  receive_history : list StallWindow; send_history : list StallWindow;
}.
Definition stall_default : Stall := mk_stall None None [] [].

(** [replace_stall] *)
Definition replace_stall (since_ until_ : Z) (history : list StallWindow) : list StallWindow :=
  let history :=
    match last history with
    | Some w =>
        if since_ <? until w then
          let cut := mk_window (since w) since_ in
          let front := take (length history - 1) history in
          if since_ <=? since w then front else front ++ [cut]
        else history
    | None => history
    end in
  if since_ <? until_ then history ++ [mk_window since_ until_] else history.

(** [rate > 0.0 && unit < rate] of a draw whose numerator is [u] *)
Definition rate_positive (r : Q) : bool := 0 <? Qnum r.
Definition below (u : Z) (r : Q) : bool := u * Zpos (Qden r) <? Qnum r * 2 ^ 53.

(** [Duration::mul_f64] of a draw: the product rounded to the nearest nanosecond *)
Definition mul_f64 (span u : Z) : Z := (2 * span * u + 2 ^ 53) / 2 ^ 54.

(** The merge of [effective_arrival]: the window that starts first, a tie the sender's *)
Fixpoint arrive_after (fuel : nat) (send receive : list StallWindow) (at_ : Z) : Z :=
  match fuel with
  | O => at_
  | S fuel =>
      let step w send receive :=
        if at_ <? since w then at_
        else arrive_after fuel send receive (if at_ <? until w then until w else at_) in
      match send, receive with
      | a :: send', b :: receive' =>
          if since a <=? since b then step a send' receive else step b send receive'
      | [], b :: receive' => step b [] receive'
      | a :: send', [] => step a send' []
      | [], [] => at_
      end
  end.

(** ** [Policies] *)

Section policies.
Context {A : Type} `{Countable A}.

Record Policies := mk_policies {
  by_addr : gmap A UdpPolicy; tcp_by_addr : gmap A TcpPolicy; stalls : gmap A Stall; rng : Z;
}.

(** [with_seed] *)
Definition with_seed (seed : Z) : Policies := mk_policies ∅ ∅ ∅ seed.

Definition set_rng (r : Z) (p : Policies) : Policies :=
  mk_policies (by_addr p) (tcp_by_addr p) (stalls p) r.

(** [update] and [update_tcp] *)
Definition update_udp (addr : A) (change : UdpPolicy → UdpPolicy) (p : Policies) : UdpPolicy * Policies :=
  let policy := change (default udp_default (by_addr p !! addr)) in
  let m := <[addr := policy]> (by_addr p) in
  (policy, mk_policies (if udp_is_default policy then delete addr m else m)
             (tcp_by_addr p) (stalls p) (rng p)).

Definition update_tcp (addr : A) (change : TcpPolicy → TcpPolicy) (p : Policies) : TcpPolicy * Policies :=
  let policy := change (default tcp_default (tcp_by_addr p !! addr)) in
  let m := <[addr := policy]> (tcp_by_addr p) in
  (policy, mk_policies (by_addr p) (if tcp_is_default policy then delete addr m else m)
             (stalls p) (rng p)).

(** [has_udp], [recv_window], [udp_latency], [send_stalled] *)
Definition has_udp (addr : A) (p : Policies) : bool := bool_decide (is_Some (by_addr p !! addr)).
Definition recv_window (addr : A) (p : Policies) : option Z :=
  policy ← tcp_by_addr p !! addr; tcp_recv_window policy.
Definition udp_latency (to : A) (p : Policies) : Z :=
  match by_addr p !! to with Some policy => latency policy | None => 0 end.
Definition send_stalled (from : A) (p : Policies) : bool :=
  match by_addr p !! from with
  | Some policy => bool_decide (send_queue_depth policy = Some 0)
  | None => false
  end.

(** [unit] *)
Definition unit_draw (p : Policies) : Z * Policies :=
  let '(u, r) := SplitMix64.unit (rng p) in (u, set_rng r p).

(** [jitter] *)
Definition jitter_draw (span : Z) (p : Policies) : Z * Policies :=
  if span =? 0 then (0, p) else let '(u, p) := unit_draw p in (mul_f64 span u, p).

(** [rate > 0.0 && self.unit() < rate]: no draw at rate zero *)
Definition chance (rate : Q) (p : Policies) : bool * Policies :=
  if rate_positive rate then let '(u, p) := unit_draw p in (below u rate, p) else (false, p).

(** One delay per copy, [(0..copies).map(...)] *)
Fixpoint copies_delays (n : nat) (draw : Policies → Z * Policies) (p : Policies) : list Z * Policies :=
  match n with
  | O => ([], p)
  | S n =>
      let '(d, p) := draw p in
      let '(ds, p) := copies_delays n draw p in (d :: ds, p)
  end.

(** [deliveries]; [None] a panic *)
Definition deliveries (to : A) (len : Z) (p : Policies)
    : option (Delays * option LinkFault) * Policies :=
  match by_addr p !! to with
  | None => (Some (delays_one 0, None), p)
  | Some policy =>
      if match mtu policy with Some mtu => mtu <? len | None => false end then
        (Some (delays_default, Some TooBig), p)
      else
        let '(lost, p) := chance (loss_rate policy) p in
        if lost then (Some (delays_default, Some Lost), p)
        else
          let '(duplicated, p) := chance (duplicate_rate policy) p in
          let '(ds, p) :=
            copies_delays (if duplicated then 2 else 1)
              (λ p, let '(u, p) := unit_draw p in (latency policy + mul_f64 (jitter policy) u, p)) p in
          (delays ← extend ds delays_default;
           Some (delays, if duplicated then Some Duplicated else None), p)
  end.

(** [tcp_delay] *)
Definition tcp_delay (a b : A) (p : Policies) : Z * Policies :=
  match (match tcp_by_addr p !! a with Some policy => Some policy | None => tcp_by_addr p !! b end) with
  | None => (0, p)
  | Some policy =>
      if tcp_jitter policy =? 0 then (tcp_latency policy, p)
      else let '(u, p) := unit_draw p in (tcp_latency policy + mul_f64 (tcp_jitter policy) u, p)
  end.

(** The address policy of each copy the interface made, [for first in base] *)
Fixpoint each_copy (to : A) (len : Z) (base : list Z) (delays : Delays) (faults : list LinkFault)
    (p : Policies) : option (Delays * list LinkFault) * Policies :=
  match base with
  | [] => (Some (delays, faults), p)
  | first :: base =>
      let '(r, p) := deliveries to len p in
      match r with
      | None => (None, p)
      | Some (more, fault) =>
          let faults := faults ++ match fault with Some f => [f] | None => [] end in
          match extend (Z.add first <$> delays_list more) delays with
          | None => (None, p)
          | Some delays => each_copy to len base delays faults p
          end
      end
  end.

(** [link_deliveries] *)
Definition link_deliveries (nic : option NicPolicy) (to : A) (len : Z) (p : Policies)
    : option (Delays * list LinkFault) * Policies :=
  match nic with
  | None =>
      let '(r, p) := deliveries to len p in
      (prod_map id (λ f, match f with Some f => [f] | None => [] end) <$> r, p)
  | Some nic =>
      let '(lost, p) := chance (nic_loss_rate nic) p in
      if lost then (Some (delays_default, [Lost]), p)
      else
        let '(duplicated, p) := chance (nic_duplicate_rate nic) p in
        let faults := if duplicated then [Duplicated] else [] in
        let '(base, p) :=
          copies_delays (if duplicated then 2 else 1)
            (λ p, let '(d, p) := jitter_draw (nic_jitter nic) p in (nic_latency nic + d, p)) p in
        match extend base delays_default with
        | None => (None, p)
        | Some base => each_copy to len (delays_list base) delays_default faults p
        end
  end.

(** ** Stalls *)

Definition put_stall (addr : A) (s : Stall) (p : Policies) : Policies :=
  mk_policies (by_addr p) (tcp_by_addr p) (<[addr := s]> (stalls p)) (rng p).

Definition covers (d : Direction) : bool * bool :=
  match d with Receive => (true, false) | Send => (false, true) | Both => (true, true) end.

(** [stall], elsewhere than macOS, and [stall_at] on macOS, which also keeps the history *)
Definition stall (addr : A) (direction : Direction) (until_ : Z) (p : Policies) : Policies :=
  let s := default stall_default (stalls p !! addr) in
  let '(receives, sends) := covers direction in
  put_stall addr
    (mk_stall (if receives then Some until_ else receive_until s)
       (if sends then Some until_ else send_until s) (receive_history s) (send_history s)) p.

Definition stall_at (addr : A) (direction : Direction) (since_ until_ : Z) (p : Policies) : Policies :=
  let s := default stall_default (stalls p !! addr) in
  let '(receives, sends) := covers direction in
  put_stall addr
    (mk_stall (if receives then Some until_ else receive_until s)
       (if sends then Some until_ else send_until s)
       (if receives then replace_stall since_ until_ (receive_history s) else receive_history s)
       (if sends then replace_stall since_ until_ (send_history s) else send_history s)) p.

(** The latest of the deadlines that has not passed at [now], [filter(...).max_by_key(...)] *)
Definition latest_held (now : Z) (l : list (option Z)) : option Z :=
  foldl (λ acc d, match acc with Some a => Some (Z.max a d) | None => Some d end) None
    (retain (λ d, now <? d) (omap id l)).

(** [held_until] ([held_until_on] on macOS) and [held_until_pair] *)
Definition held_until (now : Z) (from to : A) (p : Policies) : option Z :=
  latest_held now [stalls p !! to ≫= receive_until; stalls p !! from ≫= send_until].

Definition held_until_pair (now : Z) (from to bound : A) (p : Policies) : option Z :=
  latest_held now
    [stalls p !! from ≫= send_until; stalls p !! to ≫= receive_until;
     if bool_decide (bound ≠ to) then stalls p !! bound ≫= receive_until else None].

(** [effective_arrival] *)
Definition effective_arrival (from to : A) (at_ : Z) (p : Policies) : Z :=
  let send := match stalls p !! from with Some s => send_history s | None => [] end in
  let receive := match stalls p !! to with Some s => receive_history s | None => [] end in
  arrive_after (length send + length receive) send receive at_.

End policies.
Arguments Policies A {_ _}.
