(* ===== verification/NetPolicyProps.v ===== *)
(** * Network policies: theorems

    The copies of a datagram are accounted for by the faults reported, each within its delays; and
    traffic that meets stalls arrives at the first instant at which neither end is stalled, where
    an end is stalled as the latest of its stalls says. *)

From Stdlib Require Import QArith.
From S2P Require Import Prelude Rng NetPolicy.

Local Open Scope Z_scope.

(** ** Delays *)

Definition delays_ok (s : Delays) : Prop := length (values s) = 4%nat ∧ (dlen s ≤ 4)%nat.

Lemma extend_fits ds : ∀ s, delays_ok s → (dlen s + length ds ≤ 4)%nat →
  ∃ s', extend ds s = Some s' ∧ delays_ok s' ∧ delays_list s' = delays_list s ++ ds.
Proof.
  induction ds as [|d ds IH]; intros s [Hv Hl] Hfit; cbn [extend length] in *.
  - exists s. rewrite app_nil_r. done.
  - rewrite Hv. destruct (Nat.ltb_spec (dlen s) 4); [|lia].
    destruct (IH (mk_delays (<[dlen s := d]> (values s)) (dlen s + 1))) as (s' & E & Hok & Hlist).
    + split; cbn [values dlen]; [by rewrite length_insert|lia].
    + cbn [dlen]. lia.
    + exists s'. split; [done|]. split; [done|]. rewrite Hlist. unfold delays_list. cbn [values dlen].
      rewrite Nat.add_1_r, (take_S_r _ _ d) by (apply list_lookup_insert_eq; lia).
      rewrite take_insert_ge by lia. by rewrite <- app_assoc.
Qed.

Lemma delays_default_ok : delays_ok delays_default.
Proof. split; cbn; lia. Qed.
#[local] Hint Resolve delays_default_ok : core.

(** ** Draws *)

Lemma unit_range s : 0 ≤ (SplitMix64.unit s).1 < 2 ^ 53.
Proof.
  unfold SplitMix64.unit, SplitMix64.next_u64, SplitMix64.finalise. cbn [fst].
  pose proof (xorshift_range 31 _ ltac:(lia) (wrap_u64_range (SplitMix64.xorshift 27
    (SplitMix64.wrapping_mul (SplitMix64.xorshift 30 (wrap_u64 (s + SplitMix64.INCREMENT))) SplitMix64.MUL1)
    * SplitMix64.MUL2))) as Hx.
  unfold SplitMix64.wrapping_mul in *. set (x := SplitMix64.xorshift 31 _) in *.
  rewrite Z.shiftr_div_pow2 by lia. change (2 ^ 11) with 2048. dlia.
Qed.

Lemma mul_f64_range span u : 0 ≤ span → 0 ≤ u < 2 ^ 53 → 0 ≤ mul_f64 span u ≤ span.
Proof.
  intros Hs Hu. unfold mul_f64. split; [apply Z.div_pos; lia|].
  apply Z.lt_succ_r, Z.div_lt_upper_bound; [lia|].
  destruct (Z.eq_dec span 0) as [->|]; [lia|].
  assert (span * u ≤ span * (2 ^ 53 - 1)) by (apply Z.mul_le_mono_nonneg_l; lia). lia.
Qed.

Section policies.
Context {A : Type} `{Countable A}.
Implicit Types (p : Policies A).

(** A draw changes the generator only. *)
Definition same_tables p p' : Prop :=
  by_addr p' = by_addr p ∧ tcp_by_addr p' = tcp_by_addr p ∧ stalls p' = stalls p.

Lemma unit_draw_spec p : 0 ≤ (unit_draw p).1 < 2 ^ 53 ∧ same_tables p (unit_draw p).2.
Proof.
  unfold unit_draw. pose proof (unit_range (rng p)). destruct (SplitMix64.unit (rng p)). done.
Qed.

Lemma jitter_draw_spec span p : 0 ≤ span →
  0 ≤ (jitter_draw span p).1 ≤ span ∧ same_tables p (jitter_draw span p).2.
Proof.
  intros Hs. unfold jitter_draw. destruct (Z.eqb_spec span 0); [done|].
  pose proof (unit_draw_spec p) as [Hu Ht]. destruct (unit_draw p) as [u p']. cbn [fst snd] in *.
  split; [by apply mul_f64_range|done].
Qed.

Lemma chance_spec rate p : same_tables p (chance rate p).2.
Proof.
  unfold chance. destruct (rate_positive rate); [|done].
  pose proof (unit_draw_spec p) as [_ Ht]. by destruct (unit_draw p).
Qed.

Lemma same_tables_trans p1 p2 p3 : same_tables p1 p2 → same_tables p2 p3 → same_tables p1 p3.
Proof. unfold same_tables. intros (-> & -> & ->) (-> & -> & ->). done. Qed.

Lemma copies_delays_spec n (draw : Policies A → Z * Policies A) lo hi :
  (∀ p, lo ≤ (draw p).1 ≤ hi ∧ same_tables p (draw p).2) → ∀ p,
  length (copies_delays n draw p).1 = n ∧
  Forall (λ d, lo ≤ d ≤ hi) (copies_delays n draw p).1 ∧ same_tables p (copies_delays n draw p).2.
Proof.
  intros Hd. induction n as [|n IH]; intros p; cbn [copies_delays]; [split_and!; [done|constructor|done]|].
  destruct (Hd p) as [Hb Ht]. destruct (draw p) as [d p1]. destruct (IH p1) as (Hl & Hf & Ht').
  destruct (copies_delays n draw p1) as [ds p2]. cbn [fst snd length] in *.
  split_and!; [lia|by constructor|by eapply same_tables_trans].
Qed.

(** ** Deliveries *)

(** A policy whose durations are durations. *)
Definition policy_ok (q : UdpPolicy) : Prop := 0 ≤ latency q ∧ 0 ≤ jitter q.
Definition policies_ok p : Prop := map_Forall (λ _, policy_ok) (by_addr p).
Definition nic_policy_ok (q : NicPolicy) : Prop := 0 ≤ nic_latency q ∧ 0 ≤ nic_jitter q.

(** The policy in force at an address. *)
Definition policy_of p (to : A) : UdpPolicy := default udp_default (by_addr p !! to).

(** How many copies more or fewer than one a fault is. *)
Definition weight (f : LinkFault) : Z := match f with Duplicated => 1 | Lost | TooBig => -1 end.
Definition weights (fs : list LinkFault) : Z := foldr (λ f n, weight f + n) 0 fs.

Lemma weights_app fs gs : weights (fs ++ gs) = weights fs + weights gs.
Proof. induction fs as [|f fs IH]; [done|]. cbn. fold (weights (fs ++ gs)) (weights fs). lia. Qed.

(** One delivery: none, one or two copies, as the fault says, within the policy's delays. *)
Lemma deliveries_spec to len p : policies_ok p →
  let q := policy_of p to in
  ∃ ds f, (deliveries to len p).1 = Some (ds, f) ∧ delays_ok ds ∧
    (length (delays_list ds) ≤ 2)%nat ∧
    Z.of_nat (length (delays_list ds)) = 1 + weights (option_list f) ∧
    Forall (λ d, latency q ≤ d ≤ latency q + jitter q) (delays_list ds) ∧
    same_tables p (deliveries to len p).2.
Proof.
  intros Hp q. unfold deliveries, q, policy_of.
  destruct (by_addr p !! to) as [pol|] eqn:Hpol; cbn [default from_option].
  2: { exists (delays_one 0), None. split; [done|]. split; [split; cbn; lia|].
       split; [cbn; lia|]. split; [done|]. split; [|done]. constructor; [cbn; lia|constructor]. }
  pose proof (Hp _ _ Hpol) as [? ?].
  destruct (match mtu pol with Some _ => _ | None => _ end).
  { exists delays_default, (Some TooBig). split; [done|]. split; [done|]. split; [cbn; lia|].
    split; [done|]. split; [constructor|done]. }
  pose proof (chance_spec (loss_rate pol) p) as T1. destruct (chance (loss_rate pol) p) as [lost p1].
  cbn [snd] in T1. destruct lost.
  { exists delays_default, (Some Lost). split; [done|]. split; [done|]. split; [cbn; lia|].
    split; [done|]. split; [constructor|done]. }
  pose proof (chance_spec (duplicate_rate pol) p1) as T2.
  destruct (chance (duplicate_rate pol) p1) as [dup p2]. cbn [snd] in T2.
  match goal with |- context [copies_delays ?n ?draw p2] =>
    destruct (copies_delays_spec n draw (latency pol) (latency pol + jitter pol)
      ltac:(intros p'; pose proof (unit_draw_spec p') as [? ?]; destruct (unit_draw p') as [u ?];
            cbn [fst snd] in *; pose proof (mul_f64_range (jitter pol) u); split; [lia|done]) p2)
      as (Hl & Hf & T3);
    destruct (copies_delays n draw p2) as [ds p3]
  end. cbn [fst snd] in *.
  destruct (extend_fits ds delays_default delays_default_ok) as (s & E & Hs & Hlist).
  { cbn [dlen delays_default]. rewrite Hl. destruct dup; lia. }
  rewrite E. cbn [mbind option_bind]. change (delays_list delays_default ++ ds) with ds in Hlist.
  exists s, (if dup then Some Duplicated else None). rewrite Hlist, Hl.
  split; [done|]. split; [done|]. split; [destruct dup; lia|]. split; [by destruct dup|].
  split; [done|]. eapply same_tables_trans; [exact T1|]. by eapply same_tables_trans.
Qed.

Lemma length_delays_list s : delays_ok s → length (delays_list s) = dlen s.
Proof. intros [Hv Hl]. unfold delays_list. rewrite length_take, Hv. lia. Qed.

Lemma same_tables_ok p p' : same_tables p p' → policies_ok p → policies_ok p'.
Proof. unfold policies_ok. by intros (-> & _). Qed.

Lemma each_copy_spec to len lo hi base : Forall (λ d, lo ≤ d ≤ hi) base → ∀ delays faults p,
  policies_ok p → delays_ok delays → (dlen delays + 2 * length base ≤ 4)%nat →
  let q := policy_of p to in
  Forall (λ d, lo + latency q ≤ d ≤ hi + latency q + jitter q) (delays_list delays) →
  ∃ ds fs, (each_copy to len base delays faults p).1 = Some (ds, fs) ∧
    (length (delays_list ds) ≤ 4)%nat ∧
    Z.of_nat (length (delays_list ds)) - weights fs =
      Z.of_nat (length (delays_list delays)) - weights faults + Z.of_nat (length base) ∧
    Forall (λ d, lo + latency q ≤ d ≤ hi + latency q + jitter q) (delays_list ds) ∧
    same_tables p (each_copy to len base delays faults p).2.
Proof.
  induction 1 as [|first base Hfirst _ IH]; intros delays faults p Hp Hd Hfit q Hall.
  - exists delays, faults. cbn [each_copy length]. pose proof (length_delays_list _ Hd).
    destruct Hd as [_ Hd]. split_and!; [done|lia|lia|done|done..].
  - cbn [each_copy length] in *.
    destruct (deliveries_spec to len p Hp) as (more & fault & E & Hm & H2 & Hc & Hb & Ht).
    destruct (deliveries to len p) as [r p']. cbn [fst snd] in *. subst r.
    destruct (extend_fits (Z.add first <$> delays_list more) delays Hd) as (s & -> & Hs & Hlist).
    { rewrite length_fmap. lia. }
    assert (policy_of p' to = q) as Eq by (unfold q, policy_of; by destruct Ht as (-> & _)).
    pose proof (length_delays_list _ Hs) as Ls. pose proof (length_delays_list _ Hd) as Ld.
    rewrite Hlist, length_app, length_fmap in Ls.
    destruct (IH s (faults ++ match fault with Some f => [f] | None => [] end) p')
      as (ds & fs & Ec & H4 & Hcount & Hall' & Ht').
    { by eapply same_tables_ok. }
    { done. }
    { lia. }
    { rewrite Eq, Hlist. apply Forall_app. split; [done|]. apply Forall_fmap.
      eapply Forall_impl; [exact Hb|]. intros d Hdd. cbn in Hfirst, Hdd |- *. fold q in Hdd. lia. }
    exists ds, fs. rewrite Eq in Hall'. split_and!; [done|done| |done|by eapply same_tables_trans..].
    rewrite weights_app, Hlist, length_app, length_fmap in Hcount.
    assert (option_list fault = match fault with Some f => [f] | None => [] end) as Ef by by destruct fault.
    rewrite Ef in Hc. lia.
Qed.

Lemma link_deliveries_spec nic to len p :
  policies_ok p → (∀ n, nic = Some n → nic_policy_ok n) →
  let q := policy_of p to in
  let least := from_option nic_latency 0 nic + latency q in
  let spread := from_option nic_jitter 0 nic + jitter q in
  ∃ ds fs, (link_deliveries nic to len p).1 = Some (ds, fs) ∧
    (length (delays_list ds) ≤ 4)%nat ∧
    Z.of_nat (length (delays_list ds)) = 1 + weights fs ∧
    Forall (λ d, least ≤ d ≤ least + spread) (delays_list ds) ∧
    same_tables p (link_deliveries nic to len p).2.
Proof.
  intros Hp Hn q. destruct nic as [nic|]; cbn [link_deliveries from_option].
  2: { destruct (deliveries_spec to len p Hp) as (ds & f & E & _ & H2 & Hc & Hb & Ht).
       destruct (deliveries to len p) as [r p']. cbn [fst snd] in *. subst r.
       exists ds, (option_list f). split; [by destruct f|]. split; [lia|]. split; [done|]. split; [|done].
       eapply Forall_impl; [exact Hb|]. intros d Hd. cbn in Hd |- *. fold q in Hd. lia. }
  destruct (Hn nic eq_refl) as [? ?].
  pose proof (chance_spec (nic_loss_rate nic) p) as T1.
  destruct (chance (nic_loss_rate nic) p) as [lost p1]. cbn [snd] in T1. destruct lost.
  { exists delays_default, [Lost]. split; [done|]. split; [cbn; lia|]. split; [done|]. split; [constructor|done]. }
  pose proof (chance_spec (nic_duplicate_rate nic) p1) as T2.
  destruct (chance (nic_duplicate_rate nic) p1) as [dup p2]. cbn [snd] in T2.
  match goal with |- context [copies_delays ?n ?draw p2] =>
    destruct (copies_delays_spec n draw (nic_latency nic) (nic_latency nic + nic_jitter nic)
      ltac:(intros p'; pose proof (jitter_draw_spec (nic_jitter nic) p' ltac:(done)) as [? ?];
            destruct (jitter_draw _ p') as [u ?]; cbn [fst snd] in *; split; [lia|done]) p2)
      as (Hl & Hf & T3);
    destruct (copies_delays n draw p2) as [base p3]
  end. cbn [fst snd] in *.
  destruct (extend_fits base delays_default delays_default_ok) as (s & -> & Hs & Hlist).
  { cbn [dlen delays_default]. rewrite Hl. destruct dup; lia. }
  change (delays_list delays_default ++ base) with base in Hlist. rewrite Hlist.
  assert (same_tables p p3) as Tp by (do 2 (eapply same_tables_trans; [eassumption|]); done).
  assert (policy_of p3 to = q) as Eq by (unfold q, policy_of; by destruct Tp as (-> & _)).
  destruct (each_copy_spec to len _ _ base Hf delays_default (if dup then [Duplicated] else []) p3)
    as (ds & fs & E & H4 & Hc & Hb & Ht).
  { by eapply same_tables_ok. }
  { done. }
  { cbn [dlen delays_default]. rewrite Hl. destruct dup; lia. }
  { constructor. }
  exists ds, fs. split; [done|]. split; [done|]. rewrite Eq in Hb. split_and!.
  - cbn in Hc. rewrite Hl in Hc. destruct dup; cbn in Hc; lia.
  - eapply Forall_impl; [exact Hb|]. intros d Hd. cbn in *. lia.
  - by eapply same_tables_trans.
Qed.

(** a datagram that crosses a link never overruns the four inline delays; its copies are one,
    plus one for each duplication and less one for each loss reported, and each takes at least the
    latencies of the interface and the address and at most their jitters more. *)
Theorem deliveries_accounted nic to len p :
  policies_ok p → (∀ n, nic = Some n → nic_policy_ok n) →
  let q := policy_of p to in
  let least := from_option nic_latency 0 nic + latency q in
  let spread := from_option nic_jitter 0 nic + jitter q in
  ∃ ds fs, (link_deliveries nic to len p).1 = Some (ds, fs) ∧
    (length (delays_list ds) ≤ 4)%nat ∧
    Z.of_nat (length (delays_list ds)) = 1 + weights fs ∧
    Forall (λ d, least ≤ d ≤ least + spread) (delays_list ds).
Proof. intros Hp Hn. destruct (link_deliveries_spec nic to len p Hp Hn) as (ds & fs & E & H4 & Hc & Hb & _). by exists ds, fs. Qed.

End policies.

Lemma deliveries_accounted_witness :
  let p := mk_policies (A := Z) {[ 9000 := mk_udp 1000 500 (1 # 4) (1 # 2) None None ]} ∅ ∅ 42 in
  let nic := Some (mk_nic_policy 2000 100 0 1) in
  ∃ ds fs, (link_deliveries nic 9000 64 p).1 = Some (ds, fs) ∧
    (length (delays_list ds) ≤ 4)%nat ∧ Z.of_nat (length (delays_list ds)) = 1 + weights fs ∧
    Forall (λ d, 3000 ≤ d ≤ 3600) (delays_list ds).
Proof.
  pose proof (deliveries_accounted (Some (mk_nic_policy 2000 100 0 1)) 9000 64
    (mk_policies (A := Z) {[ 9000 := mk_udp 1000 500 (1 # 4) (1 # 2) None None ]} ∅ ∅ 42)) as Hacc.
  apply Hacc.
  - apply map_Forall_singleton. split; cbn; lia.
  - intros n [= <-]. split; cbn; lia.
Defined.

(** ** Stalls: theorems

    On macOS a stall keeps the history of its windows, and [effective_arrival] walks two of them.
    The history says at every instant what the latest stall before it said, and the walk finds the
    first instant at which neither end is stalled. *)

(** *** Histories *)

(** Some window of [h] covers [t]. *)
Definition covered (h : list StallWindow) (t : Z) : Prop := ∃ w, w ∈ h ∧ since w ≤ t < until w.

(** A history: windows of some length, each after the one before it. *)
Record history_ok (h : list StallWindow) : Prop := {
  windows_nonempty : Forall (λ w, since w < until w) h;
  windows_apart : StronglySorted (λ v w, until v ≤ since w) h;
}.

Lemma covered_app h k t : covered (h ++ k) t ↔ covered h t ∨ covered k t.
Proof. unfold covered. setoid_rewrite elem_of_app. naive_solver. Qed.

Lemma covered_one w t : covered [w] t ↔ since w ≤ t < until w.
Proof. unfold covered. setoid_rewrite list_elem_of_singleton. naive_solver. Qed.

Lemma history_snoc h w :
  history_ok (h ++ [w]) ↔ history_ok h ∧ since w < until w ∧ Forall (λ v, until v ≤ since w) h.
Proof.
  split.
  - intros [Hn Ha]. apply Forall_app in Hn as [Hn Hw]. rewrite Forall_singleton in Hw.
    apply StronglySorted_app in Ha as (Hx & Ha & _).
    split_and!; [by split|exact Hw|]. rewrite list.Forall_forall. intros v Hv. apply Hx; [done|].
    by apply list_elem_of_singleton.
  - intros ([Hn Ha] & Hw & Hall). split.
    + apply Forall_app. split; [done|]. by apply Forall_singleton.
    + apply StronglySorted_app. split_and!; [|done|by repeat constructor].
      intros v v' Hv Hv'. apply list_elem_of_singleton in Hv' as ->.
      rewrite list.Forall_forall in Hall. by apply Hall.
Qed.

Lemma history_nil : history_ok [].
Proof. split; constructor. Qed.

(** The windows started by [s]. *)
Definition started (s : Z) (h : list StallWindow) : Prop := Forall (λ w, since w ≤ s) h.

(** Before [s] the history is as it was; from [s] on the new window is all there is. *)
Lemma replace_stall_spec s u h :
  history_ok h → started s h →
  let h' := replace_stall s u h in
  history_ok h' ∧ started s h' ∧ ∀ t, covered h' t ↔ if decide (t < s) then covered h t else t < u.
Proof.
  intros Hok Hs.
  (* what is left once the last window is cut at [s] *)
  assert (∃ k, replace_stall s u h = (if s <? u then k ++ [mk_window s u] else k) ∧
    history_ok k ∧ started s k ∧ Forall (λ w, until w ≤ s) k ∧
    ∀ t, covered k t ↔ covered h t ∧ t < s) as (k & -> & Hk & Hks & Hkc & Hcov).
  { unfold replace_stall. destruct h as [|w h _] using rev_ind.
    { exists []. split; [by destruct (s <? u)|]. split; [apply history_nil|]. split; [constructor|].
      split; [constructor|]. intros t. unfold covered. setoid_rewrite elem_of_nil. naive_solver. }
    apply history_snoc in Hok as (Hh & Hw & Hall). apply Forall_app in Hs as [Hs Hsw].
    rewrite Forall_singleton in Hsw. rewrite last_snoc, take_app_last.
    assert (Forall (λ w, until w ≤ s) h) as Hend.
    { eapply Forall_impl; [exact Hall|]. cbn. lia. }
    assert (∀ t, covered h t → t < s) as Hlt.
    { intros t (v & Hv & ?). rewrite list.Forall_forall in Hend. specialize (Hend v Hv). cbn in Hend. lia. }
    destruct (Z.ltb_spec s (until w)); [destruct (Z.leb_spec s (since w))|].
    - exists h. split; [done|]. split; [done|]. split; [done|]. split; [done|].
      intros t. rewrite covered_app, covered_one. split; [auto|]. intros [[?|?] ?]; [done|lia].
    - exists (h ++ [mk_window (since w) s]). split; [done|]. split.
      { apply history_snoc. cbn. auto. }
      split; [apply Forall_app; split; [done|by apply Forall_singleton]|].
      split; [apply Forall_app; split; [done|apply Forall_singleton; cbn; lia]|].
      intros t. rewrite !covered_app, !covered_one. cbn. split.
      + intros [Ht|?]; [auto|]. split; [right; lia|lia].
      + intros [[?|?] ?]; [auto|right; lia].
    - exists (h ++ [w]). split; [done|]. split; [by apply history_snoc|].
      split; [apply Forall_app; split; [done|by apply Forall_singleton]|].
      split; [apply Forall_app; split; [done|by apply Forall_singleton]|].
      intros t. rewrite !covered_app, !covered_one. split; [|tauto].
      intros [?|?]; (split; [auto|]); [auto|lia]. }
  destruct (Z.ltb_spec s u).
  - split; [apply history_snoc; cbn; auto|].
    split; [apply Forall_app; split; [done|apply Forall_singleton; cbn; lia]|].
    intros t. rewrite covered_app, covered_one, Hcov. cbn. case_decide; [intuition lia|]. intuition lia.
  - split; [done|]. split; [done|]. intros t. rewrite Hcov. case_decide; intuition lia.
Qed.

(** *** What the stalls of an end say *)

(** Stalls as they were set: when, and until when. *)
Abbreviation commands := (list (Z * Z)).

Definition replay (cs : commands) (h : list StallWindow) : list StallWindow :=
  foldl (λ h c, replace_stall c.1 c.2 h) h cs.

(** The stall in force at [t]: the last one set by then. *)
Definition in_force (cs : commands) (t : Z) : option Z :=
  snd <$> last (filter (λ c, c.1 ≤ t) cs).

Definition stalled (cs : commands) (t : Z) : Prop := ∃ u, in_force cs t = Some u ∧ t < u.

(** Stalls are set as time goes. *)
Abbreviation in_order cs := (StronglySorted Z.le (cs.*1)) (only parsing).

Lemma in_force_snoc cs s u t :
  in_force (cs ++ [(s, u)]) t = if decide (s ≤ t) then Some u else in_force cs t.
Proof.
  unfold in_force. rewrite filter_app. case_decide as Hs.
  - rewrite filter_cons_True by done. change (filter _ []) with (@nil (Z * Z)). by rewrite last_snoc.
  - rewrite filter_cons_False by done. change (filter _ []) with (@nil (Z * Z)). by rewrite app_nil_r.
Qed.

(** The history holds exactly what the stalls in force say. *)
Lemma replay_spec cs : in_order cs →
  history_ok (replay cs []) ∧ (∀ s, Forall (λ c, c.1 ≤ s) cs → started s (replay cs [])) ∧
  ∀ t, covered (replay cs []) t ↔ stalled cs t.
Proof.
  induction cs as [|[s u] cs IH] using rev_ind; intros Hord.
  - cbn. split; [apply history_nil|]. split; [constructor|]. intros t. unfold covered, stalled.
    setoid_rewrite elem_of_nil. cbn. naive_solver.
  - rewrite fmap_app in Hord. apply StronglySorted_app in Hord as (Hle & Hord & _).
    destruct (IH Hord) as (Hok & Hst & Hcov). clear IH.
    assert (Forall (λ c, c.1 ≤ s) cs) as Hs.
    { rewrite list.Forall_forall. intros c Hc. apply Hle; [|by apply elem_of_cons; left].
      by apply list_elem_of_fmap_2. }
    unfold replay. rewrite foldl_app. cbn [foldl fst snd]. fold (replay cs []).
    destruct (replace_stall_spec s u (replay cs []) Hok (Hst s Hs)) as (Hok' & Hst' & Hcov').
    split; [done|]. split.
    + intros s' Hs'. apply Forall_app in Hs' as [_ Hs']. rewrite Forall_singleton in Hs'. cbn in Hs'.
      eapply Forall_impl; [exact Hst'|]. cbn. lia.
    + intros t. rewrite Hcov'. unfold stalled. rewrite in_force_snoc.
      case_decide as Ht; case_decide as Ht'; try lia.
      * rewrite Hcov. done.
      * split; [by exists u|]. by intros (? & [= ->] & ?).
Qed.

(** *** The walk *)

Abbreviation by_since := (StronglySorted (λ v w, since v ≤ since w)) (only parsing).

Lemma history_by_since h : history_ok h → by_since h.
Proof.
  intros [Hn Ha]. induction Ha as [|w h _ IH Hall]; [constructor|].
  apply Forall_cons in Hn as [Hw Hn]. constructor; [by apply IH|].
  eapply Forall_impl; [exact Hall|]. cbn. lia.
Qed.

(** The walk from [at_] passes covered instants only and stops at one that no window covers. *)
Definition first_free (h : list StallWindow) (at_ r : Z) : Prop :=
  at_ ≤ r ∧ ¬ covered h r ∧ ∀ t, at_ ≤ t < r → covered h t.

(** One turn of the walk, over whichever window starts first. *)
Lemma walk_step w rest at_ r :
  Forall (λ v, since w ≤ since v) rest →
  (¬ (at_ < since w) → first_free rest (if at_ <? until w then until w else at_) r) →
  first_free (w :: rest) at_ (if at_ <? since w then at_ else r).
Proof.
  intros Hw IH. unfold first_free. setoid_rewrite (covered_app [w] rest). setoid_rewrite covered_one.
  destruct (Z.ltb_spec at_ (since w)).
  - split; [lia|]. split; [|lia]. intros [?|(v & Hv & ?)]; [lia|].
    rewrite list.Forall_forall in Hw. specialize (Hw v Hv). cbn in Hw. lia.
  - destruct (IH ltac:(lia)) as (Hr & Hfree & Hcov). destruct (Z.ltb_spec at_ (until w)).
    + split; [lia|]. split; [intros [?|?]; [lia|done]|]. intros t Ht.
      destruct (Z.lt_ge_cases t (until w)); [left; lia|right; apply Hcov; lia].
    + split; [lia|]. split; [intros [?|?]; [lia|done]|]. intros t Ht. right. apply Hcov. lia.
Qed.

Lemma first_free_perm h k at_ r : h ≡ₚ k → first_free h at_ r → first_free k at_ r.
Proof.
  intros Hp. unfold first_free, covered. setoid_rewrite Hp. done.
Qed.

Lemma walk_spec fuel : ∀ send receive at_,
  by_since send → by_since receive → (length send + length receive ≤ fuel)%nat →
  first_free (send ++ receive) at_ (arrive_after fuel send receive at_).
Proof.
  induction fuel as [|fuel IH]; intros send receive at_ Hs Hr Hf.
  - destruct send, receive; cbn in Hf; try lia. cbn. unfold first_free, covered.
    setoid_rewrite elem_of_nil. split; [lia|]. split; [naive_solver|lia].
  - cbn [arrive_after]. destruct send as [|a send], receive as [|b receive].
    + unfold first_free, covered. setoid_rewrite elem_of_nil. split; [lia|]. split; [naive_solver|lia].
    + inversion Hr; subst. cbn [app length] in *. apply walk_step; [done|]. intros _.
      apply (IH [] receive); [done|done|cbn; lia].
    + inversion Hs; subst. cbn [app length] in *. apply walk_step; [by rewrite app_nil_r|]. intros _.
      apply IH; [done|done|cbn; lia].
    + inversion Hs; inversion Hr; subst. cbn [length] in *.
      destruct (Z.leb_spec (since a) (since b)).
      * apply walk_step.
        -- apply Forall_app. split; [done|]. constructor; [done|].
           eapply Forall_impl; [eassumption|]. cbn. lia.
        -- intros _. apply IH; [done|done|cbn; lia].
      * apply (first_free_perm (b :: (a :: send) ++ receive)); [apply Permutation_middle|]. apply walk_step.
        -- cbn. constructor; [lia|]. apply Forall_app. split; [|done].
           eapply Forall_impl; [eassumption|]. cbn. lia.
        -- intros _. apply (IH (a :: send) receive); [done|done|cbn; lia].
Qed.

(** *** The theorem *)

Section stalls.
Context {A : Type} `{Countable A}.

(** A sim's stalls: whose, which way, when and until when. *)
Record stall_command := mk_command { whose : A; way : Direction; from_ : Z; till : Z }.

Definition set_stalls (cs : list stall_command) (p : Policies A) : Policies A :=
  foldl (λ p c, stall_at (whose c) (way c) (from_ c) (till c) p) p cs.

(** Those that stall what an end sends, and what it receives. *)
Definition sends_of (a : A) (cs : list stall_command) : commands :=
  (λ c, (from_ c, till c)) <$> filter (λ c, whose c = a ∧ (covers (way c)).2 = true) cs.
Definition receives_of (a : A) (cs : list stall_command) : commands :=
  (λ c, (from_ c, till c)) <$> filter (λ c, whose c = a ∧ (covers (way c)).1 = true) cs.

Definition stall_of (p : Policies A) (a : A) : Stall := default stall_default (stalls p !! a).

Lemma set_stalls_history seed cs a :
  send_history (stall_of (set_stalls cs (with_seed seed)) a) = replay (sends_of a cs) [] ∧
  receive_history (stall_of (set_stalls cs (with_seed seed)) a) = replay (receives_of a cs) [].
Proof.
  unfold set_stalls, sends_of, receives_of. induction cs as [|c cs IH] using rev_ind; [done|].
  rewrite foldl_app, !filter_app, !fmap_app. cbn [foldl]. set (p := foldl _ _ cs) in *.
  unfold replay in *. rewrite !foldl_app. destruct IH as [IHs IHr]. rewrite <- IHs, <- IHr.
  unfold stall_of, stall_at, put_stall. destruct c as [b d f t]. cbn [whose way from_ till].
  destruct (covers d) as [rv sn] eqn:Ed. cbn [stalls].
  destruct (decide (b = a)) as [->|Hne].
  - rewrite lookup_insert_eq. cbn [default from_option send_history receive_history]. split.
    + destruct sn.
      * rewrite filter_cons_True by (cbn; by rewrite Ed). done.
      * rewrite filter_cons_False by (cbn; rewrite Ed; by intros [_ ?]). done.
    + destruct rv.
      * rewrite filter_cons_True by (cbn; by rewrite Ed). done.
      * rewrite filter_cons_False by (cbn; rewrite Ed; by intros [_ ?]). done.
  - rewrite lookup_insert_ne by done.
    rewrite !filter_cons_False by (cbn; by intros [? _]). done.
Qed.

Lemma commands_in_order cs P `{∀ c, Decision (P c)} :
  StronglySorted Z.le (from_ <$> cs) → in_order ((λ c, (from_ c, till c)) <$> filter P cs).
Proof.
  induction cs as [|c cs IH]; intros Hs; [constructor|]. inversion Hs as [|? ? Hs' Hall]; subst.
  destruct (decide (P c)).
  - rewrite filter_cons_True by done. cbn. constructor; [by apply IH|].
    rewrite list.Forall_forall in *. intros x (y & -> & (c' & -> & Hc')%list_elem_of_fmap)%list_elem_of_fmap.
    cbn. apply Hall. apply list_elem_of_filter in Hc' as [_ Hc']. by apply list_elem_of_fmap_2.
  - rewrite filter_cons_False by done. by apply IH.
Qed.

(** whatever stalls were set, in the order of time, traffic due at [at_] arrives at the first
    instant from then on at which neither the sender's sends nor the receiver's receives are
    stalled, each as the last stall set by that instant says. *)
Theorem arrival_after_stalls seed (cs : list stall_command) (from to : A) (at_ : Z) :
  StronglySorted Z.le (from_ <$> cs) →
  let r := effective_arrival from to at_ (set_stalls cs (with_seed seed)) in
  let held t := stalled (sends_of from cs) t ∨ stalled (receives_of to cs) t in
  at_ ≤ r ∧ ¬ held r ∧ ∀ t, at_ ≤ t < r → held t.
Proof.
  intros Hord. cbv zeta. set (p := set_stalls cs (with_seed seed)).
  pose proof (set_stalls_history seed cs from) as [Es _]. pose proof (set_stalls_history seed cs to) as [_ Er].
  fold p in Es, Er.
  destruct (replay_spec (sends_of from cs)) as (Hs & _ & Cs); [by apply commands_in_order|].
  destruct (replay_spec (receives_of to cs)) as (Hr & _ & Cr); [by apply commands_in_order|].
  unfold effective_arrival.
  assert (match stalls p !! from with Some s => send_history s | None => [] end = replay (sends_of from cs) []) as ->
    by (rewrite <- Es; unfold stall_of; by destruct (stalls p !! from)).
  assert (match stalls p !! to with Some s => receive_history s | None => [] end = replay (receives_of to cs) []) as ->
    by (rewrite <- Er; unfold stall_of; by destruct (stalls p !! to)).
  pose proof (walk_spec _ _ _ at_ (history_by_since _ Hs) (history_by_since _ Hr) (le_n _)) as Hw.
  unfold first_free in Hw. setoid_rewrite covered_app in Hw.
  setoid_rewrite Cs in Hw. setoid_rewrite Cr in Hw. exact Hw.
Qed.

End stalls.

Lemma arrival_after_stalls_witness :
  let cs := [mk_command 1 Both 10 30; mk_command 2 Receive 20 50; mk_command 1 Send 25 28] in
  effective_arrival 1 2 12 (set_stalls cs (with_seed 0)) = 50 ∧
  ¬ (stalled (sends_of 1 cs) 50 ∨ stalled (receives_of 2 cs) 50).
Proof.
  set (cs := [mk_command 1 Both 10 30; mk_command 2 Receive 20 50; mk_command 1 Send 25 28]).
  split; [by vm_compute|].
  refine (proj1 (proj2 (arrival_after_stalls 0 cs 1 2 12 _))). cbn. repeat constructor; lia.
Defined.
