(* ===== verification/SockBuf.v ===== *)
(** * Socket buffers

    The socket-buffer half of crates/snare/src/limits.rs: what a datagram costs a receive buffer on
    each host ([RxAccount], [linux_truesize]), whether it is admitted ([SockBuf]), and what
    SO_RCVBUF and SO_SNDBUF store ([sockbuf_value]). Sizes are [usize]s as [Z]. *)

From S2P Require Import Prelude Bytes.

(** ** Charges *)

Record Charge := mk_charge { mem : Z; cc : Z }.
Definition charge_default : Charge := mk_charge 0 0.

Record RxAccount := mk_account {
  rmem_alloc : Z; queued : Z; queued_bytes : Z; acc_cc : Z; seen : bool;
}.
Definition account_default : RxAccount := mk_account 0 0 0 0 false.

Definition SK_BUFF_SIZE : Z := 256.

(** [linux_truesize] *)
Definition linux_truesize (len : Z) (v6 : bool) (skb : Z * Z) : Z :=
  let '(small, overhead) := skb in
  let need := len + (if v6 then 13 else 0) + overhead in
  if need <? small - SK_BUFF_SIZE then small
  else match find_first (λ class, need <? class) [1024; 2048; 4096; 8192] with
  | Some class => class + SK_BUFF_SIZE
  | None => if need <? 16384 - 1 then 16384 + SK_BUFF_SIZE else len + small
  end.

Definition UDP_HEADER : Z := 8.

(** The loop of [linux_truesize_fragmented] over what is left to carry *)
Fixpoint fragments (fuel : nat) (rest max_fragment : Z) (v6 : bool) (skb : Z * Z) : Z :=
  match fuel with
  | O => 0
  | S fuel =>
      if 0 <? rest then
        let fragment := Z.min rest max_fragment in
        let as_datagram := if v6 then fragment else sat_sub fragment UDP_HEADER in
        linux_truesize as_datagram v6 skb + fragments fuel (rest - fragment) max_fragment v6 skb
      else 0
  end.

(** [linux_truesize_fragmented]; at least eight bytes go with each fragment *)
Definition linux_truesize_fragmented (len : Z) (v6 : bool) (skb : Z * Z) (mtu : option Z) : Z :=
  let ip_header := if v6 then 40 + 8 else 20 in
  let unfragmented := (if v6 then 40 else 20) + UDP_HEADER + len in
  match mtu with
  | Some m =>
      if (m <? unfragmented) && (ip_header + 8 <? m) then
        fragments (Z.to_nat (UDP_HEADER + len)) (UDP_HEADER + len) (Z.ldiff (m - ip_header) 7) v6 skb
      else linux_truesize len v6 skb
  | None => linux_truesize len v6 skb
  end.

Definition SB_EFFICIENCY : Z := 8.
Definition MBUF_SLACK : Z := 448.
(** [mac::record], [mac::mbufs] *)
Definition record (len : Z) (seen : bool) : Z := len + 16 + (if seen then 16 else 0).
Definition mbufs (len : Z) : Z := if len <=? 200 then 1536 else 3584.

(** [RxAccount::charge] *)
Definition charge (os : target_os) (len : Z) (v6 : bool) (skb : Z * Z) (mtu : option Z) (a : RxAccount)
    : Charge :=
  match os with
  | Linux => mk_charge (linux_truesize_fragmented len v6 skb mtu) 0
  | MacOs => mk_charge (mbufs len) (record len (seen a))
  | Windows => mk_charge len 0
  end.

(** [RxAccount::fits] *)
Definition fits (os : target_os) (rcvbuf : Z) (sb_max : Z) (overshoot : bool) (c : Charge) (a : RxAccount)
    : bool :=
  let rcvbuf := Z.max rcvbuf 0 in
  match os with
  | Linux =>
      if overshoot then rmem_alloc a <=? rcvbuf
      else (rmem_alloc a =? 0) || (rmem_alloc a + mem c <=? rcvbuf)
  | MacOs =>
      let mbmax := Z.min (sat_mul rcvbuf SB_EFFICIENCY) sb_max in
      (cc c <=? sat_sub rcvbuf (acc_cc a)) && (rmem_alloc a <? sat_add mbmax MBUF_SLACK)
  | Windows => queued_bytes a <? rcvbuf
  end.

(** [RxAccount::take] and [give_back] *)
Definition take_charge (len : Z) (c : Charge) (a : RxAccount) : RxAccount :=
  mk_account (rmem_alloc a + mem c) (queued a + 1) (queued_bytes a + len) (acc_cc a + cc c) true.
Definition give_back (len : Z) (c : Charge) (a : RxAccount) : RxAccount :=
  mk_account (sat_sub (rmem_alloc a) (mem c)) (sat_sub (queued a) 1)
    (sat_sub (queued_bytes a) len) (sat_sub (acc_cc a) (cc c)) (seen a).

(** ** [SockBuf] *)

(** The fields of [SysLimits] a socket's buffers come from *)
Record SysLimits := mk_limits {
  rmem_default : Z; rmem_max : Z; wmem_default : Z; wmem_max : Z;
  tcp_rmem_default : Z; tcp_wmem_default : Z; sockbuf_reject_at : Z;
  enforce_rcvbuf : bool; udp_rcvbuf_overshoot : bool;
  skb_small_truesize : Z; skb_head_overhead : Z;
}.

(** [SysLimits::host] *)
Definition host_limits (os : target_os) : SysLimits :=
  match os with
  | MacOs => mk_limits 786896 8388608 9216 8388608 131072 131072 u64_max true false 960 378
  | Linux => mk_limits 212992 (Z.shiftl 4 20) 212992 (Z.shiftl 4 20) 131072 16384 u64_max true false 960 378
  | Windows => mk_limits 65536 u64_max 65536 u64_max 65536 65536 u64_max true false 960 378
  end.

Inductive SocketKind := Udp | TcpStream | TcpListener | OtherKind.

#[export] Instance SocketKind_eq_dec : EqDecision SocketKind.
Proof. solve_decision. Defined.

Record SockBuf := mk_sockbuf {
  rcvbuf : Z; sndbuf : Z; rcv_locked : bool; enforce : bool; enforce_error : bool; error_mem : Z;
  sb_max : Z; overshoot : bool; skb : Z * Z; rx : RxAccount;
  overflowed : Z; drops : Z; rxq_ovfl : bool;
}.

(** [as_opt] *)
Definition as_opt (v : Z) : Z := Z.min v i32_max.

(** [SockBuf::new] *)
Definition new_sockbuf (k : SocketKind) (l : SysLimits) : SockBuf :=
  let tcp := bool_decide (k = TcpStream) || bool_decide (k = TcpListener) in
  mk_sockbuf (as_opt (if tcp then tcp_rmem_default l else rmem_default l))
    (as_opt (if tcp then tcp_wmem_default l else wmem_default l)) false
    (enforce_rcvbuf l && bool_decide (k = Udp)) (enforce_rcvbuf l) 0 (rmem_max l)
    (udp_rcvbuf_overshoot l) (skb_small_truesize l, skb_head_overhead l) account_default 0 0 false.

Definition with_rx (a : RxAccount) (e : Z) (b : SockBuf) : SockBuf :=
  mk_sockbuf (rcvbuf b) (sndbuf b) (rcv_locked b) (enforce b) (enforce_error b) e (sb_max b)
    (overshoot b) (skb b) a (overflowed b) (drops b) (rxq_ovfl b).
Definition with_drop (b : SockBuf) : SockBuf :=
  mk_sockbuf (rcvbuf b) (sndbuf b) (rcv_locked b) (enforce b) (enforce_error b) (error_mem b) (sb_max b)
    (overshoot b) (skb b) (rx b) (overflowed b + 1) (as_u32 (drops b + 1)) (rxq_ovfl b).
Definition with_sizes (r s : Z) (locked : bool) (b : SockBuf) : SockBuf :=
  mk_sockbuf r s locked (enforce b) (enforce_error b) (error_mem b) (sb_max b)
    (overshoot b) (skb b) (rx b) (overflowed b) (drops b) (rxq_ovfl b).

Inductive Buf := Rcv | Snd.

(** [SockBuf::set] and [inherit] *)
Definition set_buf (os : target_os) (which : Buf) (value : Z) (b : SockBuf) : SockBuf :=
  match which with
  | Rcv => with_sizes value (sndbuf b) (is_linux os || rcv_locked b) b
  | Snd => with_sizes (rcvbuf b) value (rcv_locked b) b
  end.
Definition inherit (os : target_os) (listener b : SockBuf) : SockBuf :=
  with_sizes (rcvbuf listener) (sndbuf listener)
    (if is_linux os then rcv_locked listener else rcv_locked b) b.

(** [tcp_send_space] and [tcp_recv_space] *)
Definition tcp_send_space (b : SockBuf) : Z := Z.max (sndbuf b) 0.
Definition tcp_recv_space (os : target_os) (b : SockBuf) : Z :=
  let r := Z.max (rcvbuf b) 0 in if is_windows os then sat_mul r 2 else r.

(** [SockBuf::admit] *)
Definition admit_dg (os : target_os) (len : Z) (v6 : bool) (mtu : option Z) (b : SockBuf)
    : option (Charge * Z) * SockBuf :=
  let c := charge os len v6 (skb b) mtu (rx b) in
  if enforce b && negb (fits os (rcvbuf b) (sb_max b) (overshoot b) c (rx b)) then (None, with_drop b)
  else (Some (c, if rxq_ovfl b then drops b else 0), with_rx (take_charge len c (rx b)) (error_mem b) b).

(** [SockBuf::consumed] *)
Definition consumed (len : Z) (c : Charge) (b : SockBuf) : SockBuf :=
  with_rx (give_back len c (rx b)) (error_mem b) b.

Definition with_rmem (m : Z) (a : RxAccount) : RxAccount :=
  mk_account m (queued a) (queued_bytes a) (acc_cc a) (seen a).

(** [error_charge], [take_tcp], [consume_tcp] *)
Definition error_charge (len : Z) (v6 : bool) (b : SockBuf) : Z := linux_truesize len v6 (skb b).
Definition take_tcp (len : Z) (b : SockBuf) : Z * SockBuf :=
  let c := sat_add (fst (skb b)) len in
  (c, with_rx (with_rmem (sat_add (rmem_alloc (rx b)) c) (rx b)) (error_mem b) b).
Definition consume_tcp (c : Z) (b : SockBuf) : SockBuf :=
  with_rx (with_rmem (sat_sub (rmem_alloc (rx b)) c) (rx b)) (error_mem b) b.

(** [admit_error] and [consume_error] *)
Definition admit_error (c : Z) (b : SockBuf) : bool * SockBuf :=
  if enforce_error b && (Z.max (rcvbuf b) 0 <=? sat_add (rmem_alloc (rx b)) c) then (false, b)
  else (true, with_rx (with_rmem (rmem_alloc (rx b) + c) (rx b)) (error_mem b + c) b).
Definition consume_error (c : Z) (b : SockBuf) : SockBuf :=
  with_rx (with_rmem (sat_sub (rmem_alloc (rx b)) c) (rx b)) (sat_sub (error_mem b) c) b.

(** ** [sockbuf_value] *)

Definition SOCK_MIN_RCVBUF : Z := 2304.
Definition SOCK_MIN_SNDBUF : Z := 4608.

Definition sockbuf_value (os : target_os) (l : SysLimits) (which : Buf) (val current : Z) (forced : bool)
    : errno + Z :=
  let max := match which with Rcv => rmem_max l | Snd => wmem_max l end in
  match os with
  | Linux =>
      let floor := match which with Rcv => SOCK_MIN_RCVBUF | Snd => SOCK_MIN_SNDBUF end in
      let v := if forced then Z.max val 0 else Z.min (as_u32 val) (Z.min max u32_max) in
      let v := Z.min v (i32_max / 2) in
      inr (Z.max (v * 2) floor)
  | MacOs =>
      if val <=? 0 then inl EINVAL
      else if sockbuf_reject_at l <=? val then inl ENOBUFS
      else if (max <? val) && (max <=? wrap_u64 current) then inl ENOBUFS
      else inr (as_opt (Z.min val max))
  | Windows => inr val
  end.
