(* ===== verification/RxQueue.v ===== *)
(** * The receive path of a datagram socket

    [RxQueue] of crates/snare/src/limits.rs, datagrams in flight and landed, with the part of
    [SockRec] (crates/snare/src/sockets.rs) it admits them through: the buffer, the error reports
    that share it on Linux, and the counters of crates/snare/src/netstats.rs, which all sockets
    share. A record may be absent (a tester's endpoint, which has no buffer limit). The link's losses
    ([Arrival::lost]) come from outside. Every operation is given the instant [now]. *)

From S2P Require Import Prelude Bytes SockBuf.

(** ** Error reports *)

(** [IcmpReport] and [TxReport], of what concerns the receive buffer *)
Record Report := mk_report { rp_visible : option Z; rp_order : Z * Z; rp_charge : Z; rp_charged : bool }.
(** [ErrorOrder]: the instant, then the number *)
Definition order_lt (x y : Z * Z) : bool := (x.1 <? y.1) || ((x.1 =? y.1) && (x.2 <? y.2)).

(** [filter] and [min_by_key]: the first of those [p] accepts whose order is least, with its place *)
Fixpoint earliest (p : Report → bool) (l : list Report) : option (nat * Report) :=
  match l with
  | [] => None
  | r :: l =>
      let rest := (λ '(i, r), (S i, r)) <$> earliest p l in
      if p r then match rest with Some (i, r') => if order_lt (rp_order r') (rp_order r) then Some (i, r') else Some (O, r) | None => Some (O, r) end
      else rest
  end.
Definition set_charged (r : Report) : Report := mk_report (rp_visible r) (rp_order r) (rp_charge r) true.

(** Whether the report to look at is the transmit report rather than the ICMP one *)
Definition tx_first (tx icmp : option (nat * Report)) : bool :=
  match tx, icmp with
  | Some (_, t), Some (_, m) => order_lt (rp_order t) (rp_order m)
  | Some _, None => true
  | None, _ => false
  end.

(** The two queues of reports and the buffer they are charged to *)
Record Reports := mk_reports { errq : list Report; txq : list Report; rbuf : SockBuf }.
Definition is_due (now : Z) (until : option Z) (r : Report) : bool :=
  negb (rp_charged r) && match rp_visible r with None => true | Some t => t <=? now end && match until with None => true | Some u => fst (rp_order r) <=? u end.
(** [admit_error] of the report at [i]: it stays charged, or is dropped *)
Definition settle_report (i : nat) (r : Report) (l : list Report) (b : SockBuf) : list Report * SockBuf :=
  let '(ok, b) := admit_error (rp_charge r) b in (if ok then <[i := set_charged r]> l else delete i l, b).
(** The loop of [SockState::land_errors] *)
Fixpoint land_loop (fuel : nat) (now : Z) (until : option Z) (s : Reports) : Reports :=
  match fuel with
  | O => s
  | S fuel =>
      let icmp := earliest (is_due now until) (errq s) in
      let tx := earliest (is_due now until) (txq s) in
      if tx_first tx icmp then
        match tx with
        | Some (i, r) => let '(l, b) := settle_report i r (txq s) (rbuf s) in land_loop fuel now until (mk_reports (errq s) l b)
        | None => s
        end
      else
        match icmp with
        | Some (i, r) => let '(l, b) := settle_report i r (errq s) (rbuf s) in land_loop fuel now until (mk_reports l (txq s) b)
        | None => s
        end
  end.
Definition waits_report (r : Report) : bool := negb (rp_charged r).
Definition land_reports (now : Z) (until : option Z) (s : Reports) : Reports :=
  land_loop (length (retain waits_report (errq s ++ txq s))) now until s.

(** ** Counters *)

(** [UdpMib], of what a datagram received counts, and [ProtoStats] *)
Record UdpMib := mk_mib { mib_received : Z; mib_rcvbuf_errors : Z; mib_read : Z }.
Record ProtoStats := mk_stats { udp4 : UdpMib; udp6 : UdpMib }.
(** [ProtoStats::udp], of the family of a source on the wire *)
Definition count_udp (v6 : bool) (f : UdpMib → UdpMib) (st : ProtoStats) : ProtoStats :=
  if v6 then mk_stats (udp4 st) (f (udp6 st)) else mk_stats (f (udp4 st)) (udp6 st).

Section rxqueue.
Context {A : Type} `{EqDecision A}.
Context (os : target_os).

(** A datagram, [Arrival]; its [tag] stands for its bytes, [src_wire_v6] for [is_v6] of its source, by which it is counted: an IPv4-mapped one counts as IPv4 *)
Record datagram := mk_datagram {
  tag : Z; src : A; src_v6 : bool; src_wire_v6 : bool; payload : Z; arrives : option Z; path_mtu : option Z;
}.

(** [Queued] *)
Record queued_dg := mk_queued { dg : datagram; qcharge : Charge; qdrops : Z }.

Record RxQueue := mk_rxqueue {
  in_flight : list (Z * datagram); landed_q : list queued_dg; seq_no : Z; landed : Z;
}.
Definition rxqueue_default : RxQueue := mk_rxqueue [] [] 0 0.

(** The part of [SockRec] and its [SockState] a datagram goes through *)
Record SockRec := mk_rec {
  rec_udp : bool; station : bool; peer : option A; reports : Reports; next_data : Z; delivered : Z; delivered_bytes : Z;
}.
Definition buf (r : SockRec) : SockBuf := rbuf (reports r).

Definition with_reports (s : Reports) (r : SockRec) : SockRec :=
  mk_rec (rec_udp r) (station r) (peer r) s (next_data r) (delivered r) (delivered_bytes r).
Definition with_buf (b : SockBuf) (r : SockRec) : SockRec := with_reports (mk_reports (errq (reports r)) (txq (reports r)) b) r.

(** [land_errors] of a record *)
Definition land_errors (now : Z) (until : option Z) (r : SockRec) : SockRec := with_reports (land_reports now until (reports r)) r.
(** [SockRec::state]: the record locked, its error reports landed up to the next datagram to come *)
Definition locked (now : Z) (r : SockRec) : SockRec :=
  if is_linux os then
    if next_data r =? u64_max then land_errors now None r
    else if negb (next_data r =? 0) then land_errors now (Some (next_data r - 1)) r
    else r
  else r.
(** [set_data_arrival] and [note_data_arrival] *)
Definition with_next (n : Z) (r : SockRec) : SockRec :=
  mk_rec (rec_udp r) (station r) (peer r) (reports r) n (delivered r) (delivered_bytes r).
Definition set_data_arrival (t : option Z) (r : SockRec) : SockRec :=
  with_next (match t with None => u64_max | Some t => Z.min t (u64_max - 1) end) r.
Definition note_data_arrival (t : Z) (r : SockRec) : SockRec := with_next (Z.min (next_data r) (Z.min t (u64_max - 1))) r.

(** [SockRec::admit] *)
Definition rec_admit (now : Z) (d : datagram) (r : SockRec) (st : ProtoStats) : option (Charge * Z) * SockRec * ProtoStats :=
  let r := if is_linux os then land_errors now (arrives d) r else r in
  if rec_udp r && match peer r with Some p => bool_decide (p ≠ src d) | None => false end then (None, r, st)
  else
    let '(admitted, b) := admit_dg os (payload d) (src_v6 d) (path_mtu d) (buf r) in
    let ok := bool_decide (is_Some admitted) in
    let r := with_buf b r in
    (admitted,
     mk_rec (rec_udp r) (station r) (peer r) (reports r) (next_data r) (delivered r + b2z ok) (delivered_bytes r + if ok then payload d else 0),
     if rec_udp r && negb (station r) then
       count_udp (src_wire_v6 d) (λ m, mk_mib (mib_received m + b2z ok) (mib_rcvbuf_errors m + b2z (negb ok)) (mib_read m)) st
     else st).

(** [SockRec::consumed] *)
Definition rec_consumed (now : Z) (q : queued_dg) (r : SockRec) (st : ProtoStats) : SockRec * ProtoStats :=
  let r := locked now r in
  (with_buf (consumed (payload (dg q)) (qcharge q) (buf r)) r,
   if rec_udp r && negb (station r) then
     count_udp (src_wire_v6 (dg q)) (λ m, mk_mib (mib_received m) (mib_rcvbuf_errors m) (mib_read m + 1)) st
   else st).

(** [queue_icmp_report], of a payload of [len] bytes, and a transmit report queued with its charge *)
Definition queue_icmp_report (now : Z) (visible : option Z) (order : Z * Z) (len : Z) (v6 : bool) (r : SockRec) : SockRec :=
  let r := locked now r in
  let len := Z.min len (if v6 then 1184 else 520) in
  let c := error_charge (len + if v6 then 48 else 28) v6 (buf r) in
  with_reports (mk_reports (errq (reports r) ++ [mk_report visible order c false]) (txq (reports r)) (buf r)) r.
Definition queue_tx_report (now : Z) (visible : option Z) (order : Z * Z) (c : Z) (r : SockRec) : SockRec :=
  let r := locked now r in
  with_reports (mk_reports (errq (reports r)) (txq (reports r) ++ [mk_report visible order c false]) (buf r)) r.
(** [pop_error_report] *)
Definition pop_error_report (now : Z) (r : SockRec) : option Report * SockRec :=
  let r := locked now r in
  let s := reports r in
  let icmp := earliest rp_charged (errq s) in
  let tx := earliest rp_charged (txq s) in
  if tx_first tx icmp then
    match tx with
    | Some (i, t) => (Some t, with_reports (mk_reports (errq s) (delete i (txq s)) (consume_error (rp_charge t) (rbuf s))) r)
    | None => (None, r)
    end
  else
    match icmp with
    | Some (i, m) => (Some m, with_reports (mk_reports (delete i (errq s)) (txq s) (consume_error (rp_charge m) (rbuf s))) r)
    | None => (None, r)
    end.

(** ** [impl RxQueue] *)

Definition state : Type := RxQueue * (option SockRec * ProtoStats).

(** [enqueue] *)
Definition enqueue (now : Z) (d : datagram) (s : state) : state :=
  let '(q, (rec, st)) := s in
  let '(admitted, w) :=
    match rec with
    | Some r => let '(a, r, st) := rec_admit now d r st in (a, (Some r, st))
    | None => (Some (charge_default, 0), (None, st))
    end in
  match admitted with
  | Some (c, n) =>
      (mk_rxqueue (in_flight q) (landed_q q ++ [mk_queued d c n]) (seq_no q) (landed q + 1), w)
  | None => (q, w)
  end.

(** The order of [sort_by_key(|(seq, dg)| (arrives, seq))]; no arrival sorts first *)
Definition due_le (x y : Z * datagram) : bool :=
  match arrives (snd x), arrives (snd y) with
  | None, None => fst x <=? fst y
  | None, Some _ => true
  | Some _, None => false
  | Some a, Some b => (a <? b) || ((a =? b) && (fst x <=? fst y))
  end.

Fixpoint insert_due (x : Z * datagram) (l : list (Z * datagram)) : list (Z * datagram) :=
  match l with
  | [] => [x]
  | y :: l => if due_le x y then x :: y :: l else y :: insert_due x l
  end.
Definition sort_due (l : list (Z * datagram)) : list (Z * datagram) := foldr insert_due [] l.

(** [track_arrival]: when the first datagram still in flight arrives *)
Definition earliest_arrival (l : list (Z * datagram)) : option Z :=
  foldr (λ e m, match arrives (snd e), m with Some t, Some u => Some (Z.min t u) | Some t, None => Some t | None, m => m end) None l.
Definition track_arrival (s : state) : state :=
  let '(q, (rec, st)) := s in
  (q, (if is_linux os then set_data_arrival (earliest_arrival (in_flight q)) <$> rec else rec, st)).

(** [land_when]; [arrived] says what is due and [lost] whose link went down *)
Definition land_when (now : Z) (arrived lost : datagram → bool) (s : state) : state :=
  let '(q, w) := s in
  match in_flight q with
  | [] => s
  | _ =>
      let due := retain (λ e, arrived (snd e)) (in_flight q) in
      let rest := retain (λ e, negb (arrived (snd e))) (in_flight q) in
      let due := retain (λ e, negb (lost (snd e))) due in
      track_arrival (foldl (λ s e, enqueue now (snd e) s) (mk_rxqueue rest (landed_q q) (seq_no q) (landed q), w)
        (sort_due due))
  end.

(** [land] at instant [now] *)
Definition arrived_by (now : Z) (d : datagram) : bool :=
  match arrives d with None => true | Some t => t <=? now end.
Definition land (now : Z) (lost : datagram → bool) (s : state) : state :=
  land_when now (arrived_by now) lost s.

(** [push] *)
Definition push (now : Z) (lost : datagram → bool) (d : datagram) (s : state) : state :=
  let '(q, (rec, st)) := s in
  let seq := seq_no q + 1 in
  match arrives d with
  | Some t =>
      (mk_rxqueue (in_flight q ++ [(seq, d)]) (landed_q q) seq (landed q),
       (if is_linux os then note_data_arrival t <$> rec else rec, st))
  | None => enqueue now d (land now lost (mk_rxqueue (in_flight q) (landed_q q) seq (landed q), (rec, st)))
  end.

(** [pop_landed] and [pop] *)
Definition pop_landed (now : Z) (accept : A → bool) (s : state) : option (datagram * Z) * state :=
  let '(q, (rec, st)) := s in
  match position (λ e, accept (src (dg e))) (landed_q q) with
  | None => (None, s)
  | Some i =>
      match landed_q q !! i with
      | None => (None, s)
      | Some e =>
          (Some (dg e, qdrops e),
           (mk_rxqueue (in_flight q) (delete i (landed_q q)) (seq_no q) (landed q),
            match rec with Some r => let '(r, st) := rec_consumed now e r st in (Some r, st) | None => (None, st) end))
      end
  end.
Definition pop (now : Z) (lost : datagram → bool) (accept : A → bool) (s : state)
    : option (datagram * Z) * state :=
  pop_landed now accept (land now lost s).

(** [peek], [has], [next_len], [landed], [queued] *)
Definition peek (now : Z) (lost : datagram → bool) (accept : A → bool) (s : state)
    : option (datagram * Z) * state :=
  let s := land now lost s in
  ((λ e, (dg e, qdrops e)) <$> find_first (λ e, accept (src (dg e))) (landed_q (fst s)), s).
Definition has (now : Z) (lost : datagram → bool) (accept : A → bool) (s : state) : bool * state :=
  let s := land now lost s in (existsb (λ e, accept (src (dg e))) (landed_q (fst s)), s).
Definition next_len (now : Z) (lost : datagram → bool) (s : state) : option Z * state :=
  let s := land now lost s in ((λ e, payload (dg e)) <$> head (landed_q (fst s)), s).
Definition landed_count (now : Z) (lost : datagram → bool) (s : state) : Z * state :=
  let s := land now lost s in (landed (fst s), s).
Definition queued_now (s : state) : Z * Z :=
  foldl (λ '(n, b) e, (n + 1, b + payload (dg e))) (0, 0) (landed_q (fst s)).

End rxqueue.
Arguments datagram A : clear implicits.
Arguments queued_dg A : clear implicits.
Arguments RxQueue A : clear implicits.
Arguments SockRec A : clear implicits.
Arguments state A : clear implicits.
