(* ===== verification/RxQueueProps.v ===== *)
(** * The receive path of a datagram socket: theorems

    The runs of a socket's receive path as a step relation, and what holds of every state they
    reach: the buffer's account is exactly what is queued, the queue is in arrival order, and on
    Linux it stays within SO_RCVBUF. *)

From S2P Require Import Prelude Bytes SockBuf RxQueue.

(** ** Sums *)

Definition total {E} (f : E → Z) (l : list E) : Z := foldr (λ e n, f e + n) 0 l.
Arguments total : simpl never.

Lemma total_nil {E} (f : E → Z) : total f [] = 0.
Proof. done. Qed.
Lemma total_cons {E} (f : E → Z) e l : total f (e :: l) = f e + total f l.
Proof. done. Qed.

Lemma total_app {E} (f : E → Z) l k : total f (l ++ k) = total f l + total f k.
Proof. induction l as [|e l IH]; [done|]. rewrite <- app_comm_cons, !total_cons. lia. Qed.

Lemma total_delete {E} (f : E → Z) l i e :
  l !! i = Some e → total f (delete i l) = total f l - f e.
Proof.
  intros He. rewrite delete_take_drop, total_app.
  assert (total f l = total f (take i l) + (f e + total f (drop (S i) l))) as ->; [|lia].
  rewrite <- (take_drop_middle l i e He) at 1. by rewrite total_app, total_cons.
Qed.

Lemma total_nonneg {E} (f : E → Z) l : Forall (λ e, 0 ≤ f e) l → 0 ≤ total f l.
Proof. induction 1 as [|e l He _ IH]; [done|]. rewrite total_cons. lia. Qed.

Lemma total_elem {E} (f : E → Z) l i e : Forall (λ e, 0 ≤ f e) l → l !! i = Some e → f e ≤ total f l.
Proof.
  intros Hl He. pose proof (total_delete f l i e He) as Hd.
  assert (0 ≤ total f (delete i l)) by by apply total_nonneg, Forall_delete. lia.
Qed.

(** ** Charges *)

Definition skb_ok (skb : Z * Z) : Prop := 256 ≤ fst skb ∧ 0 ≤ snd skb.

Lemma linux_truesize_nonneg len v6 skb : 0 ≤ len → skb_ok skb → 0 < linux_truesize len v6 skb.
Proof.
  intros Hl [H1 H2]. destruct skb as [small overhead]; cbn in *. unfold linux_truesize, SK_BUFF_SIZE.
  cbn [find_first]. repeat case_match; simplify_eq; lia.
Qed.

Lemma fragments_nonneg fuel rest m v6 skb : 0 < m → skb_ok skb → 0 ≤ fragments fuel rest m v6 skb.
Proof.
  intros Hm Hs. revert rest. induction fuel as [|fuel IH]; intros rest; [done|]. cbn [fragments].
  destruct (Z.ltb_spec 0 rest); [|done]. specialize (IH (rest - Z.min rest m)).
  assert (0 ≤ (if v6 then Z.min rest m else sat_sub (Z.min rest m) UDP_HEADER)) by (destruct v6; lia).
  pose proof (linux_truesize_nonneg _ v6 skb H0 Hs). lia.
Qed.

Lemma charge_nonneg os len v6 skb mtu a :
  0 ≤ len → skb_ok skb → 0 ≤ mem (charge os len v6 skb mtu a) ∧ 0 ≤ cc (charge os len v6 skb mtu a).
Proof.
  intros Hl Hs. destruct os; cbn [charge mem cc]; unfold mbufs, record.
  - split; [|done]. pose proof (linux_truesize_nonneg len v6 skb Hl Hs).
    unfold linux_truesize_fragmented. destruct mtu as [m|]; [|lia]. case_match; [|lia].
    apply fragments_nonneg; [|done]. rewrite Z.ldiff_land.
    assert (∃ k, m - (if v6 then 40 + 8 else 20) = k ∧ 8 < k) as (k & -> & Hk) by (eexists; split; [done|]; destruct v6; lia).
    change (Z.lnot 7) with (Z.lnot (Z.ones 3)). rewrite <- Z.ldiff_land, Z.ldiff_ones_r by lia.
    rewrite Z.shiftl_mul_pow2, Z.shiftr_div_pow2 by lia. change (2 ^ 3) with 8. dlia.
  - destruct (len <=? 200), (seen a); lia.
  - lia.
Qed.

(** ** Runs *)

Section run.
Context {A : Type} `{EqDecision A}.
Context (os : target_os).
Implicit Types (s : state A) (q : RxQueue A) (d : datagram A) (r : SockRec A).

(** When each datagram was sent, by its tag; the tags number the datagrams sent to the socket. *)
Context (sent : Z → Z).

(** A datagram sent at [now], the next to the socket of [q]: it arrives at once or later. *)
Definition sent_next (now : Z) q d : Prop :=
  tag d = seq_no q + 1 ∧ sent (tag d) = now ∧ 0 ≤ payload d ∧ ∀ t, arrives d = Some t → now ≤ t.

(** The largest value SO_RCVBUF is given *)
Context (M : Z).

(** Time passes; a datagram is sent; the socket is read, or looked at; an error report is queued, or read; the socket is connected or bound elsewhere, or SO_RCVBUF
    is set; and the other sockets of the host count what they receive. *)
Inductive rx_step : Z * state A → Z * state A → Prop :=
  | step_time now now' s : now ≤ now' → rx_step (now, s) (now', s)
  | step_push now lost d s : sent_next now (fst s) d → rx_step (now, s) (now, push os now lost d s)
  | step_land now lost s : rx_step (now, s) (now, land os now lost s)
  | step_pop now lost accept s : rx_step (now, s) (now, (pop os now lost accept s).2)
  | step_icmp now visible order len v6 q r st : os = Linux → 0 ≤ len →
      rx_step (now, (q, (Some r, st))) (now, (q, (Some (queue_icmp_report os now visible order len v6 r), st)))
  | step_tx now visible order c q r st : os = Linux → 0 ≤ c →
      rx_step (now, (q, (Some r, st))) (now, (q, (Some (queue_tx_report os now visible order c r), st)))
  | step_report_read now q r st : os = Linux →
      rx_step (now, (q, (Some r, st))) (now, (q, (Some (pop_error_report os now r).2, st)))
  | step_lock now q r st : rx_step (now, (q, (Some r, st))) (now, (q, (Some (locked os now r), st)))
  | step_address now q r st stn p : let r' := locked os now r in
      rx_step (now, (q, (Some r, st))) (now, (q, (Some (mk_rec (rec_udp r') stn p (reports r') (next_data r') (delivered r') (delivered_bytes r')), st)))
  | step_rcvbuf now v q r st : v ≤ M → let r' := locked os now r in
      rx_step (now, (q, (Some r, st))) (now, (q, (Some (with_buf (set_buf os Rcv v (buf r')) r'), st)))
  | step_others now q rec st st' : rx_step (now, (q, (rec, st))) (now, (q, (rec, st'))).

(** ** Sorting *)

Lemma insert_due_perm (x : Z * datagram A) l : insert_due x l ≡ₚ x :: l.
Proof.
  induction l as [|y l IH]; [done|]. cbn. destruct (due_le x y); [done|]. rewrite IH. constructor.
Qed.

Lemma sort_due_perm (l : list (Z * datagram A)) : sort_due l ≡ₚ l.
Proof. induction l as [|x l IH]; [done|]. cbn. by rewrite insert_due_perm, IH. Qed.

Lemma due_le_total (x y : Z * datagram A) : due_le x y = false → due_le y x = true.
Proof. unfold due_le. destruct (arrives x.2), (arrives y.2); lia || done. Qed.

Lemma due_le_trans (x y z : Z * datagram A) : due_le x y = true → due_le y z = true → due_le x z = true.
Proof. unfold due_le. destruct (arrives x.2), (arrives y.2), (arrives z.2); lia || done. Qed.

Lemma sort_due_sorted (l : list (Z * datagram A)) : StronglySorted (λ x y, due_le x y = true) (sort_due l).
Proof.
  induction l as [|x l IH]; [constructor|]. cbn [sort_due foldr]. fold (sort_due l).
  induction IH as [|y k Hk IHk Hy]; cbn [insert_due]; [by repeat constructor|].
  destruct (due_le x y) eqn:Hxy.
  - constructor; [by constructor|]. constructor; [done|].
    eapply Forall_impl; [exact Hy|]. intros z Hz. by eapply due_le_trans.
  - constructor; [done|]. rewrite insert_due_perm. constructor; [by apply due_le_total|done].
Qed.

(** ** One datagram *)

(** What [enqueue] does to the queue: nothing, or it goes behind what is there. *)
Lemma enqueue_queue now d q rec :
  ∃ l, (enqueue os now d (q, rec)).1 = mk_rxqueue (in_flight q) (landed_q q ++ l) (seq_no q) (landed q + Z.of_nat (length l))
    ∧ (l = [] ∨ ∃ c n, l = [mk_queued d c n]).
Proof.
  unfold enqueue. destruct rec as [rec st]. destruct (match rec with Some _ => _ | None => _ end) as [[[c n]|] w].
  - exists [mk_queued d c n]. split; [done|]. right. by exists c, n.
  - exists []. rewrite app_nil_r, Z.add_0_r. destruct q. cbn. auto.
Qed.

(** ** Arrival order *)

(** When a datagram is received, in the order of arrival: its instant, then its number. *)
Definition due (d : datagram A) : Z := default (sent (tag d)) (arrives d).
Definition before (d d' : datagram A) : Prop := due d < due d' ∨ due d = due d' ∧ tag d < tag d'.

Record ordered (now n : Z) (q : RxQueue A) : Prop := {
  o_flight : Forall (λ e, fst e = tag (snd e) ∧ is_Some (arrives (snd e)) ∧ tag (snd e) ≤ n) (in_flight q);
  o_distinct : NoDup ((in_flight q).*1);
  o_landed : Forall (λ e, due (dg e) ≤ now ∧ tag (dg e) ≤ n) (landed_q q);
  o_sorted : StronglySorted before (dg <$> landed_q q);
  o_cross : ∀ e f, e ∈ landed_q q → f ∈ in_flight q → before (dg e) (snd f);
}.

Lemma before_snoc l d :
  StronglySorted before (dg <$> l) → Forall (λ e : queued_dg A, before (dg e) d) l → ∀ c n,
  StronglySorted before (dg <$> l ++ [mk_queued d c n]).
Proof.
  intros Hs Hl c n. rewrite fmap_app. apply StronglySorted_app. split_and!; [|done|by repeat constructor].
  intros x y (e & -> & He)%list_elem_of_fmap Hy. apply list_elem_of_singleton in Hy as ->. cbn.
  rewrite list.Forall_forall in Hl. by apply Hl.
Qed.

(** The due datagrams, first to last, each behind everything landed. *)
Lemma land_loop_ordered now n es : ∀ q rec,
  ordered now n q → StronglySorted (λ x y : Z * datagram A, before (snd x) (snd y)) es →
  Forall (λ e, fst e = tag (snd e) ∧ due (snd e) ≤ now ∧ tag (snd e) ≤ n) es →
  (∀ e f, e ∈ es → f ∈ in_flight q → before (snd e) (snd f)) →
  (∀ e f, e ∈ landed_q q → f ∈ es → before (dg e) (snd f)) →
  let s' := foldl (λ s e, enqueue os now (snd e) s) (q, rec) es in
  ordered now n s'.1 ∧ in_flight s'.1 = in_flight q ∧ seq_no s'.1 = seq_no q.
Proof.
  induction es as [|e es IH]; intros q rec Hq Hs Hes Hcross Hland; [done|].
  cbn [foldl]. inversion Hs as [|? ? Hs' Hbefore]; subst. apply Forall_cons in Hes as [(Ht & Hd & Hn) Hes].
  destruct (enqueue_queue now (snd e) q rec) as (l & E & Hl).
  destruct (enqueue os now (snd e) (q, rec)) as [q1 rec1]. cbn [fst] in E. subst q1.
  assert (∀ x, x ∈ l → dg x = snd e) as Hx.
  { intros x Hx. destruct Hl as [->|(c & k & ->)]; [by apply elem_of_nil in Hx|].
    by apply list_elem_of_singleton in Hx as ->. }
  destruct (IH (mk_rxqueue (in_flight q) (landed_q q ++ l) (seq_no q) (landed q + Z.of_nat (length l))) rec1)
    as (H1 & H2 & H3); [|done|done| | |done].
  - destruct Hq. split; cbn [in_flight landed_q seq_no]; try done.
    + apply Forall_app. split; [done|]. rewrite list.Forall_forall. intros x ->%Hx. auto.
    + destruct Hl as [->|(c & k & ->)]; [by rewrite app_nil_r|]. apply before_snoc; [done|].
      rewrite list.Forall_forall. intros x Hx'. apply Hland; [done|]. apply elem_of_cons. by left.
    + intros x f [Hx'|Hx']%elem_of_app Hf; [auto|]. rewrite (Hx x Hx').
      apply Hcross; [|done]. apply elem_of_cons. by left.
  - intros x f Hx' Hf. apply Hcross; [|done]. apply elem_of_cons. by right.
  - intros x f [Hx'|Hx']%elem_of_app Hf.
    + apply Hland; [done|]. apply elem_of_cons. by right.
    + rewrite (Hx x Hx'). rewrite list.Forall_forall in Hbefore. by apply Hbefore.
Qed.

Lemma sorted_before (es : list (Z * datagram A)) :
  StronglySorted (λ x y, due_le x y = true) es → NoDup (es.*1) →
  Forall (λ e, fst e = tag (snd e) ∧ is_Some (arrives (snd e))) es →
  StronglySorted (λ x y, before (snd x) (snd y)) es.
Proof.
  induction 1 as [|x es _ IH Hx]; intros Hnd Hok; [constructor|].
  cbn in Hnd. apply NoDup_cons in Hnd as [Hnew Hnd]. apply Forall_cons in Hok as [(Hxt & [tx Htx]) Hok].
  constructor; [by apply IH|]. rewrite list.Forall_forall in *. intros y Hy.
  specialize (Hx y Hy). destruct (Hok y Hy) as (Hyt & [ty Hty]).
  assert (fst x ≠ fst y) by (intros E; apply Hnew; rewrite E; by apply list_elem_of_fmap_2).
  unfold due_le in Hx. unfold before, due. rewrite Htx, Hty in *. cbn. lia.
Qed.

Lemma retain_NoDup_fst (p : Z * datagram A → bool) l : NoDup (l.*1) → NoDup ((retain p l).*1).
Proof.
  induction l as [|x l IH]; [done|]. cbn. intros [Hx Hl]%NoDup_cons. destruct (p x); [|by apply IH].
  cbn. apply NoDup_cons. split; [|by apply IH]. intros (e & Ee & [He _]%elem_of_retain)%list_elem_of_fmap.
  apply Hx. rewrite Ee. by apply list_elem_of_fmap_2.
Qed.

Lemma track_queue (s : state A) : (track_arrival os s).1 = s.1.
Proof. by destruct s as [q [rec st]]. Qed.

Lemma land_ordered now n lost q rec :
  ordered now n q →
  let s' := land os now lost (q, rec) in
  ordered now n s'.1 ∧ seq_no s'.1 = seq_no q ∧ ∀ f, f ∈ in_flight s'.1 → ∀ t, arrives (snd f) = Some t → now < t.
Proof.
  intros Hq. unfold land, land_when. destruct (in_flight q) as [|e0 es0] eqn:Ef.
  { split; [done|]. split; [done|]. cbn. rewrite Ef. intros f Hf. by apply elem_of_nil in Hf. }
  cbn zeta. rewrite track_queue, <- Ef. set (es := sort_due _).
  assert (∀ e, e ∈ es → e ∈ in_flight q ∧ due (snd e) ≤ now) as Hes.
  { intros e He. unfold es in He. rewrite sort_due_perm in He.
    apply elem_of_retain in He as [[He Ha]%elem_of_retain _]. split; [done|].
    destruct (proj1 (list.Forall_forall _ _) (o_flight _ _ _ Hq) e He) as (_ & [t Ht] & _).
    unfold arrived_by in Ha. unfold due. rewrite Ht in *. cbn. lia. }
  destruct (land_loop_ordered now n es
    (mk_rxqueue (retain (λ e, negb (arrived_by now (snd e))) (in_flight q)) (landed_q q) (seq_no q) (landed q)) rec)
    as (H1 & H2 & H3).
  - destruct Hq. split; cbn [in_flight landed_q seq_no]; try done.
    + rewrite list.Forall_forall in *. intros e [He _]%elem_of_retain. auto.
    + by apply retain_NoDup_fst.
    + intros e f He [Hf _]%elem_of_retain. auto.
  - apply sorted_before.
    + apply sort_due_sorted.
    + unfold es. rewrite sort_due_perm. apply retain_NoDup_fst, retain_NoDup_fst, Hq.
    + rewrite list.Forall_forall. intros e [He _]%Hes.
      destruct (proj1 (list.Forall_forall _ _) (o_flight _ _ _ Hq) e He) as (? & ? & _). auto.
  - rewrite list.Forall_forall. intros e [He Hd]%Hes. cbn [seq_no].
    destruct (proj1 (list.Forall_forall _ _) (o_flight _ _ _ Hq) e He) as (? & _ & ?). auto.
  - cbn [in_flight]. intros e f [He Hd]%Hes [Hf Hp]%elem_of_retain. left.
    destruct (proj1 (list.Forall_forall _ _) (o_flight _ _ _ Hq) f Hf) as (_ & [t Ht] & _).
    assert (due (snd f) = t) as -> by (unfold due; by rewrite Ht).
    unfold arrived_by in Hp. rewrite Ht in Hp. lia.
  - cbn [landed_q]. intros e f He [Hf _]%Hes. by apply (o_cross _ _ _ Hq).
  - split; [done|]. cbn [in_flight seq_no] in H2, H3. rewrite H2, H3. split; [done|].
    intros f [Hf Hp]%elem_of_retain t Ht. unfold arrived_by in Hp. rewrite Ht in Hp. lia.
Qed.

Lemma ordered_later now now' n n' q : now ≤ now' → n ≤ n' → ordered now n q → ordered now' n' q.
Proof.
  intros Hle Hn []. split; try done.
  - eapply Forall_impl; [exact o_flight0|]. cbn. intros e (? & ? & ?). split; [done|split; [done|lia]].
  - eapply Forall_impl; [exact o_landed0|]. cbn. lia.
Qed.

Lemma enqueue_ordered now n d q rec :
  ordered now n q → due d ≤ now → tag d ≤ n →
  Forall (λ e, before (dg e) d) (landed_q q) → (∀ f, f ∈ in_flight q → before d (snd f)) →
  ordered now n (enqueue os now d (q, rec)).1.
Proof.
  intros Hq Hd Ht Hl Hf. destruct (enqueue_queue now d q rec) as (l & -> & Hc). destruct Hq.
  destruct Hc as [->|(c & k & ->)]; [by rewrite app_nil_r|].
  split; cbn [in_flight landed_q seq_no]; try done.
  - apply Forall_app. split; [done|]. by constructor.
  - by apply before_snoc.
  - intros e f [He|He]%elem_of_app Hf'; [auto|]. apply list_elem_of_singleton in He as ->. auto.
Qed.

Lemma pop_landed_ordered now n accept q rec :
  ordered now n q → ordered now n (pop_landed os now accept (q, rec)).2.1.
Proof.
  intros Hq. unfold pop_landed. destruct rec as [rec st]. destruct (position _ _) as [i|]; [|done].
  destruct (landed_q q !! i) as [e|] eqn:He; [|done]. destruct Hq. cbn [fst snd].
  assert (delete i (landed_q q) `sublist_of` landed_q q) as Hsub by apply sublist_delete.
  split; cbn [in_flight landed_q seq_no]; try done.
  - by apply Forall_delete.
  - rewrite delete_take_drop, fmap_app. rewrite <- (take_drop_middle _ _ _ He), fmap_app in o_sorted0.
    apply StronglySorted_app in o_sorted0 as (Hx & Ha & Hb). cbn in Hb. inversion Hb; subst.
    apply StronglySorted_app. split_and!; [|done|done]. intros x y Hx' Hy. apply Hx; [done|].
    apply elem_of_cons. by right.
  - intros x f Hx Hf. apply o_cross0; [|done]. by eapply elem_of_submseteq, sublist_submseteq.
Qed.

Lemma push_ordered now lost d q rec :
  ordered now (seq_no q) q → sent_next now q d →
  let s' := push os now lost d (q, rec) in ordered now (seq_no s'.1) s'.1.
Proof.
  intros Hq (Ht & Hs & _ & Ha). unfold push. destruct rec as [rec st]. destruct (arrives d) as [t|] eqn:Earr.
  - specialize (Ha t eq_refl). pose proof (ordered_later now now (seq_no q) (seq_no q + 1) q (Z.le_refl _) ltac:(lia) Hq) as [].
    split; cbn [in_flight landed_q seq_no fst]; try done.
    + apply Forall_app. split; [done|]. constructor; [|constructor].
      cbn. rewrite Earr. split; [done|split; [done|lia]].
    + rewrite fmap_app. apply NoDup_app. split_and!; [done| |by apply NoDup_singleton].
      intros x (e & -> & He)%list_elem_of_fmap Hx. apply list_elem_of_singleton in Hx.
      destruct (proj1 (list.Forall_forall _ _) (o_flight _ _ _ Hq) e He) as (? & _ & ?). cbn in Hx. lia.
    + intros e f He [Hf|Hf]%elem_of_app; [auto|]. apply list_elem_of_singleton in Hf as ->. cbn.
      destruct (proj1 (list.Forall_forall _ _) (o_landed _ _ _ Hq) e He). unfold before.
      assert (due d = t) as -> by (unfold due; by rewrite Earr). lia.
  - destruct (land_ordered now (seq_no q) lost (mk_rxqueue (in_flight q) (landed_q q) (seq_no q + 1) (landed q)) (rec, st))
      as (H1 & H2 & H3); [by destruct Hq|].
    destruct (land _ _ _ _) as [q1 rec1]. cbn [fst seq_no] in *.
    assert (due d = now) as Ed by (unfold due; by rewrite Earr).
    assert (seq_no (enqueue os now d (q1, rec1)).1 = tag d) as ->.
    { destruct (enqueue_queue now d q1 rec1) as (l & -> & _). cbn. lia. }
    apply enqueue_ordered.
    + eapply ordered_later; [| |exact H1]; lia.
    + lia.
    + lia.
    + rewrite list.Forall_forall. intros e He.
      destruct (proj1 (list.Forall_forall _ _) (o_landed _ _ _ H1) e He). unfold before. lia.
    + intros f Hf. destruct (proj1 (list.Forall_forall _ _) (o_flight _ _ _ H1) f Hf) as (_ & [t Ht'] & _).
      specialize (H3 f Hf t Ht'). left. rewrite Ed. unfold due. rewrite Ht'. done.
Qed.

Lemma rx_step_ordered w w' :
  rx_step w w' → ordered w.1 (seq_no (fst w.2)) (fst w.2) → ordered w'.1 (seq_no (fst w'.2)) (fst w'.2).
Proof.
  intros Hstep Hq.
  destruct Hstep as [now now' s Hle|now lost d [q rec] Hd|now lost [q rec]|now lost accept [q rec]| | | | | | |];
    cbn [fst snd] in *; try done.
  - by eapply ordered_later.
  - by apply push_ordered.
  - destruct (land_ordered now (seq_no q) lost q rec Hq) as (H1 & H2 & _). by rewrite H2.
  - destruct (land_ordered now (seq_no q) lost q rec Hq) as (H1 & H2 & _). unfold pop.
    destruct (land _ _ _ _) as [q1 rec1]. cbn [fst] in *. rewrite <- H2 in H1.
    pose proof (pop_landed_ordered now _ accept q1 rec1 H1) as H4.
    assert (seq_no (pop_landed os now accept (q1, rec1)).2.1 = seq_no q1) as ->; [|done].
    unfold pop_landed. destruct rec1. repeat case_match; done.
Qed.

(** ** The account *)

(** Whether the host is a Linux that bounds the queue, reports included, by SO_RCVBUF. *)
Definition bounded (b : SockBuf) : Prop :=
  os = Linux ∧ overshoot b = false ∧ enforce b = true ∧ enforce_error b = true.

Definition entry_ok (e : queued_dg A) : Prop :=
  0 ≤ mem (qcharge e) ∧ 0 ≤ cc (qcharge e) ∧ 0 ≤ payload (dg e) ∧ (os = Linux → 0 < mem (qcharge e)).

Definition report_ok (x : Report) : Prop := 0 ≤ rp_charge x.
(** What the reports that are charged take of the buffer *)
Definition charged_mem (l : list Report) : Z := total (λ x, if rp_charged x then rp_charge x else 0) l.

(** The buffer holds the datagrams [l] and the charged reports, and nothing else. *)
Record holds (l : list (queued_dg A)) (s : Reports) : Prop := {
  h_entries : Forall entry_ok l;
  h_reports : Forall report_ok (errq s) ∧ Forall report_ok (txq s);
  h_skb : skb_ok (skb (rbuf s)) ∧ rcvbuf (rbuf s) ≤ M ∧ M ≤ i32_max;
  h_error : error_mem (rbuf s) = charged_mem (errq s) + charged_mem (txq s);
  h_mem : rmem_alloc (rx (rbuf s)) = total (λ e, mem (qcharge e)) l + error_mem (rbuf s);
  h_cc : acc_cc (rx (rbuf s)) = total (λ e, cc (qcharge e)) l;
  h_queued : queued (rx (rbuf s)) = Z.of_nat (length l);
  h_bytes : queued_bytes (rx (rbuf s)) = total (λ e, payload (dg e)) l;
  h_bound : bounded (rbuf s) → rmem_alloc (rx (rbuf s)) ≤ Z.max M 0 ∨ (length l = 1%nat ∧ error_mem (rbuf s) = 0);
}.
Record accounted q r : Prop := {
  a_flight : Forall (λ e, 0 ≤ payload (snd e)) (in_flight q);
  a_holds : holds (landed_q q) (reports r);
  a_delivered : delivered r = landed q;
}.

Lemma total_insert {E} (f : E → Z) l i e x : l !! i = Some e → total f (<[i := x]> l) = total f l - f e + f x.
Proof.
  intros He. assert (i < length l)%nat as Hi by by eapply lookup_lt_Some. rewrite (insert_take_drop l i x Hi), total_app, total_cons.
  rewrite <- (take_drop_middle l i e He) at 3. rewrite total_app, total_cons. lia.
Qed.
Lemma charged_mem_nonneg l : Forall report_ok l → 0 ≤ charged_mem l.
Proof. intros H. apply total_nonneg. eapply Forall_impl; [exact H|]. intros x Hx. unfold report_ok in Hx. cbn in *. destruct (rp_charged x); lia. Qed.

Lemma earliest_spec p l i (r : Report) : earliest p l = Some (i, r) → l !! i = Some r ∧ p r = true.
Proof.
  revert i r. induction l as [|x l IH]; intros i r; [done|]. cbn. destruct (earliest p l) as [[j y]|]; cbn.
  - destruct (IH j y eq_refl). destruct (p x) eqn:Ep; [destruct (order_lt _ _)|]; intros [= <- <-]; done.
  - destruct (p x) eqn:Ep; [|done]. by intros [= <- <-].
Qed.
Lemma earliest_due now until l k x : earliest (is_due now until) l = Some (k, x) → l !! k = Some x ∧ rp_charged x = false.
Proof. intros [Hk Hd]%earliest_spec. split; [done|]. unfold is_due in Hd. by destruct (rp_charged x). Qed.
Lemma earliest_None p l : earliest p l = None → Forall (λ x, p x = false) l.
Proof.
  induction l as [|x l IH]; [constructor|]. cbn. destruct (earliest p l) as [[j y]|]; cbn; destruct (p x) eqn:Ep; try done.
  - by destruct (order_lt _ _).
  - intros _. constructor; [done|]. by apply IH.
Qed.

Lemma waits_delete i (r : Report) l : l !! i = Some r → rp_charged r = false → length (retain waits_report l) = S (length (retain waits_report (delete i l))).
Proof.
  intros Hi Hc. rewrite delete_take_drop. rewrite <- (take_drop_middle l i r Hi) at 1. rewrite !retain_app, !length_app. cbn. unfold waits_report at 2. rewrite Hc. cbn. lia.
Qed.
Lemma waits_insert i (r : Report) l : l !! i = Some r → rp_charged r = false → length (retain waits_report l) = S (length (retain waits_report (<[i := set_charged r]> l))).
Proof.
  intros Hi Hc. assert (i < length l)%nat as Hlt by by eapply lookup_lt_Some. rewrite (insert_take_drop l i _ Hlt). rewrite <- (take_drop_middle l i r Hi) at 1.
  rewrite !retain_app, !length_app. cbn. unfold waits_report at 2. rewrite Hc. cbn. lia.
Qed.

(** What settling one report does to a queue of them and to the buffer *)
Lemma settle_ok i (r : Report) l b l' b' : l !! i = Some r → rp_charged r = false → Forall report_ok l → settle_report i r l b = (l', b') →
  Forall report_ok l' ∧ length (retain waits_report l) = S (length (retain waits_report l')) ∧
  ∃ c, 0 ≤ c ∧ charged_mem l' = charged_mem l + c ∧ (b' = b ∧ c = 0 ∨ admit_error c b = (true, b')).
Proof.
  intros Hi Hc Hl. pose proof (Forall_lookup_1 _ _ _ _ Hl Hi) as Hr. unfold report_ok in Hr. unfold settle_report.
  assert (Forall report_ok (delete i l)) by by apply Forall_delete.
  assert (charged_mem (delete i l) = charged_mem l) as Hd by (unfold charged_mem; rewrite (total_delete _ _ _ _ Hi), Hc; lia).
  destruct (admit_error (rp_charge r) b) as [[] b1] eqn:E; intros [= <- <-].
  - split; [by apply Forall_insert|]. split; [by apply (waits_insert i r l)|]. exists (rp_charge r). split_and!; [done| |by right].
    unfold charged_mem. rewrite (total_insert _ _ _ _ _ Hi), Hc. cbn. lia.
  - split; [done|]. split; [by apply (waits_delete i r l)|]. exists 0. split_and!; [done|lia|]. left. split; [|done]. unfold admit_error in E. destruct (_ && _); congruence.
Qed.
Lemma charge_pos len v6 skb mtu a : 0 ≤ len → skb_ok skb → 0 < mem (charge Linux len v6 skb mtu a).
Proof.
  intros Hl Hs. pose proof (linux_truesize_nonneg len v6 skb Hl Hs). cbn [charge mem].
  unfold linux_truesize_fragmented. destruct mtu as [m|]; [|done]. case_match; [|done].
  unfold UDP_HEADER. replace (Z.to_nat (8 + len)) with (S (Z.to_nat (7 + len))) by lia.
  cbn [fragments]. unfold UDP_HEADER. destruct (Z.ltb_spec 0 (8 + len)); [|lia].
  set (m' := Z.ldiff _ 7).
  assert (0 < m').
  { unfold m'. change 7 with (Z.ones 3). rewrite Z.ldiff_ones_r by lia.
    rewrite Z.shiftl_mul_pow2, Z.shiftr_div_pow2 by lia. change (2 ^ 3) with 8.
    apply andb_true_iff in H0 as [_ H0]. destruct v6; dlia. }
  match goal with |- context [fragments ?f ?r _ _ _] => pose proof (fragments_nonneg f r m' v6 skb H2 Hs) end.
  assert (0 < linux_truesize (if v6 then Z.min (8 + len) m' else sat_sub (Z.min (8 + len) m') 8) v6 skb);
    [|lia]. apply linux_truesize_nonneg; [|done]. destruct v6; lia.
Qed.

Lemma admit_error_ok c l errq txq errq' txq' b b' : 0 ≤ c → admit_error c b = (true, b') → holds l (mk_reports errq txq b) →
  Forall report_ok errq' → Forall report_ok txq' →
  charged_mem errq' + charged_mem txq' = charged_mem errq + charged_mem txq + c → holds l (mk_reports errq' txq' b').
Proof.
  intros Hc E [H1 H2 (H3 & H4 & H5) H6 H7 H8 H9 H10 H11] He Ht Hs. cbn [RxQueue.errq RxQueue.txq rbuf] in *. unfold admit_error in E. destruct (_ && _) eqn:Efit; [done|]. injection E as <-.
  split; cbn; try done; try lia. intros (Ho & B1 & B2 & B3). cbn in *. rewrite B3 in Efit. cbn [andb] in Efit. left.
  assert (i32_max < u64_max) by done. unfold sat_add in Efit. lia.
Qed.

Lemma land_loop_ok now until fuel : ∀ l (s : Reports), holds l s → holds l (land_loop fuel now until s).
Proof.
  induction fuel as [|fuel IH]; intros l s Hs; cbn [land_loop]; [done|].
  assert (∀ (b : SockBuf) c errq' txq', Forall report_ok errq' → Forall report_ok txq' → 0 ≤ c →
    charged_mem errq' + charged_mem txq' = charged_mem (errq s) + charged_mem (txq s) + c →
    (b = rbuf s ∧ c = 0 ∨ admit_error c (rbuf s) = (true, b)) → holds l (mk_reports errq' txq' b)) as Hnew.
  { intros b c e' t' He Ht Hc Hsum [[-> ->]|E].
    - destruct Hs. split; cbn; try done. lia.
    - eapply admit_error_ok; try done. by destruct s. }
  destruct (h_reports _ _ Hs) as [Hre Hrt].
  destruct (earliest (is_due now until) (txq s)) as [[i r]|] eqn:Et, (earliest (is_due now until) (errq s)) as [[j m]|] eqn:Em; cbn [tx_first];
    try (destruct (order_lt _ _)); try done.
  all: match goal with |- context [settle_report ?k ?x ?q _] => destruct (settle_report k x q (rbuf s)) as [q' b'] eqn:E end; apply IH;
    match type of E with settle_report ?k ?x ?q _ = _ =>
      match goal with E' : earliest _ q = Some (k, x) |- _ => destruct (earliest_due _ _ _ _ _ E') as [Hk Hch] end;
      destruct (settle_ok k x q _ q' b' Hk Hch ltac:(done) E) as (Hq' & _ & c & Hc & Hsum & Hb) end; eapply (Hnew b' c); try done; lia.
Qed.

(** The fuel is enough: no report is left that is due. *)
Lemma land_reports_lands now until (s : Reports) : Forall report_ok (errq s) → Forall report_ok (txq s) →
  Forall (λ x, is_due now until x = false) (errq (land_reports now until s)) ∧ Forall (λ x, is_due now until x = false) (txq (land_reports now until s)).
Proof.
  unfold land_reports. generalize (Nat.le_refl (length (retain waits_report (errq s ++ txq s)))). generalize (length (retain waits_report (errq s ++ txq s))) at 2 3 4 as fuel.
  intros fuel. revert s. induction fuel as [|fuel IH]; intros s Hf He Ht; cbn [land_loop].
  - rewrite retain_app, length_app in Hf. assert (∀ l, length (retain waits_report l) = 0%nat → Forall (λ x, is_due now until x = false) l) as Hno.
    { intros l Hl. rewrite list.Forall_forall. intros r Hr. unfold is_due. destruct (rp_charged r) eqn:Ec; [done|]. assert (r ∈ retain waits_report l) as Hin by (apply elem_of_retain; split; [done|unfold waits_report; by rewrite Ec]).
      destruct (retain waits_report l); [by apply elem_of_nil in Hin|done]. }
    split; apply Hno; lia.
  - rewrite retain_app, length_app in Hf.
    destruct (earliest (is_due now until) (txq s)) as [[i r]|] eqn:Et, (earliest (is_due now until) (errq s)) as [[j m]|] eqn:Em; cbn [tx_first];
      try (destruct (order_lt _ _)); try (split; by apply earliest_None).
    all: match goal with |- context [settle_report ?k ?x ?q _] => destruct (settle_report k x q (rbuf s)) as [q' b'] eqn:E end; apply IH; try done;
      match type of E with settle_report ?k ?x ?q _ = _ =>
        match goal with E' : earliest _ q = Some (k, x) |- _ => destruct (earliest_due _ _ _ _ _ E') as [Hk Hch] end;
        destruct (settle_ok k x q _ q' b' Hk Hch ltac:(done) E) as (Hq' & Hlen & _) end; cbn; rewrite ?retain_app, ?length_app; done || lia.
Qed.

Lemma with_reports_ok q r (s : Reports) : accounted q r → holds (landed_q q) s → accounted q (with_reports s r).
Proof. intros [] H. by split. Qed.
Lemma land_errors_ok now until q r : accounted q r → accounted q (land_errors now until r).
Proof. intros Hr. apply with_reports_ok; [done|]. apply land_loop_ok, Hr. Qed.
Lemma locked_ok now q r : accounted q r → accounted q (locked os now r).
Proof. intros Hr. unfold locked. repeat case_match; try done; by apply land_errors_ok. Qed.
Lemma with_next_ok n q r : accounted q r → accounted q (with_next n r).
Proof. intros []. by split. Qed.

(** A report read gives back exactly what it was charged. *)
Lemma pop_error_report_ok now q r : accounted q r → accounted q (pop_error_report os now r).2.
Proof.
  intros Hr%(locked_ok now). unfold pop_error_report. set (r' := locked os now r) in *. pose proof (a_holds _ _ Hr) as [H1 [He Ht] H3 H4 H5 H6 H7 H8 H9].
  assert (0 ≤ total (λ e, mem (qcharge e)) (landed_q q)) as Hnn.
  { apply total_nonneg. eapply Forall_impl; [exact H1|]. by intros e (? & _). }
  pose proof (charged_mem_nonneg _ He) as Hce. pose proof (charged_mem_nonneg _ Ht) as Hct.
  assert (∀ l k x, l !! k = Some x → rp_charged x = true → Forall report_ok l →
    0 ≤ rp_charge x ≤ charged_mem l ∧ charged_mem (delete k l) = charged_mem l - rp_charge x ∧ Forall report_ok (delete k l)) as Hdel.
  { intros l k x Hk Hc Hl. pose proof (Forall_lookup_1 _ _ _ _ Hl Hk) as Hx. unfold report_ok in Hx. split_and!; [done| | |by apply Forall_delete].
    - assert (0 ≤ charged_mem (delete k l)) by (apply charged_mem_nonneg; by apply Forall_delete). unfold charged_mem in *. rewrite (total_delete _ _ _ _ Hk), Hc in *. lia.
    - unfold charged_mem. rewrite (total_delete _ _ _ _ Hk), Hc. lia. }
  destruct (earliest rp_charged (txq (reports r'))) as [[i t]|] eqn:Et, (earliest rp_charged (errq (reports r'))) as [[j m]|] eqn:Em; cbn [tx_first];
    try (destruct (order_lt _ _)); try done; cbn [snd]; apply with_reports_ok; try done;
    match goal with |- holds _ (mk_reports _ _ (consume_error (rp_charge ?x) _)) =>
      match goal with E : earliest rp_charged ?l = Some (?k, x) |- _ =>
        destruct (earliest_spec _ _ _ _ E) as [Hk Hc]; destruct (Hdel l k x Hk Hc ltac:(done)) as (Hb & Hs & Hf) end end;
    (split; cbn; try done; unfold sat_sub; try lia; intros Hbd; destruct (H9 Hbd) as [?|[? ?]]; [left; lia|right; lia]).
Qed.

(** A datagram that passes [admit_dg] is charged; one that does not leaves the account as it was. *)
Lemma enqueue_ok now d q r st : 0 ≤ payload d → accounted q r →
  ∃ q' r' st', enqueue os now d (q, (Some r, st)) = (q', (Some r', st')) ∧ accounted q' r'.
Proof.
  intros Hp Hr. unfold enqueue, rec_admit.
  set (r0 := if is_linux os then land_errors now (arrives d) r else r).
  assert (accounted q r0) as Hr0.
  { unfold r0. destruct (is_linux os); [by apply land_errors_ok|done]. }
  clearbody r0. clear Hr r. destruct (rec_udp r0 && match peer r0 with Some _ => _ | None => _ end); [by exists q, r0, st|].
  unfold admit_dg. set (c := charge os (payload d) (src_v6 d) (skb (buf r0)) (path_mtu d) (rx (buf r0))).
  destruct Hr0 as [Hfl [Hen Hre (Hskb & Hrcv & HM) Her Hm Hcc Hq Hby Hb] Hde]. fold (buf r0) in *.
  destruct (charge_nonneg os (payload d) (src_v6 d) (skb (buf r0)) (path_mtu d) (rx (buf r0)) Hp Hskb)
    as [Hc1 Hc2]. fold c in Hc1, Hc2.
  destruct (enforce (buf r0) && _) eqn:Efit; cbn [bool_decide].
  - eexists _, _, _. split; [done|]. split; cbn; try done; try lia.
  - eexists _, _, _. split; [done|]. rewrite bool_decide_eq_true_2 by by eexists.
    split; cbn; try done; [|lia]. split; cbn; rewrite ?total_app, ?total_cons, ?total_nil, ?length_app; cbn [length qcharge dg]; fold (buf r0); try done; try lia.
    + apply Forall_app. split; [done|]. constructor; [|constructor]. unfold entry_ok; cbn.
      split_and!; try done. intros ->. by apply charge_pos.
    + intros (Ho & H1 & H2 & H3). cbn in *. fold (buf r0) in *. rewrite H2, H1 in Efit. cbn in Efit.
      apply negb_false_iff in Efit. unfold fits in Efit. rewrite Ho in Efit.
      destruct (Z.eqb_spec (rmem_alloc (rx (buf r0))) 0) as [Hz|Hz]; [|left; cbn in Efit; lia].
      right. pose proof (charged_mem_nonneg _ (proj1 Hre)). pose proof (charged_mem_nonneg _ (proj2 Hre)). assert (landed_q q = []) as El.
      { destruct (landed_q q) as [|e l]; [done|]. exfalso. apply Forall_cons in Hen as [(_ & _ & _ & He) Hl].
        specialize (He Ho). rewrite total_cons in Hm.
        assert (0 ≤ total (λ e, mem (qcharge e)) l); [|lia].
        apply total_nonneg. eapply Forall_impl; [exact Hl|]. by intros ? (? & _). }
      rewrite El, total_nil in Hm. rewrite El. split; [done|lia].
Qed.

(** The due datagrams land one after the other. *)
Lemma due_loop_ok now es : ∀ q r st,
  Forall (λ e : Z * datagram A, 0 ≤ payload (snd e)) es → accounted q r →
  ∃ q' r' st', foldl (λ s e, enqueue os now (snd e) s) (q, (Some r, st)) es = (q', (Some r', st')) ∧ accounted q' r'.
Proof.
  induction es as [|e es IH]; intros q r st Hes Hr; [by exists q, r, st|].
  apply Forall_cons in Hes as [He Hes]. cbn [foldl].
  destruct (enqueue_ok now (snd e) q r st He Hr) as (q1 & r1 & st1 & -> & H1). by apply IH.
Qed.

Lemma land_ok now lost q r st : accounted q r →
  ∃ q' r' st', land os now lost (q, (Some r, st)) = (q', (Some r', st')) ∧ accounted q' r'.
Proof.
  intros Hr. unfold land, land_when. destruct (in_flight q) as [|e0 es0] eqn:Ef; [by exists q, r, st|].
  rewrite <- Ef. pose proof (a_flight _ _ Hr) as Hfl. cbv zeta.
  match goal with |- context [foldl _ (?q1, _) ?es] => destruct (due_loop_ok now es q1 r st) as (q' & r' & st' & -> & H') end.
  - rewrite sort_due_perm. rewrite list.Forall_forall in *.
    intros e [[He _]%elem_of_retain _]%elem_of_retain. auto.
  - destruct Hr. split; cbn; try done. rewrite list.Forall_forall in *.
    intros e [He _]%elem_of_retain. auto.
  - cbn [track_arrival]. destruct (is_linux os); cbn; eexists _, _, _; (split; [done|]); [by apply with_next_ok|done].
Qed.

Lemma push_ok now lost d q r st : 0 ≤ payload d → accounted q r →
  ∃ q' r' st', push os now lost d (q, (Some r, st)) = (q', (Some r', st')) ∧ accounted q' r'.
Proof.
  intros Hp Hr. unfold push. destruct (arrives d) as [t|].
  - assert (accounted (mk_rxqueue (in_flight q ++ [(seq_no q + 1, d)]) (landed_q q) (seq_no q + 1) (landed q)) r) as Hq.
    { destruct Hr. split; cbn; try done. apply Forall_app. by repeat constructor. }
    destruct (is_linux os); cbn; eexists _, _, _; (split; [done|]); [by apply with_next_ok|done].
  - destruct (land_ok now lost (mk_rxqueue (in_flight q) (landed_q q) (seq_no q + 1) (landed q)) r st)
      as (q1 & r1 & st1 & -> & H1); [by destruct Hr|]. by apply enqueue_ok.
Qed.

(** What is read gives back exactly what it was charged. *)
Lemma pop_landed_ok now accept q r st :
  accounted q r → ∃ q' r' st', (pop_landed os now accept (q, (Some r, st))).2 = (q', (Some r', st')) ∧ accounted q' r'.
Proof.
  intros Hr. unfold pop_landed. destruct (position _ _) as [i|]; [|by exists q, r, st].
  destruct (landed_q q !! i) as [e|] eqn:He; [|by exists q, r, st].
  apply (locked_ok now) in Hr. cbn [rec_consumed snd]. set (r' := locked os now r) in *.
  eexists _, _, _. split; [done|]. destruct Hr as [Hfl [Hen Hre Hskb Her Hm Hcc Hq Hby Hb] Hde]. fold (buf r') in *.
  destruct (proj1 (Forall_lookup _ _) Hen i e He) as (H1 & H2 & H3 & H4).
  assert (∀ f, (∀ x, entry_ok x → 0 ≤ f x) → f e ≤ total f (landed_q q)) as Hle.
  { intros f Hf. apply (total_elem f _ i e); [|done]. eapply Forall_impl; [exact Hen|]. auto. }
  pose proof (Hle (λ x, mem (qcharge x)) ltac:(by intros x (? & _))).
  pose proof (Hle (λ x, cc (qcharge x)) ltac:(by intros x (_ & ? & _))).
  pose proof (Hle (λ x, payload (dg x)) ltac:(by intros x (_ & _ & ? & _))).
  pose proof (charged_mem_nonneg _ (proj1 Hre)). pose proof (charged_mem_nonneg _ (proj2 Hre)).
  assert (0 < length (landed_q q))%nat by (eapply Nat.le_lt_trans; [|eapply lookup_lt_Some, He]; lia).
  assert (length (delete i (landed_q q)) = length (landed_q q) - 1)%nat as Hlen by (eapply length_delete; by eexists).
  cbn beta in *. split; cbn; try done. split; cbn; fold (buf r'); rewrite ?(total_delete _ _ _ _ He), ?Hlen; try done; try lia.
  - by apply Forall_delete.
  - intros Hbd. left. destruct (Hb Hbd) as [?|[Hone Hez]]; [lia|].
    destruct (landed_q q) as [|x [|y l]] eqn:El; try done. destruct i; [|done]. cbn in He. simplify_eq.
    rewrite total_cons, total_nil in Hm. lia.
Qed.

(** A report joins its queue uncharged. *)
Lemma queue_report_ok q r errq' txq' c visible order : 0 ≤ c → accounted q r →
  (errq' = errq (reports r) ++ [mk_report visible order c false] ∧ txq' = txq (reports r) ∨
   errq' = errq (reports r) ∧ txq' = txq (reports r) ++ [mk_report visible order c false]) → accounted q (with_reports (mk_reports errq' txq' (buf r)) r).
Proof.
  intros Hc Hr Hq. apply with_reports_ok; [done|]. destruct (a_holds _ _ Hr) as [H1 [H2 H2'] H3 H4 H5 H6 H7 H8 H9].
  assert (∀ l, charged_mem (l ++ [mk_report visible order c false]) = charged_mem l) as Hm by (intros l; unfold charged_mem; rewrite total_app, total_cons, total_nil; cbn; lia).
  assert (∀ l, Forall report_ok l → Forall report_ok (l ++ [mk_report visible order c false])) as Hf by (intros l Hl; apply Forall_app; by repeat constructor).
  destruct Hq as [[-> ->]|[-> ->]]; split; cbn; rewrite ?Hm; try done; split; auto.
Qed.

Lemma rx_step_accounted w w' r : rx_step w w' → fst (snd w.2) = Some r → accounted (fst w.2) r →
  ∃ r', fst (snd w'.2) = Some r' ∧ accounted (fst w'.2) r'.
Proof.
  intros Hstep. destruct Hstep as [? ? [q [rec st]]|now lost d [q [rec st]] Hd|now lost [q [rec st]]|now lost accept [q [rec st]]|now visible order len v6 q r0 st Ho Hl
    |now visible order c q r0 st Ho Hc|now q r0 st Ho|now q r0 st|now q r0 st stn p r'|now v q r0 st Hv r'|now q rec st st'];
    cbn [fst snd]; intros E Hr; simplify_eq.
  - eauto.
  - destruct Hd as (_ & _ & Hp & _).
    destruct (push_ok now lost d q r st Hp Hr) as (q' & r' & st' & -> & ?). eauto.
  - destruct (land_ok now lost q r st Hr) as (q' & r' & st' & -> & ?). eauto.
  - unfold pop. destruct (land_ok now lost q r st Hr) as (q' & r' & st' & -> & H1).
    destruct (pop_landed_ok now accept q' r' st' H1) as (q2 & r2 & st2 & -> & ?). eauto.
  - eexists. split; [done|]. apply (locked_ok now) in Hr. eapply queue_report_ok; [|done|by left]. unfold error_charge. apply Z.lt_le_incl, linux_truesize_nonneg; [destruct v6; lia|].
    apply (h_skb _ _ (a_holds _ _ Hr)).
  - eexists. split; [done|]. apply (locked_ok now) in Hr. eapply queue_report_ok; [|done|by right]. done.
  - eexists. split; [done|]. by apply pop_error_report_ok.
  - eexists. split; [done|]. by apply locked_ok.
  - eexists. split; [done|]. apply (locked_ok now) in Hr. destruct Hr. by split.
  - eexists. split; [done|]. apply (locked_ok now) in Hr. apply with_reports_ok; [done|]. destruct (a_holds _ _ Hr) as [H1 H2 (H3 & H4 & H5) H6 H7 H8 H9 H10 H11]. by split.
  - eauto.
Qed.

(** A socket that has received nothing, with the buffers of [SockBuf::new]. *)
Definition fresh (r : SockRec A) : Prop :=
  skb_ok (skb (buf r)) ∧ rcvbuf (buf r) ≤ M ∧ M ≤ i32_max ∧ rx (buf r) = account_default ∧ error_mem (buf r) = 0 ∧
  errq (reports r) = [] ∧ txq (reports r) = [] ∧ delivered r = 0.

Lemma accounted_fresh r : fresh r → accounted rxqueue_default r.
Proof.
  intros (H1 & H2 & H2' & H3 & H4 & H5 & H6 & H7). unfold buf in *.
  split; cbn; try done; try lia. split; cbn; rewrite ?H3, ?H4, ?H5, ?H6, ?H7; cbn; try done; try lia.
Qed.

Lemma rx_steps_accounted w w' r : rtc rx_step w w' → fst (snd w.2) = Some r → accounted (fst w.2) r →
  ∃ r', fst (snd w'.2) = Some r' ∧ accounted (fst w'.2) r'.
Proof.
  intros Hrun. revert r. induction Hrun as [w|w1 w2 w3 Hs _ IH]; intros r E Hr; [eauto|].
  destruct (rx_step_accounted w1 w2 r Hs E Hr) as (r' & E' & Hr'). eauto.
Qed.

Lemma ordered_default now : ordered now 0 rxqueue_default.
Proof. split; cbn; [constructor..|]. intros e f He. by apply elem_of_nil in He. Qed.

Lemma rx_steps_ordered w w' :
  rtc rx_step w w' → ordered w.1 (seq_no (fst w.2)) (fst w.2) → ordered w'.1 (seq_no (fst w'.2)) (fst w'.2).
Proof. induction 1 as [w|w1 w2 w3 Hs _ IH]; [done|]. intros Hq. by apply IH, (rx_step_ordered w1 w2). Qed.

(** ** What a socket promises *)

(** Whatever was sent, read and lost before, [RxQueue::pop] returns the datagram of the accepted
    senders that arrived first: everything it leaves behind from them, landed or in flight, arrives
    later, or at the same instant and was sent later. *)
Theorem receive_in_arrival_order now0 rec0 now q rec lost accept d n q' rec' :
  rtc rx_step (now0, (rxqueue_default, rec0)) (now, (q, rec)) →
  pop os now lost accept (q, rec) = (Some (d, n), (q', rec')) →
  accept (src d) = true ∧ due d ≤ now ∧
  (∀ e, e ∈ landed_q q' → accept (src (dg e)) = true → before d (dg e)) ∧
  (∀ f, f ∈ in_flight q' → before d (snd f)).
Proof.
  intros Hrun Hpop. pose proof (rx_steps_ordered _ _ Hrun (ordered_default now0)) as Hq. cbn [fst snd] in Hq.
  destruct (land_ordered now (seq_no q) lost q rec Hq) as (H1 & _ & _). unfold pop in Hpop.
  destruct (land _ _ _ _) as [q1 rec1]. cbn [fst] in H1. unfold pop_landed in Hpop. destruct rec1 as [rec1 st1].
  destruct (position _ _) as [i|] eqn:Hi; [|done]. destruct (landed_q q1 !! i) as [e|] eqn:He; [|done].
  simplify_eq. destruct (position_Some _ _ _ Hi) as (e' & He' & Hacc). simplify_eq.
  assert (e ∈ landed_q q1) as Hin by by eapply list_elem_of_lookup_2.
  destruct (proj1 (list.Forall_forall _ _) (o_landed _ _ _ H1) e Hin) as [Hdue _].
  split_and!; [done|done| |].
  - cbn [landed_q]. intros x Hx Hxa. pose proof (o_sorted _ _ _ H1) as Hs.
    rewrite <- (take_drop_middle _ _ _ He), fmap_app, fmap_cons in Hs.
    apply StronglySorted_app in Hs as (_ & _ & Hs). inversion Hs as [|? ? _ Hall]; subst.
    rewrite delete_take_drop in Hx. apply elem_of_app in Hx as [Hx|Hx].
    + apply list_elem_of_lookup in Hx as [j Hj]. apply lookup_take_Some in Hj as [Hj Hlt].
      pose proof (proj2 (proj1 (position_first _ _ _) Hi) j x Hlt Hj) as Hno. cbn in Hno. congruence.
    + rewrite list.Forall_forall in Hall. by apply Hall, list_elem_of_fmap_2.
  - cbn [in_flight]. intros f Hf. by apply (o_cross _ _ _ H1).
Qed.

(** C12: After any run of sends, arrivals, losses and reads, of error reports queued, landed, dropped and read, of connects, binds and changes of SO_RCVBUF, a socket's account is
    exactly its queues: the memory it holds is the sum over the datagrams queued and the reports charged and unread, the control bytes, datagrams and payload the
    sums over the datagrams queued, so nothing leaks and no saturating subtraction ever clips. *)
Theorem receive_accounted now0 r0 st0 now q rec st :
  fresh r0 → rtc rx_step (now0, (rxqueue_default, (Some r0, st0))) (now, (q, (rec, st))) →
  ∃ r, rec = Some r ∧
    error_mem (buf r) = charged_mem (errq (reports r)) + charged_mem (txq (reports r)) ∧
    rmem_alloc (rx (buf r)) = total (λ e, mem (qcharge e)) (landed_q q) + error_mem (buf r) ∧
    acc_cc (rx (buf r)) = total (λ e, cc (qcharge e)) (landed_q q) ∧
    (queued (rx (buf r)), queued_bytes (rx (buf r))) = queued_now (q, (rec, st)) ∧
    delivered r = landed q.
Proof.
  intros Hf Hrun.
  destruct (rx_steps_accounted _ _ r0 Hrun eq_refl (accounted_fresh r0 Hf)) as (r & E & [_ [] ?]).
  cbn [fst snd] in *. subst rec. exists r. unfold buf. split_and!; try done.
  rewrite h_queued0, h_bytes0. unfold queued_now. symmetry. cbn [fst]. clear.
  assert (∀ l a b, foldl (λ '(n, b) (e : queued_dg A), (n + 1, b + payload (dg e))) (a, b) l
    = (a + Z.of_nat (length l), b + total (λ e, payload (dg e)) l)) as Hs; [|by rewrite Hs].
  induction l as [|x l IH]; intros a b; cbn [foldl length]; [|rewrite IH, total_cons]; f_equal; rewrite ?total_nil; lia.
Qed.

(** C35: On a Linux that enforces SO_RCVBUF, for datagrams and for error reports, and does not let a datagram overshoot it, a socket never holds more memory than the
    largest SO_RCVBUF it has had, whatever is sent, reported and read and however SO_RCVBUF is changed, but for a lone datagram, too large for the buffer, that found it empty. *)
Theorem rcvbuf_respected now0 r0 st0 now q rec st :
  fresh r0 → rtc rx_step (now0, (rxqueue_default, (Some r0, st0))) (now, (q, (rec, st))) →
  ∃ r, rec = Some r ∧
    (bounded (buf r) →
     rmem_alloc (rx (buf r)) ≤ Z.max M 0 ∨
     length (landed_q q) = 1%nat ∧ error_mem (buf r) = 0).
Proof.
  intros Hf Hrun.
  destruct (rx_steps_accounted _ _ r0 Hrun eq_refl (accounted_fresh r0 Hf)) as (r & E & [_ [] ?]).
  eauto.
Qed.

End run.

(** ** A run: three datagrams cross on the way to a small buffer *)

Definition demo_dg (n t len : Z) : datagram Z := mk_datagram n 7 false false len (Some t) None.
Definition demo_buf : SockBuf := set_buf Linux Rcv 2304 (new_sockbuf Udp (host_limits Linux)).
Definition demo_rec : SockRec Z := mk_rec true false (Some 7) (mk_reports [] [] demo_buf) u64_max 0 0.
Definition no_stats : ProtoStats := mk_stats (mk_mib 0 0 0) (mk_mib 0 0 0).
Definition demo_start : state Z := (rxqueue_default, (Some demo_rec, no_stats)).
Definition demo_sent : state Z :=
  foldl (λ s d, push Linux 0 (λ _, false) d s) demo_start
    [demo_dg 1 20 100; demo_dg 2 10 60; demo_dg 3 10 200].
(** At 15 the second and third have arrived; at 30 the first is one too many for the buffer. *)
Definition demo_early : state Z :=
  Eval vm_compute in (pop Linux 15 (λ _, false) (λ _, true) demo_sent).2.

Local Ltac send n t len :=
  eapply rtc_l; [apply (step_push _ _ _ 0 (λ _, false) (demo_dg n t len));
    split_and!; [done|done|done|by intros ? [= <-]]|].

Lemma demo_run : rtc (rx_step Linux (λ _, 0) 2304) (0, demo_start) (15, demo_early).
Proof.
  send 1 20 100. send 2 10 60. send 3 10 200.
  eapply rtc_l; [apply (step_time _ _ _ 0 15); lia|]. eapply rtc_l; [|apply rtc_refl].
  assert (demo_early = (pop Linux 15 (λ _, false) (λ _, true) demo_sent).2) as -> by (by vm_compute).
  apply (step_pop _ _ _ 15 (λ _, false) (λ _, true)).
Qed.
Lemma demo_fresh : fresh 2304 demo_rec.
Proof. repeat split; vm_compute; congruence. Qed.

Lemma receive_in_arrival_order_witness :
  (pop Linux 15 (λ _, false) (λ _, true) demo_early).1 = Some (demo_dg 3 10 200, 0) ∧
  ∀ f, f ∈ in_flight (pop Linux 15 (λ _, false) (λ _, true) demo_early).2.1 →
    before (λ _, 0) (demo_dg 3 10 200) (snd f).
Proof.
  split; [reflexivity|].
  refine (proj2 (proj2 (proj2 (receive_in_arrival_order Linux (λ _, 0) 2304 0 (Some demo_rec, no_stats) 15
    _ _ (λ _, false) (λ _, true) _ 0 _ (snd (pop Linux 15 (λ _, false) (λ _, true) demo_early).2)
    demo_run _)))). reflexivity.
Defined.

Lemma receive_accounted_witness :
  ∃ r, fst (snd demo_early) = Some r ∧ rmem_alloc (rx (buf r)) = 960.
Proof.
  destruct (receive_accounted Linux (λ _, 0) 2304 0 demo_rec no_stats 15 _ _ _ demo_fresh demo_run) as (r & E & _ & Hm & _).
  injection E as <-. eexists. split; [reflexivity|]. exact Hm.
Defined.

Lemma rcvbuf_respected_witness :
  ∃ r, fst (snd demo_early) = Some r ∧ bounded Linux (buf r) ∧ rmem_alloc (rx (buf r)) ≤ Z.max 2304 0.
Proof.
  destruct (rcvbuf_respected Linux (λ _, 0) 2304 0 demo_rec no_stats 15 _ _ _ demo_fresh demo_run) as (r & E & Hb).
  injection E as <-. eexists. split; [reflexivity|].
  assert (bounded Linux (buf (default demo_rec (fst (snd demo_early))))) as H by (by repeat split).
  split; [exact H|]. destruct (Hb H) as [Hle|[_ Hz]]; [exact Hle|vm_compute; congruence].
Defined.
