(* ===== verification/Pipe.v ===== *)
(** * One direction of a byte stream

    [Pipe] of crates/snare/src/stream.rs: the bytes a writer has put in flight, those that have
    landed and wait to be read, the window that bounds them, and how a stream ends. The bytes
    beyond the receiver's window wait in a [transport] (Transport), the reader's memory is charged
    in its socket buffer (SockBuf).

    What a call sees of the rest of the simulation comes with it as an [Env]: the instant, whether
    the link releases traffic, until when a stall holds the pipe, the policy's receive window.
    [None] is a panic. The observers of a pipe (capture hooks, timestamp reports, the wake-up
    tokens of readiness) see its bytes and change nothing of it; of them only the wake counters
    are kept. *)

From S2P Require Import Prelude Bytes Transport SockBuf.

Definition DURATION_MAX : Z := u64_max * 1000000000 + 999999999.
(** [Duration::saturating_add] *)
Definition dur_add (a b : Z) : Z := Z.min (a + b) DURATION_MAX.

Definition MAC_SNDLOWAT : Z := 2048.

Record Env := mk_env {
  os : target_os; now : Z; link_up : bool; held : option Z;
  effective : Z → Z; (** [effective_shutdown_arrival], macOS *)
  recv_window : option Z;
}.

Section pipe.
Context {B : Type}.

(** [Flight] *)
Record Flight := mk_flight { fl_at : Z; fl_bytes : list B; fl_mss : Z }.

(** [PipeInner] *)
Record PipeInner := mk_inner {
  buf : list B; chunks : list Z; rx_memory : list (Z * Z);
  closed : bool; write_shut : bool; writer_aborted : bool; read_shut : bool; reader_gone : bool;
  reset : bool;
  in_flight : list Flight; ptransport : option (transport B); transport_delay : Z;
}.
Definition inner_default : PipeInner := mk_inner [] [] [] false false false false false false [] None 0.

(** What a pipe sees of the socket at one of its ends ([SockRec]); [stamped] is [tcp_requested] *)
Record End := mk_end {
  sbuf : SockBuf; delivered : Z; delivered_bytes : Z; tcp_established : bool; stamped : bool;
}.

(** What a pipe between two addresses has of them ([Ends]) *)
Record Ends := mk_ends { to_v6 : bool; limits : SysLimits; tcp_gso_max_size : Z }.

(** [Pipe] *)
Record Pipe := mk_pipe {
  inner : PipeInner; reader : option End; writer : option End;
  pending_recv_space : option Z; pending_recv_locked : option bool; pmtu : option Z;
  ends : option Ends; read_wakes : Z; write_wakes : Z;
}.
(** [Pipe::new] *)
Definition new_pipe (e : option Ends) : Pipe := mk_pipe inner_default None None None None None e 0 0.

(** ** Updates *)

Definition with_inner (i : PipeInner) (p : Pipe) : Pipe :=
  mk_pipe i (reader p) (writer p) (pending_recv_space p) (pending_recv_locked p) (pmtu p) (ends p)
    (read_wakes p) (write_wakes p).
Definition with_reader (r : option End) (p : Pipe) : Pipe :=
  mk_pipe (inner p) r (writer p) (pending_recv_space p) (pending_recv_locked p) (pmtu p) (ends p)
    (read_wakes p) (write_wakes p).
Definition with_writer (w : option End) (p : Pipe) : Pipe :=
  mk_pipe (inner p) (reader p) w (pending_recv_space p) (pending_recv_locked p) (pmtu p) (ends p)
    (read_wakes p) (write_wakes p).
Definition wake (r w : Z) (p : Pipe) : Pipe :=
  mk_pipe (inner p) (reader p) (writer p) (pending_recv_space p) (pending_recv_locked p) (pmtu p) (ends p)
    (wrap_u64 (read_wakes p + r)) (wrap_u64 (write_wakes p + w)).
Definition with_unread (b : list B) (c : list Z) (m : list (Z * Z)) (i : PipeInner) : PipeInner :=
  mk_inner b c m (closed i) (write_shut i) (writer_aborted i) (read_shut i) (reader_gone i) (reset i)
    (in_flight i) (ptransport i) (transport_delay i).
Definition with_flight (f : list Flight) (i : PipeInner) : PipeInner :=
  mk_inner (buf i) (chunks i) (rx_memory i) (closed i) (write_shut i) (writer_aborted i) (read_shut i)
    (reader_gone i) (reset i) f (ptransport i) (transport_delay i).
Definition with_transport (t : option (transport B)) (d : Z) (i : PipeInner) : PipeInner :=
  mk_inner (buf i) (chunks i) (rx_memory i) (closed i) (write_shut i) (writer_aborted i) (read_shut i)
    (reader_gone i) (reset i) (in_flight i) t d.
Definition with_flags (c ws wa rs rg r : bool) (i : PipeInner) : PipeInner :=
  mk_inner (buf i) (chunks i) (rx_memory i) c ws wa rs rg r (in_flight i) (ptransport i) (transport_delay i).

Definition len {A} (l : list A) : Z := Z.of_nat (length l).

(** ** [impl PipeInner] *)

(** [sending_closed] *)
Definition sending_closed (e : Env) (i : PipeInner) : bool := (is_macos (os e) && writer_aborted i) || closed i.

Definition flight_bytes (fs : list Flight) : list B := mjoin (fl_bytes <$> fs).
Definition queued_bytes_of (t : option (transport B)) : Z :=
  match t with Some t => pending_bytes t | None => 0 end.

(** [used] and [pending] *)
Definition used (i : PipeInner) : Z :=
  len (buf i) + len (flight_bytes (in_flight i)) + queued_bytes_of (ptransport i).
Definition is_pending (i : PipeInner) : bool :=
  negb (bool_decide (length (in_flight i) = 0%nat)) || (0 <? queued_bytes_of (ptransport i)).

(** ** Landing *)

(** [SockRec::count_delivered] *)
Definition count_delivered (n : Z) (r : End) : End :=
  mk_end (sbuf r) (delivered r + 1) (delivered_bytes r + n) (tcp_established r) (stamped r).
Definition with_sbuf (b : SockBuf) (r : End) : End :=
  mk_end b (delivered r) (delivered_bytes r) (tcp_established r) (stamped r).

(** The memory a chunk takes on Linux: [head], [charge] and what is charged in all *)
Definition charge_chunk (n : Z) (x : Ends) (p : Pipe) : Z * Z * Z * Pipe :=
  match reader p with
  | Some r =>
      let head := error_charge 0 false (sbuf r) in
      let '(c, b) := take_tcp n (sbuf r) in
      (head, c, rmem_alloc (rx b), with_reader (Some (with_sbuf b r)) p)
  | None =>
      let head := skb_small_truesize (limits x) in
      let c := head + n in
      (head, c, foldr (λ m k, snd m + k) 0 (rx_memory (inner p)) + c, p)
  end.

(** [Pipe::arrive] *)
Definition arrive (e : Env) (bytes : list B) (mss : Z) (p : Pipe) : Pipe :=
  if bool_decide (length bytes = 0%nat) || (is_macos (os e) && read_shut (inner p)) then p
  else
    let i := inner p in
    let p := with_inner (with_unread (buf i ++ bytes) (chunks i ++ [len bytes]) (rx_memory i) i) p in
    let p := wake 1 0 p in
    let p := with_reader (count_delivered (len bytes) <$> reader p) p in
    match ends p with
    | Some x =>
        if is_linux (os e) then
          let '(head, c, memory, p) := charge_chunk (len bytes) x p in
          let i := inner p in
          with_inner
            (with_transport (Transport.arrive (len bytes) mss memory head <$> ptransport i) (transport_delay i)
              (with_unread (buf i) (chunks i) (rx_memory i ++ [(len bytes, c)]) i)) p
        else p
    | None => p
    end.

(** The instant [delay] from now, or that of the last byte ahead or the end of the stall when
    later *)
Definition arrival (e : Env) (delay : Z) (fs : list Flight) (hold : option Z) : Z :=
  let t := dur_add (now e) delay in
  let t := match last fs with Some f => if t <? fl_at f then fl_at f else t | None => t end in
  match hold with Some h => if t <? h then h else t | None => t end.

(** Whether bytes written now land now *)
Definition immediate (e : Env) (delay : Z) (i : PipeInner) : bool :=
  (delay =? 0) && bool_decide (length (in_flight i) = 0%nat) && bool_decide (held e = None) && link_up e.

(** [Pipe::transmit]: each segment the window lets through; every one has a byte at least, so
    those queued bound the rounds *)
Fixpoint transmit_loop (fuel : nat) (e : Env) (p : Pipe) : option Pipe :=
  match fuel with
  | O => None
  | S fuel =>
      match ptransport (inner p) with
      | None => Some p
      | Some t =>
          '(seg, t) ← Transport.next t;
          let i := with_transport (Some t) (transport_delay (inner p)) (inner p) in
          match seg with
          | None => Some (with_inner i p)
          | Some s =>
              transmit_loop fuel e
                (if immediate e (transport_delay i) i then arrive e (seg_bytes s) (seg_mss s) (with_inner i p)
                 else with_inner (with_flight (in_flight i ++
                   [mk_flight (arrival e (transport_delay i) (in_flight i) (held e)) (seg_bytes s) (seg_mss s)]) i) p)
          end
      end
  end.
Definition transmit (e : Env) (p : Pipe) : option Pipe :=
  transmit_loop (S (Z.to_nat (queued_bytes_of (ptransport (inner p))))) e p.

(** Whether a flight has arrived *)
Definition passed (e : Env) (f : Flight) : bool :=
  if is_macos (os e) then effective e (fl_at f) <=? now e else fl_at f <=? now e.

(** The loop of [Pipe::land] over the bytes in flight *)
Fixpoint land_due (e : Env) (fs : list Flight) (p : Pipe) : Pipe :=
  match fs with
  | [] => p
  | f :: fs =>
      if passed e f then
        land_due e fs (arrive e (fl_bytes f) (fl_mss f) (with_inner (with_flight fs (inner p)) p))
      else p
  end.

(** [Pipe::land] *)
Definition land (e : Env) (p : Pipe) : option Pipe :=
  if negb (link_up e) then Some p
  else if negb (is_macos (os e)) && negb (bool_decide (held e = None)) then Some p
  else
    let p := land_due e (in_flight (inner p)) p in
    if is_linux (os e) then transmit e p else Some p.

(** ** Writing *)

(** [recv_room] and [capacity] *)
Definition recv_room (e : Env) (p : Pipe) : option Z :=
  match ends p with
  | None => None
  | Some _ =>
      let room := match reader p with
                  | Some r => Some (tcp_recv_space (os e) (sbuf r))
                  | None => pending_recv_space p
                  end in
      match recv_window e, room with
      | Some w, Some r => Some (Z.min w r)
      | Some w, None => Some w
      | None, r => r
      end
  end.
Definition capacity (e : Env) (p : Pipe) : option Z :=
  window ← recv_room e p;
  Some (sat_add window (match writer p with Some w => tcp_send_space (sbuf w) | None => 0 end)).

(** [takes] *)
Definition takes (o : target_os) (cap used n : Z) (own : bool) : Z :=
  let free := sat_sub cap used in
  if n <=? free then n
  else if negb own then free
  else match o with
       | Windows => if 0 <? free then n else 0
       | MacOs => if Z.min MAC_SNDLOWAT cap <=? free then free else 0
       | Linux => free
       end.

Definition has_writer (p : Pipe) : bool := bool_decide (is_Some (writer p)).
Definition has_reader (p : Pipe) : bool := bool_decide (is_Some (reader p)).

(** Whether the writes of a Linux pipe go through a transport: the receive buffer is of a fixed
    size, or the writer asked for timestamps *)
Definition wants_transport (p : Pipe) : bool :=
  match reader p with Some r => rcv_locked (sbuf r) | None => false end
  || default false (pending_recv_locked p)
  || match writer p with Some w => stamped w | None => false end.
Definition transported (e : Env) (p : Pipe) : option Ends :=
  if is_linux (os e) && wants_transport p then ends p else None.

(** The transport a first write makes *)
Definition open_transport (x : Ends) (p : Pipe) : transport B :=
  let room := match reader p with
              | Some r => Z.max (rcvbuf (sbuf r)) 0
              | None => default (tcp_rmem_default (limits x)) (pending_recv_space p)
              end in
  Transport.new room (default 65536 (pmtu p)) (to_v6 x) (tcp_gso_max_size x).

(** The write through a transport: straight to the reader when it can, else queued *)
Definition write_transport (e : Env) (x : Ends) (bytes : list B) (delay : Z) (p : Pipe) : option Pipe :=
  let i := inner p in
  let t := match ptransport i with Some t => t | None => open_transport x p end in
  let '(straight, t) := if immediate e delay i then direct (len bytes) t else (None, t) in
  match straight with
  | Some mss => Some (arrive e bytes mss (with_inner (with_transport (Some t) delay i) p))
  | None => transmit e (with_inner (with_transport (Some (Transport.push bytes t)) delay i) p)
  end.

(** The write of a pipe without one *)
Definition write_plain (e : Env) (bytes : list B) (delay : Z) (p : Pipe) : Pipe :=
  let i := inner p in
  if immediate e delay i then arrive e bytes 0 p
  else
    let t := arrival e delay (in_flight i) (if is_macos (os e) then None else held e) in
    with_inner (with_flight (in_flight i ++ [mk_flight t bytes 0]) i) p.

(** [Pipe::write_after]: how much is written, [None] once the stream is closed *)
Definition write_after (e : Env) (bytes : list B) (delay : Z) (p : Pipe) : option (option Z * Pipe) :=
  let i := inner p in
  if sending_closed e i then Some (None, p)
  else
    let n := match capacity e p with
             | Some cap => takes (os e) cap (used i) (len bytes) (has_writer p)
             | None => len bytes
             end in
    if n =? 0 then Some (Some 0, p)
    else
      let bytes := take (Z.to_nat n) bytes in
      p ← match transported e p with
          | Some x => write_transport e x bytes delay p
          | None => Some (write_plain e bytes delay p)
          end;
      Some (Some n, p).

(** ** Reading *)

(** [Read]; the bytes copied out *)
Inductive Read := Data (bytes : list B) | WouldBlock | Eof | Reset | Shut.

(** The sizes of the chunks left once [left_] bytes are read; [None] an empty queue *)
Fixpoint take_chunks (left_ : Z) (cs : list Z) : option (list Z) :=
  if left_ <=? 0 then Some cs
  else match cs with
  | [] => None
  | front :: cs => if front <=? left_ then take_chunks (left_ - front) cs else Some (front - left_ :: cs)
  end.

(** The charges returned for the chunks read out *)
Fixpoint take_memory (left_ : Z) (ms : list (Z * Z)) : Z * list (Z * Z) :=
  if left_ <=? 0 then (0, ms)
  else match ms with
  | [] => (0, [])
  | (unread, c) :: ms =>
      if unread <=? left_ then let '(r, ms) := take_memory (left_ - unread) ms in (c + r, ms)
      else (0, (unread - left_, c) :: ms)
  end.

(** What a read finds in an empty buffer *)
Definition drained (e : Env) (i : PipeInner) : Read :=
  if reset i && negb (is_pending i) then Reset
  else if (closed i && negb (is_pending i) && bool_decide (held e = None)) || read_shut i then Eof
  else WouldBlock.

(** What the reader's socket gives back and tells the sender *)
Definition release (e : Env) (n : Z) (p : Pipe) : option Pipe :=
  match reader p with
  | Some r =>
      if is_linux (os e) then
        let i := inner p in
        let '(returned, ms) := take_memory n (rx_memory i) in
        let b := consume_tcp returned (sbuf r) in
        let i := with_unread (buf i) (chunks i) ms i in
        let i := with_transport (Transport.advertise (rmem_alloc (rx b)) <$> ptransport i) (transport_delay i) i in
        transmit e (with_inner i (with_reader (Some (with_sbuf b r)) p))
      else Some p
  | None => Some p
  end.

(** What [read_chunk] and [peek] check first *)
Definition refused (e : Env) (i : PipeInner) : option Read :=
  if is_windows (os e) && reset i then Some Reset
  else if read_shut i && negb (is_linux (os e)) then Some Shut
  else None.

(** [read_chunk] into [room] bytes *)
Definition read_chunk (e : Env) (room : Z) (p : Pipe) : option (Read * Pipe) :=
  match refused e (inner p) with
  | Some r => Some (r, p)
  | None =>
      p ← land e p;
      let i := inner p in
      match buf i with
      | [] => Some (drained e i, p)
      | _ =>
          let out := take (Z.to_nat room) (buf i) in
          cs ← take_chunks (len out) (chunks i);
          p ← release e (len out) (with_inner (with_unread (drop (Z.to_nat room) (buf i)) cs (rx_memory i) i) p);
          Some (Data out, wake 0 (b2z (0 <? len out)) p)
      end
  end.

(** [read]: on Linux a read goes on to the next chunk until the room is used up; every round but
    the last reads a byte at least *)
Fixpoint read_loop (fuel : nat) (e : Env) (copied : list B) (room : Z) (p : Pipe) : option (Read * Pipe) :=
  match fuel with
  | O => None
  | S fuel =>
      '(r, p) ← read_chunk e room p;
      match r with
      | Data out =>
          let copied := copied ++ out in
          if (len out =? room) || negb (is_linux (os e)) || bool_decide (ends p = None)
          then Some (Data copied, p)
          else read_loop fuel e copied (room - len out) p
      | other => Some (match copied with [] => other | _ => Data copied end, p)
      end
  end.
Definition read (e : Env) (room : Z) (p : Pipe) : option (Read * Pipe) :=
  read_loop (S (S (Z.to_nat room))) e [] room p.

(** [peek] *)
Definition peek (e : Env) (room : Z) (p : Pipe) : option (Read * Pipe) :=
  match refused e (inner p) with
  | Some r => Some (r, p)
  | None =>
      p ← land e p;
      Some (match buf (inner p) with
            | [] => drained e (inner p)
            | b => Data (take (Z.to_nat room) b)
            end, p)
  end.

(** ** The end of a stream *)

(** [shut_read] *)
Definition shut_read (e : Env) (p : Pipe) : option Pipe :=
  p ← (if is_macos (os e) then
         p ← land e p; Some (with_inner (with_unread [] [] (rx_memory (inner p)) (inner p)) p)
       else Some p);
  let i := inner p in
  Some (wake 1 0 (with_inner
    (with_flags (closed i) (write_shut i) (writer_aborted i) true (reader_gone i) (reset i) i) p)).

(** [wake_both] *)
Definition wake_both (p : Pipe) : Pipe := wake 1 1 p.

(** [close] *)
Definition close (e : Env) (p : Pipe) : Pipe :=
  let i := inner p in
  wake_both (with_inner
    (with_flags true (negb (is_windows (os e)) || write_shut i) (writer_aborted i) (read_shut i)
       (reader_gone i) (reset i) i) p).

Definition disestablish (r : End) : End :=
  mk_end (sbuf r) (delivered r) (delivered_bytes r) false (stamped r).

(** [reset_state] *)
Definition reset_state (e : Env) (p : Pipe) : option Pipe :=
  let i := inner p in
  p ← land e (with_inner (with_flags true (write_shut i) (writer_aborted i) (read_shut i) (reader_gone i) true i) p);
  let p := if is_windows (os e) then
      let i := inner p in
      with_inner (with_flight [] (with_unread [] [] (rx_memory i) i)) (with_reader (disestablish <$> reader p) p)
    else p in
  Some (wake_both p).

(** [reset_quiet_at], macOS: what arrived by [cutoff] lands, the rest in flight is lost *)
Fixpoint land_until (e : Env) (cutoff : Z) (fs : list Flight) (p : Pipe) : Pipe :=
  match fs with
  | [] => p
  | f :: fs =>
      if (effective e (fl_at f) <=? cutoff) && (effective e (fl_at f) <=? now e) then
        land_until e cutoff fs (arrive e (fl_bytes f) (fl_mss f) (with_inner (with_flight fs (inner p)) p))
      else p
  end.
Definition reset_quiet_at (e : Env) (cutoff : Z) (p : Pipe) : Pipe :=
  let p := land_until e cutoff (in_flight (inner p)) p in
  let i := with_flight [] (inner p) in
  wake_both (with_inner
    (with_flags true (write_shut i) (writer_aborted i) (read_shut i) (reader_gone i) true i) p).

(** [close_writer] *)
Definition close_writer (p : Pipe) : Pipe := with_writer (disestablish <$> writer p) p.

(** [abort_writer], macOS *)
Definition abort_writer (p : Pipe) : Pipe :=
  let i := inner p in
  wake_both (with_writer (disestablish <$> writer p) (with_inner
    (with_flags (closed i) true true (read_shut i) (reader_gone i) (reset i) i) p)).

(** [abandon_reader] *)
Definition abandon_reader (p : Pipe) : Pipe :=
  let i := inner p in
  with_inner (with_flags (closed i) (write_shut i) (writer_aborted i) (read_shut i) true (reset i) i) p.

(** ** What a poll sees *)

(** [read_eof], [readable_or_closed], [acknowledged], [room], [can_write], [writable] *)
Definition read_eof (e : Env) (p : Pipe) : option (bool * Pipe) :=
  p ← land e p;
  let i := inner p in
  Some (read_shut i || reset i || (closed i && negb (is_pending i) && bool_decide (held e = None)), p).
Definition readable_or_closed (e : Env) (p : Pipe) : option (bool * Pipe) :=
  p ← land e p;
  let i := inner p in
  Some (negb (bool_decide (length (buf i) = 0%nat)) || (reset i && negb (is_pending i)) || read_shut i ||
        (closed i && negb (is_pending i) && bool_decide (held e = None)), p).
Definition acknowledged (e : Env) (p : Pipe) : option (bool * Pipe) :=
  let room := recv_room e p in
  p ← land e p;
  let i := inner p in
  Some (reset i || (negb (is_pending i) && match room with Some r => used i <=? r | None => true end), p).
Definition pipe_room (e : Env) (p : Pipe) : option (option Z * Pipe) :=
  match capacity e p with
  | None => Some (None, p)
  | Some cap => p ← land e p; Some (Some (sat_sub cap (used (inner p))), p)
  end.
Definition can_write (e : Env) (n : Z) (p : Pipe) : option (bool * Pipe) :=
  match capacity e p with
  | None => Some (true, p)
  | Some cap =>
      p ← land e p;
      Some (sending_closed e (inner p) || (0 <? takes (os e) cap (used (inner p)) n (has_writer p)), p)
  end.
Definition writable (e : Env) (p : Pipe) : option (bool * Pipe) :=
  match capacity e p with
  | None => Some (true, p)
  | Some cap =>
      p ← land e p;
      let u := used (inner p) in
      let free := sat_sub cap u in
      Some (sending_closed e (inner p) ||
            match os e with
            | Linux => (0 <? free) && (u / 2 <=? free)
            | MacOs => Z.min MAC_SNDLOWAT cap <=? free
            | Windows => 0 <? free
            end, p)
  end.

(** ** Ends *)

(** [read_by]: on Linux what waits unread is charged to the new reader *)
Fixpoint charge_chunks (cs : list Z) (b : SockBuf) : list (Z * Z) * SockBuf :=
  match cs with
  | [] => ([], b)
  | n :: cs =>
      let '(c, b) := take_tcp n b in
      let '(ms, b) := charge_chunks cs b in ((n, c) :: ms, b)
  end.
Definition read_by (e : Env) (r : End) (p : Pipe) : Pipe :=
  match reader p with
  | Some _ => p
  | None =>
      if is_linux (os e) && bool_decide (is_Some (ends p)) then
        let i := inner p in
        let '(ms, b) := charge_chunks (chunks i) (sbuf r) in
        with_inner (with_unread (buf i) (chunks i) ms i) (with_reader (Some (with_sbuf b r)) p)
      else with_reader (Some r) p
  end.
(** [write_by] *)
Definition write_by (w : End) (p : Pipe) : Pipe :=
  match writer p with Some _ => p | None => with_writer (Some w) p end.
(** [pending_reader] *)
Definition pending_reader (e : Env) (b : SockBuf) (p : Pipe) : Pipe :=
  mk_pipe (inner p) (reader p) (writer p)
    (match pending_recv_space p with Some s => Some s | None => Some (tcp_recv_space (os e) b) end)
    (if is_linux (os e) then match pending_recv_locked p with Some s => Some s | None => Some (rcv_locked b) end
     else pending_recv_locked p)
    (pmtu p) (ends p) (read_wakes p) (write_wakes p).
(** [set_mtu] *)
Definition set_mtu (m : Z) (p : Pipe) : Pipe :=
  mk_pipe (inner p) (reader p) (writer p) (pending_recv_space p) (pending_recv_locked p)
    (match pmtu p with Some m => Some m | None => Some m end) (ends p) (read_wakes p) (write_wakes p).

End pipe.
Arguments Flight B : clear implicits.
Arguments PipeInner B : clear implicits.
Arguments Pipe B : clear implicits.
Arguments Read B : clear implicits.
