(* ===== verification/PipeProps.v ===== *)
(** * One direction of a byte stream: theorems

    Every operation of a pipe keeps it well formed and never panics; what is read is what was
    written, in order; the end of the stream is seen only once everything was read; and what a
    poll reports is what a read or a write then finds. *)

From S2P Require Import Prelude Bytes Transport TransportProps SockBuf Pipe.

Section props.
Context {B : Type}.
Implicit Types (bytes : list B) (p : Pipe B) (i : PipeInner B) (fs : list (Flight B)) (e : Env).

(** ** What a pipe holds *)

Definition queued_of (t : option (transport B)) : list B :=
  match t with Some t => TransportProps.queued t | None => [] end.

(** Everything written and not yet read, first to last. *)
Definition content i : list B := buf i ++ flight_bytes (in_flight i) ++ queued_of (ptransport i).

Definition sizes (cs : list Z) : Z := foldr Z.add 0 cs.

Record pipe_wf (o : target_os) p : Prop := {
  w_chunks : sizes (chunks (inner p)) = len (buf (inner p)) ∧ Forall (λ c, 0 < c) (chunks (inner p));
  w_sorted : StronglySorted Z.le (fl_at <$> in_flight (inner p));
  w_transport : ∀ t, ptransport (inner p) = Some t → transport_wf t ∧ o = Linux;
  w_reset : reset (inner p) = true → closed (inner p) = true;
  w_room : ∀ x, ends p = Some x → 0 ≤ tcp_rmem_default (limits x);
  w_pending : ∀ r, pending_recv_space p = Some r → 0 ≤ r;
}.

Definition flags i := (closed i, write_shut i, writer_aborted i, read_shut i, reader_gone i, reset i).

(** [p'] is [p] with bytes moved on: nothing lost, unless they land on a receive side that macOS
    has shut. *)
Record moved (o : target_os) p p' : Prop := {
  m_wf : pipe_wf o p';
  m_flags : flags (inner p') = flags (inner p);
  m_ends : ends p' = ends p;
  m_writer : writer p' = writer p;
  m_content : is_macos o && read_shut (inner p) = false → content (inner p') = content (inner p);
  m_len : len (content (inner p')) ≤ len (content (inner p));
  m_room : ∀ e, recv_room e p' = recv_room e p;
  m_flight : o ≠ Linux → in_flight (inner p) = [] → in_flight (inner p') = [];
}.

Lemma moved_refl o p : pipe_wf o p → moved o p p.
Proof. by split. Qed.

Lemma moved_trans o p1 p2 p3 : moved o p1 p2 → moved o p2 p3 → moved o p1 p3.
Proof.
  intros [] [H1 H2 H3 H4 H5 H6 H7 H8]. split; try congruence; try lia; [|naive_solver].
  intros Hs. rewrite H5, m_content0; [done|done|].
  assert (read_shut (inner p2) = read_shut (inner p1)) as -> by (unfold flags in *; congruence). done.
Qed.

Lemma len_app {A} (l k : list A) : len (l ++ k) = len l + len k.
Proof. unfold len. rewrite length_app. lia. Qed.

Lemma sizes_app cs ds : sizes (cs ++ ds) = sizes cs + sizes ds.
Proof. unfold sizes. induction cs as [|c cs IH]; cbn; [done|]. rewrite IH. lia. Qed.

Lemma sizes_pos cs : Forall (λ c, 0 < c) cs → 0 ≤ sizes cs.
Proof. unfold sizes. induction 1; cbn; lia. Qed.

Lemma used_content o p : pipe_wf o p → used (inner p) = len (content (inner p)).
Proof.
  intros Hwf. unfold used, content. rewrite !len_app.
  destruct (ptransport (inner p)) as [t|] eqn:Ht; cbn [queued_bytes_of queued_of]; [|unfold len; cbn; lia].
  destruct (w_transport _ _ Hwf t Ht) as [Hw _]. rewrite (pending_bytes_queued t (wf_offset _ Hw)).
  unfold len. lia.
Qed.

Lemma pending_content o p : pipe_wf o p → is_pending (inner p) = false →
  content (inner p) = buf (inner p).
Proof.
  intros Hwf. unfold is_pending, content.
  destruct (in_flight (inner p)) as [|f fs]; [|done]. cbn.
  destruct (ptransport (inner p)) as [t|] eqn:Ht; cbn [queued_bytes_of queued_of]; [|by rewrite app_nil_r].
  destruct (w_transport _ _ Hwf t Ht) as [Hw _]. rewrite (pending_bytes_queued t (wf_offset _ Hw)).
  destruct (TransportProps.queued t) as [|b l]; [by rewrite app_nil_r|]. intros E. exfalso. by rewrite orb_false_iff in E; destruct E as [_ E]; apply Z.ltb_ge in E; rewrite length_cons in E; lia.
Qed.

(** ** Arrivals *)

Lemma charge_chunk_same n x p :
  ∃ h c m p', charge_chunk n x p = (h, c, m, p') ∧ inner p' = inner p ∧ ends p' = ends p ∧
    writer p' = writer p ∧ pending_recv_space p' = pending_recv_space p ∧
    wants_transport p' = wants_transport p ∧ (∀ e, recv_room e p' = recv_room e p).
Proof.
  unfold charge_chunk, wants_transport, recv_room. destruct (reader p) as [r|] eqn:Er.
  - eexists _, _, _, _. cbn. split_and!; done.
  - eexists _, _, _, _. cbn. rewrite ?Er. split_and!; done.
Qed.

(** What [arrive] does to the bytes: they go behind those unread, or nowhere. *)
Definition lands (e : Env) p : bool := negb (is_macos (os e) && read_shut (inner p)).

Lemma arrive_effect e bytes mss p : pipe_wf (os e) p →
  let p' := arrive e bytes mss p in
  pipe_wf (os e) p' ∧ flags (inner p') = flags (inner p) ∧ ends p' = ends p ∧ writer p' = writer p ∧
  in_flight (inner p') = in_flight (inner p) ∧
  queued_of (ptransport (inner p')) = queued_of (ptransport (inner p)) ∧
  (is_Some (ptransport (inner p')) ↔ is_Some (ptransport (inner p))) ∧
  transport_delay (inner p') = transport_delay (inner p) ∧ (∀ e, recv_room e p' = recv_room e p) ∧
  buf (inner p') = if lands e p then buf (inner p) ++ bytes else buf (inner p).
Proof.
  intros Hwf. unfold arrive, lands. destruct bytes as [|b bytes].
  { cbn. split_and!; try done. destruct (negb _); [by rewrite app_nil_r|done]. }
  change (bool_decide (length (b :: bytes) = 0%nat)) with false. cbn [orb].
  destruct (is_macos (os e) && read_shut (inner p)); [by cbn|]. cbn [negb].
  set (p1 := with_reader _ _).
  assert (∀ e, recv_room e p1 = recv_room e p) as Hrr1.
  { intros e'. unfold recv_room, p1. cbn. by destruct (reader p). }
  assert (wants_transport p1 = wants_transport p) as Hwt1.
  { unfold wants_transport, p1. cbn. by destruct (reader p). }
  assert (pipe_wf (os e) p1) as Hwf1.
  { destruct Hwf as [[Hs Hp] ? ? ? ? ?]. split; rewrite ?Hwt1; try done. cbn [p1 inner with_reader wake with_inner with_unread chunks buf].
    rewrite sizes_app, len_app, Hs. split; [cbn; lia|]. apply Forall_app. split; [done|].
    constructor; [unfold len; cbn; lia|constructor]. }
  destruct (ends p1) as [x|] eqn:Hx; [|by split_and!].
  destruct (is_linux (os e)); [|by split_and!].
  destruct (charge_chunk_same (len (b :: bytes)) x p1) as (h & c & m & p2 & -> & Hi & He & Hw & Hr & Hwt & Hrr).
  split_and!; cbn [with_inner inner with_transport with_unread ends writer in_flight ptransport transport_delay buf flags];
    rewrite ?Hi, ?He, ?Hw; try done.
  - destruct Hwf1 as [? ? Ht ? ? ?].
    assert (∀ i, wants_transport (with_inner i p2) = wants_transport p2) as Hwi by done.
    split; rewrite ?Hwi; cbn; rewrite ?Hi, ?He, ?Hr, ?Hwt, ?fmap_is_Some; try done.
    intros t (t0 & Et & ->)%fmap_Some. destruct (Ht t0 Et) as [Htw Hl].
    split; [by apply arrive_spec|done].
  - cbn. destruct (ptransport (inner p)) as [t|] eqn:Et; [|done]. cbn.
    destruct (w_transport _ _ Hwf t Et) as [Htw _]. by apply arrive_spec.
  - cbn. by rewrite fmap_is_Some.
  - intros e'. rewrite <- Hrr1. apply Hrr.
Qed.

Lemma flight_bytes_app fs gs : flight_bytes (fs ++ gs) = flight_bytes fs ++ flight_bytes gs.
Proof. unfold flight_bytes. by rewrite fmap_app, join_app. Qed.

Lemma flight_bytes_cons f fs : flight_bytes (f :: fs) = fl_bytes f ++ flight_bytes fs.
Proof. done. Qed.

Lemma flight_bytes_snoc fs f : flight_bytes (fs ++ [f]) = flight_bytes fs ++ fl_bytes f.
Proof. rewrite flight_bytes_app. unfold flight_bytes at 2. cbn. by rewrite app_nil_r. Qed.

(** What goes in flight arrives no earlier than what is in flight already. *)
Lemma arrival_sorted e delay fs hold b m :
  StronglySorted Z.le (fl_at <$> fs) →
  StronglySorted Z.le (fl_at <$> fs ++ [mk_flight (arrival e delay fs hold) b m]).
Proof.
  intros Hs. rewrite fmap_app. apply StronglySorted_app. split_and!; [|done|by repeat constructor].
  intros x y Hx Hy. apply list_elem_of_singleton in Hy as ->. cbn [fl_at].
  assert (∃ f, last fs = Some f ∧ x ≤ fl_at f) as (f & Hf & Hle).
  { destruct fs as [|f gs _] using rev_ind; [by apply elem_of_nil in Hx|].
    exists f. rewrite last_snoc. split; [done|]. rewrite fmap_app in Hx, Hs.
    apply StronglySorted_app in Hs as (Hc & _ & _). apply elem_of_app in Hx as [Hx|Hx].
    - apply Hc; [done|]. cbn. by apply elem_of_cons; left.
    - cbn in Hx. apply list_elem_of_singleton in Hx as ->. lia. }
  unfold arrival. rewrite Hf. repeat case_match; lia.
Qed.

Lemma immediate_empty e delay i : immediate e delay i = true → in_flight i = [].
Proof.
  unfold immediate. rewrite !andb_true_iff. intros [[[_ H] _] _]. apply bool_decide_eq_true in H.
  by destruct (in_flight i).
Qed.

(** Each round of [transmit] moves the front of the queue on, and shortens it. *)
Lemma transmit_loop_spec e fuel p : os e = Linux → pipe_wf (os e) p →
  (length (queued_of (ptransport (inner p))) < fuel)%nat →
  ∃ p', transmit_loop fuel e p = Some p' ∧ moved (os e) p p'.
Proof.
  intros Ho. revert p. induction fuel as [|fuel IH]; intros p Hwf Hf; [lia|]. cbn [transmit_loop].
  destruct (ptransport (inner p)) as [t|] eqn:Et; [|eexists; split; [done|by apply moved_refl]].
  destruct (w_transport _ _ Hwf t Et) as [Htw _].
  destruct (next_spec t Htw) as (r & t' & -> & Htw' & _ & _ & Hr). cbn [mbind option_bind].
  set (i := with_transport (Some t') (transport_delay (inner p)) (inner p)).
  assert (pipe_wf (os e) (with_inner i p)) as Hwf'.
  { destruct Hwf. split; try done. by intros t2 [= <-]. }
  destruct r as [s|].
  - destruct Hr as (Hq & Hne & _). destruct (immediate e (transport_delay i) i) eqn:Him.
    + pose proof (immediate_empty _ _ _ Him) as Hfl.
      destruct (arrive_effect e (seg_bytes s) (seg_mss s) _ Hwf') as (H1 & H2 & H3 & H4 & H5 & H6 & _ & _ & H9 & H8).
      unfold lands in H8. rewrite Ho in H8. cbn in H8.
      destruct (IH _ H1) as (p' & -> & Hm).
      { rewrite H6. cbn. cbn in Hf. rewrite Hq, length_app in Hf. destruct (seg_bytes s); [done|].
        cbn in Hf. lia. }
      eexists. split; [done|]. eapply moved_trans; [|exact Hm].
      assert (content (inner (arrive e (seg_bytes s) (seg_mss s) (with_inner i p))) = content (inner p)) as Hc.
      { unfold content. rewrite H5, H6, H8. cbn [inner with_inner i with_transport in_flight ptransport queued_of buf].
        rewrite Et. cbn [queued_of]. change (in_flight (inner p) = []) in Hfl. rewrite Hfl, Hq. change (is_macos Linux) with false. cbn [andb negb]. by rewrite <- app_assoc. }
      split; try done. by rewrite Hc.
    + set (p1 := with_inner (with_flight _ _) p).
      assert (pipe_wf (os e) p1) as Hwf1.
      { destruct Hwf'. split; try done.
        cbn. by apply arrival_sorted. }
      destruct (IH _ Hwf1) as (p' & -> & Hm).
      { cbn. cbn in Hf. rewrite Hq, length_app in Hf. destruct (seg_bytes s); [done|]. cbn in Hf. lia. }
      eexists. split; [done|]. eapply moved_trans; [|exact Hm].
      assert (content (inner p1) = content (inner p)) as Hc.
      { unfold content, p1. cbn [inner with_inner with_flight buf in_flight ptransport i with_transport].
        rewrite flight_bytes_snoc, Et. cbn [fl_bytes queued_of]. by rewrite Hq, <- !app_assoc. }
      split; try done. by rewrite Hc.
  - destruct Hr as [-> _]. eexists. split; [done|]. split; try done; unfold content, i; cbn; by rewrite Et.
Qed.

Lemma transmit_spec e p : os e = Linux → pipe_wf (os e) p →
  ∃ p', transmit e p = Some p' ∧ moved (os e) p p'.
Proof.
  intros Ho Hwf. unfold transmit. apply transmit_loop_spec; [done|done|].
  destruct (ptransport (inner p)) as [t|] eqn:Et; cbn; [|lia].
  destruct (w_transport _ _ Hwf t Et) as [Hw _]. rewrite (pending_bytes_queued t (wf_offset _ Hw)). lia.
Qed.

(** The front flight lands. *)
Lemma land_front e f fs p : pipe_wf (os e) p → in_flight (inner p) = f :: fs →
  moved (os e) p (arrive e (fl_bytes f) (fl_mss f) (with_inner (with_flight fs (inner p)) p)) ∧
  in_flight (inner (arrive e (fl_bytes f) (fl_mss f) (with_inner (with_flight fs (inner p)) p))) = fs.
Proof.
  intros Hwf Hfl. set (p1 := with_inner _ p).
  assert (pipe_wf (os e) p1) as Hwf1.
  { destruct Hwf as [? Hs ? Hr ? ?]. split; try done.
    cbn. rewrite Hfl in Hs. cbn in Hs. by inversion Hs. }
  destruct (arrive_effect e (fl_bytes f) (fl_mss f) p1 Hwf1) as (H1 & H2 & H3 & H4 & H5 & H6 & _ & _ & H9 & H8).
  split; [|done].
  assert (lands e p1 = true →
    content (inner (arrive e (fl_bytes f) (fl_mss f) p1)) = content (inner p)) as Hc.
  { intros Hl. unfold content. rewrite H5, H6, H8, Hl. cbn. rewrite Hfl, flight_bytes_cons.
    by rewrite <- !app_assoc. }
  split; try done.
  - intros Hs. apply Hc. unfold lands. cbn. by rewrite Hs.
  - destruct (lands e p1) eqn:Hl; [by rewrite Hc|]. unfold content. rewrite H5, H6, H8. cbn. rewrite Hfl.
    rewrite flight_bytes_cons, !len_app. unfold len, flight_bytes. lia.
  - intros _ E. by rewrite Hfl in E.
Qed.

Lemma land_due_spec e fs p : pipe_wf (os e) p → in_flight (inner p) = fs → moved (os e) p (land_due e fs p).
Proof.
  revert p. induction fs as [|f fs IH]; intros p Hwf Hfl; cbn [land_due]; [by apply moved_refl|].
  destruct (passed e f); [|by apply moved_refl].
  destruct (land_front e f fs p Hwf Hfl) as [Hm Hf]. eapply moved_trans; [exact Hm|].
  apply IH; [by destruct Hm|done].
Qed.

Lemma land_spec e p : pipe_wf (os e) p → ∃ p', land e p = Some p' ∧ moved (os e) p p'.
Proof.
  intros Hwf. unfold land. destruct (negb (link_up e)); [eexists; split; [done|by apply moved_refl]|].
  destruct (_ && _); [eexists; split; [done|by apply moved_refl]|].
  pose proof (land_due_spec e _ p Hwf eq_refl) as Hm.
  destruct (is_linux (os e)) eqn:Ho; [|eauto]. apply bool_decide_eq_true in Ho.
  destruct (transmit_spec e _ Ho (m_wf _ _ _ Hm)) as (p' & -> & Hm'). eexists. split; [done|].
  by eapply moved_trans.
Qed.

(** ** Writes *)

Lemma transport_push_spec bytes (t : transport B) : transport_wf t →
  transport_wf (push bytes t) ∧ TransportProps.queued (push bytes t) = TransportProps.queued t ++ bytes.
Proof.
  intros Hw. destruct (tcp_step_spec (TPush bytes) t Hw) as (a & w & t' & E & H1 & _).
  cbn in E. simplify_eq. split; [done|]. apply queued_push, Hw.
Qed.

Lemma direct_spec bytes (t : transport B) mss t' : transport_wf t →
  direct (Z.of_nat (length bytes)) t = (Some mss, t') →
  transport_wf t' ∧ TransportProps.queued t = [] ∧ TransportProps.queued t' = [].
Proof.
  intros Hw E. destruct (tcp_step_spec (TDirect bytes) t Hw) as (a & w & t1 & E1 & H1 & _).
  cbn in E1. rewrite E in E1. simplify_eq. split; [done|].
  unfold direct in E. destruct (pending t) eqn:Hp; cbn in E; [|done]. destruct (_ || _); [done|].
  simplify_eq. unfold TransportProps.queued. cbn. rewrite Hp. by destruct (offset t).
Qed.

Lemma direct_none bytes (t : transport B) t' : direct (Z.of_nat (length bytes)) t = (None, t') → t' = t.
Proof. unfold direct. destruct (_ || _); congruence. Qed.

(** A write that goes round the transport while bytes wait in it *)
Definition overtaking e p : bool :=
  match transported e p with Some _ => false | None => negb (bool_decide (length (queued_of (ptransport (inner p))) = 0%nat)) end.

(** The pipe after a write that took all of [bytes]; [late] when it may have overtaken others. *)
Record wrote (o : target_os) (late : bool) bytes p p' : Prop := {
  wr_wf : pipe_wf o p';
  wr_flags : flags (inner p') = flags (inner p);
  wr_ends : ends p' = ends p;
  wr_writer : writer p' = writer p;
  wr_content : late = false → is_macos o && read_shut (inner p) = false → content (inner p') = content (inner p) ++ bytes;
  wr_perm : o = Linux → content (inner p') ≡ₚ content (inner p) ++ bytes;
  wr_len : len (content (inner p')) ≤ len (content (inner p)) + len bytes;
}.

Lemma wrote_moved o late bytes p p1 p2 : wrote o late bytes p p1 → moved o p1 p2 → wrote o late bytes p p2.
Proof.
  intros [] [H1 H2 H3 H4 H5 H6 _ _]. split; try congruence; try lia.
  - intros Hl Hs. rewrite H5, wr_content0; [done..|].
    assert (read_shut (inner p1) = read_shut (inner p)) as -> by (unfold flags in *; congruence). done.
  - intros Ho. rewrite H5; [by apply wr_perm0|by rewrite Ho].
Qed.

(** Bytes landed at once, with nothing in flight ahead of them *)
Lemma arrive_wrote e late bytes mss p : pipe_wf (os e) p → in_flight (inner p) = [] →
  (late = false → queued_of (ptransport (inner p)) = []) → wrote (os e) late bytes p (arrive e bytes mss p).
Proof.
  intros Hwf Hfl Hq. destruct (arrive_effect e bytes mss p Hwf) as (H1 & H2 & H3 & H4 & H5 & H6 & _ & _ & H9 & H8).
  unfold lands in H8.
  split; try done; unfold content; rewrite H5, H6, H8, Hfl.
  - intros Hl ->. rewrite (Hq Hl). cbn. by rewrite !app_nil_r.
  - intros ->. change (is_macos Linux) with false. cbn [andb negb flight_bytes]. cbn. rewrite <- !app_assoc. apply Permutation_app_head, Permutation_app_comm.
  - destruct (negb _); rewrite !len_app; unfold len; cbn; lia.
Qed.

Lemma write_plain_spec e late bytes delay p : pipe_wf (os e) p → (late = false → queued_of (ptransport (inner p)) = []) →
  closed (inner p) = false → wrote (os e) late bytes p (write_plain e bytes delay p).
Proof.
  intros Hwf Hq Hr. unfold write_plain. destruct (immediate e delay (inner p)) eqn:Him.
  - apply arrive_wrote; [done|by eapply immediate_empty|done].
  - set (p' := with_inner _ p).
    assert (content (inner p') = buf (inner p) ++ flight_bytes (in_flight (inner p)) ++ bytes ++ queued_of (ptransport (inner p))) as Hc.
    { unfold content. cbn [p' inner with_inner with_flight buf in_flight ptransport]. by rewrite flight_bytes_snoc, <- app_assoc. }
    split; try done; rewrite ?Hc; unfold content.
    + destruct Hwf. split; try done; cbn. by apply arrival_sorted.
    + intros Hl _. rewrite (Hq Hl), !app_nil_r. by rewrite app_assoc.
    + intros _. rewrite <- !app_assoc. do 2 apply Permutation_app_head. apply Permutation_app_comm.
    + rewrite !len_app. lia.
Qed.

Lemma open_transport_wf o x p : pipe_wf o p → ends p = Some x → transport_wf (open_transport x p).
Proof.
  intros Hwf Hx. unfold open_transport. apply transport_new_wf. destruct (reader p); [lia|].
  destruct (pending_recv_space p) as [r|] eqn:Er; cbn; [by apply (w_pending _ _ Hwf)|by apply (w_room _ _ Hwf)].
Qed.

(** A pipe whose transport is replaced. *)
Lemma with_transport_wf o t d p : pipe_wf o p → transport_wf t → o = Linux →
  pipe_wf o (with_inner (with_transport (Some t) d (inner p)) p).
Proof. intros [] Ht Ho. split; try done. by intros t2 [= <-]. Qed.

Lemma push_transmit_spec e bytes delay t p : pipe_wf (os e) p → os e = Linux → transport_wf t → queued_of (ptransport (inner p)) = TransportProps.queued t →
  ∃ p', transmit e (with_inner (with_transport (Some (push bytes t)) delay (inner p)) p) = Some p' ∧
    wrote (os e) false bytes p p'.
Proof.
  intros Hwf Ho Htw Hq. destruct (transport_push_spec bytes t Htw) as [Htw' Hq'].
  set (p1 := with_inner _ p).
  assert (pipe_wf (os e) p1) as Hwf1 by by apply with_transport_wf.
  destruct (transmit_spec e p1 Ho Hwf1) as (p' & -> & Hm). eexists. split; [done|].
  eapply wrote_moved; [|exact Hm].
  assert (content (inner p1) = content (inner p) ++ bytes) as Hc.
  { unfold content. cbn [p1 inner with_inner with_transport buf in_flight ptransport queued_of].
    by rewrite Hq', Hq, !app_assoc. }
  split; try done; rewrite Hc; [done..|by rewrite len_app].
Qed.

Lemma write_transport_spec e x bytes delay p : pipe_wf (os e) p → transported e p = Some x →
  ∃ p', write_transport e x bytes delay p = Some p' ∧ wrote (os e) false bytes p p'.
Proof.
  intros Hwf Ht. unfold transported in Ht. destruct (_ && _) eqn:Hw; [|done].
  apply andb_true_iff in Hw as [Ho Hw]. apply bool_decide_eq_true in Ho.
  unfold write_transport. set (t := match ptransport (inner p) with Some t => t | None => _ end).
  assert (transport_wf t ∧ queued_of (ptransport (inner p)) = TransportProps.queued t) as [Htw Hq].
  { unfold t. destruct (ptransport (inner p)) as [t0|] eqn:Et; [by split; [apply (w_transport _ _ Hwf t0 Et)|]|].
    split; [by eapply open_transport_wf|]. done. }
  destruct (immediate e delay (inner p)) eqn:Him; [destruct (direct (len bytes) t) as [[mss|] t1] eqn:Ed|].
  - destruct (direct_spec bytes t mss t1 Htw Ed) as (Htw1 & Hq0 & Hq1). eexists. split; [done|].
    assert (wrote (os e) false bytes (with_inner (with_transport (Some t1) delay (inner p)) p)
      (arrive e bytes mss (with_inner (with_transport (Some t1) delay (inner p)) p))) as Hwr.
    { apply arrive_wrote; [by apply with_transport_wf| |done]. by eapply immediate_empty. }
    destruct Hwr as [H1 H2 H3 H4 H5 H6 H7].
    assert (content (with_transport (Some t1) delay (inner p)) = content (inner p)) as Hc.
    { unfold content. cbn. by rewrite Hq, Hq0, Hq1. }
    split; try done; cbn in H5, H6, H7; by rewrite <- Hc.
  - apply direct_none in Ed as ->. by apply push_transmit_spec.
  - by apply push_transmit_spec.
Qed.

Lemma takes_bounds o cap u n own : 0 ≤ n → 0 ≤ takes o cap u n own ≤ n.
Proof. intros Hn. unfold takes. pose proof (Z.le_max_l 0 (cap - u)). unfold sat_sub. destruct (Z.leb_spec n (Z.max 0 (cap - u))), own, o; cbn [negb]; zbool; lia. Qed.

Lemma write_after_spec e bytes delay p : pipe_wf (os e) p →
  ∃ r p', write_after e bytes delay p = Some (r, p') ∧
  match r with
  | None => p' = p ∧ sending_closed e (inner p) = true
  | Some n => 0 ≤ n ≤ len bytes ∧ closed (inner p) = false ∧ wrote (os e) (overtaking e p) (take (Z.to_nat n) bytes) p p'
  end.
Proof.
  intros Hwf. unfold write_after. destruct (sending_closed e (inner p)) eqn:Hcl; [by eexists _, _|].
  set (n := match capacity e p with Some _ => _ | None => _ end).
  assert (0 ≤ n ≤ len bytes) as Hn.
  { unfold n. destruct (capacity e p); [apply takes_bounds|]; unfold len; lia. }
  apply orb_false_iff in Hcl as [_ Hcl]. destruct (Z.eqb_spec n 0) as [->|Hn0].
  { eexists _, _. split; [done|]. cbn. split; [done|]. split; [done|].
    split; try done; [by rewrite app_nil_r..|]. unfold len; cbn; lia. }
  unfold overtaking. destruct (transported e p) as [x|] eqn:Ht.
  - destruct (write_transport_spec e x (take (Z.to_nat n) bytes) delay p Hwf Ht) as (p' & -> & Hw).
    by eexists _, _.
  - eexists _, _. split; [done|]. split; [done|]. split; [done|]. apply write_plain_spec; [done| |done].
    intros Hl%negb_false_iff%bool_decide_eq_true. by destruct (queued_of _).
Qed.

(** ** Reads *)

Lemma take_chunks_spec cs n : Forall (λ c, 0 < c) cs → 0 ≤ n ≤ sizes cs →
  ∃ cs', take_chunks n cs = Some cs' ∧ sizes cs' = sizes cs - n ∧ Forall (λ c, 0 < c) cs'.
Proof.
  intros Hp. revert n. induction Hp as [|c cs Hc Hp IH]; intros n Hn; cbn [take_chunks].
  - change (0 ≤ n ≤ 0) in Hn. replace n with 0 by lia. by exists [].
  - change (0 ≤ n ≤ c + sizes cs) in Hn. change (sizes (c :: cs)) with (c + sizes cs).
    destruct (Z.leb_spec n 0).
    { exists (c :: cs). split; [done|]. split; [unfold sizes; cbn [foldr]; lia|by constructor]. }
    destruct (Z.leb_spec c n).
    + destruct (IH (n - c)) as (cs' & -> & H1 & H2); [lia|]. exists cs'. split; [done|]. split; [lia|done].
    + exists (c - n :: cs). split; [done|]. change (sizes (c - n :: cs)) with (c - n + sizes cs).
      split; [lia|]. constructor; [lia|done].
Qed.

Lemma release_spec e n p : pipe_wf (os e) p → ∃ p', release e n p = Some p' ∧ moved (os e) p p'.
Proof.
  intros Hwf. unfold release. destruct (reader p) as [r|] eqn:Er; [|eexists; split; [done|by apply moved_refl]].
  destruct (is_linux (os e)) eqn:Ho; [|eexists; split; [done|by apply moved_refl]].
  apply bool_decide_eq_true in Ho. destruct (take_memory n (rx_memory (inner p))) as [returned ms].
  set (p1 := with_inner _ _).
  assert (wants_transport p1 = wants_transport p) as Hw by (unfold wants_transport, p1; cbn; by rewrite Er).
  assert (∀ e', recv_room e' p1 = recv_room e' p) as Hrr by (intros e'; unfold recv_room, p1; cbn; by rewrite Er).
  assert (pipe_wf (os e) p1) as Hwf1.
  { destruct Hwf as [? ? Ht ? ? ?]. split; rewrite ?Hw; try done.
    - cbn. intros t (t0 & Et & ->)%fmap_Some. destruct (Ht t0 Et). split; [by apply advertise_spec|done].
}
  destruct (transmit_spec e p1 Ho Hwf1) as (p' & -> & Hm). eexists. split; [done|].
  eapply moved_trans; [|exact Hm].
  assert (content (inner p1) = content (inner p)) as Hc.
  { unfold content, p1. cbn [inner with_inner with_transport with_unread buf in_flight ptransport].
    destruct (ptransport (inner p)) as [t|] eqn:Et; [|done]. cbn [queued_of fmap option_fmap option_map].
    destruct (w_transport _ _ Hwf t Et) as [Htw _].
    by destruct (advertise_spec (rmem_alloc (rx (consume_tcp returned (sbuf r)))) t Htw) as (_ & _ & -> & _). }
  split; try done. by rewrite Hc.
Qed.

(** The pipe after [out] was read from its front. *)
Record read_out (o : target_os) (out : list B) p p' : Prop := {
  ro_wf : pipe_wf o p';
  ro_flags : flags (inner p') = flags (inner p);
  ro_ends : ends p' = ends p;
  ro_content : is_macos o && read_shut (inner p) = false → content (inner p) = out ++ content (inner p');
  ro_flight : o ≠ Linux → in_flight (inner p) = [] → in_flight (inner p') = [];
}.

Lemma moved_read_out o p p1 out p2 : moved o p p1 → read_out o out p1 p2 → read_out o out p p2.
Proof.
  intros [] [H1 H2 H3 H4 H5]. split; try congruence; [|naive_solver].
  intros Hs. rewrite <- m_content0 by done. apply H4.
  assert (read_shut (inner p1) = read_shut (inner p)) as -> by (unfold flags in *; congruence). done.
Qed.

Lemma wake_wf o r w p : pipe_wf o p → pipe_wf o (wake r w p).
Proof. by intros []. Qed.

(** Bytes are taken off the front of those unread. *)
Lemma unread_spec e room p : pipe_wf (os e) p → 0 ≤ room →
  let out := take (Z.to_nat room) (buf (inner p)) in
  ∃ cs p', take_chunks (len out) (chunks (inner p)) = Some cs ∧
    release e (len out) (with_inner (with_unread (drop (Z.to_nat room) (buf (inner p))) cs
      (rx_memory (inner p)) (inner p)) p) = Some p' ∧ read_out (os e) out p p'.
Proof.
  intros Hwf Hr out. destruct (w_chunks _ _ Hwf) as [Hs Hp].
  destruct (take_chunks_spec _ (len out) Hp) as (cs & Et & Hcs & Hpos).
  { rewrite Hs. unfold len, out. rewrite length_take. lia. }
  exists cs. set (p1 := with_inner _ p).
  assert (pipe_wf (os e) p1) as Hwf1.
  { destruct Hwf. split; try done. cbn [p1 inner with_inner with_unread chunks buf].
    split; [|done]. rewrite Hcs, Hs. unfold len, out.
    rewrite length_take, length_drop. lia. }
  destruct (release_spec e (len out) p1 Hwf1) as (p' & E & Hm). exists p'. split; [done|]. split; [exact E|].
  destruct Hm as [H1 H2 H3 H4 H5 H6 H7 H8]. split; try done. intros Hsh. rewrite H5 by done.
  unfold content, out. cbn [p1 inner with_inner with_unread buf in_flight ptransport].
  rewrite (app_assoc (take _ _)). by rewrite take_drop.
Qed.

(** What a read that took [out] reports. *)
Definition reports e out p p' (r : Read B) : Prop :=
  match r with
  | Data d => d = out ∧ refused e (inner p) = None
  | WouldBlock => out = []
  | Eof => out = [] ∧
      (read_shut (inner p) = true ∨ closed (inner p) = true ∧ reset (inner p) = false ∧ content (inner p') = [])
  | Reset => out = [] ∧ reset (inner p) = true ∧ (os e = Windows ∨ content (inner p') = [])
  | Shut => out = [] ∧ read_shut (inner p) = true
  end.

Lemma read_out_nil o p p' : moved o p p' → read_out o [] p p'.
Proof. intros []. split; try done. intros Hs. by rewrite m_content0. Qed.

(** In an empty buffer with nothing on its way there is nothing left of the stream. *)
Lemma drained_spec e p p1 : moved (os e) p p1 → buf (inner p1) = [] →
  reports e [] p p1 (drained e (inner p1)).
Proof.
  intros Hm Hb. pose proof (m_wf _ _ _ Hm) as Hwf. pose proof (m_flags _ _ _ Hm) as Hf.
  assert (is_pending (inner p1) = false → content (inner p1) = []) as Hc.
  { intros Hp. by rewrite (pending_content _ _ Hwf Hp). }
  unfold flags in Hf. injection Hf as Hcl _ _ Hrs _ Hre. unfold drained. rewrite Hcl, Hrs, Hre.
  destruct (reset (inner p)) eqn:Er, (is_pending (inner p1)), (read_shut (inner p)) eqn:Es, (closed (inner p)) eqn:Ec;
    cbn [andb negb orb]; try destruct (bool_decide _); cbn; auto 10.
Qed.

Lemma read_chunk_spec e room p : pipe_wf (os e) p → 0 ≤ room →
  ∃ r p' out, read_chunk e room p = Some (r, p') ∧ read_out (os e) out p p' ∧ reports e out p p' r ∧
    len out ≤ room ∧ (∀ d, r = Data d → room = 0 ∨ 0 < len out).
Proof.
  intros Hwf Hroom. unfold read_chunk. destruct (refused e (inner p)) as [r|] eqn:Hr.
  { exists r, p, []. split; [done|]. split; [by apply read_out_nil, moved_refl|].
    assert (r = Reset ∧ os e = Windows ∧ reset (inner p) = true ∨ r = Shut ∧ read_shut (inner p) = true) as Hcase.
    { unfold refused, is_windows in Hr. destruct (bool_decide_reflect (os e = Windows)), (reset (inner p)), (read_shut (inner p)), (is_linux (os e));
        cbn in Hr; simplify_eq; auto. }
    split; [destruct Hcase as [(-> & ? & ?)|[-> ?]]; cbn; auto|]. split; [done|].
    intros d ->. by destruct Hcase as [[]|[]]. }
  destruct (land_spec e p Hwf) as (p1 & -> & Hm). cbn [mbind option_bind].
  destruct (buf (inner p1)) as [|b bs] eqn:Hb.
  { exists (drained e (inner p1)), p1, []. split; [done|]. split; [by apply read_out_nil|].
    split; [by apply drained_spec|]. split; [done|]. unfold drained. intros d. repeat case_match; done. }
  destruct (unread_spec e room p1 (m_wf _ _ _ Hm) Hroom) as (cs & p2 & Ec & Ep & Ho). rewrite Hb in *.
  cbv zeta. rewrite Ec. cbn [mbind option_bind]. rewrite Ep. cbn [mbind option_bind].
  eexists _, _, (take (Z.to_nat room) (b :: bs)). split; [done|]. split.
  { eapply moved_read_out; [exact Hm|]. destruct Ho. split; try done. by apply wake_wf. }
  split; [done|]. split; [unfold len; rewrite length_take; lia|].
  intros _ _. destruct (Z.to_nat room) as [|k] eqn:Ek; [left; lia|right; unfold len; cbn; lia].
Qed.

Lemma read_out_trans o out1 out2 p1 p2 p3 :
  read_out o out1 p1 p2 → read_out o out2 p2 p3 → read_out o (out1 ++ out2) p1 p3.
Proof.
  intros [] [H1 H2 H3 H4 H5]. split; try congruence; [|naive_solver].
  intros Hs. rewrite ro_content0, H4, app_assoc; [done| |done].
  assert (read_shut (inner p2) = read_shut (inner p1)) as -> by (unfold flags in *; congruence). done.
Qed.

Lemma refused_flags e p p' : flags (inner p') = flags (inner p) → refused e (inner p') = refused e (inner p).
Proof. unfold flags, refused. intros E. injection E as _ _ _ Hs _ Hr. by rewrite Hs, Hr. Qed.

Lemma read_loop_spec e fuel : ∀ copied room p, pipe_wf (os e) p → 0 ≤ room → (Z.to_nat room < fuel)%nat →
  (copied ≠ [] → refused e (inner p) = None) →
  ∃ r p' out, read_loop fuel e copied room p = Some (r, p') ∧ read_out (os e) out p p' ∧
    match copied with
    | [] => reports e out p p' r
    | _ => r = Data (copied ++ out)
    end.
Proof.
  induction fuel as [|fuel IH]; intros copied room p Hwf Hroom Hfuel Hcop; [lia|]. cbn [read_loop].
  destruct (read_chunk_spec e room p Hwf Hroom) as (r & p1 & out & -> & Ho & Hrep & Hle & Hpos).
  cbn [mbind option_bind].
  destruct r as [d| | | |];
    try (assert (out = []) as Eo by (cbn in Hrep; tauto); eexists _, _, out; split; [done|]; split; [done|];
      destruct copied; [done|]; rewrite Eo; by rewrite app_nil_r).
  destruct Hrep as [-> Href].
  destruct (_ || _ || _) eqn:Eend.
  { eexists _, _, out. split; [done|]. split; [done|]. by destruct copied. }
  destruct (Hpos _ eq_refl) as [Hz|Hout].
  { exfalso. rewrite !orb_false_iff in Eend. destruct Eend as [[E1 _] _]. unfold len in *. lia. }
  destruct (IH (copied ++ out) (room - len out) p1) as (r & p2 & out2 & -> & Ho2 & Hr2).
  - by destruct Ho.
  - lia.
  - lia.
  - intros _. by rewrite (refused_flags e p p1 (ro_flags _ _ _ _ Ho)).
  - exists r, p2, (out ++ out2). split; [done|]. split; [by eapply read_out_trans|].
    destruct (copied ++ out) as [|b bs] eqn:Eb.
    { apply app_eq_nil in Eb as [_ ->]. done. }
    rewrite Hr2, <- Eb, <- app_assoc. by destruct copied.
Qed.

Lemma read_spec e room p : pipe_wf (os e) p → 0 ≤ room →
  ∃ r p' out, read e room p = Some (r, p') ∧ read_out (os e) out p p' ∧ reports e out p p' r.
Proof.
  intros Hwf Hroom. apply (read_loop_spec e _ [] room p); [done|done|lia|done].
Qed.

(** ** Runs of a pipe *)

Inductive pipe_op :=
  | OWrite e bytes (delay : Z)
  | ORead e (room : Z)
  | OPeek e (room : Z)
  | OLand e
  | OShutRead e
  | OClose e
  | OReset e
  | OQuietReset e (cutoff : Z)
  | OAbortWriter e
  | OAbandonReader
  | OReadBy e (r : End)
  | OWriteBy (w : End)
  | OPendingReader e (b : SockBuf)
  | OSetMtu (m : Z)
  | OStamp (asks : bool)
  | OReaderBuf (b : SockBuf)
  | OWriterBuf (b : SockBuf).

(** The operations of a host [o]; the writer may ask for timestamps and stop asking at any time, and the buffers of the two sockets be resized. *)
Definition op_ok (o : target_os) (op : pipe_op) : Prop :=
  match op with
  | OWrite e _ _ | OLand e | OShutRead e | OClose e | OReset e | OReadBy e _ | OPendingReader e _ => os e = o
  | ORead e room | OPeek e room => os e = o ∧ 0 ≤ room
  | OQuietReset e _ | OAbortWriter e => os e = o ∧ o = MacOs
  | OAbandonReader | OWriteBy _ | OSetMtu _ | OStamp _ | OReaderBuf _ | OWriterBuf _ => True
  end.

Definition stamp (asks : bool) (w : End) : End :=
  mk_end (sbuf w) (delivered w) (delivered_bytes w) (tcp_established w) asks.

(** An operation, with everything accepted from the writer and everything handed to the reader. *)
Definition pipe_do (op : pipe_op) (s : list B * list B * Pipe B) : option (list B * list B * Pipe B) :=
  let '(W, R, p) := s in
  match op with
  | OWrite e bytes delay =>
      '(n, p) ← write_after e bytes delay p; Some (W ++ take (Z.to_nat (default 0 n)) bytes, R, p)
  | ORead e room =>
      '(r, p) ← read e room p; Some (W, R ++ match r with Data d => d | _ => [] end, p)
  | OPeek e room => '(_, p) ← peek e room p; Some (W, R, p)
  | OLand e => p ← land e p; Some (W, R, p)
  | OShutRead e => p ← shut_read e p; Some (W, R, p)
  | OClose e => Some (W, R, close e p)
  | OReset e => p ← reset_state e p; Some (W, R, p)
  | OQuietReset e cutoff => Some (W, R, reset_quiet_at e cutoff p)
  | OAbortWriter e => Some (W, R, abort_writer p)
  | OAbandonReader => Some (W, R, abandon_reader p)
  | OReadBy e r => Some (W, R, read_by e r p)
  | OWriteBy w => Some (W, R, write_by w p)
  | OPendingReader e b => Some (W, R, pending_reader e b p)
  | OSetMtu m => Some (W, R, set_mtu m p)
  | OStamp asks => Some (W, R, with_writer (stamp asks <$> writer p) p)
  | OReaderBuf b => Some (W, R, with_reader (with_sbuf b <$> reader p) p)
  | OWriterBuf b => Some (W, R, with_writer (with_sbuf b <$> writer p) p)
  end.
Definition pipe_run (ops : list pipe_op) (s : list B * list B * Pipe B) : option (list B * list B * Pipe B) :=
  foldl (λ s op, s ≫= pipe_do op) (Some s) ops.

(** No write of the run overtakes bytes that wait in the transport. *)
Definition overtakes (op : pipe_op) p : bool := match op with OWrite e _ _ => overtaking e p | _ => false end.
Fixpoint in_turn (ops : list pipe_op) (s : list B * list B * Pipe B) : bool :=
  match ops with
  | [] => true
  | op :: ops => negb (overtakes op s.2) && match pipe_do op s with Some s => in_turn ops s | None => true end
  end.

(** Between what was written and what was read: the pipe's content, less what a shut or reset end
    has thrown away. *)
Definition cut (o : target_os) (W R : list B) p : Prop :=
  (o = MacOs ∧ reset (inner p) = true ∧ R ++ content (inner p) `prefix_of` W) ∨
  (o = MacOs ∧ read_shut (inner p) = true) ∨ (o = Windows ∧ reset (inner p) = true).
Definition pipe_inv (o : target_os) (s : list B * list B * Pipe B) : Prop :=
  let '(W, R, p) := s in
  pipe_wf o p ∧ R `prefix_of` W ∧ (o = Windows → reset (inner p) = true → in_flight (inner p) = []) ∧
  (W = R ++ content (inner p) ∨ cut o W R p).

Lemma cut_keeps o W R p p' : cut o W R p → flags (inner p') = flags (inner p) →
  (is_macos o && read_shut (inner p) = false → content (inner p') = content (inner p)) → cut o W R p'.
Proof.
  unfold flags, cut. intros Hc E. injection E as _ _ _ -> _ ->. intros Hcon.
  destruct (is_macos o && read_shut (inner p)) eqn:Hs.
  - apply andb_true_iff in Hs as [Ho%bool_decide_eq_true ->]. auto.
  - rewrite Hcon by done. tauto.
Qed.

Lemma shut_cut o W R p p' : is_macos o && read_shut (inner p) = true →
  flags (inner p') = flags (inner p) → cut o W R p'.
Proof.
  unfold flags, cut. intros [Ho%bool_decide_eq_true Hs]%andb_true_iff E. injection E as _ _ _ -> _ _. auto.
Qed.

Lemma flags_reset p p' : flags (inner p') = flags (inner p) → reset (inner p') = reset (inner p).
Proof. unfold flags. by intros [=]. Qed.

Lemma inv_moved o W R p p' : pipe_inv o (W, R, p) → moved o p p' → pipe_inv o (W, R, p').
Proof.
  intros (Hwf & Hpre & Hfl & Hcase) [H1 H2 H3 H4 H5 H6 _ H7]. split; [done|]. split; [done|]. split.
  { intros Ho. rewrite (flags_reset _ _ H2). intros Hr. apply H7; [by rewrite Ho|auto]. }
  destruct (is_macos o && read_shut (inner p)) eqn:Hs; [right; by eapply shut_cut|].
  destruct Hcase as [->|Hc]; [left; by rewrite H5|right; eapply cut_keeps; [done|done|auto]].
Qed.

Lemma inv_write e W R p bytes delay : pipe_inv (os e) (W, R, p) →
  ∃ W1 W2 R' p', pipe_do (OWrite e bytes delay) (W, R, p) = Some (W1, R', p') ∧ pipe_inv (os e) (W2, R', p') ∧
    W2 ≡ₚ W1 ∧ (overtaking e p = false → W2 = W1).
Proof.
  intros Hinv. pose proof Hinv as (Hwf & Hpre & Hfl & Hcase). cbn [pipe_do].
  destruct (write_after_spec e bytes delay p Hwf) as ([n|] & p' & -> & Hw); cbn [mbind option_bind default from_option id].
  2:{ destruct Hw as [-> _]. eexists _, W, _, _. rewrite app_nil_r. by split. }
  destruct Hw as (Hn & Hcl & [H1 H2 H3 H4 H5 H7 H6]).
  assert (reset (inner p) = false) as Hre.
  { pose proof (w_reset _ _ Hwf). destruct (reset (inner p)); [|done]. naive_solver congruence. }
  destruct (overtaking e p) eqn:Hov.
  - assert (os e = Linux) as Ho.
    { unfold overtaking in Hov. destruct (transported e p); [done|]. destruct (ptransport (inner p)) as [t|] eqn:Et; [|done]. by destruct (w_transport _ _ Hwf t Et). }
    destruct Hcase as [->|Hc]; [|unfold cut in Hc; rewrite Ho in Hc; naive_solver].
    eexists _, (R ++ content (inner p')), _, _. split; [done|]. split; [|split; [by rewrite (H7 Ho), app_assoc|done]].
    split; [done|]. split; [by apply prefix_app_r|]. split; [by rewrite Ho|by left].
  - eexists _, _, _, _. split; [done|]. split; [|done].
    split; [done|]. split; [by apply prefix_app_r|]. split; [by rewrite (flags_reset _ _ H2), Hre|].
    destruct (is_macos (os e) && read_shut (inner p)) eqn:Hs; [right; by eapply shut_cut|].
    left. rewrite H5 by done. unfold cut in Hcase. rewrite Hre in Hcase.
    destruct Hcase as [->|[(_ & ? & _)|[[Ho Hrs]|[_ ?]]]]; [by rewrite app_assoc|done| |done].
    by rewrite Ho, Hrs in Hs.
Qed.

Lemma refused_shut e p : refused e (inner p) = None →
  is_macos (os e) && read_shut (inner p) = false ∧ (os e = Windows → reset (inner p) = false).
Proof.
  unfold refused. destruct (os e); cbn; [done| |]; destruct (reset (inner p)), (read_shut (inner p)); done.
Qed.

Lemma inv_read e W R p room : pipe_inv (os e) (W, R, p) → 0 ≤ room →
  ∃ s, pipe_do (ORead e room) (W, R, p) = Some s ∧ pipe_inv (os e) s.
Proof.
  intros (Hwf & Hpre & Hfl & Hcase) Hroom. cbn [pipe_do].
  destruct (read_spec e room p Hwf Hroom) as (r & p' & out & -> & [H1 H2 H3 H4 H5] & Hrep). cbn [mbind option_bind].
  eexists. split; [done|].
  assert (os e = Windows → reset (inner p') = true → in_flight (inner p') = []) as Hfl'.
  { intros Ho. rewrite (flags_reset _ _ H2). intros Hr. apply H5; [by rewrite Ho|auto]. }
  assert ((∃ d, r = Data d) ∨ ∀ d, r ≠ Data d) as [[d ->]|Hd] by (destruct r; [left|right..]; eauto; done).
  - destruct Hrep as [-> Href]. destruct (refused_shut e p Href) as [Hs Hw]. specialize (H4 Hs).
    assert (R ++ out `prefix_of` W ∧ (W = (R ++ out) ++ content (inner p') ∨ cut (os e) W (R ++ out) p')) as [? ?];
      [|by split].
    rewrite H4 in Hcase. unfold cut in *. rewrite H4, (flags_reset _ _ H2) in *.
    destruct Hcase as [->|[(Hm & Hre & Hp)|[[Hm Hre]|[Hm Hre]]]].
    + rewrite app_assoc. split; [by apply prefix_app_r|by left].
    + rewrite app_assoc in Hp. split; [by eapply prefix_app_l|auto 10].
    + by rewrite Hm, Hre in Hs.
    + rewrite Hw in Hre; done.
  - assert (match r with Data d => d | _ => [] end = []) as -> by (destruct r; try done; by edestruct Hd).
    rewrite app_nil_r. split; [done|]. split; [done|]. split; [done|].
    assert (out = []) as -> by (destruct r; [by edestruct Hd|cbn in Hrep; tauto..]).
    destruct (is_macos (os e) && read_shut (inner p)) eqn:Hs; [right; by eapply shut_cut|].
    specialize (H4 eq_refl). cbn in H4. rewrite H4 in Hcase. destruct Hcase as [->|Hc]; [by left|right].
    eapply cut_keeps; [exact Hc|done|]. intros _. by rewrite H4.
Qed.

(** What an operation that moves no bytes may change. *)
Lemma inv_relax o W R p p' : pipe_inv o (W, R, p) → pipe_wf o p' →
  content (inner p') = content (inner p) →
  (reset (inner p) = true → reset (inner p') = true) →
  (read_shut (inner p) = true → read_shut (inner p') = true) →
  (o = Windows → reset (inner p') = true → in_flight (inner p') = []) → pipe_inv o (W, R, p').
Proof.
  intros (Hwf & Hpre & Hfl & Hcase) Hwf' Hc Hre Hrs Hw. split; [done|]. split; [done|]. split; [done|].
  unfold cut in *. rewrite Hc. destruct Hcase as [?|[(? & ? & ?)|[[? ?]|[? ?]]]]; auto 10.
Qed.

Lemma flags_wf o c ws wa rs rg r p : pipe_wf o p → (r = true → c = true) →
  pipe_wf o (with_inner (with_flags c ws wa rs rg r (inner p)) p).
Proof. intros [] Hr. by split. Qed.

Lemma pipe_peek_spec e room p : pipe_wf (os e) p → ∃ r p', peek e room p = Some (r, p') ∧ moved (os e) p p'.
Proof.
  intros Hwf. unfold peek. destruct (refused e (inner p)) as [r|].
  - eexists _, _. split; [done|by apply moved_refl].
  - destruct (land_spec e p Hwf) as (p1 & -> & Hm). by eexists _, _.
Qed.

Lemma inv_shut_read e W R p : pipe_inv (os e) (W, R, p) →
  ∃ s, pipe_do (OShutRead e) (W, R, p) = Some s ∧ pipe_inv (os e) s.
Proof.
  intros Hinv. pose proof Hinv as (Hwf & Hpre & Hfl & _). cbn [pipe_do]. unfold shut_read.
  destruct (is_macos (os e)) eqn:Ho.
  - apply bool_decide_eq_true in Ho. destruct (land_spec e p Hwf) as (p1 & -> & Hm). cbn [mbind option_bind].
    eexists. split; [done|]. split; [|split; [done|split; [by rewrite Ho|right; right; left; done]]].
    destruct (m_wf _ _ _ Hm) as [_ ? ? ? ? ?]. by split.
  - cbn [mbind option_bind]. eexists. split; [done|].
    eapply inv_relax; [exact Hinv| |done|done|done|done]. by apply wake_wf, flags_wf, Hwf.
Qed.

Lemma inv_reset e W R p : pipe_inv (os e) (W, R, p) →
  ∃ s, pipe_do (OReset e) (W, R, p) = Some s ∧ pipe_inv (os e) s.
Proof.
  intros Hinv. pose proof Hinv as (Hwf & Hpre & _). cbn [pipe_do]. unfold reset_state.
  set (p1 := with_inner _ p). assert (pipe_wf (os e) p1) as Hwf1 by by apply flags_wf.
  destruct (land_spec e p1 Hwf1) as (p2 & -> & Hm). cbn [mbind option_bind]. eexists. split; [done|].
  destruct (is_windows (os e)) eqn:Ho.
  - apply bool_decide_eq_true in Ho. destruct Hm as [[? ? Ht ? ? ?] H2 _ _ _ _ _ _].
    assert (reset (inner p2) = true) as Hre by by rewrite (flags_reset _ _ H2).
    split; [|split; [done|split; [done|right; right; right; done]]].
    split; try done. constructor.
  - assert (pipe_inv (os e) (W, R, p1)) as H1.
    { apply (inv_relax _ _ _ p); [done..|]. intros Hw. by rewrite Hw in Ho. }
    pose proof (inv_moved _ _ _ _ _ H1 Hm) as H2. pose proof H2 as (? & _ & ? & _).
    apply (inv_relax _ _ _ p2); [done|by apply wake_wf|done..].
Qed.

Lemma land_until_spec e cutoff fs p : pipe_wf (os e) p → in_flight (inner p) = fs →
  moved (os e) p (land_until e cutoff fs p).
Proof.
  revert p. induction fs as [|f fs IH]; intros p Hwf Hfl; cbn [land_until]; [by apply moved_refl|].
  destruct (_ && _); [|by apply moved_refl].
  destruct (land_front e f fs p Hwf Hfl) as [Hm Hf]. eapply moved_trans; [exact Hm|].
  apply IH; [by destruct Hm|done].
Qed.

Lemma inv_quiet_reset e cutoff W R p : os e = MacOs → pipe_inv (os e) (W, R, p) →
  pipe_inv (os e) (W, R, reset_quiet_at e cutoff p).
Proof.
  intros Ho Hinv. pose proof Hinv as (Hwf & _). unfold reset_quiet_at.
  pose proof (land_until_spec e cutoff _ p Hwf eq_refl) as Hm. set (p1 := land_until _ _ _ _) in *.
  pose proof (inv_moved _ _ _ _ _ Hinv Hm) as (Hwf1 & Hpre & _ & Hcase).
  assert (ptransport (inner p1) = None) as Ht.
  { destruct (ptransport (inner p1)) as [t|] eqn:Et; [|done].
    destruct (w_transport _ _ Hwf1 t Et). congruence. }
  split.
  { destruct Hwf1. split; try done. cbn. constructor. }
  split; [done|]. split; [by rewrite Ho|]. right. unfold cut. cbn [inner wake_both wake with_inner with_flags with_flight reset read_shut content buf in_flight ptransport].
  assert (R ++ content (inner p1) `prefix_of` W ∨ read_shut (inner p1) = true) as [Hp|Hs].
  { unfold cut in Hcase. destruct Hcase as [->|[(_ & _ & ?)|[[_ ?]|[Hw _]]]]; [by left|by left|by right|congruence]. }
  - left. split; [done|]. split; [done|]. etrans; [|exact Hp]. apply prefix_app. unfold content. cbn.
    rewrite Ht. cbn. rewrite app_nil_r. by apply prefix_app_r.
  - right; left. done.
Qed.

Lemma tcp_recv_space_nonneg o b : 0 ≤ tcp_recv_space o b.
Proof. unfold tcp_recv_space, sat_mul. destruct (is_windows o); lia. Qed.

(** The ends of a pipe *)
Lemma inv_ends o W R p p' : pipe_inv o (W, R, p) → content (inner p') = content (inner p) →
  flags (inner p') = flags (inner p) → in_flight (inner p') = in_flight (inner p) →
  chunks (inner p') = chunks (inner p) → buf (inner p') = buf (inner p) →
  ptransport (inner p') = ptransport (inner p) → ends p' = ends p →
  (∀ r, pending_recv_space p' = Some r → 0 ≤ r) → pipe_inv o (W, R, p').
Proof.
  intros Hinv Hc Hf Hfl Hch Hb Ht He Hr. pose proof Hinv as (Hwf & _ & Hwin & _).
  injection Hf as Hcl _ _ Hrs _ Hre.
  apply (inv_relax _ _ _ p); rewrite ?Hrs, ?Hre, ?Hfl; try done.
  destruct Hwf. split; rewrite ?Hch, ?Hb, ?Hfl, ?Ht, ?Hre, ?Hcl, ?He; done.
Qed.

Lemma inv_read_by e r W R p : pipe_inv (os e) (W, R, p) → pipe_inv (os e) (W, R, read_by e r p).
Proof.
  intros Hinv. unfold read_by. destruct (reader p) eqn:Hr; [done|].
  pose proof Hinv as ([] & _). destruct (_ && _); [destruct (charge_chunks _ _) as [ms b]|];
    (eapply inv_ends; [exact Hinv|done..]).
Qed.

Lemma inv_pending e b W R p : pipe_inv (os e) (W, R, p) → pipe_inv (os e) (W, R, pending_reader e b p).
Proof.
  intros Hinv. pose proof Hinv as ([] & _). eapply inv_ends; [exact Hinv|try done..].
  cbn. intros r. destruct (pending_recv_space p); [naive_solver|]. intros [= <-]. apply tcp_recv_space_nonneg.
Qed.

(** An operation that moves the bytes of no write keeps the invariant, and a write that overtakes others keeps it for another order of what was written. *)
Lemma pipe_do_ok o op W R p : op_ok o op → pipe_inv o (W, R, p) →
  ∃ W1 W2 R' p', pipe_do op (W, R, p) = Some (W1, R', p') ∧ pipe_inv o (W2, R', p') ∧ W2 ≡ₚ W1 ∧ (overtakes op p = false → W2 = W1).
Proof.
  intros Hop Hinv. pose proof Hinv as (Hwf & _ & Hfl & _).
  pose proof Hwf as [Hch Hso Htr Hre Hro Hpe].
  assert (∀ s, pipe_do op (W, R, p) = Some s → pipe_inv o s →
    ∃ W1 W2 R' p', pipe_do op (W, R, p) = Some (W1, R', p') ∧ pipe_inv o (W2, R', p') ∧ W2 ≡ₚ W1 ∧ (overtakes op p = false → W2 = W1)) as Hsame.
  { intros [[W1 R'] p'] E Hs. by exists W1, W1, R', p'. }
  destruct op; cbn [op_ok] in Hop; try match type of Hop with _ ∧ _ => destruct Hop end; subst.
  - by apply inv_write.
  - destruct (inv_read e W R p room Hinv ltac:(done)) as (s & E & Hs). by eapply Hsame.
  - destruct (pipe_peek_spec e room p Hwf) as (r & p' & E & Hm). eapply Hsame; [cbn [pipe_do]; by rewrite E|]. by eapply inv_moved.
  - destruct (land_spec e p Hwf) as (p' & E & Hm). eapply Hsame; [cbn [pipe_do]; by rewrite E|]. by eapply inv_moved.
  - destruct (inv_shut_read e W R p Hinv) as (s & E & Hs). by eapply Hsame.
  - eapply Hsame; [done|]. eapply inv_relax; [exact Hinv|by apply wake_wf, flags_wf|done..].
  - destruct (inv_reset e W R p Hinv) as (s & E & Hs). by eapply Hsame.
  - eapply Hsame; [done|]. by apply inv_quiet_reset.
  - eapply Hsame; [done|]. eapply inv_relax; [exact Hinv| |done..]. apply wake_wf. by split.
  - eapply Hsame; [done|]. eapply inv_relax; [exact Hinv|by apply flags_wf|done..].
  - eapply Hsame; [done|]. by apply inv_read_by.
  - eapply Hsame; [done|]. unfold write_by. destruct (writer p) eqn:Hw; [done|]. by eapply inv_ends.
  - eapply Hsame; [done|]. by apply inv_pending.
  - eapply Hsame; [done|]. by eapply inv_ends.
  - eapply Hsame; [done|]. by eapply inv_ends.
  - eapply Hsame; [done|]. by eapply inv_ends.
  - eapply Hsame; [done|]. by eapply inv_ends.
Qed.

(** What was written before does not matter to an operation. *)
Lemma pipe_do_frame op W V R p W' R' p' : pipe_do op (W, R, p) = Some (W', R', p') →
  ∃ x, W' = W ++ x ∧ pipe_do op (V, R, p) = Some (V ++ x, R', p').
Proof.
  assert (∀ W : list B, W = W ++ []) as H by (intros; by rewrite app_nil_r).
  destruct op; cbn [pipe_do]; try (intros [= <- <- <-]; exists []; rewrite <- !H; done).
  1: destruct (write_after e bytes delay p) as [[n q]|]; cbn [mbind option_bind]; [|done]; intros [= <- <- <-]; by eexists.
  1: destruct (read e room p) as [[r q]|]. 3: destruct (peek e room p) as [[r q]|]. 5: destruct (land e p) as [q|]. 7: destruct (shut_read e p) as [q|]. 9: destruct (reset_state e p) as [q|].
  all: cbn [mbind option_bind]; try done; intros [= <- <- <-]; exists []; rewrite <- !H; done.
Qed.

Lemma pipe_run_ok o ops : Forall (op_ok o) ops → ∀ V W R p, pipe_inv o (W, R, p) → W ≡ₚ V →
  ∃ V' W' R' p', pipe_run ops (V, R, p) = Some (V', R', p') ∧ pipe_inv o (W', R', p') ∧ W' ≡ₚ V' ∧
    (in_turn ops (V, R, p) = true → V = W → V' = W').
Proof.
  unfold pipe_run. induction 1 as [|op ops Hop _ IH]; intros V W R p Hs Hp; [by eexists _, _, _, _|].
  cbn [foldl mbind option_bind in_turn]. destruct (pipe_do_ok o op W R p Hop Hs) as (W1 & W2 & R' & p' & E & Hs' & HW & Hord).
  destruct (pipe_do_frame op W V R p W1 R' p' E) as (x & -> & E'). rewrite E'.
  destruct (IH (V ++ x) W2 R' p' Hs') as (V' & W' & R2 & p2 & E2 & Hs2 & HW2 & Hord2); [by rewrite HW, Hp|].
  exists V', W', R2, p2. split_and!; try done. intros [H1%negb_true_iff H2]%andb_true_iff ->. apply Hord2; [done|]. by rewrite Hord.
Qed.

(** The states a pipe of a host [o] comes to when no write overtakes another: [W] was written and [R] was read. *)
Definition reachable (o : target_os) (W R : list B) p : Prop :=
  ∃ x ops, (∀ y, x = Some y → 0 ≤ tcp_rmem_default (limits y)) ∧ Forall (op_ok o) ops ∧ in_turn ops ([], [], new_pipe x) = true ∧
    pipe_run ops ([], [], new_pipe x) = Some (W, R, p).

Lemma inv_new o x : (∀ y, x = Some y → 0 ≤ tcp_rmem_default (limits y)) → pipe_inv o ([], [], new_pipe x).
Proof.
  intros Hx. split; [|split; [done|split; [done|by left]]].
  split; cbn; try done; try constructor; try done.
Qed.

Lemma reachable_inv o W R p : reachable o W R p → pipe_inv o (W, R, p).
Proof.
  intros (x & ops & Hx & Hops & Ht & E). destruct (pipe_run_ok o ops Hops [] [] [] _ (inv_new o x Hx)) as (V & W' & R' & p' & E' & Hs & _ & Ho); [done|].
  rewrite E in E'. injection E' as <- <- <-. by rewrite (Ho Ht eq_refl).
Qed.

End props.
Arguments pipe_op B : clear implicits.
