(* ===== verification/PipeStream.v ===== *)
(** * Byte streams: what a pipe promises

    Over every run of a pipe's operations: order, the end of the stream, what poll reports, and
    the window. *)

From S2P Require Import Prelude Bytes Transport TransportProps SockBuf Pipe PipeProps.

Section stream.
Context {B : Type}.
Implicit Types (p : Pipe B) (W R bytes : list B) (e : Env).

(** C2: No operation of a byte stream panics, whatever the link, the stalls and the sizes of reads
    and writes, and what is in flight arrives in the order it was written. On Linux every byte written is either
    read or held by the pipe, once. As long as no write goes round the transport while bytes wait in it, which takes a writer that stops asking for timestamps in
    between, the reader has a prefix of what was written, and on Linux, and elsewhere until the
    reader shuts its side or the stream is reset, what was written is what was read followed by
    what the pipe holds, in order. *)
Theorem stream_in_order o x (ops : list (pipe_op B)) :
  (∀ y, x = Some y → 0 ≤ tcp_rmem_default (limits y)) → Forall (op_ok o) ops →
  ∃ W R p, pipe_run ops ([], [], new_pipe x) = Some (W, R, p) ∧
    StronglySorted Z.le (fl_at <$> in_flight (inner p)) ∧
    sizes (chunks (inner p)) = len (buf (inner p)) ∧
    (o = Linux → R ++ content (inner p) ≡ₚ W) ∧
    (in_turn ops ([], [], new_pipe x) = true → R `prefix_of` W ∧
      (o = Linux ∨ read_shut (inner p) = false ∧ reset (inner p) = false → W = R ++ content (inner p))).
Proof.
  intros Hx Hops. destruct (pipe_run_ok o ops Hops [] [] [] _ (inv_new o x Hx)) as (W & W' & R & p & E & (Hwf & Hpre & _ & Hcase) & HW & Ho); [done|].
  assert (o = Linux ∨ read_shut (inner p) = false ∧ reset (inner p) = false → W' = R ++ content (inner p)) as Hc.
  { intros H. destruct Hcase as [?|Hcut]; [done|exfalso]. unfold cut in Hcut. naive_solver congruence. }
  exists W, R, p. split_and!; [done|apply (w_sorted _ _ Hwf)|apply (w_chunks _ _ Hwf)| |].
  - intros Hl. by rewrite <- Hc, HW by by left.
  - intros Ht. by rewrite (Ho Ht eq_refl).
Qed.


(** A read blocks exactly when its first chunk does. *)
Lemma read_blocks e room p r p1 : pipe_wf (os e) p → 0 < room → read_chunk e room p = Some (r, p1) →
  ∃ r' p', read e room p = Some (r', p') ∧ (r' = WouldBlock ↔ r = WouldBlock).
Proof.
  intros Hwf Hroom E. destruct (read_chunk_spec e room p Hwf) as (r0 & p0 & out & E0 & Ho & Hrep & Hle & Hpos); [lia|].
  rewrite E in E0. simplify_eq. unfold read.
  set (fuel := S (Z.to_nat room)). assert (Z.to_nat room < fuel)%nat as Hfuel by lia. clearbody fuel.
  cbn [read_loop]. rewrite E. cbn [mbind option_bind].
  destruct r0 as [d| | | |]; try by eexists _, _.
  destruct Hrep as [-> Href]. destruct (_ || _ || _) eqn:Eend; [by eexists _, _|].
  destruct (Hpos _ eq_refl) as [?|Hout]; [lia|].
  destruct (read_loop_spec e fuel ([] ++ out) (room - len out) p0) as (r & p2 & out2 & -> & _ & Hr).
  - by destruct Ho.
  - lia.
  - lia.
  - intros _. by rewrite (refused_flags e p p0 (ro_flags _ _ _ _ Ho)).
  - destruct out; [done|]. cbn in Hr. subst r. by eexists _, _.
Qed.

(** A socket polls readable exactly when a read of it would not block, on every host. *)
Theorem readable_agrees e W R p room b p1 r p2 :
  reachable (os e) W R p → 0 < room →
  readable_or_closed e p = Some (b, p1) → read e room p = Some (r, p2) → b = true ↔ r ≠ WouldBlock.
Proof.
  intros Hreach Hroom Hb Hr. destruct (reachable_inv _ _ _ _ Hreach) as (Hwf & _ & Hwin & _).
  unfold readable_or_closed in Hb. destruct (land_spec e p Hwf) as (q & Hl & Hm). rewrite Hl in Hb.
  cbn [mbind option_bind] in Hb. simplify_eq.
  assert (∃ r0 p0, read_chunk e room p = Some (r0, p0) ∧
    (negb (bool_decide (length (buf (inner p1)) = 0%nat)) || (reset (inner p1) && negb (is_pending (inner p1)))
     || read_shut (inner p1) || (closed (inner p1) && negb (is_pending (inner p1)) && bool_decide (held e = None)) = true
     ↔ r0 ≠ WouldBlock)) as (r0 & p0 & E0 & Hiff); cycle 1.
  { destruct (read_blocks e room p r0 p0 Hwf Hroom E0) as (r' & p' & E' & Hw). rewrite E' in Hr. simplify_eq.
    rewrite Hiff. naive_solver. }
  pose proof (m_flags _ _ _ Hm) as Hf. unfold flags in Hf. injection Hf as Hcl _ _ Hrs _ Hre.
  unfold read_chunk. destruct (refused e (inner p)) as [r0|] eqn:Href.
  - exists r0, p. split; [done|].
    assert (r0 ≠ WouldBlock) as Hne by (unfold refused in Href; repeat case_match; congruence).
    split; [done|]. intros _. rewrite Hrs, Hre. unfold refused in Href.
    destruct (is_windows (os e) && reset (inner p)) eqn:Hwr.
    + apply andb_true_iff in Hwr as [Ho%bool_decide_eq_true Hrst]. rewrite Hrst. cbn [andb].
      assert (is_pending (inner p1) = false) as ->; [|by rewrite orb_true_r].
      unfold is_pending. rewrite (m_flight _ _ _ Hm); [|by rewrite Ho|by apply Hwin]. cbn.
      destruct (ptransport (inner p1)) as [t|] eqn:Et; [|done].
      destruct (w_transport _ _ (m_wf _ _ _ Hm) t Et). congruence.
    + destruct (read_shut (inner p)); [by rewrite orb_true_r|done].
  - rewrite Hl. cbn [mbind option_bind]. destruct (buf (inner p1)) as [|c cs] eqn:Hbuf.
    + eexists _, _. split; [done|]. unfold drained. cbn.
      destruct (reset (inner p1)), (is_pending (inner p1)), (closed (inner p1)), (read_shut (inner p1)), (bool_decide (held e = None)); cbn; done.
    + destruct (unread_spec e room p1 (m_wf _ _ _ Hm)) as (ks & p3 & Ec & Ep & _); [lia|]. rewrite Hbuf in *.
      cbv zeta. rewrite Ec. cbn [mbind option_bind]. rewrite Ep. by eexists _, _.
Qed.

Lemma takes_window o cap u n own : 0 ≤ n → 0 ≤ u → o ≠ Windows ∨ own = false →
  u + takes o cap u n own ≤ Z.max cap u.
Proof.
  intros Hn Hu Ho. unfold takes, sat_sub. destruct (Z.leb_spec n (Z.max 0 (cap - u))); [lia|].
  destruct own; cbn [negb]; [|lia]. destruct Ho as [Ho|]; [|done]. destruct o; zbool; try done; lia.
Qed.

(** A write fills the window and no more: the pipe then holds no more than its capacity, or
    than it held before when the window has shrunk below that; except that Windows takes a whole
    send while anything is free. *)
Theorem write_within_window e W R p bytes delay n p' cap :
  reachable (os e) W R p → capacity e p = Some cap → (os e ≠ Windows ∨ writer p = None) →
  write_after e bytes delay p = Some (Some n, p') →
  0 ≤ n ≤ len bytes ∧ used (inner p') ≤ Z.max cap (used (inner p)).
Proof.
  intros Hreach Hcap Ho E. destruct (reachable_inv _ _ _ _ Hreach) as (Hwf & _).
  destruct (write_after_spec e bytes delay p Hwf) as (r & p1 & E1 & Hr). rewrite E in E1. simplify_eq.
  destruct Hr as (Hn & Hcl & Hw). split; [done|].
  rewrite (used_content _ _ (wr_wf _ _ _ _ _ Hw)). pose proof (wr_len _ _ _ _ _ Hw) as Hlen.
  assert (len (take (Z.to_nat n) bytes) = n) as Hln by (unfold len in *; rewrite length_take; lia).
  rewrite Hln, <- (used_content _ _ Hwf) in Hlen. etrans; [exact Hlen|].
  unfold write_after in E. destruct (sending_closed e (inner p)); [done|]. rewrite Hcap in E.
  set (k := takes (os e) cap (used (inner p)) (len bytes) (has_writer p)) in E.
  assert (used (inner p) + k ≤ Z.max cap (used (inner p))) as Hk.
  { apply takes_window; [unfold len; lia| |].
    - rewrite (used_content _ _ Hwf). unfold len. lia.
    - destruct Ho as [?|Hnw]; [by left|right]. unfold has_writer. by rewrite Hnw. }
  destruct (Z.eqb_spec k 0) as [Hk0|Hk0]; [simplify_eq; lia|].
  destruct (match transported e p with Some _ => _ | None => _ end); cbn in E; [simplify_eq; lia|done].
Qed.

Lemma takes_free o cap u n own : 0 < cap → 0 < n →
  match o with
  | Linux => (0 <? sat_sub cap u) && (u / 2 <=? sat_sub cap u)
  | MacOs => Z.min MAC_SNDLOWAT cap <=? sat_sub cap u
  | Windows => 0 <? sat_sub cap u
  end = true → 0 < takes o cap u n own.
Proof.
  intros Hcap Hn Ho. unfold takes, MAC_SNDLOWAT in *. destruct (Z.leb_spec n (sat_sub cap u)); [done|].
  destruct own, o; cbn [negb]; rewrite ?andb_true_iff, ?Z.ltb_lt, ?Z.leb_le in Ho; zbool; lia.
Qed.

(** A socket that polls writable takes something of the next write, unless the stream is
    closed to writes, or has no room at all to offer. *)
Theorem writable_takes e W R p p1 cap bytes delay :
  reachable (os e) W R p → capacity e p = Some cap → 0 < cap → bytes ≠ [] →
  writable e p = Some (true, p1) →
  ∃ r p', write_after e bytes delay p1 = Some (r, p') ∧ (r = None ∨ ∃ n, r = Some n ∧ 0 < n).
Proof.
  intros Hreach Hcap Hpos Hb Hwr. destruct (reachable_inv _ _ _ _ Hreach) as (Hwf & _).
  unfold writable in Hwr. rewrite Hcap in Hwr. destruct (land_spec e p Hwf) as (q & Hl & Hm).
  rewrite Hl in Hwr. cbn [mbind option_bind] in Hwr. simplify_eq.
  assert (capacity e p1 = Some cap) as Hcap1.
  { unfold capacity in *. by rewrite (m_room _ _ _ Hm), (m_writer _ _ _ Hm). }
  destruct (write_after_spec e bytes delay p1 (m_wf _ _ _ Hm)) as (r & p2 & E & _). exists r, p2. split; [done|].
  unfold write_after in E. destruct (sending_closed e (inner p1)) eqn:Hcl; [simplify_eq; by left|right].
  cbn [orb] in *. rewrite Hcap1 in E.
  assert (0 < len bytes) as Hlb by (destruct bytes; [done|unfold len; cbn; lia]).
  match goal with H : _ = true |- _ =>
    pose proof (takes_free (os e) cap (used (inner p1)) (len bytes) (has_writer p1) Hpos Hlb H) as Hk end.
  destruct (Z.eqb_spec (takes (os e) cap (used (inner p1)) (len bytes) (has_writer p1)) 0); [lia|].
  destruct (match transported e p1 with Some _ => _ | None => _ end); cbn in E; simplify_eq. eauto.
Qed.

End stream.

(** ** Streams that go wrong *)



Definition at_ (t : Z) : Env := mk_env Linux t true None (λ x, x) None.
Definition at_window (t w : Z) : Env := mk_env Linux t true None (λ x, x) (Some w).
Definition small_limits : SysLimits :=
  mk_limits 212992 4194304 212992 4194304 8 16384 u64_max true false 960 378.
Definition small_ends : Ends := mk_ends false small_limits 65536.
Definition stamping : End := mk_end (new_sockbuf TcpStream small_limits) 0 0 true true.
Definition sends : list (pipe_op Z) := [OWriteBy stamping; OWrite (at_ 0) [1; 2; 3; 4; 5; 6; 7; 8; 9] 0].
Definition sends_and_reads : list (pipe_op Z) := sends ++ [ORead (at_ 0) 100; OClose (at_ 1)].

Lemma sends_ok : Forall (op_ok Linux) sends.
Proof. repeat constructor. Qed.

Definition sent_state : list Z * list Z * Pipe Z :=
  Eval vm_compute in default ([], [], new_pipe None) (pipe_run sends ([], [], new_pipe (Some small_ends))).

Lemma sent_reachable : reachable Linux sent_state.1.1 sent_state.1.2 sent_state.2.
Proof.
  exists (Some small_ends), sends. split; [by intros y [= <-]|]. split; [apply sends_ok|]. by split; vm_compute.
Qed.



(** The writer asks for timestamps, fills the window, stops asking and writes again. *)
Definition stops_asking : list (pipe_op Z) := sends ++ [OStamp false; OWrite (at_ 0) [10] 0; ORead (at_ 0) 100].
(** A write made once the writer no longer asks for timestamps overtakes what still waits in
    the transport: there is a run in which the bytes read are not the first bytes written. *)
Theorem unstamped_write_overtakes :
  Forall (op_ok Linux) stops_asking ∧
  ∃ W R p, pipe_run stops_asking ([], [], new_pipe (Some small_ends)) = Some (W, R, p) ∧
    W = [1; 2; 3; 4; 5; 6; 7; 8; 9; 10] ∧ ¬ R `prefix_of` W.
Proof.
  split; [apply Forall_app; split; [apply sends_ok|by repeat constructor]|]. eexists _, _, _. split; [vm_compute; reflexivity|].
  split; [done|]. apply (bool_decide_unpack (¬ _)). by vm_compute.
Qed.

(** ** Runs *)

Lemma stream_in_order_witness :
  ∃ W R p, pipe_run sends_and_reads ([], [], new_pipe (Some small_ends)) = Some (W, R, p) ∧
    R `prefix_of` W ∧ W = R ++ content (inner p).
Proof.
  destruct (stream_in_order Linux (Some small_ends) sends_and_reads ltac:(by intros y [= <-])
    ltac:(by repeat constructor)) as (W & R & p & E & _ & _ & _ & H).
  exists W, R, p. split; [exact E|]. destruct (H ltac:(by vm_compute)) as [Hp Hc]. split; [exact Hp|]. apply Hc. by left.
Defined.

Definition all_read : list (pipe_op Z) :=
  [OWrite (at_ 0) [1; 2; 3] 5; OClose (at_ 1); ORead (at_ 9) 2; ORead (at_ 9) 2].
Definition all_read_state : list Z * list Z * Pipe Z :=
  Eval vm_compute in default ([], [], new_pipe None) (pipe_run all_read ([], [], new_pipe None)).

Lemma all_read_reachable : reachable Linux all_read_state.1.1 all_read_state.1.2 all_read_state.2.
Proof. exists None, all_read. split; [done|]. split; [by repeat constructor|]. by split; vm_compute. Qed.


Lemma readable_agrees_witness : true = true ↔ (Eof : Read Z) ≠ WouldBlock.
Proof.
  apply (readable_agrees (at_ 9) _ _ all_read_state.2 4 true all_read_state.2 Eof all_read_state.2 all_read_reachable);
    [lia|by vm_compute|by vm_compute].
Defined.

(** A tester that takes six bytes at a time. *)
Definition windowed : list (pipe_op Z) := [OWrite (at_window 0 6) [1; 2; 3; 4; 5; 6; 7; 8] 0; ORead (at_window 0 6) 3].
Definition windowed_state : list Z * list Z * Pipe Z :=
  Eval vm_compute in default ([], [], new_pipe None) (pipe_run windowed ([], [], new_pipe (Some small_ends))).

Lemma windowed_reachable : reachable Linux windowed_state.1.1 windowed_state.1.2 windowed_state.2.
Proof.
  exists (Some small_ends), windowed. split; [by intros y [= <-]|]. split; [by repeat constructor|]. by split; vm_compute.
Qed.

Lemma write_within_window_witness :
  ∃ n p', write_after (at_window 0 6) [7; 8; 9; 10] 0 windowed_state.2 = Some (Some n, p') ∧
    n = 3 ∧ used (inner p') ≤ 6.
Proof.
  destruct (write_after (at_window 0 6) [7; 8; 9; 10] 0 windowed_state.2) as [[[n|] p']|] eqn:E;
    [|vm_compute in E; discriminate..].
  exists n, p'. split; [reflexivity|].
  destruct (write_within_window (at_window 0 6) _ _ windowed_state.2 [7; 8; 9; 10] 0 n p' 6 windowed_reachable
    eq_refl ltac:(by right) E) as [_ Hu].
  vm_compute in E. injection E as <- _. split; [reflexivity|exact Hu].
Defined.

Lemma writable_takes_witness :
  ∃ r p', write_after (at_window 0 6) [7] 0 windowed_state.2 = Some (r, p') ∧ (r = None ∨ ∃ n, r = Some n ∧ 0 < n).
Proof.
  apply (writable_takes (at_window 0 6) _ _ windowed_state.2 windowed_state.2 6 [7] 0 windowed_reachable);
    [reflexivity|lia|done|by vm_compute].
Defined.
