(* ===== verification/Owners.v ===== *)
(** * Who holds each mutex

    [MutexOwners] of crates/snare-interpose/src/sched.rs, with the records of
    crates/snare-interpose/src/pending.rs it applies: a table of fixed size, open addressing with
    linear probing, removal by moving the later entries of a probe run back; and its refinement of
    a finite map. Address 0 marks a free slot. [None] stands for a loop that does not end. *)

From S2P Require Import Prelude.

Definition OWNED_MUTEXES : Z := 1024.
Definition MASK : Z := OWNED_MUTEXES - 1.

Record MutexOwners := mk_owners { slots : list (Z * Z); olen : Z }.
Definition owners_default : MutexOwners := mk_owners (replicate (Z.to_nat OWNED_MUTEXES) (0, 0)) 0.

(** [self.slots[i]] *)
Definition slot_at (s : list (Z * Z)) (i : Z) : Z * Z := default (0, 0) (s !! Z.to_nat i).
Definition put_slot (i : Z) (e : Z * Z) (s : list (Z * Z)) : list (Z * Z) := <[Z.to_nat i := e]> s.

(** [home]; ten bits, the [trailing_zeros] of the size *)
Definition home (addr : Z) : Z :=
  Z.shiftr (wrap_u64 (Z.shiftr addr 3 * 0x9e3779b97f4a7c15)) (64 - 10).

(** [find] *)
Fixpoint find_loop (fuel : nat) (s : list (Z * Z)) (addr i : Z) : option Z :=
  match fuel with
  | O => None
  | S fuel =>
      let slot := fst (slot_at s i) in
      if (slot =? addr) || (slot =? 0) then Some i else find_loop fuel s addr (Z.land (i + 1) MASK)
  end.
Definition find_slot (t : MutexOwners) (addr : Z) : option Z :=
  find_loop (Z.to_nat OWNED_MUTEXES) (slots t) addr (home addr).

(** [insert] *)
Definition insert_owner (addr owner : Z) (t : MutexOwners) : MutexOwners :=
  match find_slot t addr with
  | None => t
  | Some i =>
      if fst (slot_at (slots t) i) =? 0 then
        if OWNED_MUTEXES <=? olen t + 1 then t
        else mk_owners (put_slot i (addr, owner) (slots t)) (olen t + 1)
      else mk_owners (put_slot i (addr, owner) (slots t)) (olen t)
  end.

(** [contains] *)
Definition contains (t : MutexOwners) (addr : Z) : bool :=
  match find_slot t addr with Some i => fst (slot_at (slots t) i) =? addr | None => false end.

(** The loop of [remove]: the slots and the hole left in them *)
Fixpoint remove_loop (fuel : nat) (s : list (Z * Z)) (hole j : Z) : option (list (Z * Z) * Z) :=
  match fuel with
  | O => None
  | S fuel =>
      let j := Z.land (j + 1) MASK in
      let entry := slot_at s j in
      if fst entry =? 0 then Some (s, hole)
      else if Z.land (wrap_u64 (j - hole)) MASK <=? Z.land (wrap_u64 (j - home (fst entry))) MASK
      then remove_loop fuel (put_slot hole entry s) j j
      else remove_loop fuel s hole j
  end.

(** [remove] *)
Definition remove_owner (addr : Z) (t : MutexOwners) : option MutexOwners :=
  match find_slot t addr with
  | Some i =>
      if fst (slot_at (slots t) i) =? addr then
        '(s, hole) ← remove_loop (Z.to_nat OWNED_MUTEXES) (slots t) i i;
        Some (mk_owners (put_slot hole (0, 0) s) (olen t - 1))
      else Some t
  | None => Some t
  end.

(** [held_by] *)
Definition held_by (t : MutexOwners) (owner : Z) : option Z :=
  fst <$> find_first (λ e, negb (fst e =? 0) && (snd e =? owner)) (slots t).

(** [owner] *)
Definition owner_of (t : MutexOwners) (addr : Z) : option Z :=
  i ← find_slot t addr;
  if fst (slot_at (slots t) i) =? addr then Some (snd (slot_at (slots t) i)) else None.

(** What is queued at most for the holder of a lock *)
Definition CAPACITY : Z := 1024.

(** [MutexRecord] and [apply] *)
Record MutexRecord := mk_record { rmutex : Z; rlineage : Z; rtaken : bool }.
Definition apply_record (r : MutexRecord) (t : MutexOwners) : option MutexOwners :=
  if rtaken r then Some (insert_owner (rmutex r) (rlineage r) t) else remove_owner (rmutex r) t.

(** ** Positions around the table *)

Definition inside (i : Z) : Prop := 0 ≤ i < 1024.
(** How far [j] is from [i], going up and around. *)
Definition dist (i j : Z) : Z := if i <=? j then j - i else j - i + 1024.

Lemma land_mask x : Z.land x MASK = x mod 1024.
Proof. unfold MASK, OWNED_MUTEXES. change (1024 - 1) with (Z.ones 10). by rewrite Z.land_ones. Qed.

Lemma land_dist i j : inside i → inside j → Z.land (wrap_u64 (j - i)) MASK = dist i j.
Proof.
  unfold inside. intros Hi Hj. rewrite land_mask. unfold wrap_u64, dist.
  rewrite Z.mod_mod_divide by (by exists (2 ^ 54)).
  destruct (Z.leb_spec i j); symmetry.
  - apply (Z.mod_unique_pos _ _ 0); lia.
  - apply (Z.mod_unique_pos _ _ (-1)); lia.
Qed.

Lemma land_next i : inside i → Z.land (i + 1) MASK = if i =? 1023 then 0 else i + 1.
Proof. unfold inside. intros Hi. rewrite land_mask. destruct (Z.eqb_spec i 1023); dlia. Qed.

Lemma home_inside addr : inside (home addr).
Proof.
  unfold home, inside. rewrite Z.shiftr_div_pow2 by lia.
  assert (0 ≤ wrap_u64 (Z.shiftr addr 3 * 0x9e3779b97f4a7c15) < 2 ^ 64) by (unfold wrap_u64; apply Z.mod_pos_bound; lia).
  change (64 - 10) with 54. split; [apply Z.div_pos; lia|]. apply Z.div_lt_upper_bound; lia.
Qed.

(** Decides facts of positions and distances. *)
Ltac cyc := unfold inside, dist in *; repeat case_match; lia.

(** ** Slots *)

Section slots.
Implicit Types (s : list (Z * Z)).

Definition sized s : Prop := length s = 1024%nat.

Lemma slot_put s i j e : sized s → inside i → inside j →
  slot_at (put_slot i e s) j = if i =? j then e else slot_at s j.
Proof.
  unfold sized, inside, slot_at, put_slot. intros Hs Hi Hj. destruct (Z.eqb_spec i j) as [->|Hne].
  - rewrite list_lookup_insert_eq; [done|lia].
  - rewrite list_lookup_insert_ne; [done|lia].
Qed.

Lemma put_sized s i e : sized s → sized (put_slot i e s).
Proof. unfold sized, put_slot. by rewrite length_insert. Qed.

Definition taken s : Z := Z.of_nat (length (retain (λ e : Z * Z, negb (fst e =? 0)) s)).

Lemma taken_app s s' : taken (s ++ s') = taken s + taken s'.
Proof. unfold taken. rewrite retain_app, length_app. lia. Qed.

Lemma taken_put s i e : sized s → inside i →
  taken (put_slot i e s) = taken s - b2z (negb (fst (slot_at s i) =? 0)) + b2z (negb (fst e =? 0)).
Proof.
  unfold sized, inside, put_slot, slot_at. intros Hs Hi.
  destruct (lookup_lt_is_Some_2 s (Z.to_nat i)) as [x Hx]; [lia|]. rewrite Hx. cbn [default from_option id].
  rewrite insert_take_drop by lia.
  assert (taken s = taken (take (Z.to_nat i) s ++ x :: drop (S (Z.to_nat i)) s)) as -> by by rewrite take_drop_middle.
  rewrite !taken_app.
  assert (∀ y l, taken (y :: l) = b2z (negb (fst y =? 0)) + taken l) as Hc.
  { intros y l. unfold taken. cbn [retain]. destruct (negb (fst y =? 0)); cbn [length b2z]; lia. }
  rewrite !Hc. lia.
Qed.

Lemma free_exists s : sized s → taken s < 1024 → ∃ i, inside i ∧ fst (slot_at s i) = 0.
Proof.
  unfold sized, inside, slot_at. intros Hs Ht.
  assert (∃ k e, s !! k = Some e ∧ fst e = 0) as (k & e & Hk & He).
  { assert (taken s < Z.of_nat (length s)) as Hlt by lia. clear Hs Ht. unfold taken in Hlt. revert Hlt.
    induction s as [|x s IH]; cbn [retain length]; [lia|]. destruct (Z.eqb_spec (fst x) 0) as [Hx|Hx].
    - intros _. by exists 0%nat, x.
    - cbn [negb length]. intros Hlt. destruct IH as (k & e & Hk & He); [lia|]. by exists (S k), e. }
  exists (Z.of_nat k). pose proof (lookup_lt_Some _ _ _ Hk). split; [lia|]. rewrite Nat2Z.id, Hk. done.
Qed.


(** Slot [i] is occupied. *)
Definition occ s (i : Z) : Prop := fst (slot_at s i) ≠ 0.

(** The run of slots from the home of [a] up to [i] is occupied, [i] itself left out. *)
Definition probed s (a i : Z) : Prop :=
  ∀ x, inside x → dist (home a) x < dist (home a) i → occ s x.

(** Some slot of the table holds [a] for [o]. *)
Definition holds s (a o : Z) : Prop := ∃ i, inside i ∧ slot_at s i = (a, o).

Record table_wf s : Prop := {
  tw_sized : sized s;
  tw_free : taken s < 1024;
  tw_probed i : inside i → occ s i → probed s (fst (slot_at s i)) i;
  tw_unique i j : inside i → inside j → occ s i → fst (slot_at s i) = fst (slot_at s j) → i = j;
}.

Lemma occ_put s i j e : sized s → inside i → inside j → fst e ≠ 0 → occ s j → occ (put_slot i e s) j.
Proof. intros ? ? ? He Hj. unfold occ. rewrite slot_put by done. by destruct (i =? j). Qed.

(** ** Probing *)

Lemma find_loop_finds fuel s addr i e : inside i → inside e → fst (slot_at s e) = 0 →
  dist i e < Z.of_nat fuel →
  ∃ k, find_loop fuel s addr i = Some k ∧ inside k ∧ (fst (slot_at s k) = addr ∨ fst (slot_at s k) = 0)
    ∧ ∀ x, inside x → dist i x < dist i k → occ s x ∧ fst (slot_at s x) ≠ addr.
Proof.
  revert i. induction fuel as [|fuel IH]; intros i Hi He He0 Hf; [cyc|]. cbn [find_loop].
  destruct (_ || _) eqn:Hc.
  - exists i. apply orb_true_iff in Hc as [?%Z.eqb_eq|?%Z.eqb_eq]; (split_and!; [done|done|tauto|]); intros x; cyc.
  - apply orb_false_iff in Hc as [Ha%Z.eqb_neq H0%Z.eqb_neq]. rewrite land_next by done.
    assert (i ≠ e) by congruence.
    destruct (IH (if i =? 1023 then 0 else i + 1)) as (k & Ek & Hk & Hs & Hx); [cyc|done|done|cyc|].
    exists k. split_and!; [done|done|done|]. intros x Hin Hd.
    destruct (decide (x = i)) as [->|Hne]; [done|]. destruct (decide (k = i)) as [->|Hki]; [cyc|].
    apply Hx; [done|cyc].
Qed.

Lemma find_spec t addr : table_wf (slots t) → addr ≠ 0 →
  ∃ i, find_slot t addr = Some i ∧ inside i ∧ probed (slots t) addr i ∧
    ((fst (slot_at (slots t) i) = addr) ∨
     (fst (slot_at (slots t) i) = 0 ∧ ∀ o, ¬ holds (slots t) addr o)).
Proof.
  intros Hw Ha. destruct (free_exists (slots t)) as (e & He & He0); [apply Hw|apply Hw|].
  destruct (find_loop_finds (Z.to_nat OWNED_MUTEXES) (slots t) addr (home addr) e) as (k & Ek & Hk & Hs & Hx);
    [apply home_inside|done|done|pose proof (home_inside addr); change (Z.of_nat (Z.to_nat OWNED_MUTEXES)) with 1024; cyc|].
  exists k. split_and!; [done|done|by intros x Hin Hd; apply Hx|].
  destruct Hs as [Hs|Hs]; [by left|right]. split; [done|]. intros o (j & Hj & Ej).
  assert (occ (slots t) j) as Ho by (unfold occ; by rewrite Ej).
  pose proof (tw_probed _ Hw j Hj Ho) as Hp. rewrite Ej in Hp. cbn [fst] in Hp.
  assert (j ≠ k) by (intros ->; unfold occ in Ho; congruence). pose proof (home_inside addr).
  destruct (decide (dist (home addr) k < dist (home addr) j)) as [Hd|Hd]; [by apply (Hp k Hk Hd)|].
  destruct (Hx j Hj) as [_ Hn]; [cyc|]. by rewrite Ej in Hn.
Qed.

Lemma holds_unique s a o o' : table_wf s → a ≠ 0 → holds s a o → holds s a o' → o = o'.
Proof.
  intros Hw Ha (i & Hi & Ei) (j & Hj & Ej). enough (i = j) by congruence.
  apply (tw_unique s Hw); [done|done|unfold occ; by rewrite Ei|by rewrite Ei, Ej].
Qed.

(** ** Recording a hold *)

Lemma put_wf s i a o : table_wf s → inside i → a ≠ 0 → probed s a i →
  fst (slot_at s i) = a ∨ (fst (slot_at s i) = 0 ∧ (∀ o, ¬ holds s a o) ∧ taken s + 1 < 1024) →
  table_wf (put_slot i (a, o) s) ∧
  ∀ b p, b ≠ 0 → holds (put_slot i (a, o) s) b p ↔ if decide (b = a) then p = o else holds s b p.
Proof.
  intros Hw Hi Ha Hp Hc. pose proof (tw_sized _ Hw) as Hs.
  assert (∀ j, inside j → fst (slot_at s j) = a → j = i) as Hone.
  { intros j Hj Ej. destruct Hc as [Hc|(_ & Hn & _)].
    - apply (tw_unique s Hw); [done|done|unfold occ; congruence|congruence].
    - exfalso. apply (Hn (snd (slot_at s j))). exists j. split; [done|]. rewrite <- Ej. by destruct (slot_at s j). }
  split; [constructor|].
  - by apply put_sized.
  - rewrite taken_put by done. cbn [fst]. destruct (Z.eqb_spec a 0); [done|]. pose proof (tw_free _ Hw).
    destruct Hc as [->|(-> & _ & ?)]; [destruct (Z.eqb_spec a 0); [done|]|]; cbn; lia.
  - intros j Hj Ho x Hx Hd. apply occ_put; [done..|]. unfold occ in Ho. rewrite slot_put in Ho, Hd by done.
    destruct (Z.eqb_spec i j) as [->|Hne]; [by apply Hp|]. by apply (tw_probed s Hw j).
  - intros j k Hj Hk Ho. unfold occ in Ho. rewrite !slot_put in * by done.
    destruct (Z.eqb_spec i j) as [<-|Hj'], (Z.eqb_spec i k) as [<-|Hk']; cbn [fst] in *; [done|..].
    + intros ?%eq_sym. symmetry. by apply Hone.
    + intros ?. by apply Hone.
    + by apply (tw_unique s Hw).
  - intros b p Hb. destruct (decide (b = a)) as [->|Hne]; split.
    + intros (j & Hj & Ej). rewrite slot_put in Ej by done. destruct (Z.eqb_spec i j) as [->|Hij]; [congruence|].
      destruct Hij. symmetry. apply Hone; [done|by rewrite Ej].
    + intros ->. exists i. rewrite slot_put, Z.eqb_refl by done. done.
    + intros (j & Hj & Ej). rewrite slot_put in Ej by done. destruct (Z.eqb_spec i j); [congruence|]. by exists j.
    + intros (j & Hj & Ej). exists j. split; [done|]. rewrite slot_put by done. destruct (Z.eqb_spec i j) as [->|]; [|done].
      exfalso. destruct Hc as [Hc|[Hc _]]; rewrite Ej in Hc; cbn in Hc; congruence.
Qed.

(** ** Letting go

    While [remove] moves entries back, the slot it will free still holds what was there before:
    [holed s hole j] says what is kept. The entries other than the hole's are reachable and
    unique, and those whose run goes through the hole are still ahead of [j]. *)

Definition live s (hole i : Z) : Prop := inside i ∧ i ≠ hole ∧ occ s i.

Record holed s (hole j : Z) : Prop := {
  ho_sized : sized s;
  ho_hole : inside hole;
  ho_at : inside j;
  ho_occ : occ s hole;
  ho_probed i : live s hole i → probed s (fst (slot_at s i)) i;
  ho_ahead i : live s hole i → let h := home (fst (slot_at s i)) in dist h hole < dist h i → dist hole j < dist hole i;
  ho_unique i k : live s hole i → live s hole k → fst (slot_at s i) = fst (slot_at s k) → i = k;
}.

Definition rest s (hole a o : Z) : Prop := ∃ i, live s hole i ∧ slot_at s i = (a, o).

(** An entry moved into the hole leaves the hole where it was. *)
Lemma holed_moves s hole j j' : holed s hole j → inside j' → j' ≠ hole → occ s j' →
  dist hole j' ≤ dist (home (fst (slot_at s j'))) j' →
  let s' := put_slot hole (slot_at s j') s in
  holed s' j' j' ∧ taken s' = taken s ∧ (∀ x, inside x → occ s' x ↔ occ s x) ∧
  ∀ a o, rest s' j' a o ↔ rest s hole a o.
Proof.
  intros [Hs Hh Hj Hho Hp Ha Hu] Hj' Hne Hoj Hd s'.
  assert (∀ x, inside x → slot_at s' x = if hole =? x then slot_at s j' else slot_at s x) as Hsl.
  { intros x Hx. by apply slot_put. }
  assert (∀ x, inside x → occ s' x ↔ occ s x) as Hocc.
  { intros x Hx. unfold occ. rewrite Hsl by done. destruct (Z.eqb_spec hole x) as [<-|]; done. }
  assert (∀ x, live s' j' x → (x = hole ∧ slot_at s' x = slot_at s j') ∨ (live s hole x ∧ x ≠ j' ∧ slot_at s' x = slot_at s x)) as Hl.
  { intros x (Hx & Hxj & Ho%Hocc); [|done]. rewrite Hsl by done. unfold live.
    destruct (Z.eqb_spec hole x) as [<-|]; [by left|right]. split_and!; done. }
  assert (live s hole j') as Hlj by done.
  split_and!; [constructor| |done|].
  - by apply put_sized.
  - done.
  - done.
  - by apply Hocc.
  - intros i Hi x Hx Hxd. apply Hocc; [done|]. pose proof (home_inside (fst (slot_at s j'))).
    destruct (Hl i Hi) as [[-> Ei]|(Hi' & _ & Ei)]; rewrite Ei in Hxd; [|by apply (Hp i)].
    apply (Hp j'); [done..|]. cyc.
  - intros i (Hi & Hij & _) h. unfold h. cyc.
  - intros i k Hi Hk. destruct (Hl i Hi) as [[-> ->]|(Hi' & Hij & ->)], (Hl k Hk) as [[-> ->]|(Hk' & Hkj & ->)]; [done|..].
    + intros E. by destruct Hkj; apply (Hu k j').
    + intros E. by destruct Hij; apply (Hu i j').
    + by apply Hu.
  - unfold s'. rewrite taken_put by done. unfold occ in Hho, Hoj.
    destruct (Z.eqb_spec (fst (slot_at s hole)) 0), (Z.eqb_spec (fst (slot_at s j')) 0); [done..|]. cbn. lia.
  - intros a o. split; intros (i & Hi & Ei).
    + destruct (Hl i Hi) as [[-> Es]|(Hi' & _ & Es)]; [by exists j'; rewrite <- Es|]. exists i. by rewrite <- Es.
    + destruct (decide (i = j')) as [->|Hij].
      * exists hole. split; [split_and!; [done|done|by apply Hocc]|]. by rewrite Hsl, Z.eqb_refl by done.
      * destruct Hi as (Hi & Hih & Hio). exists i. split; [split_and!; [done|done|by apply Hocc]|].
        rewrite Hsl by done. destruct (Z.eqb_spec hole i); [congruence|done].
Qed.

Lemma remove_loop_ends fuel s hole j e : holed s hole j → inside e → fst (slot_at s e) = 0 →
  dist hole j < dist hole e → dist j e < Z.of_nat fuel →
  ∃ s' hole', remove_loop fuel s hole j = Some (s', hole') ∧ holed s' hole' hole' ∧ taken s' = taken s
    ∧ (∀ i, live s' hole' i → let h := home (fst (slot_at s' i)) in dist h i ≤ dist h hole')
    ∧ ∀ a o, rest s' hole' a o ↔ rest s hole a o.
Proof.
  revert s hole j. induction fuel as [|fuel IH]; intros s hole j Hw He He0 Hje Hf; [cyc|].
  pose proof Hw as [Hs Hh Hj Hho Hp Ha Hu]. cbn [remove_loop]. rewrite land_next by done.
  set (j' := if j =? 1023 then 0 else j + 1). assert (inside j') as Hj' by (unfold j'; cyc).
  assert (hole ≠ e) as Hhe by (unfold occ in Hho; congruence).
  assert (dist hole j' = dist hole j + 1) as Hd1 by (unfold j'; cyc).
  assert (j ≠ e) as Hjne by (intros ->; lia).
  assert (dist j' e = dist j e - 1) as Hd2 by (unfold j'; cyc).
  clearbody j'. assert (hole ≠ j') by cyc.
  assert (∀ i, inside i → i ≠ j' → dist hole j < dist hole i → dist hole j' < dist hole i) as Hstep by (intros i Hi; cyc).
  destruct (Z.eqb_spec (fst (slot_at s j')) 0) as [E0|E0].
  - exists s, hole. split_and!; [done| |done| |done].
    + constructor; try done. intros i Hi h Hd. pose proof (Ha i Hi Hd). cyc.
    + intros i Hi. cbv zeta. set (h := home (fst (slot_at s i))) in *. destruct (decide (dist h hole < dist h i)) as [Hd|]; [|lia]. exfalso.
      pose proof (Ha i Hi Hd) as Hlt. destruct Hi as (Hi & Hih & Hio).
      assert (i ≠ j') by (intros ->; done). pose proof (home_inside (fst (slot_at s i))) as Hin. fold h in Hin.
      assert (live s hole i) as Hl by done. apply (Hp i Hl j' Hj'); [fold h; specialize (Hstep i Hi ltac:(done) Hlt); cyc|done].
  - pose proof (home_inside (fst (slot_at s j'))) as Hin. rewrite !land_dist by done.
    assert (j' ≠ e) by congruence. destruct (Z.leb_spec (dist hole j') (dist (home (fst (slot_at s j'))) j')) as [Hle|Hgt].
    + destruct (holed_moves s hole j j') as (Hw' & Ht & Hocc & Hr); [done..|].
      destruct (IH (put_slot hole (slot_at s j') s) j' j') as (s' & h' & E & ? & ? & ? & Hr'); [done|done| |cyc|lia|].
      { rewrite slot_put by done. destruct (Z.eqb_spec hole e); [done|done]. }
      exists s', h'. split_and!; [done|done|lia|done|]. intros a o. by rewrite Hr'.
    + apply IH; [|done..|cyc|lia]. constructor; try done. intros i Hi h Hd. apply Hstep; [apply Hi| |by apply (Ha i Hi)].
      intros ->. unfold h in Hd. cyc.
Qed.

End slots.

(** Dropping the hole once no run goes through it. *)
Lemma hole_freed s hole : holed s hole hole → taken s ≤ 1024 →
  (∀ i, live s hole i → let h := home (fst (slot_at s i)) in dist h i ≤ dist h hole) →
  let s' := put_slot hole (0, 0) s in
  table_wf s' ∧ ∀ a o, a ≠ 0 → holds s' a o ↔ rest s hole a o.
Proof.
  intros [Hs Hh _ Hho Hp _ Hu] Ht Hpast s'.
  assert (∀ x, inside x → slot_at s' x = if hole =? x then (0, 0) else slot_at s x) as Hsl by (intros; by apply slot_put).
  assert (∀ x, inside x → occ s' x → live s hole x ∧ slot_at s' x = slot_at s x) as Hl.
  { intros x Hx. unfold occ. rewrite Hsl by done. unfold live, occ. destruct (Z.eqb_spec hole x); [done|]. intros ?. split_and!; congruence. }
  split; [constructor|].
  - by apply put_sized.
  - unfold s'. rewrite taken_put by done. unfold occ in Hho. destruct (Z.eqb_spec (fst (slot_at s hole)) 0); [done|]. cbn. lia.
  - intros i Hi Ho x Hx Hd. destruct (Hl i Hi Ho) as [Hi' Ei]. rewrite Ei in Hd.
    specialize (Hpast i Hi'). cbv zeta in Hpast. specialize (Hp i Hi' x Hx Hd). unfold occ. rewrite Hsl by done.
    destruct (Z.eqb_spec hole x) as [->|]; [lia|done].
  - intros i k Hi Hk Ho E. destruct (Hl i Hi Ho) as [Hi' Ei]. assert (occ s' k) as Hok by (unfold occ in *; congruence).
    destruct (Hl k Hk Hok) as [Hk' Ek]. apply Hu; [done|done|congruence].
  - intros a o Ha. split.
    + intros (i & Hi & Ei). destruct (Hl i Hi) as [Hi' Es]; [unfold occ; by rewrite Ei|]. exists i. by rewrite <- Es.
    + intros (i & (Hi & Hne & _) & Ei). exists i. split; [done|]. rewrite Hsl by done. by destruct (Z.eqb_spec hole i).
Qed.

(** ** The table as a finite map *)

Record represents (t : MutexOwners) (m : gmap Z Z) : Prop := {
  rp_wf : table_wf (slots t);
  rp_len : olen t = taken (slots t);
  rp_size : olen t = Z.of_nat (size m);
  rp_map a o : m !! a = Some o ↔ a ≠ 0 ∧ holds (slots t) a o;
}.

(** What the records mean: a hold is recorded unless it is a new one and the map is full. *)
Definition apply_map (r : MutexRecord) (m : gmap Z Z) : gmap Z Z :=
  if rtaken r then
    if decide (is_Some (m !! rmutex r) ∨ Z.of_nat (size m) + 1 < OWNED_MUTEXES)
    then <[rmutex r := rlineage r]> m else m
  else delete (rmutex r) m.

Definition apply_all (rs : list MutexRecord) (t : MutexOwners) : option MutexOwners :=
  foldl (λ t r, t ← t; apply_record r t) (Some t) rs.
Definition map_all (rs : list MutexRecord) (m : gmap Z Z) : gmap Z Z := foldl (λ m r, apply_map r m) m rs.

Lemma default_represents : represents owners_default ∅.
Proof.
  assert (∀ i, slot_at (slots owners_default) i = (0, 0)) as H0.
  { intros i. unfold slot_at, owners_default. cbn [slots]. destruct (_ !! _) as [e|] eqn:E; [|done].
    by apply lookup_replicate in E as [-> _]. }
  split; [constructor|by vm_compute|done|].
  - by vm_compute.
  - by vm_compute.
  - intros i _ []. by rewrite H0.
  - intros i j _ _ []. by rewrite H0.
  - intros a o. rewrite lookup_empty. split; [done|]. intros (? & i & _ & Ei). rewrite H0 in Ei. congruence.
Qed.

Lemma unheld t m a : represents t m → a ≠ 0 → (∀ o, ¬ holds (slots t) a o) → m !! a = None.
Proof. intros Hr Ha Hn. destruct (m !! a) as [o|] eqn:E; [|done]. by apply (rp_map _ _ Hr) in E as [_ ?%Hn]. Qed.

Lemma held_here t m a i : represents t m → a ≠ 0 → inside i → fst (slot_at (slots t) i) = a →
  m !! a = Some (snd (slot_at (slots t) i)).
Proof.
  intros Hr Ha Hi E. apply (rp_map _ _ Hr). split; [done|]. exists i. split; [done|]. rewrite <- E.
  by destruct (slot_at (slots t) i).
Qed.

Lemma insert_represents t m a o : represents t m → a ≠ 0 →
  represents (insert_owner a o t) (apply_map (mk_record a o true) m).
Proof.
  intros Hr Ha. pose proof (rp_wf _ _ Hr) as Hw. unfold apply_map, insert_owner. cbn [rtaken rmutex rlineage].
  destruct (find_spec t a Hw Ha) as (i & -> & Hi & Hp & Hc).
  assert (∀ t', slots t' = put_slot i (a, o) (slots t) → olen t' = taken (slots t') →
    olen t' = Z.of_nat (size (<[a := o]> m)) →
    fst (slot_at (slots t) i) = a ∨ (fst (slot_at (slots t) i) = 0 ∧ (∀ o, ¬ holds (slots t) a o) ∧ taken (slots t) + 1 < 1024) →
    represents t' (<[a := o]> m)) as Hput.
  { intros t' Es Hl Hsz Hc'. destruct (put_wf (slots t) i a o Hw Hi Ha Hp Hc') as [Hw' Hh]. split; rewrite ?Es; [done|by rewrite <- Es|done|].
    intros b p. rewrite lookup_insert_Some, (rp_map _ _ Hr). destruct (decide (b = 0)) as [->|Hb].
    - split; [|tauto]. intros [[? ?]|(_ & ? & _)]; congruence.
    - rewrite Hh by done. destruct (decide (b = a)) as [->|]; naive_solver. }
  pose proof (rp_len _ _ Hr) as Hl. pose proof (rp_size _ _ Hr) as Hsz.
  destruct Hc as [Hc|[Hc Hn]]; rewrite Hc.
  - destruct (Z.eqb_spec a 0); [done|]. rewrite decide_True by (left; by rewrite (held_here t m a i)).
    apply Hput; [done| | |by left]; cbn [slots olen].
    + rewrite taken_put by (done || apply Hw). rewrite Hc. cbn [fst]. lia.
    + rewrite map_size_insert_Some by by rewrite (held_here t m a i). done.
  - cbn [Z.eqb]. pose proof (unheld t m a Hr Ha Hn) as Hm. unfold OWNED_MUTEXES in *. destruct (Z.leb_spec 1024 (olen t + 1)).
    + rewrite decide_False; [done|]. rewrite Hm. intros [[]|]; [done|lia].
    + rewrite decide_True by lia. apply Hput; [done| | |right; split_and!; [done|done|lia]]; cbn [slots olen].
      * rewrite taken_put by (done || apply Hw). rewrite Hc. cbn [fst]. destruct (Z.eqb_spec a 0); [done|]. cbn. lia.
      * rewrite map_size_insert_None by done. lia.
Qed.

Lemma remove_represents t m a : represents t m → a ≠ 0 →
  ∃ t', remove_owner a t = Some t' ∧ represents t' (delete a m).
Proof.
  intros Hr Ha. pose proof (rp_wf _ _ Hr) as Hw. unfold remove_owner.
  destruct (find_spec t a Hw Ha) as (i & -> & Hi & _ & Hc). destruct Hc as [Hc|[Hc Hn]]; rewrite Hc; cycle 1.
  { destruct (Z.eqb_spec 0 a); [congruence|]. exists t. split; [done|]. by rewrite delete_id by by apply (unheld t). }
  rewrite Z.eqb_refl. destruct (free_exists (slots t)) as (e & He & He0); [apply Hw..|].
  assert (i ≠ e) by congruence. assert (occ (slots t) i) as Ho by (unfold occ; congruence).
  destruct (remove_loop_ends (Z.to_nat OWNED_MUTEXES) (slots t) i i e) as (s' & h & -> & Hh & Ht & Hpast & Hrest).
  { constructor; try done; [apply Hw|..].
    - intros k (Hk & _ & Hko). by apply Hw.
    - intros k (Hk & Hne & _) h. cyc.
    - intros k k' (Hk & _ & Hko) (Hk' & _ & _). by apply (tw_unique _ Hw). }
  { done. } { done. } { cyc. } { change (Z.of_nat (Z.to_nat OWNED_MUTEXES)) with 1024. cyc. }
  eexists. split; [done|]. pose proof (tw_free _ Hw). destruct (hole_freed s' h Hh) as [Hw' Hhold]; [lia|done|].
  pose proof (held_here t m a i Hr Ha Hi Hc) as Hm. pose proof (rp_len _ _ Hr). pose proof (rp_size _ _ Hr).
  split; cbn [slots olen]; [done|..].
  - rewrite taken_put by (apply Hh). pose proof (ho_occ _ _ _ Hh) as Hoh. unfold occ in Hoh.
    destruct (Z.eqb_spec (fst (slot_at s' h)) 0); [done|]. cbn. lia.
  - rewrite map_size_delete_Some by by rewrite Hm. pose proof (map_size_ne_0_lookup_2 m a ltac:(by rewrite Hm)). lia.
  - intros b p. rewrite lookup_delete_Some, (rp_map _ _ Hr). destruct (decide (b = 0)) as [->|Hb]; [naive_solver|].
    rewrite Hhold, Hrest by done. split.
    + intros (Hne & _ & k & Hk & Ek). split; [done|]. exists k. split; [|done].
      split_and!; [done| |unfold occ; by rewrite Ek]. intros ->. rewrite Ek in Hc. by destruct Hne.
    + intros (_ & k & (Hk & Hki & Hko) & Ek). split_and!; [|done|by exists k]. intros ->. destruct Hki.
      apply (tw_unique _ Hw); [done..|]. by rewrite Ek.
Qed.

Lemma record_represents t m r : represents t m → rmutex r ≠ 0 →
  ∃ t', apply_record r t = Some t' ∧ represents t' (apply_map r m).
Proof.
  intros Hr Ha. destruct r as [a o []]; unfold apply_record; cbn [rtaken rmutex rlineage] in *.
  - eexists. split; [done|]. by apply insert_represents.
  - by apply remove_represents.
Qed.

Lemma apply_all_represents rs t m : represents t m → Forall (λ r, rmutex r ≠ 0) rs →
  ∃ t', apply_all rs t = Some t' ∧ represents t' (map_all rs m).
Proof.
  intros Hr Hrs. revert t m Hr. unfold apply_all, map_all. induction Hrs as [|r rs Hz _ IH]; intros t m Hr; [by exists t|].
  cbn [foldl]. destruct (record_represents t m r Hr Hz) as (t' & E & Hr'). cbn. rewrite E. by apply IH.
Qed.

Section queries.
Variables (t : MutexOwners) (m : gmap Z Z).
Hypothesis Hr : represents t m.

Lemma owner_of_represents a : a ≠ 0 → owner_of t a = m !! a.
Proof.
  intros Ha. unfold owner_of. destruct (find_spec t a (rp_wf _ _ Hr) Ha) as (i & -> & Hi & _ & [Hc|[Hc Hn]]); cbn; rewrite Hc.
  - rewrite Z.eqb_refl. symmetry. by apply held_here.
  - destruct (Z.eqb_spec 0 a); [congruence|]. symmetry. by apply (unheld t).
Qed.

Lemma contains_represents a : a ≠ 0 → contains t a = bool_decide (is_Some (m !! a)).
Proof.
  intros Ha. rewrite <- owner_of_represents by done. unfold contains, owner_of.
  destruct (find_slot t a) as [i|]; cbn; [|done]. by destruct (fst (slot_at (slots t) i) =? a).
Qed.

Lemma slot_listed a o : a ≠ 0 → (a, o) ∈ slots t ↔ m !! a = Some o.
Proof.
  intros Ha. rewrite (rp_map _ _ Hr). pose proof (tw_sized _ (rp_wf _ _ Hr)) as Hs. unfold sized in Hs.
  unfold holds, slot_at, inside. rewrite list_elem_of_lookup. split.
  - intros [i Ei]. split; [done|]. exists (Z.of_nat i). pose proof (lookup_lt_Some _ _ _ Ei).
    rewrite Nat2Z.id, Ei. split; [lia|done].
  - intros (_ & i & Hi & Ei). exists (Z.to_nat i). destruct (lookup_lt_is_Some_2 (slots t) (Z.to_nat i)) as [x Hx]; [lia|].
    rewrite Hx in *. by rewrite <- Ei.
Qed.

Lemma held_by_represents o :
  match held_by t o with Some a => m !! a = Some o | None => ∀ a, m !! a ≠ Some o end.
Proof.
  unfold held_by. destruct (find_first _ _) as [[a o']|] eqn:E; cbn.
  - apply find_first_Some in E as [Hin [H0%negb_true_iff%Z.eqb_neq Ho%Z.eqb_eq]%andb_true_iff]. cbn in *. subst o'.
    by apply slot_listed.
  - rewrite find_first_None in E. intros a Hm. pose proof Hm as [Ha _]%(rp_map _ _ Hr).
    apply (slot_listed a o Ha) in Hm. specialize (E _ Hm). cbn in E. rewrite Z.eqb_refl, andb_true_r in E.
    by apply negb_false_iff, Z.eqb_eq in E.
Qed.

End queries.

(** C29: Whatever mutexes are taken and let go, in whatever order, the table of holders ends each
    change and answers as a finite map would: who holds a mutex, whether anyone does, and one of
    the mutexes a thread holds, if it holds any; a hold is left out only when it is a new one and
    1023 are recorded. *)
Theorem owners_refine_map rs : Forall (λ r, rmutex r ≠ 0) rs →
  ∃ t, apply_all rs owners_default = Some t ∧ let m := map_all rs ∅ in
    (∀ a, a ≠ 0 → owner_of t a = m !! a ∧ contains t a = bool_decide (is_Some (m !! a))) ∧
    (∀ o, match held_by t o with Some a => m !! a = Some o | None => ∀ a, m !! a ≠ Some o end) ∧
    olen t = Z.of_nat (size m) ∧ olen t < OWNED_MUTEXES.
Proof.
  intros Hrs. destruct (apply_all_represents rs _ _ default_represents Hrs) as (t & E & Hr).
  exists t. split; [done|]. cbv zeta. split_and!.
  - intros a Ha. split; [by apply owner_of_represents|by apply contains_represents].
  - intros o. by apply held_by_represents.
  - apply (rp_size _ _ Hr).
  - rewrite (rp_len _ _ Hr). apply Hr.
Qed.

(** Four mutexes whose runs share the end of the table and its start; the first is let go. *)
Definition run_around : list MutexRecord :=
  [mk_record 7896 1 true; mk_record 15792 2 true; mk_record 4880 3 true; mk_record 20672 1 true; mk_record 7896 1 false].

Lemma owners_refine_map_witness :
  (∃ t, apply_all run_around owners_default = Some t ∧ owner_of t 20672 = Some 1 ∧ contains t 7896 = false) ∧
  map home [7896; 15792; 4880; 20672] = [1023; 1023; 0; 1023].
Proof.
  split; [|vm_compute; reflexivity].
  destruct (owners_refine_map run_around) as (t & E & Hq & _); [repeat constructor; discriminate|].
  exists t. split; [exact E|]. destruct (Hq 20672) as [H1 _]; [discriminate|]. destruct (Hq 7896) as [_ H2]; [discriminate|].
  rewrite H1, H2. split; vm_compute; reflexivity.
Defined.
