(* ===== verification/Sched.v ===== *)
(** * The deterministic schedule

    [Scheduler] of crates/snare-interpose/src/sched.rs on Linux: one thread of a domain runs at a
    time, and hands the baton on only where it waits. Each definition is what a call does with the
    state locked; a call that lets go of the lock in between is split there, [park] is the wait for
    a grant, and [Driver] says where a dispatch stands while it has the lock let go.

    What a dispatch asks the domain (its clock, leases, the memory its waiters watch) are readings
    it is given, one [Reading] for each turn of its loop. A parker is the grant it holds: the rest
    of [Parker] decides how long a parked thread spins before it sleeps. A thread is its lineage. *)

From S2P Require Import Prelude Owners.

(** ** Keys and wakes *)

Inductive DetKey := Readiness | Addr (addr : Z) | Exit (t : Z).
#[export] Instance DetKey_eq_dec : EqDecision DetKey.
Proof. solve_decision. Defined.

Inductive ReadinessKey := Socket (id : Z) | Descriptor (id : Z) | Thread (id : Z) | Real (id : Z).
#[export] Instance ReadinessKey_eq_dec : EqDecision ReadinessKey.
Proof. solve_decision. Defined.

Inductive ReadinessWake := All | Timer | Keys (keys : list ReadinessKey).
Inductive DetWake := Woken | TimedOut | Deadlock.
#[export] Instance DetWake_eq_dec : EqDecision DetWake.
Proof. solve_decision. Defined.

Record ReadinessInterest := mk_interest {
  inline : list ReadinessKey; ilen : Z; overflow : list ReadinessKey; broad : bool; timed : bool }.

(** [ReadinessInterest::new] *)
Definition interest_new (keys : option (list ReadinessKey)) (timed_ : bool) : ReadinessInterest :=
  match keys with
  | None => mk_interest (replicate 8 (Socket 0)) 0 [] true timed_
  | Some ks =>
      let n := Z.of_nat (length ks) in
      if n <=? 8 then mk_interest (ks ++ replicate (8 - length ks) (Socket 0)) n [] false timed_
      else mk_interest (replicate 8 (Socket 0)) n ks false timed_
  end.

(** [ReadinessInterest::matches] *)
Definition interest_matches (event : ReadinessWake) (i : ReadinessInterest) : bool :=
  broad i ||
  match event with
  | All => true
  | Timer => timed i
  | Keys keys =>
      let interests := match overflow i with [] => take (Z.to_nat (ilen i)) (inline i) | o => o end in
      existsb (λ key, bool_decide (key ∈ interests)) keys
  end.

(** ** Parkers: the pending grant *)

Inductive Grant := Run (why : DetWake) | Dispatch.
#[export] Instance Grant_eq_dec : EqDecision Grant.
Proof. solve_decision. Defined.

(** [Parker::grant], [delegate] and [forget] *)
Definition grant_run (why : DetWake) (_ : option Grant) : option Grant := Some (Run why).
Definition delegate (g : option Grant) : option Grant :=
  match g with Some g => Some g | None => Some Dispatch end.
Definition forget (_ : option Grant) : option Grant := None.

(** ** Waits *)

Record Blocked := mk_blocked {
  key : DetKey; mask : Z; futex_private : option bool; readiness : option ReadinessInterest;
  deadline : option Z; signal_version : option Z; futex_value : option Z; outside_holder : bool }.

(** What waiters watch: the signal counts of addresses and the futex words. *)
Record Memory := mk_memory { signal_version_masked : Z → Z → option bool → option Z; word : Z → Z }.

(** [Blocked::should_repoll] *)
Definition should_repoll (m : Memory) (b : Blocked) : bool :=
  match key b with
  | Addr addr =>
      let signalled :=
        match signal_version b with
        | Some version => negb (bool_decide (signal_version_masked m addr (mask b) (futex_private b) = Some version))
        | None => false
        end in
      match futex_value b with
      | Some value => signalled || negb (word m addr =? value)
      | None => bool_decide (signal_version b = None) || signalled
      end
  | _ => false
  end.

(** [Blocked::changed_outside] *)
Definition changed_outside (m : Memory) (b : Blocked) : bool :=
  (negb (bool_decide (signal_version b = None)) || negb (bool_decide (futex_value b = None))) && should_repoll m b.

(** ** Threads *)

Record Slot := mk_slot {
  grant : option Grant; runnable : option DetWake; blocked : option (Blocked * Z);
  repolled : option DetKey; let_go : bool; outside : option DetKey; spinner : option bool }.

(** [Slot::new] *)
Definition slot_new : Slot := mk_slot None None None None false None None.

Definition set_grant (f : option Grant → option Grant) (s : Slot) : Slot :=
  mk_slot (f (grant s)) (runnable s) (blocked s) (repolled s) (let_go s) (outside s) (spinner s).
Definition put_runnable (r : option DetWake) (s : Slot) : Slot :=
  mk_slot (grant s) r (blocked s) (repolled s) (let_go s) (outside s) (spinner s).
Definition put_blocked (b : option (Blocked * Z)) (s : Slot) : Slot :=
  mk_slot (grant s) (runnable s) b (repolled s) (let_go s) (outside s) (spinner s).
Definition put_repolled (r : option DetKey) (s : Slot) : Slot :=
  mk_slot (grant s) (runnable s) (blocked s) r (let_go s) (outside s) (spinner s).
Definition put_let_go (l : bool) (s : Slot) : Slot :=
  mk_slot (grant s) (runnable s) (blocked s) (repolled s) l (outside s) (spinner s).
Definition put_outside (o : option DetKey) (s : Slot) : Slot :=
  mk_slot (grant s) (runnable s) (blocked s) (repolled s) (let_go s) o (spinner s).
Definition put_spinner (b : option bool) (s : Slot) : Slot :=
  mk_slot (grant s) (runnable s) (blocked s) (repolled s) (let_go s) (outside s) b.

(** [Threads], ordered by lineage *)
Abbreviation Threads := (list (Z * Slot)).

Definition get (t : Z) (ts : Threads) : option Slot := snd <$> find_first (λ e, fst e =? t) ts.
(** [get_mut], with what the caller does to the slot *)
Definition get_mut (t : Z) (f : Slot → Slot) (ts : Threads) : Threads :=
  map (λ e, if fst e =? t then (fst e, f (snd e)) else e) ts.
(** [get_or_insert]; the room for one more is made before *)
Fixpoint get_or_insert (t : Z) (ts : Threads) : Threads :=
  match ts with
  | [] => [(t, slot_new)]
  | e :: rest =>
      if t <? fst e then (t, slot_new) :: e :: rest
      else if fst e =? t then e :: rest
      else e :: get_or_insert t rest
  end.
Definition remove (t : Z) (ts : Threads) : Threads := retain (λ e, negb (fst e =? t)) ts.

(** ** Keys woken from outside *)

Definition FOREIGN_KEYS : Z := 64.
Record ForeignKeys := mk_foreign { fkeys : list (option DetKey); fnext : Z }.
Definition foreign_default : ForeignKeys := mk_foreign (replicate (Z.to_nat FOREIGN_KEYS) None) 0.

(** [ForeignKeys::insert] *)
Definition foreign_insert (k : DetKey) (f : ForeignKeys) : ForeignKeys :=
  if bool_decide (Some k ∈ fkeys f) then f
  else match position (λ o, bool_decide (o = None)) (fkeys f) with
  | Some free => mk_foreign (<[free := Some k]> (fkeys f)) (fnext f)
  | None =>
      let next := (fnext f + 1) mod FOREIGN_KEYS in
      mk_foreign (<[Z.to_nat next := Some k]> (fkeys f)) next
  end.

(** [ForeignKeys::remove] *)
Definition foreign_remove (k : DetKey) (f : ForeignKeys) : bool * ForeignKeys :=
  match position (λ o, bool_decide (o = Some k)) (fkeys f) with
  | Some i => (true, mk_foreign (<[i := None]> (fkeys f)) (fnext f))
  | None => (false, f)
  end.

(** [ForeignKeys::clear] *)
Definition foreign_clear (f : ForeignKeys) : ForeignKeys :=
  mk_foreign (replicate (Z.to_nat FOREIGN_KEYS) None) (fnext f).

Definition UNEXPLAINED_KEYS : Z := 16.
Abbreviation Unexplained := (list (option DetKey)).
Definition unexplained_default : Unexplained := replicate (Z.to_nat UNEXPLAINED_KEYS) None.

(** [Unexplained::note], [explain] and [take] *)
Definition note (k : DetKey) (u : Unexplained) : bool * Unexplained :=
  match position (λ o, bool_decide (o = None)) u with
  | Some free => (true, <[free := Some k]> u)
  | None => (false, u)
  end.
Definition explain_keys (k : DetKey) (u : Unexplained) : Unexplained :=
  map (λ o, if bool_decide (o = Some k) then None else o) u.
Definition take_keys (u : Unexplained) : Z * Unexplained :=
  (Z.of_nat (length (retain (λ o, negb (bool_decide (o = None))) u)), unexplained_default).

(** ** The state *)

Definition EXTERNAL : Z := u64_max.

Record State := mk_state {
  holder : option Z; threads : Threads; n_runnable : Z; n_blocked : Z; next_wait : Z; last : Z;
  before_last : Z; exited : list Z; handles : list (Z * Z); idle_since : option Z; warned : bool;
  waits : Z; roots : Z; foreign : ForeignKeys; owners : MutexOwners; unexplained : Unexplained;
  (** the domain's count of outside wakes *)
  outside_wakes : Z }.

Definition state_default : State :=
  mk_state None [] 0 0 0 0 0 [] [] None false 0 0 foreign_default owners_default unexplained_default 0.

Definition with_holder (h : option Z) (st : State) : State :=
  mk_state h (threads st) (n_runnable st) (n_blocked st) (next_wait st) (last st) (before_last st) (exited st)
    (handles st) (idle_since st) (warned st) (waits st) (roots st) (foreign st) (owners st) (unexplained st) (outside_wakes st).
(** The threads, with how many are ready to run and waiting *)
Definition with_threads (ts : Threads) (r b : Z) (st : State) : State :=
  mk_state (holder st) ts r b (next_wait st) (last st) (before_last st) (exited st)
    (handles st) (idle_since st) (warned st) (waits st) (roots st) (foreign st) (owners st) (unexplained st) (outside_wakes st).
Definition with_waits (next w : Z) (st : State) : State :=
  mk_state (holder st) (threads st) (n_runnable st) (n_blocked st) next (last st) (before_last st) (exited st)
    (handles st) (idle_since st) (warned st) w (roots st) (foreign st) (owners st) (unexplained st) (outside_wakes st).
Definition with_last (l bl : Z) (st : State) : State :=
  mk_state (holder st) (threads st) (n_runnable st) (n_blocked st) (next_wait st) l bl (exited st)
    (handles st) (idle_since st) (warned st) (waits st) (roots st) (foreign st) (owners st) (unexplained st) (outside_wakes st).
Definition with_tables (e : list Z) (h : list (Z * Z)) (st : State) : State :=
  mk_state (holder st) (threads st) (n_runnable st) (n_blocked st) (next_wait st) (last st) (before_last st) e
    h (idle_since st) (warned st) (waits st) (roots st) (foreign st) (owners st) (unexplained st) (outside_wakes st).
Definition with_idle (i : option Z) (w : bool) (st : State) : State :=
  mk_state (holder st) (threads st) (n_runnable st) (n_blocked st) (next_wait st) (last st) (before_last st) (exited st)
    (handles st) i w (waits st) (roots st) (foreign st) (owners st) (unexplained st) (outside_wakes st).
Definition with_roots (r : Z) (st : State) : State :=
  mk_state (holder st) (threads st) (n_runnable st) (n_blocked st) (next_wait st) (last st) (before_last st) (exited st)
    (handles st) (idle_since st) (warned st) (waits st) r (foreign st) (owners st) (unexplained st) (outside_wakes st).
Definition with_foreign (f : ForeignKeys) (st : State) : State :=
  mk_state (holder st) (threads st) (n_runnable st) (n_blocked st) (next_wait st) (last st) (before_last st) (exited st)
    (handles st) (idle_since st) (warned st) (waits st) (roots st) f (owners st) (unexplained st) (outside_wakes st).
Definition with_owners (o : MutexOwners) (st : State) : State :=
  mk_state (holder st) (threads st) (n_runnable st) (n_blocked st) (next_wait st) (last st) (before_last st) (exited st)
    (handles st) (idle_since st) (warned st) (waits st) (roots st) (foreign st) o (unexplained st) (outside_wakes st).
Definition with_unexplained (u : Unexplained) (o : Z) (st : State) : State :=
  mk_state (holder st) (threads st) (n_runnable st) (n_blocked st) (next_wait st) (last st) (before_last st) (exited st)
    (handles st) (idle_since st) (warned st) (waits st) (roots st) (foreign st) (owners st) u o.

(** A change to the slot of one thread *)
Definition upd (t : Z) (f : Slot → Slot) (st : State) : State :=
  with_threads (get_mut t f (threads st)) (n_runnable st) (n_blocked st) st.
Definition slot (t : Z) (st : State) : option Slot := get t (threads st).

Definition is_some {A} (o : option A) : bool := match o with Some _ => true | None => false end.

(** [running], [counts], [hold_external], [idle], [State::holder], [held_externally] *)
Definition running (st : State) : option Z :=
  match holder st with
  | Some t => if t =? EXTERNAL then fst <$> find_first (λ e, is_some (runnable (snd e))) (threads st) else Some t
  | None => fst <$> find_first (λ e, is_some (runnable (snd e))) (threads st)
  end.
Definition counts (st : State) : Z * Z :=
  (n_runnable st + b2z (match holder st with Some t => negb (t =? EXTERNAL) | None => false end), n_blocked st).
Definition hold_external (st : State) : State := with_holder (Some EXTERNAL) st.
Definition idle (st : State) : bool := negb (is_some (holder st)) && (n_runnable st =? 0).
Definition thread_holder (st : State) : option Z :=
  match holder st with Some t => if t =? EXTERNAL then None else Some t | None => None end.
Definition held_externally (st : State) : bool := bool_decide (holder st = Some EXTERNAL).

Definition STALL_WARN : Z := 1000000000.

(** [note_idle], with the real time it reads, and [end_idle] *)
Definition note_idle (now : Z) (st : State) : bool * State :=
  let since := match idle_since st with Some s => s | None => now end in
  let st := with_idle (Some since) (warned st) st in
  if warned st || (Z.max 0 (now - since) <? STALL_WARN) then (false, st)
  else (true, with_idle (Some since) true st).
Definition end_idle (st : State) : State := with_idle None false st.

(** [settle_repoll] *)
Definition settle_repoll (t : Z) (blocked_on : option DetKey) (st : State) : State :=
  match s ← slot t st; repolled s with
  | Some k =>
      let st := upd t (put_repolled None) st in
      if bool_decide (blocked_on = Some k) then st
      else let '(noted, u) := note k (unexplained st) in
           with_unexplained u (outside_wakes st + b2z (negb noted)) st
  | None => st
  end.

(** [State::explain] *)
Definition explain (k : DetKey) (st : State) : State :=
  let ts := map (λ e, if bool_decide (repolled (snd e) = Some k) then (fst e, put_repolled None (snd e)) else e) (threads st) in
  with_unexplained (explain_keys k (unexplained st)) (outside_wakes st)
    (with_threads ts (n_runnable st) (n_blocked st) st).

(** [set_runnable], [set_runnable_if_not]; the nudge they give concerns how the thread sleeps. *)
Definition set_runnable (t : Z) (why : DetWake) (st : State) : State :=
  match slot t st with
  | Some s =>
      with_threads (get_mut t (put_runnable (Some why)) (threads st))
        (n_runnable st + b2z (negb (is_some (runnable s)))) (n_blocked st) st
  | None => st
  end.
Definition set_runnable_if_not (t : Z) (why : DetWake) (st : State) : State :=
  match slot t st with
  | Some s => if is_some (runnable s) then st else set_runnable t why st
  | None => st
  end.

(** [take_runnable], [is_runnable] *)
Definition take_runnable (t : Z) (st : State) : option DetWake * State :=
  match s ← slot t st; runnable s with
  | Some why => (Some why, with_threads (get_mut t (put_runnable None) (threads st)) (n_runnable st - 1) (n_blocked st) st)
  | None => (None, st)
  end.
Definition is_runnable (t : Z) (st : State) : bool := is_some (s ← slot t st; runnable s).

(** [set_blocked], [take_blocked] *)
Definition set_blocked (t : Z) (b : Blocked) (st : State) : State :=
  match slot t st with
  | Some s =>
      with_waits (next_wait st + 1) (waits st)
        (with_threads (get_mut t (put_blocked (Some (b, next_wait st))) (threads st)) (n_runnable st)
           (n_blocked st + b2z (negb (is_some (blocked s)))) st)
  | None => st
  end.
Definition take_blocked (t : Z) (st : State) : option Blocked * State :=
  match s ← slot t st; blocked s with
  | Some (b, _) => (Some b, with_threads (get_mut t (put_blocked None) (threads st)) (n_runnable st) (n_blocked st - 1) st)
  | None => (None, st)
  end.

(** [first_blocked_parker], as the thread whose it is *)
Definition first_blocked (st : State) : option Z :=
  fst <$> find_first (λ e, is_some (blocked (snd e))) (threads st).

(** ** Waking *)

(** [unblock] *)
Definition unblock (t : Z) (why : DetWake) (st : State) : State :=
  match take_blocked t st with
  | (Some _, st) => set_runnable t why st
  | (None, st) => st
  end.

(** A loop over the threads by index, each looked at as the turns before left it *)
Definition each_thread (f : Z → Slot → State → State) (st : State) : State :=
  foldl (λ st i, match threads st !! i with Some (t, s) => f t s st | None => st end) st (seq 0 (length (threads st))).

(** The closure [waiting] of [wake_key_matching]: when a waiter the wake may reach began to wait *)
Definition waiting (k : DetKey) (matches : Blocked → bool) (s : Slot) : option Z :=
  match blocked s with
  | Some (wait, order) => if bool_decide (key wait = k) && matches wait then Some order else None
  | None => None
  end.

(** The least of the pairs of when a waiter began to wait and the waiter *)
Definition pair_lt (x y : Z * Z) : bool := (fst x <? fst y) || ((fst x =? fst y) && (snd x <? snd y)).
Definition oldest (w : Slot → option Z) (ts : Threads) : option (Z * Z) :=
  foldl (λ best e, match w (snd e) with
                   | Some order => match best with
                                   | Some b => if pair_lt (order, fst e) b then Some (order, fst e) else Some b
                                   | None => Some (order, fst e)
                                   end
                   | None => best
                   end) None ts.

(** Its loop when the wake does not reach all of them *)
Fixpoint wake_oldest (n : nat) (w : Slot → option Z) (why : DetWake) (st : State) : State :=
  match n with
  | O => st
  | S n => match oldest w (threads st) with
           | Some (_, t) => wake_oldest n w why (unblock t why st)
           | None => st
           end
  end.

(** [wake_key_matching] *)
Definition wake_key_matching (k : DetKey) (n : Z) (why : DetWake) (matches : Blocked → bool) (st : State) : Z * State :=
  let w := waiting k matches in
  let all := Z.of_nat (length (retain (λ e, is_some (w (snd e))) (threads st))) in
  if all <=? n then
    (all, each_thread (λ t s st, if is_some (w s) then unblock t why st else st) st)
  else (n, wake_oldest (Z.to_nat n) w why st).

(** [usize::MAX] *)
Definition everyone : Z := u64_max.

(** [wake_key_masked], [wake_key], [wake_readiness_key] *)
Definition wake_key_masked (k : DetKey) (n m : Z) (why : DetWake) (st : State) : Z * State :=
  wake_key_matching k n why (λ wait, negb (Z.land (mask wait) m =? 0)) st.
Definition wake_key (k : DetKey) (n : Z) (why : DetWake) (st : State) : Z * State :=
  wake_key_masked k n u32_max why st.
Definition wake_readiness_key (event : ReadinessWake) (st : State) : Z * State :=
  wake_key_matching Readiness everyone Woken
    (λ wait, match readiness wait with Some interest => interest_matches event interest | None => true end) st.

(** [release_due_matching], [release_due] *)
Definition release_due_matching (now : option Z) (matches : Blocked → bool) (st : State) : State :=
  match now with
  | None => st
  | Some now =>
      each_thread (λ t s st,
        match blocked s with
        | Some (b, _) =>
            if match deadline b with Some at_ => at_ <=? now | None => false end && matches b
            then unblock t TimedOut st else st
        | None => st
        end) st
  end.
Definition release_due (now : option Z) (st : State) : State := release_due_matching now (λ _, true) st.

(** [repoll_addr_waiters] *)
Definition repoll_addr_waiters (m : Memory) (st : State) : State :=
  each_thread (λ t s st,
    match blocked s with
    | Some (b, _) =>
        if should_repoll m b then upd t (put_repolled (Some (key b))) (unblock t Woken st) else st
    | None => st
    end) st.

(** [wake_outside]: the threads in order, and how many more to wake *)
Fixpoint outside_pass (k : DetKey) (n : Z) (ts : Threads) : Threads * Z * Z :=
  match ts with
  | [] => ([], 0, 0)
  | e :: rest =>
      if n =? 0 then (ts, 0, 0)
      else if bool_decide (outside (snd e) = Some k) then
        let s := put_runnable (Some Woken) (put_outside None (snd e)) in
        let '(rest, woken, fresh) := outside_pass k (n - 1) rest in
        ((fst e, s) :: rest, woken + 1, fresh + b2z (negb (is_some (runnable (snd e)))))
      else let '(rest, woken, fresh) := outside_pass k n rest in (e :: rest, woken, fresh)
  end.
Definition wake_outside (k : DetKey) (n : Z) (st : State) : Z * State :=
  let '(ts, woken, fresh) := outside_pass k n (threads st) in
  (woken, with_threads ts (n_runnable st + fresh) (n_blocked st) st).

(** [grant_next]: whether a thread was granted the baton *)
Definition next_thread (st : State) : option Z :=
  let ready e := is_some (runnable (snd e : Slot)) in
  match find_first (λ e, (last st <? fst e) && ready e) (threads st) with
  | Some e => Some (fst e)
  | None => fst <$> find_first ready (threads st)
  end.
Definition grant_next (st : State) : bool * State :=
  match next_thread st with
  | None => (false, st)
  | Some t =>
      let '(why, st1) := take_runnable t st in
      let st2 := end_idle (with_last t (last st) (with_holder (Some t) st1)) in
      (true, upd t (set_grant (grant_run (default Woken why))) st2)
  end.

(** [grant_if_idle] *)
Definition grant_if_idle (st : State) : State :=
  if is_some (holder st) then st else snd (grant_next st).

(** The baton handed on by a thread that leaves, or the duty of moving the schedule on *)
Definition hand_on (st : State) : State :=
  match grant_next (with_holder None st) with
  | (true, st) => st
  | (false, st) => match first_blocked st with Some t => upd t (set_grant delegate) st | None => st end
  end.

(** [disown]: each turn lets one mutex go, and the table has room for fewer than there are turns. *)
Fixpoint disown_loop (fuel : nat) (me : Z) (st : State) : bool * State :=
  match fuel with
  | O => (false, st)
  | S fuel =>
      match held_by (owners st) me with
      | None => (false, st)
      | Some addr =>
          let st := with_owners (default (owners st) (remove_owner addr (owners st))) st in
          let '(_, st) := wake_key (Addr addr) everyone Woken st in
          (true, snd (disown_loop fuel me st))
      end
  end.
Definition disown (me : Z) (st : State) : bool * State := disown_loop (Z.to_nat OWNED_MUTEXES) me st.

(** ** The scheduler *)

(** A wake from outside the schedule: its key, count, futex mask and scope *)
Record ForeignWake := mk_wake { wkey : DetKey; wcount : Z; wmask : Z; wscope : option bool }.

Record Scheduler := mk_sched {
  state : State; detached : bool; let_go_n : Z; foreign_queue : list ForeignWake; owner_records : list MutexRecord }.
Definition sched_default : Scheduler := mk_sched state_default false 0 [] [].

Definition with_state (st : State) (s : Scheduler) : Scheduler :=
  mk_sched st (detached s) (let_go_n s) (foreign_queue s) (owner_records s).

(** [take_owner_records], [shed_foreign] and [lock] *)
Definition take_owner_records (s : Scheduler) : Scheduler :=
  let o := foldl (λ o r, default o (apply_record r o)) (owners (state s)) (owner_records s) in
  mk_sched (with_owners o (state s)) (detached s) (let_go_n s) (foreign_queue s) [].
Definition shed_foreign (s : Scheduler) : Scheduler :=
  if detached s then mk_sched (state s) (detached s) (let_go_n s) [] (owner_records s) else s.
Definition lock (s : Scheduler) : Scheduler := shed_foreign (take_owner_records s).

(** [record_owner], when the state is free, or another thread has it and the queue is full; and
    when another thread has it *)
Definition record_owner (r : MutexRecord) (s : Scheduler) : Scheduler :=
  let s := lock s in with_state (with_owners (default (owners (state s)) (apply_record r (owners (state s)))) (state s)) s.
Definition queue_owner (r : MutexRecord) (s : Scheduler) : Scheduler :=
  if Z.of_nat (length (owner_records s)) <? CAPACITY
  then mk_sched (state s) (detached s) (let_go_n s) (foreign_queue s) (owner_records s ++ [r])
  else record_owner r s.

(** [held_inside] *)
Definition held_inside (addr : Z) (s : Scheduler) : bool := contains (owners (state (lock s))) addr.

(** [acquire_external], once the schedule is idle, and [release_external] *)
Definition acquire_external (s : Scheduler) : option Scheduler :=
  let s := lock s in if idle (state s) then Some (with_state (hold_external (state s)) s) else None.
Definition release_external (s : Scheduler) : Scheduler :=
  let s := lock s in
  if held_externally (state s) then with_state (hand_on (state s)) s else s.

(** The slot [lock_slot] makes *)
Definition lock_slot (t : Z) (s : Scheduler) : Scheduler :=
  let st := state s in with_state (with_threads (get_or_insert t (threads st)) (n_runnable st) (n_blocked st) st) s.

(** [enter_root]: whether the thread then parks *)
Definition enter_root (me : Z) (s : Scheduler) : bool * Scheduler :=
  let s := lock_slot me (lock s) in
  let st := with_roots (roots (state s) + 1) (state s) in
  let s := mk_sched st false (let_go_n s) (foreign_queue s) (owner_records s) in
  if is_some (holder st) then (true, with_state (set_runnable me Woken st) s)
  else (false, with_state (with_last me (before_last st) (with_holder (Some me) st)) s).

(** [spawned] *)
Definition spawned (child : Z) (s : Scheduler) : Scheduler :=
  let s := lock s in
  if detached s then s
  else let s := lock_slot child s in with_state (grant_if_idle (set_runnable child Woken (state s))) s.

(** [attach_thread]: whether the thread then parks *)
Definition attach_thread (me : Z) (s : Scheduler) : bool * Scheduler :=
  let s := lock_slot me (lock s) in
  if bool_decide (holder (state s) = Some me) then (false, s)
  else (true, with_state (grant_if_idle (set_runnable me Woken (state s))) s).

(** [detach_thread] *)
Definition detach_thread (me : Z) (s : Scheduler) : Scheduler :=
  let s := lock s in
  let st := snd (take_blocked me (snd (take_runnable me (state s)))) in
  let '(disowned, st) := disown me (upd me (set_grant forget) st) in
  with_state
    (if bool_decide (holder st = Some me) then hand_on st
     else if disowned then grant_if_idle st else st) s.

(** [unspawned] *)
Definition unspawned (child : Z) (s : Scheduler) : Scheduler :=
  let s := lock s in
  let st := snd (take_runnable child (state s)) in
  with_state (with_threads (remove child (threads st)) (n_runnable st) (n_blocked st) st) s.

(** [record_handle], [lineage_of] *)
Fixpoint put_handle (h child : Z) (hs : list (Z * Z)) : list (Z * Z) :=
  match hs with
  | [] => [(h, child)]
  | e :: rest =>
      if h <? fst e then (h, child) :: e :: rest
      else if fst e =? h then (h, child) :: rest
      else e :: put_handle h child rest
  end.
Definition record_handle (h child : Z) (s : Scheduler) : Scheduler :=
  let s := lock s in with_state (with_tables (exited (state s)) (put_handle h child (handles (state s))) (state s)) s.
Definition lineage_of (h : Z) (s : Scheduler) : option Z :=
  let st := state (lock s) in
  e ← find_first (λ e, fst e =? h) (handles st);
  if bool_decide (snd e ∈ exited st) then None else Some (snd e).

(** [started]: whether the thread parks *)
Definition started (me : Z) (s : Scheduler) : bool * Scheduler :=
  let s := lock s in
  if detached s && negb (is_runnable me (state s)) && negb (bool_decide (holder (state s) = Some me)) then (false, s)
  else (true, lock_slot me s).

(** [exit] *)
Fixpoint put_exited (t : Z) (ts : list Z) : list Z :=
  match ts with
  | [] => [t]
  | u :: rest => if t <? u then t :: u :: rest else if u =? t then u :: rest else u :: put_exited t rest
  end.
Definition exit (me : Z) (root : bool) (s : Scheduler) : Scheduler :=
  let s := lock s in
  let st := state s in
  let st := if root then with_roots (Z.max 0 (roots st - 1)) st else st in
  let st := settle_repoll me None st in
  let st := with_tables (put_exited me (exited st)) (handles st) st in
  let st := snd (take_blocked me (snd (take_runnable me st))) in
  let was := match slot me st with Some sl => let_go sl | None => false end in
  let st := with_threads (remove me (threads st)) (n_runnable st) (n_blocked st) st in
  let st := snd (disown me st) in
  let st := snd (wake_key (Exit me) everyone Woken st) in
  mk_sched (if bool_decide (holder st = Some me) then hand_on st else grant_if_idle st)
    (detached s) (let_go_n s - b2z was) (foreign_queue s) (owner_records s).

(** [take_let_go] *)
Definition take_let_go (t : Z) (s : Scheduler) : bool * Scheduler :=
  match slot t (state s) with
  | Some sl =>
      if let_go sl then
        (true, mk_sched (upd t (put_let_go false) (state s)) (detached s) (let_go_n s - 1) (foreign_queue s) (owner_records s))
      else (false, s)
  | None => (false, s)
  end.

(** [wake_foreign_locked], [take_foreign] *)
Definition scoped (m : Z) (scope : option bool) (wait : Blocked) : bool :=
  negb (Z.land (mask wait) m =? 0) &&
  match scope with None => true | Some p => bool_decide (futex_private wait = Some p) end.
Definition wake_foreign_locked (w : ForeignWake) (st : State) : Z * State :=
  let '(woken, st) := wake_key_matching (wkey w) (wcount w) Woken (scoped (wmask w) (wscope w)) st in
  (woken, if woken =? 0 then with_foreign (foreign_insert (wkey w) (foreign st)) st else st).
Definition take_foreign (s : Scheduler) : Scheduler :=
  mk_sched (foldl (λ st w, snd (wake_foreign_locked w st)) (state s) (foreign_queue s))
    (detached s) (let_go_n s) [] (owner_records s).

(** [wake_thread], [wake_masked], [wake], [take_unexplained], [wake_foreign], [wake_readiness] *)
Definition wake_thread (t : Z) (s : Scheduler) : Scheduler :=
  let s := lock s in with_state (grant_if_idle (unblock t Woken (state s))) s.
Definition wake_masked (k : DetKey) (n m : Z) (private : option bool) (s : Scheduler) : Z * Scheduler :=
  let s := lock s in
  let '(woken, st) := wake_key_matching k n Woken (scoped m private) (explain k (state s)) in
  let '(more, st) := if (woken <? n) && negb (detached s) then wake_outside k (n - woken) st else (0, st) in
  let woken := woken + more in
  (woken, with_state (if 0 <? woken then grant_if_idle st else st) s).
Definition wake (k : DetKey) (n : Z) (s : Scheduler) : Z * Scheduler := wake_masked k n u32_max None s.
Definition take_unexplained (s : Scheduler) : Z * Scheduler :=
  let s := lock s in
  let '(n, u) := take_keys (unexplained (state s)) in
  (n, with_state (with_unexplained u (outside_wakes (state s)) (state s)) s).
Definition wake_foreign (w : ForeignWake) (s : Scheduler) : Z * Scheduler :=
  let s := lock s in
  let '(woken, st) := wake_foreign_locked w (state s) in
  (woken, with_state (if 0 <? woken then grant_if_idle st else st) s).
Definition queue_foreign (w : ForeignWake) (s : Scheduler) : Z * Scheduler :=
  if Z.of_nat (length (foreign_queue s)) <? CAPACITY
  then (0, mk_sched (state s) (detached s) (let_go_n s) (foreign_queue s ++ [w]) (owner_records s))
  else wake_foreign w s.
Definition wake_readiness (event : ReadinessWake) (s : Scheduler) : Z * Scheduler :=
  let s := lock s in
  let '(woken, st) := wake_readiness_key event (state s) in
  let '(more, st) := if detached s then (0, st) else wake_outside Readiness everyone st in
  let woken := woken + more in
  (woken, with_state (if 0 <? woken then grant_if_idle st else st) s).

(** [wait_outside]; [rejoin]: whether the thread then parks *)
Definition wait_outside (me : Z) (k : DetKey) (s : Scheduler) : Scheduler :=
  let s := lock s in
  with_state (upd me (λ sl, if let_go sl then put_outside (Some k) sl else sl) (state s)) s.
Definition rejoin (me : Z) (s : Scheduler) : bool * Scheduler :=
  if let_go_n s =? 0 then (false, s)
  else
    let s := lock s in
    let s := with_state (upd me (put_outside None) (state s)) s in
    if detached s then (false, s)
    else match take_let_go me s with
    | (false, s) => (false, s)
    | (true, s) =>
        if bool_decide (holder (state s) = Some me) then (true, s)
        else (true, with_state (grant_if_idle (set_runnable_if_not me Woken (state s))) s)
    end.

(** [kick], [release_due_at], [release_due_native_at] *)
Definition kick (now : option Z) (timer_wakes : bool) (m : Memory) (s : Scheduler) : Scheduler :=
  let s := lock s in
  let st := snd (wake_readiness_key Timer (release_due now (state s))) in
  let st := if timer_wakes then repoll_addr_waiters m st else st in
  with_state (grant_if_idle st) s.
Definition release_due_at (now : option Z) (s : Scheduler) : Scheduler :=
  let s := lock s in with_state (grant_if_idle (release_due now (state s))) s.
Definition release_due_native_at (now : option Z) (s : Scheduler) : Scheduler :=
  let s := lock s in
  let others_run := 0 <? n_runnable (state s) in
  with_state (grant_if_idle (release_due_matching now
    (λ wait, match key wait with Addr _ => negb others_run | _ => false end) (state s))) s.

(** ** Moving the schedule on *)

(** What one turn of a dispatch's loop reads of the domain and the host *)
Record Reading := mk_reading {
  leases_first : bool; leases_held : bool; leases_after : bool; took_timer_wakes : bool; real_ready : list ReadinessKey;
  shares_statics : bool; time_skip : bool; virtual_now : option Z; idle_wait : option Z; waits_outside : bool;
  foreign_time_skip : bool; in_static_image : Z → bool; memory : Memory; real_elapsed : Z;
  executive_attached : bool; skip_held_off : bool }.

Inductive Idle := Held | Process | Leased | Outside | HeldOff.

(** Where a dispatch has let go of the lock: in [idle]'s sleep, with the time before it; asking
    whether another sim holds the skip off; after a time skip for threads outside the schedule; in
    the last resort's sleep. *)
Inductive Pause := InIdle (before : option Z) (why : Idle) | AtHolders | AfterForeign | InPoll.
Record Driver := mk_driver { pause : Pause; skipped : bool; holders_cleared : bool }.

(** [wake_real_ready] *)
Definition wake_real_ready (ready : list ReadinessKey) (st : State) : bool * State :=
  let '(woken, st) := foldl (λ '(woken, st) k, let '(n, st) := wake_readiness_key (Keys [k]) st in (woken + n, st)) (0, st) ready in
  (0 <? woken, st).

(** [blocked_on_shared_word] *)
Definition blocked_on_shared_word (r : Reading) (st : State) : bool :=
  existsb (λ e, match blocked (snd e) with
                | Some (b, _) => outside_holder b || match key b with Addr addr => in_static_image r addr | _ => false end
                | None => false
                end) (threads st).

(** [detach] *)
Definition release_slot (s : Slot) : Slot :=
  let s := put_repolled None s in
  match blocked s with
  | Some _ => set_grant (grant_run Woken) (put_let_go true (put_blocked None s))
  | None => s
  end.
Definition detach (s : Scheduler) : Scheduler :=
  let st := end_idle (with_foreign (foreign_clear (foreign (state s))) (state s)) in
  let fresh := retain (λ e, is_some (blocked (snd e)) && negb (let_go (snd e))) (threads st) in
  mk_sched (with_threads (map (λ e, (fst e, release_slot (snd e))) (threads st)) (n_runnable st) 0 st)
    true (let_go_n s + Z.of_nat (length fresh)) (foreign_queue s) (owner_records s).

(** [idle], before its sleep and after *)
Definition idle_begin (r : Reading) (why : Idle) (sk hc : bool) (s : Scheduler) : Scheduler * Driver :=
  (with_state (snd (note_idle (real_elapsed r) (state s))) s, mk_driver (InIdle (virtual_now r) why) sk hc).
Definition idle_end (r : Reading) (before : option Z) (st : State) : State :=
  if 0 <? n_runnable st then st
  else
    let st :=
      if executive_attached r then st
      else
        let st := release_due (virtual_now r) st in
        if bool_decide (virtual_now r = before) then st else snd (wake_readiness_key Timer st) in
    repoll_addr_waiters (memory r) st.

(** [dispatch_inner], with the state locked: [None] when the readings run out, else the schedule
    and where it let go of the lock, if it has not returned. *)
Fixpoint dispatch_loop (rs : list Reading) (s : Scheduler) (sk hc : bool) : option (Scheduler * option Driver) :=
  match rs with
  | [] => None
  | r :: rs =>
      let s := take_foreign s in
      match grant_next (state s) with
      | (true, st) => Some (with_state st s, None)
      | (false, st) =>
          if n_blocked st =? 0 then Some (s, None)
          else if (roots st =? 0) && negb (leases_first r) then Some (detach s, None)
          else if leases_held r then
            let '(s, d) := idle_begin r Leased sk hc s in Some (s, Some d)
          else if took_timer_wakes r then
            dispatch_loop rs (with_state (repoll_addr_waiters (memory r) st) s) sk hc
          else
            match wake_real_ready (real_ready r) st with
            | (true, st) => dispatch_loop rs (with_state st s) sk hc
            | (false, st) =>
                if negb hc && shares_statics r then Some (with_state st s, Some (mk_driver AtHolders sk hc))
                else if time_skip r then
                  let st := snd (wake_readiness_key Timer (release_due (virtual_now r) st)) in
                  dispatch_loop rs (with_state st s) true false
                else if leases_after r then dispatch_loop rs (with_state st s) sk false
                else match idle_wait r with
                | Some _ =>
                    let '(s, d) := idle_begin r (if waits_outside r then Process else Held) sk false (with_state st s) in
                    Some (s, Some d)
                | None =>
                    let '(gave_up, st) :=
                      if blocked_on_shared_word r st then (0, st) else wake_key Readiness everyone Deadlock st in
                    if 0 <? gave_up then dispatch_loop rs (with_state st s) sk false
                    else if foreign_time_skip r then Some (with_state st s, Some (mk_driver AfterForeign true false))
                    else
                      let st := snd (note_idle (real_elapsed r) st) in
                      Some (with_state st s, Some (mk_driver InPoll sk false))
                end
            end
      end
  end.

(** [dispatch]; the threads outside the schedule it wakes after a skip are not in the state. *)
Definition dispatch (rs : list Reading) (s : Scheduler) : option (Scheduler * option Driver) :=
  dispatch_loop rs s false false.

(** The rest of a dispatch that let go of the lock, with what it reads once it has the lock back *)
Definition resume (d : Driver) (r : Reading) (rs : list Reading) (s : Scheduler) : option (Scheduler * option Driver) :=
  let s := lock s in
  if is_some (holder (state s)) then Some (s, None)
  else match pause d with
  | InIdle before _ => dispatch_loop rs (with_state (idle_end r before (state s)) s) (skipped d) (holders_cleared d)
  | AtHolders =>
      if skip_held_off r then let '(s, d) := idle_begin r HeldOff (skipped d) (holders_cleared d) s in Some (s, Some d)
      else dispatch_loop rs s (skipped d) true
  | AfterForeign => dispatch_loop rs (with_state (release_due (virtual_now r) (state s)) s) (skipped d) (holders_cleared d)
  | InPoll => dispatch_loop rs (with_state (repoll_addr_waiters (memory r) (state s)) s) (skipped d) (holders_cleared d)
  end.

(** [repoll_if_spoiled], when a wait nested in the dispatch asked for it *)
Definition repoll_if_spoiled (me : Z) (s : Scheduler) : Scheduler :=
  let s := lock s in
  match sl ← slot me (state s); fst <$> blocked sl with
  | Some b => with_state (grant_if_idle (upd me (put_repolled (Some (key b))) (unblock me Woken (state s)))) s
  | None => s
  end.

(** [block]: what it returns, or how the thread parks *)
Inductive Blocking := Returns (why : DetWake) | Parks | Drives (d : Driver).
Definition exited_now (k : DetKey) (st : State) : bool :=
  match k with Exit t => bool_decide (t ∈ exited st) | _ => false end.
Definition block (me : Z) (b : Blocked) (now : option Z) (m : Memory) (rs : list Reading) (s : Scheduler) : option (Blocking * Scheduler) :=
  if match deadline b, now with Some at_, Some now => at_ <=? now | _, _ => false end then Some (Returns TimedOut, s)
  else
    let s := lock s in
    let '(gone, s) := if bool_decide (holder (state s) = Some me) then (false, s) else take_let_go me s in
    if gone && negb (detached s) then
      Some (Parks, with_state (set_blocked me b (with_waits (next_wait (state s)) (waits (state s) + 1) (state s))) s)
    else if negb (bool_decide (holder (state s) = Some me)) || negb (is_some (slot me (state s))) || exited_now (key b) (state s)
    then Some (Returns Woken, s)
    else
      let s := take_foreign s in
      let '(woken, f) := foreign_remove (key b) (foreign (state s)) in
      let s := with_state (with_foreign f (state s)) s in
      if woken || changed_outside m b then Some (Returns Woken, s)
      else
        let st := settle_repoll me (Some (key b)) (state s) in
        let st := set_blocked me b (with_waits (next_wait st) (waits st + 1) st) in
        '(s, d) ← dispatch rs (with_state (with_holder None st) s);
        Some (match d with Some d => Drives d | None => Parks end, s).

(** [yield_now] *)
Definition yield_now (me : Z) (rs : list Reading) (s : Scheduler) : option (Blocking * Scheduler) :=
  let s := lock s in
  if negb (bool_decide (holder (state s) = Some me)) then Some (Returns Woken, s)
  else
    let s := take_foreign (with_state (settle_repoll me None (state s)) s) in
    if (n_runnable (state s) =? 0) || negb (is_some (slot me (state s))) then Some (Returns Woken, s)
    else
      '(s, d) ← dispatch rs (with_state (with_holder None (set_runnable me Woken (state s))) s);
      Some (match d with Some d => Drives d | None => Parks end, s).

(** [spin] up to where it lets go of the lock: whether it advances the clock before it yields *)
Definition spin_begin (me : Z) (clock : bool) (s : Scheduler) : option bool * Scheduler :=
  let s := lock s in
  if negb (bool_decide (holder (state s) = Some me)) then (None, s)
  else
    let s := with_state (upd me (put_spinner (Some clock)) (state s)) s in
    let ts := threads (state s) in
    let others_work := existsb (λ e, is_some (runnable (snd e)) && negb (is_some (spinner (snd e)))) ts in
    let clock_elsewhere := existsb (λ e, bool_decide (spinner (snd e) = Some true) && negb (fst e =? me)) ts in
    (Some (negb (others_work || (negb clock && clock_elsewhere))), s).
(** What it does once the clock has moved *)
Definition spin_advanced (now : option Z) (timer_wakes : bool) (m : Memory) (s : Scheduler) : Scheduler :=
  let s := lock s in
  let st := snd (wake_readiness_key Timer (release_due now (state s))) in
  with_state (if timer_wakes then repoll_addr_waiters m st else st) s.
(** [unspin] *)
Definition unspin (me : Z) (s : Scheduler) : Scheduler :=
  let s := lock s in with_state (upd me (put_spinner None) (state s)) s.

(** One wait of [park]: the grant taken, and whether it is the duty of dispatching an idle schedule *)
Definition take_grant (me : Z) (s : Scheduler) : option (Grant * Scheduler) :=
  sl ← slot me (state s);
  g ← grant sl;
  Some (g, with_state (upd me (set_grant forget) (state s)) s).
Definition park_dispatch (rs : list Reading) (s : Scheduler) : option (Scheduler * option Driver) :=
  let s := lock s in
  if is_some (holder (state s)) then Some (s, None) else dispatch rs s.
