(* ===== verification/SchedWf.v ===== *)
(** * The schedule's tables

    Lookups and counts over the threads of a schedule, the well-formedness of its state, and what
    every wake does to it: threads go from waiting to ready to run and nothing else changes. *)

From S2P Require Import Prelude Owners Sched.

(** ** Threads *)

Section threads.
Implicit Types (ts : Threads).

Definition lineages ts : list Z := map fst ts.
Definition ordered ts : Prop := StronglySorted Z.lt (lineages ts).

Lemma get_cons e ts t : get t (e :: ts) = if fst e =? t then Some (snd e) else get t ts.
Proof. unfold get. cbn [find_first]. by destruct (fst e =? t). Qed.

Lemma get_Some_lineage ts t s : get t ts = Some s → t ∈ lineages ts.
Proof.
  induction ts as [|e ts IH]; [done|]. rewrite get_cons. cbn. destruct (Z.eqb_spec (fst e) t) as [<-|]; intros H.
  - apply elem_of_cons. by left.
  - apply elem_of_cons. right. by apply IH.
Qed.

Lemma lineage_get_Some ts t : t ∈ lineages ts → is_Some (get t ts).
Proof.
  induction ts as [|e ts IH]; [by intros ?%elem_of_nil|]. rewrite get_cons. cbn. intros [->|H]%elem_of_cons.
  - rewrite Z.eqb_refl. by eexists.
  - destruct (fst e =? t); [by eexists|]. by apply IH.
Qed.

Lemma get_None ts t : t ∉ lineages ts → get t ts = None.
Proof. intros H. destruct (get t ts) eqn:E; [|done]. by destruct H; eapply get_Some_lineage. Qed.

Lemma ordered_cons e ts : ordered (e :: ts) ↔ ordered ts ∧ ∀ u, u ∈ lineages ts → fst e < u.
Proof.
  unfold ordered. cbn. split.
  - intros H. inversion H as [|? ? ? Hf]; subst. split; [done|]. by apply list.Forall_forall.
  - intros [H Hf]. constructor; [done|]. by apply list.Forall_forall.
Qed.

Lemma ordered_fresh e ts : ordered (e :: ts) → get (fst e) ts = None.
Proof. rewrite ordered_cons. intros [_ H]. apply get_None. intros ?%H. lia. Qed.

Lemma ordered_elem ts t s : ordered ts → (t, s) ∈ ts → get t ts = Some s.
Proof.
  induction ts as [|e ts IH]; [by intros _ ?%elem_of_nil|]. intros [Ho Hlt]%ordered_cons.
  rewrite get_cons. intros [<-|H]%elem_of_cons; cbn; [by rewrite Z.eqb_refl|].
  destruct (Z.eqb_spec (fst e) t) as [Et|]; [|by apply IH].
  enough (fst e < t) by lia. apply Hlt. apply list_elem_of_fmap. by exists (t, s).
Qed.

Lemma get_elem ts t s : get t ts = Some s → (t, s) ∈ ts.
Proof.
  induction ts as [|[u s'] ts IH]; [done|]. rewrite get_cons. cbn [fst snd]. intros H. apply elem_of_cons.
  destruct (Z.eqb_spec u t) as [->|]; [left; congruence|right; by apply IH].
Qed.

Lemma get_get_mut ts t f u : get u (get_mut t f ts) = if u =? t then f <$> get u ts else get u ts.
Proof.
  induction ts as [|e ts IH]; [by destruct (u =? t)|]. cbn [get_mut map]. fold (get_mut t f ts).
  rewrite !get_cons. destruct (Z.eqb_spec (fst e) t) as [Et|Et]; cbn [fst snd].
  - destruct (Z.eqb_spec (fst e) u) as [Eu|Eu]; [|done]. rewrite <- Eu, Et, Z.eqb_refl. done.
  - destruct (Z.eqb_spec (fst e) u) as [Eu|Eu]; [|done]. destruct (Z.eqb_spec u t); [congruence|done].
Qed.

Lemma lineages_get_mut ts t f : lineages (get_mut t f ts) = lineages ts.
Proof.
  unfold lineages, get_mut. rewrite map_map. apply map_ext. intros e. by destruct (fst e =? t).
Qed.

Lemma get_get_or_insert ts t u : ordered ts →
  get u (get_or_insert t ts) = if u =? t then Some (default slot_new (get u ts)) else get u ts.
Proof.
  induction ts as [|e ts IH]; intros Ho; cbn [get_or_insert].
  - rewrite get_cons. cbn. rewrite Z.eqb_sym. by destruct (u =? t).
  - pose proof Ho as [Ho' Hlt]%ordered_cons.
    destruct (Z.ltb_spec t (fst e)) as [Hl|Hge]; [|destruct (Z.eqb_spec (fst e) t) as [<-|Et]]; rewrite !get_cons; cbn [fst snd].
    + rewrite (Z.eqb_sym u t). destruct (Z.eqb_spec t u) as [->|]; [|done]. destruct (Z.eqb_spec (fst e) u); [lia|].
      rewrite get_None; [done|]. intros ?%Hlt. lia.
    + rewrite (Z.eqb_sym u). by destruct (fst e =? u).
    + rewrite IH by done. destruct (Z.eqb_spec (fst e) u) as [<-|]; [|done]. by destruct (Z.eqb_spec (fst e) t).
Qed.

Lemma lineages_get_or_insert ts t u : u ∈ lineages (get_or_insert t ts) ↔ u = t ∨ u ∈ lineages ts.
Proof.
  induction ts as [|e ts IH]; cbn [get_or_insert].
  - cbn. rewrite elem_of_cons. done.
  - destruct (t <? fst e); [by cbn; rewrite !elem_of_cons|]. destruct (Z.eqb_spec (fst e) t) as [<-|].
    + cbn. rewrite elem_of_cons. tauto.
    + cbn. rewrite !elem_of_cons. fold (lineages (get_or_insert t ts)) (lineages ts). rewrite IH. tauto.
Qed.

Lemma ordered_get_or_insert ts t : ordered ts → ordered (get_or_insert t ts).
Proof.
  induction ts as [|e ts IH]; intros Ho; cbn [get_or_insert]; [repeat constructor|].
  pose proof Ho as [Ho' Hlt]%ordered_cons. destruct (Z.ltb_spec t (fst e)); [|destruct (Z.eqb_spec (fst e) t); [done|]].
  - apply ordered_cons. split; [done|]. cbn. intros u [->|H']%elem_of_cons; [done|]. apply Hlt in H'. lia.
  - apply ordered_cons. split; [by apply IH|]. intros u [->|Hu]%lineages_get_or_insert; [lia|by apply Hlt].
Qed.

Lemma get_remove ts t u : get u (remove t ts) = if u =? t then None else get u ts.
Proof.
  induction ts as [|e ts IH]; [by destruct (u =? t)|]. cbn [remove retain]. fold (remove t ts). rewrite get_cons.
  destruct (Z.eqb_spec (fst e) t) as [Et|Et]; cbn [negb].
  - rewrite IH. destruct (Z.eqb_spec u t); [done|]. destruct (Z.eqb_spec (fst e) u); [congruence|done].
  - rewrite get_cons, IH. destruct (Z.eqb_spec (fst e) u), (Z.eqb_spec u t); congruence.
Qed.

Lemma ordered_remove ts t : ordered ts → ordered (remove t ts).
Proof.
  induction ts as [|e ts IH]; [done|]. intros [Ho Hlt]%ordered_cons. cbn [remove retain]. fold (remove t ts).
  destruct (negb _); [|by apply IH]. apply ordered_cons. split; [by apply IH|]. intros u Hu. apply Hlt.
  apply list_elem_of_fmap in Hu as (x & -> & [Hx _]%elem_of_retain). apply list_elem_of_fmap. by exists x.
Qed.

(** How many threads are in some condition *)
Definition cnt (p : Slot → bool) ts : Z := Z.of_nat (length (retain (λ e, p (snd e)) ts)).

Lemma cnt_cons p e ts : cnt p (e :: ts) = b2z (p (snd e)) + cnt p ts.
Proof. unfold cnt. cbn [retain]. destruct (p (snd e)); cbn [length b2z]; lia. Qed.

Lemma cnt_nonneg p ts : 0 ≤ cnt p ts.
Proof. unfold cnt. lia. Qed.

Lemma get_mut_absent ts t f : get t ts = None → get_mut t f ts = ts.
Proof.
  induction ts as [|e ts IH]; [done|]. rewrite get_cons. cbn [get_mut map]. fold (get_mut t f ts).
  destruct (fst e =? t); [done|]. intros H. by rewrite IH.
Qed.

Lemma cnt_get_mut p ts t f s : ordered ts → get t ts = Some s →
  cnt p (get_mut t f ts) = cnt p ts - b2z (p s) + b2z (p (f s)).
Proof.
  induction ts as [|e ts IH]; [done|]. intros Ho. pose proof Ho as [Ho' _]%ordered_cons.
  pose proof (ordered_fresh _ _ Ho) as Hf. rewrite get_cons. cbn [get_mut map]. fold (get_mut t f ts).
  rewrite !cnt_cons. destruct (Z.eqb_spec (fst e) t) as [<-|]; intros Hg; cbn [fst snd].
  - rewrite get_mut_absent by done. injection Hg as <-. lia.
  - rewrite IH by done. lia.
Qed.

Lemma cnt_insert p ts t : ordered ts → get t ts = None →
  cnt p (get_or_insert t ts) = cnt p ts + b2z (p slot_new).
Proof.
  induction ts as [|e ts IH]; cbn [get_or_insert]; intros Ho; [intros _; rewrite cnt_cons; cbn [snd]; lia|].
  pose proof Ho as [Ho' _]%ordered_cons. rewrite get_cons. destruct (t <? fst e); [intros _; rewrite !cnt_cons; cbn [snd]; lia|].
  destruct (fst e =? t); [done|]. intros H. rewrite !cnt_cons, IH by done. lia.
Qed.

Lemma get_or_insert_present ts t : ordered ts → is_Some (get t ts) → get_or_insert t ts = ts.
Proof.
  induction ts as [|e ts IH]; cbn [get_or_insert]; intros Ho [s Hs]; [done|]. pose proof Ho as [Ho' Hlt]%ordered_cons.
  rewrite get_cons in Hs. destruct (Z.eqb_spec (fst e) t) as [<-|Et].
  - destruct (Z.ltb_spec (fst e) (fst e)); [lia|done].
  - pose proof (Hlt t (get_Some_lineage _ _ _ Hs)). destruct (Z.ltb_spec t (fst e)); [lia|]. f_equal. apply IH; [done|by exists s].
Qed.

Lemma cnt_remove p ts t s : ordered ts → get t ts = Some s → cnt p (remove t ts) = cnt p ts - b2z (p s).
Proof.
  induction ts as [|e ts IH]; [done|]. intros Ho. pose proof Ho as [Ho' _]%ordered_cons.
  pose proof (ordered_fresh _ _ Ho) as Hf. rewrite get_cons. cbn [remove retain]. fold (remove t ts).
  destruct (Z.eqb_spec (fst e) t) as [<-|]; cbn [negb]; intros Hg.
  - rewrite cnt_cons. injection Hg as <-. enough (remove (fst e) ts = ts) as -> by lia.
    apply retain_all. intros x Hx. destruct (Z.eqb_spec (fst x) (fst e)) as [Ex|]; [|done].
    rewrite (ordered_elem ts (fst e) (snd x)) in Hf; [done|done|]. rewrite <- Ex. by destruct x.
  - rewrite !cnt_cons, IH by done. lia.
Qed.

Lemma remove_absent ts t : get t ts = None → remove t ts = ts.
Proof.
  induction ts as [|e ts IH]; [done|]. rewrite get_cons. cbn [remove retain]. fold (remove t ts).
  destruct (fst e =? t); [done|]. cbn [negb]. intros H. by rewrite IH.
Qed.

(** Every slot changed the same way *)
Definition map_slots (g : Slot → Slot) ts : Threads := map (λ e, (fst e, g (snd e))) ts.

Lemma lineages_map_slots g ts : lineages (map_slots g ts) = lineages ts.
Proof. unfold lineages, map_slots. by rewrite map_map. Qed.

Lemma get_map_slots g ts t : get t (map_slots g ts) = g <$> get t ts.
Proof.
  induction ts as [|e ts IH]; [done|]. cbn [map_slots map]. fold (map_slots g ts). rewrite !get_cons. cbn [fst snd].
  by destruct (fst e =? t).
Qed.

Lemma cnt_map_slots p g ts : cnt p (map_slots g ts) = cnt (λ s, p (g s)) ts.
Proof.
  induction ts as [|e ts IH]; [done|]. cbn [map_slots map]. fold (map_slots g ts). rewrite !cnt_cons, IH. done.
Qed.

Lemma cnt_ext p q ts : (∀ s, p s = q s) → cnt p ts = cnt q ts.
Proof. intros H. induction ts as [|e ts IH]; [done|]. by rewrite !cnt_cons, H, IH. Qed.

Lemma cnt_zero p ts : ordered ts → cnt p ts = 0 ↔ ∀ t s, get t ts = Some s → p s = false.
Proof.
  intros Ho. unfold cnt. split.
  - intros H t s Hs%get_elem. destruct (p s) eqn:E; [|done]. assert ((t, s) ∈ retain (λ e, p (snd e)) ts) as Hin by by apply elem_of_retain.
    destruct (retain _ _); [by apply elem_of_nil in Hin|cbn in H; lia].
  - intros H. rewrite retain_none; [done|]. intros [t s] Hin. cbn. apply (H t). by apply ordered_elem.
Qed.

End threads.

(** ** Well-formed states *)

Definition ready (s : Slot) : bool := is_some (runnable s).
Definition waits_in (s : Slot) : bool := is_some (blocked s).

(** A thread is at most one of ready to run and waiting, here or in a native wait. *)
Definition slot_ok (s : Slot) : Prop :=
  (runnable s = None ∨ blocked s = None) ∧ (outside s = None ∨ blocked s = None).

Record st_wf (st : State) : Prop := {
  sw_ordered : ordered (threads st);
  sw_runnable : n_runnable st = cnt ready (threads st);
  sw_blocked : n_blocked st = cnt waits_in (threads st);
  sw_slots t s : slot t st = Some s → slot_ok s;
  sw_stamp t s b o : slot t st = Some s → blocked s = Some (b, o) → o < next_wait st;
  sw_stamps t u s s' b b' o : slot t st = Some s → slot u st = Some s' →
    blocked s = Some (b, o) → blocked s' = Some (b', o) → t = u;
}.

(** What a wake does to a slot: a thread that waited is ready to run; one in a native wait only if
    [nat] lets it. *)
Definition slot_step (nat : bool) (s s' : Slot) : Prop :=
  grant s' = grant s ∧ let_go s' = let_go s ∧
  ((runnable s' = runnable s ∧ blocked s' = blocked s ∧ outside s' = outside s) ∨
   ((blocked s ≠ None ∨ (nat = true ∧ outside s ≠ None)) ∧ runnable s' ≠ None ∧ blocked s' = None ∧ outside s' = None)).

Record wakes (nat : bool) (st st' : State) : Prop := {
  wk_holder : holder st' = holder st;
  wk_last : last st' = last st;
  wk_before : before_last st' = before_last st;
  wk_next : next_wait st' = next_wait st;
  wk_owners : owners st' = owners st;
  wk_lineages : lineages (threads st') = lineages (threads st);
  wk_slots t s : slot t st = Some s → ∃ s', slot t st' = Some s' ∧ slot_step nat s s';
}.

Lemma slot_step_refl nat s : slot_step nat s s.
Proof. unfold slot_step. tauto. Qed.

Lemma slot_step_trans nat s1 s2 s3 : slot_step nat s1 s2 → slot_step nat s2 s3 → slot_step nat s1 s3.
Proof.
  unfold slot_step. intros (G1 & L1 & C1) (G2 & L2 & C2).
  split_and!; [congruence..|]. destruct C1 as [(R & B & O)|(W & R & B & O)], C2 as [(R' & B' & O')|(W' & R' & B' & O')].
  - left. split_and!; congruence.
  - right. rewrite B, O in W'. done.
  - right. split_and!; congruence.
  - destruct W' as [|[_ ?]]; congruence.
Qed.

#[export] Instance wakes_preorder nat : PreOrder (wakes nat).
Proof.
  split.
  - intros st. split; try done. intros t s Hs. exists s. split; [done|apply slot_step_refl].
  - intros a b c [] []. split; try congruence. intros t s (s' & Hs' & H1)%wk_slots0.
    apply wk_slots1 in Hs' as (s'' & Hs'' & H2). exists s''. split; [done|]. by eapply slot_step_trans.
Qed.

(** A change that is a wake and keeps the state well formed. *)
Definition wakes_well (nat : bool) (st st' : State) : Prop := st_wf st → st_wf st' ∧ wakes nat st st'.

#[export] Instance wakes_well_preorder nat : PreOrder (wakes_well nat).
Proof.
  split.
  - by intros st.
  - intros a b c H1 H2 [H W]%H1. apply H2 in H as [H W']. split; [done|]. by etransitivity.
Qed.

(** A change to fields the threads do not depend on. *)
Ltac same_state := intros []; split; split; try done; intros ? ?s ?; eexists; split; [done|apply slot_step_refl].

Lemma slot_with_threads t ts r b st : slot t (with_threads ts r b st) = get t ts.
Proof. done. Qed.

Lemma slot_upd u t f st : slot u (upd t f st) = if u =? t then f <$> slot u st else slot u st.
Proof. apply get_get_mut. Qed.

(** One slot changed, with the counts kept to date. *)
Lemma wf_slot_changed st t s f r b : st_wf st → slot t st = Some s → slot_ok (f s) →
  r = n_runnable st - b2z (ready s) + b2z (ready (f s)) →
  b = n_blocked st - b2z (waits_in s) + b2z (waits_in (f s)) →
  (blocked (f s) = blocked s ∨ blocked (f s) = None) →
  st_wf (with_threads (get_mut t f (threads st)) r b st).
Proof.
  intros Hw Hs Hok -> -> Hb. pose proof (sw_ordered _ Hw) as Ho. unfold slot in Hs.
  assert (∀ u s', get u (get_mut t f (threads st)) = Some s' →
    ∃ s0, get u (threads st) = Some s0 ∧ slot_ok s' ∧ (blocked s' = blocked s0 ∨ blocked s' = None)) as Hall.
  { intros u s'. rewrite get_get_mut. destruct (Z.eqb_spec u t) as [->|].
    - rewrite Hs. cbn. intros [= <-]. by exists s.
    - intros H. exists s'. split_and!; [done|by eapply sw_slots|by left]. }
  split; cbn [threads n_runnable n_blocked with_threads next_wait]; try setoid_rewrite slot_with_threads.
  - unfold ordered. by rewrite lineages_get_mut.
  - rewrite (sw_runnable _ Hw). by erewrite cnt_get_mut.
  - rewrite (sw_blocked _ Hw). by erewrite cnt_get_mut.
  - intros u s' (s0 & _ & H & _)%Hall. done.
  - intros u s' b o (s0 & H0 & _ & [E|E])%Hall; rewrite E; [|done]. by eapply sw_stamp.
  - intros u v s1 s2 b1 b2 o (s0 & H0 & _ & [E|E])%Hall (s0' & H0' & _ & [E'|E'])%Hall; rewrite E, E'; try done.
    by eapply sw_stamps.
Qed.

Lemma wakes_slot_changed nat st t s f r b : slot t st = Some s → slot_step nat s (f s) →
  wakes nat st (with_threads (get_mut t f (threads st)) r b st).
Proof.
  intros Hs Hst. split; try done; [by cbn; rewrite lineages_get_mut|]. intros u s' Hu.
  rewrite slot_with_threads, get_get_mut. unfold slot in *. destruct (Z.eqb_spec u t) as [->|].
  - rewrite Hs in *. cbn. eexists. split; [done|]. congruence.
  - exists s'. split; [done|apply slot_step_refl].
Qed.

Lemma upd_wakes_well nat t f st : (∀ s, slot_ok s → slot_step nat s (f s) ∧ runnable (f s) = runnable s ∧ blocked (f s) = blocked s ∧ outside (f s) = outside s) →
  wakes_well nat st (upd t f st).
Proof.
  intros Hf Hw. unfold upd. destruct (slot t st) as [s|] eqn:Es.
  - pose proof (sw_slots _ Hw t s Es) as Hok. destruct (Hf s Hok) as (Hst & Hr & Hb & Hout). split.
    + apply (wf_slot_changed st t s); [done|done| | | |by left]; unfold slot_ok, ready, waits_in in *; rewrite ?Hr, ?Hb, ?Hout; [done|lia..].
    + by eapply wakes_slot_changed.
  - rewrite get_mut_absent by done. destruct st. done.
Qed.

Lemma unblock_wakes_well nat t why st : wakes_well nat st (unblock t why st).
Proof.
  intros Hw. unfold unblock, take_blocked. destruct (slot t st) as [s|] eqn:Es; cbn; [|done].
  destruct (blocked s) as [[b o]|] eqn:Eb; cbn; [|done].
  pose proof (sw_slots _ Hw t s Es) as [[Hr|] [Hout|]]; [|congruence..].
  unfold set_runnable. rewrite slot_with_threads, get_get_mut, Z.eqb_refl. unfold slot in Es. rewrite Es. cbn.
  assert (∀ r1 b1, with_threads (get_mut t (put_runnable (Some why)) (get_mut t (put_blocked None) (threads st))) r1 b1
      (with_threads (get_mut t (put_blocked None) (threads st)) (n_runnable st) (n_blocked st - 1) st)
    = with_threads (get_mut t (λ s, put_runnable (Some why) (put_blocked None s)) (threads st)) r1 b1 st) as E.
  { intros r1 b1. unfold with_threads. f_equal. cbn. unfold get_mut. rewrite map_map. apply map_ext.
    intros e. by destruct (Z.eqb_spec (fst e) t) as [->|]; cbn; [rewrite Z.eqb_refl|destruct (Z.eqb_spec (fst e) t)]. }
  rewrite E. split.
  - apply (wf_slot_changed st t s); [done|done| | | |right; done]; cbn; rewrite ?Hr, ?Eb; cbn; [|unfold ready, waits_in; rewrite ?Hr, ?Eb; cbn; lia..].
    by split; right.
  - eapply wakes_slot_changed; [done|]. unfold slot_step. cbn. split_and!; [done..|]. right. split_and!; [left; congruence|done|done|done].
Qed.

(** ** Every wake is one *)

Lemma each_thread_wakes_well nat f st :
  (∀ t s st, st_wf st → slot t st = Some s → st_wf (f t s st) ∧ wakes nat st (f t s st)) → wakes_well nat st (each_thread f st).
Proof.
  intros Hf. unfold each_thread. generalize (seq 0 (length (threads st))) as idxs. intros idxs. revert st.
  induction idxs as [|i idxs IH]; intros st; [done|]. cbn [foldl].
  etransitivity; [|apply IH]. destruct (threads st !! i) as [[t s]|] eqn:E; [|done]. intros Hw.
  apply Hf; [done|]. apply ordered_elem; [apply Hw|]. by eapply list_elem_of_lookup_2.
Qed.

Lemma wake_oldest_wakes_well nat n w why st : wakes_well nat st (wake_oldest n w why st).
Proof.
  revert st. induction n as [|n IH]; intros st; [done|]. cbn [wake_oldest].
  destruct (oldest w (threads st)) as [[o t]|]; [|done]. etransitivity; [apply unblock_wakes_well|apply IH].
Qed.

Lemma wake_key_matching_wakes_well nat k n why m st : wakes_well nat st (snd (wake_key_matching k n why m st)).
Proof.
  unfold wake_key_matching. destruct (_ <=? n); cbn [snd]; [|apply wake_oldest_wakes_well].
  apply each_thread_wakes_well. intros t s st' Hw _. destruct (is_some _); [by apply unblock_wakes_well|done].
Qed.

Lemma wake_key_wakes_well nat k n why st : wakes_well nat st (snd (wake_key k n why st)).
Proof. apply wake_key_matching_wakes_well. Qed.

Lemma wake_readiness_key_wakes_well nat ev st : wakes_well nat st (snd (wake_readiness_key ev st)).
Proof. apply wake_key_matching_wakes_well. Qed.

Lemma release_due_matching_wakes_well nat now m st : wakes_well nat st (release_due_matching now m st).
Proof.
  unfold release_due_matching. destruct now; [|done]. apply each_thread_wakes_well. intros t s st' Hw _.
  destruct (blocked s) as [[b o]|]; [|done]. destruct (_ && _); [by apply unblock_wakes_well|done].
Qed.

Lemma repoll_wakes_well nat m st : wakes_well nat st (repoll_addr_waiters m st).
Proof.
  apply each_thread_wakes_well. intros t s st' Hw _. destruct (blocked s) as [[b o]|]; [|done].
  destruct (should_repoll m b); [|done].
  assert (wakes_well nat st' (upd t (put_repolled (Some (key b))) (unblock t Woken st'))) as H; [|by apply H].
  etransitivity; [apply unblock_wakes_well|]. apply upd_wakes_well. intros s' _. unfold slot_step. cbn. tauto.
Qed.

Lemma settle_repoll_wakes_well nat t k st : wakes_well nat st (settle_repoll t k st).
Proof.
  unfold settle_repoll. destruct (_ ≫= _) as [k'|]; [|done].
  assert (wakes_well nat st (upd t (put_repolled None) st)) as H.
  { apply upd_wakes_well. intros s' _. unfold slot_step. cbn. tauto. }
  destruct (bool_decide _); [done|]. destruct (note _ _) as [b u]. etransitivity; [exact H|].
  same_state.
Qed.

Lemma wake_foreign_locked_wakes_well nat w st : wakes_well nat st (snd (wake_foreign_locked w st)).
Proof.
  unfold wake_foreign_locked. pose proof (wake_key_matching_wakes_well nat (wkey w) (wcount w) Woken (scoped (wmask w) (wscope w)) st) as H.
  destruct (wake_key_matching _ _ _ _ _) as [n st']. cbn [snd] in *. etransitivity; [exact H|].
  destruct (n =? 0); [|done]. same_state.
Qed.

Lemma fold_wakes_well {A} nat (f : A → State → State) l st :
  (∀ a st, wakes_well nat st (f a st)) → wakes_well nat st (foldl (λ st a, f a st) st l).
Proof. intros Hf. revert st. induction l as [|a l IH]; intros st; [done|]. cbn. etransitivity; [apply Hf|apply IH]. Qed.

Lemma take_foreign_wakes_well nat s : wakes_well nat (state s) (state (take_foreign s)).
Proof. cbn. apply (fold_wakes_well nat (λ w st, snd (wake_foreign_locked w st))). apply wake_foreign_locked_wakes_well. Qed.

Lemma wake_real_ready_wakes_well nat ready st : wakes_well nat st (snd (wake_real_ready ready st)).
Proof.
  unfold wake_real_ready.
  assert (∀ n, wakes_well nat st (snd (foldl (λ '(woken, st) k, let '(n, st) := wake_readiness_key (Keys [k]) st in (woken + n, st)) (n, st) ready))) as H.
  { revert st. induction ready as [|k ready IH]; intros st n; [done|]. cbn [foldl].
    pose proof (wake_readiness_key_wakes_well nat (Keys [k]) st) as H. destruct (wake_readiness_key _ _) as [m st'].
    etransitivity; [exact H|apply IH]. }
  specialize (H 0). by destruct (foldl _ _ _) as [n st'].
Qed.

(** The marks of re-polled waiters dropped all at once. *)
Lemma explain_wakes_well nat k st : wakes_well nat st (explain k st).
Proof.
  set (g := λ s, if bool_decide (repolled s = Some k) then put_repolled None s else s).
  assert (explain k st = with_unexplained (explain_keys k (unexplained st)) (outside_wakes st)
    (with_threads (map_slots g (threads st)) (n_runnable st) (n_blocked st) st)) as ->.
  { unfold explain. do 2 f_equal. unfold map_slots. apply map_ext. intros [t s]. unfold g. cbn. by destruct (bool_decide _). }
  assert (∀ s, slot_step nat s (g s) ∧ runnable (g s) = runnable s ∧ blocked (g s) = blocked s ∧ outside (g s) = outside s) as Hg.
  { intros s. unfold g, slot_step. destruct (bool_decide _); cbn; tauto. }
  assert (∀ t, slot t (with_unexplained (explain_keys k (unexplained st)) (outside_wakes st)
    (with_threads (map_slots g (threads st)) (n_runnable st) (n_blocked st) st)) = g <$> slot t st) as Hs.
  { intros t. apply get_map_slots. }
  intros [Ho Hr Hb Hok Hst Hsts]. split; split; try done; cbn [threads with_threads with_unexplained n_runnable n_blocked next_wait].
  - unfold ordered. by rewrite lineages_map_slots.
  - rewrite Hr, cnt_map_slots. apply cnt_ext. intros s. unfold ready. by destruct (Hg s) as (_ & -> & _).
  - rewrite Hb, cnt_map_slots. apply cnt_ext. intros s. unfold waits_in. by destruct (Hg s) as (_ & _ & -> & _).
  - intros t s. rewrite Hs, fmap_Some. intros (s0 & H0 & ->). unfold slot_ok. destruct (Hg s0) as (_ & -> & -> & ->). by apply (Hok t).
  - intros t s b o. rewrite Hs, fmap_Some. intros (s0 & H0 & ->). destruct (Hg s0) as (_ & _ & -> & _). by eapply Hst.
  - intros t u s s' b b' o. rewrite !Hs, !fmap_Some. intros (s0 & H0 & ->) (s1 & H1 & ->).
    destruct (Hg s0) as (_ & _ & -> & _), (Hg s1) as (_ & _ & -> & _). by eapply Hsts.
  - apply lineages_map_slots.
  - intros t s Ht. rewrite Hs, Ht. cbn. eexists. split; [done|]. apply Hg.
Qed.

Lemma idle_end_wakes_well nat r before st : wakes_well nat st (idle_end r before st).
Proof.
  unfold idle_end. destruct (_ <? _); [done|]. etransitivity; [|apply repoll_wakes_well].
  destruct (executive_attached r); [done|]. destruct (bool_decide _); [apply release_due_matching_wakes_well|].
  etransitivity; [apply release_due_matching_wakes_well|apply wake_readiness_key_wakes_well].
Qed.

(** ** Threads in native waits *)

Lemma outside_pass_spec k n ts ts' woken fresh : outside_pass k n ts = (ts', woken, fresh) → ordered ts → 0 ≤ n →
  (∀ t s, get t ts = Some s → slot_ok s) →
  lineages ts' = lineages ts ∧ cnt ready ts' = cnt ready ts + fresh ∧ cnt waits_in ts' = cnt waits_in ts ∧ 0 ≤ fresh ≤ woken ∧ woken ≤ n ∧
  (∀ t s, get t ts = Some s → ∃ s', get t ts' = Some s' ∧ slot_step true s s' ∧ slot_ok s' ∧ blocked s' = blocked s).
Proof.
  revert n ts' woken fresh. induction ts as [|[t s] ts IH]; cbn [outside_pass]; intros n ts' woken fresh E Ho Hn Hok.
  { injection E as <- <- <-. split_and!; done || lia. }
  pose proof Ho as [Ho' _]%ordered_cons. pose proof (ordered_fresh _ _ Ho) as Hf. cbn [fst] in Hf.
  assert (∀ u s', get u ts = Some s' → slot_ok s') as Hok'.
  { intros u s' Hu. apply (Hok u). rewrite get_cons. cbn. destruct (Z.eqb_spec t u) as [->|]; [congruence|done]. }
  pose proof (Hok t s ltac:(rewrite get_cons; cbn; by rewrite Z.eqb_refl)) as Hs.
  destruct (Z.eqb_spec n 0) as [->|Hn0].
  { injection E as <- <- <-. split_and!; try lia; try done. intros u s' Hu. exists s'. split_and!; [done|apply slot_step_refl|by apply (Hok u)|done]. }
  cbn [snd fst] in E. destruct (bool_decide (outside s = Some k)) eqn:Eo.
  - destruct (outside_pass k (n - 1) ts) as [[ts1 w1] f1] eqn:E1. injection E as <- <- <-. apply bool_decide_eq_true in Eo.
    destruct (IH _ _ _ _ E1 Ho' ltac:(lia) Hok') as (Hl & Hr & Hb & Hf1 & Hw1 & Hall). destruct Hs as [_ [|Hsb]]; [congruence|].
    split_and!.
    + cbn. by f_equal.
    + rewrite !cnt_cons, Hr. unfold ready. cbn. destruct (is_some (runnable s)); cbn; lia.
    + rewrite !cnt_cons, Hb. done.
    + destruct (is_some _); cbn; lia.
    + destruct (is_some _); cbn; lia.
    + lia.
    + intros u s'. rewrite !get_cons. cbn [fst snd]. destruct (t =? u); [|apply Hall]. intros [= <-].
      eexists. split; [done|]. unfold slot_step, slot_ok. cbn. split_and!; [done..| |by right|by left|done].
      right. split_and!; [right; split; congruence|done..].
  - destruct (outside_pass k n ts) as [[ts1 w1] f1] eqn:E1. injection E as <- <- <-.
    destruct (IH _ _ _ _ E1 Ho' ltac:(lia) Hok') as (Hl & Hr & Hb & Hf1 & Hw1 & Hall). split_and!; [cbn; by f_equal|..|].
    all: rewrite ?cnt_cons, ?Hr, ?Hb; try lia.
    intros u s'. rewrite !get_cons. cbn [fst snd]. destruct (t =? u); [|apply Hall]. intros [= <-].
    exists s. split; [done|]. split; [apply slot_step_refl|]. by split.
Qed.

Lemma wake_outside_wakes_well k n st : 0 ≤ n → wakes_well true st (snd (wake_outside k n st)).
Proof.
  intros Hn [Ho Hr Hb Hok Hst Hsts]. unfold wake_outside. destruct (outside_pass k n (threads st)) as [[ts w] f] eqn:E. cbn [snd].
  destruct (outside_pass_spec _ _ _ _ _ _ E Ho Hn Hok) as (Hl & Hr' & Hb' & _ & _ & Hall).
  assert (∀ t s', get t ts = Some s' → ∃ s, slot t st = Some s ∧ slot_ok s' ∧ blocked s' = blocked s) as Hback.
  { intros t s' Ht. destruct (lineage_get_Some (threads st) t) as [s Hs]; [rewrite <- Hl; by eapply get_Some_lineage|].
    destruct (Hall t s Hs) as (s1 & Hs1 & _ & Hok1 & Hb1). exists s. split; [done|]. by replace s' with s1 by congruence. }
  split; split; try done; cbn [threads with_threads n_runnable n_blocked next_wait].
  - unfold ordered. by rewrite Hl.
  - lia.
  - lia.
  - intros t s (s0 & _ & H & _)%Hback. done.
  - intros t s b o (s0 & H0 & _ & ->)%Hback. by eapply Hst.
  - intros t u s s' b b' o (s0 & H0 & _ & ->)%Hback (s1 & H1 & _ & ->)%Hback. by eapply Hsts.
  - intros t s (s' & H & Hstep & _)%Hall. by exists s'.
Qed.
