(* ===== verification/SchedWake.v ===== *)
(** * Whom a wake reaches

    The wakes of a key against their definition: the waiters that began to wait first, as many as
    are asked for, and no other thread. *)

From S2P Require Import Prelude Owners Sched SchedWf.

(** A waiter made ready to run *)
Definition woken_slot (why : DetWake) (s : Slot) : Slot := put_runnable (Some why) (put_blocked None s).

Lemma get_mut_get_mut t f g ts : get_mut t g (get_mut t f ts) = get_mut t (λ s, g (f s)) ts.
Proof.
  unfold get_mut. rewrite map_map. apply map_ext. intros e.
  by destruct (Z.eqb_spec (fst e) t) as [E|E]; cbn [fst]; destruct (Z.eqb_spec (fst e) t).
Qed.

Lemma threads_unblock t why st s : slot t st = Some s → blocked s ≠ None →
  threads (unblock t why st) = get_mut t (woken_slot why) (threads st).
Proof.
  intros Hs Hb. unfold unblock, take_blocked. rewrite Hs. cbn. destruct (blocked s) as [[b o]|]; [|done].
  unfold set_runnable. rewrite slot_with_threads, get_get_mut, Z.eqb_refl. unfold slot in Hs. rewrite Hs.
  cbn [fmap option_fmap option_map threads with_threads]. by rewrite get_mut_get_mut.
Qed.

Lemma get_mut_lookup t f k s ts : ordered ts → ts !! k = Some (t, s) → get_mut t f ts = <[k := (t, f s)]> ts.
Proof.
  revert k. induction ts as [|e ts IH]; intros k Ho; [done|]. pose proof (ordered_fresh _ _ Ho) as Hf.
  pose proof Ho as [Ho' Hlt]%ordered_cons. cbn [get_mut map]. fold (get_mut t f ts). destruct k as [|k]; cbn.
  - intros [= ->]. cbn [fst snd] in *. rewrite Z.eqb_refl. by rewrite get_mut_absent.
  - intros Hk. rewrite (IH k) by done. destruct (Z.eqb_spec (fst e) t) as [Et|]; [|done].
    enough (fst e < t) by lia. apply Hlt. apply list_elem_of_fmap. exists (t, s). split; [done|by eapply list_elem_of_lookup_2].
Qed.

Section reference.
Variable w : Slot → option Z.

Definition older (o : Z) (s : Slot) : bool := match w s with Some o' => o' <? o | None => false end.

(** Fewer than [n] of the waiters began to wait before this one. *)
Definition among_first (n : Z) (ts : Threads) (s : Slot) : bool :=
  match w s with Some o => cnt (older o) ts <? n | None => false end.
Definition wake_first (n : Z) (why : DetWake) (ts : Threads) : Threads :=
  map_slots (λ s, if among_first n ts s then woken_slot why s else s) ts.

(** [w] tells when a blocked thread began to wait. *)
Hypothesis w_blocked : ∀ s o, w s = Some o → ∃ b, blocked s = Some (b, o).

Lemma w_woken why s : w (woken_slot why s) = None.
Proof. destruct (w _) eqn:E; [|done]. by apply w_blocked in E as [b E]. Qed.

Lemma oldest_from best ts : let r := foldl (λ best e, match w (snd e) with
                   | Some order => match best with
                                   | Some b => if pair_lt (order, fst e) b then Some (order, fst e) else Some b
                                   | None => Some (order, fst e)
                                   end
                   | None => best
                   end) best ts in
  match r with
  | Some (o, t) => (best = Some (o, t) ∨ ∃ s, (t, s) ∈ ts ∧ w s = Some o) ∧ (∀ b, best = Some b → o ≤ fst b) ∧
      ∀ u s o', (u, s) ∈ ts → w s = Some o' → o ≤ o'
  | None => best = None ∧ ∀ u s, (u, s) ∈ ts → w s = None
  end.
Proof.
  revert best. induction ts as [|[u s] ts IH]; intros best; cbn [foldl snd fst].
  { destruct best as [[o t]|]; split_and!; try by left.
    - intros b [= <-]. done.
    - by intros ? ? ? ?%elem_of_nil.
    - done.
    - by intros ? ? ?%elem_of_nil. }
  specialize (IH (match w s with
     | Some order => match best with Some b => if pair_lt (order, u) b then Some (order, u) else Some b | None => Some (order, u) end
     | None => best end)). cbv zeta in *. destruct (foldl _ _ ts) as [[o t]|].
  - destruct IH as (Hin & Hb & Hall).
    assert ((∀ b, best = Some b → o ≤ fst b) ∧ ∀ o', w s = Some o' → o ≤ o') as [Hb' Hs].
    { destruct (w s) as [ou|]; [|by split]. destruct best as [[bo bt]|].
      - unfold pair_lt in Hb. cbn in Hb. split; [intros b [= <-]|intros ? [= <-]]; cbn.
        all: destruct (Z.ltb_spec ou bo), (Z.eqb_spec ou bo), (Z.ltb_spec u bt); cbn in Hb; specialize (Hb _ eq_refl); cbn in Hb; lia.
      - specialize (Hb _ eq_refl). cbn in Hb. split; [done|]. intros ? [= <-]. lia. }
    split_and!; [|done|].
    + destruct Hin as [Hin|(s' & Hs' & Hw)]; [|right; exists s'; split; [apply elem_of_cons; by right|done]].
      destruct (w s) as [ou|] eqn:Ew; [|by left]. destruct best as [b|].
      * destruct (pair_lt _ _); [|by left]. injection Hin as <- <-. right. exists s. split; [apply elem_of_cons; by left|done].
      * injection Hin as <- <-. right. exists s. split; [apply elem_of_cons; by left|done].
    + intros u' s' o' [[= -> ->]|H]%elem_of_cons; [apply Hs|by eapply Hall].
  - destruct IH as [Hb Hall]. destruct (w s) as [ou|] eqn:Ew.
    + destruct best; [by destruct (pair_lt _ _)|done].
    + split; [done|]. intros u' s' [[= -> ->]|H]%elem_of_cons; [done|by eapply Hall].
Qed.

Lemma oldest_spec ts : match oldest w ts with
  | Some (o, t) => (∃ s, (t, s) ∈ ts ∧ w s = Some o) ∧ ∀ u s o', (u, s) ∈ ts → w s = Some o' → o ≤ o'
  | None => ∀ u s, (u, s) ∈ ts → w s = None
  end.
Proof.
  pose proof (oldest_from None ts) as H. unfold oldest. cbv zeta in H. destruct (foldl _ _ _) as [[o t]|].
  - destruct H as ([|H] & _ & H'); [done|]. done.
  - by destruct H.
Qed.

Lemma map_slots_ext g h ts : (∀ t s, (t, s) ∈ ts → g s = h s) → map_slots g ts = map_slots h ts.
Proof. intros H. apply map_ext_in. intros [t s] Hin. cbn. f_equal. apply (H t). by apply list_elem_of_In. Qed.

Lemma map_slots_id g ts : (∀ t s, (t, s) ∈ ts → g s = s) → map_slots g ts = ts.
Proof.
  intros H. transitivity (map_slots (λ s, s) ts); [by apply map_slots_ext|]. unfold map_slots.
  rewrite <- (map_id ts) at 2. apply map_ext. by intros [].
Qed.

Lemma map_slots_get_mut g f t ts :
  map_slots g (get_mut t f ts) = map (λ e, (fst e, if fst e =? t then g (f (snd e)) else g (snd e))) ts.
Proof. unfold map_slots, get_mut. rewrite map_map. apply map_ext. intros e. by destruct (fst e =? t). Qed.

(** The loop that takes the oldest waiter each turn *)
Lemma wake_oldest_first n why st : st_wf st →
  threads (wake_oldest n w why st) = wake_first (Z.of_nat n) why (threads st).
Proof.
  revert st. induction n as [|n IH]; intros st Hw; cbn [wake_oldest].
  { symmetry. apply map_slots_id. intros t s _. unfold among_first. destruct (w s) as [o|]; [|done].
    pose proof (cnt_nonneg (older o) (threads st)). by destruct (Z.ltb_spec (cnt (older o) (threads st)) (Z.of_nat 0)); [lia|]. }
  pose proof (sw_ordered _ Hw) as Ho. pose proof (oldest_spec (threads st)) as Hold.
  destruct (oldest w (threads st)) as [[o t]|]; cycle 1.
  { symmetry. apply map_slots_id. intros u s Hin. unfold among_first. by rewrite (Hold u s Hin). }
  destruct Hold as ((s & Hin & Hws) & Hmin). pose proof (ordered_elem _ _ _ Ho Hin) as Hs.
  destruct (w_blocked _ _ Hws) as [b Hb].
  rewrite IH by by apply (unblock_wakes_well false). rewrite (threads_unblock t why st s) by (done || congruence).
  unfold wake_first. rewrite map_slots_get_mut. symmetry. apply map_ext_in.
  intros [u s'] Hin'%list_elem_of_In. cbn [fst snd]. f_equal. pose proof (ordered_elem _ _ _ Ho Hin') as Hs'. unfold among_first.
  destruct (Z.eqb_spec u t) as [->|Hne].
  - rewrite w_woken. replace s' with s by congruence. rewrite Hws.
    assert (cnt (older o) (threads st) = 0) as ->; [|done]. apply cnt_zero; [done|].
    intros u s0 H0%get_elem. unfold older. destruct (w s0) as [o0|] eqn:E0; [|done]. apply Z.ltb_ge. by eapply Hmin.
  - destruct (w s') as [o'|] eqn:Eo'; [|done]. erewrite (cnt_get_mut _ _ t); [|done|done].
    destruct (w_blocked _ _ Eo') as [b' Hb'].
    assert (o < o') as Hlt.
    { pose proof (Hmin _ _ _ Hin' Eo'). destruct (decide (o = o')) as [<-|]; [|lia]. destruct Hne. symmetry. by eapply (sw_stamps _ Hw). }
    assert (older o' s = true) as -> by (unfold older; rewrite Hws; by apply Z.ltb_lt).
    assert (older o' (woken_slot why s) = false) as -> by (unfold older; by rewrite w_woken). cbn [b2z].
    destruct (Z.ltb_spec (cnt (older o') (threads st)) (Z.of_nat (S n))), (Z.ltb_spec (cnt (older o') (threads st) - 1 + 0) (Z.of_nat n)); try done; lia.
Qed.

(** The pass over all the threads when the wake reaches every waiter *)
Lemma each_unblocked why st : st_wf st →
  threads (each_thread (λ t s st, if is_some (w s) then unblock t why st else st) st) =
  map_slots (λ s, if is_some (w s) then woken_slot why s else s) (threads st).
Proof.
  intros Hw. unfold each_thread. set (g := λ s, if is_some (w s) then woken_slot why s else s).
  set (f := λ st i, match threads st !! i with Some (t, s) => _ | None => st end).
  assert (∀ k, (k <= length (threads st))%nat → let st' := foldl f st (seq 0 k) in
    st_wf st' ∧ threads st' = map_slots g (take k (threads st)) ++ drop k (threads st)) as H.
  { induction k as [|k IH]; intros Hk; cbv zeta; [by rewrite drop_0|]. destruct IH as [Hw' E]; [lia|].
    rewrite seq_S, foldl_app. cbn [foldl plus]. set (st' := foldl f st (seq 0 k)) in *.
    destruct (lookup_lt_is_Some_2 (threads st) k) as [[t s] Hts]; [lia|].
    assert (threads st' !! k = Some (t, s)) as Hk'.
    { rewrite E, lookup_app_r; unfold map_slots; rewrite length_map, length_take_le by lia; [|lia].
      rewrite Nat.sub_diag, lookup_drop, Nat.add_0_r. done. }
    assert (slot t st' = Some s) as Hs by (apply ordered_elem; [apply Hw'|by eapply list_elem_of_lookup_2]).
    unfold f. rewrite Hk'. rewrite (take_S_r _ _ _ Hts). unfold map_slots at 1. rewrite map_app. fold (map_slots g (take k (threads st))).
    cbn [map fst snd]. rewrite <- (assoc_L (++)). cbn [app].
    assert (g s = if is_some (w s) then woken_slot why s else s) as -> by done. destruct (w s) as [o|] eqn:Ews; cbn [is_some].
    - split; [by apply (unblock_wakes_well false)|]. destruct (w_blocked _ _ Ews) as [b Hb].
      rewrite (threads_unblock t why st' s) by (done || congruence).
      rewrite (get_mut_lookup _ _ k s), E by (done || apply Hw').
      rewrite insert_app_r_alt; unfold map_slots; rewrite length_map, length_take_le by lia; [|lia].
      rewrite Nat.sub_diag, (drop_S _ _ _ Hts). done.
    - split; [done|]. rewrite E. f_equal. by apply drop_S. }
  destruct (H (length (threads st)) ltac:(lia)) as [_ E]. rewrite E, take_ge, drop_ge by lia. apply app_nil_r.
Qed.

End reference.

Lemma waiting_blocked k m s o : waiting k m s = Some o → ∃ b, blocked s = Some (b, o).
Proof. unfold waiting. destruct (blocked s) as [[b o']|]; [|done]. destruct (_ && _); [|done]. intros [= <-]. by exists b. Qed.

Lemma cnt_lt p q ts t s : (∀ s, p s = true → q s = true) → (t, s) ∈ ts → p s = false → q s = true → cnt p ts < cnt q ts.
Proof.
  intros Hpq. induction ts as [|e ts IH]; [by intros ?%elem_of_nil|]. intros Hin Hp Hq.
  assert (∀ l, cnt p l ≤ cnt q l) as Hle.
  { intros l. induction l as [|x l IHl]; [done|]. rewrite !cnt_cons. specialize (Hpq (snd x)).
    destruct (p (snd x)); [rewrite Hpq by done; lia|]. pose proof (cnt_nonneg q l). destruct (q (snd x)); cbn [b2z]; lia. }
  rewrite !cnt_cons. apply elem_of_cons in Hin as [<-|Hin].
  - cbn [snd]. rewrite Hp, Hq. cbn [b2z]. pose proof (Hle ts). lia.
  - specialize (IH Hin Hp Hq). specialize (Hpq (snd e)). destruct (p (snd e)); [rewrite Hpq by done; lia|]. destruct (q (snd e)); cbn [b2z]; lia.
Qed.

Lemma wake_key_matching_first k n why matches st : st_wf st → 0 ≤ n →
  let w := waiting k matches in
  let '(woken, st') := wake_key_matching k n why matches st in
  threads st' = wake_first w n why (threads st) ∧
  woken = Z.min n (cnt (λ s, is_some (w s)) (threads st)) ∧ st_wf st'.
Proof.
  intros Hw Hn w. pose proof (waiting_blocked k matches) as Hb.
  pose proof (proj1 (wake_key_matching_wakes_well false k n why matches st Hw)) as Hw'.
  unfold wake_key_matching in *. fold w in Hb, Hw' |- *. change (Z.of_nat (length (retain (λ e, is_some (w (snd e))) (threads st)))) with (cnt (λ s, is_some (w s)) (threads st)) in *.
  destruct (Z.leb_spec (cnt (λ s, is_some (w s)) (threads st)) n) as [Hall|Hall]; cbn [snd] in Hw'.
  - split_and!; [|lia|done]. rewrite each_unblocked by done. apply map_slots_ext. intros t s Hin. unfold among_first.
    destruct (w s) as [o|] eqn:Es; cbn [is_some]; [|done].
    assert (cnt (older w o) (threads st) < cnt (λ s, is_some (w s)) (threads st)) as Hlt.
    { apply (cnt_lt _ _ _ t s); [|done|unfold older; rewrite Es; apply Z.ltb_irrefl|by rewrite Es].
      intros s'. unfold older. by destruct (w s'). }
    destruct (Z.ltb_spec (cnt (older w o) (threads st)) n); [done|lia].
  - split_and!; [|lia|done]. rewrite wake_oldest_first, Z2Nat.id by done. done.
Qed.

(** A wake that reaches no one makes no one ready. *)
Lemma wake_none k n why matches st : st_wf st → 0 ≤ n →
  fst (wake_key_matching k n why matches st) = 0 → n_runnable (snd (wake_key_matching k n why matches st)) = n_runnable st.
Proof.
  intros Hw Hn. pose proof (wake_key_matching_first k n why matches st Hw Hn) as H. cbv zeta in H.
  destruct (wake_key_matching k n why matches st) as [woken st']. cbn [fst snd]. destruct H as (Ht & -> & Hw'). intros Hz.
  rewrite (sw_runnable _ Hw'), (sw_runnable _ Hw), Ht. f_equal. apply map_slots_id. intros t s Hin.
  unfold among_first. destruct (waiting k matches s) as [o|] eqn:Eo; [|done].
  assert (0 < cnt (λ s, is_some (waiting k matches s)) (threads st)) as Hpos.
  { enough (cnt (λ _, false) (threads st) < cnt (λ s, is_some (waiting k matches s)) (threads st)).
    { pose proof (cnt_nonneg (λ _, false) (threads st)). lia. } apply (cnt_lt _ _ _ t s); [done|done|done|by rewrite Eo]. }
  pose proof (cnt_nonneg (older (waiting k matches) o) (threads st)). destruct (Z.ltb_spec (cnt (older (waiting k matches) o) (threads st)) n); [lia|done].
Qed.

(** A wake of a key reaches exactly the waiters it names that began to wait first, as many as
    it asks for or as there are; each goes from waiting to ready to run, every other thread is left
    as it was, and the counts of both stay right. *)
Theorem wakes_oldest_first k n why matches st : st_wf st → 0 ≤ n →
  let w := waiting k matches in
  let '(woken, st') := wake_key_matching k n why matches st in
  threads st' = wake_first w n why (threads st) ∧
  woken = Z.min n (cnt (λ s, is_some (w s)) (threads st)) ∧ st_wf st'.
Proof. apply wake_key_matching_first. Qed.

(** Three waiters on one address, in the order they began to wait; the wake asks for two. *)
Definition waiter (o : Z) : Slot :=
  put_blocked (Some (mk_blocked (Addr 64) u32_max None None None None None false, o)) slot_new.
Definition three_waiters : State :=
  mk_state (Some 9) [(1, waiter 2); (3, waiter 0); (5, waiter 1); (9, slot_new)] 0 3 3 9 9 [] [] None false 3 1 foreign_default
    owners_default unexplained_default 0.

Lemma three_waiters_wf : st_wf three_waiters.
Proof.
  assert (∀ t s, slot t three_waiters = Some s → s = slot_new ∨ ∃ o, (t, o) ∈ [(1, 2); (3, 0); (5, 1)] ∧ s = waiter o) as H.
  { intros t s Hs%get_elem. repeat (apply elem_of_cons in Hs as [[= -> ->]|Hs]); [right..| |by apply elem_of_nil in Hs].
    - exists 2. set_solver.
    - exists 0. set_solver.
    - exists 1. set_solver.
    - by left. }
  split; try done.
  - repeat constructor.
  - intros t s [->|(o & _ & ->)]%H; split; by left || by right.
  - intros t s b o [->|(o' & Ho & ->)]%H; [done|]. cbn. intros [= _ <-].
    repeat (apply elem_of_cons in Ho as [[= -> ->]|Ho]); [lia..|by apply elem_of_nil in Ho].
  - intros t u s s' b b' o [->|(o1 & H1 & ->)]%H [->|(o2 & H2 & ->)]%H; try done. cbn. intros [= _ <-] [= _ <-].
    repeat (apply elem_of_cons in H1 as [[= -> ->]|H1]); try by apply elem_of_nil in H1.
    all: repeat (apply elem_of_cons in H2 as [[= ->]|H2]); done || by apply elem_of_nil in H2.
Qed.

Lemma wakes_oldest_first_witness :
  let st' := snd (wake_key_matching (Addr 64) 2 Woken (λ _, true) three_waiters) in
  map fst (retain (λ e, ready (snd e)) (threads st')) = [3; 5] ∧ st_wf st'.
Proof.
  pose proof (wakes_oldest_first (Addr 64) 2 Woken (λ _, true) three_waiters three_waiters_wf ltac:(discriminate)) as H.
  destruct (wake_key_matching _ _ _ _ _) as [woken st']. cbn [snd]. destruct H as (Ht & _ & Hw). split; [|exact Hw].
  rewrite Ht. vm_compute. reflexivity.
Defined.
