(* ===== verification/SchedSys.v ===== *)
(** * Threads in the schedule

    The threads of a domain and the calls they make to its schedule, one locked section at a time
    in any order. Where each thread stands is a [Pc]; a thread outside the schedule is [Away]. *)

From S2P Require Import Prelude Owners Sched SchedWf.

(** Where a thread is: not in the schedule; created, its first act still to come; running the
    code under test; running it without a slot in the schedule, let through by its first act while
    the schedule was detached; in a native wait; parked, waiting for a grant; parked, driving a
    dispatch that has let go of the lock. *)
Inductive Pc := Away | Unborn | Code | Free | Native | Parked | Driving (d : Driver).

Record Sys := mk_sys { sch : Scheduler; pc : Z → Pc }.
Definition sys_default : Sys := mk_sys sched_default (λ _, Away).

Abbreviation st s := (state (sch s)).

Definition goes (t : Z) (p : Pc) (s' : Scheduler) (s : Sys) : option Sys :=
  Some (mk_sys s' (λ u, if u =? t then p else pc s u)).
Definition stays (s' : Scheduler) (s : Sys) : option Sys := Some (mk_sys s' (pc s)).

(** Where a call that returns leaves the thread that made it *)
Definition back (p : Pc) : Pc := match p with Free => Free | _ => Code end.
(** Where a dispatch leaves the thread that runs it *)
Definition driven (d : option Driver) : Pc := match d with Some d => Driving d | None => Parked end.

Inductive Act :=
  | AEnterRoot (t : Z) | ASpawned (t : Z) | AUnspawned (t : Z) | AStarted (t : Z) | AAttach (t : Z) | ADetach (t : Z)
  | AExit (t : Z) (root : bool) | ABlock (t : Z) (b : Blocked) (now : option Z) (m : Memory) (rs : list Reading)
  | AYield (t : Z) (rs : list Reading) | ASpinBegin (t : Z) (clock : bool)
  | ASpinAdvanced (t : Z) (now : option Z) (timer_wakes : bool) (m : Memory) | AUnspin (t : Z)
  | AWaitOutside (t : Z) (k : DetKey) | ARejoin (t : Z)
  | ATakeRun (t : Z) | ATakeDispatch (t : Z) (rs : list Reading) | AResume (t : Z) (r : Reading) (rs : list Reading)
  | ARepoll (t : Z)
  | AWakeThread (t : Z) | AWake (k : DetKey) (n m : Z) (private : option bool) | AWakeForeign (w : ForeignWake)
  | AQueueForeign (w : ForeignWake) | AWakeReadiness (ev : ReadinessWake)
  | AKick (now : option Z) (timer_wakes : bool) (m : Memory) | AReleaseDueAt (now : option Z)
  | AReleaseDueNativeAt (now : option Z) | ARecordOwner (r : MutexRecord) | AQueueOwner (r : MutexRecord)
  | AAcquire | ARelease | ATakeUnexplained | ARecordHandle (h child : Z).

(** One act: [None] where the thread named is not where the call is made from. *)
Definition step (a : Act) (s : Sys) : option Sys :=
  match a with
  | AEnterRoot t =>
      match pc s t with
      | Away => if t =? EXTERNAL then None
                else let '(parks, s') := enter_root t (sch s) in goes t (if parks then Parked else Code) s' s
      | _ => None
      end
  | ASpawned t =>
      match pc s t, slot t (st s) with
      | Away, None => if t =? EXTERNAL then None else goes t Unborn (spawned t (sch s)) s
      | _, _ => None
      end
  | AUnspawned t => match pc s t with Unborn => goes t Away (unspawned t (sch s)) s | _ => None end
  | AStarted t =>
      match pc s t with
      | Unborn => let '(parks, s') := started t (sch s) in goes t (if parks then Parked else Free) s' s
      | _ => None
      end
  | AAttach t =>
      match pc s t with
      | Away => if t =? EXTERNAL then None
                else let '(parks, s') := attach_thread t (sch s) in goes t (if parks then Parked else Code) s' s
      | _ => None
      end
  | ADetach t => match pc s t with Code | Free => goes t Away (detach_thread t (sch s)) s | _ => None end
  | AExit t root =>
      match pc s t with
      | Code | Free | Away => if t =? EXTERNAL then None else goes t Away (exit t root (sch s)) s
      | _ => None
      end
  | ABlock t b now m rs =>
      match pc s t with
      | Code | Free =>
          '(r, s') ← block t b now m rs (sch s);
          goes t (match r with Returns _ => back (pc s t) | Parks => Parked | Drives d => Driving d end) s' s
      | _ => None
      end
  | AYield t rs =>
      match pc s t with
      | Code | Free =>
          '(r, s') ← yield_now t rs (sch s);
          goes t (match r with Returns _ => back (pc s t) | Parks => Parked | Drives d => Driving d end) s' s
      | _ => None
      end
  | ASpinBegin t clock => match pc s t with Code | Free => stays (snd (spin_begin t clock (sch s))) s | _ => None end
  | ASpinAdvanced t now tw m =>
      match pc s t with
      | Code => if bool_decide (holder (st s) = Some t) then stays (spin_advanced now tw m (sch s)) s else None
      | _ => None
      end
  | AUnspin t => stays (unspin t (sch s)) s
  | AWaitOutside t k =>
      match pc s t with
      | Code | Free =>
          goes t (match slot t (st s) with Some sl => if let_go sl then Native else Code | None => back (pc s t) end)
            (wait_outside t k (sch s)) s
      | _ => None
      end
  | ARejoin t =>
      match pc s t with
      | Code | Free | Native =>
          let '(parks, s') := rejoin t (sch s) in goes t (if parks then Parked else back (pc s t)) s' s
      | _ => None
      end
  | ATakeRun t =>
      match pc s t, take_grant t (sch s) with Parked, Some (Run _, s') => goes t Code s' s | _, _ => None end
  | ATakeDispatch t rs =>
      match pc s t, take_grant t (sch s) with
      | Parked, Some (Dispatch, s') => '(s', d) ← park_dispatch rs s'; goes t (driven d) s' s
      | _, _ => None
      end
  | AResume t r rs =>
      match pc s t with Driving d => '(s', d) ← resume d r rs (sch s); goes t (driven d) s' s | _ => None end
  | ARepoll t => match pc s t with Parked => stays (repoll_if_spoiled t (sch s)) s | _ => None end
  | AWakeThread t => stays (wake_thread t (sch s)) s
  | AWake k n m p => if 0 <=? n then stays (snd (wake_masked k n m p (sch s))) s else None
  | AWakeForeign w => if 0 <=? wcount w then stays (snd (wake_foreign w (sch s))) s else None
  | AQueueForeign w => if 0 <=? wcount w then stays (snd (queue_foreign w (sch s))) s else None
  | AWakeReadiness ev => stays (snd (wake_readiness ev (sch s))) s
  | AKick now tw m => stays (kick now tw m (sch s)) s
  | AReleaseDueAt now => stays (release_due_at now (sch s)) s
  | AReleaseDueNativeAt now => stays (release_due_native_at now (sch s)) s
  | ARecordOwner r => if rmutex r =? 0 then None else stays (record_owner r (sch s)) s
  | AQueueOwner r => if rmutex r =? 0 then None else stays (queue_owner r (sch s)) s
  | AAcquire => s' ← acquire_external (sch s); stays s' s
  | ARelease => stays (release_external (sch s)) s
  | ATakeUnexplained => stays (snd (take_unexplained (sch s))) s
  | ARecordHandle h c => stays (record_handle h c (sch s)) s
  end.

Fixpoint run (acts : list Act) (s : Sys) : option Sys :=
  match acts with [] => Some s | a :: acts => s ← step a s; run acts s end.

(** The calls after which the code leaves a thread behind: a thread the schedule let go that leaves
    it; one created while the schedule was detached whose first act finds it attached again; one
    granted the baton whose creation then fails; one let go whose wait finds the schedule detached
    anew. *)
Definition leaves_behind (a : Act) (s : Sys) : bool :=
  match a with
  | ADetach t => match slot t (st s) with Some sl => let_go sl | None => false end
  | AStarted t => negb (detached (sch s)) && negb (is_some (slot t (st s)))
  | AUnspawned t => bool_decide (holder (st s) = Some t)
  | ABlock t _ _ _ _ =>
      detached (sch s) && negb (bool_decide (holder (st s) = Some t)) &&
      match slot t (st s) with Some sl => let_go sl | None => false end
  | _ => false
  end.

Fixpoint clean (acts : list Act) (s : Sys) : bool :=
  match acts with
  | [] => true
  | a :: acts => negb (leaves_behind a s) && match step a s with Some s => clean acts s | None => true end
  end.

(** ** What the schedule knows of a thread *)

Definition is_run (g : option Grant) : bool := match g with Some (Run _) => true | _ => false end.
Definition quiet (s : Slot) : Prop := runnable s = None ∧ blocked s = None.

(** Whether the slot of a thread, and whether it holds the baton, fit where the thread is. *)
Definition parked_fits (h : bool) (s : Slot) : Prop :=
  outside s = None ∧
  ((h = true ∧ quiet s ∧ is_run (grant s) = true ∧ let_go s = false) ∨
   (h = false ∧ runnable s ≠ None ∧ blocked s = None ∧ is_run (grant s) = false ∧ let_go s = false) ∨
   (h = false ∧ runnable s = None ∧ blocked s ≠ None ∧ is_run (grant s) = false ∧ let_go s = false) ∨
   (h = false ∧ quiet s ∧ is_run (grant s) = true ∧ let_go s = true)).
Definition fits (p : Pc) (h : bool) (o : option Slot) : Prop :=
  match p, o with
  | Away, None | Unborn, None | Free, None => h = false
  | Free, Some _ => False
  | Away, Some s => h = false ∧ quiet s ∧ grant s = None ∧ let_go s = false ∧ outside s = None
  | Unborn, Some s =>
      blocked s = None ∧ outside s = None ∧ let_go s = false ∧
      ((h = true ∧ runnable s = None ∧ is_run (grant s) = true) ∨ (h = false ∧ runnable s ≠ None ∧ grant s = None))
  | Code, Some s =>
      quiet s ∧ grant s = None ∧ outside s = None ∧ ((h = true ∧ let_go s = false) ∨ (h = false ∧ let_go s = true))
  | Native, Some s =>
      blocked s = None ∧ let_go s = true ∧
      ((h = true ∧ runnable s = None ∧ outside s = None ∧ is_run (grant s) = true) ∨
       (h = false ∧ grant s = None ∧ (runnable s = None ∨ outside s = None)))
  | Parked, Some s | Driving _, Some s => parked_fits h s
  | _, None => False
  end.

Lemma fits_step nat p h s s' : fits p h (Some s) → slot_ok s → slot_step nat s s' → fits p h (Some s').
Proof.
  unfold slot_step, slot_ok. intros Hf Hok (Hg & Hl & [(Hr & Hb & Ho)|(Hw & Hr & Hb & Ho)]).
  - destruct p; cbn in *; unfold parked_fits, quiet in *; rewrite ?Hg, ?Hl, ?Hr, ?Hb, ?Ho; done.
  - destruct p; cbn in *; unfold parked_fits, quiet in *; rewrite ?Hg, ?Hl, ?Hb, ?Ho; naive_solver.
Qed.

(** A thread ready to run is granted the baton. *)
Lemma fits_granted p s why : fits p false (Some s) → runnable s ≠ None →
  fits p true (Some (set_grant (grant_run why) (put_runnable None s))).
Proof. destruct p; cbn; unfold parked_fits, quiet; cbn; naive_solver. Qed.

(** Whoever holds the baton or is ready to is not waiting. *)
Lemma fits_held p s : fits p true (Some s) → runnable s = None ∧ blocked s = None ∧ outside s = None.
Proof. destruct p; cbn; unfold parked_fits, quiet; naive_solver. Qed.

(** ** Runs to look at *)

Definition silent : Memory := mk_memory (λ _ _ _, Some 0) (λ _, 0).
(** A turn of a dispatch in which nothing outside the schedule has anything for it *)
Definition nothing : Reading :=
  mk_reading false false false false [] false false None None false false (λ _, false) silent 0 false false.
Definition wait_on (k : DetKey) : Blocked := mk_blocked k u32_max None None None (Some 0) None false.

(** Thread [r] enters, starts [w] and waits; [w] runs, wakes [r] and waits; [r] leaves, and [w],
    given the duty to move the schedule on, finds no run left and detaches it. *)
Definition run_over (r w : Z) : list Act :=
  [AEnterRoot r; ASpawned w; AStarted w; ABlock r (wait_on (Addr 8)) None silent [nothing]; ATakeRun w;
   AWake (Addr 8) 1 u32_max None; ABlock w (wait_on (Addr 64)) None silent [nothing]; ATakeRun r; AExit r true;
   ATakeDispatch w [nothing]; ATakeRun w].

(** Thread 1 enters, starts threads 2 and 3 and yields to them. *)
Definition two_ready : list Act :=
  [AEnterRoot 1; ASpawned 2; AStarted 2; ASpawned 3; AStarted 3; AYield 1 [nothing]; ATakeRun 2].
Definition two_ready_end : Sys := Eval vm_compute in default sys_default (run two_ready sys_default).
