(* ===== verification/SchedInv.v ===== *)
(** * The schedule's invariants

    What holds of every schedule whatever its threads do, and that each act keeps it. *)

From S2P Require Import Prelude Owners Sched SchedWf SchedSys.

(** ** Slots and holders *)

Abbreviation holds_baton h t := (bool_decide (h = Some t)).

(** With [h] the holder of the baton, [l] threads let go and the schedule detached or not [d]: the
    state is well formed, every thread's slot fits where it is, and no thread let go is about to be
    handed the baton while the schedule is detached. *)
Record core (at_ : Z → Pc) (d : bool) (l : Z) (h : option Z) (st : State) : Prop := {
  co_wf : st_wf st;
  co_fits t : t ≠ EXTERNAL → fits (at_ t) (holds_baton h t) (slot t st);
  co_external : slot EXTERNAL st = None ∧ at_ EXTERNAL = Away;
  co_let_go : cnt let_go (threads st) = l;
  co_detached t s : d = true → at_ t = Native → slot t st = Some s → runnable s = None ∧ h ≠ Some t;
}.

Lemma lineages_cnt p ts ts' : ordered ts → lineages ts' = lineages ts →
  (∀ t s, get t ts = Some s → ∃ s', get t ts' = Some s' ∧ p s' = p s) → cnt p ts' = cnt p ts.
Proof.
  revert ts'. induction ts as [|[t s] ts IH]; intros [|[t' s'] ts']; [done..|]. intros Ho [= -> El] H.
  pose proof (ordered_fresh _ _ Ho) as Hf. pose proof Ho as [Ho' _]%ordered_cons.
  rewrite !cnt_cons, (IH ts'); cbn [fst snd] in *; [|done|done|].
  - destruct (H t s) as (s1 & Hs1 & Hp); [rewrite get_cons; cbn; by rewrite Z.eqb_refl|].
    rewrite get_cons in Hs1. cbn in Hs1. rewrite Z.eqb_refl in Hs1. injection Hs1 as ->. by rewrite Hp.
  - intros u su Hu. destruct (decide (t = u)) as [<-|Hne]; [congruence|].
    destruct (H u su) as (s1 & Hs1 & Hp); [rewrite get_cons; cbn; by destruct (Z.eqb_spec t u)|].
    exists s1. split; [|done]. rewrite get_cons in Hs1. cbn in Hs1. by destruct (Z.eqb_spec t u).
Qed.

Lemma wakes_absent nat st st' t : wakes nat st st' → slot t st = None → slot t st' = None.
Proof.
  intros W H. apply get_None. rewrite (wk_lineages _ _ _ W). intros [s Hs]%lineage_get_Some. unfold slot in H. congruence.
Qed.

(** ** Wakes and grants *)

Section core.
Context (at_ : Z → Pc) (d : bool) (l : Z).

Lemma core_wakes nat h st st' : (d = true → nat = false) → wakes_well nat st st' → core at_ d l h st → core at_ d l h st'.
Proof.
  intros Hd W [Hw Hf [He Ha] Hl Hdt]. destruct (W Hw) as [Hw' Wk]. split; [done|..].
  - intros t Ht. specialize (Hf t Ht). destruct (slot t st) as [s|] eqn:Es.
    + destruct (wk_slots _ _ _ Wk t s Es) as (s' & -> & Hst). eapply fits_step; [done|exact (sw_slots _ Hw t s Es)|done].
    + by rewrite (wakes_absent nat st).
  - split; [|done]. by apply (wakes_absent nat st).
  - rewrite <- Hl. apply lineages_cnt; [apply Hw|apply Wk|]. intros t s (s' & Hs' & _ & E & _)%(wk_slots _ _ _ Wk). by exists s'.
  - intros t s' Dt Hn Hs'. destruct (slot t st) as [s|] eqn:Es; [|apply (wakes_absent nat st st' t Wk) in Es; congruence].
    destruct (wk_slots _ _ _ Wk t s Es) as (s1 & Hs1 & _ & _ & Hc). replace s1 with s' in * by congruence.
    destruct (Hdt t s Dt Hn Es) as [Hr Hh]. split; [|done]. destruct Hc as [(-> & _ & _)|([Hb|[Hnat _]] & _)]; [done| |].
    + destruct (decide (t = EXTERNAL)) as [->|Ht]; [congruence|]. specialize (Hf t Ht). rewrite Hn, Es in Hf. cbn in Hf. tauto.
    + rewrite Hd in Hnat by done. done.
Qed.

(** The state of the threads with the fields beside them changed. *)
Lemma core_same h st st' : threads st' = threads st → n_runnable st' = n_runnable st → n_blocked st' = n_blocked st →
  next_wait st' = next_wait st → core at_ d l h st → core at_ d l h st'.
Proof.
  intros Et Er Eb En [[] Hf He Hl Hd]. unfold slot in *. split; unfold slot; rewrite ?Et; try done.
  split; unfold slot; rewrite ?Et, ?Er, ?Eb, ?En; done.
Qed.

Lemma find_ready st (q : Z * Slot → bool) e : find_first (λ e, q e && ready (snd e)) (threads st) = Some e →
  st_wf st → slot (fst e) st = Some (snd e) ∧ runnable (snd e) ≠ None ∧ q e = true.
Proof.
  intros [Hin [Hq Hr]%andb_true_iff]%find_first_Some Hw. split_and!; [|by unfold ready in Hr; destruct (runnable _)|done].
  apply ordered_elem; [apply Hw|]. by destruct e.
Qed.

Lemma next_thread_ready st t : st_wf st → next_thread st = Some t → ∃ s, slot t st = Some s ∧ runnable s ≠ None.
Proof.
  intros Hw. unfold next_thread. change (λ e, (last st <? fst e) && is_some (runnable (snd e))) with (λ e : Z * Slot, (last st <? fst e) && ready (snd e)).
  destruct (find_first (λ e, (last st <? fst e) && ready (snd e)) _) as [e|] eqn:E.
  - apply find_ready in E as (Hs & Hr & _); [|done]. intros [= <-]. by eexists.
  - destruct (find_first (λ e, is_some (runnable (snd e))) _) as [e|] eqn:E'; cbn; [|done]. intros [= <-].
    apply (find_ready st (λ _, true)) in E' as (Hs & Hr & _); [|done]. by eexists.
Qed.

Lemma next_thread_none st : st_wf st → next_thread st = None ↔ n_runnable st = 0.
Proof.
  intros Hw. rewrite (sw_runnable _ Hw), (cnt_zero _ _ (sw_ordered _ Hw)). split.
  - unfold next_thread. destruct (find_first (λ e, (last st <? fst e) && is_some (runnable (snd e))) _); [done|].
    destruct (find_first _ _) eqn:E; [done|]. intros _ t s Hs%get_elem. rewrite find_first_None in E. apply (E (t, s) Hs).
  - intros H. destruct (next_thread st) as [t|] eqn:E; [|done]. apply (next_thread_ready _ _ Hw) in E as (s & Hs & Hr).
    specialize (H t s Hs). unfold ready in H. by destruct (runnable s).
Qed.

Definition granted (t : Z) (why : DetWake) (st : State) : State :=
  upd t (set_grant (grant_run why)) (end_idle (with_last t (last st) (with_holder (Some t)
    (with_threads (get_mut t (put_runnable None) (threads st)) (n_runnable st - 1) (n_blocked st) st)))).

Lemma grant_next_eq st : st_wf st →
  match next_thread st with
  | None => grant_next st = (false, st)
  | Some t => ∃ why, grant_next st = (true, granted t why st)
  end.
Proof.
  intros Hw. unfold grant_next. destruct (next_thread st) as [t|] eqn:E; [|done].
  apply (next_thread_ready _ _ Hw) in E as (s & Hs & Hr). unfold take_runnable. rewrite Hs. cbn.
  destruct (runnable s) as [why|]; [|done]. by exists why.
Qed.

Lemma core_granted st t s why : core at_ d l None st → slot t st = Some s → runnable s ≠ None →
  core at_ d l (Some t) (granted t why st).
Proof.
  intros [Hw Hf [He Ha] Hl Hd] Hs Hr. pose proof (sw_ordered _ Hw) as Ho.
  assert (t ≠ EXTERNAL) as Ht by (intros ->; congruence).
  set (st1 := with_threads (get_mut t (λ s, set_grant (grant_run why) (put_runnable None s)) (threads st)) (n_runnable st - 1) (n_blocked st) st).
  assert (threads (granted t why st) = threads st1) as Et.
  { unfold granted, upd, st1. cbn [threads with_threads with_last with_holder end_idle with_idle]. unfold get_mut. rewrite map_map. apply map_ext.
    intros e. by destruct (Z.eqb_spec (fst e) t) as [->|]; cbn; [rewrite Z.eqb_refl|destruct (Z.eqb_spec (fst e) t)]. }
  apply (core_same _ st1); [done|done|done|done|].
  assert (∀ u, slot u st1 = if u =? t then Some (set_grant (grant_run why) (put_runnable None s)) else slot u st) as Hs1.
  { intros u. unfold st1. rewrite slot_with_threads, get_get_mut. unfold slot in *. destruct (Z.eqb_spec u t) as [->|]; [by rewrite Hs|done]. }
  pose proof (Hf t Ht) as Hft. rewrite Hs in Hft. cbn in Hft. split.
  - pose proof (sw_slots _ Hw t s Hs) as [[|Hb] Hok]; [done|]. apply (wf_slot_changed st t s); [done|done| | | |by left].
    + split; [by left|done].
    + unfold ready. cbn. destruct (runnable s); [cbn; lia|done].
    + unfold waits_in. cbn. lia.
  - intros u Hu. rewrite Hs1. destruct (Z.eqb_spec u t) as [->|Hne].
    + rewrite bool_decide_true by done. by apply fits_granted.
    + rewrite bool_decide_false by congruence. by apply Hf.
  - rewrite Hs1. destruct (Z.eqb_spec EXTERNAL t); [congruence|done].
  - rewrite <- Hl. unfold st1. cbn. erewrite cnt_get_mut by done. cbn. lia.
  - intros u su Dt Hn. rewrite Hs1. destruct (Z.eqb_spec u t) as [->|Hne].
    + destruct (Hd t s Dt Hn Hs). done.
    + intros Hu. destruct (Hd u su Dt Hn Hu). split; congruence.
Qed.

(** After a grant no thread is ready to run while the baton is free. *)
Definition busy (st : State) : Prop := holder st = None → n_runnable st = 0.

Lemma core_grant_if_idle st : core at_ d l (holder st) st →
  core at_ d l (holder (grant_if_idle st)) (grant_if_idle st) ∧ busy (grant_if_idle st).
Proof.
  intros Hc. unfold grant_if_idle. destruct (holder st) as [h|] eqn:Eh; cbn [is_some].
  { rewrite Eh. split; [done|]. unfold busy. congruence. }
  pose proof (co_wf _ _ _ _ _ Hc) as Hw. pose proof (grant_next_eq st Hw) as Hg. destruct (next_thread st) as [t|] eqn:E.
  - destruct Hg as [why ->]. cbn [snd]. apply (next_thread_ready _ _ Hw) in E as (s & Hs & Hr). split; [by eapply core_granted|done].
  - rewrite Hg. cbn [snd]. rewrite Eh. split; [done|]. intros _. by apply next_thread_none.
Qed.

Lemma core_hand_on st : core at_ d l None st → core at_ d l (holder (hand_on st)) (hand_on st) ∧ busy (hand_on st).
Proof.
  intros Hc. unfold hand_on. set (st0 := with_holder None st). assert (core at_ d l None st0) as Hc0 by by apply (core_same _ st).
  pose proof (co_wf _ _ _ _ _ Hc0) as Hw. pose proof (grant_next_eq st0 Hw) as Hg. destruct (next_thread st0) as [t|] eqn:E.
  - destruct Hg as [why ->]. apply (next_thread_ready _ _ Hw) in E as (s & Hs & Hr). split; [by eapply core_granted|done].
  - rewrite Hg. apply next_thread_none in E; [|done]. destruct (first_blocked st0) as [t|] eqn:Ef; [|split; [done|by intros _]].
    split; [|by intros _]. cbn [holder upd with_threads with_holder st0]. fold st0.
    unfold first_blocked in Ef. destruct (find_first _ _) as [[t' s]|] eqn:Eff; [|done]. cbn in Ef. injection Ef as ->.
    apply find_first_Some in Eff as [Hin Hb]. cbn in Hb. pose proof (ordered_elem _ _ _ (sw_ordered _ Hw) Hin : slot t st0 = Some s) as Hs.
    destruct Hc0 as [_ Hf [He Ha] Hl Hd].
    assert (∀ u, slot u (upd t (set_grant delegate) st0) = if u =? t then Some (set_grant delegate s) else slot u st0) as Hs1.
    { intros u. unfold upd. rewrite slot_with_threads, get_get_mut. unfold slot in *. destruct (Z.eqb_spec u t) as [->|]; [by rewrite Hs|done]. }
    assert (t ≠ EXTERNAL) as Ht by (intros ->; congruence). pose proof (Hf t Ht) as Hft. rewrite Hs, bool_decide_false in Hft by done. split.
    + apply (wf_slot_changed st0 t s); [done|done|by apply (sw_slots _ Hw t s Hs)|unfold ready; cbn; lia|unfold waits_in; cbn; lia|by left].
    + intros u Hu. rewrite Hs1. destruct (Z.eqb_spec u t) as [->|]; [|by apply Hf]. rewrite bool_decide_false by done.
      destruct (at_ t); cbn in *; unfold parked_fits, quiet in *; cbn; destruct (blocked s); try done; destruct (grant s) as [[]|]; naive_solver.
    + rewrite Hs1. destruct (Z.eqb_spec EXTERNAL t); [congruence|done].
    + rewrite <- Hl. unfold upd. cbn [threads with_threads]. erewrite cnt_get_mut by (done || apply Hw). cbn. lia.
    + intros u su Dt Hn. rewrite Hs1. destruct (Z.eqb_spec u t) as [->|]; [|by apply Hd]. intros [= <-]. cbn. by apply (Hd t s).
Qed.

End core.

(** ** One thread's own changes *)

Definition moved (t : Z) (p : Pc) (at_ : Z → Pc) : Z → Pc := λ u, if u =? t then p else at_ u.

Section own.
Context (at_ : Z → Pc) (d : bool) (l : Z) (h : option Z) (st : State).
Hypothesis Hc : core at_ d l h st.

Lemma core_ext at' : (∀ t, at' t = at_ t) → core at' d l h st.
Proof. destruct Hc as [Hw Hf He Hl Hd]. intros E. split; [done| | |done|]; setoid_rewrite E; done. Qed.

Lemma core_stays t p : at_ t = p → core (moved t p at_) d l h st.
Proof. intros <-. apply core_ext. intros u. unfold moved. by destruct (Z.eqb_spec u t) as [->|]. Qed.

Lemma core_attached : core at_ false l h st.
Proof. destruct Hc. by split. Qed.

(** The slot of [t], where it stands and whether it holds the baton change together. *)
Lemma core_own t s f p h' l' st' : slot t st = Some s →
  threads st' = get_mut t f (threads st) →
  n_runnable st' = n_runnable st - b2z (ready s) + b2z (ready (f s)) →
  n_blocked st' = n_blocked st - b2z (waits_in s) + b2z (waits_in (f s)) →
  next_wait st ≤ next_wait st' →
  (∀ b o, blocked (f s) = Some (b, o) → blocked s = Some (b, o) ∨ next_wait st ≤ o < next_wait st') →
  slot_ok (f s) → (∀ u, u ≠ t → holds_baton h' u = holds_baton h u) →
  fits p (holds_baton h' t) (Some (f s)) →
  (d = true → p = Native → runnable (f s) = None ∧ h' ≠ Some t) →
  l' = l - b2z (let_go s) + b2z (let_go (f s)) →
  core (moved t p at_) d l' h' st'.
Proof.
  destruct Hc as [Hw Hf [He Ha] Hl Hd]. intros Hs Et Er Eb Hn Hb Hok Hh Hfit Hdn ->.
  assert (t ≠ EXTERNAL) as Ht by (intros ->; congruence).
  assert (∀ u, slot u st' = if u =? t then Some (f s) else slot u st) as Hs1.
  { intros u. unfold slot in *. rewrite Et, get_get_mut. destruct (Z.eqb_spec u t) as [->|]; [by rewrite Hs|done]. }
  assert (∀ u su b o, slot u st' = Some su → blocked su = Some (b, o) →
    (∃ s0, slot u st = Some s0 ∧ blocked s0 = Some (b, o)) ∨ (u = t ∧ next_wait st ≤ o < next_wait st')) as Hst.
  { intros u su b o. rewrite Hs1. destruct (Z.eqb_spec u t) as [->|]; [|eauto]. intros [= <-] [E|E]%Hb; eauto. }
  split; [split|..].
  - unfold ordered. rewrite Et, lineages_get_mut. apply Hw.
  - rewrite Er, (sw_runnable _ Hw), Et. by erewrite cnt_get_mut by (done || apply Hw).
  - rewrite Eb, (sw_blocked _ Hw), Et. by erewrite cnt_get_mut by (done || apply Hw).
  - intros u su. rewrite Hs1. destruct (Z.eqb_spec u t) as [->|]; [by intros [= <-]|by apply Hw].
  - intros u su b o Hu Hbu. destruct (Hst u su b o Hu Hbu) as [(s0 & H0 & E0)|[_ ?]]; [|lia].
    pose proof (sw_stamp _ Hw u s0 b o H0 E0). lia.
  - intros u v su sv b b' o Hu Hv Hbu Hbv.
    destruct (Hst u su b o Hu Hbu) as [(s0 & H0 & E0)|[-> ?]], (Hst v sv b' o Hv Hbv) as [(s1 & H1 & E1)|[-> ?]]; [|..|done].
    + by eapply (sw_stamps _ Hw).
    + pose proof (sw_stamp _ Hw u s0 b o H0 E0). lia.
    + pose proof (sw_stamp _ Hw v s1 b' o H1 E1). lia.
  - intros u Hu. rewrite Hs1. unfold moved. destruct (Z.eqb_spec u t) as [->|Hne]; [done|]. rewrite Hh by done. by apply Hf.
  - rewrite Hs1. unfold moved. destruct (Z.eqb_spec EXTERNAL t); [congruence|done].
  - rewrite <- Hl, Et. by erewrite cnt_get_mut by (done || apply Hw).
  - intros u su Dt. rewrite Hs1. unfold moved. destruct (Z.eqb_spec u t) as [->|Hne].
    + intros Hp [= <-]. by apply Hdn.
    + intros Hp Hu. destruct (Hd u su Dt Hp Hu) as [Hr Hhu]. split; [done|]. specialize (Hh u Hne).
      rewrite (bool_decide_false (h = Some u)) in Hh by done. by apply bool_decide_eq_false in Hh.
Qed.

(** A slot for a thread that has none, which leaves it outside the schedule. *)
Lemma core_room t : t ≠ EXTERNAL → at_ t = Away →
  core at_ d l h (with_threads (get_or_insert t (threads st)) (n_runnable st) (n_blocked st) st).
Proof.
  destruct Hc as [Hw Hf [He Ha] Hl Hd]. intros Ht Hp. pose proof (sw_ordered _ Hw) as Ho. destruct (slot t st) as [s|] eqn:Es.
  { rewrite get_or_insert_present; [by destruct st|done|by exists s]. }
  set (st' := with_threads _ _ _ _).
  assert (∀ u, slot u st' = if u =? t then Some slot_new else slot u st) as Hs1.
  { intros u. unfold st'. rewrite slot_with_threads, get_get_or_insert by done. destruct (Z.eqb_spec u t) as [->|]; [|done].
    unfold slot in Es. by rewrite Es. }
  pose proof (Hf t Ht) as Hft. rewrite Hp, Es in Hft. cbn in Hft.
  split; [split|..]; unfold st'; cbn [threads with_threads n_runnable n_blocked next_wait]; fold st'.
  - by apply ordered_get_or_insert.
  - rewrite cnt_insert by done. rewrite (sw_runnable _ Hw). cbn. lia.
  - rewrite cnt_insert by done. rewrite (sw_blocked _ Hw). cbn. lia.
  - intros u su. rewrite Hs1. destruct (u =? t); [|apply Hw]. intros [= <-]. split; by left.
  - intros u su b o. rewrite Hs1. destruct (u =? t); [by intros [= <-]|]. apply Hw.
  - intros u v su sv b b' o. rewrite !Hs1. destruct (u =? t), (v =? t); [by intros [= <-]|by intros [= <-]|by intros _ [= <-]|]. apply Hw.
  - intros u Hu. rewrite Hs1. destruct (Z.eqb_spec u t) as [->|]; [|by apply Hf]. by rewrite Hp, Hft.
  - rewrite Hs1. destruct (Z.eqb_spec EXTERNAL t); [congruence|done].
  - rewrite cnt_insert by done. cbn. lia.
  - intros u su Dt Hn. rewrite Hs1. destruct (Z.eqb_spec u t) as [->|]; [congruence|]. by apply Hd.
Qed.

(** A thread that leaves the domain. *)
Lemma core_removed t h' l' : t ≠ EXTERNAL → (∀ u, u ≠ t → holds_baton h' u = holds_baton h u) → h' ≠ Some t →
  (∀ s, slot t st = Some s → quiet s ∧ l' = l - b2z (let_go s)) → (slot t st = None → l' = l) →
  core (moved t Away at_) d l' h' (with_threads (remove t (threads st)) (n_runnable st) (n_blocked st) st).
Proof.
  destruct Hc as [Hw Hf [He Ha] Hl Hd]. intros Ht Hh Hht Hq Hl'. pose proof (sw_ordered _ Hw) as Ho. set (st' := with_threads _ _ _ _).
  assert (∀ u, slot u st' = if u =? t then None else slot u st) as Hs1 by (intros u; apply get_remove).
  assert (∀ p, (∀ s, slot t st = Some s → p s = false) → cnt p (remove t (threads st)) = cnt p (threads st)) as Hcnt.
  { intros p Hp. destruct (slot t st) as [s|] eqn:Es.
    - erewrite cnt_remove by done. rewrite Hp by done. cbn. lia.
    - by rewrite remove_absent. }
  assert (∀ s, slot t st = Some s → ready s = false ∧ waits_in s = false) as Hq'.
  { intros s Hs. destruct (Hq s Hs) as [[Hr Hb] _]. unfold ready, waits_in. by rewrite Hr, Hb. }
  split; [split|..]; unfold st'; cbn [threads with_threads n_runnable n_blocked next_wait]; fold st'.
  - by apply ordered_remove.
  - rewrite Hcnt by apply Hq'. apply Hw.
  - rewrite Hcnt by apply Hq'. apply Hw.
  - intros u su. rewrite Hs1. destruct (u =? t); [done|]. apply Hw.
  - intros u su b o. rewrite Hs1. destruct (u =? t); [done|]. apply Hw.
  - intros u v su sv b b' o. rewrite !Hs1. destruct (u =? t), (v =? t); try done. apply Hw.
  - intros u Hu. rewrite Hs1. unfold moved. destruct (Z.eqb_spec u t) as [->|Hne]; cbn; [by apply bool_decide_eq_false|].
    rewrite Hh by done. by apply Hf.
  - rewrite Hs1. unfold moved. destruct (Z.eqb_spec EXTERNAL t); [congruence|done].
  - destruct (slot t st) as [s|] eqn:Es.
    + erewrite cnt_remove by done. destruct (Hq s eq_refl) as [_ ->]. lia.
    + rewrite remove_absent by done. rewrite Hl' by done. done.
  - intros u su Dt. rewrite Hs1. unfold moved. destruct (Z.eqb_spec u t) as [->|Hne]; [done|].
    intros Hp Hu. destruct (Hd u su Dt Hp Hu) as [Hr Hhu]. split; [done|]. specialize (Hh u Hne).
    rewrite (bool_decide_false (h = Some u)) in Hh by done. by apply bool_decide_eq_false in Hh.
Qed.

End own.
