(* ===== verification/SchedOps.v ===== *)
(** * Every call keeps the schedule's invariants *)

From S2P Require Import Prelude Owners Sched SchedWf SchedWake SchedSys SchedInv.

Record inv (at_ : Z → Pc) (sc : Scheduler) : Prop := {
  iv_core : core at_ (detached sc) (let_go_n sc) (holder (state sc)) (state sc);
  iv_busy : busy (state sc);
  iv_owners : ∃ m, represents (owners (state sc)) m;
  iv_records : Forall (λ r, rmutex r ≠ 0) (owner_records sc);
}.

(** ** Taking the lock *)

Lemma apply_records_represents rs o m : represents o m → Forall (λ r, rmutex r ≠ 0) rs →
  ∃ m', represents (foldl (λ o r, default o (apply_record r o)) o rs) m'.
Proof.
  intros Hr Hrs. revert o m Hr. induction Hrs as [|r rs Hz _ IH]; intros o m Hr; [by exists m|]. cbn [foldl].
  destruct (record_represents o m r Hr Hz) as (o' & -> & Hr'). by eapply IH.
Qed.

Lemma state_lock sc : ∃ o, state (lock sc) = with_owners o (state sc).
Proof. unfold lock, shed_foreign. destruct (detached _); by eexists. Qed.
Lemma detached_lock sc : detached (lock sc) = detached sc.
Proof. unfold lock, shed_foreign. cbn. by destruct (detached sc) eqn:E. Qed.
Lemma let_go_lock sc : let_go_n (lock sc) = let_go_n sc.
Proof. unfold lock, shed_foreign. by destruct (detached _). Qed.
Lemma holder_lock sc : holder (state (lock sc)) = holder (state sc).
Proof. by destruct (state_lock sc) as [o ->]. Qed.
Lemma slot_lock t sc : slot t (state (lock sc)) = slot t (state sc).
Proof. by destruct (state_lock sc) as [o ->]. Qed.

Lemma inv_lock at_ sc : inv at_ sc → inv at_ (lock sc).
Proof.
  intros [Hc Hb [m Hm] Hr]. destruct (apply_records_represents _ _ _ Hm Hr) as [m' Hm'].
  split.
  - rewrite detached_lock, let_go_lock. destruct (state_lock sc) as [o ->]. by apply (core_same _ _ _ _ (state sc)).
  - destruct (state_lock sc) as [o ->]. done.
  - exists m'. unfold lock, shed_foreign. by destruct (detached _).
  - unfold lock, shed_foreign. by destruct (detached _); constructor.
Qed.

(** ** Wakes that hand the baton on *)

Lemma owners_granted t why st : owners (granted t why st) = owners st.
Proof. done. Qed.
Lemma owners_grant_if_idle st : st_wf st → owners (grant_if_idle st) = owners st.
Proof.
  intros Hw. unfold grant_if_idle. destruct (is_some _); [done|]. pose proof (grant_next_eq st Hw) as H.
  destruct (next_thread st); [by destruct H as [why ->]|by rewrite H].
Qed.
Lemma owners_hand_on st : st_wf st → owners (hand_on st) = owners st.
Proof.
  intros Hw. unfold hand_on. assert (st_wf (with_holder None st)) as Hw' by (destruct Hw; by split).
  pose proof (grant_next_eq _ Hw') as H. destruct (next_thread _); [by destruct H as [why ->]|]. rewrite H.
  by destruct (first_blocked _).
Qed.

(** A state whose threads fit, put back once the baton is handed on. *)
Lemma inv_granted at_ sc st' m : core at_ (detached sc) (let_go_n sc) (holder st') st' → represents (owners st') m →
  Forall (λ r, rmutex r ≠ 0) (owner_records sc) → inv at_ (with_state (grant_if_idle st') sc).
Proof.
  intros Hc Hm Hr. destruct (core_grant_if_idle _ _ _ _ Hc) as [Hc' Hb]. split; [done|done| |done].
  exists m. cbn. rewrite owners_grant_if_idle; [done|apply Hc].
Qed.

Lemma inv_handed_on at_ sc st' m : core at_ (detached sc) (let_go_n sc) None st' → represents (owners st') m →
  Forall (λ r, rmutex r ≠ 0) (owner_records sc) → inv at_ (with_state (hand_on st') sc).
Proof.
  intros Hc Hm Hr. destruct (core_hand_on _ _ _ _ Hc) as [Hc' Hb]. split; [done|done| |done].
  exists m. cbn. rewrite owners_hand_on; [done|apply Hc].
Qed.

Lemma wakes_core nat at_ d l st st' : (d = true → nat = false) → wakes_well nat st st' →
  core at_ d l (holder st) st → core at_ d l (holder st') st' ∧ owners st' = owners st.
Proof.
  intros Hd W Hc. destruct (W (co_wf _ _ _ _ _ Hc)) as [_ Wk]. rewrite (wk_holder _ _ _ Wk). split; [by eapply core_wakes|apply Wk].
Qed.

Lemma inv_woken nat at_ sc st' : (detached sc = true → nat = false) → wakes_well nat (state sc) st' →
  inv at_ sc → inv at_ (with_state (grant_if_idle st') sc).
Proof.
  intros Hd W [Hc _ [m Hm] Hr]. destruct (wakes_core nat _ _ _ _ st' Hd W Hc) as [Hc' Eo].
  apply (inv_granted _ _ _ m); [done|by rewrite Eo|done].
Qed.

(** The same where nothing is granted because no one was woken. *)
Lemma inv_unchanged nat at_ sc st' : (detached sc = true → nat = false) → wakes_well nat (state sc) st' →
  n_runnable st' = n_runnable (state sc) → inv at_ sc → inv at_ (with_state st' sc).
Proof.
  intros Hd W Hn [Hc Hb [m Hm] Hr]. destruct (wakes_core nat _ _ _ _ st' Hd W Hc) as [Hc' Eo].
  split; [done| |by exists m; cbn; rewrite Eo|done]. destruct (W (co_wf _ _ _ _ _ Hc)) as [_ Wk].
  unfold busy in *. cbn. by rewrite (wk_holder _ _ _ Wk), Hn.
Qed.

Section wakes.
Context (at_ : Z → Pc).

Lemma wake_thread_inv t sc : inv at_ sc → inv at_ (wake_thread t sc).
Proof. intros H%inv_lock. unfold wake_thread. eapply (inv_woken false); [done|apply unblock_wakes_well|done]. Qed.

Lemma release_due_at_inv now sc : inv at_ sc → inv at_ (release_due_at now sc).
Proof. intros H%inv_lock. eapply (inv_woken false); [done|apply release_due_matching_wakes_well|done]. Qed.

Lemma release_due_native_at_inv now sc : inv at_ sc → inv at_ (release_due_native_at now sc).
Proof. intros H%inv_lock. eapply (inv_woken false); [done|apply release_due_matching_wakes_well|done]. Qed.

Lemma kick_wakes_well nat now (tw : bool) m st : wakes_well nat st
  (if tw then repoll_addr_waiters m (snd (wake_readiness_key Timer (release_due now st))) else snd (wake_readiness_key Timer (release_due now st))).
Proof.
  assert (wakes_well nat st (snd (wake_readiness_key Timer (release_due now st)))) as H.
  { etransitivity; [apply release_due_matching_wakes_well|apply wake_readiness_key_wakes_well]. }
  destruct tw; [|done]. etransitivity; [exact H|apply repoll_wakes_well].
Qed.

Lemma kick_inv now tw m sc : inv at_ sc → inv at_ (kick now tw m sc).
Proof. intros H%inv_lock. eapply (inv_woken false); [done|apply kick_wakes_well|done]. Qed.

Lemma repoll_if_spoiled_inv t sc : inv at_ sc → inv at_ (repoll_if_spoiled t sc).
Proof.
  intros H%inv_lock. unfold repoll_if_spoiled. destruct (_ ≫= _) as [b|]; [|done]. eapply (inv_woken false); [done| |done].
  etransitivity; [apply unblock_wakes_well|]. apply upd_wakes_well. intros s _. unfold slot_step. cbn. tauto.
Qed.

(** Wakes that count whom they reach, and hand the baton on only if they reach someone. *)
Lemma inv_counted nat sc st' woken : (detached sc = true → nat = false) → wakes_well nat (state sc) st' → 0 ≤ woken →
  (woken = 0 → n_runnable st' = n_runnable (state sc)) → inv at_ sc →
  inv at_ (with_state (if 0 <? woken then grant_if_idle st' else st') sc).
Proof.
  intros Hd W Hp Hn H. destruct (Z.ltb_spec 0 woken); [by eapply inv_woken|]. eapply inv_unchanged; [done|done|apply Hn; lia|done].
Qed.

Lemma woken_nonneg k n why f st : 0 ≤ n → 0 ≤ fst (wake_key_matching k n why f st).
Proof. intros Hn. unfold wake_key_matching. destruct (_ <=? n); cbn; lia. Qed.

Lemma wake_outside_counts k n st : st_wf st → 0 ≤ n → 0 ≤ fst (wake_outside k n st) ∧
  (fst (wake_outside k n st) = 0 → n_runnable (snd (wake_outside k n st)) = n_runnable st).
Proof.
  intros Hw Hn. unfold wake_outside. destruct (outside_pass k n (threads st)) as [[ts w] f] eqn:E.
  destruct (outside_pass_spec _ _ _ _ _ _ E (sw_ordered _ Hw) Hn (sw_slots _ Hw)) as (_ & _ & _ & ? & _). cbn. lia.
Qed.

Lemma wake_masked_inv k n m p sc : 0 ≤ n → inv at_ sc → inv at_ (snd (wake_masked k n m p sc)).
Proof.
  intros Hn H%inv_lock. unfold wake_masked. generalize dependent (lock sc). intros sc' H.
  pose proof (co_wf _ _ _ _ _ (iv_core _ _ H)) as Hw. set (nat := negb (detached sc')).
  assert (detached sc' = true → nat = false) as Hd by (unfold nat; by intros ->).
  pose proof (explain_wakes_well nat k (state sc')) as We. set (st1 := explain k (state sc')) in *.
  destruct (We Hw) as [Hw1 _]. pose proof (wake_key_matching_wakes_well nat k n Woken (scoped m p) st1) as W2.
  pose proof (wake_none k n Woken (scoped m p) st1 Hw1 Hn) as Hz. pose proof (woken_nonneg k n Woken (scoped m p) st1 Hn) as Hp.
  destruct (wake_key_matching k n Woken (scoped m p) st1) as [woken st2]. cbn [fst snd] in *. destruct (W2 Hw1) as [Hw2 _].
  destruct ((woken <? n) && nat) eqn:Eo.
  - apply andb_true_iff in Eo as [Hlt%Z.ltb_lt Hnat].
    pose proof (wake_outside_wakes_well k (n - woken) st2 ltac:(lia)) as W3. rewrite <- Hnat in W3.
    destruct (wake_outside_counts k (n - woken) st2 Hw2 ltac:(lia)) as [Hmp Hmz].
    destruct (wake_outside k (n - woken) st2) as [more st3]. cbn [fst snd] in *.
    eapply (inv_counted nat); [done|by etransitivity; [|etransitivity]|lia| |done].
    intros E0. rewrite Hmz, Hz by lia. done.
  - cbn [snd]. rewrite Z.add_0_r. eapply (inv_counted nat); [done|by etransitivity|lia| |done]. intros E0. by rewrite Hz by lia.
Qed.

Lemma wake_readiness_inv ev sc : inv at_ sc → inv at_ (snd (wake_readiness ev sc)).
Proof.
  intros H%inv_lock. unfold wake_readiness. generalize dependent (lock sc). intros sc' H.
  pose proof (co_wf _ _ _ _ _ (iv_core _ _ H)) as Hw. set (nat := negb (detached sc')).
  assert (detached sc' = true → nat = false) as Hd by (unfold nat; by intros ->).
  pose proof (wake_readiness_key_wakes_well nat ev (state sc')) as W2. unfold wake_readiness_key in *.
  match goal with H : context [wake_key_matching Readiness everyone Woken ?f _] |- _ =>
    pose proof (wake_none Readiness everyone Woken f (state sc') Hw ltac:(done)) as Hz;
    pose proof (woken_nonneg Readiness everyone Woken f (state sc') ltac:(done)) as Hp end.
  destruct (wake_key_matching _ _ _ _ _) as [woken st2]. cbn [fst snd] in *. destruct (W2 Hw) as [Hw2 _].
  destruct (detached sc') eqn:Ed.
  - cbn [snd]. rewrite Z.add_0_r. eapply (inv_counted nat); [by rewrite Ed|done|lia|intros; by rewrite Hz|done].
  - pose proof (wake_outside_wakes_well Readiness everyone st2 ltac:(done)) as W3.
    destruct (wake_outside_counts Readiness everyone st2 Hw2 ltac:(done)) as [Hmp Hmz].
    destruct (wake_outside Readiness everyone st2) as [more st3]. cbn [fst snd] in *.
    eapply (inv_counted true); [congruence|by etransitivity|lia| |done]. intros E0. rewrite Hmz, Hz by lia. done.
Qed.

Lemma wake_foreign_inv w sc : 0 ≤ wcount w → inv at_ sc → inv at_ (snd (wake_foreign w sc)).
Proof.
  intros Hn H%inv_lock. unfold wake_foreign. generalize dependent (lock sc). intros sc' H.
  pose proof (co_wf _ _ _ _ _ (iv_core _ _ H)) as Hw. pose proof (wake_foreign_locked_wakes_well false w (state sc')) as W.
  unfold wake_foreign_locked in *.
  pose proof (wake_none (wkey w) (wcount w) Woken (scoped (wmask w) (wscope w)) (state sc') Hw Hn) as Hz.
  pose proof (woken_nonneg (wkey w) (wcount w) Woken (scoped (wmask w) (wscope w)) (state sc') Hn) as Hp.
  destruct (wake_key_matching _ _ _ _ _) as [woken st2]. cbn [fst snd] in *.
  eapply (inv_counted false); [done|done|done| |done]. intros ->. cbn. by rewrite Hz.
Qed.

Lemma queue_foreign_inv w sc : 0 ≤ wcount w → inv at_ sc → inv at_ (snd (queue_foreign w sc)).
Proof.
  intros Hn H. unfold queue_foreign. destruct (_ <? CAPACITY); [|by apply wake_foreign_inv]. destruct H. by split.
Qed.

Lemma record_owner_inv r sc : rmutex r ≠ 0 → inv at_ sc → inv at_ (record_owner r sc).
Proof.
  intros Hz H%inv_lock. unfold record_owner. generalize dependent (lock sc). intros sc' [Hc Hb [m Hm] Hr].
  destruct (record_represents _ m r Hm Hz) as (o' & -> & Hm'). cbn [default].
  split; [by apply (core_same _ _ _ _ (state sc'))|done|by eexists|done].
Qed.

Lemma queue_owner_inv r sc : rmutex r ≠ 0 → inv at_ sc → inv at_ (queue_owner r sc).
Proof.
  intros Hz H. unfold queue_owner. destruct (_ <? CAPACITY); [|by apply record_owner_inv]. destruct H. split; try done.
  cbn. apply Forall_app. split; [done|]. by constructor.
Qed.

Lemma take_unexplained_inv sc : inv at_ sc → inv at_ (snd (take_unexplained sc)).
Proof.
  intros H%inv_lock. unfold take_unexplained. destruct (take_keys _) as [n u]. cbn [snd].
  generalize dependent (lock sc). intros sc' [Hc Hb Hm Hr]. split; [by apply (core_same _ _ _ _ (state sc'))|done..].
Qed.

Lemma record_handle_inv h c sc : inv at_ sc → inv at_ (record_handle h c sc).
Proof.
  intros H%inv_lock. unfold record_handle.
  generalize dependent (lock sc). intros sc' [Hc Hb Hm Hr]. split; [by apply (core_same _ _ _ _ (state sc'))|done..].
Qed.

Lemma unspin_inv t sc : inv at_ sc → inv at_ (unspin t sc).
Proof.
  intros H%inv_lock. unfold unspin. eapply (inv_unchanged false); [done| |done|done].
  apply upd_wakes_well. intros s _. unfold slot_step. cbn. tauto.
Qed.

Lemma release_external_inv sc : inv at_ sc → inv at_ (release_external sc).
Proof.
  intros H%inv_lock. unfold release_external. generalize dependent (lock sc). intros sc' H.
  destruct (held_externally (state sc')) eqn:E; [|done]. apply bool_decide_eq_true in E. destruct H as [Hc Hb [m Hm] Hr].
  eapply inv_handed_on; [|done|done]. rewrite E in Hc. destruct Hc as [Hw Hf He Hl Hd]. split; try done.
  - intros t Ht. specialize (Hf t Ht). rewrite bool_decide_false in * by congruence. done.
  - intros t s Dt Hn Hs. destruct (Hd t s Dt Hn Hs). done.
Qed.

Lemma acquire_external_inv sc sc' : acquire_external sc = Some sc' → inv at_ sc → inv at_ sc'.
Proof.
  unfold acquire_external. intros E H%inv_lock. generalize dependent (lock sc). intros s1 E H.
  destruct (idle (state s1)) eqn:Ei; [|done]. injection E as <-. apply andb_true_iff in Ei as [Eh _].
  destruct (holder (state s1)) eqn:Eh'; [done|]. destruct H as [Hc Hb Hm Hr]. split; [|done..].
  rewrite Eh' in Hc. cbn. apply (core_same _ _ _ _ (state s1)); [done..|]. destruct Hc as [Hw Hf He Hl Hd]. split; try done.
  - intros t Ht. specialize (Hf t Ht). rewrite bool_decide_false in * by congruence. done.
  - intros t s Dt Hn Hs. destruct (Hd t s Dt Hn Hs). split; [done|]. intros [= <-]. destruct He. congruence.
Qed.
End wakes.

(** ** Moving the schedule on *)

Lemma wake_real_ready_none ready st : st_wf st → fst (wake_real_ready ready st) = false →
  n_runnable (snd (wake_real_ready ready st)) = n_runnable st.
Proof.
  intros Hw. unfold wake_real_ready.
  assert (∀ n, 0 ≤ n → let '(n', st') := foldl (λ '(woken, st) k, let '(n, st) := wake_readiness_key (Keys [k]) st in (woken + n, st)) (n, st) ready in
    n ≤ n' ∧ (n' ≤ 0 → n_runnable st' = n_runnable st)) as H.
  { revert st Hw. induction ready as [|k ready IH]; intros st Hw n Hn; [done|]. cbn [foldl].
    pose proof (wake_readiness_key_wakes_well false (Keys [k]) st Hw) as [Hw' _]. unfold wake_readiness_key in *.
    match goal with H : context [wake_key_matching Readiness everyone Woken ?f _] |- _ =>
      pose proof (wake_none Readiness everyone Woken f st Hw ltac:(done)) as Hz;
      pose proof (woken_nonneg Readiness everyone Woken f st ltac:(done)) as Hp end.
    destruct (wake_key_matching _ _ _ _ _) as [m st']. cbn [fst snd] in *.
    specialize (IH st' Hw' (n + m) ltac:(lia)). destruct (foldl _ _ ready) as [n' st'']. destruct IH as [Hle IH].
    split; [lia|]. intros. rewrite IH, Hz by lia. done. }
  specialize (H 0 ltac:(lia)). destruct (foldl _ _ _) as [n' st']. destruct H as [H0 H]. cbn.
  intros ?%Z.ltb_ge. by apply H.
Qed.

Lemma cnt_or p q r ts : (∀ s, b2z (r s) = b2z (p s) + b2z (q s)) → cnt r ts = cnt p ts + cnt q ts.
Proof. intros H. induction ts as [|e ts IH]; [done|]. rewrite !cnt_cons, IH, H. lia. Qed.

Lemma fits_released p s : fits p false (Some s) → runnable s = None → fits p false (Some (release_slot s)).
Proof.
  intros Hf Hr. destruct (blocked s) as [b|] eqn:Eb; unfold release_slot; cbn; rewrite Eb; [|by destruct p].
  destruct p; cbn in *; unfold parked_fits, quiet in *; cbn; rewrite ?Eb, ?Hr in *.
  all: repeat (destruct_and? || destruct_or?); first [done | split; [done|]; right; right; right; done].
Qed.

Lemma detach_core at_ sc : core at_ (detached sc) (let_go_n sc) None (state sc) → n_runnable (state sc) = 0 →
  core at_ true (let_go_n (detach sc)) None (state (detach sc)).
Proof.
  intros [Hw Hf [He Ha] Hl Hd] Hn. pose proof (sw_ordered _ Hw) as Ho.
  assert (∀ t, slot t (state (detach sc)) = release_slot <$> slot t (state sc)) as Hs by (intros t; apply get_map_slots).
  pose proof Hn as Hn'. rewrite (sw_runnable _ Hw), (cnt_zero _ _ Ho) in Hn'.
  assert (∀ s, blocked (release_slot s) = None) as Hb by (intros s; unfold release_slot; cbn; by destruct (blocked s) eqn:E).
  assert (∀ s, runnable (release_slot s) = runnable s) as Hr by (intros s; unfold release_slot; by destruct (blocked _)).
  split; [split|..].
  - unfold ordered. cbn. fold (map_slots release_slot (threads (state sc))). by rewrite lineages_map_slots.
  - cbn. fold (map_slots release_slot (threads (state sc))). rewrite cnt_map_slots, (sw_runnable _ Hw). apply cnt_ext. intros s.
    unfold ready. by rewrite Hr.
  - cbn. fold (map_slots release_slot (threads (state sc))). rewrite cnt_map_slots. symmetry. apply cnt_zero; [done|]. intros t s _. unfold waits_in. by rewrite Hb.
  - intros t s. rewrite Hs, fmap_Some. intros (s0 & _ & ->). split; right; apply Hb.
  - intros t s b o. rewrite Hs, fmap_Some. intros (s0 & _ & ->). by rewrite Hb.
  - intros t u s s' b b' o. rewrite Hs, fmap_Some. intros (s0 & _ & ->). by rewrite Hb.
  - intros t Ht. specialize (Hf t Ht). rewrite Hs. destruct (slot t (state sc)) as [s|] eqn:Es; [|done]. cbn [fmap option_fmap option_map].
    specialize (Hn' t s Es). unfold ready in Hn'. destruct (runnable s) eqn:Er; [done|]. rewrite bool_decide_false in * by done.
    by apply fits_released.
  - by rewrite Hs, He.
  - cbn. fold (map_slots release_slot (threads (state sc))). rewrite cnt_map_slots, <- Hl.
    apply (cnt_or _ (λ s, is_some (blocked s) && negb (let_go s))). intros s. unfold release_slot. cbn.
    destruct (blocked s); cbn; by destruct (let_go s).
  - intros t s _ Hnat. rewrite Hs, fmap_Some. intros (s0 & H0 & ->). rewrite Hr. specialize (Hn' t s0 H0). unfold ready in Hn'.
    split; [by destruct (runnable s0)|done].
Qed.

Section dispatch.
Context (at_ : Z → Pc).

(** The schedule while a dispatch has the lock: the baton is free. *)
Record free (sc : Scheduler) : Prop := {
  fr_core : core at_ (detached sc) (let_go_n sc) None (state sc);
  fr_holder : holder (state sc) = None;
  fr_owners : ∃ m, represents (owners (state sc)) m;
  fr_records : Forall (λ r, rmutex r ≠ 0) (owner_records sc);
}.

Lemma free_woken sc st' : wakes_well false (state sc) st' → free sc → free (with_state st' sc).
Proof.
  intros W [Hc Hh Hm Hr]. destruct (W (co_wf _ _ _ _ _ Hc)) as [_ Wk].
  split; cbn; [by eapply (core_wakes _ _ _ false)|by rewrite (wk_holder _ _ _ Wk)|by rewrite (wk_owners _ _ _ Wk)|done].
Qed.

Lemma free_inv sc : free sc → n_runnable (state sc) = 0 → inv at_ sc.
Proof. intros [Hc Hh Hm Hr] Hn. split; [by rewrite Hh|by intros _|done|done]. Qed.

Lemma free_detached sc : free sc → n_runnable (state sc) = 0 → inv at_ (detach sc).
Proof.
  intros [Hc Hh Hm Hr] Hn. split; [|by intros _|done|done].
  change (core at_ true (let_go_n (detach sc)) (holder (state sc)) (state (detach sc))). rewrite Hh. by apply detach_core.
Qed.

Lemma free_noted sc now : free sc → n_runnable (state sc) = 0 → inv at_ (with_state (snd (note_idle now (state sc))) sc).
Proof.
  intros [Hc Hh Hm Hr] Hn. unfold note_idle. destruct (_ || _); cbn [snd].
  all: split; [cbn; rewrite Hh; by apply (core_same _ _ _ _ (state sc))|by intros _|done|done].
Qed.

Lemma free_granted sc : free sc →
  match grant_next (state sc) with
  | (true, st') => inv at_ (with_state st' sc)
  | (false, st') => st' = state sc ∧ n_runnable (state sc) = 0
  end.
Proof.
  intros [Hc Hh [m Hm] Hr]. pose proof (co_wf _ _ _ _ _ Hc) as Hw. pose proof (grant_next_eq _ Hw) as Hg.
  destruct (next_thread (state sc)) as [t|] eqn:E.
  - destruct Hg as [why ->]. apply (next_thread_ready _ _ Hw) in E as (s & Hs & Hrn).
    split; [by eapply core_granted|done|by exists m|done].
  - rewrite Hg. split; [done|]. by apply next_thread_none.
Qed.

Lemma dispatch_loop_inv rs sc sk hc sc' d : dispatch_loop rs sc sk hc = Some (sc', d) → free sc → inv at_ sc'.
Proof.
  revert sc sk hc. induction rs as [|r rs IH]; intros sc sk hc E Hf; [done|]. cbn [dispatch_loop] in E.
  apply (free_woken _ (state (take_foreign sc)) (take_foreign_wakes_well false sc)) in Hf.
  assert (free (take_foreign sc)) as Hf' by (destruct Hf; by split). clear Hf. set (s1 := take_foreign sc) in *. clearbody s1.
  pose proof (free_granted s1 Hf') as Hg. destruct (grant_next (state s1)) as [[] st1]; [by injection E as <- <-|].
  destruct Hg as [-> Hn]. pose proof (co_wf _ _ _ _ _ (fr_core _ Hf')) as Hw.
  destruct (_ =? 0); [injection E as <- <-; by apply free_inv|].
  destruct (_ && _); [injection E as <- <-; by apply free_detached|].
  destruct (leases_held r); [injection E as <- <-; by apply free_noted|].
  destruct (took_timer_wakes r); [apply IH in E; [done|apply free_woken; [apply repoll_wakes_well|done]]|].
  pose proof (wake_real_ready_wakes_well false (real_ready r) (state s1)) as W.
  pose proof (wake_real_ready_none (real_ready r) (state s1) Hw) as Hz.
  destruct (wake_real_ready (real_ready r) (state s1)) as [[] st2]; cbn [fst snd] in *; [apply IH in E; [done|by apply free_woken]|].
  assert (free (with_state st2 s1)) as Hf2 by by apply free_woken. assert (n_runnable st2 = 0) as Hn2 by by rewrite Hz.
  destruct (_ && _); [injection E as <- <-; by apply free_inv|].
  destruct (time_skip r).
  { apply IH in E; [done|]. apply (free_woken (with_state st2 s1)); [|done].
    etransitivity; [apply release_due_matching_wakes_well|apply wake_readiness_key_wakes_well]. }
  destruct (leases_after r); [by apply IH in E|]. destruct (idle_wait r) as [span|].
  { injection E as <- <-. apply (free_noted (with_state st2 s1)); done. }
  destruct (blocked_on_shared_word r st2).
  - cbn in E. destruct (foreign_time_skip r); injection E as <- <-; [by apply free_inv|by apply (free_noted (with_state st2 s1))].
  - pose proof (wake_key_wakes_well false Readiness everyone Deadlock st2) as W3. pose proof (co_wf _ _ _ _ _ (fr_core _ Hf2) : st_wf st2) as Hw2.
    unfold wake_key, wake_key_masked in *.
    match goal with H : context [wake_key_matching Readiness everyone Deadlock ?f _] |- _ =>
      pose proof (wake_none Readiness everyone Deadlock f st2 Hw2 ltac:(done)) as Hz3;
      pose proof (woken_nonneg Readiness everyone Deadlock f st2 ltac:(done)) as Hp3 end.
    destruct (wake_key_matching _ _ _ _ _) as [n3 st3]. cbn [fst snd] in *.
    assert (free (with_state st3 s1)) as Hf3 by by apply (free_woken (with_state st2 s1)).
    destruct (Z.ltb_spec 0 n3); [by apply IH in E|]. assert (n_runnable st3 = 0) as Hn3 by (rewrite Hz3; lia).
    destruct (foreign_time_skip r); injection E as <- <-; [by apply free_inv|by apply (free_noted (with_state st3 s1))].
Qed.

Lemma inv_free sc : inv at_ sc → holder (state sc) = None → free sc.
Proof. intros [Hc _ Hm Hr] Hh. rewrite Hh in Hc. by split. Qed.

Lemma resume_inv dr r rs sc sc' d : resume dr r rs sc = Some (sc', d) → inv at_ sc → inv at_ sc'.
Proof.
  unfold resume. intros E H%inv_lock. generalize dependent (lock sc). intros s1 E H.
  destruct (holder (state s1)) as [h|] eqn:Eh; cbn [is_some] in E; [by injection E as <- <-|].
  pose proof (inv_free s1 H Eh) as Hf. destruct (pause dr).
  - apply dispatch_loop_inv in E; [done|]. apply free_woken; [apply idle_end_wakes_well|done].
  - destruct (skip_held_off r); [|by apply dispatch_loop_inv in E]. injection E as <- <-. apply free_noted; [done|]. by apply H.
  - apply dispatch_loop_inv in E; [done|]. apply free_woken; [apply release_due_matching_wakes_well|done].
  - apply dispatch_loop_inv in E; [done|]. apply free_woken; [apply repoll_wakes_well|done].
Qed.

Lemma park_dispatch_inv rs sc sc' d : park_dispatch rs sc = Some (sc', d) → inv at_ sc → inv at_ sc'.
Proof.
  unfold park_dispatch. intros E H%inv_lock. generalize dependent (lock sc). intros s1 E H.
  destruct (holder (state s1)) as [h|] eqn:Eh; cbn [is_some] in E; [by injection E as <- <-|].
  eapply dispatch_loop_inv; [done|by apply inv_free].
Qed.

End dispatch.
