(* ===== verification/SchedCalls.v ===== *)
(** * The calls a thread makes

    Each call of a thread on its own behalf, from where the thread stands to where it leaves it. *)

From S2P Require Import Prelude Owners Sched SchedWf SchedWake SchedSys SchedInv SchedOps.

Section moves.
Context (at_ : Z → Pc) (d : bool) (l : Z) (h : option Z) (st : State) (t : Z).
Hypothesis Hc : core at_ d l h st.
Hypothesis Ht : t ≠ EXTERNAL.

(** The thread stands elsewhere, its slot as it was. *)
Lemma core_move p : fits p (holds_baton h t) (slot t st) →
  (d = true → p = Native → ∀ s, slot t st = Some s → runnable s = None ∧ h ≠ Some t) → core (moved t p at_) d l h st.
Proof.
  destruct Hc as [Hw Hf [He Ha] Hl Hd]. intros Hp Hn. split; [done| | |done|].
  - intros u Hu. unfold moved. destruct (Z.eqb_spec u t) as [->|]; [done|by apply Hf].
  - split; [done|]. unfold moved. by destruct (Z.eqb_spec EXTERNAL t); [congruence|].
  - intros u s Dt. unfold moved. destruct (Z.eqb_spec u t) as [->|]; [by intros; apply Hn|by apply Hd].
Qed.

Lemma get_mut_id ts : get_mut t (λ s, s) ts = ts.
Proof. unfold get_mut. rewrite <- (map_id ts) at 2. apply map_ext. intros [u s]. by destruct (_ =? t). Qed.

(** A thread outside the schedule is made ready to run. *)
Lemma core_readied s p : slot t st = Some s → fits Away (holds_baton h t) (Some s) → p = Parked ∨ p = Unborn →
  core (moved t p at_) d l h (set_runnable t Woken st).
Proof.
  intros Hs (Hh & [Hr Hb] & Hg & Hl & Ho) Hp. unfold set_runnable. rewrite Hs.
  eapply (core_own at_ d l h st Hc t s (put_runnable (Some Woken))); try done; cbn.
  - unfold ready. rewrite Hr. cbn. lia.
  - unfold waits_in. cbn. lia.
  - tauto.
  - split; by right.
  - rewrite Hh. destruct Hp as [->| ->]; cbn; [split; [done|]; right; left; cbn; by rewrite Hg|].
    split_and!; [done..|]. by right.
  - by destruct Hp as [->| ->].
  - lia.
Qed.

End moves.

Lemma away_fits at_ d l h st t : core at_ d l h st → t ≠ EXTERNAL → at_ t = Away →
  h ≠ Some t ∧ match slot t st with Some s => fits Away (holds_baton h t) (Some s) | None => True end.
Proof.
  intros Hc Ht Hp. pose proof (co_fits _ _ _ _ _ Hc t Ht) as H. rewrite Hp in H. destruct (slot t st) as [s|].
  - split; [|done]. by destruct H as [?%bool_decide_eq_false _].
  - split; [|done]. by apply bool_decide_eq_false in H.
Qed.

Section calls.
Context (at_ : Z → Pc) (t : Z).
Hypothesis Ht : t ≠ EXTERNAL.

Lemma inv_room sc : at_ t = Away → inv at_ sc → inv at_ (lock_slot t sc) ∧
  ∃ s, slot t (state (lock_slot t sc)) = Some s ∧ fits Away false (Some s) ∧ holder (state sc) ≠ Some t.
Proof.
  intros Hp [Hc Hb Hm Hr]. pose proof (core_room _ _ _ _ _ Hc t Ht Hp) as Hc'. split; [by split|].
  assert (∃ s, slot t (state (lock_slot t sc)) = Some s) as [s Hs].
  { unfold lock_slot. cbn [state with_state]. rewrite slot_with_threads, get_get_or_insert, Z.eqb_refl by apply Hc. by eexists. }
  exists s. split; [done|]. destruct (away_fits _ _ _ _ _ t Hc' Ht Hp) as [Hh Hf]. unfold lock_slot in Hs. cbn [state with_state] in Hs. rewrite Hs in Hf.
  split; [|done]. by rewrite bool_decide_false in Hf by done.
Qed.

Lemma enter_root_inv sc : at_ t = Away → inv at_ sc →
  let '(parks, sc') := enter_root t sc in inv (moved t (if parks then Parked else Code) at_) sc'.
Proof.
  intros Hp H%inv_lock. unfold enter_root. apply (inv_room _ Hp) in H as [H (s & Hs & Hf & Hh)].
  set (s1 := lock_slot t (lock sc)) in *. assert (holder (state s1) ≠ Some t) as Hh1 by done. clearbody s1. destruct H as [Hc Hb Hm Hr].
  apply core_attached in Hc. set (st1 := with_roots (roots (state s1) + 1) (state s1)).
  assert (core at_ false (let_go_n s1) (holder st1) st1) as Hc1 by by apply (core_same _ _ _ _ (state s1)).
  cbn [holder with_roots st1]. destruct (holder (state s1)) as [h|] eqn:Eh; cbn [is_some].
  - split; cbn; [|by unfold busy; cbn; unfold set_runnable; destruct (slot t st1); cbn; rewrite Eh|by unfold set_runnable; destruct (slot t st1)|done].
    replace (holder (set_runnable t Woken st1)) with (holder st1) by (unfold set_runnable; by destruct (slot t st1)).
    eapply core_readied; [done|exact Hs| |by left]. rewrite bool_decide_false; [done|]. cbn. by rewrite Eh.
  - split; [|done|done|done]. cbn. eapply (core_own at_ _ _ (holder st1) st1 Hc1 t s (λ s, s)); [exact Hs|by rewrite get_mut_id|..]; try done; cbn.
    + lia.
    + lia.
    + by left.
    + by apply (sw_slots _ (co_wf _ _ _ _ _ Hc1) t s).
    + intros u Hu. rewrite Eh, !bool_decide_false by congruence. done.
    + rewrite bool_decide_true by done. destruct Hf as (_ & ? & ? & ? & ?). tauto.
    + lia.
Qed.

Lemma spawned_inv sc : at_ t = Away → slot t (state sc) = None → inv at_ sc → inv (moved t Unborn at_) (spawned t sc).
Proof.
  intros Hp Hn H%inv_lock. rewrite <- slot_lock in Hn. unfold spawned. generalize dependent (lock sc). intros s1 Hn H.
  destruct (detached s1) eqn:Ed.
  - destruct H as [Hc Hb Hm Hr]. split; [|done..]. eapply core_move; [done|done| |done]. rewrite Hn. cbn.
    destruct (away_fits _ _ _ _ _ t Hc Ht Hp) as [Hh _]. by apply bool_decide_eq_false.
  - apply (inv_room _ Hp) in H as [[Hc Hb [m Hm] Hr] (s & Hs & Hf & Hh)]. eapply (inv_granted _ _ _ m).
    + replace (holder (set_runnable t Woken (state (lock_slot t s1)))) with (holder (state (lock_slot t s1))) by (unfold set_runnable; by rewrite Hs).
      eapply core_readied; [done|exact Hs|by rewrite bool_decide_false|by right].
    + unfold set_runnable. rewrite Hs. done.
    + done.
Qed.

Lemma attach_thread_inv sc : at_ t = Away → inv at_ sc →
  let '(parks, sc') := attach_thread t sc in inv (moved t (if parks then Parked else Code) at_) sc'.
Proof.
  intros Hp H%inv_lock. unfold attach_thread. generalize dependent (lock sc). intros s1 H.
  apply (inv_room _ Hp) in H as [[Hc Hb [m Hm] Hr] (s & Hs & Hf & Hh)]. rewrite bool_decide_false by done.
  eapply (inv_granted _ _ _ m).
  - replace (holder (set_runnable t Woken (state (lock_slot t s1)))) with (holder (state (lock_slot t s1))) by (unfold set_runnable; by rewrite Hs).
    eapply core_readied; [done|exact Hs|by rewrite bool_decide_false|by left].
  - unfold set_runnable. rewrite Hs. done.
  - done.
Qed.

Lemma started_inv sc : at_ t = Unborn → (detached sc = true ∨ slot t (state sc) ≠ None) → inv at_ sc →
  let '(parks, sc') := started t sc in inv (moved t (if parks then Parked else Free) at_) sc'.
Proof.
  intros Hp Hcl H%inv_lock. rewrite <- slot_lock, <- detached_lock in Hcl. unfold started. generalize dependent (lock sc). intros s1 Hcl H.
  destruct H as [Hc Hb Hm Hr]. pose proof (co_fits _ _ _ _ _ Hc t Ht) as Hf. rewrite Hp in Hf.
  unfold is_runnable. destruct (slot t (state s1)) as [s|] eqn:Es.
  - cbn. assert (detached s1 && negb (is_some (runnable s)) && negb (bool_decide (holder (state s1) = Some t)) = false) as ->.
    { destruct Hf as (_ & _ & _ & [(-> & _)|(-> & Hrn & _)]); [by rewrite andb_false_r|]. destruct (runnable s); [|done].
      by rewrite andb_false_r. }
    assert (lock_slot t s1 = s1) as -> .
    { unfold lock_slot. rewrite get_or_insert_present; [by destruct s1 as [[]]|apply Hc|by exists s]. }
    split; [|done..]. eapply core_move; [done|done| |done]. rewrite Es. cbn in *. unfold parked_fits, quiet.
    destruct Hf as (? & ? & ? & [(-> & ? & ?)|(-> & ? & ->)]); tauto.
  - destruct Hcl as [->|]; [|done]. cbn in *. rewrite Hf. cbn. split; [|done..]. eapply core_move; [done|done| |done]. by rewrite Es.
Qed.

Lemma moved_moved p q u : moved t q (moved t p at_) u = moved t q at_ u.
Proof. unfold moved. by destruct (u =? t). Qed.

Lemma unspawned_inv sc : at_ t = Unborn → holder (state sc) ≠ Some t → inv at_ sc → inv (moved t Away at_) (unspawned t sc).
Proof.
  intros Hp Hh H%inv_lock. rewrite <- holder_lock in Hh. unfold unspawned. generalize dependent (lock sc). intros s1 Hh [Hc Hb Hm Hr].
  pose proof (co_fits _ _ _ _ _ Hc t Ht) as Hf. rewrite Hp, bool_decide_false in Hf by done. pose proof (co_wf _ _ _ _ _ Hc) as Hw.
  unfold take_runnable. destruct (slot t (state s1)) as [s|] eqn:Es; cbn [mbind option_bind snd].
  - destruct Hf as (Hbl & Ho & Hl & [[[=] _]|(_ & Hrn & Hg)]). destruct (runnable s) as [why|] eqn:Er; [|done]. cbn [snd].
    set (st1 := with_threads (get_mut t (put_runnable None) (threads (state s1))) (n_runnable (state s1) - 1) (n_blocked (state s1)) (state s1)).
    assert (core (moved t Away at_) (detached s1) (let_go_n s1) (holder (state s1)) st1) as Hc1.
    { eapply (core_own at_ _ _ _ _ Hc t s (put_runnable None)); try done; cbn.
      - unfold ready. cbn. rewrite Er. cbn. lia.
      - unfold waits_in. cbn. lia.
      - tauto.
      - split; by left.
      - rewrite bool_decide_false by done. split_and!; done.
      - lia. }
    split; cbn; [|intros E|done|done].
    + eapply core_ext; [|intros u; symmetry; apply moved_moved].
      eapply (core_removed _ _ _ _ st1 Hc1 t); [done|done|done| |].
      * intros s' Hs'. unfold st1 in Hs'. rewrite slot_with_threads, get_get_mut, Z.eqb_refl in Hs'. unfold slot in Es. rewrite Es in Hs'.
        cbn in Hs'. injection Hs' as <-. cbn. rewrite Hl. split; [done|]. cbn. lia.
      * intros Hs'. done.
    + exfalso. specialize (Hb E). rewrite (sw_runnable _ Hw), (cnt_zero _ _ (sw_ordered _ Hw)) in Hb.
      specialize (Hb t s Es). unfold ready in Hb. by rewrite Er in Hb.
  - split; [|done..]. eapply (core_removed _ _ _ _ _ Hc t); [done|done|done|congruence|done].
Qed.

(** ** Leaving with mutexes held *)

Lemma held_mapped o m me a : represents o m → held_by o me = Some a → a ≠ 0 ∧ is_Some (m !! a).
Proof.
  intros Hm E. pose proof (held_by_represents o m Hm me) as H. rewrite E in H.
  split; [|by exists me]. by apply (rp_map _ _ Hm) in H as [? _].
Qed.

Lemma disown_loop_core fuel me p d l h st m : core p d l h st → represents (owners st) m →
  let st' := snd (disown_loop fuel me st) in
  core p d l h st' ∧ holder st' = holder st ∧ ∃ m', represents (owners st') m' ∧
    ((size m < fuel)%nat → held_by (owners st') me = None).
Proof.
  revert st m. induction fuel as [|fuel IH]; intros st m Hc Hm; cbn [disown_loop]; [split_and!; [done|done|exists m; split; [done|lia]]|].
  destruct (held_by (owners st) me) as [a|] eqn:Ea; [|cbn; split_and!; [done|done|by exists m]].
  destruct (held_mapped _ _ _ _ Hm Ea) as [Ha [o Ho]]. destruct (remove_represents _ m a Hm Ha) as (o' & -> & Hm').
  change (default (owners st) (Some o')) with o'. set (st1 := with_owners o' st). assert (core p d l h st1) as Hc1 by by apply (core_same _ _ _ _ st).
  pose proof (wake_key_wakes_well false (Addr a) everyone Woken st1) as W.
  destruct (wake_key (Addr a) everyone Woken st1) as [n st2]. cbn [snd] in *. destruct (W (co_wf _ _ _ _ _ Hc1)) as [_ Wk].
  destruct (IH st2 (delete a m)) as (Hc' & Hh' & m' & Hm2 & Hn).
  - by eapply (core_wakes _ _ _ false).
  - by rewrite (wk_owners _ _ _ Wk).
  - split_and!; [done|by rewrite Hh', (wk_holder _ _ _ Wk)|]. exists m'. split; [done|]. intros Hsz. apply Hn.
    rewrite map_size_delete_Some by by exists o. pose proof (map_size_ne_0_lookup_2 m a ltac:(by exists o)). lia.
Qed.

Lemma disown_core me p d l h st m : core p d l h st → represents (owners st) m →
  let st' := snd (disown me st) in
  core p d l h st' ∧ holder st' = holder st ∧ ∃ m', represents (owners st') m' ∧ held_by (owners st') me = None.
Proof.
  intros Hc Hm. destruct (disown_loop_core (Z.to_nat OWNED_MUTEXES) me p d l h st m Hc Hm) as (Hc' & Hh & m' & Hm' & Hn).
  unfold disown. cbv zeta. split; [exact Hc'|]. split; [exact Hh|]. exists m'. split; [exact Hm'|]. apply Hn.
  pose proof (rp_size _ _ Hm). pose proof (rp_len _ _ Hm). pose proof (tw_free _ (rp_wf _ _ Hm)).
  change (Z.to_nat OWNED_MUTEXES) with 1024%nat. lia.
Qed.

(** What the slot of a thread at rest has for its other calls *)
Lemma at_rest sc : at_ t = Code → inv at_ sc → ∃ s, slot t (state sc) = Some s ∧ quiet s ∧ grant s = None ∧ outside s = None ∧
  ((holder (state sc) = Some t ∧ let_go s = false) ∨ (holder (state sc) ≠ Some t ∧ let_go s = true)).
Proof.
  intros Hp [Hc _ _ _]. pose proof (co_fits _ _ _ _ _ Hc t Ht) as Hf. rewrite Hp in Hf. destruct (slot t (state sc)) as [s|]; [|done].
  exists s. split; [done|]. destruct Hf as (? & ? & ? & [[Hh ?]|[Hh ?]]); split_and!; try done.
  - left. by apply bool_decide_eq_true in Hh.
  - right. by apply bool_decide_eq_false in Hh.
Qed.

Lemma untaken st : match slot t st with Some s => quiet s | None => True end →
  take_runnable t st = (None, st) ∧ take_blocked t st = (None, st).
Proof. unfold take_runnable, take_blocked. destruct (slot t st) as [s|]; [|done]. intros [Hr Hb]. cbn. by rewrite Hr, Hb. Qed.

(** The baton let go by its holder. *)
Lemma lets_go h u : h = Some t → u ≠ t → holds_baton None u = holds_baton h u.
Proof. intros -> Hu. rewrite !bool_decide_false by congruence. done. Qed.

Lemma detach_thread_inv sc : at_ t = Code → match slot t (state sc) with Some s => let_go s = false | None => False end →
  inv at_ sc → inv (moved t Away at_) (detach_thread t sc) ∧ held_by (owners (state (detach_thread t sc))) t = None.
Proof.
  intros Hp Hcl H%inv_lock. rewrite <- slot_lock in Hcl. unfold detach_thread. generalize dependent (lock sc). intros s1 Hcl H.
  destruct (at_rest s1 Hp H) as (s & Hs & Hq & Hg & Ho & Hl). rewrite Hs in Hcl. destruct Hl as [[Hh Hl]|[_ ?]]; [|congruence].
  destruct H as [Hc Hb [m Hm] Hr]. destruct (untaken (state s1)) as [Et Eb]; [by rewrite Hs|]. rewrite Et. cbn [snd]. rewrite Eb. cbn [snd].
  set (st1 := upd t (set_grant forget) (state s1)).
  assert (core (moved t Away at_) (detached s1) (let_go_n s1) None st1) as Hc1.
  { eapply (core_own at_ _ _ _ _ Hc t s (set_grant forget)); try done; cbn.
    - unfold ready. cbn. lia.
    - unfold waits_in. cbn. lia.
    - tauto.
    - by apply (sw_slots _ (co_wf _ _ _ _ _ Hc) t s).
    - intros u Hu. by apply lets_go.
    - lia. }
  destruct (disown_core t _ _ _ _ st1 m Hc1 Hm) as (Hc2 & Hh2 & m' & Hm' & Hn). destruct (disown t st1) as [dis st2]. cbn [snd] in *.
  assert (holder st2 = Some t) as Hh3 by (rewrite Hh2; exact Hh). rewrite bool_decide_true by done.
  split; [by eapply inv_handed_on|]. cbn. rewrite owners_hand_on; [done|apply Hc2].
Qed.

(** A wake leaves a thread at rest alone. *)
Lemma rest_kept st st' s : wakes false st st' → slot t st = Some s → quiet s →
  ∃ s', slot t st' = Some s' ∧ quiet s' ∧ grant s' = grant s ∧ let_go s' = let_go s ∧ outside s' = outside s.
Proof.
  intros Wk Hs [Hr Hb]. destruct (wk_slots _ _ _ Wk t s Hs) as (s' & Hs' & Hg & Hl & [(Hr' & Hb' & Ho')|([|[[=] _]] & _)]); [|congruence].
  exists s'. unfold quiet. split_and!; congruence.
Qed.

(** What [exit] has taken out of the tables before it hands the baton on. *)
Definition exit_left (root : bool) (st : State) : State :=
  let st1 := if root then with_roots (Z.max 0 (roots st - 1)) st else st in
  let st2 := settle_repoll t None st1 in
  with_tables (put_exited t (exited st2)) (handles st2) st2.

Lemma exit_left_wakes root st : wakes_well false st (exit_left root st).
Proof.
  unfold exit_left. transitivity (if root then with_roots (Z.max 0 (roots st - 1)) st else st); [destruct root; [same_state|done]|].
  cbv zeta. etransitivity; [apply (settle_repoll_wakes_well _ t None)|]. generalize (settle_repoll t None (if root then with_roots (Z.max 0 (roots st - 1)) st else st)).
  intros st2. same_state.
Qed.

(** A thread let through has no slot and no baton. *)
Lemma let_through sc : at_ t = Free → inv at_ sc → slot t (state sc) = None ∧ holder (state sc) ≠ Some t.
Proof.
  intros Hp [Hc _ _ _]. pose proof (co_fits _ _ _ _ _ Hc t Ht) as Hf. rewrite Hp in Hf.
  destruct (slot t (state sc)); [done|]. split; [done|]. by apply bool_decide_eq_false in Hf.
Qed.

Lemma inv_let_through sc : at_ t = Free → inv at_ sc → inv (moved t Away at_) sc.
Proof.
  intros Hp H. destruct (let_through sc Hp H) as [Hs Hh]. destruct H as [Hc Hb Hm Hr]. split; [|done..].
  eapply core_move; [done|done| |done]. rewrite Hs. by rewrite bool_decide_false.
Qed.

Lemma exit_inv root sc : at_ t = Code ∨ at_ t = Away → inv at_ sc →
  inv (moved t Away at_) (exit t root sc) ∧ held_by (owners (state (exit t root sc))) t = None.
Proof.
  intros Hp H%inv_lock. unfold exit. generalize dependent (lock sc). intros s1 H. cbv zeta.
  assert (match slot t (state s1) with Some s => quiet s | None => True end) as Hq.
  { destruct Hp as [Hp|Hp].
    - by destruct (at_rest s1 Hp H) as (s & -> & ? & _).
    - destruct (away_fits _ _ _ _ _ t (iv_core _ _ H) Ht Hp) as [? Hf]. destruct (slot t (state s1)); [apply Hf|done]. }
  destruct H as [Hc Hb [m Hm] Hr]. pose proof (exit_left_wakes root (state s1)) as W. fold (exit_left root (state s1)).
  set (st3 := exit_left root (state s1)) in *. destruct (W (co_wf _ _ _ _ _ Hc)) as [Hw3 Wk].
  destruct (wakes_core false _ _ _ _ st3 ltac:(done) W Hc) as [Hc3 Ho3].
  assert (match slot t st3 with Some s => quiet s | None => True end) as Hq3.
  { destruct (slot t (state s1)) as [s|] eqn:Es.
    - destruct (rest_kept _ _ s Wk Es Hq) as (s' & -> & ? & _). done.
    - by rewrite (wakes_absent false _ st3 t Wk Es). }
  destruct (untaken st3 Hq3) as [Et Eb]. rewrite Et. cbn [snd]. rewrite Eb. cbn [snd].
  set (was := match slot t st3 with Some sl => let_go sl | None => false end).
  set (st4 := with_threads (remove t (threads st3)) (n_runnable st3) (n_blocked st3) st3).
  set (h' := if decide (holder st3 = Some t) then None else holder st3).
  assert (core (moved t Away at_) (detached s1) (let_go_n s1 - b2z was) h' st4) as Hc4.
  { eapply (core_removed _ _ _ _ _ Hc3 t); [done|..]; unfold h', was.
    - intros u Hu. case_decide; [by apply lets_go|done].
    - by case_decide.
    - intros s Hs. rewrite Hs in Hq3 |- *. done.
    - intros Hs. rewrite Hs. cbn. lia. }
  destruct (disown_core t _ _ _ _ st4 m Hc4 (eq_ind_r (λ o, represents o m) Hm Ho3)) as (Hc5 & Hh5 & m' & Hm' & Hn).
  set (st5 := snd (disown t st4)) in *. pose proof (wake_key_wakes_well false (Exit t) everyone Woken st5) as W6.
  destruct (W6 (co_wf _ _ _ _ _ Hc5)) as [_ Wk6]. set (st6 := snd (wake_key (Exit t) everyone Woken st5)) in *.
  assert (core (moved t Away at_) (detached s1) (let_go_n s1 - b2z was) h' st6) as Hc6 by by eapply (core_wakes _ _ _ false).
  assert (holder st6 = holder st3) as Hh6 by (rewrite (wk_holder _ _ _ Wk6), Hh5; done).
  set (s2 := mk_sched (state s1) (detached s1) (let_go_n s1 - b2z was) (foreign_queue s1) (owner_records s1)).
  assert (represents (owners st6) m') as Hm6 by by rewrite (wk_owners _ _ _ Wk6).
  unfold h' in Hc6. rewrite <- Hh6 in Hc6. destruct (decide (holder st6 = Some t)) as [E|E].
  - rewrite bool_decide_true by done. split; [by apply (inv_handed_on _ s2 st6 m')|].
    cbn. rewrite owners_hand_on, (wk_owners _ _ _ Wk6) by apply Hc6. done.
  - rewrite bool_decide_false by done. split; [by apply (inv_granted _ s2 st6 m')|].
    cbn. rewrite owners_grant_if_idle, (wk_owners _ _ _ Wk6) by apply Hc6. done.
Qed.

(** ** Waiting in the schedule *)

Lemma inv_stays sc p : at_ t = p → inv at_ sc → inv (moved t p at_) sc.
Proof. intros Hp [Hc Hb Hm Hr]. split; [by apply core_stays|done..]. Qed.

Lemma inv_driven sc dr : inv (moved t Parked at_) sc → inv (moved t (driven dr) at_) sc.
Proof.
  intros [Hc Hb Hm Hr]. split; [|done..]. eapply core_ext; [|intros u; symmetry; apply moved_moved].
  eapply core_move; [done|done| |by destruct dr]. pose proof (co_fits _ _ _ _ _ Hc t Ht) as Hf.
  unfold moved in Hf. rewrite Z.eqb_refl in Hf. by destruct dr.
Qed.

Lemma core_blocked sc p s b w : inv p sc → slot t (state sc) = Some s → quiet s → outside s = None → let_go s = false → grant s = None →
  let st := set_blocked t b (with_waits (next_wait (state sc)) w (state sc)) in
  (∀ h, h ≠ Some t → (∀ u, u ≠ t → holds_baton h u = holds_baton (holder (state sc)) u) →
    core (moved t Parked p) (detached sc) (let_go_n sc) h st) ∧ holder st = holder (state sc) ∧ owners st = owners (state sc).
Proof.
  intros [Hc _ _ _] Hs [Hr Hb] Ho Hl Hg. cbv zeta. unfold set_blocked.
  change (slot t (with_waits (next_wait (state sc)) w (state sc))) with (slot t (state sc)). rewrite Hs. split_and!; [|done|done].
  intros h Hh Hu. eapply (core_own p _ _ _ _ Hc t s (put_blocked (Some (b, next_wait (state sc))))); try done; cbn.
  - unfold ready. cbn. lia.
  - unfold waits_in. rewrite Hb. cbn. lia.
  - lia.
  - intros b' o [= _ <-]. right. lia.
  - split; by left.
  - rewrite bool_decide_false by done. split; [done|]. right. right. left. cbn. by rewrite Hg.
  - lia.
Qed.

Lemma take_let_go_inv sc s : inv at_ sc → slot t (state sc) = Some s → quiet s → outside s = None → grant s = None → let_go s = true →
  holder (state sc) ≠ Some t →
  ∃ sc', take_let_go t sc = (true, sc') ∧ inv (moved t Away at_) sc' ∧ detached sc' = detached sc ∧ holder (state sc') = holder (state sc) ∧
    slot t (state sc') = Some (put_let_go false s).
Proof.
  intros [Hc Hb Hm Hr] Hs [Hrn Hbl] Ho Hg Hl Hh. unfold take_let_go. rewrite Hs, Hl. eexists. split; [done|]. split_and!; [|done|done|].
  - split; [|done..]. eapply (core_own at_ _ _ _ _ Hc t s (put_let_go false)); try done; cbn.
    + unfold ready. cbn. lia.
    + unfold waits_in. cbn. lia.
    + tauto.
    + split; by left.
    + rewrite bool_decide_false by done. done.
    + rewrite Hl. cbn. lia.
  - cbn [state]. by rewrite slot_upd, Z.eqb_refl, Hs.
Qed.

Lemma free_of p sc st' : core p (detached sc) (let_go_n sc) None st' → (∃ m, represents (owners st') m) →
  Forall (λ r, rmutex r ≠ 0) (owner_records sc) → free p (with_state (with_holder None st') sc).
Proof. intros Hc Hm Hr. split; [by apply (core_same _ _ _ _ st')|done|done|done]. Qed.

Lemma inv_changed p sc st' : wakes_well false (state sc) st' → holder (state sc) ≠ None → inv p sc → inv p (with_state st' sc).
Proof.
  intros W Hh [Hc Hb [m Hm] Hr]. destruct (wakes_core false _ _ _ _ st' ltac:(done) W Hc) as [Hc' Eo].
  destruct (W (co_wf _ _ _ _ _ Hc)) as [_ Wk]. split; [done| |by exists m; cbn; rewrite Eo|done]. intros E. cbn in E. rewrite (wk_holder _ _ _ Wk) in E. done.
Qed.

Lemma take_foreign_inv p sc : holder (state sc) ≠ None → inv p sc → inv p (take_foreign sc) ∧ holder (state (take_foreign sc)) = holder (state sc)
  ∧ wakes false (state sc) (state (take_foreign sc)).
Proof.
  intros Hh H. pose proof (take_foreign_wakes_well false sc) as W. pose proof (inv_changed p sc _ W Hh H) as [Hc Hb Hm Hr].
  destruct (W (co_wf _ _ _ _ _ (iv_core _ _ H))) as [_ Wk]. split_and!; [by split|apply Wk|done].
Qed.

Lemma block_inv b now m rs sc r sc' : at_ t = Code → (detached sc = true → holder (state sc) = Some t) → inv at_ sc →
  block t b now m rs sc = Some (r, sc') →
  inv (moved t (match r with Returns _ => Code | Parks => Parked | Drives d => Driving d end) at_) sc'.
Proof.
  intros Hp Hcl H. unfold block. destruct (match deadline b with Some _ => _ | None => _ end); [intros [= <- <-]; by apply inv_stays|].
  apply inv_lock in H. rewrite <- detached_lock, <- holder_lock in Hcl. generalize dependent (lock sc). intros s1 Hcl H.
  destruct (at_rest s1 Hp H) as (s & Hs & Hq & Hg & Ho & [[Hh Hl]|[Hh Hl]]).
  - rewrite (bool_decide_true (holder (state s1) = Some t)) by done. cbn [andb]. rewrite (bool_decide_true (holder (state s1) = Some t)) by done.
    rewrite Hs. cbn [is_some negb orb]. destruct (exited_now _ _); [intros [= <- <-]; by apply inv_stays|].
    destruct (take_foreign_inv at_ s1 ltac:(congruence) H) as (H2 & Hh2 & Wk2). set (s2 := take_foreign s1) in *. clearbody s2.
    destruct (foreign_remove (key b) (foreign (state s2))) as [woken f]. set (s3 := with_state (with_foreign f (state s2)) s2).
    assert (inv at_ s3) as H3 by (destruct H2 as [Hc ???]; split; [by apply (core_same _ _ _ _ (state s2))|done..]).
    destruct (_ || _); [intros [= <- <-]; by apply inv_stays|].
    pose proof (settle_repoll_wakes_well false t (Some (key b)) (state s3)) as W4.
    assert (holder (state s3) = Some t) as Hh3 by (change (holder (state s2) = Some t); congruence).
    assert (holder (state s3) ≠ None) as Hh3' by congruence. pose proof (inv_changed at_ s3 _ W4 Hh3' H3) as H4.
    destruct (W4 (co_wf _ _ _ _ _ (iv_core _ _ H3))) as [_ Wk4]. set (st4 := settle_repoll t (Some (key b)) (state s3)) in *.
    destruct (at_rest _ Hp H4) as (s4 & Hs4 & Hq4 & Hg4 & Ho4 & Hl4). cbn [state with_state] in Hs4, Hl4.
    assert (holder st4 = Some t) as Hh4 by by rewrite (wk_holder _ _ _ Wk4). destruct Hl4 as [[_ Hl4]|[? _]]; [|done].
    destruct (core_blocked (with_state st4 s3) at_ s4 b (waits st4 + 1) H4 Hs4 Hq4 Ho4 Hl4 Hg4) as (Hc5 & _ & Ho5).
    cbn [state with_state] in Hc5, Ho5. set (st5 := set_blocked t b (with_waits (next_wait st4) (waits st4 + 1) st4)) in *.
    assert (free (moved t Parked at_) (with_state (with_holder None st5) s3)) as Hf.
    { apply free_of; [|rewrite Ho5; apply H4|apply H3]. apply (Hc5 None); [done|]. intros u Hu. by apply lets_go. }
    unfold dispatch. destruct (dispatch_loop _ _ _ _) as [[s6 d]|] eqn:Ed; [|done]. cbn. intros [= <- <-].
    apply (dispatch_loop_inv (moved t Parked at_)) in Ed; [|done]. apply (inv_driven _ d) in Ed. by destruct d.
  - rewrite (bool_decide_false (holder (state s1) = Some t)) by done.
    destruct (take_let_go_inv s1 s H Hs Hq Ho Hg Hl Hh) as (s2 & -> & H2 & Hd2 & Hh2 & Hs2). rewrite Hd2.
    destruct (detached s1) eqn:Ed; [by destruct Hh; apply Hcl|]. cbn. intros [= <- <-].
    destruct (core_blocked s2 (moved t Away at_) _ b (waits (state s2) + 1) H2 Hs2 Hq Ho eq_refl Hg) as (Hc3 & Hh3 & Ho3).
    set (st3 := set_blocked _ _ _) in *. destruct H2 as [Hc2 Hb2 Hm2 Hr2]. split; cbn.
    + eapply core_ext; [|intros u; symmetry; apply moved_moved]. apply Hc3; [congruence|]. intros u Hu. by rewrite Hh3.
    + intros E. cbn in E. unfold st3, set_blocked. change (slot t (with_waits (next_wait (state s2)) (waits (state s2) + 1) (state s2))) with (slot t (state s2)).
      rewrite Hs2. cbn. apply Hb2. congruence.
    + by rewrite Ho3.
    + done.
Qed.

Lemma yield_now_inv rs sc r sc' : at_ t = Code → inv at_ sc → yield_now t rs sc = Some (r, sc') →
  inv (moved t (match r with Returns _ => Code | Parks => Parked | Drives d => Driving d end) at_) sc'.
Proof.
  intros Hp H%inv_lock. unfold yield_now. generalize dependent (lock sc). intros s1 H.
  destruct (at_rest s1 Hp H) as (s & Hs & Hq & Hg & Ho & [[Hh Hl]|[Hh Hl]]); cycle 1.
  { rewrite (bool_decide_false (holder (state s1) = Some t)) by done. intros [= <- <-]. by apply inv_stays. }
  rewrite (bool_decide_true (holder (state s1) = Some t)) by done. cbn [negb].
  pose proof (settle_repoll_wakes_well false t None (state s1)) as W2. assert (holder (state s1) ≠ None) as Hh' by congruence.
  pose proof (inv_changed at_ s1 _ W2 Hh' H) as H2. destruct (W2 (co_wf _ _ _ _ _ (iv_core _ _ H))) as [_ Wk2].
  set (s2 := with_state (settle_repoll t None (state s1)) s1) in *. assert (holder (state s2) = Some t) as Hh2 by (cbn; by rewrite (wk_holder _ _ _ Wk2)).
  destruct (take_foreign_inv at_ s2 ltac:(congruence) H2) as (H3 & Hh3 & _). set (s3 := take_foreign s2) in *. clearbody s3.
  destruct (_ || _); [intros [= <- <-]; by apply inv_stays|].
  destruct (at_rest s3 Hp H3) as (s4 & Hs4 & [Hr4 Hb4] & Hg4 & Ho4 & [[Hh4 Hl4]|[? _]]); [|congruence].
  destruct H3 as [Hc3 Hb3 Hm3 Hr3]. set (st4 := set_runnable t Woken (state s3)).
  assert (free (moved t Parked at_) (with_state (with_holder None st4) s3)) as Hf.
  { apply free_of; [|unfold st4, set_runnable; by rewrite Hs4|done]. unfold st4, set_runnable. rewrite Hs4.
    eapply (core_own at_ _ _ _ _ Hc3 t s4 (put_runnable (Some Woken))); try done; cbn.
    - unfold ready. rewrite Hr4. cbn. lia.
    - unfold waits_in. cbn. lia.
    - tauto.
    - split; by right.
    - intros u Hu. by apply lets_go.
    - split; [done|]. right. left. cbn. by rewrite Hg4.
    - lia. }
  unfold dispatch. destruct (dispatch_loop _ _ _ _) as [[s6 d]|] eqn:Ed; [|done]. cbn. intros [= <- <-].
  apply (dispatch_loop_inv (moved t Parked at_)) in Ed; [|done]. apply (inv_driven _ d) in Ed. by destruct d.
Qed.

Lemma spin_begin_inv clock sc : inv at_ sc → inv at_ (snd (spin_begin t clock sc)).
Proof.
  intros H%inv_lock. unfold spin_begin. destruct (negb _); [done|]. cbn [snd].
  eapply (inv_unchanged false); [done| |done|done]. apply upd_wakes_well. intros s _. unfold slot_step. cbn. tauto.
Qed.

Lemma spin_advanced_inv now tw m sc : holder (state sc) = Some t → inv at_ sc → inv at_ (spin_advanced now tw m sc).
Proof.
  intros Hh H%inv_lock. rewrite <- holder_lock in Hh. unfold spin_advanced. apply inv_changed; [|congruence|done]. apply kick_wakes_well.
Qed.

(** ** Native waits *)

Lemma wait_outside_inv k sc : at_ t = Code → inv at_ sc →
  inv (moved t (match slot t (state sc) with Some sl => if let_go sl then Native else Code | None => Code end) at_) (wait_outside t k sc).
Proof.
  intros Hp H%inv_lock. rewrite <- slot_lock. unfold wait_outside. generalize dependent (lock sc). intros s1 H.
  destruct (at_rest s1 Hp H) as (s & Hs & [Hr Hb] & Hg & Ho & Hl). rewrite Hs. destruct H as [Hc Hbz Hm Hrec]. split; [|done..].
  eapply (core_own at_ _ _ _ _ Hc t s (λ sl, if let_go sl then put_outside (Some k) sl else sl)); try done; cbn.
  all: destruct Hl as [[Hh Hl]|[Hh Hl]]; rewrite Hl; cbn; try done.
  - lia.
  - unfold ready. cbn. lia.
  - lia.
  - unfold waits_in. cbn. lia.
  - tauto.
  - tauto.
  - split; by left.
  - split; by right.
  - rewrite bool_decide_true by done. split_and!; try done. by left.
  - rewrite bool_decide_false by done. split_and!; try done. right. split_and!; [done|done|by left].
  - rewrite Hl. cbn. lia.
  - rewrite Hl. cbn. lia.
Qed.

(** What [rejoin] finds of a thread back from a native wait, or let go and running. *)
Lemma rejoining sc : at_ t = Code ∨ at_ t = Native → inv at_ sc →
  let sc' := with_state (upd t (put_outside None) (state sc)) sc in
  inv at_ sc' ∧ ∃ s, slot t (state sc') = Some s ∧ outside s = None ∧ blocked s = None ∧
    ((holder (state sc') = Some t ∧ let_go s = false ∧ at_ t = Code) ∨
     (holder (state sc') = Some t ∧ let_go s = true ∧ at_ t = Native ∧ runnable s = None ∧ is_run (grant s) = true) ∨
     (holder (state sc') ≠ Some t ∧ let_go s = true ∧ grant s = None ∧ (at_ t = Code → runnable s = None))).
Proof.
  intros Hp [Hc Hb Hm Hr]. cbv zeta. pose proof (co_fits _ _ _ _ _ Hc t Ht) as Hf. pose proof (co_detached _ _ _ _ _ Hc t) as Hd.
  destruct (slot t (state sc)) as [s|] eqn:Es; [|by destruct Hp as [Hp|Hp]; rewrite Hp in Hf].
  assert (blocked s = None) as Hbl by (destruct Hp as [Hp|Hp]; rewrite Hp in Hf; [apply Hf|apply Hf]).
  split.
  - split; [|done..].
    assert (core (moved t (at_ t) at_) (detached sc) (let_go_n sc) (holder (state sc)) (upd t (put_outside None) (state sc))) as Hc'.
    { eapply (core_own at_ _ _ _ _ Hc t s (put_outside None)); try done; cbn.
      - unfold ready. cbn. lia.
      - unfold waits_in. cbn. lia.
      - tauto.
      - split; by right.
      - destruct Hp as [Hp|Hp]; rewrite Hp in *; cbn in *; [unfold quiet in *; cbn; tauto|]. tauto.
      - intros Dt Hn. by apply Hd.
      - lia. }
    eapply core_ext; [exact Hc'|]. intros u. unfold moved. by destruct (Z.eqb_spec u t) as [->|].
  - exists (put_outside None s). cbn [state with_state]. rewrite slot_upd, Z.eqb_refl, Es. split; [done|]. split; [done|]. split; [done|]. cbn.
    destruct Hp as [Hp|Hp]; rewrite Hp in *; cbn in Hf; unfold quiet in Hf.
    + destruct Hf as ([? ?] & ? & ? & [[?%bool_decide_eq_true ?]|[?%bool_decide_eq_false ?]]); [left; done|right; right; done].
    + destruct Hf as (? & ? & [(?%bool_decide_eq_true & ? & ? & ?)|(?%bool_decide_eq_false & ? & ?)]); [right; left; done|right; right; done].
Qed.

Lemma rejoin_inv sc : at_ t = Code ∨ at_ t = Native → inv at_ sc →
  let '(parks, sc') := rejoin t sc in inv (moved t (if parks then Parked else Code) at_) sc'.
Proof.
  intros Hp H. unfold rejoin. destruct (Z.eqb_spec (let_go_n sc) 0) as [E0|_].
  { destruct Hp as [Hp|Hp]; [by apply inv_stays|]. exfalso. destruct H as [Hc _ _ _]. pose proof (co_fits _ _ _ _ _ Hc t Ht) as Hf.
    pose proof (co_let_go _ _ _ _ _ Hc) as Hl. rewrite E0, (cnt_zero _ _ (sw_ordered _ (co_wf _ _ _ _ _ Hc))) in Hl.
    rewrite Hp in Hf. destruct (slot t (state sc)) as [s|] eqn:Es; [|done]. destruct Hf as (_ & Hl' & _). rewrite (Hl t s Es) in Hl'. done. }
  apply inv_lock in H. generalize dependent (lock sc). intros s1 H. destruct (rejoining s1 Hp H) as (H2 & s & Hs & Ho & Hb & Hcase).
  set (s2 := with_state (upd t (put_outside None) (state s1)) s1) in *. clearbody s2. clear H s1.
  destruct (detached s2) eqn:Ed.
  { destruct Hp as [Hp|Hp]; [by apply inv_stays|]. destruct H2 as [Hc Hbz Hm Hr]. split; [|done..]. eapply core_move; [done|done| |done].
    destruct (co_detached _ _ _ _ _ Hc t s Ed Hp Hs) as [Hrn Hh]. rewrite Hs, bool_decide_false by done.
    destruct Hcase as [(? & _)|[(? & _)|(_ & Hl & Hg & _)]]; [done..|]. cbn. unfold quiet. tauto. }
  destruct Hcase as [(Hh & Hl & Hpc)|[(Hh & Hl & _ & Hrn & Hg)|(Hh & Hl & Hg & Hrn)]].
  - unfold take_let_go. rewrite Hs, Hl. by apply inv_stays.
  - unfold take_let_go. rewrite Hs, Hl. cbn [state upd with_threads holder]. rewrite bool_decide_true by done.
    destruct H2 as [Hc Hbz Hm Hr]. split; [|by unfold busy; cbn; rewrite Hh|done|done].
    eapply (core_own at_ _ _ _ _ Hc t s (put_let_go false)); try done; cbn.
    + unfold ready. cbn. lia.
    + unfold waits_in. cbn. lia.
    + tauto.
    + split; by right.
    + rewrite bool_decide_true by done. split; [done|]. left. unfold quiet. done.
    + rewrite Hl. cbn. lia.
  - destruct (runnable s) as [why|] eqn:Er.
    + unfold take_let_go. rewrite Hs, Hl. rewrite bool_decide_false by done.
      set (s3 := mk_sched _ _ _ _ _). assert (set_runnable_if_not t Woken (state s3) = state s3) as ->.
      { unfold set_runnable_if_not, s3. cbn [state]. rewrite slot_upd, Z.eqb_refl, Hs. cbn. by rewrite Er. }
      destruct H2 as [Hc Hbz [m Hm] Hr]. eapply (inv_granted _ s3 (state s3) m); [|done|done].
      eapply (core_own at_ _ _ _ _ Hc t s (put_let_go false)); try done; cbn.
      * unfold ready. cbn. lia.
      * unfold waits_in. cbn. lia.
      * tauto.
      * split; by right.
      * rewrite bool_decide_false by done. split; [done|]. right. left. cbn. rewrite Er, Hg. done.
      * rewrite Hl. cbn. lia.
    + destruct (take_let_go_inv s2 s H2 Hs ltac:(done) Ho Hg Hl Hh) as (s3 & -> & H3 & Hd3 & Hh3 & Hs3).
      rewrite bool_decide_false by congruence. unfold set_runnable_if_not. rewrite Hs3. cbn [runnable put_let_go]. rewrite Er. cbn [is_some].
      destruct H3 as [Hc Hbz [m Hm] Hr]. eapply (inv_granted _ _ _ m).
      * replace (holder (set_runnable t Woken (state s3))) with (holder (state s3)) by (unfold set_runnable; by rewrite Hs3).
        eapply core_ext; [|intros u; symmetry; apply moved_moved].
        eapply core_readied; [exact Hc|exact Hs3| |by left]. rewrite bool_decide_false by congruence. split_and!; done.
      * unfold set_runnable. by rewrite Hs3.
      * done.
Qed.

(** ** Taking a grant *)

Lemma take_run_inv sc why sc' : at_ t = Parked → inv at_ sc → take_grant t sc = Some (Run why, sc') → inv (moved t Code at_) sc'.
Proof.
  intros Hp [Hc Hb Hm Hr]. unfold take_grant. pose proof (co_fits _ _ _ _ _ Hc t Ht) as Hf. rewrite Hp in Hf.
  destruct (slot t (state sc)) as [s|] eqn:Es; [|done]. cbn. destruct (grant s) as [g|] eqn:Eg; [|done]. cbn. intros [= -> <-].
  destruct Hf as (Ho & Hf). split; [|done..]. eapply (core_own at_ _ _ _ _ Hc t s (set_grant forget)); try done; cbn.
  - unfold ready. cbn. lia.
  - unfold waits_in. cbn. lia.
  - tauto.
  - by apply (sw_slots _ (co_wf _ _ _ _ _ Hc) t s).
  - unfold quiet. rewrite Eg in Hf. cbn in *. unfold quiet in Hf. naive_solver.
  - lia.
Qed.

Lemma take_dispatch_inv sc sc' : at_ t = Parked → inv at_ sc → take_grant t sc = Some (Dispatch, sc') → inv at_ sc'.
Proof.
  intros Hp [Hc Hb Hm Hr]. unfold take_grant. pose proof (co_fits _ _ _ _ _ Hc t Ht) as Hf. rewrite Hp in Hf.
  destruct (slot t (state sc)) as [s|] eqn:Es; [|done]. cbn. destruct (grant s) as [g|] eqn:Eg; [|done]. cbn. intros [= -> <-].
  destruct Hf as (Ho & Hf). split; [|done..].
  assert (core (moved t Parked at_) (detached sc) (let_go_n sc) (holder (state sc)) (upd t (set_grant forget) (state sc))) as Hc'.
  { eapply (core_own at_ _ _ _ _ Hc t s (set_grant forget)); try done; cbn.
    - unfold ready. cbn. lia.
    - unfold waits_in. cbn. lia.
    - tauto.
    - by apply (sw_slots _ (co_wf _ _ _ _ _ Hc) t s).
    - unfold parked_fits, quiet. rewrite Eg in Hf. cbn in *. unfold quiet in Hf. naive_solver.
    - lia. }
  eapply core_ext; [exact Hc'|]. intros u. unfold moved. by destruct (Z.eqb_spec u t) as [->|].
Qed.

(** ** Calls of a thread let through

    They find no slot of it and no baton, and but for taking the lock change nothing; leaving, it
    gives up the mutexes it holds. *)

Lemma upd_absent f st : slot t st = None → upd t f st = st.
Proof. intros H. unfold upd. rewrite get_mut_absent by done. by destruct st. Qed.

Lemma with_state_same sc : with_state (state sc) sc = sc.
Proof. by destruct sc. Qed.

Lemma block_let_through b now m rs sc r sc' : at_ t = Free → inv at_ sc → block t b now m rs sc = Some (r, sc') →
  inv (moved t (match r with Returns _ => Free | Parks => Parked | Drives d => Driving d end) at_) sc'.
Proof.
  intros Hp H. unfold block. destruct (match deadline b with Some _ => _ | None => _ end); [intros [= <- <-]; by apply inv_stays|].
  apply inv_lock in H. destruct (let_through _ Hp H) as [Hs Hh]. rewrite (bool_decide_false (holder _ = _)) by done.
  unfold take_let_go. rewrite Hs. cbn [andb]. rewrite bool_decide_false by done. cbn [negb orb]. intros [= <- <-]. by apply inv_stays.
Qed.

Lemma yield_let_through rs sc r sc' : at_ t = Free → inv at_ sc → yield_now t rs sc = Some (r, sc') →
  inv (moved t (match r with Returns _ => Free | Parks => Parked | Drives d => Driving d end) at_) sc'.
Proof.
  intros Hp H%inv_lock. destruct (let_through _ Hp H) as [_ Hh]. unfold yield_now. rewrite bool_decide_false by done.
  intros [= <- <-]. by apply inv_stays.
Qed.

Lemma wait_outside_let_through k sc : at_ t = Free → inv at_ sc → inv (moved t Free at_) (wait_outside t k sc).
Proof.
  intros Hp H%inv_lock. destruct (let_through _ Hp H) as [Hs _]. unfold wait_outside. rewrite upd_absent, with_state_same by done.
  by apply inv_stays.
Qed.

Lemma rejoin_let_through sc : at_ t = Free → inv at_ sc →
  let '(parks, sc') := rejoin t sc in inv (moved t (if parks then Parked else Free) at_) sc'.
Proof.
  intros Hp H. unfold rejoin. destruct (let_go_n sc =? 0); [by apply inv_stays|]. apply inv_lock in H.
  destruct (let_through _ Hp H) as [Hs _]. rewrite upd_absent, with_state_same by done.
  destruct (detached _); [by apply inv_stays|]. unfold take_let_go. rewrite Hs. by apply inv_stays.
Qed.

Lemma disown_nothing me st : fst (disown me st) = false → snd (disown me st) = st.
Proof.
  unfold disown. destruct (Z.to_nat OWNED_MUTEXES); [done|]. cbn [disown_loop].
  destruct (held_by (owners st) me) as [addr|]; [|done]. by destruct (wake_key _ _ _ _).
Qed.

Lemma detach_let_through sc : at_ t = Free → inv at_ sc → inv (moved t Away at_) (detach_thread t sc).
Proof.
  intros Hp H%inv_lock. unfold detach_thread. generalize dependent (lock sc). intros s1 H.
  destruct (let_through _ Hp H) as [Hs Hh]. apply inv_let_through in H as [Hc Hb [m Hm] Hr]; [|done].
  destruct (untaken (state s1)) as [Et Eb]; [by rewrite Hs|]. rewrite Et. cbn [snd]. rewrite Eb. cbn [snd].
  rewrite upd_absent by done.
  destruct (disown_core t _ _ _ _ (state s1) m Hc Hm) as (Hc2 & Hh2 & m' & Hm' & _).
  pose proof (disown_nothing t (state s1)) as Hq.
  destruct (disown t (state s1)) as [dis st2]. cbn [fst snd] in *. rewrite <- Hh2 in Hc2, Hh.
  rewrite bool_decide_false by done. destruct dis; [by eapply inv_granted|].
  rewrite Hq in * by done. rewrite with_state_same. split; [done|done|by eexists|done].
Qed.

End calls.
