(* ===== verification/SchedBaton.v ===== *)
(** * Who lets go of the baton

    What a call leaves of the baton: no call but its holder's own takes it away. *)

From S2P Require Import Prelude Owners Sched SchedWf SchedSys SchedOps.

Create Rewrite HintDb baton.

Lemma holder_set_runnable t why st : holder (set_runnable t why st) = holder st.
Proof. unfold set_runnable. by destruct (slot t st). Qed.
Lemma holder_set_runnable_if_not t why st : holder (set_runnable_if_not t why st) = holder st.
Proof. unfold set_runnable_if_not. destruct (slot t st) as [s|]; [|done]. destruct (is_some _); [done|apply holder_set_runnable]. Qed.
Lemma holder_take_runnable t st : holder (snd (take_runnable t st)) = holder st.
Proof. unfold take_runnable. by destruct (_ ≫= _). Qed.
Lemma holder_take_blocked t st : holder (snd (take_blocked t st)) = holder st.
Proof. unfold take_blocked. by destruct (_ ≫= _) as [[]|]. Qed.
Lemma holder_set_blocked t b st : holder (set_blocked t b st) = holder st.
Proof. unfold set_blocked. by destruct (slot t st). Qed.
Lemma holder_unblock t why st : holder (unblock t why st) = holder st.
Proof.
  unfold unblock. pose proof (holder_take_blocked t st) as H. destruct (take_blocked t st) as [[b|] st']; cbn in H; [|done].
  by rewrite holder_set_runnable.
Qed.
Lemma holder_each_thread f st : (∀ t s st, holder (f t s st) = holder st) → holder (each_thread f st) = holder st.
Proof.
  intros Hf. unfold each_thread. generalize (seq 0 (length (threads st))) as idxs. intros idxs. revert st.
  induction idxs as [|i idxs IH]; intros st; [done|]. cbn. rewrite IH. by destruct (threads st !! i) as [[]|].
Qed.
Lemma holder_wake_oldest n w why st : holder (wake_oldest n w why st) = holder st.
Proof. revert st. induction n as [|n IH]; intros st; [done|]. cbn. destruct (oldest _ _) as [[]|]; [|done]. by rewrite IH, holder_unblock. Qed.
Lemma holder_wake_key_matching k n why m st : holder (snd (wake_key_matching k n why m st)) = holder st.
Proof.
  unfold wake_key_matching. destruct (_ <=? n); cbn; [|apply holder_wake_oldest]. apply holder_each_thread. intros t s st'.
  destruct (is_some _); [apply holder_unblock|done].
Qed.
Lemma holder_wake_key k n why st : holder (snd (wake_key k n why st)) = holder st.
Proof. apply holder_wake_key_matching. Qed.
Lemma holder_wake_readiness_key ev st : holder (snd (wake_readiness_key ev st)) = holder st.
Proof. apply holder_wake_key_matching. Qed.
Lemma holder_release_due_matching now m st : holder (release_due_matching now m st) = holder st.
Proof.
  unfold release_due_matching. destruct now; [|done]. apply holder_each_thread. intros t s st'.
  destruct (blocked s) as [[]|]; [|done]. destruct (_ && _); [apply holder_unblock|done].
Qed.
Lemma holder_release_due now st : holder (release_due now st) = holder st.
Proof. apply holder_release_due_matching. Qed.
Lemma holder_repoll m st : holder (repoll_addr_waiters m st) = holder st.
Proof.
  apply holder_each_thread. intros t s st'. destruct (blocked s) as [[]|]; [|done]. destruct (should_repoll _ _); [|done].
  cbn. apply holder_unblock.
Qed.
Lemma holder_settle t k st : holder (settle_repoll t k st) = holder st.
Proof. unfold settle_repoll. destruct (_ ≫= _); [|done]. destruct (bool_decide _); [done|]. by destruct (note _ _). Qed.
Lemma holder_explain k st : holder (explain k st) = holder st.
Proof. done. Qed.
Lemma holder_wake_foreign_locked w st : holder (snd (wake_foreign_locked w st)) = holder st.
Proof.
  unfold wake_foreign_locked. pose proof (holder_wake_key_matching (wkey w) (wcount w) Woken (scoped (wmask w) (wscope w)) st) as H.
  destruct (wake_key_matching _ _ _ _ _) as [n st']. cbn in *. by destruct (n =? 0).
Qed.
Lemma holder_take_foreign s : holder (state (take_foreign s)) = holder (state s).
Proof.
  cbn. generalize (state s) as st. induction (foreign_queue s) as [|w ws IH]; intros st; [done|]. cbn. by rewrite IH, holder_wake_foreign_locked.
Qed.
Lemma holder_wake_outside k n st : holder (snd (wake_outside k n st)) = holder st.
Proof. unfold wake_outside. by destruct (outside_pass _ _ _) as [[]]. Qed.
Lemma holder_disown me st : holder (snd (disown me st)) = holder st.
Proof.
  unfold disown. generalize (Z.to_nat OWNED_MUTEXES) as fuel. intros fuel. revert st. induction fuel as [|fuel IH]; intros st; [done|].
  cbn [disown_loop]. destruct (held_by _ _) as [a|]; [|done]. set (st1 := with_owners _ st).
  pose proof (holder_wake_key (Addr a) everyone Woken st1) as H. destruct (wake_key _ _ _ _) as [n st2]. cbn [snd] in *. by rewrite IH.
Qed.
Lemma holder_kept_if_idle st t : holder st = Some t → grant_if_idle st = st.
Proof. intros H. unfold grant_if_idle. by rewrite H. Qed.
#[export] Hint Rewrite holder_set_runnable holder_set_runnable_if_not holder_take_runnable holder_take_blocked holder_set_blocked
  holder_unblock holder_wake_key_matching holder_wake_key holder_wake_readiness_key holder_release_due_matching holder_release_due
  holder_repoll holder_settle holder_wake_foreign_locked holder_take_foreign holder_wake_outside holder_disown holder_lock : baton.

(** The calls in which [t] itself lets go of the baton *)
Definition lets_go_itself (t : Z) (a : Act) : bool :=
  match a with
  | ABlock u _ _ _ _ | AYield u _ | AExit u _ | ADetach u => u =? t
  | ARelease => t =? EXTERNAL
  | _ => false
  end.

Section kept.
Context (t : Z).
Implicit Types (s : Scheduler).

(** A locked section that wakes threads and hands on a baton it finds free. *)
Lemma holder_woken s st' : holder st' = Some t → holder (state (with_state (grant_if_idle st') s)) = Some t.
Proof. intros H. cbn. by rewrite (holder_kept_if_idle _ t). Qed.

Ltac woken H := apply holder_woken; autorewrite with baton; cbn; autorewrite with baton; exact H.
Ltac counted H := destruct (0 <? _); [woken H|cbn; autorewrite with baton; cbn; autorewrite with baton; exact H].

Lemma kept_spawned u s : holder (state s) = Some t → holder (state (spawned u s)) = Some t.
Proof. intros H. unfold spawned. destruct (detached (lock s)); [by rewrite holder_lock|woken H]. Qed.
Lemma kept_attach u s : holder (state s) = Some t → holder (state (snd (attach_thread u s))) = Some t.
Proof.
  intros H. unfold attach_thread. destruct (bool_decide _); cbn [snd]; [cbn; by rewrite holder_lock|woken H].
Qed.
Lemma kept_enter_root u s : holder (state s) = Some t → holder (state (snd (enter_root u s))) = Some t.
Proof.
  intros H. unfold enter_root. cbn [holder with_roots state lock_slot with_state with_threads]. rewrite holder_lock, H. cbn.
  autorewrite with baton. cbn. by rewrite holder_lock.
Qed.
Lemma kept_unspawned u s : holder (state s) = Some t → holder (state (unspawned u s)) = Some t.
Proof. intros H. unfold unspawned. cbn. by autorewrite with baton. Qed.
Lemma kept_started u s : holder (state s) = Some t → holder (state (snd (started u s))) = Some t.
Proof. intros H. unfold started. destruct (_ && _); cbn; by autorewrite with baton. Qed.
Lemma kept_detach_thread u s : u ≠ t → holder (state s) = Some t → holder (state (detach_thread u s)) = Some t.
Proof.
  intros Hu H. unfold detach_thread. set (st1 := upd u (set_grant forget) _).
  assert (holder st1 = Some t) as H1 by (unfold st1; cbn; by autorewrite with baton).
  pose proof (holder_disown u st1) as Hd. destruct (disown u st1) as [dis st2]. cbn [snd] in Hd.
  rewrite bool_decide_false by congruence. destruct dis; cbn; [|congruence]. rewrite (holder_kept_if_idle _ t); congruence.
Qed.
Lemma kept_exit u root s : u ≠ t → holder (state s) = Some t → holder (state (exit u root s)) = Some t.
Proof.
  intros Hu H. unfold exit. cbv zeta. cbn [state]. set (st6 := snd (wake_key (Exit u) everyone Woken _)).
  assert (holder st6 = Some t) as H6.
  { unfold st6. autorewrite with baton. cbn. autorewrite with baton. cbn. autorewrite with baton. destruct root; cbn; by autorewrite with baton. }
  rewrite bool_decide_false by congruence. by rewrite (holder_kept_if_idle _ t).
Qed.
Lemma kept_take_let_go u s : holder (state (snd (take_let_go u s))) = holder (state s).
Proof. unfold take_let_go. destruct (slot _ _) as [sl|]; [|done]. by destruct (let_go sl). Qed.
Lemma kept_block u b now m rs s r s' : u ≠ t → holder (state s) = Some t → block u b now m rs s = Some (r, s') → holder (state s') = Some t.
Proof.
  intros Hu H. unfold block. destruct (match deadline b with Some _ => _ | None => _ end); [by intros [= <- <-]|].
  rewrite <- holder_lock in H. generalize dependent (lock s). intros s1 H. rewrite bool_decide_false by congruence.
  pose proof (kept_take_let_go u s1) as Hk. destruct (take_let_go u s1) as [gone s2]. cbn [snd] in Hk.
  destruct (gone && _); [intros [= <- <-]; cbn; autorewrite with baton; cbn; congruence|].
  rewrite bool_decide_false by congruence. cbn. intros [= <- <-]. congruence.
Qed.
Lemma kept_yield u rs s r s' : u ≠ t → holder (state s) = Some t → yield_now u rs s = Some (r, s') → holder (state s') = Some t.
Proof.
  intros Hu H. unfold yield_now. rewrite holder_lock, bool_decide_false by congruence. intros [= <- <-]. by rewrite holder_lock.
Qed.
Lemma kept_spin_begin u c s : holder (state s) = Some t → holder (state (snd (spin_begin u c s))) = Some t.
Proof. intros H. unfold spin_begin. destruct (negb _); cbn; by autorewrite with baton. Qed.
Lemma kept_spin_advanced now tw m s : holder (state s) = Some t → holder (state (spin_advanced now tw m s)) = Some t.
Proof. intros H. unfold spin_advanced. destruct tw; cbn; by autorewrite with baton. Qed.
Lemma kept_wait_outside u k s : holder (state s) = Some t → holder (state (wait_outside u k s)) = Some t.
Proof. intros H. cbn. by autorewrite with baton. Qed.
Lemma kept_rejoin u s : holder (state s) = Some t → holder (state (snd (rejoin u s))) = Some t.
Proof.
  intros H. unfold rejoin. destruct (_ =? 0); [done|]. set (s1 := with_state _ (lock s)).
  assert (holder (state s1) = Some t) as H1 by (cbn; by rewrite holder_lock). clearbody s1. destruct (detached s1); [done|].
  pose proof (kept_take_let_go u s1) as Hk. destruct (take_let_go u s1) as [[] s2]; cbn [snd] in *; [|congruence].
  destruct (bool_decide _); cbn [snd]; [congruence|]. apply holder_woken. autorewrite with baton. congruence.
Qed.
Lemma kept_take_grant u s g s' : holder (state s) = Some t → take_grant u s = Some (g, s') → holder (state s') = Some t.
Proof.
  intros H. unfold take_grant. destruct (slot _ _) as [sl|]; [|done]. cbn. destruct (grant sl); [|done]. cbn. by intros [= _ <-].
Qed.
Lemma kept_park_dispatch rs s s' d : holder (state s) = Some t → park_dispatch rs s = Some (s', d) → holder (state s') = Some t.
Proof. intros H. unfold park_dispatch. rewrite holder_lock, H. cbn. intros [= <- _]. by rewrite holder_lock. Qed.
Lemma kept_resume dr r rs s s' d : holder (state s) = Some t → resume dr r rs s = Some (s', d) → holder (state s') = Some t.
Proof. intros H. unfold resume. rewrite holder_lock, H. cbn. intros [= <- _]. by rewrite holder_lock. Qed.
Lemma kept_repoll_if_spoiled u s : holder (state s) = Some t → holder (state (repoll_if_spoiled u s)) = Some t.
Proof. intros H. unfold repoll_if_spoiled. destruct (_ ≫= _); [woken H|by rewrite holder_lock]. Qed.
Lemma kept_wake_thread u s : holder (state s) = Some t → holder (state (wake_thread u s)) = Some t.
Proof. intros H. woken H. Qed.
Lemma kept_wake_masked k n m p s : holder (state s) = Some t → holder (state (snd (wake_masked k n m p s))) = Some t.
Proof.
  intros H. unfold wake_masked. pose proof (holder_wake_key_matching k n Woken (scoped m p) (explain k (state (lock s)))) as H1.
  rewrite holder_explain, holder_lock in H1. destruct (wake_key_matching _ _ _ _ _) as [w st1]. cbn [snd] in H1.
  pose proof (holder_wake_outside k (n - w) st1) as H2. destruct (wake_outside _ _ _) as [w2 st2]. cbn [snd] in H2.
  destruct (_ && _); cbn [snd]; (destruct (0 <? _); [apply holder_woken; congruence|cbn; congruence]).
Qed.
Lemma kept_wake_foreign w s : holder (state s) = Some t → holder (state (snd (wake_foreign w s))) = Some t.
Proof.
  intros H. unfold wake_foreign. pose proof (holder_wake_foreign_locked w (state (lock s))) as H1. rewrite holder_lock in H1.
  destruct (wake_foreign_locked _ _) as [n st1]. cbn [snd] in *. destruct (0 <? n); [apply holder_woken; congruence|cbn; congruence].
Qed.
Lemma kept_wake_readiness ev s : holder (state s) = Some t → holder (state (snd (wake_readiness ev s))) = Some t.
Proof.
  intros H. unfold wake_readiness. pose proof (holder_wake_readiness_key ev (state (lock s))) as H1.
  rewrite holder_lock in H1. destruct (wake_readiness_key _ _) as [w st1]. cbn [snd] in H1.
  pose proof (holder_wake_outside Readiness everyone st1) as H2. destruct (wake_outside _ _ _) as [w2 st2]. cbn [snd] in H2.
  destruct (detached _); cbn [snd]; (destruct (0 <? _); [apply holder_woken; congruence|cbn; congruence]).
Qed.
Lemma kept_kick now tw m s : holder (state s) = Some t → holder (state (kick now tw m s)) = Some t.
Proof. intros H. unfold kick. destruct tw; woken H. Qed.
Lemma kept_release_external s : t ≠ EXTERNAL → holder (state s) = Some t → holder (state (release_external s)) = Some t.
Proof. intros Ht H. unfold release_external, held_externally. rewrite holder_lock, bool_decide_false by congruence. by rewrite holder_lock. Qed.
Lemma kept_acquire s s' : holder (state s) = Some t → acquire_external s ≠ Some s'.
Proof. intros H. unfold acquire_external, idle. rewrite holder_lock, H. done. Qed.

End kept.

Lemma holder_step a s s' t : step a s = Some s' → holder (st s) = Some t → lets_go_itself t a = false → holder (st s') = Some t.
Proof.
  intros E H Ha. unfold stays, goes in E. destruct a; cbn [step lets_go_itself] in *; try (injection E as <-; cbn [sch]).
  - destruct (pc s t0); try done. destruct (_ =? EXTERNAL); [done|]. pose proof (kept_enter_root t t0 (sch s) H).
    destruct (enter_root _ _). by injection E as <-.
  - destruct (pc s t0), (slot t0 (st s)); try done. destruct (_ =? EXTERNAL); [done|]. injection E as <-. by apply kept_spawned.
  - destruct (pc s t0); try done. injection E as <-. by apply kept_unspawned.
  - destruct (pc s t0); try done. pose proof (kept_started t t0 (sch s) H). destruct (started _ _). by injection E as <-.
  - destruct (pc s t0); try done. destruct (_ =? EXTERNAL); [done|]. pose proof (kept_attach t t0 (sch s) H). destruct (attach_thread _ _). by injection E as <-.
  - destruct (pc s t0); try done; injection E as <-; (apply kept_detach_thread; [by apply Z.eqb_neq|done]).
  - destruct (pc s t0); try done; (destruct (_ =? EXTERNAL); [done|]); injection E as <-; (apply kept_exit; [by apply Z.eqb_neq|done]).
  - destruct (pc s t0); try done; (destruct (block _ _ _ _ _ _) as [[r s1]|] eqn:Eb; [|done]); injection E as <-;
      (eapply kept_block; [by apply Z.eqb_neq|done|exact Eb]).
  - destruct (pc s t0); try done; (destruct (yield_now _ _ _) as [[r s1]|] eqn:Eb; [|done]); injection E as <-;
      (eapply kept_yield; [by apply Z.eqb_neq|done|exact Eb]).
  - destruct (pc s t0); try done; injection E as <-; by apply kept_spin_begin.
  - destruct (pc s t0); try done. destruct (bool_decide _); [|done]. injection E as <-. by apply kept_spin_advanced.
  - cbn. by autorewrite with baton.
  - destruct (pc s t0); try done; injection E as <-; by apply kept_wait_outside.
  - pose proof (kept_rejoin t t0 (sch s) H). destruct (rejoin _ _). destruct (pc s t0); try done; by injection E as <-.
  - destruct (pc s t0), (take_grant t0 (sch s)) as [[[why|] s1]|] eqn:Eg; try done. injection E as <-. by eapply kept_take_grant.
  - destruct (pc s t0), (take_grant t0 (sch s)) as [[[why|] s1]|] eqn:Eg; try done.
    destruct (park_dispatch rs s1) as [[s2 d]|] eqn:Ed; [|done]. injection E as <-. eapply kept_park_dispatch; [|exact Ed]. by eapply kept_take_grant.
  - destruct (pc s t0); try done. destruct (resume _ _ _ _) as [[s2 d2]|] eqn:Ed; [|done]. injection E as <-. by eapply kept_resume.
  - destruct (pc s t0); try done. injection E as <-. by apply kept_repoll_if_spoiled.
  - by apply kept_wake_thread.
  - destruct (0 <=? n); [|done]. injection E as <-. by apply kept_wake_masked.
  - destruct (0 <=? _); [|done]. injection E as <-. by apply kept_wake_foreign.
  - destruct (0 <=? _); [|done]. injection E as <-. unfold queue_foreign. destruct (_ <? CAPACITY); [done|]. by apply kept_wake_foreign.
  - by apply kept_wake_readiness.
  - by apply kept_kick.
  - unfold release_due_at. apply holder_woken. by autorewrite with baton.
  - unfold release_due_native_at. apply holder_woken. by autorewrite with baton.
  - destruct (rmutex r =? 0); [done|]. injection E as <-. cbn. by autorewrite with baton.
  - destruct (rmutex r =? 0); [done|]. injection E as <-. unfold queue_owner. destruct (_ <? CAPACITY); [done|]. cbn. by autorewrite with baton.
  - destruct (acquire_external (sch s)) as [s1|] eqn:Ea; [|done]. by apply (kept_acquire t) in Ea.
  - apply kept_release_external; [by apply Z.eqb_neq|done].
  - unfold take_unexplained. destruct (take_keys (unexplained (state (lock (sch s))))). cbn. by autorewrite with baton.
  - cbn. by autorewrite with baton.
Qed.
