(* ===== verification/SchedProps.v ===== *)
(** * What the schedule promises

    The invariants of every run of the schedule's threads, that one of them runs at a time, that
    none is lost, and the order they run in; and the runs in which the code breaks these. *)

From S2P Require Import Prelude Owners Sched SchedWf SchedWake SchedSys SchedInv SchedOps SchedCalls SchedBaton.

Lemma default_inv : inv (λ _, Away) sched_default.
Proof.
  split; [split; [split|..]|done|eexists; apply default_represents|done]; try done.
  constructor.
Qed.

(** ** Every act keeps the invariants *)

Lemma here_thread at_ sc t : inv at_ sc → at_ t ≠ Away → t ≠ EXTERNAL.
Proof. intros [Hc _ _ _] Hp ->. by destruct (co_external _ _ _ _ _ Hc). Qed.

Lemma inv_elsewhere at_ t p sc : inv at_ sc → t ≠ EXTERNAL → at_ t = Parked ∨ (∃ d, at_ t = Driving d) → inv (moved t (driven p) at_) sc.
Proof.
  intros [Hc Hb Hm Hr] Ht Hp. split; [|done..]. eapply core_move; [done|done| |by destruct p].
  pose proof (co_fits _ _ _ _ _ Hc t Ht) as Hf. destruct Hp as [Hp|[d Hp]]; rewrite Hp in Hf; by destruct p.
Qed.

Lemma step_inv a s s' : step a s = Some s' → leaves_behind a s = false → inv (pc s) (sch s) → inv (pc s') (sch s').
Proof.
  intros E Hcl H. pose proof (here_thread (pc s) (sch s)) as Hh. unfold stays, goes in E. destruct a; cbn [step leaves_behind] in *.
  - destruct (pc s t) eqn:Hp; try done. destruct (Z.eqb_spec t EXTERNAL); [done|].
    pose proof (enter_root_inv (pc s) t ltac:(done) (sch s) Hp H) as H'. destruct (enter_root t (sch s)) as [parks s1]. by injection E as <-.
  - destruct (pc s t) eqn:Hp; try done. destruct (slot t (st s)) eqn:Hs; [done|]. destruct (Z.eqb_spec t EXTERNAL); [done|]. injection E as <-.
    by apply spawned_inv.
  - destruct (pc s t) eqn:Hp; try done. injection E as <-. apply bool_decide_eq_false in Hcl. apply unspawned_inv; try done.
    by apply Hh; [|rewrite Hp].
  - destruct (pc s t) eqn:Hp; try done. assert (t ≠ EXTERNAL) as Ht by by apply Hh; [|rewrite Hp].
    pose proof (started_inv (pc s) t Ht (sch s) Hp) as H'. destruct (started t (sch s)) as [parks s1]. injection E as <-. apply H'; [|done].
    destruct (detached (sch s)); [by left|right]. by destruct (slot t (st s)).
  - destruct (pc s t) eqn:Hp; try done. destruct (Z.eqb_spec t EXTERNAL); [done|].
    pose proof (attach_thread_inv (pc s) t ltac:(done) (sch s) Hp H) as H'. destruct (attach_thread t (sch s)) as [parks s1]. by injection E as <-.
  - destruct (pc s t) eqn:Hp; try done; injection E as <-; assert (t ≠ EXTERNAL) as Ht by by apply Hh; [|rewrite Hp].
    + apply detach_thread_inv; try done. destruct (at_rest (pc s) t Ht (sch s) Hp H) as (sl & Hsl & _). by rewrite Hsl in *.
    + by apply detach_let_through.
  - destruct (pc s t) eqn:Hp; try done; (destruct (Z.eqb_spec t EXTERNAL); [done|]); injection E as <-.
    1: by apply exit_inv; [|right|].
    1: by apply exit_inv; [|left|].
    pose proof (inv_let_through _ t ltac:(done) _ Hp H) as H'. apply (exit_inv _ t ltac:(done) root) in H' as [[Hc Hb Hm Hr] _];
      [|right; unfold moved; by rewrite Z.eqb_refl]. split; [|done..]. eapply core_ext; [exact Hc|]. intros u. symmetry. apply moved_moved.
  - destruct (pc s t) eqn:Hp; try done; (destruct (block _ _ _ _ _ _) as [[r s1]|] eqn:Eb; [|done]); injection E as <-;
      assert (t ≠ EXTERNAL) as Ht by by apply Hh; [|rewrite Hp].
    + eapply block_inv; [done|done| |done|exact Eb]. intros Hd. destruct (at_rest (pc s) t Ht (sch s) Hp H) as (sl & Hsl & _ & _ & _ & [[? _]|[Hn Hl]]); [done|].
      rewrite Hd, Hsl, Hl, bool_decide_false in Hcl by done. done.
    + by eapply block_let_through.
  - destruct (pc s t) eqn:Hp; try done; (destruct (yield_now _ _ _) as [[r s1]|] eqn:Eb; [|done]); injection E as <-;
      assert (t ≠ EXTERNAL) as Ht by by apply Hh; [|rewrite Hp].
    + by eapply yield_now_inv.
    + by eapply yield_let_through.
  - destruct (pc s t) eqn:Hp; try done; injection E as <-; by apply spin_begin_inv.
  - destruct (pc s t) eqn:Hp; try done. destruct (bool_decide _) eqn:Eh; [|done]. injection E as <-. apply bool_decide_eq_true in Eh. by eapply spin_advanced_inv.
  - injection E as <-. by apply unspin_inv.
  - destruct (pc s t) eqn:Hp; try done; injection E as <-; assert (t ≠ EXTERNAL) as Ht by by apply Hh; [|rewrite Hp].
    + by apply wait_outside_inv.
    + rewrite (proj1 (let_through _ t Ht _ Hp H)). by apply wait_outside_let_through.
  - assert (pc s t = Free ∨ pc s t ≠ Free) as [Hp|Hn] by (destruct (pc s t); tauto || by right).
    { assert (t ≠ EXTERNAL) as Ht by by apply Hh; [|rewrite Hp]. pose proof (rejoin_let_through (pc s) t Ht (sch s) Hp H) as H'.
      rewrite Hp in E. destruct (rejoin t (sch s)) as [parks s1]. by injection E as <-. }
    assert (pc s t = Code ∨ pc s t = Native) as Hp by (destruct (pc s t); try done; tauto).
    assert (t ≠ EXTERNAL) as Ht by (apply Hh; [done|destruct Hp as [->| ->]; done]).
    pose proof (rejoin_inv (pc s) t Ht (sch s) Hp H) as H'. destruct (rejoin t (sch s)) as [parks s1].
    destruct Hp as [Hp|Hp]; rewrite Hp in E; by injection E as <-.
  - destruct (pc s t) eqn:Hp; try done. destruct (take_grant t (sch s)) as [[[why|] s1]|] eqn:Eg; try done. injection E as <-.
    eapply take_run_inv; [|done|done|exact Eg]. by apply Hh; [|rewrite Hp].
  - destruct (pc s t) eqn:Hp; try done. destruct (take_grant t (sch s)) as [[[why|] s1]|] eqn:Eg; try done.
    assert (t ≠ EXTERNAL) as Ht by by apply Hh; [|rewrite Hp]. apply (take_dispatch_inv (pc s)) in Eg; [|done..].
    destruct (park_dispatch rs s1) as [[s2 d]|] eqn:Ed; [|done]. injection E as <-. apply (park_dispatch_inv (pc s)) in Ed; [|done].
    apply inv_elsewhere; [done|done|by left].
  - destruct (pc s t) eqn:Hp; try done. destruct (resume d r rs (sch s)) as [[s2 d2]|] eqn:Ed; [|done]. injection E as <-.
    apply (resume_inv (pc s)) in Ed; [|done]. apply inv_elsewhere; [done|by apply Hh; [|rewrite Hp]|right; by eexists].
  - destruct (pc s t) eqn:Hp; try done. injection E as <-. by apply repoll_if_spoiled_inv.
  - injection E as <-. by apply wake_thread_inv.
  - destruct (Z.leb_spec 0 n); [|done]. injection E as <-. by apply wake_masked_inv.
  - destruct (Z.leb_spec 0 (wcount w)); [|done]. injection E as <-. by apply wake_foreign_inv.
  - destruct (Z.leb_spec 0 (wcount w)); [|done]. injection E as <-. by apply queue_foreign_inv.
  - injection E as <-. by apply wake_readiness_inv.
  - injection E as <-. by apply kick_inv.
  - injection E as <-. by apply release_due_at_inv.
  - injection E as <-. by apply release_due_native_at_inv.
  - destruct (Z.eqb_spec (rmutex r) 0); [done|]. injection E as <-. by apply record_owner_inv.
  - destruct (Z.eqb_spec (rmutex r) 0); [done|]. injection E as <-. by apply queue_owner_inv.
  - destruct (acquire_external (sch s)) as [s1|] eqn:Ea; [|done]. injection E as <-. by eapply acquire_external_inv.
  - injection E as <-. by apply release_external_inv.
  - injection E as <-. by apply take_unexplained_inv.
  - injection E as <-. by apply record_handle_inv.
Qed.

Lemma run_inv acts s s' : run acts s = Some s' → clean acts s = true → inv (pc s) (sch s) → inv (pc s') (sch s').
Proof.
  revert s. induction acts as [|a acts IH]; intros s; cbn [run clean]; [by intros [= <-]|].
  intros E [Hl%negb_true_iff Hc]%andb_true_iff H. destruct (step a s) as [s1|] eqn:Es; [|done]. cbn in E. eapply IH; [done|done|].
  by eapply step_inv.
Qed.

(** ** What every run keeps *)

(** Whatever the threads of a domain do, in whatever order their calls reach the schedule, the
    schedule's tables stay right: the threads are in order of lineage, the counts of ready and
    waiting threads are exact, a thread is at most one of ready and waiting and the holder of the
    baton is neither, no two waiters began to wait at the same turn, and the threads let go are
    counted. Runs in which the code loses a thread (see [leaves_behind]) are left out. *)
Theorem schedule_tables_right acts s : run acts sys_default = Some s → clean acts sys_default = true →
  ordered (threads (st s)) ∧ n_runnable (st s) = cnt ready (threads (st s)) ∧ n_blocked (st s) = cnt waits_in (threads (st s)) ∧
  let_go_n (sch s) = cnt let_go (threads (st s)) ∧
  (∀ t sl, slot t (st s) = Some sl → (runnable sl = None ∨ blocked sl = None) ∧
    (holder (st s) = Some t → runnable sl = None ∧ blocked sl = None)) ∧
  (∀ t u sl sl' b b' o, slot t (st s) = Some sl → slot u (st s) = Some sl' →
    blocked sl = Some (b, o) → blocked sl' = Some (b', o) → t = u).
Proof.
  intros E Hc. pose proof (run_inv _ _ _ E Hc default_inv) as [[Hw Hf He Hl _] _ _ _]. split_and!; try apply Hw; try done.
  - intros t sl Hs. split; [by apply (sw_slots _ Hw t sl Hs)|]. intros Hh.
    assert (t ≠ EXTERNAL) as Ht by (intros ->; destruct He; congruence). specialize (Hf t Ht). rewrite Hs, bool_decide_true in Hf by done.
    apply fits_held in Hf as (? & ? & _). done.
Qed.

(** A thread runs the code under test as a thread of the schedule: the schedule has neither let it
    through at its first act while it was detached ([Free]) nor let it go when it detached. *)
Definition scheduled (s : Sys) (t : Z) : Prop :=
  pc s t = Code ∧ match slot t (st s) with Some sl => let_go sl = false | None => True end.

(** C1: in a run in which no call leaves a thread behind, at most one thread runs at a time: of the
    threads running the code under test, all but those the schedule let go when it detached, and
    those whose first act it let through while it was detached, are the one thread that holds the
    baton. The calls left out ([leaves_behind]) are four: a thread let go leaves the schedule
    (detach_thread); a thread created while the schedule was detached finds it attached at its first
    act; a thread already granted the baton fails to be created; a thread let go begins a wait that
    finds the schedule detached anew. *)
Theorem one_thread_runs acts s t u : run acts sys_default = Some s → clean acts sys_default = true →
  scheduled s t → scheduled s u → t = u ∧ holder (st s) = Some t.
Proof.
  intros E Hc. pose proof (run_inv _ _ _ E Hc default_inv) as Hi.
  assert (∀ v, scheduled s v → holder (st s) = Some v) as H.
  { intros v [Hp Hl]. destruct (at_rest (pc s) v (here_thread _ _ v Hi ltac:(by rewrite Hp)) (sch s) Hp Hi) as (sl & Hs & _ & _ & _ & Hcase).
    rewrite Hs in Hl. destruct Hcase as [[? _]|[_ ?]]; [done|congruence]. }
  intros Ht%H Hu%H. split; [congruence|done].
Qed.

(** C7: in a run in which no call leaves a thread behind (the four calls of [leaves_behind]: a thread
    let go leaves the schedule; a thread created while it was detached finds it attached at its first
    act; a thread granted the baton fails to be created; a thread let go begins a wait that finds it
    detached anew), no thread is lost: one parked in the schedule holds the baton and has its grant,
    or is ready while another has the baton, or waits for something, or was let go and told so; when
    a thread is ready the baton is held; and whoever holds it runs or has its grant. *)
Theorem no_thread_lost acts s : run acts sys_default = Some s → clean acts sys_default = true →
  (∀ t, (pc s t = Parked ∨ ∃ d, pc s t = Driving d) → ∃ sl, slot t (st s) = Some sl ∧
    ((holder (st s) = Some t ∧ is_run (grant sl) = true) ∨ (ready sl = true ∧ ∃ u, u ≠ t ∧ holder (st s) = Some u) ∨
     waits_in sl = true ∨ (let_go sl = true ∧ is_run (grant sl) = true))) ∧
  (0 < n_runnable (st s) → holder (st s) ≠ None) ∧
  (∀ t, t ≠ EXTERNAL → holder (st s) = Some t → pc s t = Code ∨ ∃ sl, slot t (st s) = Some sl ∧ is_run (grant sl) = true).
Proof.
  intros E Hc. pose proof (run_inv _ _ _ E Hc default_inv) as Hi. pose proof Hi as [[Hw Hf He Hl Hd] Hb _ _]. split_and!.
  - intros t Hp. assert (t ≠ EXTERNAL) as Ht by (apply (here_thread _ _ t Hi); destruct Hp as [->|[d ->]]; done).
    assert (match slot t (st s) with Some sl => parked_fits (holds_baton (holder (st s)) t) sl | None => False end) as Hfit.
    { specialize (Hf t Ht). destruct Hp as [Hp|[d Hp]]; rewrite Hp in Hf; by destruct (slot t (st s)). }
    destruct (slot t (st s)) as [sl|] eqn:Es; [|done]. exists sl. split; [done|].
    destruct Hfit as (_ & [(Hh%bool_decide_eq_true & _ & Hg & _)|[(Hh%bool_decide_eq_false & Hr & _)|[(_ & _ & Hbl & _)|(_ & _ & Hg & Hlg)]]]).
    + by left.
    + right. left. assert (ready sl = true) as Hrd by (unfold ready; by destruct (runnable sl)). split; [done|].
      destruct (holder (st s)) as [u|] eqn:Eh; [exists u; split; congruence|]. exfalso. specialize (Hb Eh).
      rewrite (sw_runnable _ Hw), (cnt_zero _ _ (sw_ordered _ Hw)) in Hb. rewrite (Hb t sl Es) in Hrd. done.
    + right. right. left. unfold waits_in. by destruct (blocked sl).
    + right. right. by right.
  - intros Hn Hh. specialize (Hb Hh). lia.
  - intros t Ht Hh. specialize (Hf t Ht). rewrite bool_decide_true in Hf by done. destruct (slot t (st s)) as [sl|] eqn:Es; [|by destruct (pc s t)].
    destruct (pc s t); cbn in Hf; unfold parked_fits in Hf; [naive_solver| |by left|..]; right; exists sl; (split; [done|]); naive_solver.
Qed.

(** The baton passes only where its holder waits, yields or leaves (or, for an executive, gives it
    back): no call of any other thread, inside the schedule or outside it, takes it away, whatever
    was done before. *)
Theorem baton_passes_at_waits acts a s s' t : run acts sys_default = Some s → step a s = Some s' →
  holder (st s) = Some t → holder (st s') ≠ Some t → lets_go_itself t a = true.
Proof. intros _ E Hh Hn. destruct (lets_go_itself t a) eqn:Ea; [done|]. destruct Hn. by eapply holder_step. Qed.

(** ** Witnesses *)

Lemma two_ready_ends : run two_ready sys_default = Some two_ready_end.
Proof. vm_compute. reflexivity. Qed.

Lemma schedule_tables_right_witness :
  n_runnable (st two_ready_end) = 2 ∧ cnt ready (threads (st two_ready_end)) = 2 ∧
  ∀ sl, slot 2 (st two_ready_end) = Some sl → runnable sl = None ∧ blocked sl = None.
Proof.
  destruct (schedule_tables_right two_ready two_ready_end two_ready_ends ltac:(vm_compute; reflexivity)) as (_ & Hn & _ & _ & Hs & _).
  split; [reflexivity|]. split; [rewrite <- Hn; reflexivity|]. intros sl Hsl. exact (proj2 (Hs 2 sl Hsl) ltac:(vm_compute; reflexivity)).
Defined.

Lemma one_thread_runs_witness : scheduled two_ready_end 2 ∧ ∀ u, scheduled two_ready_end u → 2 = u.
Proof.
  assert (scheduled two_ready_end 2) as H2 by (vm_compute; split; reflexivity). split; [exact H2|]. intros u Hu.
  exact (proj1 (one_thread_runs two_ready two_ready_end 2 u two_ready_ends ltac:(vm_compute; reflexivity) H2 Hu)).
Defined.

Lemma no_thread_lost_witness : pc two_ready_end 3 = Parked ∧ ∃ u, u ≠ 3 ∧ holder (st two_ready_end) = Some u.
Proof.
  split; [reflexivity|].
  destruct (no_thread_lost two_ready two_ready_end two_ready_ends ltac:(vm_compute; reflexivity)) as (Hp & _ & _).
  destruct (Hp 3 (or_introl eq_refl)) as (sl & Hs & Hcase). vm_compute in Hs. injection Hs as <-.
  destruct Hcase as [[Hh _]|[[_ Hu]|[Hw|[Hl _]]]]; [vm_compute in Hh; discriminate|exact Hu|vm_compute in Hw; discriminate|vm_compute in Hl; discriminate].
Defined.

Lemma baton_passes_at_waits_witness :
  lets_go_itself 2 (AYield 2 [nothing]) = true ∧ holder (st two_ready_end) = Some 2 ∧
  is_some (step (AYield 2 [nothing]) two_ready_end) = true.
Proof.
  split; [|split; vm_compute; reflexivity].
  destruct (step (AYield 2 [nothing]) two_ready_end) as [s'|] eqn:E; [|vm_compute in E; discriminate].
  refine (baton_passes_at_waits two_ready (AYield 2 [nothing]) two_ready_end s' 2 two_ready_ends E eq_refl _).
  vm_compute in E. injection E as <-. vm_compute. discriminate.
Defined.

(** ** The order the baton goes round

    The grants of a schedule go round the lineages: no thread gets the baton twice while another
    stays ready to run. *)

Definition is_lineage (t : Z) : Prop := 0 ≤ t < 2 ^ 64.
(** How many lineages lie after [l] and before [t], going up and around. *)
Definition gap (l t : Z) : Z := (t - l - 1) mod 2 ^ 64.

Lemma gap_eq l t : is_lineage l → is_lineage t → gap l t = if l <? t then t - l - 1 else t - l - 1 + 2 ^ 64.
Proof.
  unfold gap, is_lineage. intros Hl Ht. destruct (Z.ltb_spec l t).
  - apply Z.mod_small. lia.
  - symmetry. apply (Z.mod_unique_pos _ _ (-1)); lia.
Qed.

(** The state of a schedule in which [t] is ready to run. *)
Record queued (t : Z) (st : State) : Prop := {
  qu_wf : st_wf st;
  qu_last : is_lineage (last st);
  qu_lineages u s : slot u st = Some s → is_lineage u;
  qu_ready : ∃ s, slot t st = Some s ∧ ready s = true;
}.

Lemma find_first_least (p : Z * Slot → bool) ts e u s : ordered ts → find_first p ts = Some e → (u, s) ∈ ts → p (u, s) = true → fst e ≤ u.
Proof.
  induction ts as [|x ts IH]; [done|]. intros [Ho Hlt]%ordered_cons. cbn [find_first]. destruct (p x) eqn:Hp.
  - intros [= <-] [<-|Hin]%elem_of_cons _; [done|]. assert (fst x < u); [|lia]. apply Hlt. apply list_elem_of_fmap. by exists (u, s).
  - intros Hf [<-|Hin]%elem_of_cons Hpu; [congruence|]. by apply IH.
Qed.

(** The thread granted next is the first ready one after the cursor. *)
Lemma next_thread_nearest t st u : queued t st → next_thread st = Some u → gap (last st) u ≤ gap (last st) t ∧ is_lineage u.
Proof.
  intros [Hw Hl Hu (s & Hs & Hr)] E. pose proof (sw_ordered _ Hw) as Ho. pose proof (next_thread_ready st u Hw E) as (su & Hsu & _).
  pose proof (Hu u su Hsu) as Hlu. pose proof (Hu t s Hs) as Hlt. split; [|done]. pose proof (get_elem _ _ _ Hs) as Hin. rewrite !gap_eq by done.
  unfold is_lineage in *. unfold next_thread in E. destruct (find_first (λ e, (last st <? fst e) && is_some (runnable (snd e))) (threads st)) as [e|] eqn:E1.
  - injection E as <-. pose proof (find_first_Some _ _ _ E1) as [_ [Hlt1%Z.ltb_lt _]%andb_true_iff].
    destruct (Z.ltb_spec (last st) (fst e)); [|lia]. destruct (Z.ltb_spec (last st) t); [|lia].
    assert (fst e ≤ t); [|lia]. apply (find_first_least _ _ _ t s Ho E1 Hin). cbn. apply andb_true_iff. split; [by apply Z.ltb_lt|done].
  - destruct (find_first (λ e, is_some (runnable (snd e))) (threads st)) as [e|] eqn:E2; [|done]. cbn in E. injection E as <-.
    pose proof (find_first_Some _ _ _ E2) as [Hine Hre]. rewrite find_first_None in E1.
    pose proof (E1 e Hine) as He. rewrite Hre, andb_true_r in He. pose proof (E1 (t, s) Hin) as Ht. cbn [fst snd] in Ht.
    unfold ready in Hr. rewrite Hr, andb_true_r in Ht. rewrite He, Ht. apply Z.ltb_ge in He, Ht.
    assert (fst e ≤ t); [|lia]. by apply (find_first_least _ _ _ t s Ho E2 Hin).
Qed.

(** The grants made while [t] is ready and is not granted: [us], in order. Between two grants
    anything may happen to the threads that leaves the cursor where it is. *)
Inductive turns (t : Z) : State → list Z → State → Prop :=
  | turns_end st : turns t st [] st
  | turns_between st st1 us st' : queued t st → last st1 = last st → turns t st1 us st' → turns t st us st'
  | turns_grant st u us st' : queued t st → next_thread st = Some u → u ≠ t → turns t (snd (grant_next st)) us st' →
      turns t st (u :: us) st'.

Lemma last_granted st u : st_wf st → next_thread st = Some u → last (snd (grant_next st)) = u.
Proof. intros Hw E. pose proof (grant_next_eq st Hw) as H. rewrite E in H. destruct H as [why ->]. done. Qed.

(** The gap to [t] narrows with each grant, so those granted lie ever closer before [t]. *)
Lemma turns_narrow t st us st' : is_lineage t → is_lineage (last st) → turns t st us st' →
  Forall (λ u, u ≠ t ∧ is_lineage u ∧ gap u t < gap (last st) t) us ∧ NoDup us.
Proof.
  intros Hlt Hl H. induction H as [st|st st1 us st' Hq El H IH|st u us st' Hq E Hne H IH].
  - split; constructor.
  - rewrite El in IH. by apply IH.
  - destruct (next_thread_nearest t st u Hq E) as [Hg Hlu]. rewrite (last_granted st u (qu_wf _ _ Hq) E) in IH. destruct (IH Hlu) as [Hf Hn].
    assert (gap u t < gap (last st) t) as Hlt1.
    { rewrite !gap_eq in * by done. unfold is_lineage in *. destruct (Z.ltb_spec (last st) u), (Z.ltb_spec (last st) t), (Z.ltb_spec u t); lia. }
    split.
    + constructor; [done|]. eapply Forall_impl; [exact Hf|]. cbn. intros v (? & ? & ?). split_and!; [done|done|lia].
    + constructor; [|done]. rewrite list.Forall_forall in Hf. intros (_ & _ & ?)%Hf. lia.
Qed.

(** The baton goes round in the order of lineages: while a thread is ready to run, every other thread
    is granted the baton at most once before it, and only those between the last one granted and it. *)
Theorem baton_goes_round t st us st' : is_lineage t → is_lineage (last st) → turns t st us st' →
  NoDup us ∧ ∀ u, u ∈ us → u ≠ t ∧ gap u t < gap (last st) t.
Proof.
  intros Ht Hl H. destruct (turns_narrow t st us st' Ht Hl H) as [Hf Hn]. split; [done|]. rewrite list.Forall_forall in Hf.
  intros u (? & _ & ?)%Hf. done.
Qed.

Lemma baton_goes_round_witness : next_thread (st two_ready_end) = Some 3 ∧ gap 3 1 < gap (last (st two_ready_end)) 1.
Proof.
  split; [vm_compute; reflexivity|]. pose proof (run_inv _ _ _ two_ready_ends ltac:(vm_compute; reflexivity) default_inv) as Hi.
  assert (queued 1 (st two_ready_end)) as Hq.
  { split; [exact (co_wf _ _ _ _ _ (iv_core _ _ Hi))|vm_compute; split; congruence| |].
    - intros u s Hs. apply get_elem in Hs. unfold is_lineage. repeat (apply elem_of_cons in Hs as [Hs|Hs]; [injection Hs as -> ->; lia|]).
      apply elem_of_nil in Hs. destruct Hs.
    - eexists. split; vm_compute; reflexivity. }
  assert (turns 1 (st two_ready_end) [3] (snd (grant_next (st two_ready_end)))) as Ht.
  { apply turns_grant; [exact Hq|vm_compute; reflexivity|discriminate|apply turns_end]. }
  destruct (baton_goes_round 1 (st two_ready_end) [3] _ ltac:(vm_compute; split; congruence) ltac:(vm_compute; split; congruence) Ht) as [_ H].
  apply H. apply elem_of_cons. left. reflexivity.
Defined.

(** ** Runs that lose a thread

    Four ways a thread of the schedule is left behind: it waits for a grant no one will make, keeps
    the baton without running, or runs beside the schedule. *)

(** The thread whose own call an act is *)
Definition caller (a : Act) : option Z :=
  match a with
  | AEnterRoot t | ASpawned t | AUnspawned t | AStarted t | AAttach t | ADetach t | AExit t _ | ABlock t _ _ _ _ | AYield t _
  | ASpinBegin t _ | ASpinAdvanced t _ _ _ | AWaitOutside t _ | ARejoin t | ATakeRun t | ATakeDispatch t _
  | AResume t _ _ | ARepoll t => Some t
  | _ => None
  end.

Lemma moved_other t p at_ u : u ≠ t → moved t p at_ u = at_ u.
Proof. intros H. unfold moved. by destruct (Z.eqb_spec u t). Qed.

(** Where another thread stands does not matter to a call. *)
Lemma step_elsewhere a s s' t p : step a s = Some s' → caller a ≠ Some t →
  pc s' t = pc s t ∧ ∃ at', step a (mk_sys (sch s) (moved t p (pc s))) = Some (mk_sys (sch s') at') ∧ ∀ u, at' u = moved t p (pc s') u.
Proof.
  intros E Hc. unfold stays, goes in *. destruct a as [u|u|u|u|u|u|u ?|u ????|u ?|u ?|u ???|u|u ?|u|u|u ?|u ??|u|u| | | | | | | | | | | | |];
    cbn [step caller sch pc] in *.
  all: try (assert (u ≠ t) as Hu by congruence; rewrite (moved_other t p _ u Hu)).
  all: unfold stays, goes in *; cbn [sch pc] in *.
  all: repeat (case_match; try done).
  all: try match type of E with (?x ≫= _) = _ => let o := fresh "o" in destruct x as [o|]; [|done]; cbn in *; try destruct o end.
  all: simplify_eq/=; (split; [try (destruct (Z.eqb_spec t u); [congruence|done])|]). all: try done.
  all: eexists; split; [done|]; intros v; unfold moved; cbn; repeat case_match; subst; done || lia.
Qed.

(** A thread parked without a grant, which the rest of the schedule takes to be at rest at [p]. *)
Definition stuck (p : Pc) (t : Z) (s : Sys) : Prop := pc s t = Parked ∧ inv (moved t p (pc s)) (sch s).

Lemma stuck_no_grant p t s : p = Away ∨ p = Code → t ≠ EXTERNAL → stuck p t s → take_grant t (sch s) = None.
Proof.
  intros Hp Ht [_ [Hc _ _ _]]. pose proof (co_fits _ _ _ _ _ Hc t Ht) as Hf. unfold moved in Hf. rewrite Z.eqb_refl in Hf.
  unfold take_grant. destruct (slot t (st s)) as [sl|]; [|done]. cbn.
  assert (grant sl = None) as -> by (destruct Hp as [->| ->]; apply Hf). done.
Qed.

Lemma stuck_step p t a s s' : p = Away ∨ p = Code → t ≠ EXTERNAL → stuck p t s → step a s = Some s' → leaves_behind a s = false → stuck p t s'.
Proof.
  intros Hp Ht Hst E Hcl. destruct (decide (caller a = Some t)) as [Hc|Hc].
  - pose proof (stuck_no_grant p t s Hp Ht Hst) as Hg. destruct Hst as [Hpk Hi].
    destruct a; cbn [caller] in Hc; simplify_eq; cbn [step] in E; rewrite ?Hpk, ?Hg in E; try done.
    unfold stays in E. injection E as <-. split; [done|]. by apply repoll_if_spoiled_inv.
  - destruct Hst as [Hpk Hi]. destruct (step_elsewhere a s s' t p E Hc) as (Hpc & at' & E' & Hat). split; [congruence|].
    pose proof (step_inv a (mk_sys (sch s) (moved t p (pc s))) _ E') as [Hc' Hb Hm Hr]; [by destruct a|done|]. cbn [pc sch] in *.
    split; [|done..]. eapply core_ext; [exact Hc'|]. intros u. by rewrite Hat.
Qed.

Lemma stuck_run p t acts s s' : p = Away ∨ p = Code → t ≠ EXTERNAL → stuck p t s → run acts s = Some s' → clean acts s = true → stuck p t s'.
Proof.
  intros Hp Ht. revert s. induction acts as [|a acts IH]; intros s Hst; cbn [run clean]; [by intros [= <-]|].
  intros E [Hl%negb_true_iff Hc]%andb_true_iff. destruct (step a s) as [s1|] eqn:Es; [|done]. cbn in E. eapply IH; [|done|done].
  by eapply stuck_step.
Qed.

(** C38: a thread created while the schedule is detached is not queued, and if another run has begun
    by the time it first runs it parks without being queued either: no grant ever reaches it,
    whatever calls the threads made before and make after, as long as none of those leaves another
    thread behind (the four calls of [leaves_behind]). *)
Theorem late_child_parked_for_good acts s t s1 acts' s' :
  run acts sys_default = Some s → clean acts sys_default = true →
  pc s t = Unborn → slot t (st s) = None → detached (sch s) = false → step (AStarted t) s = Some s1 →
  run acts' s1 = Some s' → clean acts' s1 = true → pc s' t = Parked.
Proof.
  intros E Hc Hp Hs Hd E1 E' Hc'. pose proof (run_inv _ _ _ E Hc default_inv) as Hi.
  assert (t ≠ EXTERNAL) as Ht by (apply (here_thread _ _ t Hi); by rewrite Hp).
  enough (stuck Away t s1) as Hst by (destruct (stuck_run Away t acts' s1 s' (or_introl eq_refl) Ht Hst E' Hc'); done).
  cbn [step] in E1. rewrite Hp in E1. unfold started in E1. rewrite detached_lock, Hd in E1. cbn [andb] in E1. unfold goes in E1. injection E1 as <-.
  split; [cbn; by rewrite Z.eqb_refl|]. cbn [pc sch].
  assert (inv (moved t Away (pc s)) (lock (sch s))) as Hi'.
  { apply inv_lock. destruct Hi as [Hco Hb Hm Hr]. split; [|done..]. eapply core_move; [done|done| |done]. rewrite Hs.
    pose proof (co_fits _ _ _ _ _ Hco t Ht) as Hf. by rewrite Hp, Hs in Hf. }
  apply (inv_room _ t Ht) in Hi' as [[Hco Hb Hm Hr] _]; [|unfold moved; by rewrite Z.eqb_refl].
  split; [|done..]. eapply core_ext; [exact Hco|]. intros u. unfold moved. by destruct (u =? t).
Qed.

(** *** The runs *)

(** Thread 2 is let go by the first run; it starts thread 3, and thread 4 begins another run. *)
Definition late_child : list Act := run_over 1 2 ++ [ASpawned 3; AEnterRoot 4].

Lemma late_child_parked_for_good_witness :
  ∃ s s1, run late_child sys_default = Some s ∧ step (AStarted 3) s = Some s1 ∧
    ∀ acts' s', run acts' s1 = Some s' → clean acts' s1 = true → pc s' 3 = Parked.
Proof.
  destruct (run late_child sys_default) as [s|] eqn:E; [|vm_compute in E; discriminate].
  assert (pc s 3 = Unborn ∧ slot 3 (st s) = None ∧ detached (sch s) = false ∧ is_some (step (AStarted 3) s) = true) as (Hp & Hs & Hd & Hst).
  { vm_compute in E. injection E as <-. vm_compute. repeat split. }
  destruct (step (AStarted 3) s) as [s1|] eqn:E1; [|discriminate]. exists s, s1. split; [reflexivity|]. split; [exact E1|]. intros acts' s'.
  exact (late_child_parked_for_good late_child s 3 s1 acts' s' E ltac:(vm_compute; reflexivity) Hp Hs Hd E1).
Defined.

(** Thread 2, let go by the first run, starts thread 3 and thread 3 runs before the next begins; then
    thread 4 enters, and thread 3 makes calls that wait for the schedule. *)
Definition let_through_run : list Act :=
  run_over 1 2 ++ [ASpawned 3; AStarted 3; AEnterRoot 4; ARejoin 3; ABlock 3 (wait_on (Addr 16)) None silent [nothing]; AYield 3 [nothing]].

(** A thread whose first act the detached schedule lets through never gets a slot in it: it runs
    beside the holder of the baton of the next run, its waits return at once, and no call leaves a
    thread behind. *)
Lemma let_through_runs_beside : ∃ s, run let_through_run sys_default = Some s ∧ clean let_through_run sys_default = true ∧
  pc s 3 = Free ∧ scheduled s 4 ∧ holder (st s) = Some 4.
Proof.
  destruct (run let_through_run sys_default) as [s|] eqn:E; [|vm_compute in E; discriminate]. exists s. split; [done|].
  vm_compute in E. injection E as <-. by vm_compute.
Qed.

(** Thread 2, let go, leaves the schedule and comes back to it in the next run. *)
Definition comes_back : list Act :=
  run_over 1 2 ++ [ADetach 2; AEnterRoot 4; AAttach 2; ABlock 4 (wait_on (Addr 16)) None silent [nothing]; ATakeRun 2; ARejoin 2].
(** The same run, but for thread 2 staying in the schedule: it ends with the schedule in the same
    state and thread 2 running. *)
Definition stays_in : list Act :=
  run_over 1 2 ++ [AEnterRoot 4; ARejoin 2; ABlock 4 (wait_on (Addr 16)) None silent [nothing]; ATakeRun 2].

Lemma parked_lets_go p t a s : stuck p t s → t ≠ EXTERNAL → lets_go_itself t a = true → step a s = None.
Proof.
  intros [Hpk _] Ht. destruct a; cbn; try done; intros Ha%Z.eqb_eq; try (subst; by rewrite Hpk). done.
Qed.

Lemma stuck_holder p t acts s s' : p = Away ∨ p = Code → t ≠ EXTERNAL → stuck p t s → holder (st s) = Some t →
  run acts s = Some s' → clean acts s = true → holder (st s') = Some t.
Proof.
  intros Hp Ht. revert s. induction acts as [|a acts IH]; intros s Hst Hh; cbn [run clean]; [by intros [= <-]|].
  intros E [Hl%negb_true_iff Hc]%andb_true_iff. destruct (step a s) as [s1|] eqn:Es; [|done]. cbn in E. eapply IH; [| |done|done].
  - by eapply stuck_step.
  - eapply holder_step; [done|done|]. destruct (lets_go_itself t a) eqn:El; [|done]. rewrite (parked_lets_go p t a s) in Es; done.
Qed.

Definition comes_back_end : Sys := Eval vm_compute in default sys_default (run comes_back sys_default).
Definition stays_in_end : Sys := Eval vm_compute in default sys_default (run stays_in sys_default).
Lemma stays_in_ends : run stays_in sys_default = Some stays_in_end.
Proof. by vm_compute. Qed.

(** A thread let go when its run ended, which leaves the schedule and joins it again in a later
    run, parks at its next call that looks for the schedule while it holds the baton: nobody grants
    it what it has, so the baton stays with it and no thread of the domain runs again. *)
Theorem returning_thread_wedges : ∃ s, run comes_back sys_default = Some s ∧
  ∀ acts' s', run acts' s = Some s' → clean acts' s = true → pc s' 2 = Parked ∧ holder (st s') = Some 2.
Proof.
  exists comes_back_end. split; [by vm_compute|]. pose proof (run_inv _ _ _ stays_in_ends ltac:(vm_compute; reflexivity) default_inv) as Hi.
  assert (stuck Code 2 comes_back_end) as Hst.
  { split; [done|]. change (sch comes_back_end) with (sch stays_in_end). destruct Hi as [Hc Hb Hm Hr]. split; [|done..].
    eapply core_ext; [exact Hc|]. intros u. unfold moved. cbn [pc comes_back_end stays_in_end]. by repeat case_match. }
  intros acts' s' E' Hc'. split; [by destruct (stuck_run Code 2 acts' _ s' (or_intror eq_refl) ltac:(done) Hst E' Hc')|].
  by eapply (stuck_holder Code 2 acts' comes_back_end s' (or_intror eq_refl)).
Qed.

(** Thread 1 waits and drives the schedule; a thread outside it starts thread 2, which is granted the
    idle schedule's baton at once, and the OS then fails to create it. *)
Definition failed_spawn : list Act :=
  [AEnterRoot 1; ABlock 1 (wait_on (Addr 8)) None silent [nothing]; ASpawned 2; AUnspawned 2].
Definition failed_spawn_end : Sys := Eval vm_compute in default sys_default (run failed_spawn sys_default).

Lemma run_keeps_holder acts s s' t : holder (st s) = Some t → Forall (λ a, lets_go_itself t a = false) acts →
  run acts s = Some s' → holder (st s') = Some t.
Proof.
  intros Hh Hl. revert s Hh. induction Hl as [|a acts Ha _ IH]; intros s Hh; cbn [run]; [by intros [= <-]|].
  destruct (step a s) as [s1|] eqn:Es; [|done]. cbn. apply IH. by eapply holder_step.
Qed.

(** A thread whose creation fails keeps the baton it was granted in between: the schedule names a
    thread that does not exist as the one running, and goes on doing so whatever the others do. *)
Theorem failed_spawn_wedges : ∃ s, run failed_spawn sys_default = Some s ∧ slot 2 (st s) = None ∧
  ∀ acts' s', Forall (λ a, lets_go_itself 2 a = false) acts' → run acts' s = Some s' → holder (st s') = Some 2.
Proof.
  exists failed_spawn_end. split; [by vm_compute|]. split; [done|]. intros acts' s'. by apply run_keeps_holder.
Qed.

(** Thread 2 is let go by the first run. It begins a wait in the second, whose last thread detaches
    the schedule before the wait has the lock; a third run begins. *)
Definition late_wait : list Act :=
  run_over 1 2 ++ run_over 4 5 ++ [ABlock 2 (wait_on (Addr 64)) None silent [nothing]; AEnterRoot 6].
Definition late_wait_end : Sys := Eval vm_compute in default sys_default (run late_wait sys_default).

(** A thread let go whose wait takes the lock only once the schedule has detached again forgets that
    it was let go: it runs beside the thread that holds the baton of the next run. *)
Theorem late_wait_runs_beside : ∃ s, run late_wait sys_default = Some s ∧ scheduled s 2 ∧ scheduled s 6 ∧ holder (st s) = Some 6.
Proof. exists late_wait_end. split; [by vm_compute|]. by vm_compute. Qed.
