(* ===== verification/Pending.v ===== *)
(** * Changes queued for the holder of a lock

    [Pending] of crates/snare-interpose/src/pending.rs, Dmitry Vyukov's bounded queue: any thread
    pushes, the holder of the lock drains. Each atomic access is a step of its own and the steps of
    all threads interleave in any order. The order of memory is taken to be sequential, as the
    release and acquire pairs of the source make it for the values that pass through the slots. *)

From S2P Require Import Prelude Owners.

Section pending.
Context {A : Type}.

(** [Slot] and [Pending]; a value not yet written is [None]. *)
Record Cell := mk_cell { seq : Z; value : option A }.
Record Pending := mk_pending { cells : list Cell; tail : Z; head : Z }.
Definition pending_default : Pending :=
  mk_pending (map (λ i, mk_cell (Z.of_nat i) None) (List.seq 0 (Z.to_nat CAPACITY))) 0 0.

(** [pos % CAPACITY] *)
Definition cell_of (pos : Z) : nat := Z.to_nat (pos mod CAPACITY).
Definition set_seq (pos n : Z) (q : Pending) : Pending :=
  mk_pending (alter (λ c, mk_cell n (value c)) (cell_of pos) (cells q)) (tail q) (head q).
Definition set_value (pos : Z) (v : A) (q : Pending) : Pending :=
  mk_pending (alter (λ c, mk_cell (seq c) (Some v)) (cell_of pos) (cells q)) (tail q) (head q).

(** Where a thread is in [push]: outside; about to load the tail; the tail loaded; the slot found
    free for the ticket; the ticket claimed; the value written. *)
Inductive Pusher := Outside | Begins (v : A) | Loaded (v : A) (pos : Z) | Fits (v : A) (pos : Z) | Claimed (v : A) (pos : Z) | Written (v : A) (pos : Z).
(** Where the holder of the lock is in [drain]: outside; the tail loaded; at the head of the loop;
    the slot filled; its value read; the slot given back. *)
Inductive Drainer := Done | Ends (end_ : Z) | Loops (end_ pos : Z) | Filled (end_ pos : Z) | Read (end_ pos : Z) (v : A) | Freed (end_ pos : Z) (v : A).

(** The queue, the threads, the values applied so far, and what has happened: the tickets claimed,
    by whom and for what, and what each push returned. *)
Record Queue := mk_queue {
  ring : Pending; pusher : Z → Pusher; drainer : Drainer; applied : list A;
  claims : list (Z * A); returns : list (Z * A * bool) }.
Definition queue_default : Queue := mk_queue pending_default (λ _, Outside) Done [] [] [].

Definition goto (t : Z) (p : Pusher) (q : Pending) (s : Queue) : Queue :=
  mk_queue q (λ u, if u =? t then p else pusher s u) (drainer s) (applied s) (claims s) (returns s).
Definition return_ (t : Z) (v : A) (ok : bool) (s : Queue) : Queue :=
  mk_queue (ring s) (pusher s) (drainer s) (applied s) (claims s) (returns s ++ [(t, v, ok)]).

(** One access of [push]; [weak] says whether [compare_exchange_weak] fails without reason. *)
Definition push_step (t : Z) (weak : bool) (s : Queue) : option Queue :=
  let q := ring s in
  match pusher s t with
  | Outside => None
  | Begins v => Some (goto t (Loaded v (tail q)) q s)
  | Loaded v pos =>
      c ← cells q !! cell_of pos;
      match Z.sgn (wrap_i64 (seq c - pos)) with
      | 0 => Some (goto t (Fits v pos) q s)
      | -1 => Some (return_ t v false (goto t Outside q s))
      | _ => Some (goto t (Begins v) q s)
      end
  | Fits v pos =>
      if (tail q =? pos) && negb weak then
        let s := goto t (Claimed v pos) (mk_pending (cells q) (wrap_u64 (pos + 1)) (head q)) s in
        Some (mk_queue (ring s) (pusher s) (drainer s) (applied s) (claims s ++ [(t, v)]) (returns s))
      else Some (goto t (Loaded v (tail q)) q s)
  | Claimed v pos => Some (goto t (Written v pos) (set_value pos v q) s)
  | Written v pos => Some (return_ t v true (goto t Outside (set_seq pos (wrap_u64 (pos + 1)) q) s))
  end.

Definition with_drain (d : Drainer) (q : Pending) (app : list A) (s : Queue) : Queue :=
  mk_queue q (pusher s) d app (claims s) (returns s).

(** One access of [drain]; a slot not yet filled is looked at again. [None] where it would read a
    value never written. *)
Definition drain_step (s : Queue) : option Queue :=
  let q := ring s in
  match drainer s with
  | Done => None
  | Ends e => Some (with_drain (Loops e (head q)) q (applied s) s)
  | Loops e pos =>
      if pos =? e then Some (with_drain Done q (applied s) s)
      else
        c ← cells q !! cell_of pos;
        Some (with_drain (if seq c =? wrap_u64 (pos + 1) then Filled e pos else Loops e pos) q (applied s) s)
  | Filled e pos =>
      c ← cells q !! cell_of pos;
      v ← value c;
      Some (with_drain (Read e pos v) q (applied s) s)
  | Read e pos v => Some (with_drain (Freed e pos v) (set_seq pos (wrap_u64 (pos + CAPACITY)) q) (applied s) s)
  | Freed e pos v =>
      let pos := wrap_u64 (pos + 1) in
      Some (with_drain (Loops e pos) (mk_pending (cells q) (tail q) pos) (applied s ++ [v]) s)
  end.

Inductive Event := Push (t : Z) (v : A) | Pushes (t : Z) (weak : bool) | Drain | Drains.
Definition queue_step (ev : Event) (s : Queue) : option Queue :=
  match ev with
  | Push t v => match pusher s t with Outside => Some (goto t (Begins v) (ring s) s) | _ => None end
  | Pushes t weak => push_step t weak s
  | Drain => match drainer s with Done => Some (with_drain (Ends (tail (ring s))) (ring s) (applied s) s) | _ => None end
  | Drains => drain_step s
  end.
Fixpoint queue_run (evs : list Event) (s : Queue) : option Queue :=
  match evs with [] => Some s | ev :: evs => s ← queue_step ev s; queue_run evs s end.

End pending.
Arguments Cell : clear implicits.
Arguments Pending : clear implicits.
Arguments Pusher : clear implicits.
Arguments Drainer : clear implicits.
Arguments Queue : clear implicits.
Arguments Event : clear implicits.

(** ** The queue of changes keeps their order

    Whatever the interleaving of the pushes and the drains, every value queued is applied once, in
    the order the tickets were claimed, and a drain takes all that was queued when it began. *)

(** The ticket the slot [i] stands for once [F] slots have been given back: the first not below [F]. *)
Definition ticket (F i : Z) : Z := F + (i - F) mod CAPACITY.

Lemma ticket_range F i : F ≤ ticket F i < F + CAPACITY.
Proof. unfold ticket, CAPACITY. pose proof (Z.mod_pos_bound (i - F) 1024). lia. Qed.
Lemma ticket_mod F i : 0 ≤ i < CAPACITY → ticket F i mod CAPACITY = i.
Proof. unfold ticket, CAPACITY. intros. rewrite Zplus_mod_idemp_r. replace (F + (i - F)) with i by lia. by apply Z.mod_small. Qed.
Lemma ticket_near F pos : F ≤ pos < F + CAPACITY → ticket F (pos mod CAPACITY) = pos.
Proof. unfold ticket, CAPACITY. intros. rewrite Zminus_mod_idemp_l. rewrite Z.mod_small; lia. Qed.
Lemma ticket_next F i : 0 ≤ i < CAPACITY → ticket (F + 1) i = if i =? F mod CAPACITY then F + CAPACITY else ticket F i.
Proof.
  intros Hi. pose proof (ticket_range (F + 1) i). pose proof (ticket_mod (F + 1) i Hi) as Hm. destruct (Z.eqb_spec i (F mod CAPACITY)) as [->|Hne].
  - unfold ticket, CAPACITY in *. replace (F mod 1024 - (F + 1)) with (F mod 1024 - F - 1) by lia. dlia.
  - rewrite <- (ticket_near F (ticket (F + 1) i)) at 1.
    + by rewrite Hm.
    + split; [lia|]. destruct (decide (ticket (F + 1) i = F + CAPACITY)) as [E|]; [|lia]. destruct Hne. rewrite <- Hm, E.
      unfold CAPACITY. dlia.
Qed.

Section inv.
Context {A : Type}.
Implicit Types (s : Queue A).

Definition queued_by s : Z := Z.of_nat (length (claims s)).
Definition value_at s (p : Z) : option A := snd <$> claims s !! Z.to_nat p.
(** The ticket [p] is claimed and no push is still filling its slot. *)
Definition published s (p : Z) : Prop :=
  p < queued_by s ∧ ∀ t v, pusher s t ≠ Claimed v p ∧ pusher s t ≠ Written v p.

Definition cell_ok s (F i : Z) (c : Cell A) : Prop :=
  ∃ b : bool, (b = true ↔ published s (ticket F i)) ∧ seq c = ticket F i + b2z b ∧
    (b = true ∨ (∃ t v, pusher s t = Written v (ticket F i)) → value c = value_at s (ticket F i)).

Definition pusher_ok s (F t : Z) : Prop :=
  match pusher s t with
  | Outside | Begins _ => True
  | Loaded _ pos => 0 ≤ pos ≤ queued_by s
  | Fits _ pos => 0 ≤ pos ≤ queued_by s ∧ pos < F + CAPACITY
  | Claimed v pos | Written v pos => F ≤ pos < queued_by s ∧ claims s !! Z.to_nat pos = Some (t, v)
  end.

Definition drainer_ok s (F : Z) : Prop :=
  match drainer s with
  | Done => head (ring s) = F ∧ applied s = take (Z.to_nat F) (map snd (claims s))
  | Ends e => head (ring s) = F ∧ applied s = take (Z.to_nat F) (map snd (claims s)) ∧ F ≤ e ≤ queued_by s
  | Loops e pos =>
      head (ring s) = F ∧ applied s = take (Z.to_nat F) (map snd (claims s)) ∧ pos = F ∧ F ≤ e ≤ queued_by s
  | Filled e pos =>
      head (ring s) = F ∧ applied s = take (Z.to_nat F) (map snd (claims s)) ∧ pos = F ∧ F < e ≤ queued_by s ∧ published s F
  | Read e pos v =>
      head (ring s) = F ∧ applied s = take (Z.to_nat F) (map snd (claims s)) ∧ pos = F ∧ F < e ≤ queued_by s ∧ published s F ∧
      value_at s F = Some v
  | Freed e pos v =>
      applied s = take (Z.to_nat pos) (map snd (claims s)) ∧ F = pos + 1 ∧ F ≤ e ≤ queued_by s ∧ 0 ≤ pos ∧ value_at s pos = Some v
  end.

Record queue_ok s (F : Z) : Prop := {
  qo_bound : queued_by s < 2 ^ 62;
  qo_tail : tail (ring s) = queued_by s;
  qo_freed : 0 ≤ F ≤ queued_by s ∧ queued_by s ≤ F + CAPACITY;
  qo_size : length (cells (ring s)) = Z.to_nat CAPACITY;
  qo_cells i c : 0 ≤ i < CAPACITY → cells (ring s) !! Z.to_nat i = Some c → cell_ok s F i c;
  qo_pushers t : pusher_ok s F t;
  qo_drainer : drainer_ok s F;
}.

(** *** What other threads see of a step *)

Definition filling (p : Pusher A) : bool := match p with Claimed _ _ | Written _ _ => true | _ => false end.

Lemma published_moved s s' t p : claims s' = claims s → (∀ u, u ≠ t → pusher s' u = pusher s u) →
  filling (pusher s t) = false → filling (pusher s' t) = false → published s' p ↔ published s p.
Proof.
  intros Ec Hu Hf Hf'. unfold published, queued_by. rewrite Ec. split; intros [Hp H]; (split; [done|]); intros u v.
  - destruct (decide (u = t)) as [->|Hne]; [by destruct (pusher s t)|]. rewrite <- (Hu u Hne). apply H.
  - destruct (decide (u = t)) as [->|Hne]; [by destruct (pusher s' t)|]. rewrite (Hu u Hne). apply H.
Qed.

Lemma cells_moved s s' t F : queue_ok s F → claims s' = claims s → cells (ring s') = cells (ring s) →
  (∀ u, u ≠ t → pusher s' u = pusher s u) → filling (pusher s t) = false → filling (pusher s' t) = false →
  ∀ i c, 0 ≤ i < CAPACITY → cells (ring s') !! Z.to_nat i = Some c → cell_ok s' F i c.
Proof.
  intros Hq Ec El Hu Hf Hf' i c Hi. rewrite El. intros Hc. destruct (qo_cells _ _ Hq i c Hi Hc) as (b & Hb & Hs & Hv).
  exists b. rewrite (published_moved s s' t) by done. split; [done|]. split; [done|]. unfold value_at. rewrite Ec. intros Hw. apply Hv.
  destruct Hw as [Hw|(u & v & Hw)]; [by left|right]. exists u, v. destruct (decide (u = t)) as [->|Hne]; [|by rewrite <- Hu].
  rewrite Hw in Hf'. done.
Qed.

(** A step of [t] in [push] that fills no slot. *)
Lemma moved_ok s t p q rs F : queue_ok s F → cells q = cells (ring s) → tail q = tail (ring s) → head q = head (ring s) →
  filling (pusher s t) = false → filling p = false →
  pusher_ok (mk_queue q (λ u, if u =? t then p else pusher s u) (drainer s) (applied s) (claims s) rs) F t →
  queue_ok (mk_queue q (λ u, if u =? t then p else pusher s u) (drainer s) (applied s) (claims s) rs) F.
Proof.
  intros Hq El Et Eh Hf Hp Hpo. set (s' := mk_queue _ _ _ _ _ _) in *.
  assert (∀ u, u ≠ t → pusher s' u = pusher s u) as Hu by (intros u Hne; cbn; by destruct (Z.eqb_spec u t)).
  assert (filling (pusher s' t) = false) as Hf' by (cbn; by rewrite Z.eqb_refl).
  split; try apply Hq.
  - change (tail q = queued_by s). rewrite Et. apply Hq.
  - change (length (cells q) = Z.to_nat CAPACITY). rewrite El. apply Hq.
  - by apply (cells_moved s s' t).
  - intros u. destruct (decide (u = t)) as [->|Hne]; [done|]. unfold pusher_ok. rewrite Hu by done. apply (qo_pushers _ _ Hq u).
  - pose proof (qo_drainer _ _ Hq) as Hd. unfold drainer_ok in *. change (drainer s') with (drainer s). change (head (ring s')) with (head q). rewrite Eh.
    change (applied s') with (applied s). change (claims s') with (claims s).
    destruct (drainer s); try done; rewrite (published_moved s s' t) by done; done.
Qed.

(** *** A push *)

Lemma published_claim s t v pos p : pusher s t = Fits v pos → pos = queued_by s →
  let s' := mk_queue (mk_pending (cells (ring s)) (wrap_u64 (pos + 1)) (head (ring s))) (λ u, if u =? t then Claimed v pos else pusher s u)
    (drainer s) (applied s) (claims s ++ [(t, v)]) (returns s) in
  published s' p ↔ published s p.
Proof.
  intros Hp Hpos s'. unfold published. change (queued_by s') with (Z.of_nat (length (claims s ++ [(t, v)]))). rewrite length_app. cbn [length].
  unfold queued_by in *. split.
  - intros [Hlt H]. assert (p ≠ pos) as Hne. { intros ->. destruct (H t v) as [Hc _]. cbn in Hc. rewrite Z.eqb_refl in Hc. done. }
    split; [lia|]. intros u w. specialize (H u w). cbn in H. destruct (Z.eqb_spec u t) as [->|]; [by rewrite Hp|done].
  - intros [Hlt H]. split; [lia|]. intros u w. cbn. destruct (Z.eqb_spec u t) as [->|]; [|apply H]. split; [|done]. intros [= _ ->]. lia.
Qed.

Lemma claim_ok s t v pos F : queue_ok s F → pusher s t = Fits v pos → tail (ring s) = pos → queued_by s + 1 < 2 ^ 62 →
  queue_ok (mk_queue (mk_pending (cells (ring s)) (wrap_u64 (pos + 1)) (head (ring s))) (λ u, if u =? t then Claimed v pos else pusher s u)
    (drainer s) (applied s) (claims s ++ [(t, v)]) (returns s)) F.
Proof.
  intros Hq Hp Hpos Hb. rewrite (qo_tail _ _ Hq) in Hpos. symmetry in Hpos. pose proof (published_claim s t v pos) as Hpub. set (s' := mk_queue _ _ _ _ _ _) in *.
  pose proof (qo_pushers _ _ Hq t) as Ht. unfold pusher_ok in Ht. rewrite Hp in Ht. destruct (qo_freed _ _ Hq) as [HF HT].
  assert (queued_by s' = queued_by s + 1) as Hq' by (unfold queued_by; cbn; rewrite length_app; cbn; lia).
  assert (∀ p x, claims s !! Z.to_nat p = Some x → claims s' !! Z.to_nat p = Some x) as Hlk by (intros p x Hx; cbn; by apply lookup_app_l_Some).
  assert (∀ p, p < queued_by s → 0 ≤ p → value_at s' p = value_at s p) as Hva.
  { intros p Hlt Hge. unfold value_at. cbn. rewrite lookup_app_l; [done|unfold queued_by in Hlt; lia]. }
  assert (∀ n, 0 ≤ n ≤ queued_by s → take (Z.to_nat n) (map snd (claims s')) = take (Z.to_nat n) (map snd (claims s))) as Htk.
  { intros n Hn. cbn. rewrite map_app, take_app_le; [done|]. rewrite length_map. unfold queued_by in Hn. lia. }
  split.
  - lia.
  - cbn. unfold wrap_u64. rewrite Z.mod_small; lia.
  - lia.
  - apply Hq.
  - intros i c Hi Hc. destruct (qo_cells _ _ Hq i c Hi Hc) as (b & Hbp & Hs & Hv). exists b. rewrite Hpub by done. split; [done|]. split; [done|].
    intros Hw. pose proof (ticket_range F i).
    assert (b = true ∨ ∃ u w, pusher s u = Written w (ticket F i)) as Hw'.
    { destruct Hw as [Hw|(u & w & Hw)]; [by left|right]. exists u, w. cbn in Hw. by destruct (Z.eqb_spec u t). }
    rewrite Hva; [by apply Hv| |lia]. destruct Hw' as [[Hlt _]%Hbp|(u & w & Hu)]; [done|].
    pose proof (qo_pushers _ _ Hq u) as Hpu. unfold pusher_ok in Hpu. rewrite Hu in Hpu. lia.
  - intros u. unfold pusher_ok. rewrite Hq'. cbn [pusher s']. destruct (Z.eqb_spec u t) as [->|Hne].
    + split; [unfold CAPACITY in *; lia|]. cbn. rewrite lookup_app_r by (unfold queued_by in *; lia).
      replace (Z.to_nat pos - length (claims s))%nat with 0%nat by (unfold queued_by in *; lia). done.
    + pose proof (qo_pushers _ _ Hq u) as Hpu. unfold pusher_ok in Hpu.
      destruct (pusher s u) as [| | | |w p|w p]; [done|done|lia|lia|..]; (destruct Hpu as [Hr Hx]; split; [lia|by apply Hlk]).
  - pose proof (qo_drainer _ _ Hq) as Hd. unfold drainer_ok in *. rewrite Hq'. cbn [drainer ring head applied s'].
    destruct (drainer s) as [|e|e p|e p|e p w|e p w]; rewrite ?Hpub by done; rewrite ?Htk by lia.
    + done.
    + destruct Hd as (? & ? & ?). split_and!; try done; lia.
    + destruct Hd as (? & ? & ? & ?). split_and!; try done; lia.
    + destruct Hd as (? & ? & ? & ? & ?). split_and!; try done; lia.
    + destruct Hd as (? & ? & ? & ? & ? & ?). rewrite Hva by lia. split_and!; try done; lia.
    + destruct Hd as (? & ? & ? & ? & ?). rewrite ?Htk, ?Hva by lia. split_and!; try done; lia.
Qed.

Lemma cell_of_near F p i : F ≤ p < F + CAPACITY → 0 ≤ i < CAPACITY → 0 ≤ p → cell_of p = Z.to_nat i ↔ ticket F i = p.
Proof.
  intros Hp Hi Hp0. unfold cell_of. split.
  - intros E. assert (p mod CAPACITY = i) as <- by (pose proof (Z.mod_pos_bound p CAPACITY ltac:(done)); lia). by apply ticket_near.
  - intros <-. by rewrite ticket_mod.
Qed.

Lemma written_ok s t v pos F : queue_ok s F → pusher s t = Claimed v pos →
  queue_ok (mk_queue (set_value pos v (ring s)) (λ u, if u =? t then Written v pos else pusher s u)
    (drainer s) (applied s) (claims s) (returns s)) F.
Proof.
  intros Hq Hp. set (s' := mk_queue _ _ _ _ _ _) in *. pose proof (qo_pushers _ _ Hq t) as Ht. unfold pusher_ok in Ht. rewrite Hp in Ht.
  destruct Ht as [Hr Hcl]. destruct (qo_freed _ _ Hq) as [HF HT].
  assert (∀ p, published s' p ↔ published s p) as Hpub.
  { intros p. unfold published. change (queued_by s') with (queued_by s). split; intros [Hlt H]; (split; [done|]); intros u w; cbn.
    - destruct (decide (u = t)) as [->|Hne].
      + rewrite Hp. split; [|done]. intros [= _ <-]. destruct (H t v) as [_ Hw]. cbn in Hw. by rewrite Z.eqb_refl in Hw.
      + specialize (H u w). cbn in H. by destruct (Z.eqb_spec u t).
    - destruct (Z.eqb_spec u t) as [->|]; [|apply H]. split; [done|]. intros [= _ <-]. by destruct (H t v). }
  split; try apply Hq.
  - cbn. rewrite length_alter. apply Hq.
  - intros i c Hi. cbn [ring s' cells set_value]. intros Hc. pose proof (cell_of_near F pos i ltac:(unfold CAPACITY in *; lia) Hi ltac:(lia)) as Hn.
    destruct (decide (cell_of pos = Z.to_nat i)) as [E|E].
    + rewrite E, list_lookup_alter_eq in Hc. destruct (cells (ring s) !! Z.to_nat i) as [c0|] eqn:E0; [|done]. cbn in Hc. injection Hc as <-.
      destruct (qo_cells _ _ Hq i c0 Hi E0) as (b & Hbp & Hs & _). exists b. rewrite Hpub. split_and!; [apply Hbp..|done|].
      intros _. apply Hn in E as ->. unfold value_at. cbn. by rewrite Hcl.
    + rewrite list_lookup_alter_ne in Hc by done. destruct (qo_cells _ _ Hq i c Hi Hc) as (b & Hbp & Hs & Hv). exists b. rewrite Hpub.
      split_and!; [apply Hbp..|done|]. intros Hw. apply Hv. destruct Hw as [Hw|(u & w & Hw)]; [by left|right]. exists u, w. cbn in Hw.
      destruct (Z.eqb_spec u t) as [->|]; [|done]. injection Hw as <- Hw. destruct E. apply Hn. congruence.
  - intros u. unfold pusher_ok. cbn [pusher s']. destruct (Z.eqb_spec u t) as [->|]; [done|]. apply (qo_pushers _ _ Hq u).
  - pose proof (qo_drainer _ _ Hq) as Hd. unfold drainer_ok in *. cbn [drainer ring head applied s' set_value].
    destruct (drainer s); try done; rewrite Hpub; done.
Qed.

Lemma published_ok s t v pos F rs : queue_ok s F → pusher s t = Written v pos →
  queue_ok (mk_queue (set_seq pos (wrap_u64 (pos + 1)) (ring s)) (λ u, if u =? t then Outside else pusher s u)
    (drainer s) (applied s) (claims s) rs) F.
Proof.
  intros Hq Hp. set (s' := mk_queue _ _ _ _ _ _) in *. pose proof (qo_pushers _ _ Hq t) as Ht. unfold pusher_ok in Ht. rewrite Hp in Ht.
  destruct Ht as [Hr Hcl]. destruct (qo_freed _ _ Hq) as [HF HT]. pose proof (qo_bound _ _ Hq).
  assert (∀ p, p ≠ pos → published s' p ↔ published s p) as Hpub.
  { intros p Hne. unfold published. change (queued_by s') with (queued_by s). split; intros [Hlt H']; (split; [done|]); intros u w; specialize (H' u w); cbn in *.
    - destruct (Z.eqb_spec u t) as [->|]; [|done]. rewrite Hp. split; [done|]. intros [= _ <-]. done.
    - by destruct (u =? t). }
  assert (published s' pos) as Hnow.
  { split; [change (queued_by s') with (queued_by s); lia|]. intros u w. cbn. destruct (Z.eqb_spec u t) as [->|Hne]; [done|].
    pose proof (qo_pushers _ _ Hq u) as Hu. unfold pusher_ok in Hu. split; intros E; rewrite E in Hu; destruct Hu; congruence. }
  assert (¬ published s pos) as Hbefore by (intros [_ Hx]; by destruct (Hx t v)).
  split; try apply Hq.
  - cbn. rewrite length_alter. apply Hq.
  - intros i c Hi. cbn [ring s' cells set_seq]. intros Hc. pose proof (cell_of_near F pos i ltac:(unfold CAPACITY in *; lia) Hi ltac:(lia)) as Hn.
    destruct (decide (cell_of pos = Z.to_nat i)) as [E|E].
    + rewrite E, list_lookup_alter_eq in Hc. destruct (cells (ring s) !! Z.to_nat i) as [c0|] eqn:E0; [|done]. cbn in Hc. injection Hc as <-.
      destruct (qo_cells _ _ Hq i c0 Hi E0) as (b & Hbp & Hs & Hv). apply Hn in E. rewrite E in *. exists true. rewrite E. split_and!; [done..| |].
      * cbn. unfold wrap_u64. rewrite Z.mod_small; lia.
      * intros _. cbn [value]. apply Hv. right. by exists t, v.
    + rewrite list_lookup_alter_ne in Hc by done. destruct (qo_cells _ _ Hq i c Hi Hc) as (b & Hbp & Hs & Hv). rewrite Hn in E. exists b. rewrite Hpub by done.
      split_and!; [apply Hbp..|done|]. intros Hw. apply Hv. destruct Hw as [Hw|(u & w & Hw)]; [by left|right]. exists u, w. cbn in Hw.
      by destruct (Z.eqb_spec u t).
  - intros u. unfold pusher_ok. cbn [pusher s']. destruct (Z.eqb_spec u t) as [->|]; [done|]. apply (qo_pushers _ _ Hq u).
  - pose proof (qo_drainer _ _ Hq) as Hd. unfold drainer_ok in *. cbn [drainer ring head applied s' set_seq].
    assert (published s F → published s' F) as Hpf by (intros Hx; apply Hpub; [congruence|done]).
    destruct (drainer s); try done; naive_solver.
Qed.

(** *** A drain *)

(** A step of the drain that leaves the slots as they are. *)
Lemma drained_ok s d h app F : queue_ok s F → (let s' := with_drain d (mk_pending (cells (ring s)) (tail (ring s)) h) app s in drainer_ok s' F) →
  queue_ok (with_drain d (mk_pending (cells (ring s)) (tail (ring s)) h) app s) F.
Proof. intros Hq Hd. split; try apply Hq. exact Hd. Qed.

Lemma freed_ok s e v F : queue_ok s F → drainer s = Read e F v →
  queue_ok (with_drain (Freed e F v) (set_seq F (wrap_u64 (F + CAPACITY)) (ring s)) (applied s) s) (F + 1).
Proof.
  intros Hq Hd. pose proof (qo_drainer _ _ Hq) as Hdo. unfold drainer_ok in Hdo. rewrite Hd in Hdo.
  destruct Hdo as (Hh & Happ & _ & He & Hpub & Hv). destruct (qo_freed _ _ Hq) as [HF HT]. pose proof (qo_bound _ _ Hq). set (s' := with_drain _ _ _ _).
  assert (∀ p, published s' p ↔ published s p) as Hpub' by done.
  assert (¬ published s (F + CAPACITY)) as Hno by (intros [? _]; lia).
  split; try apply Hq.
  - change (queued_by s') with (queued_by s). lia.
  - cbn. rewrite length_alter. apply Hq.
  - intros i c Hi. cbn [ring s' with_drain cells set_seq]. intros Hc. unfold cell_ok. rewrite ticket_next by done.
    destruct (Z.eqb_spec i (F mod CAPACITY)) as [Ei|Ei].
    + subst i. fold (cell_of F) in Hc. rewrite list_lookup_alter_eq in Hc. destruct (cells (ring s) !! cell_of F) as [c0|]; [|done]. cbn in Hc. injection Hc as <-.
      exists false. split; [split; [done|intros Hx; by destruct Hno]|]. split.
      * cbn. unfold wrap_u64, CAPACITY in *. rewrite Z.mod_small; lia.
      * intros [|(u & w & Hu)]; [done|]. pose proof (qo_pushers _ _ Hq u) as Hpu. unfold pusher_ok in Hpu. cbn in Hu. rewrite Hu in Hpu. lia.
    + rewrite list_lookup_alter_ne in Hc by (unfold cell_of; pose proof (Z.mod_pos_bound F CAPACITY ltac:(done)); lia). apply (qo_cells _ _ Hq i c Hi Hc).
  - intros u. pose proof (qo_pushers _ _ Hq u) as Hu. unfold pusher_ok in *. cbn [pusher s' with_drain].
    change (queued_by s') with (queued_by s). change (claims s') with (claims s).
    destruct (pusher s u) as [| | | |w p|w p] eqn:Eu; [done|done|done|split; lia|..].
    all: destruct Hu as [Hr Hx]; split; [|done]; assert (p ≠ F) by (intros ->; destruct Hpub as [_ Hn]; by destruct (Hn u w)); lia.
  - unfold drainer_ok. cbn [drainer s' with_drain]. change (queued_by s') with (queued_by s). split; [done|]. split; [done|]. split; [lia|]. split; [lia|done].
Qed.

Lemma take_next (l : list A) n v : l !! n = Some v → take n l ++ [v] = take (S n) l.
Proof. intros H. symmetry. by apply take_S_r. Qed.

Lemma drain_step_ok s s' F : queue_ok s F → drain_step s = Some s' → ∃ F', queue_ok s' F' ∧ F ≤ F'.
Proof.
  intros Hq. pose proof (qo_drainer _ _ Hq) as Hd. unfold drain_step, drainer_ok in *. destruct (qo_freed _ _ Hq) as [HF HT]. pose proof (qo_bound _ _ Hq).
  assert (ring s = mk_pending (cells (ring s)) (tail (ring s)) (head (ring s))) as Er by by destruct (ring s).
  destruct (drainer s) as [|e|e pos|e pos|e pos v|e pos v] eqn:Ed; [done|..].
  - intros [= <-]. exists F. split; [|lia]. destruct Hd as (Hh & Happ & He). rewrite Er. apply drained_ok; [done|]. cbn. done.
  - destruct Hd as (Hh & Happ & -> & He). destruct (Z.eqb_spec F e) as [->|Hne].
    + intros [= <-]. exists e. split; [|lia]. rewrite Er. by apply drained_ok.
    + destruct (cells (ring s) !! cell_of F) as [c|] eqn:Ec; [|done]. cbn. intros [= <-]. exists F. split; [|lia]. rewrite Er. apply drained_ok; [done|].
      destruct (Z.eqb_spec (seq c) (wrap_u64 (F + 1))) as [Es|]; cbn; [|done].
      assert (0 ≤ F mod CAPACITY < CAPACITY) as Hm by (apply Z.mod_pos_bound; done).
      destruct (qo_cells _ _ Hq (F mod CAPACITY) c Hm Ec) as (b & Hb & Hs & _). rewrite ticket_near in * by (unfold CAPACITY; lia).
      unfold wrap_u64 in Es. rewrite Z.mod_small in Es by lia. destruct b; [|cbn in Hs; lia]. split; [done|]. split; [done|]. split; [done|]. split; [|by apply Hb].
      unfold queued_by in *. cbn. lia.
  - destruct Hd as (Hh & Happ & -> & He & Hp). destruct (cells (ring s) !! cell_of F) as [c|] eqn:Ec; [|done]. cbn.
    assert (0 ≤ F mod CAPACITY < CAPACITY) as Hm by (apply Z.mod_pos_bound; done).
    destruct (qo_cells _ _ Hq (F mod CAPACITY) c Hm Ec) as (b & Hb & _ & Hv). rewrite ticket_near in * by (unfold CAPACITY; lia).
    rewrite Hv by (left; by apply Hb). destruct (value_at s F) as [v|] eqn:Ev; [|done]. cbn. intros [= <-]. exists F. split; [|lia].
    rewrite Er. apply drained_ok; [done|]. cbn. done.
  - destruct Hd as (Hh & Happ & -> & He & Hp & Hv). intros [= <-]. exists (F + 1). split; [by apply freed_ok|lia].
  - destruct Hd as (Happ & -> & He & Hpos & Hv). intros [= <-]. exists (pos + 1). split; [|lia].
    apply drained_ok; [done|]. cbn. unfold wrap_u64. rewrite Z.mod_small by lia. split; [done|]. split; [|split; [done|unfold queued_by in *; cbn; lia]].
    rewrite Happ. replace (Z.to_nat (pos + 1)) with (S (Z.to_nat pos)) by lia. apply take_next. rewrite list_lookup_fmap. exact Hv.
Qed.

Lemma push_step_ok s t weak s' F : queue_ok s F → push_step t weak s = Some s' → queued_by s' < 2 ^ 62 → queue_ok s' F.
Proof.
  intros Hq E Hb. unfold push_step in E. pose proof (qo_pushers _ _ Hq t) as Ht. unfold pusher_ok in Ht. destruct (qo_freed _ _ Hq) as [HF HT]. pose proof (qo_bound _ _ Hq).
  pose proof (qo_tail _ _ Hq) as Htl. destruct (pusher s t) as [|v|v pos|v pos|v pos|v pos] eqn:Ep; [done|..].
  - injection E as <-. apply moved_ok; try done; [by rewrite Ep|]. unfold pusher_ok. cbn. rewrite Z.eqb_refl, Htl. unfold queued_by in *. cbn. lia.
  - destruct (cells (ring s) !! cell_of pos) as [c|] eqn:Ec; [|done]. cbn in E.
    assert (0 ≤ pos mod CAPACITY < CAPACITY) as Hm by (apply Z.mod_pos_bound; done).
    destruct (qo_cells _ _ Hq _ c Hm Ec) as (b & Hbp & Hs & _). pose proof (ticket_range F (pos mod CAPACITY)) as Htr. pose proof (ticket_mod F _ Hm) as Htm.
    assert (b2z b = 0 ∨ b2z b = 1) as Hb01 by (destruct b; cbn; lia). unfold CAPACITY in *.
    assert (wrap_i64 (seq c - pos) = seq c - pos) as Ew by (unfold wrap_i64; rewrite Z.mod_small; lia). rewrite Ew in E.
    destruct (Z.sgn (seq c - pos)) as [|p|p] eqn:Esg.
    + injection E as <-. apply moved_ok; try done; [by rewrite Ep|]. unfold pusher_ok. cbn. rewrite Z.eqb_refl. unfold queued_by in *. cbn. unfold CAPACITY.
      assert (seq c = pos) as Hsp by lia. split; [done|]. enough (ticket F (pos mod 1024) = pos) by lia.
      destruct Hb01 as [Hb0|Hb1]; [lia|]. exfalso. assert ((ticket F (pos mod 1024)) = pos - 1) as E1 by lia. rewrite E1 in Htm. dlia.
    + assert (queue_ok (goto t (Begins v) (ring s) s) F) as Hok by (apply moved_ok; try done; [by rewrite Ep|]; unfold pusher_ok; cbn; by rewrite Z.eqb_refl).
      by destruct p; injection E as <-.
    + assert (queue_ok (goto t (Begins v) (ring s) s) F) as Hok by (apply moved_ok; try done; [by rewrite Ep|]; unfold pusher_ok; cbn; by rewrite Z.eqb_refl).
      destruct p; [by injection E as <-..|]. injection E as <-. apply (moved_ok s t Outside (ring s) (returns s ++ [(t, v, false)]) F); try done; [by rewrite Ep|]. unfold pusher_ok. cbn. by rewrite Z.eqb_refl.
  - destruct ((_ =? _) && _) eqn:Ecas.
    + apply andb_true_iff in Ecas as [Et%Z.eqb_eq _]. injection E as <-. apply claim_ok; try done. unfold queued_by in *. cbn in Hb. rewrite length_app in Hb. cbn in Hb. lia.
    + injection E as <-. apply moved_ok; try done; [by rewrite Ep|]. unfold pusher_ok. cbn. rewrite Z.eqb_refl, Htl. unfold queued_by in *. cbn. lia.
  - injection E as <-. by apply written_ok.
  - injection E as <-. by apply (published_ok s t v pos F (returns s ++ [(t, v, true)])).
Qed.

Lemma queue_default_ok : queue_ok (queue_default : Queue A) 0.
Proof.
  split; try done.
  - intros i c Hi Hc. cbn in Hc. rewrite list_lookup_fmap in Hc. destruct (List.seq 0 (Z.to_nat CAPACITY) !! Z.to_nat i) as [k|] eqn:Ek; [|done].
    apply lookup_seq in Ek as [-> _]. cbn in Hc. injection Hc as <-. exists false. unfold ticket. rewrite Z.sub_0_r, Z.mod_small by done.
    split; [split; [done|]|split; [cbn; lia|]].
    + intros [Hlt _]. unfold queued_by in Hlt. cbn in Hlt. lia.
    + intros [|(t & v & Hw)]; done.
Qed.

Lemma queue_step_ok ev s s' F : queue_ok s F → queue_step ev s = Some s' → queued_by s' < 2 ^ 62 → ∃ F', queue_ok s' F' ∧ F ≤ F'.
Proof.
  intros Hq E Hb. destruct ev as [t v|t weak| |]; cbn in E.
  - destruct (pusher s t) eqn:Ep; try done. injection E as <-. exists F. split; [|lia]. apply moved_ok; try done; [by rewrite Ep|].
    unfold pusher_ok. cbn. by rewrite Z.eqb_refl.
  - exists F. split; [|lia]. by eapply push_step_ok.
  - destruct (drainer s) eqn:Ed; try done. injection E as <-. exists F. split; [|lia]. pose proof (qo_drainer _ _ Hq) as Hd. unfold drainer_ok in Hd. rewrite Ed in Hd.
    assert (ring s = mk_pending (cells (ring s)) (tail (ring s)) (head (ring s))) as Er by by destruct (ring s). rewrite Er at 2.
    apply drained_ok; [done|]. cbn. rewrite (qo_tail _ _ Hq). pose proof (qo_freed _ _ Hq). unfold queued_by in *. split_and!; try apply Hd; cbn; lia.
  - by eapply drain_step_ok.
Qed.

(** The tickets claimed only grow. *)
Lemma queue_step_claims ev s s' : queue_step ev s = Some s' → ∃ l, claims s' = claims s ++ l.
Proof.
  destruct ev as [t v|t weak| |]; cbn; unfold push_step, drain_step; intros E; repeat (case_match; simplify_eq/=; try done);
    try (by exists []; rewrite app_nil_r); try (by eexists).
  all: destruct (cells (ring s) !! _) as [c|]; simplify_eq/=; repeat (case_match; simplify_eq/=; try done); try (by exists []; rewrite app_nil_r).
  all: destruct (value c); simplify_eq/=; by exists []; rewrite app_nil_r.
Qed.

Lemma queue_run_claims evs s s' : queue_run evs s = Some s' → ∃ l, claims s' = claims s ++ l.
Proof.
  revert s. induction evs as [|ev evs IH]; intros s; cbn; [intros [= <-]; exists []; by rewrite app_nil_r|].
  destruct (queue_step ev s) as [s1|] eqn:E; [|done]. cbn. intros [l Hl]%IH. apply queue_step_claims in E as [l1 Hl1].
  exists (l1 ++ l). by rewrite Hl, Hl1, (assoc_L (++)).
Qed.

Lemma queue_run_ok evs s s' F : queue_ok s F → queue_run evs s = Some s' → queued_by s' < 2 ^ 62 → ∃ F', queue_ok s' F' ∧ F ≤ F'.
Proof.
  revert s F. induction evs as [|ev evs IH]; intros s F Hq; cbn; [intros [= <-]; eauto with lia|].
  destruct (queue_step ev s) as [s1|] eqn:E; [|done]. cbn. intros Er Hb. destruct (queue_run_claims evs s1 s' Er) as [l Hl].
  destruct (queue_step_ok ev s s1 F Hq E) as (F1 & Hq1 & Hle).
  - unfold queued_by in *. rewrite Hl, length_app in Hb. lia.
  - destruct (IH s1 F1 Hq1 Er Hb) as (F2 & Hq2 & Hle2). exists F2. split; [done|lia].
Qed.


(** *** What the invariant says of the values applied *)

Definition reached s : Prop := ∃ evs, queue_run evs queue_default = Some s ∧ queued_by s < 2 ^ 62.

Lemma reached_ok s : reached s → ∃ F, queue_ok s F.
Proof. intros (evs & E & Hb). destruct (queue_run_ok evs queue_default s 0 queue_default_ok E Hb) as (F & Hq & _). eauto. Qed.

Lemma applied_length s F : queue_ok s F → Z.of_nat (length (applied s)) = match drainer s with Freed _ _ _ => F - 1 | _ => F end.
Proof.
  intros Hq. pose proof (qo_drainer _ _ Hq) as Hd. pose proof (qo_freed _ _ Hq) as [HF _]. unfold drainer_ok, queued_by in *.
  destruct (drainer s) as [|e|e p|e p|e p w|e p w].
  1-5: destruct Hd as (_ & Ha & _) || destruct Hd as [_ Ha]; rewrite Ha, length_take, length_map; lia.
  destruct Hd as (-> & -> & ? & ? & _). rewrite length_take, length_map. lia.
Qed.

Lemma applied_take s F : queue_ok s F → applied s = take (length (applied s)) (map snd (claims s)).
Proof.
  intros Hq. pose proof (applied_length s F Hq) as Hl. pose proof (qo_drainer _ _ Hq) as Hd. unfold drainer_ok in *.
  destruct (drainer s) as [|e|e p|e p|e p w|e p w].
  1-5: destruct Hd as (_ & Ha & _) || destruct Hd as [_ Ha]; rewrite Ha at 1; f_equal; lia.
  destruct Hd as (Ha & -> & _). rewrite Ha at 1. f_equal. lia.
Qed.

(** The drain never looks past the slots, nor at a value no push has written. *)
Lemma drain_never_stuck s F : queue_ok s F → drainer s ≠ Done → is_Some (drain_step s).
Proof.
  intros Hq Hne. pose proof (qo_drainer _ _ Hq) as Hd. unfold drain_step, drainer_ok in *. destruct (qo_freed _ _ Hq) as [HF HT].
  assert (∀ p, is_Some (cells (ring s) !! cell_of p)) as Hin.
  { intros p. apply lookup_lt_is_Some. rewrite (qo_size _ _ Hq). unfold cell_of. pose proof (Z.mod_pos_bound p CAPACITY ltac:(done)). lia. }
  destruct (drainer s) as [|e|e p|e p|e p w|e p w]; [done|by eexists| | |by eexists..].
  - destruct (p =? e); [by eexists|]. destruct (Hin p) as [c ->]. by eexists.
  - destruct (Hin p) as [c Ec]. rewrite Ec. cbn. destruct Hd as (_ & _ & -> & He & Hp).
    assert (0 ≤ F mod CAPACITY < CAPACITY) as Hm by (apply Z.mod_pos_bound; done).
    destruct (qo_cells _ _ Hq (F mod CAPACITY) c Hm Ec) as (b & Hb & _ & Hv). rewrite ticket_near in * by (unfold CAPACITY; lia).
    rewrite Hv by (left; by apply Hb). unfold value_at. destruct (lookup_lt_is_Some_2 (claims s) (Z.to_nat F)) as [x Hx]; [unfold queued_by in *; lia|].
    rewrite Hx. by eexists.
Qed.

(** *** The pushes of one thread *)

Definition in_hand (p : Pusher A) : list A := match p with Claimed v _ | Written v _ => [v] | _ => [] end.
Definition claimed_by (t : Z) s : list A := omap (λ x, if x.1 =? t then Some x.2 else None) (claims s).
Definition queued_for (t : Z) s : list A := omap (λ x : Z * A * bool, if (x.1.1 =? t) && x.2 then Some x.1.2 else None) (returns s).
Definition own_claims s : Prop := ∀ t, claimed_by t s = queued_for t s ++ in_hand (pusher s t).

Lemma push_step_own s t weak s' : own_claims s → push_step t weak s = Some s' → own_claims s'.
Proof.
  intros Ho E u. pose proof (Ho u) as Hu. unfold claimed_by, queued_for in *. unfold push_step in E.
  assert (∀ v ok, omap (λ x : Z * A * bool, if (x.1.1 =? u) && x.2 then Some x.1.2 else None) (returns s ++ [(t, v, ok)]) =
    omap (λ x : Z * A * bool, if (x.1.1 =? u) && x.2 then Some x.1.2 else None) (returns s) ++ (if (t =? u) && ok then [v] else [])) as Hr
    by (intros v ok; rewrite omap_app; cbn; by destruct (t =? u), ok).
  destruct (pusher s t) as [|v|v pos|v pos|v pos|v pos] eqn:Ep; [done|..].
  - injection E as <-. cbn. destruct (Z.eqb_spec u t) as [->|]; [|done]. by rewrite Hu, Ep.
  - destruct (cells (ring s) !! cell_of pos) as [c|]; [|done]. cbn in E. destruct (Z.sgn _) as [|[]|[]]; injection E as <-; cbn; rewrite ?Hr, ?andb_false_r, ?app_nil_r;
      (destruct (Z.eqb_spec u t) as [->|]; [|done]); by rewrite Hu, Ep.
  - destruct ((_ =? _) && _); injection E as <-; cbn; [|destruct (Z.eqb_spec u t) as [->|]; [|done]; by rewrite Hu, Ep].
    rewrite omap_app, Hu. cbn. rewrite (Z.eqb_sym t u). destruct (Z.eqb_spec u t) as [->|]; [|by rewrite app_nil_r]. rewrite Ep. cbn. by rewrite app_nil_r.
  - injection E as <-. cbn. destruct (Z.eqb_spec u t) as [->|]; [|done]. by rewrite Hu, Ep.
  - injection E as <-. cbn. rewrite Hr, (Z.eqb_sym t u), andb_true_r. destruct (Z.eqb_spec u t) as [->|].
    + by rewrite Hu, Ep, app_nil_r.
    + by rewrite Hu, app_nil_r.
Qed.

Lemma queue_step_own ev s s' : own_claims s → queue_step ev s = Some s' → own_claims s'.
Proof.
  intros Ho. destruct ev as [t v|t weak| |]; cbn.
  - destruct (pusher s t) eqn:Ep; try done. intros [= <-] u. pose proof (Ho u) as Hu. unfold claimed_by, queued_for in *. cbn.
    destruct (Z.eqb_spec u t) as [->|]; [|done]. by rewrite Hu, Ep.
  - by apply push_step_own.
  - destruct (drainer s); try done. by intros [= <-].
  - unfold drain_step. intros E. destruct (drainer s) as [|e|e p|e p|e p w|e p w]; simplify_eq/=; try exact Ho.
    + destruct (p =? e); [by injection E as <-|]. destruct (_ !! _); simplify_eq/=. exact Ho.
    + destruct (_ !! _) as [c|]; simplify_eq/=. destruct (value c); simplify_eq/=. exact Ho.
Qed.

Lemma queue_run_own evs s s' : own_claims s → queue_run evs s = Some s' → own_claims s'.
Proof.
  revert s. induction evs as [|ev evs IH]; intros s Ho; cbn; [by intros [= <-]|]. destruct (queue_step ev s) as [s1|] eqn:E; [|done]. cbn. apply IH.
  by eapply queue_step_own.
Qed.

(** A push is refused only when every slot waits to be drained. *)
Lemma refused_full s t weak s' v F : queue_ok s F → push_step t weak s = Some s' → returns s' = returns s ++ [(t, v, false)] →
  F + CAPACITY = queued_by s.
Proof.
  intros Hq E Hr. unfold push_step in E. pose proof (qo_pushers _ _ Hq t) as Ht. unfold pusher_ok in Ht. destruct (qo_freed _ _ Hq) as [HF HT].
  pose proof (qo_bound _ _ Hq). assert (returns s ≠ returns s ++ [(t, v, false)]) as Hne by (intros Hx; apply (f_equal length) in Hx; rewrite length_app in Hx; cbn in Hx; lia).
  destruct (pusher s t) as [|w|w pos|w pos|w pos|w pos]; [done|..].
  - by injection E as <-.
  - destruct (cells (ring s) !! cell_of pos) as [c|] eqn:Ec; [|done]. cbn in E.
    assert (0 ≤ pos mod CAPACITY < CAPACITY) as Hm by (apply Z.mod_pos_bound; done).
    destruct (qo_cells _ _ Hq _ c Hm Ec) as (b & _ & Hs & _). pose proof (ticket_range F (pos mod CAPACITY)) as Htr. pose proof (ticket_mod F _ Hm) as Htm.
    assert (b2z b = 0 ∨ b2z b = 1) as Hb01 by (destruct b; cbn; lia). unfold CAPACITY in *.
    assert (wrap_i64 (seq c - pos) = seq c - pos) as Ew by (unfold wrap_i64; rewrite Z.mod_small; lia). rewrite Ew in E.
    destruct (Z.sgn (seq c - pos)) as [|[]|[]] eqn:Esg; injection E as <-; try done. dlia.
  - by destruct ((_ =? _) && _); injection E as <-.
  - by injection E as <-.
  - injection E as <-. cbn in Hr. apply app_inv_head in Hr. done.
Qed.


(** *** One drain *)

Definition end_of (d : Drainer A) : option Z :=
  match d with Done => None | Ends e | Loops e _ | Filled e _ | Read e _ _ | Freed e _ _ => Some e end.

Lemma drain_until s s' ev F e : queue_ok s F → queue_step ev s = Some s' → end_of (drainer s) = Some e →
  end_of (drainer s') = Some e ∨ drainer s' = Done ∧ Z.of_nat (length (applied s')) = e.
Proof.
  intros Hq E He. pose proof (applied_length s F Hq) as Hl. pose proof (qo_drainer _ _ Hq) as Hd. unfold drainer_ok in Hd.
  destruct ev as [t v|t weak| |]; cbn in E.
  - destruct (pusher s t); simplify_eq. by left.
  - left. unfold push_step in E. destruct (pusher s t); simplify_eq/=; try done.
    + destruct (_ !! _); simplify_eq/=. destruct (Z.sgn _) as [|[]|[]]; by simplify_eq/=.
    + by destruct ((_ =? _) && _); simplify_eq/=.
  - by destruct (drainer s).
  - unfold drain_step in E. destruct (drainer s) as [|e1|e1 p|e1 p|e1 p w|e1 p w]; simplify_eq/=; try by left.
    + destruct (Z.eqb_spec p e); [|destruct (_ !! _); simplify_eq/=; left; by destruct (_ =? _)]. simplify_eq/=. right. split; [done|]. lia.
    + destruct (_ !! _) as [c|]; simplify_eq/=. destruct (value c); simplify_eq/=. by left.
Qed.

Lemma done_stays s s' ev : queue_step ev s = Some s' → ev ≠ Drain → drainer s = Done → drainer s' = Done ∧ applied s' = applied s.
Proof.
  intros E Hne Hd. destruct ev as [t v|t weak| |]; cbn in E; try done.
  - by destruct (pusher s t); simplify_eq.
  - unfold push_step in E. destruct (pusher s t); simplify_eq/=; try done.
    + destruct (_ !! _); simplify_eq/=. destruct (Z.sgn _) as [|[]|[]]; by simplify_eq/=.
    + by destruct ((_ =? _) && _); simplify_eq/=.
  - unfold drain_step in E. by rewrite Hd in E.
Qed.

Lemma run_done_stays evs s s' : queue_run evs s = Some s' → Drain ∉ evs → drainer s = Done → applied s' = applied s.
Proof.
  revert s. induction evs as [|ev evs IH]; intros s E Hno Hd; [by injection E as ->|]. cbn in E. destruct (queue_step ev s) as [s1|] eqn:E1; [|done].
  apply not_elem_of_cons in Hno as [Hne Hno]. destruct (done_stays s s1 ev E1 (not_eq_sym Hne) Hd) as [Hd1 <-]. by apply IH.
Qed.

Lemma run_drain_until evs s s' F e : queue_ok s F → queue_run evs s = Some s' → Drain ∉ evs → queued_by s' < 2 ^ 62 →
  end_of (drainer s) = Some e → drainer s' = Done → Z.of_nat (length (applied s')) = e.
Proof.
  revert s F. induction evs as [|ev evs IH]; intros s F Hq E Hno Hb He Hd.
  - injection E as ->. by rewrite Hd in He.
  - cbn in E. destruct (queue_step ev s) as [s1|] eqn:E1; [|done]. apply not_elem_of_cons in Hno as [Hne Hno].
    destruct (drain_until s s1 ev F e Hq E1 He) as [He1|[Hd1 Hl]].
    + destruct (queue_run_claims evs s1 s' E) as [l Hl]. destruct (queue_step_ok ev s s1 F Hq E1) as (F1 & Hq1 & _); [|by apply (IH s1 F1)].
      unfold queued_by in *. rewrite Hl, length_app in Hb. lia.
    + by rewrite (run_done_stays evs s1 s' E Hno Hd1).
Qed.

(** How many accesses are left of the drain once no push is midway. *)
Definition left_of s : Z :=
  match drainer s with
  | Done => 0
  | Ends e => 4 * (e - head (ring s)) + 2
  | Loops e p => 4 * (e - p) + 1
  | Filled e p => 4 * (e - p)
  | Read e p _ => 4 * (e - p) - 1
  | Freed e p _ => 4 * (e - p) - 2
  end.

Lemma left_of_range s F : queue_ok s F → drainer s ≠ Done → 0 < left_of s ≤ 4 * CAPACITY + 2.
Proof.
  intros Hq Hd. pose proof (qo_drainer _ _ Hq) as Hdo. pose proof (qo_freed _ _ Hq). unfold left_of, drainer_ok in *.
  destruct (drainer s) as [|e|e p|e p|e p w|e p w]; [done|lia..].
Qed.

Lemma drain_alone_step s F : queue_ok s F → drainer s ≠ Done → (∀ t, filling (pusher s t) = false) →
  ∃ s', drain_step s = Some s' ∧ pusher s' = pusher s ∧ claims s' = claims s ∧ left_of s' < left_of s.
Proof.
  intros Hq Hne Hf. destruct (drain_never_stuck s F Hq Hne) as [s' E]. exists s'. split; [done|]. pose proof (qo_drainer _ _ Hq) as Hd.
  destruct (qo_freed _ _ Hq) as [HF HT]. pose proof (qo_bound _ _ Hq). unfold drain_step, left_of, drainer_ok in *.
  destruct (drainer s) as [|e|e p|e p|e p w|e p w] eqn:Ed; [done|..]; simplify_eq/=; try (split_and!; [done..|cbn; lia]).
  - destruct Hd as (_ & _ & -> & He). destruct (Z.eqb_spec F e); [simplify_eq/=; split_and!; [done..|lia]|].
    destruct (cells (ring s) !! cell_of F) as [c|] eqn:Ec; simplify_eq/=. split; [done|]. split; [done|].
    assert (0 ≤ F mod CAPACITY < CAPACITY) as Hm by (apply Z.mod_pos_bound; done).
    destruct (qo_cells _ _ Hq (F mod CAPACITY) c Hm Ec) as (b & Hb & Hs & _). rewrite ticket_near in * by (unfold CAPACITY; lia).
    assert (b = true) as ->. { apply Hb. split; [lia|]. intros t v. specialize (Hf t). by destruct (pusher s t). }
    cbn in Hs. unfold wrap_u64. rewrite Z.mod_small by lia. rewrite Hs, Z.eqb_refl. lia.
  - destruct (_ !! _) as [c|]; simplify_eq/=. destruct (value c); simplify_eq/=. split_and!; [done..|lia].
  - split_and!; [done..|]. unfold wrap_u64. rewrite Z.mod_small; lia.
Qed.

Lemma drain_alone n s F : queue_ok s F → (∀ t, filling (pusher s t) = false) → left_of s ≤ Z.of_nat n →
  ∃ k s', (k ≤ n)%nat ∧ queue_run (replicate k Drains) s = Some s' ∧ drainer s' = Done ∧ claims s' = claims s.
Proof.
  revert s F. induction n as [|n IH]; intros s F Hq Hf Hl.
  - exists 0%nat, s. split; [lia|]. split; [done|]. split; [|done]. destruct (drainer s) eqn:Ed; [done|..]; pose proof (left_of_range s F Hq ltac:(by rewrite Ed)); lia.
  - destruct (drainer s) eqn:Ed; [by exists 0%nat, s; split; [lia|]|..].
    all: destruct (drain_alone_step s F Hq ltac:(by rewrite Ed) Hf) as (s1 & E1 & Ep & Ec & Hlt).
    all: destruct (drain_step_ok s s1 F Hq E1) as (F1 & Hq1 & _); destruct (IH s1 F1 Hq1) as (k & s2 & Hk & E2 & Hd2 & Ec2); [by rewrite Ep|lia|].
    all: exists (S k), s2; split; [lia|]; cbn; rewrite E1, Ec2; done.
Qed.

(** C10: whatever the interleaving of pushes and drains, what has been applied is an initial part of
    the changes in the order in which their tickets were claimed: each change is applied once, none
    is lost or made up, and the drain never reads a slot no push has filled. *)
Theorem queue_in_order s : reached s →
  applied s = take (length (applied s)) (map snd (claims s)) ∧
  (length (claims s) ≤ length (applied s) + Z.to_nat CAPACITY + 1)%nat ∧
  (drainer s ≠ Done → is_Some (drain_step s)).
Proof.
  intros [F Hq]%reached_ok. split; [by eapply applied_take|]. split; [|by apply (drain_never_stuck s F)].
  pose proof (applied_length s F Hq). destruct (qo_freed _ _ Hq) as [HF HT]. unfold queued_by, CAPACITY in *. destruct (drainer s); lia.
Qed.

(** the changes a thread's pushes said were queued are, in that order, the tickets it claimed,
    the one it is still filling aside; and a push says the queue is full only when as many changes
    as it has slots wait to be applied. *)
Theorem pushes_accounted s t : reached s →
  claimed_by t s = queued_for t s ++ in_hand (pusher s t) ∧
  ∀ weak s' v, queue_step (Pushes t weak) s = Some s' → returns s' = returns s ++ [(t, v, false)] →
    (length (applied s) + Z.to_nat CAPACITY ≤ length (claims s))%nat.
Proof.
  intros Hr. pose proof Hr as (evs & E & _). destruct (reached_ok s Hr) as [F Hq]. split.
  - apply (queue_run_own evs queue_default s); [by intros u|done].
  - intros weak s' v Es Hx. pose proof (refused_full s t weak s' v F Hq Es Hx) as Hfull. pose proof (applied_length s F Hq).
    unfold queued_by, CAPACITY in *. destruct (drainer s); lia.
Qed.

(** a drain applies every change whose ticket was claimed before it began, however the pushes
    interleave with it; and once no push is midway through filling a slot it ends by itself, within
    four accesses for each slot and two more. *)
Theorem drain_takes_everything s : reached s → drainer s = Done →
  (∀ evs s', queue_run (Drain :: evs) s = Some s' → Drain ∉ evs → queued_by s' < 2 ^ 62 → drainer s' = Done →
    take (length (claims s)) (applied s') = map snd (claims s)) ∧
  ((∀ t, filling (pusher s t) = false) →
    ∃ k s', (k ≤ 4 * Z.to_nat CAPACITY + 2)%nat ∧ queue_run (Drain :: replicate k Drains) s = Some s' ∧ drainer s' = Done ∧
      applied s' = map snd (claims s)).
Proof.
  intros Hr Hd. destruct (reached_ok s Hr) as [F Hq].
  assert (∃ s1, queue_step Drain s = Some s1) as [s1 E1] by (cbn; rewrite Hd; by eexists).
  destruct (queue_step_ok Drain s s1 F Hq E1) as (F1 & Hq1 & _).
  { cbn in E1. rewrite Hd in E1. injection E1 as <-. apply (qo_bound _ _ Hq). }
  assert (end_of (drainer s1) = Some (queued_by s) ∧ pusher s1 = pusher s ∧ claims s1 = claims s) as (He & Ep & Ec).
  { cbn in E1. rewrite Hd in E1. injection E1 as <-. cbn. by rewrite (qo_tail _ _ Hq). }
  assert (∀ evs s', queue_run evs s1 = Some s' → Drain ∉ evs → queued_by s' < 2 ^ 62 → drainer s' = Done →
    length (applied s') = length (claims s) ∧ applied s' = take (length (claims s)) (map snd (claims s'))) as Hall.
  { intros evs s' E Hno Hb Hd'. pose proof (run_drain_until evs s1 s' F1 _ Hq1 E Hno Hb He Hd') as Hl.
    destruct (queue_run_ok evs s1 s' F1 Hq1 E Hb) as (F2 & Hq2 & _). unfold queued_by in Hl. assert (length (applied s') = length (claims s)) as El by lia.
    split; [done|]. rewrite <- El. by eapply applied_take. }
  split.
  - intros evs s' E Hno Hb Hd'. cbn [queue_run] in E. rewrite E1 in E. cbn in E.
    destruct (Hall evs s' E Hno Hb Hd') as [El ->]. destruct (queue_run_claims evs s1 s' E) as [l Hl].
    rewrite take_take, Nat.min_id, Hl, Ec, map_app, take_app_le by (rewrite length_map; lia). apply take_ge. rewrite length_map. lia.
  - intros Hf. destruct (drain_alone (4 * Z.to_nat CAPACITY + 2) s1 F1 Hq1) as (k & s' & Hk & E & Hd' & Ec'); [by rewrite Ep| |].
    { pose proof (left_of_range s1 F1 Hq1) as Hl. destruct (drainer s1); try done; unfold CAPACITY in *; specialize (Hl ltac:(done)); lia. }
    exists k, s'. split; [done|]. split; [by cbn [queue_run]; rewrite E1|]. split; [done|].
    destruct (Hall (replicate k Drains) s' E) as [_ ->].
    + by intros [? _]%elem_of_replicate.
    + unfold queued_by. rewrite Ec', Ec. apply (qo_bound _ _ Hq).
    + done.
    + rewrite Ec', Ec. apply take_ge. by rewrite length_map.
Qed.

End inv.

(** Two threads push, the second overtaking the first between its ticket and its value, and the
    holder of the lock drains while they do. *)
Definition pushed : list (Event Z) :=
  [Push 1 10; Pushes 1 false; Pushes 1 false; Pushes 1 false;
   Push 2 20; Pushes 2 false; Pushes 2 false; Pushes 2 true; Pushes 2 false; Pushes 2 false; Pushes 2 false; Pushes 2 false].
Definition after (evs : list (Event Z)) : Queue Z := default queue_default (queue_run evs queue_default).
Definition end_drain : list (Event Z) := pushed ++ [Drain; Drains; Drains; Pushes 1 false; Drains; Pushes 1 false] ++ replicate 9 Drains.

Lemma after_reached evs : is_Some (queue_run evs queue_default) → queued_by (after evs) < 2 ^ 62 → reached (after evs).
Proof. intros [s E] Hb. exists evs. unfold after in *. rewrite E in *. done. Qed.

Lemma queue_in_order_witness : applied (after end_drain) = [10; 20] ∧
  applied (after end_drain) = take (length (applied (after end_drain))) (map snd (claims (after end_drain))).
Proof.
  split; [by vm_compute|]. apply (queue_in_order (after end_drain)). apply after_reached; [by vm_compute; eexists|by vm_compute].
Defined.

Lemma pushes_accounted_witness : queued_for 1 (after pushed) = [] ∧ claimed_by 1 (after pushed) = queued_for 1 (after pushed) ++ in_hand (pusher (after pushed) 1).
Proof.
  split; [by vm_compute|]. apply (pushes_accounted (after pushed) 1). apply after_reached; [by vm_compute; eexists|by vm_compute].
Defined.

(** The drain that meets the slow push: it waits for it and takes both. *)
Definition met : list (Event Z) := [Drains; Drains; Pushes 1 false; Drains; Pushes 1 false] ++ replicate 9 Drains.

Lemma drain_takes_everything_witness : drainer (after pushed) = Done ∧ take 2 (applied (after end_drain)) = [10; 20].
Proof.
  split; [by vm_compute|].
  apply (drain_takes_everything (after pushed)) with (evs := met).
  - apply after_reached; [by vm_compute; eexists|by vm_compute].
  - by vm_compute.
  - by vm_compute.
  - rewrite list_elem_of_In. cbn. intuition done.
  - by vm_compute.
  - by vm_compute.
Defined.
