(* ===== verification/FsData.v ===== *)
(** * The contents of a simulated file

    [Volume] and [SparseFile] of crates/snare/src/fs_sim.rs: a file's bytes in pages, of which only
    those written are kept, and the space they take of the file system's volume. A file mapped into
    memory, whose bytes move to an object of the host ([Backing]), is not modelled. [memory] says
    whether the host has the memory for the page of an index. *)

From S2P Require Import Prelude.

Definition PAGE_SIZE : Z := 4096.
Definition zero_page : list Z := replicate (Z.to_nat PAGE_SIZE) 0.
#[global] Arguments zero_page : simpl never.

Record Volume := mk_volume { capacity : Z; used : Z; files : Z }.

(** [reserve] *)
Definition reserve (v : Volume) : option Volume :=
  if used v <? capacity v then Some (mk_volume (capacity v) (used v + 1) (files v)) else None.
(** [used.fetch_sub] *)
Definition give_pages (n : Z) (v : Volume) : Volume := mk_volume (capacity v) (used v - n) (files v).

Record SparseFile := mk_sparse { pages : gmap Z (list Z); flen : Z }.

(** The pages of [bytes.chunks(PAGE_SIZE)] from index [i] on, each filled up with zeros *)
Fixpoint chunks (fuel : nat) (i : Z) (bytes : list Z) : gmap Z (list Z) :=
  match fuel, bytes with
  | S fuel, _ :: _ =>
      let chunk := take (Z.to_nat PAGE_SIZE) bytes in
      <[i := chunk ++ replicate (Z.to_nat PAGE_SIZE - length chunk) 0]> (chunks fuel (i + 1) (drop (Z.to_nat PAGE_SIZE) bytes))
  | _, _ => ∅
  end.
(** [SparseFile::new] *)
Definition sparse_new (bytes : list Z) : SparseFile :=
  mk_sparse (chunks (length bytes) 0 bytes) (Z.of_nat (length bytes)).

Definition n_pages (f : SparseFile) : Z := Z.of_nat (size (pages f)).

(** [attach]: [None] where it panics *)
Definition attach (f : SparseFile) (v : Volume) : option Volume :=
  if used v + n_pages f <=? capacity v then Some (mk_volume (capacity v) (used v + n_pages f) (files v + 1)) else None.
(** [drop] *)
Definition drop_file (f : SparseFile) (v : Volume) : Volume :=
  mk_volume (capacity v) (used v - n_pages f) (files v - 1).

(** [page[n..].fill(0)] *)
Definition zero_from (n : nat) (page : list Z) : list Z := take n page ++ replicate (length page - n) 0.

(** [resize], [clear] *)
Definition resize (length : Z) (f : SparseFile) (v : Volume) : SparseFile * Volume :=
  let kept := filter (λ '(index, _), index < div_ceil length PAGE_SIZE) (pages f) in
  let kept' := alter (zero_from (Z.to_nat (length mod PAGE_SIZE))) (length / PAGE_SIZE) kept in
  (mk_sparse kept' length, give_pages (n_pages f - Z.of_nat (size kept')) v).
Definition clear (f : SparseFile) (v : Volume) : SparseFile * Volume := resize 0 f v.

(** The loop of [read]: [count] bytes at [offset], a page at a time *)
Fixpoint read_loop (fuel : nat) (f : SparseFile) (offset count : Z) : list Z :=
  match fuel with
  | O => []
  | S fuel =>
      if count <=? 0 then []
      else
        let within := offset mod PAGE_SIZE in
        let n := Z.min (PAGE_SIZE - within) count in
        match pages f !! (offset / PAGE_SIZE) with
        | Some page => take (Z.to_nat n) (drop (Z.to_nat within) page)
        | None => replicate (Z.to_nat n) 0
        end ++ read_loop fuel f (offset + n) (count - n)
  end.
(** [SparseFile::read] *)
Definition sparse_read (start len : Z) (f : SparseFile) : list Z :=
  let count := Z.min len (sat_sub (flen f) start) in
  read_loop (Z.to_nat count) f start count.

Section write.
Context (memory : Z → bool).

(** [allocate] *)
Definition allocate (index : Z) (f : SparseFile) (v : Volume) : errno + (SparseFile * Volume) :=
  match pages f !! index with
  | Some _ => inr (f, v)
  | None =>
      match reserve v with
      | None => inl ENOSPC
      | Some v' =>
          if memory index then inr (mk_sparse (<[index := zero_page]> (pages f)) (flen f), v')
          else inl ENOMEM
      end
  end.

(** The first loop of [write]: the pages of what is left to write, and how many of its bytes they
    hold, or the error that ended it *)
Fixpoint allocate_loop (fuel : nat) (offset left : Z) (f : SparseFile) (v : Volume) : Z * option errno * SparseFile * Volume :=
  match fuel with
  | O => (0, None, f, v)
  | S fuel =>
      if left <=? 0 then (0, None, f, v)
      else
        match allocate (offset / PAGE_SIZE) f v with
        | inl e => (0, Some e, f, v)
        | inr (f, v) =>
            let n := Z.min (PAGE_SIZE - offset mod PAGE_SIZE) left in
            let '(m, e, f, v) := allocate_loop fuel (offset + n) (left - n) f v in (n + m, e, f, v)
        end
  end.

(** The bytes of one page from [within] on *)
Definition put_bytes (within : nat) (bytes page : list Z) : list Z :=
  take within page ++ bytes ++ drop (within + length bytes) page.
(** Its second loop: [None] where a page is missing *)
Fixpoint write_loop (fuel : nat) (offset : Z) (bytes : list Z) (ps : gmap Z (list Z)) : option (gmap Z (list Z)) :=
  match fuel, bytes with
  | S fuel, _ :: _ =>
      let within := offset mod PAGE_SIZE in
      let count := Z.to_nat (Z.min (PAGE_SIZE - within) (Z.of_nat (length bytes))) in
      page ← ps !! (offset / PAGE_SIZE);
      write_loop fuel (offset + Z.of_nat count) (drop count bytes)
        (<[offset / PAGE_SIZE := put_bytes (Z.to_nat within) (take count bytes) page]> ps)
  | _, _ => Some ps
  end.

(** [SparseFile::write]: how much was written or the error, and the file; [None] where it panics *)
Definition sparse_write (start : Z) (bytes : list Z) (f : SparseFile) (v : Volume) : option ((errno + Z) * SparseFile * Volume) :=
  let len := Z.of_nat (length bytes) in
  if i64_max <? start + len then Some (inl EFBIG, f, v)
  else
    let '(allocated, e, f', v') := allocate_loop (length bytes) start len f v in
    match (if allocated =? 0 then e else None) with
    | Some e => Some (inl e, f', v')
    | None =>
        let bytes := take (Z.to_nat allocated) bytes in
        ps ← write_loop (length bytes) start bytes (pages f');
        Some (inr allocated, mk_sparse ps (Z.max (flen f') (start + allocated)), v')
    end.

End write.

(** ** Descriptors and what they share

    [OpenFiles] of crates/snare/src/fs_sim.rs: descriptors name open-file descriptions, which
    several of them may share and which go with the last. A descriptor always names a description
    ([opens_ok]): where the source would panic on one missing, [of_remove] leaves the table as it is. *)

Section open.
Context {T : Type}.

Record OpenFiles := mk_opens { handles : gmap Z Z; descriptions : gmap Z (Z * T); onext : Z }.
Definition opens_default : OpenFiles := mk_opens ∅ ∅ 0.

(** [contains_key], [get] *)
Definition of_contains (fd : Z) (o : OpenFiles) : bool := bool_decide (is_Some (handles o !! fd)).
Definition of_get (fd : Z) (o : OpenFiles) : option T :=
  id ← handles o !! fd; snd <$> descriptions o !! id.
(** [get_mut], with what the caller does to the description *)
Definition of_update (fd : Z) (f : T → T) (o : OpenFiles) : OpenFiles :=
  match handles o !! fd with
  | Some id => mk_opens (handles o) (alter (λ '(r, x), (r, f x)) id (descriptions o)) (onext o)
  | None => o
  end.
(** [remove]: whether the descriptor was there, and the description if it was its last *)
Definition of_remove (fd : Z) (o : OpenFiles) : option (option T) * OpenFiles :=
  match handles o !! fd with
  | None => (None, o)
  | Some id =>
      match descriptions o !! id with
      | Some (refs, x) =>
          if refs - 1 =? 0 then (Some (Some x), mk_opens (delete fd (handles o)) (delete id (descriptions o)) (onext o))
          else (Some None, mk_opens (delete fd (handles o)) (<[id := (refs - 1, x)]> (descriptions o)) (onext o))
      | None => (Some None, o)
      end
  end.
(** [insert] *)
Definition of_insert (fd : Z) (x : T) (o : OpenFiles) : OpenFiles :=
  let o := snd (of_remove fd o) in
  mk_opens (<[fd := onext o]> (handles o)) (<[onext o := (1, x)]> (descriptions o)) (onext o + 1).
(** [alias] *)
Definition of_alias (oldfd newfd : Z) (o : OpenFiles) : option (option T) * OpenFiles :=
  match handles o !! oldfd with
  | None => (None, o)
  | Some id =>
      if oldfd =? newfd then (Some None, o)
      else
        let '(released, o) := of_remove newfd o in
        (Some (mjoin released),
         mk_opens (<[newfd := id]> (handles o)) (alter (λ '(r, x), (r + 1, x)) id (descriptions o)) (onext o))
  end.

(** *** The descriptions and their counts *)

(** How many descriptors name a description *)
Definition named (id : Z) (hs : gmap Z Z) : Z := Z.of_nat (size (filter (λ '(_, j), j = id) hs)).

Record opens_ok (o : OpenFiles) : Prop := {
  oo_there fd id : handles o !! fd = Some id → is_Some (descriptions o !! id);
  oo_refs id r x : descriptions o !! id = Some (r, x) → r = named id (handles o) ∧ 0 < r;
  oo_next id : is_Some (descriptions o !! id) → id < onext o;
}.

Lemma named_insert_new id fd j hs : hs !! fd = None → named id (<[fd := j]> hs) = named id hs + b2z (bool_decide (j = id)).
Proof.
  intros Hn. unfold named. case_bool_decide as E.
  - rewrite map_filter_insert_True by done. rewrite map_size_insert_None; [cbn; lia|]. rewrite map_lookup_filter, Hn. done.
  - rewrite map_filter_insert_False by done. rewrite delete_id by done. cbn. lia.
Qed.

Lemma named_delete id fd j hs : hs !! fd = Some j → named id (delete fd hs) = named id hs - b2z (bool_decide (j = id)).
Proof.
  intros Hj. rewrite <- (insert_delete_id hs fd j Hj) at 2. rewrite named_insert_new by apply lookup_delete_eq. lia.
Qed.

Lemma named_pos id hs : 0 < named id hs ↔ ∃ fd, hs !! fd = Some id.
Proof.
  unfold named. split.
  - intros H. destruct (map_choose (filter (λ '(_, j), j = id) hs)) as (fd & j & Hj).
    + intros E. rewrite E, map_size_empty in H. lia.
    + apply map_lookup_filter_Some in Hj as [Hj ->]. eauto.
  - intros (fd & Hfd). enough (size (filter (λ '(_, j), j = id) hs) ≠ 0%nat) by lia. apply map_size_non_empty_iff. intros E.
    assert ((filter (λ '(_, j), j = id) hs) !! fd = Some id) as Hf by (by apply map_lookup_filter_Some). by rewrite E in Hf.
Qed.

Lemma opens_default_ok : opens_ok opens_default.
Proof. split; intros *; cbn; rewrite ?lookup_empty; try done. Qed.

Lemma of_update_ok fd f o : opens_ok o → opens_ok (of_update fd f o).
Proof.
  intros [Ht Hr Hn]. unfold of_update. destruct (handles o !! fd) as [id|] eqn:E; [|done]. split; cbn.
  - intros fd' id' H. rewrite lookup_alter_is_Some. by eapply Ht.
  - intros id' r x H. apply lookup_alter_Some in H as [(-> & [r' x'] & H & E')|[_ H]]; [injection E' as -> _|]; by eapply Hr.
  - intros id' H. rewrite lookup_alter_is_Some in H. by apply Hn.
Qed.

Lemma of_get_id fd id o : handles o !! fd = Some id → of_get fd o = snd <$> descriptions o !! id.
Proof. intros H. unfold of_get. by rewrite H. Qed.

(** What is left of a table when a descriptor goes *)
Lemma of_remove_ok fd o : opens_ok o → let '(r, o') := of_remove fd o in
  opens_ok o' ∧ handles o' = delete fd (handles o) ∧ onext o' = onext o ∧
  (∀ fd', fd' ≠ fd → of_get fd' o' = of_get fd' o) ∧
  r = match handles o !! fd with
      | None => None
      | Some id => Some (if named id (handles o) =? 1 then of_get fd o else None)
      end.
Proof.
  intros [Ht Hr Hn]. unfold of_remove. destruct (handles o !! fd) as [id|] eqn:E; [|by rewrite delete_id].
  destruct (Ht fd id E) as [[refs x] Hx]. rewrite Hx. destruct (Hr id refs x Hx) as [-> Hpos]. rewrite (of_get_id fd id) by done. rewrite Hx. cbn.
  pose proof (named_delete id fd id (handles o) E) as Hd. rewrite bool_decide_true in Hd by done. cbn in Hd.
  assert (∀ j, j ≠ id → named j (delete fd (handles o)) = named j (handles o)) as Hj.
  { intros j Hne. rewrite (named_delete j fd id) by done. rewrite bool_decide_false by congruence. cbn. lia. }
  destruct (Z.eqb_spec (named id (handles o) - 1) 0) as [E1|E1].
  - destruct (Z.eqb_spec (named id (handles o)) 1); [|lia]. cbn.
    assert (∀ fd', delete fd (handles o) !! fd' ≠ Some id) as Hno.
    { intros fd' Hf. assert (0 < named id (delete fd (handles o))) by (apply named_pos; eauto). lia. }
    split_and!; try done.
    + split; cbn.
      * intros fd' id' Hf. rewrite lookup_delete_ne by (intros ->; by apply Hno in Hf). apply lookup_delete_Some in Hf as [_ Hf]. by eapply Ht.
      * intros id' r y Hy. apply lookup_delete_Some in Hy as [Hne Hy]. rewrite Hj by done. by eapply Hr.
      * intros id' Hs. apply Hn. by apply lookup_delete_is_Some in Hs as [_ ?].
    + intros fd' Hne. unfold of_get. cbn. rewrite lookup_delete_ne by done. destruct (handles o !! fd') as [id'|] eqn:E'; [|done]. cbn.
      rewrite lookup_delete_ne; [done|]. intros <-. apply (Hno fd'). by rewrite lookup_delete_ne.
  - destruct (Z.eqb_spec (named id (handles o)) 1); [lia|]. cbn. split_and!; try done.
    + split; cbn.
      * intros fd' id' Hf. apply lookup_delete_Some in Hf as [_ Hf]. destruct (decide (id' = id)) as [->|]; [rewrite lookup_insert_eq; by eexists|].
        rewrite lookup_insert_ne by done. by eapply Ht.
      * intros id' r y Hy. destruct (decide (id = id')) as [<-|Hne]; [rewrite lookup_insert_eq in Hy; injection Hy as <- <-; lia|].
        rewrite lookup_insert_ne in Hy by done. rewrite Hj by done. by eapply Hr.
      * intros id' Hs. destruct (decide (id = id')) as [<-|Hne]; [apply Hn; by eexists|]. rewrite lookup_insert_ne in Hs by done. by apply Hn.
    + intros fd' Hne. unfold of_get. cbn. rewrite lookup_delete_ne by done. destruct (handles o !! fd') as [id'|] eqn:E'; [|done]. cbn.
      destruct (decide (id = id')) as [<-|]; [by rewrite lookup_insert_eq, Hx|by rewrite lookup_insert_ne].
Qed.

Lemma of_insert_ok fd x o : opens_ok o → let o' := of_insert fd x o in
  opens_ok o' ∧ handles o' = <[fd := onext o]> (handles o) ∧ of_get fd o' = Some x ∧ ∀ fd', fd' ≠ fd → of_get fd' o' = of_get fd' o.
Proof.
  intros Ho. unfold of_insert. pose proof (of_remove_ok fd o Ho) as H. destruct (of_remove fd o) as [r o1]. destruct H as ([Ht Hr Hn] & Hh & Hnx & Hg & _). cbn.
  assert (∀ fd', handles o1 !! fd' ≠ Some (onext o1)) as Hfresh.
  { intros fd' Hf. apply Ht, Hn in Hf. lia. }
  assert (handles o1 !! fd = None) as Hnone by (rewrite Hh; apply lookup_delete_eq).
  split_and!.
  - split; cbn.
    + intros fd' id' Hf. destruct (decide (onext o1 = id')) as [<-|Hne]; [rewrite lookup_insert_eq; by eexists|]. rewrite lookup_insert_ne by done.
      destruct (decide (fd = fd')) as [<-|]; [rewrite lookup_insert_eq in Hf; congruence|]. rewrite lookup_insert_ne in Hf by done. by eapply Ht.
    + intros id' r' y Hy. rewrite named_insert_new by done. destruct (decide (onext o1 = id')) as [<-|Hne].
      * rewrite lookup_insert_eq in Hy. injection Hy as <- <-. rewrite bool_decide_true by done. assert (¬ 0 < named (onext o1) (handles o1)) as Hz.
        { intros [fd' Hf]%named_pos. by apply (Hfresh fd'). } unfold named in *. cbn. lia.
      * rewrite lookup_insert_ne in Hy by done. rewrite bool_decide_false by done. cbn. rewrite Z.add_0_r. by eapply Hr.
    + intros id' Hs. destruct (decide (onext o1 = id')) as [<-|Hne]; [lia|]. rewrite lookup_insert_ne in Hs by done. apply Hn in Hs. lia.
  - rewrite Hh, Hnx. apply insert_delete_eq.
  - unfold of_get. cbn. rewrite lookup_insert_eq. cbn. by rewrite lookup_insert_eq.
  - intros fd' Hne. rewrite <- Hg by done. unfold of_get. cbn. rewrite lookup_insert_ne by done. destruct (handles o1 !! fd') as [id'|] eqn:E; [|done]. cbn.
    rewrite lookup_insert_ne; [done|]. intros <-. by apply (Hfresh fd').
Qed.

Lemma of_alias_ok old new o : opens_ok o → let '(r, o') := of_alias old new o in
  opens_ok o' ∧
  match handles o !! old with
  | None => r = None ∧ o' = o
  | Some id => handles o' = <[new := id]> (handles o) ∧ (∀ fd, fd ≠ new → of_get fd o' = of_get fd o) ∧ of_get new o' = of_get old o ∧
      r = Some (match handles o !! new with
                | Some j => if negb (old =? new) && (named j (handles o) =? 1) then of_get new o else None
                | None => None
                end)
  end.
Proof.
  intros Ho. unfold of_alias. destruct (handles o !! old) as [id|] eqn:E; [|done]. destruct (Z.eqb_spec old new) as [->|Hne].
  { cbn. split_and!; try done; [by rewrite insert_id|by rewrite E]. }
  pose proof (of_remove_ok new o Ho) as H. destruct (of_remove new o) as [r o1]. destruct H as (Ho1 & Hh & Hnx & Hg & Hr). pose proof Ho1 as [Ht1 Hr1 Hn1].
  assert (handles o1 !! old = Some id) as E1 by (rewrite Hh, lookup_delete_ne; done).
  assert (handles o1 !! new = None) as Hnone by (rewrite Hh; apply lookup_delete_eq).
  assert (∀ fd, fd ≠ new → of_get fd (mk_opens (<[new:=id]> (handles o1)) (alter (λ '(r, x), (r + 1, x)) id (descriptions o1)) (onext o1)) = of_get fd o) as Hget.
  { intros fd Hfd. rewrite <- Hg by done. unfold of_get. cbn. rewrite lookup_insert_ne by done. destruct (handles o1 !! fd) as [j|]; [|done]. cbn.
    destruct (decide (id = j)) as [<-|]; [rewrite lookup_alter_eq|by rewrite lookup_alter_ne]. by destruct (descriptions o1 !! id) as [[]|]. }
  split_and!.
  - split; cbn.
    + intros fd id' Hf. rewrite lookup_alter_is_Some. destruct (decide (new = fd)) as [<-|]; [rewrite lookup_insert_eq in Hf; injection Hf as <-; by eapply Ht1|].
      rewrite lookup_insert_ne in Hf by done. by eapply Ht1.
    + intros id' r' y Hy. rewrite named_insert_new by done. apply lookup_alter_Some in Hy as [(<- & [r0 x0] & Hx & Ey)|[Hne' Hy]].
      * injection Ey as -> ->. rewrite bool_decide_true by done. cbn. destruct (Hr1 _ _ _ Hx). lia.
      * rewrite bool_decide_false by congruence. cbn. rewrite Z.add_0_r. by eapply Hr1.
    + intros id' Hs. rewrite lookup_alter_is_Some in Hs. by apply Hn1.
  - cbn. rewrite Hh. apply insert_delete_eq.
  - done.
  - rewrite <- (Hget old) by done. unfold of_get. cbn. rewrite lookup_insert_eq, lookup_insert_ne, E1 by done. done.
  - rewrite Hr. destruct (handles o !! new) as [j|]; [|done]. cbn. f_equal.
Qed.

Lemma of_get_update fd fd' f o : of_get fd' (of_update fd f o) =
  if bool_decide (handles o !! fd = handles o !! fd') then f <$> of_get fd' o else of_get fd' o.
Proof.
  unfold of_get, of_update. destruct (handles o !! fd) as [id|] eqn:E.
  - cbn. destruct (handles o !! fd') as [id'|]; [|by rewrite bool_decide_false by done]. cbn. case_bool_decide as Hid.
    + injection Hid as <-. rewrite lookup_alter_eq. by destruct (descriptions o !! id) as [[]|].
    + rewrite lookup_alter_ne by congruence. done.
  - case_bool_decide as Hid; [|done]. by rewrite <- Hid.
Qed.

End open.
Arguments OpenFiles : clear implicits.
