(* ===== verification/FsDataProps.v ===== *)
(** * A sparse file is its bytes

    The pages of a file stand for the bytes from its start to its length, holes for zeros: reading,
    writing and resizing do to the pages what they say of the bytes, and the volume counts exactly
    the pages kept. *)

From S2P Require Import Prelude FsData.

(** The byte at an offset, zero where nothing was written *)
Definition byte_of (ps : gmap Z (list Z)) (i : Z) : Z :=
  default 0 (page ← ps !! (i / PAGE_SIZE); page !! Z.to_nat (i mod PAGE_SIZE)).
Definition contents (f : SparseFile) : list Z := map (byte_of (pages f)) (seqZ 0 (flen f)).

Definition pages_ok (ps : gmap Z (list Z)) : Prop :=
  ∀ k p, ps !! k = Some p → length p = Z.to_nat PAGE_SIZE ∧ 0 ≤ k.
Record sparse_ok (f : SparseFile) : Prop := {
  so_len : 0 ≤ flen f;
  so_pages : pages_ok (pages f);
  so_within k : is_Some (pages f !! k) → k * PAGE_SIZE < flen f;
  so_zero i : flen f ≤ i → byte_of (pages f) i = 0;
}.

Lemma page_div a b : 0 ≤ b < PAGE_SIZE → (a * PAGE_SIZE + b) / PAGE_SIZE = a ∧ (a * PAGE_SIZE + b) mod PAGE_SIZE = b.
Proof. unfold PAGE_SIZE. intros. split; dlia. Qed.
Lemma page_split i : i = i / PAGE_SIZE * PAGE_SIZE + i mod PAGE_SIZE ∧ 0 ≤ i mod PAGE_SIZE < PAGE_SIZE.
Proof. unfold PAGE_SIZE. dlia. Qed.

(** The offsets that stay in the page of the first one *)
Lemma same_page i j : i ≤ j → j < i + (PAGE_SIZE - i mod PAGE_SIZE) → j / PAGE_SIZE = i / PAGE_SIZE ∧ j mod PAGE_SIZE = i mod PAGE_SIZE + (j - i).
Proof.
  intros. destruct (page_split i). pose proof (page_div (i / PAGE_SIZE) (i mod PAGE_SIZE + (j - i)) ltac:(lia)) as [Hd Hm].
  replace (i / PAGE_SIZE * PAGE_SIZE + (i mod PAGE_SIZE + (j - i))) with j in * by lia. done.
Qed.

Lemma list_eq_nth {A} (l k : list A) : length l = length k → (∀ i x, (i < length l)%nat → l !! i = Some x → k !! i = Some x) → l = k.
Proof.
  intros Hl H. apply list_eq_same_length with (n := length l); [done|done|]. intros i x y Hi Hx Hy. apply H in Hx; [congruence|done].
Qed.

Lemma map_seqZ_app (g : Z → Z) a n m : 0 ≤ n → 0 ≤ m → map g (seqZ a (n + m)) = map g (seqZ a n) ++ map g (seqZ (a + n) m).
Proof. intros. rewrite seqZ_app by lia. apply map_app. Qed.

(** ** Reading *)

Lemma read_page ps offset n : pages_ok ps → 0 ≤ n ≤ PAGE_SIZE - offset mod PAGE_SIZE →
  match ps !! (offset / PAGE_SIZE) with
  | Some page => take (Z.to_nat n) (drop (Z.to_nat (offset mod PAGE_SIZE)) page)
  | None => replicate (Z.to_nat n) 0
  end = map (byte_of ps) (seqZ offset n).
Proof.
  intros Hok Hn. destruct (page_split offset) as [_ Hm]. apply list_eq_nth.
  - rewrite length_map, length_seqZ. destruct (ps !! _) as [page|] eqn:E; [|by rewrite length_replicate]. destruct (Hok _ _ E) as [Hl _].
    rewrite length_take, length_drop, Hl. lia.
  - intros i x Hi Hx. assert (Z.of_nat i < n) as Hin.
    { destruct (ps !! _) in Hi; [rewrite length_take in Hi|rewrite length_replicate in Hi]; lia. }
    rewrite list_lookup_fmap. rewrite lookup_seqZ_lt by lia. cbn. f_equal. unfold byte_of.
    destruct (same_page offset (offset + Z.of_nat i)) as [-> ->]; [lia..|]. destruct (ps !! (offset / PAGE_SIZE)) as [page|].
    + cbn. rewrite lookup_take, decide_True, lookup_drop in Hx by lia. replace (Z.to_nat (offset mod PAGE_SIZE + _)) with (Z.to_nat (offset mod PAGE_SIZE) + i)%nat by lia.
      by rewrite Hx.
    + cbn. by apply lookup_replicate in Hx as [-> _].
Qed.

Lemma read_loop_bytes fuel f offset count : pages_ok (pages f) → 0 ≤ count ≤ Z.of_nat fuel →
  read_loop fuel f offset count = map (byte_of (pages f)) (seqZ offset count).
Proof.
  intros Hok. revert offset count. induction fuel as [|fuel IH]; intros offset count Hc.
  - by replace count with 0 by lia.
  - cbn. destruct (Z.leb_spec count 0); [by replace count with 0 by lia|]. destruct (page_split offset) as [_ Hm].
    set (n := Z.min (PAGE_SIZE - offset mod PAGE_SIZE) count). rewrite (read_page (pages f) offset n) by (try done; lia).
    rewrite IH by lia. rewrite <- map_seqZ_app by lia. f_equal. f_equal. lia.
Qed.

Lemma seqZ_slice (g : Z → Z) n start len : 0 ≤ n → 0 ≤ start → 0 ≤ len →
  map g (seqZ start (Z.min len (sat_sub n start))) = take (Z.to_nat len) (drop (Z.to_nat start) (map g (seqZ 0 n))).
Proof.
  intros. apply list_eq. intros i. rewrite lookup_take, lookup_drop, !list_lookup_fmap. destruct (decide (i < Z.to_nat len)%nat).
  - destruct (decide (start + Z.of_nat i < n)).
    + rewrite !lookup_seqZ_lt by lia. cbn. do 2 f_equal. lia.
    + rewrite !lookup_seqZ_ge by lia. done.
  - by rewrite lookup_seqZ_ge by lia.
Qed.

Lemma sparse_read_bytes start len f : sparse_ok f → 0 ≤ start → 0 ≤ len →
  sparse_read start len f = take (Z.to_nat len) (drop (Z.to_nat start) (contents f)).
Proof.
  intros Hok Hs Hl. unfold sparse_read. rewrite read_loop_bytes by (try apply Hok; lia). apply seqZ_slice; [apply Hok|done..].
Qed.

(** ** Resizing *)

Lemma byte_of_alter ps k g i : byte_of (alter g k ps) i =
  if decide (i / PAGE_SIZE = k) then default 0 (page ← ps !! k; g page !! Z.to_nat (i mod PAGE_SIZE)) else byte_of ps i.
Proof.
  unfold byte_of. case_decide as H.
  - rewrite H, lookup_alter_eq. by destruct (ps !! k).
  - by rewrite lookup_alter_ne.
Qed.

Lemma zero_from_lookup n page i : (n ≤ length page)%nat → (i < length page)%nat →
  zero_from n page !! i = Some (if decide (i < n)%nat then default 0 (page !! i) else 0).
Proof.
  intros Hn Hi. unfold zero_from. destruct (decide (i < n)%nat).
  - rewrite lookup_app_l by (rewrite length_take; lia). rewrite lookup_take, decide_True by done. by destruct (lookup_lt_is_Some_2 page i Hi) as [x ->].
  - rewrite lookup_app_r, length_take, Nat.min_l by (rewrite ?length_take; lia). apply lookup_replicate. split; [done|lia].
Qed.

Lemma div_ceil_page n k : 0 ≤ n → k < div_ceil n PAGE_SIZE ↔ k * PAGE_SIZE < n.
Proof. unfold div_ceil, PAGE_SIZE. intros. split; intros; dlia. Qed.

Lemma resize_ok n f v : sparse_ok f → 0 ≤ n → let '(f', v') := resize n f v in
  sparse_ok f' ∧ flen f' = n ∧ (∀ i, 0 ≤ i → byte_of (pages f') i = if decide (i < n) then byte_of (pages f) i else 0) ∧
  used v' - n_pages f' = used v - n_pages f ∧ n_pages f' ≤ n_pages f ∧ capacity v' = capacity v ∧ files v' = files v.
Proof.
  intros Hok Hn. cbn. set (kept := filter _ (pages f)). set (kept' := alter _ _ kept).
  assert (∀ k, kept !! k = if decide (k * PAGE_SIZE < n) then pages f !! k else None) as Hk.
  { intros k. unfold kept. rewrite map_lookup_filter. destruct (pages f !! k) as [p|] eqn:E; [cbn|by case_decide].
    pose proof (div_ceil_page n k Hn). repeat case_guard; repeat case_decide; try done; tauto. }
  assert (∀ k, is_Some (kept' !! k) ↔ is_Some (kept !! k)) as Hk' by (intros k; apply lookup_alter_is_Some).
  assert (pages_ok kept) as Hkok by (intros k p; rewrite Hk; case_decide; [|done]; apply (so_pages _ Hok)).
  assert (∀ i, 0 ≤ i → byte_of kept' i = if decide (i < n) then byte_of (pages f) i else 0) as Hb.
  { intros i Hi. destruct (page_split i) as [Ei Hm]. destruct (page_split n) as [En Hmn]. unfold kept'. rewrite byte_of_alter.
    destruct (decide (i / PAGE_SIZE = n / PAGE_SIZE)) as [E|E].
    - rewrite Hk. case_decide as Hlt.
      + unfold byte_of. rewrite E. destruct (pages f !! (n / PAGE_SIZE)) as [p|] eqn:Ep; cbn; [|by case_decide].
        destruct (so_pages _ Hok _ _ Ep) as [Hl _]. rewrite zero_from_lookup by lia. cbn. repeat case_decide; try done; lia.
      + rewrite decide_False by lia. done.
    - unfold byte_of. rewrite Hk. assert (i < n ↔ i / PAGE_SIZE < n / PAGE_SIZE) as Hcmp by (unfold PAGE_SIZE in *; lia).
      repeat case_decide; try done; unfold PAGE_SIZE in *; lia. }
  assert (size kept' = size kept) as Hsz.
  { rewrite <- !size_dom. f_equal. unfold kept'. apply dom_alter_L. }
  assert (size kept ≤ size (pages f))%nat by apply map_size_filter.
  split_and!; try done; cbn; unfold n_pages; cbn; rewrite ?Hsz; try lia.
  split; cbn.
  - done.
  - intros k p Hp. unfold kept' in Hp. rewrite lookup_alter in Hp. destruct (decide (n / PAGE_SIZE = k)) as [<-|].
    + destruct (kept !! (n / PAGE_SIZE)) as [q|] eqn:Eq; [|done]. cbn in Hp. injection Hp as <-. destruct (Hkok _ _ Eq) as [Hl Hge].
      split; [|done]. unfold zero_from. rewrite length_app, length_take, length_replicate. lia.
    + by apply Hkok.
  - intros k Hs. apply Hk' in Hs. rewrite Hk in Hs. case_decide; [done|]. by destruct Hs.
  - intros i Hi. rewrite Hb by lia. by rewrite decide_False by lia.
Qed.

(** ** Writing *)

Lemma byte_of_zero_page ps k i : ps !! k = None → byte_of (<[k := zero_page]> ps) i = byte_of ps i.
Proof.
  intros Hk. unfold byte_of. destruct (decide (i / PAGE_SIZE = k)) as [->|]; [|by rewrite lookup_insert_ne].
  rewrite lookup_insert_eq, Hk. cbn. unfold zero_page. destruct (replicate _ _ !! _) eqn:E; [|done]. by apply lookup_replicate in E as [-> _].
Qed.

(** What allocating pages for the bytes from [offset] on leaves: the same bytes, [m] of them with
    their pages, and pages for nothing else. *)
Record allocated (offset m : Z) (f f' : SparseFile) (v v' : Volume) : Prop := {
  al_len : flen f' = flen f;
  al_pages : pages_ok (pages f');
  al_bytes i : byte_of (pages f') i = byte_of (pages f) i;
  al_there i : offset ≤ i < offset + m → is_Some (pages f' !! (i / PAGE_SIZE));
  al_only k : is_Some (pages f' !! k) → is_Some (pages f !! k) ∨ ∃ i, offset ≤ i < offset + m ∧ i / PAGE_SIZE = k;
  al_kept k : is_Some (pages f !! k) → is_Some (pages f' !! k);
  al_used : used v' - n_pages f' = used v - n_pages f;
  al_room : capacity v' = capacity v ∧ files v' = files v ∧ (used v ≤ capacity v → used v' ≤ capacity v') ∧ used v ≤ used v';
}.

Lemma allocated_refl offset f v : pages_ok (pages f) → allocated offset 0 f f v v.
Proof. intros H. split; try done; [lia|by left]. Qed.

Lemma allocate_page memory offset n f v f' v' : pages_ok (pages f) → 0 ≤ offset → 0 < n ≤ PAGE_SIZE - offset mod PAGE_SIZE →
  allocate memory (offset / PAGE_SIZE) f v = inr (f', v') → allocated offset n f f' v v'.
Proof.
  intros Hok Ho Hn E. unfold allocate in E.
  assert (∀ i, offset ≤ i < offset + n → i / PAGE_SIZE = offset / PAGE_SIZE) as Hsame by (intros i Hi; apply (same_page offset i); lia).
  destruct (pages f !! (offset / PAGE_SIZE)) as [p|] eqn:Ep.
  - injection E as <- <-. split; try done.
    + intros i Hi. rewrite Hsame by done. by eexists.
    + by left.
  - unfold reserve in E. destruct (Z.ltb_spec (used v) (capacity v)); [|done]. destruct (memory _); [|done]. injection E as <- <-. split; cbn; try done.
    + intros k p Hp. destruct (decide (offset / PAGE_SIZE = k)) as [<-|]; [|rewrite lookup_insert_ne in Hp by done; by apply Hok].
      rewrite lookup_insert_eq in Hp. injection Hp as <-. split; [apply length_replicate|]. unfold PAGE_SIZE. dlia.
    + intros i. by apply byte_of_zero_page.
    + intros i Hi. rewrite Hsame, lookup_insert_eq by done. by eexists.
    + intros k Hk. destruct (decide (offset / PAGE_SIZE = k)) as [<-|]; [right; exists offset; split; [lia|done]|].
      rewrite lookup_insert_ne in Hk by done. by left.
    + intros k Hk. destruct (decide (offset / PAGE_SIZE = k)) as [<-|]; [rewrite lookup_insert_eq; by eexists|]. by rewrite lookup_insert_ne.
    + unfold n_pages. cbn. rewrite map_size_insert_None by done. lia.
    + lia.
Qed.

Lemma allocated_trans offset n m f f1 f2 v v1 v2 : 0 ≤ n → 0 ≤ m →
  allocated offset n f f1 v v1 → allocated (offset + n) m f1 f2 v1 v2 → allocated offset (n + m) f f2 v v2.
Proof.
  intros Hn Hm H1 H2. split.
  - by rewrite (al_len _ _ _ _ _ _ H2), (al_len _ _ _ _ _ _ H1).
  - apply H2.
  - intros i. by rewrite (al_bytes _ _ _ _ _ _ H2), (al_bytes _ _ _ _ _ _ H1).
  - intros i Hi. destruct (decide (i < offset + n)); [apply (al_kept _ _ _ _ _ _ H2), (al_there _ _ _ _ _ _ H1); lia|apply (al_there _ _ _ _ _ _ H2); lia].
  - intros k Hk. destruct (al_only _ _ _ _ _ _ H2 k Hk) as [Hk1|(i & Hi & <-)]; [|right; exists i; split; [lia|done]].
    destruct (al_only _ _ _ _ _ _ H1 k Hk1) as [?|(i & Hi & <-)]; [by left|right; exists i; split; [lia|done]].
  - intros k Hk. by apply (al_kept _ _ _ _ _ _ H2), (al_kept _ _ _ _ _ _ H1).
  - pose proof (al_used _ _ _ _ _ _ H1). pose proof (al_used _ _ _ _ _ _ H2). lia.
  - pose proof (al_room _ _ _ _ _ _ H1). pose proof (al_room _ _ _ _ _ _ H2). intuition congruence || lia.
Qed.

Lemma allocate_loop_ok memory fuel offset left f v : pages_ok (pages f) → 0 ≤ offset → 0 ≤ left ≤ Z.of_nat fuel →
  let '(m, e, f', v') := allocate_loop memory fuel offset left f v in
  allocated offset m f f' v v' ∧ 0 ≤ m ≤ left ∧ (e = None → m = left) ∧ (m = 0 → f' = f ∧ v' = v).
Proof.
  revert offset left f v. induction fuel as [|fuel IH]; intros offset left f v Hok Ho Hl; cbn.
  - split; [by apply allocated_refl|split; [lia|split; [lia|done]]].
  - destruct (Z.leb_spec left 0); [split; [by apply allocated_refl|split; [lia|split; [lia|done]]]|]. destruct (page_split offset) as [_ Hm].
    destruct (allocate memory (offset / PAGE_SIZE) f v) as [e|[f1 v1]] eqn:E; [split; [by apply allocated_refl|split; [lia|done]]|].
    set (n := Z.min (PAGE_SIZE - offset mod PAGE_SIZE) left). pose proof (allocate_page memory offset n f v f1 v1 Hok Ho ltac:(lia) E) as H1.
    specialize (IH (offset + n) (left - n) f1 v1 (al_pages _ _ _ _ _ _ H1) ltac:(lia) ltac:(lia)).
    destruct (allocate_loop _ _ _ _ _ _) as [[[m e] f2] v2]. destruct IH as (H2 & Hm2 & He & _). split; [|split; [lia|split; [|lia]]].
    + apply (allocated_trans offset n m f f1 f2 v v1 v2); [lia..|done|done].
    + intros ->. rewrite He by done. lia.
Qed.

Lemma put_bytes_lookup within bytes page i : (within + length bytes ≤ length page)%nat →
  put_bytes within bytes page !! i = if decide (within ≤ i < within + length bytes)%nat then bytes !! (i - within)%nat else page !! i.
Proof.
  intros Hl. unfold put_bytes. destruct (decide (i < within)%nat) as [Hi|Hi].
  - rewrite lookup_app_l by (rewrite length_take; lia). rewrite lookup_take, decide_True by done. by rewrite decide_False by lia.
  - rewrite lookup_app_r, length_take, Nat.min_l by (rewrite ?length_take; lia). destruct (decide (i < within + length bytes)%nat) as [Hb|Hb].
    + rewrite decide_True by lia. by rewrite lookup_app_l by lia.
    + rewrite decide_False by lia. rewrite lookup_app_r, lookup_drop by lia. f_equal. lia.
Qed.

Lemma write_page ps offset bytes page : pages_ok ps → 0 ≤ offset → ps !! (offset / PAGE_SIZE) = Some page →
  Z.of_nat (length bytes) ≤ PAGE_SIZE - offset mod PAGE_SIZE →
  let ps' := <[offset / PAGE_SIZE := put_bytes (Z.to_nat (offset mod PAGE_SIZE)) bytes page]> ps in
  pages_ok ps' ∧ dom ps' = dom ps ∧
  ∀ i, byte_of ps' i = if decide (offset ≤ i < offset + Z.of_nat (length bytes)) then default 0 (bytes !! Z.to_nat (i - offset)) else byte_of ps i.
Proof.
  intros Hok Ho Hp Hl ps'. destruct (Hok _ _ Hp) as [Hlen Hge]. destruct (page_split offset) as [Eo Hm]. split_and!.
  - intros k p. unfold ps'. destruct (decide (offset / PAGE_SIZE = k)) as [<-|]; [|rewrite lookup_insert_ne by done; apply Hok].
    rewrite lookup_insert_eq. intros [= <-]. split; [|done]. unfold put_bytes. rewrite !length_app, length_take, length_drop. lia.
  - unfold ps'. rewrite dom_insert_L. assert (offset / PAGE_SIZE ∈ dom ps) by (by apply elem_of_dom_2 in Hp). set_solver.
  - intros i. unfold byte_of, ps'. destruct (page_split i) as [Ei Hmi]. destruct (decide (offset / PAGE_SIZE = i / PAGE_SIZE)) as [E|E].
    + rewrite E, lookup_insert_eq. cbn. rewrite put_bytes_lookup by lia. rewrite <- E, Hp. cbn. destruct (decide (offset ≤ i < _)) as [Hin|Hin].
      * rewrite decide_True by lia. do 2 f_equal. lia.
      * by rewrite decide_False by lia.
    + rewrite lookup_insert_ne by done. rewrite decide_False; [done|]. intros Hin. destruct E. symmetry. apply (same_page offset i); lia.
Qed.

Lemma write_loop_ok fuel offset bytes ps : pages_ok ps → 0 ≤ offset → (length bytes ≤ fuel)%nat →
  (∀ i, offset ≤ i < offset + Z.of_nat (length bytes) → is_Some (ps !! (i / PAGE_SIZE))) →
  ∃ ps', write_loop fuel offset bytes ps = Some ps' ∧ pages_ok ps' ∧ dom ps' = dom ps ∧
    ∀ i, byte_of ps' i = if decide (offset ≤ i < offset + Z.of_nat (length bytes)) then default 0 (bytes !! Z.to_nat (i - offset)) else byte_of ps i.
Proof.
  revert offset bytes ps. induction fuel as [|fuel IH]; intros offset bytes ps Hok Ho Hf Hin.
  - destruct bytes; [|cbn in Hf; lia]. exists ps. split_and!; [done..|]. intros i. cbn. by rewrite decide_False by lia.
  - destruct bytes as [|b bytes']; [exists ps; split_and!; [done..|]; intros i; cbn; by rewrite decide_False by lia|].
    set (bytes := b :: bytes') in *. destruct (page_split offset) as [_ Hm].
    set (count := Z.to_nat (Z.min (PAGE_SIZE - offset mod PAGE_SIZE) (Z.of_nat (length bytes)))).
    assert (length bytes = S (length bytes')) by done. assert (1 ≤ count ≤ length bytes)%nat as Hc by lia.
    destruct (Hin offset ltac:(lia)) as [page Hp]. unfold write_loop; fold write_loop. cbn [bytes]. fold bytes. fold count. rewrite Hp. cbn.
    assert (length (take count bytes) = count) as Hlt by (rewrite length_take; lia).
    destruct (write_page ps offset (take count bytes) page Hok Ho Hp) as (Hok1 & Hd1 & Hb1); [rewrite Hlt; lia|]. rewrite Hlt in Hb1.
    set (ps1 := <[_ := _]> ps) in *. destruct (IH (offset + Z.of_nat count) (drop count bytes) ps1 Hok1) as (ps2 & E2 & Hok2 & Hd2 & Hb2).
    + lia.
    + rewrite length_drop. lia.
    + intros i. rewrite length_drop. intros Hi. apply elem_of_dom. rewrite Hd1. apply elem_of_dom, Hin. lia.
    + exists ps2. split_and!; [done|done|congruence|]. intros i. rewrite Hb2, Hb1, length_drop. repeat case_decide; try lia; try done.
      * rewrite lookup_drop. do 2 f_equal. lia.
      * rewrite lookup_take. by case_decide; [|lia].
Qed.

(** The bytes [bs] written over [l] at [start], zeros in between *)
Definition overwrite (start : nat) (bs l : list Z) : list Z :=
  take start (l ++ replicate (start - length l) 0) ++ bs ++ drop (start + length bs) l.

Lemma overwrite_lookup start bs l i : overwrite start bs l !! i =
  if decide (i < start)%nat then (if decide (i < length l)%nat then l !! i else Some 0)
  else if decide (i < start + length bs)%nat then bs !! (i - start)%nat else l !! i.
Proof.
  unfold overwrite. destruct (decide (i < start)%nat).
  - rewrite lookup_app_l by (rewrite length_take, length_app, length_replicate; lia). rewrite lookup_take, decide_True by done. case_decide.
    + by rewrite lookup_app_l.
    + rewrite lookup_app_r by lia. apply lookup_replicate. split; [done|lia].
  - rewrite lookup_app_r, length_take, length_app, length_replicate by (rewrite length_take, length_app, length_replicate; lia).
    replace (start `min` (length l + (start - length l)))%nat with start by lia. case_decide.
    + by rewrite lookup_app_l by lia.
    + rewrite lookup_app_r, lookup_drop by lia. f_equal. lia.
Qed.

Lemma contents_lookup f i : contents f !! i = if decide (Z.of_nat i < flen f) then Some (byte_of (pages f) (Z.of_nat i)) else None.
Proof.
  unfold contents. rewrite list_lookup_fmap. case_decide; [rewrite lookup_seqZ_lt by lia|rewrite lookup_seqZ_ge by lia]; done.
Qed.
Lemma contents_length f : 0 ≤ flen f → Z.of_nat (length (contents f)) = flen f.
Proof. intros. unfold contents. rewrite length_map, length_seqZ. lia. Qed.

(** ** What the operations do to the bytes *)

Lemma resize_contents n f v : sparse_ok f → 0 ≤ n →
  contents (fst (resize n f v)) = take (Z.to_nat n) (contents f ++ replicate (Z.to_nat n) 0).
Proof.
  intros Hok Hn. pose proof (resize_ok n f v Hok Hn) as H. destruct (resize n f v) as [f' v']. destruct H as (Hok' & Hl & Hb & _). cbn.
  apply list_eq. intros i. rewrite contents_lookup, Hl, lookup_take. pose proof (so_len _ Hok) as H0. pose proof (contents_length f H0). repeat case_decide; try done; try lia.
  rewrite Hb, decide_True by lia. destruct (decide (Z.of_nat i < flen f)).
  - rewrite lookup_app_l by lia. by rewrite contents_lookup, decide_True.
  - rewrite lookup_app_r by lia. rewrite (so_zero _ Hok) by lia. symmetry. apply lookup_replicate. split; [done|lia].
Qed.

Lemma sparse_write_ok memory start bytes f v : sparse_ok f → 0 ≤ start →
  ∃ r f' v', sparse_write memory start bytes f v = Some (r, f', v') ∧ sparse_ok f' ∧
    used v' - n_pages f' = used v - n_pages f ∧ capacity v' = capacity v ∧ files v' = files v ∧ (used v ≤ capacity v → used v' ≤ capacity v') ∧
    match r with
    | inl e => f' = f ∧ v' = v
    | inr n => 0 ≤ n ≤ Z.of_nat (length bytes) ∧ (bytes ≠ [] → 0 < n) ∧
        contents f' = overwrite (Z.to_nat start) (take (Z.to_nat n) bytes) (contents f)
    end.
Proof.
  intros Hok Hs. unfold sparse_write. destruct (Z.ltb_spec i64_max (start + Z.of_nat (length bytes))).
  { exists (inl EFBIG), f, v. by split_and!. }
  pose proof (allocate_loop_ok memory (length bytes) start (Z.of_nat (length bytes)) f v (so_pages _ Hok) Hs ltac:(lia)) as Hal.
  destruct (allocate_loop _ _ _ _ _ _) as [[[m e] f1] v1]. destruct Hal as (Hal & Hm & Hnone & Hzero).
  destruct (if m =? 0 then e else None) as [e'|] eqn:Ee.
  { destruct (Z.eqb_spec m 0) as [E0|]; [|done]. destruct (Hzero E0) as [-> ->]. exists (inl e'), f, v. by split_and!. }
  set (bs := take (Z.to_nat m) bytes). assert (Z.of_nat (length bs) = m) as Hbs by (unfold bs; rewrite length_take; lia).
  assert (bytes ≠ [] → 0 < m) as Hpos.
  { intros Hne. destruct (Z.eqb_spec m 0) as [->|]; [|lia]. specialize (Hnone Ee). destruct bytes; [done|]. cbn in Hnone. lia. }
  destruct (write_loop_ok (length bs) start bs (pages f1) (al_pages _ _ _ _ _ _ Hal) Hs ltac:(lia)) as (ps & Eps & Hpok & Hdom & Hb).
  { rewrite Hbs. apply Hal. }
  rewrite Eps. cbn. exists (inr m), (mk_sparse ps (Z.max (flen f1) (start + m))), v1. pose proof (so_len _ Hok) as Hl0. pose proof (al_len _ _ _ _ _ _ Hal) as Hl1.
  assert (∀ k, is_Some (ps !! k) ↔ is_Some (pages f1 !! k)) as Hps by (intros k; rewrite <- !elem_of_dom; by rewrite Hdom).
  split_and!; [done| |..].
  - split; cbn.
    + lia.
    + done.
    + intros k Hk. rewrite Hps in Hk. destruct (al_only _ _ _ _ _ _ Hal k Hk) as [Hk'|(i & Hi & <-)].
      * pose proof (so_within _ Hok k Hk'). lia.
      * destruct (page_split i). lia.
    + intros i Hi. rewrite Hb, (al_bytes _ _ _ _ _ _ Hal). rewrite decide_False by lia. apply (so_zero _ Hok). lia.
  - assert (n_pages (mk_sparse ps (Z.max (flen f1) (start + m))) = n_pages f1) as -> by (unfold n_pages; cbn; by rewrite <- !size_dom, Hdom).
    apply Hal.
  - apply Hal.
  - apply Hal.
  - apply Hal.
  - lia.
  - lia.
  - done.
  - apply list_eq. intros i. fold bs. rewrite overwrite_lookup, !contents_lookup. pose proof (contents_length f Hl0) as Hcl. cbn. rewrite Hb, (al_bytes _ _ _ _ _ _ Hal), Hl1, Hbs.
    replace (length bs) with (Z.to_nat m) by lia. repeat case_decide; try lia; try done.
    all: try (rewrite (so_zero _ Hok) by lia; done).
    destruct (lookup_lt_is_Some_2 bs (i - Z.to_nat start)%nat) as [x Hx]; [lia|]. replace (Z.to_nat (Z.of_nat i - start)) with (i - Z.to_nat start)%nat by lia.
    by rewrite Hx.
Qed.

(** ** A new file *)

Lemma chunk_lookup page n i : (length page ≤ n)%nat → (page ++ replicate (n - length page) 0) !! i = if decide (i < n)%nat then Some (default 0 (page !! i)) else None.
Proof.
  intros Hl. destruct (decide (i < length page)%nat).
  - rewrite lookup_app_l, decide_True by lia. by destruct (lookup_lt_is_Some_2 page i) as [x ->].
  - rewrite lookup_app_r, (lookup_ge_None_2 page) by lia. case_decide; [apply lookup_replicate|apply lookup_replicate_None]; [split; [done|]|]; lia.
Qed.

Lemma chunks_ok fuel i bytes : 0 ≤ i → (length bytes ≤ fuel)%nat →
  pages_ok (chunks fuel i bytes) ∧ (∀ k, is_Some (chunks fuel i bytes !! k) → i ≤ k ∧ k * PAGE_SIZE < i * PAGE_SIZE + Z.of_nat (length bytes)) ∧
  ∀ j, 0 ≤ j → byte_of (chunks fuel i bytes) (i * PAGE_SIZE + j) = default 0 (bytes !! Z.to_nat j).
Proof.
  revert i bytes. induction fuel as [|fuel IH]; intros i bytes Hi Hf.
  { destruct bytes; [|cbn in Hf; lia]. split_and!; [done|by intros k []|]. intros j Hj. by unfold byte_of. }
  destruct bytes as [|b bytes']; [split_and!; [done|by intros k []|]; intros j Hj; by unfold byte_of|]. set (bytes := b :: bytes') in *.
  unfold chunks; fold chunks. cbn [bytes]. fold bytes. set (n := Z.to_nat PAGE_SIZE) in *. assert (Z.of_nat n = PAGE_SIZE ∧ (1 ≤ n)%nat) as [Hn Hn1] by (unfold n, PAGE_SIZE; lia).
  assert (length bytes = S (length bytes')) as Hlen by done. destruct (IH (i + 1) (drop n bytes)) as (Hok & Hdom & Hb); [lia|rewrite length_drop; lia|].
  rewrite length_drop in Hdom. set (rest := chunks fuel (i + 1) (drop n bytes)) in *.
  assert (length (take n bytes) ≤ n)%nat as Hlt by (rewrite length_take; lia). set (page := take n bytes ++ _). split_and!.
  - intros k p Hp. destruct (decide (i = k)) as [<-|]; [|rewrite lookup_insert_ne in Hp by done; by apply Hok].
    rewrite lookup_insert_eq in Hp. injection Hp as <-. split; [|done]. unfold page. rewrite length_app, length_replicate. change (Z.to_nat PAGE_SIZE) with n. lia.
  - intros k Hk. destruct (decide (i = k)) as [<-|]; [lia|]. rewrite lookup_insert_ne in Hk by done. apply Hdom in Hk. unfold PAGE_SIZE in *. lia.
  - intros j Hj. destruct (decide (j < PAGE_SIZE)).
    + unfold byte_of. destruct (page_div i j ltac:(lia)) as [-> ->]. rewrite lookup_insert_eq. cbn. unfold page. rewrite chunk_lookup by done.
      rewrite decide_True by lia. cbn. rewrite lookup_take, decide_True by lia. done.
    + specialize (Hb (j - PAGE_SIZE) ltac:(lia)). replace ((i + 1) * PAGE_SIZE + (j - PAGE_SIZE)) with (i * PAGE_SIZE + j) in Hb by lia.
      assert ((i * PAGE_SIZE + j) / PAGE_SIZE ≠ i) by (intros E; destruct (page_split (i * PAGE_SIZE + j)); rewrite E in *; lia).
      unfold byte_of in *. rewrite lookup_insert_ne by done. rewrite Hb, lookup_drop. do 2 f_equal. lia.
Qed.

Lemma sparse_new_ok bytes : sparse_ok (sparse_new bytes) ∧ contents (sparse_new bytes) = bytes.
Proof.
  destruct (chunks_ok (length bytes) 0 bytes ltac:(done) ltac:(lia)) as (Hok & Hdom & Hb).
  assert (∀ j, 0 ≤ j → byte_of (pages (sparse_new bytes)) j = default 0 (bytes !! Z.to_nat j)) as Hb'.
  { intros j Hj. rewrite <- Hb by done. cbn. f_equal. }
  split; [split|].
  - cbn. lia.
  - done.
  - intros k Hk. apply Hdom in Hk. cbn in *. lia.
  - intros i Hi. cbn in Hi. rewrite Hb' by lia. rewrite lookup_ge_None_2 by lia. done.
  - apply list_eq. intros i. rewrite contents_lookup. change (flen (sparse_new bytes)) with (Z.of_nat (length bytes)). case_decide.
    + rewrite (Hb' (Z.of_nat i)), Nat2Z.id by lia. by destruct (lookup_lt_is_Some_2 bytes i) as [x ->]; [lia|].
    + symmetry. apply lookup_ge_None_2. lia.
Qed.

(** ** Runs *)

Inductive data_op := DRead (start len : Z) | DWrite (start : Z) (bytes : list Z) | DResize (n : Z).
Inductive data_res := Got (bytes : list Z) | Wrote (r : errno + Z) | Resized.
Definition op_ok (op : data_op) : Prop :=
  match op with DRead s l => 0 ≤ s ∧ 0 ≤ l | DWrite s _ => 0 ≤ s | DResize n => 0 ≤ n end.

Definition data_step memory (op : data_op) (f : SparseFile) (v : Volume) : option (data_res * SparseFile * Volume) :=
  match op with
  | DRead start len => Some (Got (sparse_read start len f), f, v)
  | DWrite start bytes => '(r, f, v) ← sparse_write memory start bytes f v; Some (Wrote r, f, v)
  | DResize n => let '(f, v) := resize n f v in Some (Resized, f, v)
  end.
Fixpoint data_run memory (ops : list data_op) (f : SparseFile) (v : Volume) : option (list data_res * SparseFile * Volume) :=
  match ops with
  | [] => Some ([], f, v)
  | op :: ops =>
      '(r, f, v) ← data_step memory op f v;
      '(rs, f, v) ← data_run memory ops f v;
      Some (r :: rs, f, v)
  end.

(** The same on plain bytes: what a result says of the bytes before and after *)
Definition bytes_step (op : data_op) (r : data_res) (l l' : list Z) : Prop :=
  match op, r with
  | DRead start len, Got bytes => bytes = take (Z.to_nat len) (drop (Z.to_nat start) l) ∧ l' = l
  | DWrite start bytes, Wrote (inl e) => l' = l
  | DWrite start bytes, Wrote (inr n) =>
      0 ≤ n ≤ Z.of_nat (length bytes) ∧ (bytes ≠ [] → 0 < n) ∧ l' = overwrite (Z.to_nat start) (take (Z.to_nat n) bytes) l
  | DResize n, Resized => l' = take (Z.to_nat n) (l ++ replicate (Z.to_nat n) 0)
  | _, _ => False
  end.
Fixpoint bytes_run (ops : list data_op) (rs : list data_res) (l l' : list Z) : Prop :=
  match ops, rs with
  | [], [] => l' = l
  | op :: ops, r :: rs => ∃ m, bytes_step op r l m ∧ bytes_run ops rs m l'
  | _, _ => False
  end.

Lemma data_step_ok memory op f v : sparse_ok f → op_ok op →
  ∃ r f' v', data_step memory op f v = Some (r, f', v') ∧ sparse_ok f' ∧ bytes_step op r (contents f) (contents f') ∧
    used v' - n_pages f' = used v - n_pages f ∧ capacity v' = capacity v ∧ files v' = files v ∧ (used v ≤ capacity v → used v' ≤ capacity v').
Proof.
  intros Hok Hop. destruct op as [start len|start bytes|n]; cbn in Hop; unfold data_step.
  - eexists _, _, _. split; [done|]. split; [done|]. cbn. split; [|done]. split; [|done]. apply sparse_read_bytes; [done|lia..].
  - destruct (sparse_write_ok memory start bytes f v Hok Hop) as (r & f' & v' & -> & Hok' & Hu & Hc & Hfi & Hle & Hr). cbn.
    eexists _, _, _. split; [done|]. split; [done|]. split; [|done]. cbn. destruct r as [e|n]; [|done]. by destruct Hr as [-> _].
  - pose proof (resize_ok n f v Hok Hop) as H. pose proof (resize_contents n f v Hok Hop) as Hc. destruct (resize n f v) as [f' v'].
    destruct H as (Hok' & _ & _ & Hu & Hp & Hcap & Hfi). eexists _, _, _. split; [done|]. split; [done|]. split; [exact Hc|]. lia.
Qed.

Lemma data_run_ok memory ops f v : Forall op_ok ops → sparse_ok f → used v ≤ capacity v →
  ∃ rs f' v', data_run memory ops f v = Some (rs, f', v') ∧ bytes_run ops rs (contents f) (contents f') ∧
    used v' - n_pages f' = used v - n_pages f ∧ used v' ≤ capacity v'.
Proof.
  intros Hops. revert f v. induction Hops as [|op ops Hop Hops IH]; intros f v Hok Hle.
  - exists [], f, v. by split_and!.
  - destruct (data_step_ok memory op f v Hok Hop) as (r & f1 & v1 & E & Hok1 & Hb & Hu1 & _ & _ & Hle1). cbn [data_run]. rewrite E. cbn.
    destruct (IH f1 v1) as (rs & f2 & v2 & E2 & Hb2 & Hu2 & Hle2); [done|auto|]. rewrite E2. cbn. exists (r :: rs), f2, v2.
    split; [done|]. split; [by exists (contents f1)|]. split; [lia|done].
Qed.

(** C20: whatever is read, written and truncated, and whether or not the volume and memory last, a file behaves
    as its bytes: a read returns the bytes asked for, a write that returns [n] put exactly the first
    [n] bytes at its offset with zeros over any gap (and [n] is not zero unless nothing was
    written), a failed one changed nothing; nothing panics, and the volume counts exactly the pages
    the file keeps, never more than it has. *)
Theorem file_is_its_bytes memory ops bytes v v0 : Forall op_ok ops → attach (sparse_new bytes) v0 = Some v →
  ∃ rs f v', data_run memory ops (sparse_new bytes) v = Some (rs, f, v') ∧ bytes_run ops rs bytes (contents f) ∧
    used (drop_file f v') = used v0 ∧ used v' ≤ capacity v'.
Proof.
  intros Hops Ha. unfold attach in Ha. destruct (Z.leb_spec (used v0 + n_pages (sparse_new bytes)) (capacity v0)); [|done]. injection Ha as <-.
  destruct (sparse_new_ok bytes) as [Hok Hc]. set (v := mk_volume _ _ _).
  destruct (data_run_ok memory ops (sparse_new bytes) v Hops Hok) as (rs & f & v' & E & Hb & Hu & Hle); [done|]. rewrite Hc in Hb.
  exists rs, f, v'. split_and!; [done|done| |done]. cbn. cbn in Hu. lia.
Qed.

(** A write past the end of a file of two pages that runs out of space after one page, then a read
    across the gap it left. *)
Definition some_ops : list data_op := [DWrite 8190 [1; 2; 3; 4; 5]; DResize 8191; DRead 8188 9].
Lemma file_is_its_bytes_witness : ∃ rs f v', data_run (λ _, true) some_ops (sparse_new [7; 8]) (mk_volume 2 1 1) = Some (rs, f, v') ∧
  bytes_run some_ops rs [7; 8] (contents f) ∧ used (drop_file f v') = 0 ∧ used v' ≤ capacity v'.
Proof.
  apply (file_is_its_bytes (λ _, true) some_ops [7; 8] (mk_volume 2 1 1) (mk_volume 2 0 0)); [|by vm_compute].
  repeat constructor; cbn; lia.
Defined.
