(* ===== verification/FsTree.v ===== *)
(** * The tree of a simulated file system

    The data of crates/snare/src/fs_sim.rs: times, inodes, nodes, the tree of paths, open files and
    directory streams; how a path is read, which paths the file system serves, and how a path is
    walked through its symlinks. An [Arc<VInode>] is the inode's number in the table [inodes], an
    [Arc<Mutex<DirStream>>] the stream's in [streams]. *)

From S2P Require Import Prelude FsLocks FsPerm FsData.

(** ** Times *)

Definition DAY : Z := 86400 * 1000000000.
Record Times := mk_times { accessed : Z; modified : Z; changed : Z; born : Z }.

(** [Times::at], [modify], [access] *)
Definition times_at (now : Z) : Times := mk_times now now now now.
Definition modify (now : Z) (t : Times) : Times := mk_times (accessed t) now now (born t).
Definition access_times (now : Z) (t : Times) : Times :=
  if (accessed t <=? modified t) || (accessed t <=? changed t) || (DAY <=? now - accessed t)
  then mk_times now (modified t) (changed t) (born t) else t.
Definition mark_changed (now : Z) (t : Times) : Times := mk_times (accessed t) (modified t) now (born t).

Inductive TimeSet := Omit | Now | At (at_ : Z).
#[export] Instance TimeSet_eq_dec : EqDecision TimeSet.
Proof. solve_decision. Defined.
Record SetTimes := mk_set_times { set_accessed : TimeSet; set_modified : TimeSet; set_created : TimeSet }.

(** [Times::set] *)
Definition time_value (now : Z) (t : TimeSet) : option Z := match t with Omit => None | Now => Some now | At at_ => Some at_ end.
Definition times_set (os : target_os) (s : SetTimes) (now : Z) (t : Times) : Times :=
  let a := time_value now (set_accessed s) in
  let m := time_value now (set_modified s) in
  let c := time_value now (set_created s) in
  let t := mk_times (default (accessed t) a) (default (modified t) m) (changed t) (born t) in
  if is_macos os then
    let b := default (born t) c in
    let b := match m with Some at_ => Z.min b at_ | None => b end in
    let ch := match m, c with None, None => changed t | _, _ => now end in
    mk_times (accessed t) (modified t) ch b
  else
    let ch := match a, m with None, None => changed t | _, _ => now end in
    mk_times (accessed t) (modified t) ch (born t).

(** [NodeTimes] and its [resolve] *)
Record NodeTimes := mk_node_times { nt_accessed : option Z; nt_modified : option Z; nt_changed : option Z; nt_created : option Z }.
Definition node_times_default : NodeTimes := mk_node_times None None None None.
Definition resolve_times (now : Z) (t : NodeTimes) : Times :=
  mk_times (default now (nt_accessed t)) (default now (nt_modified t)) (default now (nt_changed t)) (default now (nt_created t)).

(** ** Paths *)

(** A component of a path, and a normalized absolute path: its components, the last one first. *)
Abbreviation name := (list Z).
Abbreviation path := (list (list Z)).

Definition SLASH : Z := 47.
Definition dot : name := [46].
Definition dotdot : name := [46; 46].

(** [split(|byte| *byte == b'/')] *)
Fixpoint split_slash (bytes : list Z) : list name :=
  match bytes with
  | [] => [[]]
  | b :: rest =>
      if b =? SLASH then [] :: split_slash rest
      else match split_slash rest with
           | c :: cs => (b :: c) :: cs
           | [] => [[b]]
           end
  end.
(** The components of a path that are not empty *)
Definition components (bytes : list Z) : list name := retain (λ c, negb (bool_decide (c = []))) (split_slash bytes).

Definition starts_slash (bytes : list Z) : bool := match bytes with b :: _ => b =? SLASH | [] => false end.
Definition ends_slash (bytes : list Z) : bool := match last bytes with Some b => b =? SLASH | None => false end.

(** [Path::parent] *)
Definition parent_path (p : path) : option path := match p with [] => None | _ :: q => Some q end.
(** [a.starts_with(b)] *)
Definition under (b a : path) : bool := bool_decide (b `suffix_of` a).
(** [ancestors().skip(1)] *)
Fixpoint above (p : path) : list path := match p with [] => [] | _ :: q => q :: above q end.

(** [normalize] *)
Definition normal_step (out : path) (c : name) : path :=
  if bool_decide (c = dot) then out else if bool_decide (c = dotdot) then tail out else c :: out.
Definition normalize (raw : list Z) : path := foldl normal_step [] (components raw).

(** A path as bytes *)
Definition path_bytes (p : path) : list Z :=
  match p with [] => [SLASH] | _ => mjoin (map (λ c, SLASH :: c) (rev p)) end.

(** The order of [BTreeMap<PathBuf, _>]: by components from the root *)
Fixpoint bytes_cmp (a b : name) : comparison :=
  match a, b with
  | [], [] => Eq | [], _ => Lt | _, [] => Gt
  | x :: a, y :: b => match x ?= y with Eq => bytes_cmp a b | c => c end
  end.
Fixpoint comps_cmp (a b : list name) : comparison :=
  match a, b with
  | [], [] => Eq | [], _ => Lt | _, [] => Gt
  | x :: a, y :: b => match bytes_cmp x y with Eq => comps_cmp a b | c => c end
  end.
Definition path_leb (p q : path) : bool := match comps_cmp (rev p) (rev q) with Gt => false | _ => true end.

(** ** Nodes and inodes *)

Inductive VNode := VFile (i : Z) | VDir (i : Z) | VSymlink (i : Z) (target : list Z).
(** [VNode::inode] *)
Definition node_inode (n : VNode) : Z := match n with VFile i | VDir i | VSymlink i _ => i end.
Definition is_file (n : VNode) : bool := match n with VFile _ => true | _ => false end.
Definition is_dir_node (n : VNode) : bool := match n with VDir _ => true | _ => false end.
Definition is_symlink (n : VNode) : bool := match n with VSymlink _ _ => true | _ => false end.
(** A node at a path, or none, is a directory *)
Definition some_dir (n : option VNode) : bool := match n with Some n => is_dir_node n | None => false end.
Definition some_file (n : option VNode) : bool := match n with Some n => is_file n | None => false end.

Record VInode := mk_inode {
  ikind : kind; data : SparseFile; links : Z; times : Times; owner_ : node; locks : table }.
(** [VInode::new] *)
Definition inode_new (bytes : list Z) (k : kind) (now : Z) (o : node) : VInode :=
  mk_inode k (sparse_new bytes) (match k with Directory => 2 | _ => 1 end) (times_at now) o table_default.

Definition put_data (d : SparseFile) (i : VInode) : VInode := mk_inode (ikind i) d (links i) (times i) (owner_ i) (locks i).
Definition add_links (n : Z) (i : VInode) : VInode := mk_inode (ikind i) (data i) (links i + n) (times i) (owner_ i) (locks i).
Definition no_links (i : VInode) : VInode := mk_inode (ikind i) (data i) 0 (times i) (owner_ i) (locks i).
(** [touch] *)
Definition touch (f : Times → Times) (i : VInode) : VInode := mk_inode (ikind i) (data i) (links i) (f (times i)) (owner_ i) (locks i).
Definition put_owner (o : node) (i : VInode) : VInode := mk_inode (ikind i) (data i) (links i) (times i) o (locks i).
Definition put_locks (l : table) (i : VInode) : VInode := mk_inode (ikind i) (data i) (links i) (times i) (owner_ i) l.

(** [VInode::wrote] *)
Definition inode_wrote (os : target_os) (caller : credentials) (truncate : bool) (i : VInode) : VInode :=
  if has (mode (owner_ i)) (Z.lor SET_UID SET_GID) then put_owner (wrote os caller (owner_ i) truncate) i else i.

(** What [stat] reports: the kind stands for the type bits of the mode *)
Record Stat := mk_stat { s_kind : kind; s_mode : Z; s_size : Z; s_ino : Z; s_nlink : Z; s_uid : Z; s_gid : Z; s_blocks : Z; s_times : Times }.
(** [VInode::attributes] with [fill_stat] and [with_times], [size] being that of a symlink *)
Definition attributes (i : Z) (n : VInode) (size : Z) : Stat :=
  let size := match ikind n with File => flen (data n) | Directory => 0 | Symlink => size end in
  mk_stat (ikind n) (mode (owner_ n)) size i (links n) (n_uid (owner_ n)) (n_gid (owner_ n)) (div_ceil size 512) (times n).
(** [allocated_blocks] *)
Definition with_blocks (n : VInode) (s : Stat) : Stat :=
  mk_stat (s_kind s) (s_mode s) (s_size s) (s_ino s) (s_nlink s) (s_uid s) (s_gid s) (n_pages (data n) * 8) (s_times s).
(** [VNode::attributes]'s size *)
Definition target_len (n : VNode) : Z := match n with VSymlink _ t => Z.of_nat (length t) | _ => 0 end.

(** ** Open files *)

Inductive Access := RdOnly | WrOnly | RdWr | OtherMode.
#[export] Instance Access_eq_dec : EqDecision Access.
Proof. solve_decision. Defined.
(** The bits of open's flags the code reads; those not of a host are never set on it *)
Record Flags := mk_flags {
  acc : Access; o_creat : bool; o_excl : bool; o_trunc : bool; o_append : bool; o_nonblock : bool;
  o_nofollow : bool; o_directory : bool; o_path : bool; o_symlink : bool }.
(** [status_flags] *)
Definition status_flags (f : Flags) : Flags :=
  mk_flags (acc f) false false false (o_append f) (o_nonblock f) (o_nofollow f) (o_directory f) (o_path f) (o_symlink f).
(** [writable] *)
Definition writable_flags (f : Flags) : bool := match acc f with WrOnly | RdWr => true | _ => false end.
(** [open_access] *)
Definition open_access (os : target_os) (f : Flags) : Z :=
  if is_linux os && o_path f then 0
  else
    let want := match acc f with RdOnly => READ | WrOnly => WRITE | _ => Z.lor READ WRITE end in
    if o_trunc f then Z.lor want WRITE else want.

Record DirEntry := mk_entry { e_name : name; e_ino : Z; e_kind : kind }.
Record DirStream := mk_stream { entries : list DirEntry; s_cursor : Z; s_inode : option Z }.
Record OpenFile := mk_open {
  f_inode : Z; f_cursor : Z; f_writable : bool; f_append : bool; f_flags : Flags; f_is_dir : bool;
  f_directory : option Z; f_description : Z }.
Definition put_cursor (c : Z) (f : OpenFile) : OpenFile :=
  mk_open (f_inode f) c (f_writable f) (f_append f) (f_flags f) (f_is_dir f) (f_directory f) (f_description f).

(** ** The file system *)

Abbreviation Tree := (gmap path VNode).

Record Vfs := mk_vfs {
  tree : Tree; inodes : gmap Z VInode; next_inode : Z; cwd : option Z; volume : Volume;
  opens : OpenFiles OpenFile; dirs : OpenFiles Z; streams : gmap Z DirStream; next_stream : Z;
  (** the next identity [fs_locks::description] gives *)
  next_description : Z }.

Definition with_tree (t : Tree) (fs : Vfs) : Vfs :=
  mk_vfs t (inodes fs) (next_inode fs) (cwd fs) (volume fs) (opens fs) (dirs fs) (streams fs) (next_stream fs) (next_description fs).
Definition with_inodes (m : gmap Z VInode) (fs : Vfs) : Vfs :=
  mk_vfs (tree fs) m (next_inode fs) (cwd fs) (volume fs) (opens fs) (dirs fs) (streams fs) (next_stream fs) (next_description fs).
Definition with_next_inode (n : Z) (fs : Vfs) : Vfs :=
  mk_vfs (tree fs) (inodes fs) n (cwd fs) (volume fs) (opens fs) (dirs fs) (streams fs) (next_stream fs) (next_description fs).
Definition with_cwd (c : option Z) (fs : Vfs) : Vfs :=
  mk_vfs (tree fs) (inodes fs) (next_inode fs) c (volume fs) (opens fs) (dirs fs) (streams fs) (next_stream fs) (next_description fs).
Definition with_volume (v : Volume) (fs : Vfs) : Vfs :=
  mk_vfs (tree fs) (inodes fs) (next_inode fs) (cwd fs) v (opens fs) (dirs fs) (streams fs) (next_stream fs) (next_description fs).
Definition with_opens (o : OpenFiles OpenFile) (fs : Vfs) : Vfs :=
  mk_vfs (tree fs) (inodes fs) (next_inode fs) (cwd fs) (volume fs) o (dirs fs) (streams fs) (next_stream fs) (next_description fs).
Definition with_dirs (o : OpenFiles Z) (fs : Vfs) : Vfs :=
  mk_vfs (tree fs) (inodes fs) (next_inode fs) (cwd fs) (volume fs) (opens fs) o (streams fs) (next_stream fs) (next_description fs).
Definition with_streams (s : gmap Z DirStream) (n : Z) (fs : Vfs) : Vfs :=
  mk_vfs (tree fs) (inodes fs) (next_inode fs) (cwd fs) (volume fs) (opens fs) (dirs fs) s n (next_description fs).
Definition with_description (n : Z) (fs : Vfs) : Vfs :=
  mk_vfs (tree fs) (inodes fs) (next_inode fs) (cwd fs) (volume fs) (opens fs) (dirs fs) (streams fs) (next_stream fs) n.

(** A change to one inode *)
Definition upd_inode (i : Z) (f : VInode → VInode) (fs : Vfs) : Vfs := with_inodes (alter f i (inodes fs)) fs.
Definition owner_at (i : Z) (fs : Vfs) : node := match inodes fs !! i with Some n => owner_ n | None => mk_node 0 0 0 end.
Definition kind_at (i : Z) (fs : Vfs) : kind := match inodes fs !! i with Some n => ikind n | None => File end.

(** What a call comes to: it declines, fails, succeeds or panics *)
Inductive Res (A : Type) := Declined | Err (e : errno) | Ok (a : A) | Panics.
Arguments Declined {A}.
Arguments Err {A} e.
Arguments Ok {A} a.
Arguments Panics {A}.
#[global] Instance Res_bind : MBind Res := λ A B (k : A → Res B) m,
  match m with Declined => Declined | Err e => Err e | Ok a => k a | Panics => Panics end.
(** [match f() { Ok(x) => x, Err(e) => return err(e) }] and [f()?] of an option *)
Definition of_sum {A} (m : errno + A) : Res A := match m with inl e => Err e | inr a => Ok a end.
Definition of_option {A} (m : option A) : Res A := match m with Some a => Ok a | None => Declined end.

Definition fail_if (b : bool) (e : errno) : Res unit := if b then Err e else Ok tt.
Definition decline_if (b : bool) : Res unit := if b then Declined else Ok tt.

(** ** Which paths a simulated file system serves, and how it walks them

    The lookups of [VirtualFs] in crates/snare/src/fs_sim.rs. The globs of a file system are
    predicates on paths ([Pattern::matches_path] of the glob crate), and what a call takes from
    outside is in [Env]: who the caller is, the clock, the process's own working directory. *)

Record Rules := mk_rules { owned_prefixes : list path; passthrough : path → bool; deny : path → bool }.
Record Env := mk_env { os : target_os; rules : Rules; caller : credentials; now : Z; host_cwd : errno + list Z }.

(** [AT_FDCWD] *)
Definition AT_FDCWD : Z := -100.

Section walk.
Context (env : Env).

(** [owned], [claims] *)
Definition owned (p : path) : bool := existsb (λ prefix, under prefix p) (owned_prefixes (rules env)).
Definition claims (t : Tree) (p : path) : bool :=
  owned p || bool_decide (is_Some (t !! p)) ||
  match parent_path p with Some q => bool_decide (is_Some (t !! q)) | None => false end.

(** [parent] *)
Definition parent (t : Tree) (p : path) : errno + Z :=
  if existsb (λ q, some_file (t !! q)) (above p) then inl ENOTDIR
  else match q ← parent_path p; t !! q with Some (VDir i) => inr i | _ => inl ENOENT end.

(** [may_remove], [may_rename] *)
Definition may_remove_at (t : Tree) (p : path) (victim : Z) (fs : Vfs) : errno + unit :=
  match q ← parent_path p; t !! q with
  | Some (VDir i) => may_remove (caller env) (owner_at i fs) (owner_at victim fs)
  | _ => inr tt
  end.
Definition may_rename (t : Tree) (from to : path) (source : VNode) (target : option VNode) (fs : Vfs) : Res unit :=
  of_sum (may_remove_at t from (node_inode source) fs) ;;
  match target with
  | Some target =>
      of_sum (may_remove_at t to (node_inode target) fs) ;;
      if is_macos (os env) && is_dir_node target
      then of_sum (check (caller env) (owner_at (node_inode target) fs) Directory WRITE) else Ok tt
  | None =>
      match q ← parent_path to; t !! q with
      | Some (VDir i) => of_sum (check (caller env) (owner_at i fs) Directory (Z.lor WRITE EXEC))
      | _ => Ok tt
      end
  end ;;
  if is_dir_node source && negb (bool_decide (parent_path from = parent_path to))
  then of_sum (check (caller env) (owner_at (node_inode source) fs) Directory WRITE) else Ok tt.

(** The tree in its order, and the first path of an inode *)
#[global] Instance path_le_dec : RelDecision (λ x y : path * VNode, path_leb x.1 y.1 = true).
Proof. intros x y. apply _. Defined.
Definition listing (t : Tree) : list (path * VNode) := merge_sort (λ x y, path_leb x.1 y.1 = true) (map_to_list t).
Definition path_of_inode (t : Tree) (i : Z) : option path := fst <$> find_first (λ x, node_inode x.2 =? i) (listing t).

(** [path_of] *)
Definition path_of (raw : option (list Z)) : option path :=
  bytes ← raw; if starts_slash bytes then Some (normalize bytes) else None.

(** [cwd_bytes] *)
Definition cwd_bytes (fs : Vfs) : option (errno + list Z) :=
  i ← cwd fs; Some (match path_of_inode (tree fs) i with Some p => inr (path_bytes p) | None => inl ENOENT end).

(** [absolute] *)
Definition absolute (raw : option (list Z)) (fs : Vfs) : Res (list Z) :=
  bytes ← of_option raw;
  if starts_slash bytes then Ok bytes
  else
    fail_if (bool_decide (bytes = [])) ENOENT ;;
    dir ← of_sum (match cwd_bytes fs with Some r => r | None => host_cwd env end);
    Ok (dir ++ SLASH :: bytes).

(** *** Walking *)

Definition is_dots (c : name) : bool := bool_decide (c = []) || bool_decide (c = dot) || bool_decide (c = dotdot).

(** What a walk meets before it looks [c] up in [current] *)
Definition meets (t : Tree) (fs : Vfs) (strict_dots : bool) (current : path) (c : name) : option errno :=
  match t !! current with
  | Some (VFile _ | VSymlink _ _) => if strict_dots || negb (is_dots c) then Some ENOTDIR else None
  | None => if negb (bool_decide (current = [])) && claims t current then Some ENOENT else None
  | Some (VDir i) =>
      if bool_decide (c = []) then None
      else match search (caller env) (owner_at i fs) with inl e => Some e | inr _ => None end
  end.

(** The loop of [traversal], which may follow [links_left] more symlinks: the path reached, and how
    many were left *)
Fixpoint walk (links_left : nat) (t : Tree) (fs : Vfs) (strict_dots follow_final : bool) : path → list name → errno + (path * nat) :=
  fix steps (current : path) (pending : list name) : errno + (path * nat) :=
    match pending with
    | [] => inr (current, links_left)
    | c :: rest =>
        match meets t fs strict_dots current c with
        | Some e => inl e
        | None =>
            if bool_decide (c = []) || bool_decide (c = dot) then steps current rest
            else if bool_decide (c = dotdot) then steps (tail current) rest
            else
              match t !! (c :: current) with
              | Some (VSymlink _ target) =>
                  if follow_final || negb (bool_decide (rest = [])) then
                    if bool_decide (target = []) then inl ENOENT
                    else match links_left with
                    | O => inl ELOOP
                    | S more =>
                        walk more t fs strict_dots follow_final
                          (if starts_slash target then [] else current)
                          (components target ++ (if ends_slash target && bool_decide (rest = []) then [[]] else []) ++ rest)
                    end
                  else steps (c :: current) rest
              | _ => steps (c :: current) rest
              end
        end
    end.

Definition link_limit : nat := if is_macos (os env) then 32 else 40.

(** The symlinks of the tree that a path, taken as it is written, goes through *)
Definition through_link (t : Tree) (raw : list Z) : bool :=
  let cs := retain (λ c, negb (bool_decide (c = dot))) (components raw) in
  existsb (λ x, is_symlink x.2 && bool_decide (rev x.1 `prefix_of` cs)) (map_to_list t).

(** [traversal] *)
Definition traversal (t : Tree) (fs : Vfs) (raw : list Z) (p : path) (strict_dots follow_final : bool) : errno + path :=
  if negb (claims t p) && negb (through_link t raw) then inr p
  else
    let pending := components raw ++ (if ends_slash raw && (follow_final || is_macos (os env)) then [[]] else []) in
    match walk link_limit t fs strict_dots follow_final [] pending with
    | inl e => inl e
    | inr (current, more) =>
        let followed := negb (bool_decide (more = link_limit)) in
        if followed && (passthrough (rules env) current || (negb (owned current) && negb (bool_decide (is_Some (t !! current))))) then inl EXDEV
        else if followed && deny (rules env) current then inl EACCES
        else inr current
    end.

(** *** Descriptors *)

(** [Fs::owns], [fd_inode] *)
Definition owns_fd (fd : Z) (fs : Vfs) : bool := of_contains fd (opens fs) || of_contains fd (dirs fs).
Definition fd_inode (fd : Z) (fs : Vfs) : option Z :=
  match of_get fd (opens fs) with
  | Some f => Some (f_inode f)
  | None => s ← of_get fd (dirs fs); stream ← streams fs !! s; s_inode stream
  end.

(** [retained_directory] *)
Definition retained_directory (fd : Z) (raw : option (list Z)) (fs : Vfs) : option (errno + Z) :=
  bytes ← raw;
  if bool_decide (bytes = []) || starts_slash bytes ||
     negb (forallb (λ c, bool_decide (c = []) || bool_decide (c = dot)) (split_slash bytes)) then None
  else
    i ← (if fd =? AT_FDCWD then cwd fs
         else f ← of_get fd (opens fs); if f_is_dir f then Some (f_inode f) else None);
    Some (match search (caller env) (owner_at i fs) with inl e => inl e | inr _ => inr i end).

(** [resolve_at] *)
Definition resolve_at (fd : Z) (raw : option (list Z)) (fs : Vfs) : Res (list Z) :=
  match raw with
  | None => if owns_fd fd fs then Err EFAULT else Declined
  | Some bytes =>
      if starts_slash bytes || (fd =? AT_FDCWD) then Ok bytes
      else
        f ← of_option (of_get fd (opens fs));
        fail_if (negb (f_is_dir f)) ENOTDIR ;;
        fail_if (bool_decide (bytes = [])) ENOENT ;;
        match path_of_inode (tree fs) (f_inode f) with
        | None => Err ENOENT
        | Some dir => Ok (path_bytes dir ++ SLASH :: bytes)
        end
  end.

(** The path a call names: absolute, and as the plane sees it. [deny_first] says in which order the
    call looks at the globs. *)
Definition named_path (raw : option (list Z)) (fs : Vfs) : Res (list Z * path) :=
  bytes ← absolute raw fs;
  p ← of_option (path_of (Some bytes));
  Ok (bytes, p).
Definition globs (deny_first : bool) (p : path) : Res unit :=
  if deny_first then fail_if (deny (rules env) p) EACCES ;; decline_if (passthrough (rules env) p)
  else decline_if (passthrough (rules env) p) ;; fail_if (deny (rules env) p) EACCES.

(** [lookup] *)
Definition lookup_node (dirfd : Z) (raw : option (list Z)) (follow : bool) (fs : Vfs) : Res Z :=
  match raw with
  | None => of_option (fd_inode dirfd fs)
  | Some _ =>
      match retained_directory dirfd raw fs with
      | Some r => of_sum r
      | None =>
          resolved ← resolve_at dirfd raw fs;
          '(bytes, p) ← named_path (Some resolved) fs;
          globs true p ;;
          p ← of_sum (traversal (tree fs) fs bytes p true (follow || ends_slash bytes));
          match tree fs !! p with
          | Some n => if is_file n && ends_slash bytes then Err ENOTDIR else Ok (node_inode n)
          | None => if owned p then Err ENOENT else Declined
          end
      end
  end.

End walk.
