(* ===== verification/FsCalls.v ===== *)
(** * Calls on paths

    The calls of [impl Fs for VirtualFs] (crates/snare/src/fs_sim.rs) that take a path, with all
    their guards in their order. A call that does not succeed leaves the file system as it was,
    but for the inode number a failing [open] may have used. *)

From S2P Require Import Prelude FsLocks FsPerm FsData FsTree.

(** ** Inodes come and go *)

(** The inodes something still refers to: a name, a descriptor, a stream, the working directory *)
Definition refs (fs : Vfs) : gset Z :=
  list_to_set (map (λ x, node_inode x.2) (map_to_list (tree fs))) ∪
  list_to_set (map (λ x, f_inode x.2.2) (map_to_list (descriptions (opens fs)))) ∪
  list_to_set (omap (λ x, stream ← streams fs !! x.2.2; s_inode stream) (map_to_list (descriptions (dirs fs)))) ∪
  (match cwd fs with Some i => {[i]} | None => ∅ end).

(** The inodes whose last [Arc] went in a call are dropped by its end, and their pages with them. *)
Definition collect (fs : Vfs) : Vfs :=
  let r := refs fs in
  let dead := filter (λ '(i, _), i ∉ r) (inodes fs) in
  with_volume (map_fold (λ _ n v, drop_file (data n) v) (volume fs) dead)
    (with_inodes (filter (λ '(i, _), i ∈ r) (inodes fs)) fs).

(** A node made at [p]: its number, its inode attached to the volume, its name *)
Definition make_node (p : path) (node : Z → VNode) (k : kind) (o : FsPerm.node) (now : Z) (fs : Vfs) : Res (Z * Vfs) :=
  let i := next_inode fs in
  let inode := inode_new [] k now o in
  match attach (data inode) (volume fs) with
  | Some v => Ok (i, with_tree (<[p := node i]> (tree fs)) (with_inodes (<[i := inode]> (inodes fs)) (with_volume v (with_next_inode (i + 2) fs))))
  | None => Panics
  end.

Section calls.
Context (env : Env).

(** ** Directories and links *)

(** [bytes] without the slashes at its end *)
Definition trim_slashes (bytes : list Z) : list Z :=
  match position (λ b, negb (b =? SLASH)) (rev bytes) with
  | Some n => take (length bytes - n) bytes
  | None => take 1 bytes
  end.
(** The last component that is not empty *)
Definition final_component (bytes : list Z) : option name := last (components bytes).

Definition mkdir (raw : option (list Z)) (m : Z) (fs : Vfs) : Res (unit * Vfs) :=
  '(bytes, p) ← named_path env raw fs;
  globs env true p;;
  decline_if (negb (claims env (tree fs) p));;
  let slash := ends_slash bytes in
  p ← of_sum (traversal env (tree fs) fs (trim_slashes bytes) p true (is_macos (os env) && slash));
  fail_if (is_macos (os env) && slash && some_file (tree fs !! p)) ENOTDIR;;
  fail_if (bool_decide (is_Some (tree fs !! p))) EEXIST;;
  par ← of_sum (parent (tree fs) p);
  of_sum (check (caller env) (owner_at par fs) Directory WRITE);;
  '(_, fs) ← make_node p VDir Directory (create (os env) (caller env) (owner_at par fs) m Directory) (now env) fs;
  Ok (tt, upd_inode par (λ n, touch (modify (now env)) (add_links 1 n)) fs).

Definition symlink (target raw : option (list Z)) (fs : Vfs) : Res (unit * Vfs) :=
  '(bytes, p) ← named_path env raw fs;
  globs env false p;;
  decline_if (negb (claims env (tree fs) p));;
  match target with
  | None => Err EFAULT
  | Some target =>
      fail_if (bool_decide (target = [])) ENOENT;;
      p ← of_sum (traversal env (tree fs) fs bytes p true false);
      fail_if (bool_decide (is_Some (tree fs !! p))) EEXIST;;
      par ← of_sum (parent (tree fs) p);
      fail_if (ends_slash bytes) ENOENT;;
      of_sum (check (caller env) (owner_at par fs) Directory WRITE);;
      '(_, fs) ← make_node p (λ i, VSymlink i target) Symlink (create (os env) (caller env) (owner_at par fs) 0x1ff Symlink) (now env) fs;
      Ok (tt, upd_inode par (touch (modify (now env))) fs)
  end.

Definition link (from to : option (list Z)) (fs : Vfs) : Res (unit * Vfs) :=
  from_bytes ← absolute env from fs;
  to_bytes ← absolute env to fs;
  source ← of_option (path_of (Some from_bytes));
  target ← of_option (path_of (Some to_bytes));
  fail_if (deny (rules env) source || deny (rules env) target) EACCES;;
  let t := tree fs in
  let source_claimed := claims env t source && negb (passthrough (rules env) source) in
  let target_claimed := claims env t target && negb (passthrough (rules env) target) in
  decline_if (negb source_claimed && negb target_claimed);;
  fail_if (negb source_claimed) EXDEV;;
  source ← of_sum (traversal env t fs from_bytes source true false);
  target ← of_sum (traversal env t fs to_bytes target true false);
  match t !! source with
  | Some (VDir _) => Err EPERM
  | None => Err ENOENT
  | Some n =>
      fail_if (ends_slash from_bytes) ENOTDIR;;
      fail_if (negb target_claimed) EXDEV;;
      fail_if (ends_slash to_bytes)
        (match t !! target with
         | Some (VDir _) => EEXIST
         | Some _ => if is_macos (os env) then ENOTDIR else EEXIST
         | None => ENOENT
         end);;
      fail_if (bool_decide (is_Some (t !! target))) EEXIST;;
      par ← of_sum (parent t target);
      of_sum (check (caller env) (owner_at par fs) Directory WRITE);;
      Ok (tt, with_tree (<[target := n]> t)
                (upd_inode par (touch (modify (now env)))
                  (upd_inode (node_inode n) (λ n, touch (mark_changed (now env)) (add_links 1 n)) fs)))
  end.

(** A directory whose name is gone: its links, on Linux, with it *)
Definition unlinked (i : Z) (fs : Vfs) : Vfs := if is_linux (os env) then upd_inode i no_links fs else fs.

Definition rmdir (raw : option (list Z)) (fs : Vfs) : Res (unit * Vfs) :=
  '(bytes, p) ← named_path env raw fs;
  globs env true p;;
  decline_if (negb (claims env (tree fs) p));;
  p ← of_sum (traversal env (tree fs) fs bytes p true false);
  fail_if (bool_decide (final_component bytes = Some dot)) EINVAL;;
  fail_if (bool_decide (p = [])) EBUSY;;
  match tree fs !! p with
  | None => Err ENOENT
  | Some n =>
      of_sum (may_remove_at env (tree fs) p (node_inode n) fs);;
      match n with
      | VDir i =>
          fail_if (existsb (λ x, negb (bool_decide (x.1 = p)) && under p x.1) (map_to_list (tree fs))) ENOTEMPTY;;
          let fs := with_tree (delete p (tree fs)) fs in
          let fs := unlinked i fs in
          let fs := match q ← parent_path p; tree fs !! q with
                    | Some (VDir par) => upd_inode par (λ n, touch (modify (now env)) (add_links (-1) n)) fs
                    | _ => fs
                    end in
          Ok (tt, fs)
      | _ => Err ENOTDIR
      end
  end.

Definition unlink (raw : option (list Z)) (fs : Vfs) : Res (unit * Vfs) :=
  '(bytes, p) ← named_path env raw fs;
  globs env true p;;
  decline_if (negb (claims env (tree fs) p));;
  p ← of_sum (traversal env (tree fs) fs bytes p true false);
  match tree fs !! p with
  | None => Err (match parent (tree fs) p with inl e => e | inr _ => ENOENT end)
  | Some n =>
      fail_if (is_macos (os env) && is_dir_node n) EPERM;;
      fail_if (ends_slash bytes && negb (is_dir_node n)) ENOTDIR;;
      of_sum (may_remove_at env (tree fs) p (node_inode n) fs);;
      fail_if (is_dir_node n) EISDIR;;
      let fs := with_tree (delete p (tree fs)) fs in
      let fs := upd_inode (node_inode n) (λ n, touch (mark_changed (now env)) (add_links (-1) n)) fs in
      let fs := match parent (tree fs) p with inr par => upd_inode par (touch (modify (now env))) fs | inl _ => fs end in
      Ok (tt, fs)
  end.

(** The tree with what is at [from] moved to [to], what is under it too when it is a directory *)
Definition moves (from : path) (directory : bool) (p : path) : bool := bool_decide (p = from) || (directory && under from p).
Definition destination (from to p : path) : path := take (length p - length from) p ++ to.
Definition move_tree (from to : path) (directory : bool) (t : Tree) : Tree :=
  list_to_map (map (λ x, (destination from to x.1, x.2)) (map_to_list (filter (λ '(p, _), moves from directory p = true) t))) ∪
  filter (λ '(p, _), moves from directory p = false) t.

(** What a rename does to the inode it replaces *)
Definition replaced (target : option VNode) (fs : Vfs) : Vfs :=
  match target with
  | Some n =>
      let fs := upd_inode (node_inode n) (touch (mark_changed (now env))) fs in
      if is_dir_node n then unlinked (node_inode n) fs else upd_inode (node_inode n) (add_links (-1)) fs
  | None => fs
  end.

(** [rename] once nothing stands in its way *)
Definition apply_rename (from to : path) (source : VNode) (target_parent : Z) (fs : Vfs) : Vfs :=
  let t := tree fs in
  let directory := is_dir_node source in
  let target := t !! to in
  let fs := match parent t from with inr par => upd_inode par (touch (modify (now env))) fs | inl _ => fs end in
  let fs := upd_inode target_parent (touch (modify (now env))) fs in
  let fs := upd_inode (node_inode source) (touch (mark_changed (now env))) fs in
  let fs := with_tree (move_tree from to directory (delete to t)) (replaced target fs) in
  if directory then
    let fs := match q ← parent_path from; tree fs !! q with
              | Some (VDir par) => upd_inode par (add_links (-1)) fs
              | _ => fs
              end in
    if some_dir target then fs else upd_inode target_parent (add_links 1) fs
  else fs.

Definition rename (from_raw to_raw : option (list Z)) (fs : Vfs) : Res (unit * Vfs) :=
  from_bytes ← absolute env from_raw fs;
  to_bytes ← absolute env to_raw fs;
  from ← of_option (path_of (Some from_bytes));
  to ← of_option (path_of (Some to_bytes));
  fail_if (deny (rules env) from || deny (rules env) to) EACCES;;
  decline_if (passthrough (rules env) from || passthrough (rules env) to);;
  let t := tree fs in
  let source_claimed := claims env t from in
  let target_claimed := claims env t to in
  decline_if (negb source_claimed && negb target_claimed);;
  fail_if (negb source_claimed) EXDEV;;
  from ← of_sum (traversal env t fs from_bytes from true false);
  to ← of_sum (traversal env t fs to_bytes to true false);
  let dots b := match final_component b with Some c => bool_decide (c = dot) || bool_decide (c = dotdot) | None => false end in
  fail_if (dots from_bytes || dots to_bytes) (if is_macos (os env) then EINVAL else EBUSY);;
  match t !! from with
  | None => Err (match parent t from with inl e => e | inr _ => ENOENT end)
  | Some source =>
      let directory := is_dir_node source in
      fail_if (ends_slash from_bytes && negb directory) ENOTDIR;;
      if bool_decide (from = to) then (if ends_slash to_bytes && negb directory then Err ENOTDIR else Ok (tt, fs))
      else
        fail_if (negb target_claimed) EXDEV;;
        target_parent ← of_sum (parent t to);
        let target := t !! to in
        (if ends_slash to_bytes && negb directory then
           if is_macos (os env) then
             match target with Some (VDir _) => Ok tt | Some _ => Err ENOTDIR | None => Err ENOENT end
           else Err ENOTDIR
         else Ok tt);;
        if match target with Some n => node_inode n =? node_inode source | None => false end then Ok (tt, fs)
        else
          fail_if (directory && under from to) EINVAL;;
          may_rename env t from to source target fs;;
          fail_if (negb directory && some_dir target) EISDIR;;
          fail_if (directory && bool_decide (is_Some target) && negb (some_dir target)) ENOTDIR;;
          fail_if (directory && some_dir target && existsb (λ x, negb (bool_decide (x.1 = to)) && under to x.1) (map_to_list t)) ENOTEMPTY;;
          Ok (tt, apply_rename from to source target_parent fs)
  end.

(** ** The working directory *)

Definition chdir (raw : option (list Z)) (fs : Vfs) : Res (unit * Vfs) :=
  match retained_directory env AT_FDCWD raw fs with
  | Some r => of_sum r;; Ok (tt, fs)
  | None =>
      '(bytes, p) ← named_path env raw fs;
      globs env false p;;
      decline_if (negb (claims env (tree fs) p));;
      p ← of_sum (traversal env (tree fs) fs bytes p true true);
      match tree fs !! p with
      | Some (VDir i) => of_sum (search (caller env) (owner_at i fs));; Ok (tt, with_cwd (Some i) fs)
      | Some _ => Err ENOTDIR
      | None => Err ENOENT
      end
  end.
Definition fchdir (fd : Z) (fs : Vfs) : Res (unit * Vfs) :=
  f ← of_option (of_get fd (opens fs));
  fail_if (negb (f_is_dir f)) ENOTDIR;;
  of_sum (search (caller env) (owner_at (f_inode f) fs));;
  Ok (tt, with_cwd (Some (f_inode f)) fs).
Definition cwd_changed (fs : Vfs) : Vfs := with_cwd None fs.

(** [getcwd], into a buffer of [len] bytes or, with none, one of its own: the bytes it writes *)
Definition getcwd (buf : bool) (len : Z) (fs : Vfs) : Res (list Z) :=
  r ← of_option (cwd_bytes fs);
  bytes ← of_sum r;
  fail_if (buf && (len =? 0)) EINVAL;;
  let len := if is_macos (os env) && negb buf then 0 else len in
  fail_if (negb (len =? 0) && (len <=? Z.of_nat (length bytes))) ERANGE;;
  Ok (bytes ++ [0]).

(** ** What a path names *)

(** [stat_path] *)
Definition stat_path (raw : option (list Z)) (follow : bool) (fs : Vfs) : Res Stat :=
  match retained_directory env AT_FDCWD raw fs with
  | Some r => i ← of_sum r; n ← of_option (inodes fs !! i); Ok (attributes i n 0)
  | None =>
      '(bytes, p) ← named_path env raw fs;
      globs env true p;;
      p ← of_sum (traversal env (tree fs) fs bytes p true (follow || ends_slash bytes));
      match tree fs !! p with
      | Some node =>
          fail_if (ends_slash bytes && is_file node) ENOTDIR;;
          n ← of_option (inodes fs !! node_inode node);
          Ok (with_blocks n (attributes (node_inode node) n (target_len node)))
      | None => if owned env p then Err ENOENT else Declined
      end
  end.
Definition stat (raw : option (list Z)) (fs : Vfs) : Res Stat := stat_path raw true fs.
Definition lstat (raw : option (list Z)) (fs : Vfs) : Res Stat := stat_path raw false fs.

(** [faccessat], with the bits of its arguments it knows *)
Definition faccessat (dirfd : Z) (raw : option (list Z)) (m : Z) (nofollow unknown : bool) (fs : Vfs) : Res unit :=
  resolved ← resolve_at dirfd raw fs;
  match stat_path (Some resolved) (negb nofollow) fs with
  | Declined => Declined
  | Panics => Panics
  | r =>
      fail_if (negb (Z.land m (Z.lnot 7) =? 0) || unknown) EINVAL;;
      s ← r;
      of_sum (check (caller env) (mk_node (Z.land (s_mode s) 0xfff) (s_uid s) (s_gid s)) (s_kind s) m)
  end.

(** [readlink] into a buffer of [len] bytes *)
Definition readlink (raw : option (list Z)) (buf : bool) (len : Z) (fs : Vfs) : Res (list Z) :=
  '(bytes, p) ← named_path env raw fs;
  globs env false p;;
  decline_if (negb (claims env (tree fs) p));;
  p ← of_sum (traversal env (tree fs) fs bytes p true (ends_slash bytes));
  match tree fs !! p with
  | Some (VSymlink _ target) =>
      fail_if (len =? 0) EINVAL;;
      fail_if (negb buf) EFAULT;;
      Ok (take (Z.to_nat len) target)
  | Some _ => Err EINVAL
  | None => Err ENOENT
  end.

(** [realpath]: the path it writes *)
Definition realpath (raw : option (list Z)) (fs : Vfs) : Res (list Z) :=
  '(bytes, p) ← named_path env raw fs;
  decline_if (passthrough (rules env) p);;
  p ← of_sum (traversal env (tree fs) fs bytes p (negb (is_macos (os env))) true);
  if bool_decide (is_Some (tree fs !! p)) then Ok (path_bytes p)
  else if owned env p then Err ENOENT else Declined.

(** ** Attributes *)

Definition set_times_call (dirfd : Z) (raw : option (list Z)) (s : SetTimes) (nofollow unknown : bool) (fs : Vfs) : Res (unit * Vfs) :=
  i ← lookup_node env dirfd raw (negb nofollow) fs;
  fail_if unknown EINVAL;;
  let set := [set_accessed s; set_modified s; set_created s] in
  let explicit := existsb (λ t, match t with At _ => true | _ => false end) set in
  let current := bool_decide (Now ∈ set) in
  of_sum (set_times (caller env) (owner_at i fs) (kind_at i fs) explicit current);;
  Ok (tt, upd_inode i (touch (times_set (os env) s (now env))) fs).

Definition fd_flags_path (fd : Z) (fs : Vfs) : bool := match of_get fd (opens fs) with Some f => o_path (f_flags f) | None => false end.

Definition chmod_call (dirfd : Z) (raw : option (list Z)) (m : Z) (nofollow unknown : bool) (fs : Vfs) : Res (unit * Vfs) :=
  i ← lookup_node env dirfd raw (negb nofollow) fs;
  fail_if unknown EINVAL;;
  fail_if (is_linux (os env) && bool_decide (raw = None) && fd_flags_path dirfd fs) EBADF;;
  fail_if (is_linux (os env) && bool_decide (kind_at i fs = Symlink)) EOPNOTSUPP;;
  o ← of_sum (chmod (caller env) (owner_at i fs) m);
  Ok (tt, upd_inode i (λ n, touch (mark_changed (now env)) (put_owner o n)) fs).

(** [chown]; [empty_path] is AT_EMPTY_PATH, which macOS does not know *)
Definition chown_call (dirfd : Z) (raw : option (list Z)) (u g : Z) (nofollow empty_path unknown : bool) (fs : Vfs) : Res (unit * Vfs) :=
  i ← lookup_node env dirfd raw (negb nofollow) fs;
  fail_if (unknown || (empty_path && negb (is_linux (os env)))) EINVAL;;
  fail_if (is_linux (os env) && bool_decide (raw = None) && negb (nofollow || empty_path) && fd_flags_path dirfd fs) EBADF;;
  '(o, marks) ← of_sum (chown (os env) (caller env) (owner_at i fs) (kind_at i fs) u g);
  Ok (tt, upd_inode i (λ n, let n := put_owner o n in if marks : bool then touch (mark_changed (now env)) n else n) fs).

End calls.
