(* ===== verification/FsFds.v ===== *)
(** * Opening, and calls on descriptors

    The rest of [impl Fs for VirtualFs] (crates/snare/src/fs_sim.rs): [open] and its relatives,
    reading and writing, seeking, duplicating, closing, listing directories, locking. What the host
    answers, the descriptor [dup] hands out or what [close] returns, is an argument. *)

From S2P Require Import Prelude Bytes FsLocks FsPerm FsData FsTree FsCalls.

Section fds.
Context (env : Env) (ino_of : path → Z) (memory : Z → bool).

(** A call that succeeds changes the file system; one that does not leaves it. *)
Definition settle_call {A} (m : Res (A * Vfs)) (fs : Vfs) : Res A * Vfs :=
  match m with Ok (a, fs') => (Ok a, fs') | Declined => (Declined, fs) | Err e => (Err e, fs) | Panics => (Panics, fs) end.

(** ** Opening *)

(** [snapshot] *)
Definition node_kind (n : VNode) : kind := match n with VFile _ => File | VDir _ => Directory | VSymlink _ _ => Symlink end.
Definition snapshot (t : Tree) (dir : path) : list DirEntry :=
  let ino n := match n with Some n => node_inode n | None => ino_of dir end in
  let up := match q ← parent_path dir; t !! q with Some n => Some n | None => t !! dir end in
  mk_entry dot (ino (t !! dir)) Directory :: mk_entry dotdot (ino up) Directory ::
  omap (λ x, match x.1 with
             | c :: q => if bool_decide (q = dir) then Some (mk_entry c (node_inode x.2) (node_kind x.2)) else None
             | [] => None
             end) (listing t).

(** [OpenFile]'s drop *)
Definition drop_open (f : option OpenFile) (fs : Vfs) : Vfs :=
  match f with
  | Some f => upd_inode (f_inode f) (λ n, put_locks (snd (release_description (f_description f) (locks n))) n) fs
  | None => fs
  end.

(** The new descriptor: a fresh stream for a directory, and the description, in place of one the
    number may still have. A stream takes an identity of its own on Linux. *)
Definition insert_open (fd i : Z) (writable is_dir : bool) (flags : Flags) (es : list DirEntry) (fs : Vfs) : Vfs :=
  let s := next_stream fs in
  let d := next_description fs + b2z (is_dir && is_linux (os env)) in
  let f := mk_open i 0 writable (o_append flags) (status_flags flags) is_dir (if is_dir then Some s else None) d in
  let fs := if is_dir then with_streams (<[s := mk_stream es 0 (Some i)]> (streams fs)) (s + 1) fs else fs in
  let old := mjoin (fst (of_remove fd (opens fs))) in
  drop_open old (with_description (d + 1) (with_opens (of_insert fd f (opens fs)) fs)).

(** [open_directory_inode] *)
Definition open_directory_inode (i : Z) (flags : Flags) (newfd : errno + Z) (fs : Vfs) : Res (Z * Vfs) :=
  fail_if (writable_flags flags) EISDIR;;
  fail_if (o_creat flags && o_excl flags) EEXIST;;
  fail_if (is_linux (os env) && o_creat flags) EISDIR;;
  of_sum (check (caller env) (owner_at i fs) Directory (open_access (os env) flags));;
  fd ← of_sum newfd;
  let es := match path_of_inode (tree fs) i with Some p => snapshot (tree fs) p | None => [] end in
  Ok (fd, insert_open fd i false true flags es fs).

(** What [open] opens: a node that is there, or one it makes *)
Inductive Opening := Existing (i : Z) (is_dir writable : bool) | Creates (o : node) (writable : bool).

(** [open] before it takes a descriptor *)
Definition open_plan (raw : option (list Z)) (flags : Flags) (m : Z) (fs : Vfs) : Res (path * Opening) :=
  '(bytes, p) ← named_path env raw fs;
  let slash := ends_slash bytes in
  globs env true p;;
  let t := tree fs in
  fail_if (is_linux (os env) && slash && o_creat flags && claims env t p) EISDIR;;
  p ← of_sum (traversal env t fs bytes p true (slash || (negb (o_nofollow flags) && negb (o_creat flags && o_excl flags))));
  let n := t !! p in
  fail_if (is_macos (os env) && o_symlink flags && claims env t p) EOPNOTSUPP;;
  fail_if (is_linux (os env) && o_path flags && o_nofollow flags && match n with Some n => is_symlink n | None => false end) EOPNOTSUPP;;
  fail_if (slash && some_file n) ENOTDIR;;
  (if slash && bool_decide (n = None) then (if owned env p then Err ENOENT else Declined) else Ok tt);;
  fail_if (bool_decide (is_Some n) && o_creat flags && o_excl flags) EEXIST;;
  fail_if (some_dir n && writable_flags flags) EISDIR;;
  fail_if (some_file n && o_directory flags) ENOTDIR;;
  fail_if (is_linux (os env) && some_dir n && o_creat flags) EISDIR;;
  match n with
  | Some (VSymlink _ _) => Err ELOOP
  | Some n =>
      let i := node_inode n in
      let k := kind_at i fs in
      of_sum (check (caller env) (owner_at i fs) k (open_access (os env) flags));;
      let is_dir := bool_decide (k = Directory) in
      Ok (p, Existing i is_dir (negb is_dir && writable_flags flags))
  | None =>
      if o_creat flags && (owned env p || match parent_path p with Some q => bool_decide (is_Some (t !! q)) | None => false end) then
        par ← of_sum (parent t p);
        of_sum (check (caller env) (owner_at par fs) Directory WRITE);;
        Ok (p, Creates (create (os env) (caller env) (owner_at par fs) m File) (writable_flags flags))
      else if owned env p then Err ENOENT else Declined
  end.

(** [O_TRUNC] *)
Definition truncate_open (i : Z) (creating : bool) (fs : Vfs) : Vfs :=
  match inodes fs !! i with
  | None => fs
  | Some n =>
      let '(d, v) := clear (data n) (volume fs) in
      let n := put_data d n in
      let n := if creating then n else inode_wrote (os env) (caller env) true (touch (modify (now env)) n) in
      with_volume v (upd_inode i (λ _, n) fs)
  end.

(** [open] from where it takes a descriptor *)
Definition open_with (p : path) (o : Opening) (flags : Flags) (newfd : errno + Z) (fs : Vfs) : Res Z * Vfs :=
  match o, newfd with
  | Existing _ _ _, inl e => (Err e, fs)
  | Creates _ _, inl e => (Err e, with_next_inode (next_inode fs + 2) fs)
  | Existing i is_dir writable, inr fd =>
      let fs := if negb is_dir && o_trunc flags then truncate_open i false fs else fs in
      (Ok fd, insert_open fd i writable is_dir flags (snapshot (tree fs) p) fs)
  | Creates o writable, inr fd =>
      settle_call (
        '(i, fs) ← make_node p VFile File o (now env) fs;
        let fs := match parent (tree fs) p with inr par => upd_inode par (touch (modify (now env))) fs | inl _ => fs end in
        let fs := if o_trunc flags then truncate_open i true fs else fs in
        Ok (fd, insert_open fd i writable false flags [] fs)) fs
  end.

Definition open (raw : option (list Z)) (flags : Flags) (m : Z) (newfd : errno + Z) (fs : Vfs) : Res Z * Vfs :=
  match retained_directory env AT_FDCWD raw fs with
  | Some (inl e) => (Err e, fs)
  | Some (inr i) => settle_call (open_directory_inode i flags newfd fs) fs
  | None =>
      match open_plan raw flags m fs with
      | Ok (p, o) => open_with p o flags newfd fs
      | Declined => (Declined, fs)
      | Err e => (Err e, fs)
      | Panics => (Panics, fs)
      end
  end.
Definition openat (dirfd : Z) (raw : option (list Z)) (flags : Flags) (m : Z) (newfd : errno + Z) (fs : Vfs) : Res Z * Vfs :=
  match retained_directory env dirfd raw fs with
  | Some (inl e) => (Err e, fs)
  | Some (inr i) => settle_call (open_directory_inode i flags newfd fs) fs
  | None =>
      match resolve_at dirfd raw fs with
      | Ok bytes => open (Some bytes) flags m newfd fs
      | Declined => (Declined, fs)
      | Err e => (Err e, fs)
      | Panics => (Panics, fs)
      end
  end.

(** ** The calls relative to a directory descriptor *)

Definition mkdirat (fd : Z) (raw : option (list Z)) (m : Z) (fs : Vfs) : Res (unit * Vfs) :=
  p ← resolve_at fd raw fs; mkdir env (Some p) m fs.
Definition unlinkat (fd : Z) (raw : option (list Z)) (removedir unknown : bool) (fs : Vfs) : Res (unit * Vfs) :=
  p ← resolve_at fd raw fs;
  fail_if unknown EINVAL;;
  if removedir then rmdir env (Some p) fs else unlink env (Some p) fs.
Definition renameat (fromfd : Z) (from : option (list Z)) (tofd : Z) (to : option (list Z)) (fs : Vfs) : Res (unit * Vfs) :=
  from ← resolve_at fromfd from fs; to ← resolve_at tofd to fs; rename env (Some from) (Some to) fs.
Definition symlinkat (target : option (list Z)) (fd : Z) (raw : option (list Z)) (fs : Vfs) : Res (unit * Vfs) :=
  p ← resolve_at fd raw fs; symlink env target (Some p) fs.
Definition linkat (fromfd : Z) (from : option (list Z)) (tofd : Z) (to : option (list Z)) (follow unknown : bool) (fs : Vfs) : Res (unit * Vfs) :=
  from ← resolve_at fromfd from fs;
  to ← resolve_at tofd to fs;
  fail_if unknown EINVAL;;
  from ← (if follow then
            '(bytes, p) ← named_path env (Some from) fs;
            p ← of_sum (traversal env (tree fs) fs bytes p true true);
            Ok (path_bytes p)
          else Ok from);
  link env (Some from) (Some to) fs.

(** ** Reading and writing *)

Definition reads (f : OpenFile) : bool := negb (bool_decide (acc (f_flags f) = WrOnly)).
(** [read_access] *)
Definition read_access (i requested n : Z) (fs : Vfs) : Vfs :=
  if (0 <? requested) && ((0 <? n) || is_linux (os env)) then upd_inode i (touch (access_times (now env))) fs else fs.

Definition read (fd len : Z) (fs : Vfs) : Res (list Z * Vfs) :=
  f ← of_option (of_get fd (opens fs));
  fail_if (negb (reads f)) EBADF;;
  fail_if (f_is_dir f) EISDIR;;
  n ← of_option (inodes fs !! f_inode f);
  let bytes := sparse_read (f_cursor f) len (data n) in
  let count := Z.of_nat (length bytes) in
  let fs := with_opens (of_update fd (put_cursor (f_cursor f + count)) (opens fs)) fs in
  Ok (bytes, read_access (f_inode f) len count fs).

Definition pread (fd len offset : Z) (fs : Vfs) : Res (list Z * Vfs) :=
  f ← of_option (of_get fd (opens fs));
  fail_if (is_macos (os env) && negb (reads f)) EBADF;;
  fail_if (offset <? 0) EINVAL;;
  fail_if (negb (reads f)) EBADF;;
  fail_if (f_is_dir f) EISDIR;;
  n ← of_option (inodes fs !! f_inode f);
  let bytes := sparse_read offset len (data n) in
  Ok (bytes, read_access (f_inode f) len (Z.of_nat (length bytes)) fs).

(** The bytes put into a file, its times and mode marked *)
Definition write_inode (i start : Z) (bytes : list Z) (fs : Vfs) : Res (Z * Vfs) :=
  n ← of_option (inodes fs !! i);
  match sparse_write memory start bytes (data n) (volume fs) with
  | None => Panics
  | Some (inl e, _, _) => Err e
  | Some (inr written, d, v) =>
      Ok (written, with_volume v (upd_inode i (λ n, inode_wrote (os env) (caller env) false (touch (modify (now env)) (put_data d n))) fs))
  end.

Definition write (fd : Z) (bytes : list Z) (fs : Vfs) : Res Z * Vfs :=
  match of_get fd (opens fs) with
  | None => (Declined, fs)
  | Some f =>
      if negb (f_writable f) then (Err EBADF, fs)
      else if bool_decide (bytes = []) then (Ok 0, fs)
      else
        let start := if f_append f then match inodes fs !! f_inode f with Some n => flen (data n) | None => 0 end else f_cursor f in
        let fs := with_opens (of_update fd (put_cursor start) (opens fs)) fs in
        settle_call (
          '(written, fs) ← write_inode (f_inode f) start bytes fs;
          Ok (written, with_opens (of_update fd (put_cursor (start + written)) (opens fs)) fs)) fs
  end.

Definition pwrite (fd : Z) (bytes : list Z) (offset : Z) (fs : Vfs) : Res (Z * Vfs) :=
  f ← of_option (of_get fd (opens fs));
  fail_if (offset <? 0) EINVAL;;
  fail_if (negb (f_writable f)) EBADF;;
  if bool_decide (bytes = []) then Ok (0, fs)
  else
    n ← of_option (inodes fs !! f_inode f);
    write_inode (f_inode f) (if is_linux (os env) && f_append f then flen (data n) else offset) bytes fs.

Definition ftruncate (fd len : Z) (fs : Vfs) : Res (unit * Vfs) :=
  f ← of_option (of_get fd (opens fs));
  fail_if (negb (f_writable f)) EINVAL;;
  fail_if (len <? 0) EINVAL;;
  n ← of_option (inodes fs !! f_inode f);
  let '(d, v) := resize len (data n) (volume fs) in
  Ok (tt, with_volume v (upd_inode (f_inode f) (λ n, inode_wrote (os env) (caller env) true (touch (modify (now env)) (put_data d n))) fs)).

Definition fsync (fd : Z) (fs : Vfs) : Res unit := of_option (of_get fd (opens fs));; Ok tt.

Definition lseek (fd offset : Z) (w : whence) (fs : Vfs) : Res (Z * Vfs) :=
  f ← of_option (of_get fd (opens fs));
  match f_directory f with
  | Some s =>
      stream ← of_option (streams fs !! s);
      base ← (match w with SeekSet => Ok 0 | SeekCur => Ok (wrap_i64 (s_cursor stream)) | _ => Err EINVAL end);
      match checked_add_i64 base offset with
      | Some target =>
          fail_if (target <? 0) EINVAL;;
          Ok (target, with_streams (<[s := mk_stream (entries stream) target (s_inode stream)]> (streams fs)) (next_stream fs) fs)
      | None => Err EINVAL
      end
  | None =>
      n ← of_option (inodes fs !! f_inode f);
      base ← (match w with
              | SeekSet => Ok 0 | SeekCur => Ok (wrap_i64 (f_cursor f)) | SeekEnd => Ok (wrap_i64 (flen (data n))) | SeekOther => Err EINVAL
              end);
      match checked_add_i64 base offset with
      | Some target =>
          fail_if (target <? 0) EINVAL;;
          Ok (target, with_opens (of_update fd (put_cursor target) (opens fs)) fs)
      | None => Err EINVAL
      end
  end.

Definition fstat (fd : Z) (fs : Vfs) : Res Stat :=
  i ← of_option (fd_inode fd fs);
  n ← of_option (inodes fs !! i);
  let s := attributes i n 0 in
  Ok (match of_get fd (opens fs) with
      | Some f => match inodes fs !! f_inode f with Some n => with_blocks n s | None => s end
      | None => mk_stat (s_kind s) (s_mode s) (s_size s) (s_ino s) (s_nlink s) (s_uid s) (s_gid s) 0 (s_times s)
      end).

(** ** Descriptors that go *)

(** [locks.release_process] of the inode a descriptor named *)
Definition release_of (i : option Z) (fs : Vfs) : Vfs :=
  match i with Some i => upd_inode i (λ n, put_locks (snd (release_process (locks n))) n) fs | None => fs end.

Definition fd_replaced (fd : Z) (fs : Vfs) : Res (unit * Vfs) :=
  let i := f_inode <$> of_get fd (opens fs) in
  let '(file, o) := of_remove fd (opens fs) in
  let '(stream, d) := of_remove fd (dirs fs) in
  decline_if (negb (bool_decide (is_Some file)) && negb (bool_decide (is_Some stream)));;
  Ok (tt, release_of i (drop_open (mjoin file) (with_dirs d (with_opens o fs)))).

(** [close]; [ret] is what the host's returned *)
Definition close (fd ret : Z) (fs : Vfs) : Res (Z * Vfs) :=
  '(_, fs) ← fd_replaced fd fs; Ok (ret, fs).

(** The aliasing of [dup] and [dup_to] *)
Definition dup_onto (oldfd newfd : Z) (fs : Vfs) : Vfs :=
  let replaced := if oldfd =? newfd then None else f_inode <$> of_get newfd (opens fs) in
  let '(released, o, d) :=
    if of_contains oldfd (opens fs) then
      let '(r, o) := of_alias oldfd newfd (opens fs) in (mjoin r, o, snd (of_remove newfd (dirs fs)))
    else
      let '(r, o) := of_remove newfd (opens fs) in (mjoin r, o, snd (of_alias oldfd newfd (dirs fs))) in
  release_of replaced (drop_open released (with_dirs d (with_opens o fs))).
Definition dup (oldfd newfd : Z) (fs : Vfs) : Res (Z * Vfs) :=
  decline_if (negb (owns_fd oldfd fs));; Ok (newfd, dup_onto oldfd newfd fs).
(** [dup_to]; [result] is what the host's dup2 or dup3 returned *)
Definition dup_to (oldfd newfd : Z) (result : errno + Z) (fs : Vfs) : Res (Z * Vfs) :=
  decline_if (negb (owns_fd oldfd fs));;
  r ← of_sum result;
  Ok (r, dup_onto oldfd newfd fs).
(** [fcntl] F_DUPFD, with the host's answer; F_GETFL and F_SETFL *)
Definition fcntl_dup (fd : Z) (result : errno + Z) (fs : Vfs) : Res (Z * Vfs) :=
  decline_if (negb (owns_fd fd fs));;
  newfd ← of_sum result;
  Ok (newfd, if of_contains fd (opens fs) then let '(r, o) := of_alias fd newfd (opens fs) in drop_open (mjoin r) (with_opens o fs)
             else with_dirs (snd (of_alias fd newfd (dirs fs))) fs).
Definition fcntl_getfl (fd : Z) (fs : Vfs) : Res Flags :=
  decline_if (negb (owns_fd fd fs));;
  Ok (match of_get fd (opens fs) with
      | Some f => f_flags f
      | None => mk_flags RdOnly false false false false false false false false false
      end).
Definition set_status (append nonblock : bool) (f : OpenFile) : OpenFile :=
  let fl := f_flags f in
  mk_open (f_inode f) (f_cursor f) (f_writable f) append
    (mk_flags (acc fl) (o_creat fl) (o_excl fl) (o_trunc fl) append nonblock (o_nofollow fl) (o_directory fl) (o_path fl) (o_symlink fl))
    (f_is_dir f) (f_directory f) (f_description f).
Definition fcntl_setfl (fd : Z) (append nonblock : bool) (fs : Vfs) : Res (unit * Vfs) :=
  decline_if (negb (owns_fd fd fs));;
  Ok (tt, with_opens (of_update fd (set_status append nonblock) (opens fs)) fs).

(** ** Locks *)

(** [lock_target] *)
Definition lock_target (fd : Z) (fs : Vfs) : option (Z * target) :=
  f ← of_get fd (opens fs);
  n ← inodes fs !! f_inode f;
  Some (f_inode f, mk_target (reads f) (f_writable f) (f_cursor f) (flen (data n)) (f_description f)).
(** A lock call on the inode of [fd], or on a directory stream's descriptor *)
Definition lock_call (fd : Z) (call : target → table → option result) (fs : Vfs) : Res (outcome * Vfs) :=
  match lock_target fd fs with
  | Some (i, t) =>
      n ← of_option (inodes fs !! i);
      r ← of_option (call t (locks n));
      Ok (what r, upd_inode i (put_locks (after r)) fs)
  | None => if of_contains fd (dirs fs) then Err EINVAL else Declined
  end.
Definition flock_fd (fd operation : Z) (fs : Vfs) : Res (outcome * Vfs) :=
  lock_call fd (λ t tab, Some (flock (os env) (description t) operation tab)) fs.
Definition fcntl_lock (fd pid : Z) (cmd : command) (arg : option flock_arg) (fs : Vfs) : Res (outcome * Vfs) :=
  lock_call fd (λ t tab, fcntl (os env) pid cmd arg t tab) fs.

(** ** Directory streams *)

Definition fdopendir (fd : Z) (fs : Vfs) : Res (Z * Vfs) :=
  f ← of_option (of_get fd (opens fs));
  match f_directory f with
  | None => Err ENOTDIR
  | Some s => Ok (fd, with_dirs (of_insert fd s (dirs fs)) fs)
  end.
Definition opendir (raw : option (list Z)) (newfd : errno + Z) (fs : Vfs) : Res Z * Vfs :=
  match open raw (mk_flags RdOnly false false false false false false true false false) 0 newfd fs with
  | (Ok fd, fs) => settle_call (fdopendir fd fs) fs
  | r => r
  end.
Definition readdir (fd : Z) (fs : Vfs) : Res (option DirEntry * Vfs) :=
  s ← of_option (of_get fd (dirs fs));
  stream ← of_option (streams fs !! s);
  match entries stream !! Z.to_nat (s_cursor stream) with
  | None => Ok (None, fs)
  | Some e =>
      let fs := with_streams (<[s := mk_stream (entries stream) (s_cursor stream + 1) (s_inode stream)]> (streams fs)) (next_stream fs) fs in
      Ok (Some e, match s_inode stream with Some i => upd_inode i (touch (access_times (now env))) fs | None => fs end)
  end.
Definition closedir (fd ret : Z) (fs : Vfs) : Res (Z * Vfs) :=
  decline_if (negb (of_contains fd (dirs fs)));; close fd ret fs.

End fds.

(** ** Directory listings as records

    [getdents64] of [VirtualFs] and [pack_directory] (crates/snare/src/fs_sim.rs): the entries of a
    directory stream as the records of struct dirent64 (Linux) or struct dirent (macOS), as many
    whole ones as the buffer holds. *)

(** [libc::DT_DIR], [DT_REG], [DT_LNK] *)
Definition d_type (k : kind) : Z := match k with Directory => 4 | File => 8 | Symlink => 10 end.

Section pack.
Context (os : target_os).

(** [d_name.len()], [offset_of!(Dirent, d_name)] and the alignment of records *)
Definition d_name_len : Z := if is_macos os then 1024 else 256.
Definition header : Z := if is_macos os then 21 else 19.
Definition alignment : Z := if is_macos os then 4 else 8.
Definition record_len (n : name) : Z := div_ceil (header + Z.of_nat (length n) + 1) alignment * alignment.

(** The record of an entry; [next] is the position after it *)
Definition dirent_record (next : Z) (e : DirEntry) : list Z :=
  let len := record_len (e_name e) in
  to_ne_bytes 8 (e_ino e) ++ to_ne_bytes 8 next ++ to_ne_bytes 2 len ++
  (if is_macos os then to_ne_bytes 2 (Z.of_nat (length (e_name e))) else []) ++
  [d_type (e_kind e)] ++ e_name e ++ replicate (Z.to_nat (len - header - Z.of_nat (length (e_name e)))) 0.

(** [pack_directory] from [cursor] on, [written] bytes being there: what it adds, and where it stops *)
Fixpoint pack_loop (buf : bool) (len cursor written : Z) (es : list DirEntry) : (errno + list Z) * Z :=
  let stop e := (if written =? 0 then inl e else inr [], cursor) in
  match es with
  | [] => (inr [], cursor)
  | e :: es =>
      if d_name_len <=? Z.of_nat (length (e_name e)) then stop ENAMETOOLONG
      else if sat_sub len written <? record_len (e_name e) then stop EINVAL
      else if negb buf then stop EFAULT
      else
        match pack_loop buf len (cursor + 1) (written + record_len (e_name e)) es with
        | (inr out, c) => (inr (dirent_record (cursor + 1) e ++ out), c)
        | (inl x, c) => (inl x, c)
        end
  end.
Definition pack_directory (buf : bool) (len : Z) (st : DirStream) : (errno + list Z) * Z :=
  pack_loop buf len (s_cursor st) 0 (drop (Z.to_nat (s_cursor st)) (entries st)).

End pack.

(** [list_access] *)
Definition list_access (env : Env) (st : DirStream) (fs : Vfs) : Vfs :=
  match s_inode st with Some i => upd_inode i (touch (access_times (now env))) fs | None => fs end.

Definition getdents64 (env : Env) (fd : Z) (buf : bool) (len : Z) (fs : Vfs) : Res (list Z) * Vfs :=
  match of_get fd (opens fs) with
  | None => (Declined, fs)
  | Some f =>
      match f_directory f with
      | None => (Err ENOTDIR, fs)
      | Some s =>
          match streams fs !! s with
          | None => (Declined, fs)
          | Some st =>
              let fs := list_access env st fs in
              match pack_directory (os env) buf len st with
              | (inl e, _) => (Err e, fs)
              | (inr out, c) => (Ok out, with_streams (<[s := mk_stream (entries st) c (s_inode st)]> (streams fs)) (next_stream fs) fs)
              end
          end
      end
  end.
