(* ===== verification/FsSys.v ===== *)
(** * Runs of a file system

    The calls of a simulated file system as data, each with what it takes from outside, and the
    runs over any sequence of them. *)

From S2P Require Import Prelude Bytes FsLocks FsPerm FsData FsTree FsCalls FsFds.

(** ** Building a file system

    [FsBuilder] of crates/snare/src/fs_sim.rs, [VirtualFs::new] and [VirtualFs::attach]. *)

Record FsBuilder := mk_builder {
  b_tree : Tree; b_inodes : gmap Z VInode; b_next_inode : Z; b_rules : Rules; storage_limit_ : option Z;
  b_times : gmap path NodeTimes; b_modes : gmap path Z; b_owners : gmap path (Z * Z) }.
Definition builder_default : FsBuilder :=
  mk_builder ∅ ∅ 0 (mk_rules [] (λ _, false) (λ _, false)) None ∅ ∅ ∅.

Definition with_nodes (t : Tree) (m : gmap Z VInode) (n : Z) (b : FsBuilder) : FsBuilder :=
  mk_builder t m n (b_rules b) (storage_limit_ b) (b_times b) (b_modes b) (b_owners b).
Definition with_rules (r : Rules) (b : FsBuilder) : FsBuilder :=
  mk_builder (b_tree b) (b_inodes b) (b_next_inode b) r (storage_limit_ b) (b_times b) (b_modes b) (b_owners b).
Definition with_wishes (l : option Z) (t : gmap path NodeTimes) (m : gmap path Z) (o : gmap path (Z * Z)) (b : FsBuilder) : FsBuilder :=
  mk_builder (b_tree b) (b_inodes b) (b_next_inode b) (b_rules b) l t m o.

Section build.
Context (os : target_os).

(** [declared_mode] *)
Definition declared_mode (k : kind) : Z :=
  match k with File => 0x1a4 | Directory => 0x1ed | Symlink => if is_macos os then 0x1ed else 0x1ff end.

(** A node declared at a path, with the inode [FsBuilder::inode] makes for it *)
Definition declare (p : path) (node : Z → VNode) (k : kind) (bytes : list Z) (b : FsBuilder) : FsBuilder :=
  let number := Z.lor (b_next_inode b) 1 in
  let inode := inode_new bytes k 0 (mk_node (declared_mode k) 0 0) in
  with_nodes (<[p := node number]> (b_tree b)) (<[number := inode]> (b_inodes b)) (number + 2) b.
(** The directories above a path that are not declared *)
Definition declare_above (p : path) (b : FsBuilder) : FsBuilder :=
  foldl (λ b q, if bool_decide (is_Some (b_tree b !! q)) then b else declare q VDir Directory [] b) b (above p).

(** [file], [dir], [symlink] *)
Definition b_file (raw bytes : list Z) (b : FsBuilder) : FsBuilder :=
  let p := normalize raw in declare p VFile File bytes (declare_above p b).
Definition b_dir (raw : list Z) (b : FsBuilder) : FsBuilder := declare (normalize raw) VDir Directory [] b.
Definition b_symlink (raw target : list Z) (b : FsBuilder) : FsBuilder :=
  let p := normalize raw in declare p (λ i, VSymlink i target) Symlink [] (declare_above p b).
(** [storage_limit], [times], [mode], [owner] *)
Definition storage_limit (bytes : Z) (b : FsBuilder) : FsBuilder := with_wishes (Some bytes) (b_times b) (b_modes b) (b_owners b) b.
Definition set_times_of (raw : list Z) (t : NodeTimes) (b : FsBuilder) : FsBuilder :=
  with_wishes (storage_limit_ b) (<[normalize raw := t]> (b_times b)) (b_modes b) (b_owners b) b.
Definition set_mode_of (raw : list Z) (m : Z) (b : FsBuilder) : FsBuilder :=
  with_wishes (storage_limit_ b) (b_times b) (<[normalize raw := Z.land m 0xfff]> (b_modes b)) (b_owners b) b.
Definition set_owner_of (raw : list Z) (u g : Z) (b : FsBuilder) : FsBuilder :=
  with_wishes (storage_limit_ b) (b_times b) (b_modes b) (<[normalize raw := (u, g)]> (b_owners b)) b.
(** [own_prefix], [passthrough], [deny], a pattern being what it matches *)
Definition own_prefix (raw : list Z) (b : FsBuilder) : FsBuilder :=
  let r := b_rules b in with_rules (mk_rules (owned_prefixes r ++ [normalize raw]) (passthrough r) (deny r)) b.
Definition b_passthrough (pattern : path → bool) (b : FsBuilder) : FsBuilder :=
  let r := b_rules b in with_rules (mk_rules (owned_prefixes r) (λ p, passthrough r p || pattern p) (deny r)) b.
Definition b_deny (pattern : path → bool) (b : FsBuilder) : FsBuilder :=
  let r := b_rules b in with_rules (mk_rules (owned_prefixes r) (passthrough r) (λ p, deny r p || pattern p)) b.

End build.

(** How many directories a directory has in it *)
Definition child_dirs (t : Tree) (p : path) : Z :=
  Z.of_nat (size (filter (λ '(q, n), is_dir_node n = true ∧ parent_path q = Some p) t)).

(** [VirtualFs::new]: [None] where it panics. [user] is the caller's credentials *)
Definition declared_inode (b : FsBuilder) (user : credentials) (p : path) (n : VNode) : VInode :=
  let inode := default (inode_new [] File 0 (mk_node 0 0 0)) (b_inodes b !! node_inode n) in
  let '(u, g) := default (uid user, gid user) (b_owners b !! p) in
  let o := mk_node (default (mode (owner_ inode)) (b_modes b !! p)) u g in
  put_owner o (if is_dir_node n then add_links (child_dirs (b_tree b) p) inode else inode).
Definition declared_inodes (b : FsBuilder) (user : credentials) : gmap Z VInode :=
  list_to_map (map (λ x, (node_inode x.2, declared_inode b user x.1 x.2)) (map_to_list (b_tree b))).
Definition attach_all (m : gmap Z VInode) (v : Volume) : option Volume :=
  map_fold (λ _ n v, v ≫= attach (data n)) (Some v) m.
Definition all_declared {A} (b : FsBuilder) (m : gmap path A) : bool :=
  bool_decide (dom m ⊆ dom (b_tree b)).
Definition fs_new (b : FsBuilder) (user : credentials) : option Vfs :=
  let m := declared_inodes b user in
  v ← attach_all m (mk_volume (default (2 ^ 30) (storage_limit_ b) / PAGE_SIZE) 0 0);
  if all_declared b (b_times b) && all_declared b (b_modes b) && all_declared b (b_owners b) then
    Some (mk_vfs (b_tree b) m (Z.lor (b_next_inode b) 1) None v opens_default opens_default ∅ 0 1)
  else None.

(** [VirtualFs::attach], of the first sim: [user] and [now] are its user and clock *)
Definition stamp_inode (b : FsBuilder) (user : credentials) (now : Z) (p : path) (n : VInode) : VInode :=
  let n := touch (λ _, resolve_times now (default node_times_default (b_times b !! p))) n in
  match b_owners b !! p with
  | Some _ => n
  | None => put_owner (mk_node (mode (owner_ n)) (uid user) (gid user)) n
  end.
Definition fs_attach (b : FsBuilder) (user : credentials) (now : Z) (fs : Vfs) : Vfs :=
  foldr (λ x fs, upd_inode (node_inode x.2) (stamp_inode b user now x.1) fs) fs (map_to_list (b_tree b)).


(** *** What a builder is told *)

Inductive Declaration :=
  | DFile (raw bytes : list Z) | DDir (raw : list Z) | DSymlink (raw target : list Z) | DLimit (bytes : Z)
  | DTimes (raw : list Z) (t : NodeTimes) | DMode (raw : list Z) (m : Z) | DOwner (raw : list Z) (u g : Z)
  | DOwn (raw : list Z) | DPassthrough (pattern : path → bool) | DDeny (pattern : path → bool).
Definition tell (os : target_os) (b : FsBuilder) (d : Declaration) : FsBuilder :=
  match d with
  | DFile raw bytes => b_file os raw bytes b
  | DDir raw => b_dir os raw b
  | DSymlink raw target => b_symlink os raw target b
  | DLimit n => storage_limit n b
  | DTimes raw t => set_times_of raw t b
  | DMode raw m => set_mode_of raw m b
  | DOwner raw u g => set_owner_of raw u g b
  | DOwn raw => own_prefix raw b
  | DPassthrough pattern => b_passthrough pattern b
  | DDeny pattern => b_deny pattern b
  end.
Definition build (os : target_os) (ds : list Declaration) : FsBuilder := foldl (tell os) builder_default ds.
(** A limit is a [u64]. *)
Definition declaration_ok (d : Declaration) : Prop := match d with DLimit n => 0 ≤ n | _ => True end.

Inductive Call :=
  | CMkdir (fd : Z) (raw : option (list Z)) (m : Z)
  | CSymlink (target : option (list Z)) (fd : Z) (raw : option (list Z))
  | CLink (fromfd : Z) (from : option (list Z)) (tofd : Z) (to : option (list Z)) (follow unknown : bool)
  | CUnlink (fd : Z) (raw : option (list Z)) (removedir unknown : bool)
  | CRename (fromfd : Z) (from : option (list Z)) (tofd : Z) (to : option (list Z))
  | CChdir (raw : option (list Z)) | CFchdir (fd : Z) | CCwdChanged
  | CSetTimes (fd : Z) (raw : option (list Z)) (s : SetTimes) (nofollow unknown : bool)
  | CChmod (fd : Z) (raw : option (list Z)) (m : Z) (nofollow unknown : bool)
  | CChown (fd : Z) (raw : option (list Z)) (u g : Z) (nofollow empty_path unknown : bool)
  | COpen (fd : Z) (raw : option (list Z)) (flags : Flags) (m : Z) (newfd : errno + Z)
  | CRead (fd len : Z) | CPread (fd len offset : Z)
  | CWrite (fd : Z) (bytes : list Z) | CPwrite (fd : Z) (bytes : list Z) (offset : Z)
  | CTruncate (fd len : Z) | CSeek (fd offset : Z) (w : whence)
  | CClose (fd ret : Z) | CReplaced (fd : Z) | CDup (oldfd newfd : Z) | CDupTo (oldfd newfd : Z) (result : errno + Z)
  | CFcntlDup (fd : Z) (result : errno + Z) | CSetFl (fd : Z) (append nonblock : bool)
  | CFlock (fd operation : Z) | CFcntlLock (fd pid : Z) (cmd : command) (arg : option flock_arg)
  | COpendir (raw : option (list Z)) (newfd : errno + Z) | CFdopendir (fd : Z) | CReaddir (fd : Z) | CClosedir (fd ret : Z)
  | CGetdents (fd : Z) (buf : bool) (len : Z).

Definition forget_value {A} (r : Res A) : Res unit := match r with Declined => Declined | Err e => Err e | Ok _ => Ok tt | Panics => Panics end.

Section sys.
Context (ino_of : path → Z) (memory : Z → bool).

(** A call as its handler leaves the file system *)
Definition handle (env : Env) (c : Call) (fs : Vfs) : Res unit * Vfs :=
  let s {A} (m : Res (A * Vfs)) := let '(r, fs) := settle_call m fs in (forget_value r, fs) in
  let r {A} (m : Res A * Vfs) := (forget_value (fst m), snd m) in
  match c with
  | CMkdir fd raw m => s (mkdirat env fd raw m fs)
  | CSymlink target fd raw => s (symlinkat env target fd raw fs)
  | CLink a b c d e f => s (linkat env a b c d e f fs)
  | CUnlink fd raw d u => s (unlinkat env fd raw d u fs)
  | CRename a b c d => s (renameat env a b c d fs)
  | CChdir raw => s (chdir env raw fs)
  | CFchdir fd => s (fchdir env fd fs)
  | CCwdChanged => (Ok tt, cwd_changed fs)
  | CSetTimes fd raw t n u => s (set_times_call env fd raw t n u fs)
  | CChmod fd raw m n u => s (chmod_call env fd raw m n u fs)
  | CChown fd raw u g n e k => s (chown_call env fd raw u g n e k fs)
  | COpen fd raw flags m newfd => r (openat env ino_of fd raw flags m newfd fs)
  | CRead fd len => s (read env fd len fs)
  | CPread fd len offset => s (pread env fd len offset fs)
  | CWrite fd bytes => r (write env memory fd bytes fs)
  | CPwrite fd bytes offset => s (pwrite env memory fd bytes offset fs)
  | CTruncate fd len => s (ftruncate env fd len fs)
  | CSeek fd offset w => s (lseek fd offset w fs)
  | CClose fd ret => s (close fd ret fs)
  | CReplaced fd => s (fd_replaced fd fs)
  | CDup a b => s (dup a b fs)
  | CDupTo a b x => s (dup_to a b x fs)
  | CFcntlDup fd x => s (fcntl_dup fd x fs)
  | CSetFl fd a n => s (fcntl_setfl fd a n fs)
  | CFlock fd op => s (flock_fd env fd op fs)
  | CFcntlLock fd pid cmd arg => s (fcntl_lock env fd pid cmd arg fs)
  | COpendir raw newfd => r (opendir env ino_of raw newfd fs)
  | CFdopendir fd => s (fdopendir fd fs)
  | CReaddir fd => s (readdir env fd fs)
  | CClosedir fd ret => s (closedir fd ret fs)
  | CGetdents fd buf len => r (getdents64 env fd buf len fs)
  end.

(** A call, and what its end drops *)
Definition step (env : Env) (c : Call) (fs : Vfs) : Res unit * Vfs :=
  let '(r, fs) := handle env c fs in (r, collect fs).

(** A run: [None] if a call panics *)
Fixpoint run (cs : list (Env * Call)) (fs : Vfs) : option Vfs :=
  match cs with
  | [] => Some fs
  | (env, c) :: cs => match step env c fs with (Panics, _) => None | (_, fs) => run cs fs end
  end.

End sys.

(** ** A small file system

    A file in a directory and a symlink to the directory, and a run over them: what the theorems
    on file systems are tried on. *)

Definition sample_declarations : list Declaration := [DOwn (bytes "/"); DFile (bytes "/a/f") (bytes "hello"); DSymlink (bytes "/l") (bytes "d/../a"); DLimit 65536].
Definition sample_builder : FsBuilder := build Linux sample_declarations.
Definition sample_user : credentials := mk_credentials 1000 1000 [1000] false 18.
Definition no_files : Vfs := mk_vfs ∅ ∅ 0 None (mk_volume 0 0 0) opens_default opens_default ∅ 0 1.
Definition sample_new : Vfs := default no_files (fs_new sample_builder sample_user).
Definition sample_fs : Vfs := fs_attach sample_builder sample_user 5 sample_new.
Definition sample_env (now : Z) : Env := mk_env Linux (b_rules sample_builder) sample_user now (inl ENOENT).
Definition for_reading : Flags := mk_flags RdOnly false false false false false false false false false.
Definition for_writing : Flags := mk_flags RdWr true false false false false false false false false.
Definition no_ino (_ : path) : Z := 7.

(** A directory made, a file opened through the symlink, its directory moved, its name dropped
    while it is open, another written and linked, and a
    symlink to it *)
Definition sample_calls : list (Env * Call) :=
  map (λ c, (sample_env 6, c))
    [CMkdir AT_FDCWD (Some (bytes "/d")) 493; COpen AT_FDCWD (Some (bytes "/l/f")) for_reading 0 (inr 3);
     CRename AT_FDCWD (Some (bytes "/a")) AT_FDCWD (Some (bytes "/d/x")); CUnlink AT_FDCWD (Some (bytes "/d/x/f")) false false;
     COpen AT_FDCWD (Some (bytes "/d/x/g")) for_writing 420 (inr 4); CWrite 4 [1; 2; 3];
     CLink AT_FDCWD (Some (bytes "/d/x/g")) AT_FDCWD (Some (bytes "/h")) false false;
     CSymlink (Some (bytes "x/./g")) AT_FDCWD (Some (bytes "/d/k"))].
Definition sample_after : Vfs := default no_files (run no_ino (λ _, true) sample_calls sample_fs).

Lemma sample_new_Some : fs_new sample_builder sample_user = Some sample_new.
Proof. by vm_compute. Qed.
Lemma sample_declared : Forall declaration_ok sample_declarations.
Proof. repeat constructor; done. Qed.
