(* ===== verification/FsInv.v ===== *)
(** * What holds of a simulated file system between calls

    The invariant of the tables of crates/snare/src/fs_sim.rs and the steps every call is made of:
    marking an inode, making one, adding, dropping and moving names, changing a file's bytes,
    opening and closing, listing. Names, descriptors, streams and the working directory refer to
    inodes of the right kind ([refers_ok]); the volume counts the pages of the inodes there are
    ([store_ok]); after a call there are no others than those something refers to ([consistent]). *)

From S2P Require Import Prelude FsLocks FsPerm FsData FsDataProps FsTree FsCalls FsFds.

(** ** The invariant *)

Definition kinds (m : gmap Z VInode) : gmap Z kind := ikind <$> m.
Definition stream_inodes (s : gmap Z DirStream) : gmap Z Z := omap s_inode s.

(** All the descriptions of a table *)
Definition of_all {T} (P : T → Prop) (o : OpenFiles T) : Prop := ∀ id r x, descriptions o !! id = Some (r, x) → P x.

Record file_ok (K : gmap Z kind) (D : gmap Z Z) (f : OpenFile) : Prop := {
  fo_inode : K !! f_inode f = Some (if f_is_dir f then Directory else File);
  fo_cursor : 0 ≤ f_cursor f;
  fo_writable : f_writable f = true → f_is_dir f = false;
  fo_directory : match f_directory f with Some s => f_is_dir f = true ∧ D !! s = Some (f_inode f) | None => f_is_dir f = false end;
}.
Definition stream_ok (K : gmap Z kind) (D : gmap Z Z) (s : Z) : Prop := ∃ i, D !! s = Some i ∧ K !! i = Some Directory.

Record refers_ok (K : gmap Z kind) (D : gmap Z Z) (fs : Vfs) : Prop := {
  ro_names p n : tree fs !! p = Some n → K !! node_inode n = Some (node_kind n);
  ro_once p q i : tree fs !! p = Some (VDir i) → tree fs !! q = Some (VDir i) → p = q;
  ro_opens : opens_ok (opens fs);
  ro_files : of_all (file_ok K D) (opens fs);
  ro_dirs : opens_ok (dirs fs);
  ro_streams : of_all (stream_ok K D) (dirs fs);
  ro_cwd i : cwd fs = Some i → K !! i = Some Directory;
}.

Definition all_pages (m : gmap Z VInode) : Z := map_fold (λ _ n s, n_pages (data n) + s) 0 m.
Definition data_ok (n : VInode) : Prop := sparse_ok (data n) ∧ (ikind n ≠ File → data n = sparse_new []).
Record store_ok (fs : Vfs) : Prop := {
  sk_next i : is_Some (inodes fs !! i) → i < next_inode fs;
  sk_data i n : inodes fs !! i = Some n → data_ok n;
  sk_used : used (volume fs) = all_pages (inodes fs);
  sk_files : files (volume fs) = Z.of_nat (size (inodes fs));
  sk_room : used (volume fs) ≤ capacity (volume fs);
  sk_streams s : is_Some (streams fs !! s) → s < next_stream fs;
}.
Definition core (fs : Vfs) : Prop := refers_ok (kinds (inodes fs)) (stream_inodes (streams fs)) fs ∧ store_ok fs.
(** Nothing is kept that nothing refers to. *)
Definition consistent (fs : Vfs) : Prop := core fs ∧ ∀ i, is_Some (inodes fs !! i) ↔ i ∈ refs fs.

(** ** Descriptions *)

Section of_all.
Context {T : Type} (P : T → Prop).

Lemma of_get_all fd x (o : OpenFiles T) : of_all P o → of_get fd o = Some x → P x.
Proof.
  intros H. unfold of_get. destruct (handles o !! fd) as [id|]; [|done]. cbn. destruct (descriptions o !! id) as [[r y]|] eqn:E; [|done].
  cbn. intros [= <-]. by eapply H.
Qed.

Lemma of_update_all fd f (o : OpenFiles T) : of_all P o → (∀ x, of_get fd o = Some x → P (f x)) → of_all P (of_update fd f o).
Proof.
  intros H Hf. unfold of_update, of_get in *. destruct (handles o !! fd) as [id|]; [|done]. intros id' r x. cbn.
  intros [(-> & [r' y] & E & [= -> ->])|[_ E]]%lookup_alter_Some; [|by eapply H]. apply Hf. cbn. by rewrite E.
Qed.

Lemma of_remove_all fd (o : OpenFiles T) : of_all P o → of_all P (snd (of_remove fd o)).
Proof.
  intros H. unfold of_remove. destruct (handles o !! fd) as [id|]; [|done]. destruct (descriptions o !! id) as [[refs x]|] eqn:E; [|done].
  case_match; intros id' r y; cbn.
  - intros [_ Hy]%lookup_delete_Some. by eapply H.
  - intros [[<- [= <- <-]]|[_ Hy]]%lookup_insert_Some; by eapply H.
Qed.

Lemma of_insert_all fd x (o : OpenFiles T) : of_all P o → P x → of_all P (of_insert fd x o).
Proof.
  intros H Hx id r y. cbn. intros [[_ [= _ <-]]|[_ Hy]]%lookup_insert_Some; [done|]. by eapply (of_remove_all fd).
Qed.

Lemma of_alias_all old new (o : OpenFiles T) : of_all P o → of_all P (snd (of_alias old new o)).
Proof.
  intros H. unfold of_alias. destruct (handles o !! old) as [id|]; [|done]. case_match; [done|]. pose proof (of_remove_all new o H) as Hr.
  destruct (of_remove new o) as [rel o1]. intros id' r y. cbn. intros [(-> & [r' z] & E & [= -> ->])|[_ E]]%lookup_alter_Some; by eapply Hr.
Qed.
End of_all.

Lemma of_all_mono {T} (P Q : T → Prop) o : (∀ x, P x → Q x) → of_all P o → of_all Q o.
Proof. intros H Ho id r x Hx. by eapply H, Ho. Qed.

Lemma of_remove_tables {T} fd (o : OpenFiles T) : opens_ok o → opens_ok (snd (of_remove fd o)).
Proof. intros H. pose proof (of_remove_ok fd o H) as Ho. by destruct (of_remove fd o), Ho. Qed.
Lemma of_alias_tables {T} old new (o : OpenFiles T) : opens_ok o → opens_ok (snd (of_alias old new o)).
Proof. intros H. pose proof (of_alias_ok old new o H) as Ho. by destruct (of_alias old new o), Ho. Qed.
Lemma of_insert_tables {T} fd x (o : OpenFiles T) : opens_ok o → opens_ok (of_insert fd x o).
Proof. intros H. by destruct (of_insert_ok fd x o H). Qed.

#[export] Hint Resolve of_update_all of_remove_all of_insert_all of_alias_all of_update_ok of_remove_tables of_alias_tables of_insert_tables : snare.

(** ** Growing tables *)

Lemma file_ok_mono K K' D D' f : K ⊆ K' → D ⊆ D' → file_ok K D f → file_ok K' D' f.
Proof.
  intros HK HD [Hi Hc Hw Hd]. split; try done; [by eapply lookup_weaken|]. destruct (f_directory f) as [s|]; [|done].
  destruct Hd as [? Hs]. split; [done|by eapply lookup_weaken].
Qed.
Lemma stream_ok_mono K K' D D' s : K ⊆ K' → D ⊆ D' → stream_ok K D s → stream_ok K' D' s.
Proof. intros HK HD (i & Hs & Hi). exists i. split; by eapply lookup_weaken. Qed.
Lemma refers_ok_mono K K' D D' fs : K ⊆ K' → D ⊆ D' → refers_ok K D fs → refers_ok K' D' fs.
Proof.
  intros HK HD [Hn H1 Ho Hf Hd Hs Hc]. split; try done.
  - intros p n Hp. eapply lookup_weaken; [by eapply Hn|done].
  - eapply of_all_mono; [|done]. intros f. by apply file_ok_mono.
  - eapply of_all_mono; [|done]. intros s. by apply stream_ok_mono.
  - intros i Hi. eapply lookup_weaken; [by eapply Hc|done].
Qed.

Lemma kinds_lookup m i : kinds m !! i = ikind <$> m !! i.
Proof. apply lookup_fmap. Qed.
Lemma kinds_alter f i m : (∀ n, m !! i = Some n → ikind (f n) = ikind n) → kinds (alter f i m) = kinds m.
Proof.
  intros H. apply map_eq. intros j. rewrite !kinds_lookup. destruct (decide (i = j)) as [<-|].
  - rewrite lookup_alter_eq. destruct (m !! i) as [n|] eqn:E; [|done]. cbn. by rewrite H.
  - by rewrite lookup_alter_ne.
Qed.

(** ** Pages *)

Lemma all_pages_insert i n m : m !! i = None → all_pages (<[i := n]> m) = n_pages (data n) + all_pages m.
Proof. intros H. unfold all_pages. rewrite map_fold_insert_L; [done|intros; lia|done]. Qed.
Lemma all_pages_delete i n m : m !! i = Some n → all_pages m = n_pages (data n) + all_pages (delete i m).
Proof. intros H. unfold all_pages. rewrite (map_fold_delete_L _ _ i n); [done|intros; lia|done]. Qed.
Lemma all_pages_alter f i n m : m !! i = Some n → all_pages (alter f i m) = all_pages m + n_pages (data (f n)) - n_pages (data n).
Proof.
  intros H. rewrite (all_pages_delete i n m H), (all_pages_delete i (f n)) by (rewrite lookup_alter_eq, H; done).
  rewrite delete_alter_eq. lia.
Qed.
Lemma size_alter {A} (f : A → A) i (m : gmap Z A) : size (alter f i m) = size m.
Proof. rewrite <- !size_dom, dom_alter_L. done. Qed.

(** ** Steps on inodes *)

(** A change to an inode that leaves its kind and its bytes *)
Definition marks (f : VInode → VInode) : Prop := ∀ n, ikind (f n) = ikind n ∧ data (f n) = data n.
Lemma marks_touch g : marks (touch g).
Proof. by intros n. Qed.
Lemma marks_links k : marks (add_links k).
Proof. by intros n. Qed.
Lemma marks_no_links : marks no_links.
Proof. by intros n. Qed.
Lemma marks_owner o : marks (put_owner o).
Proof. by intros n. Qed.
Lemma marks_touch_links g k : marks (λ n, touch g (add_links k n)).
Proof. by intros n. Qed.
Lemma marks_touch_owner g o : marks (λ n, touch g (put_owner o n)).
Proof. by intros n. Qed.
Lemma marks_chown g o (b : bool) : marks (λ n, let n := put_owner o n in if b then touch g n else n).
Proof. intros n. by destruct b. Qed.
Lemma marks_locks l : marks (put_locks l).
Proof. by intros n. Qed.
Lemma marks_locks_of g : marks (λ n, put_locks (g n) n).
Proof. by intros n. Qed.
Lemma inode_wrote_same os c t n : ikind (inode_wrote os c t n) = ikind n ∧ data (inode_wrote os c t n) = data n.
Proof. unfold inode_wrote. by case_match. Qed.
#[export] Hint Resolve marks_touch marks_links marks_no_links marks_owner marks_touch_links marks_touch_owner marks_chown marks_locks marks_locks_of : snare.

Lemma core_marks i f fs : marks f → core fs → core (upd_inode i f fs).
Proof.
  intros Hf [Hr [Hn Hd Hu Hfi Hro Hs]]. split.
  - destruct Hr as [H1 H2 H3 H4 H5 H6 H7]. cbn. rewrite kinds_alter by (intros; apply Hf). by split.
  - split; cbn; try done.
    + intros j Hj. rewrite lookup_alter_is_Some in Hj. by apply Hn.
    + intros j n Hj. apply lookup_alter_Some in Hj as [(<- & n' & Hn' & ->)|[_ Hj]]; [|by eapply Hd].
      destruct (Hd _ _ Hn') as [Ha Hb]. destruct (Hf n') as [Ek Ed]. split; rewrite ?Ek, ?Ed; done.
    + destruct (inodes fs !! i) as [n|] eqn:E; [rewrite (all_pages_alter _ _ n) by done; destruct (Hf n) as [_ ->]; lia|]. by rewrite alter_id by (intros ? ?; congruence).
    + by rewrite size_alter.
Qed.

(** New bytes for a file, and what they take of the volume *)
Lemma core_data i n d v f fs : core fs → inodes fs !! i = Some n → ikind n = File → sparse_ok d →
  used v - n_pages d = used (volume fs) - n_pages (data n) → capacity v = capacity (volume fs) → files v = files (volume fs) → used v ≤ capacity v →
  ikind (f n) = ikind n → data (f n) = d → core (with_volume v (upd_inode i f fs)).
Proof.
  intros [Hr [Hn Hd Hu Hfi Hro Hs]] Ei Ek Hok Huv Hc Hfv Hle Hk Hdd. split.
  - destruct Hr as [H1 H2 H3 H4 H5 H6 H7]. cbn. rewrite kinds_alter by congruence. by split.
  - split; cbn; try done.
    + intros j Hj. rewrite lookup_alter_is_Some in Hj. by apply Hn.
    + intros j m Hj. apply lookup_alter_Some in Hj as [(<- & n' & Hn' & ->)|[_ Hj]]; [|by eapply Hd]. simplify_eq. split; [done|congruence].
    + rewrite (all_pages_alter _ _ n) by done. rewrite Hdd. lia.
    + rewrite size_alter. congruence.
Qed.

Lemma n_pages_new : n_pages (sparse_new []) = 0.
Proof. done. Qed.

(** Other names, of inodes there are *)
Lemma core_tree t fs : core fs → (∀ p n, t !! p = Some n → kinds (inodes fs) !! node_inode n = Some (node_kind n)) →
  (∀ p q i, t !! p = Some (VDir i) → t !! q = Some (VDir i) → p = q) → core (with_tree t fs).
Proof. intros [[H1 H2 H3 H4 H5 H6 H7] [Hn Hd Hu Hfi Hro Hs]] Ht Ho. by split; split. Qed.

(** The names of [t] were names of the tree before *)
Lemma core_renamed t fs : core fs → (∀ p n, t !! p = Some n → ∃ q, tree fs !! q = Some n) →
  (∀ p q i, t !! p = Some (VDir i) → t !! q = Some (VDir i) → p = q) → core (with_tree t fs).
Proof. intros Hc Ht Ho. apply core_tree; [done| |done]. intros p n [q Hq]%Ht. by eapply (ro_names _ _ _ (proj1 Hc)). Qed.

Lemma core_delete p fs : core fs → core (with_tree (delete p (tree fs)) fs).
Proof.
  intros Hc. apply core_renamed; [done| |].
  - intros q n [_ Hq]%lookup_delete_Some. by exists q.
  - intros q r i [_ Hq]%lookup_delete_Some [_ Hr]%lookup_delete_Some. by eapply (ro_once _ _ _ (proj1 Hc)).
Qed.

Lemma core_insert p n fs : core fs → kinds (inodes fs) !! node_inode n = Some (node_kind n) →
  (∀ q i, n = VDir i → tree fs !! q ≠ Some (VDir i)) → core (with_tree (<[p := n]> (tree fs)) fs).
Proof.
  intros Hc Hk Hd. pose proof (proj1 Hc) as Hr. apply core_tree; [done| |].
  - intros q m [[_ <-]|[_ Hq]]%lookup_insert_Some; [done|by eapply Hr].
  - intros q r i [[<- ->]|[_ Hq]]%lookup_insert_Some [[<- Er]|[_ Hr']]%lookup_insert_Some; try done.
    + by destruct (Hd r i).
    + by destruct (Hd q i).
    + by eapply Hr.
Qed.

(** A new inode: it takes no pages *)
Lemma core_inode k o now fs : core fs → let i := next_inode fs in
  kinds (inodes fs) !! i = None ∧
  core (with_inodes (<[i := inode_new [] k now o]> (inodes fs))
    (with_volume (mk_volume (capacity (volume fs)) (used (volume fs) + n_pages (sparse_new [])) (files (volume fs) + 1)) (with_next_inode (i + 2) fs))).
Proof.
  intros [Hr [Hn Hd Hu Hfi Hro Hs]] i.
  assert (inodes fs !! i = None) as Hfresh.
  { destruct (inodes fs !! i) eqn:E; [|done]. assert (i < next_inode fs) by (apply Hn; by rewrite E). lia. }
  split; [by rewrite kinds_lookup, Hfresh|]. split.
  - apply (refers_ok_mono _ (kinds (<[i := inode_new [] k now o]> (inodes fs))) _ (stream_inodes (streams fs))) in Hr; [|unfold kinds; rewrite fmap_insert; apply insert_subseteq; by rewrite lookup_fmap, Hfresh|done].
    destruct Hr as [H1 H2 H3 H4 H5 H6 H7]. by split.
  - split; cbn [with_inodes with_volume with_next_inode inodes next_inode volume used capacity files streams next_stream]; rewrite ?n_pages_new; try done; try lia.
    + intros j Hj. destruct (decide (i = j)) as [<-|]; [lia|]. rewrite lookup_insert_ne in Hj by done. apply Hn in Hj. lia.
    + intros j n [[_ <-]|[_ Hj]]%lookup_insert_Some; [|by eapply Hd]. split; [apply sparse_new_ok|done].
    + rewrite all_pages_insert by done. cbn [data inode_new]. rewrite n_pages_new. lia.
    + rewrite map_size_insert_None by done. lia.
Qed.

(** A new inode, with a name *)
Lemma core_make p node k o now fs : core fs → (∀ i, node_inode (node i) = i) → (∀ i, node_kind (node i) = k) →
  ∃ fs', make_node p node k o now fs = Ok (next_inode fs, fs') ∧ core fs' ∧ kinds (inodes fs') !! next_inode fs = Some k ∧
    tree fs' = <[p := node (next_inode fs)]> (tree fs) ∧ inodes fs' = <[next_inode fs := inode_new [] k now o]> (inodes fs).
Proof.
  intros Hc Hni Hnk. destruct (core_inode k o now fs Hc) as [Hfresh Hc']. pose proof (sk_room _ (proj2 Hc)) as Hro. unfold make_node, attach.
  change (data (inode_new [] k now o)) with (sparse_new []). destruct (Z.leb_spec (used (volume fs) + n_pages (sparse_new [])) (capacity (volume fs))) as [_|Hlt]; [|rewrite n_pages_new in Hlt; lia].
  eexists. split; [done|]. split; [|cbn; by rewrite kinds_lookup, lookup_insert_eq].
  apply (core_insert p (node (next_inode fs))) in Hc'; [done| |].
  - rewrite Hni, Hnk. cbn. by rewrite kinds_lookup, lookup_insert_eq.
  - cbn. intros q i E Hq. pose proof (ro_names _ _ _ (proj1 Hc) _ _ Hq) as H'. cbn in H'. pose proof (Hni (next_inode fs)) as En. rewrite E in En. cbn in En. congruence.
Qed.

(** ** Moving names *)

Lemma under_app (from p : path) : under from p = true ↔ ∃ rest, p = rest ++ from.
Proof. unfold under. rewrite bool_decide_eq_true. split; intros [k ->]; by exists k. Qed.
Lemma destination_app (from to rest : path) : destination from to (rest ++ from) = rest ++ to.
Proof. unfold destination. by rewrite length_app, Nat.add_sub, take_app_length. Qed.
Lemma moves_app (from : path) (d : bool) (p : path) : moves from d p = true → ∃ rest, p = rest ++ from.
Proof.
  unfold moves. rewrite orb_true_iff, bool_decide_eq_true, andb_true_iff. intros [->|[_ H]]; [by exists []|by apply under_app].
Qed.

(** What the moved tree has at a path: what moved there, or what was there and did not move *)
Lemma move_tree_Some (from to : path) (d : bool) (t : Tree) (p : path) (n : VNode) : move_tree from to d t !! p = Some n →
  ∃ q, t !! q = Some n ∧ ((moves from d q = true ∧ p = destination from to q) ∨ (moves from d q = false ∧ p = q)).
Proof.
  unfold move_tree. rewrite lookup_union_Some_raw. intros [H|[_ H]].
  - apply elem_of_list_to_map_2, list_elem_of_fmap in H as ([q m] & [= -> ->] & Hin). apply elem_of_map_to_list, map_lookup_filter_Some in Hin as [Hq Hm].
    exists q. split; [done|]. by left.
  - apply map_lookup_filter_Some in H as [H Hm]. exists p. split; [done|]. by right.
Qed.

Lemma destination_inj (from to : path) (d : bool) p q : moves from d p = true → moves from d q = true → destination from to p = destination from to q → p = q.
Proof. intros [r ->]%moves_app [s ->]%moves_app. rewrite !destination_app. intros ->%app_inv_tail. done. Qed.

Lemma move_tree_moved (from to : path) (d : bool) (t : Tree) (q : path) (n : VNode) : t !! q = Some n → moves from d q = true → move_tree from to d t !! destination from to q = Some n.
Proof.
  intros Hq Hm. unfold move_tree. apply lookup_union_Some_raw. left. apply elem_of_list_to_map_1.
  - rewrite map_map. cbn. apply NoDup_fmap_2_strong; [|apply NoDup_map_to_list].
    intros [p x] [q' y] Hx Hy E. apply elem_of_map_to_list, map_lookup_filter_Some in Hx as [Hx Hmx], Hy as [Hy Hmy].
    cbn in E. apply (destination_inj from to d) in E; [|done..]. subst. congruence.
  - apply list_elem_of_fmap. exists (q, n). split; [done|]. by apply elem_of_map_to_list, map_lookup_filter_Some.
Qed.

Lemma move_tree_kept (from to : path) (d : bool) (t : Tree) (p : path) : (∀ q, moves from d q = true → is_Some (t !! q) → p ≠ destination from to q) →
  move_tree from to d t !! p = if moves from d p then None else t !! p.
Proof.
  intros Hp. unfold move_tree. rewrite lookup_union_r.
  - rewrite map_lookup_filter. destruct (t !! p) as [n|]; cbn; [|by destruct (moves from d p)]. by destruct (moves from d p).
  - apply not_elem_of_list_to_map_1. rewrite map_map. cbn. intros ([q n] & Eq & Hin)%list_elem_of_fmap. apply elem_of_map_to_list, map_lookup_filter_Some in Hin as [Hq Hm].
    by apply (Hp q).
Qed.

Lemma core_relocate (from to : path) (d : bool) t fs : core fs → t ⊆ tree fs → core (with_tree (move_tree from to d t) fs).
Proof.
  intros Hc Ht. apply core_renamed; [done| |].
  - intros p n (q & Hq & _)%move_tree_Some. exists q. by eapply lookup_weaken.
  - intros p q i (p' & Hp & Hpc)%move_tree_Some (q' & Hq & Hqc)%move_tree_Some.
    assert (p' = q') as -> by (eapply (ro_once _ _ _ (proj1 Hc)); eapply lookup_weaken; done).
    destruct Hpc as [[? ->]|[? ->]], Hqc as [[? ->]|[? ->]]; congruence.
Qed.

(** ** Steps on descriptors *)

Lemma core_opens o fs : core fs → opens_ok o → of_all (file_ok (kinds (inodes fs)) (stream_inodes (streams fs))) o → core (with_opens o fs).
Proof. intros [[H1 H2 H3 H4 H5 H6 H7] [Hn Hd Hu Hfi Hro Hs]] Ho Hf. by split; split. Qed.
Lemma core_dirs o fs : core fs → opens_ok o → of_all (stream_ok (kinds (inodes fs)) (stream_inodes (streams fs))) o → core (with_dirs o fs).
Proof. intros [[H1 H2 H3 H4 H5 H6 H7] [Hn Hd Hu Hfi Hro Hs]] Ho Hf. by split; split. Qed.
Lemma core_cwd c fs : core fs → (∀ i, c = Some i → kinds (inodes fs) !! i = Some Directory) → core (with_cwd c fs).
Proof. intros [[H1 H2 H3 H4 H5 H6 H7] [Hn Hd Hu Hfi Hro Hs]] Ho. by split; split. Qed.
Lemma core_description n fs : core fs → core (with_description n fs).
Proof. intros [[H1 H2 H3 H4 H5 H6 H7] [Hn Hd Hu Hfi Hro Hs]]. by split; split. Qed.
Lemma core_next n fs : core fs → next_inode fs ≤ n → core (with_next_inode n fs).
Proof. intros [[H1 H2 H3 H4 H5 H6 H7] [Hn Hd Hu Hfi Hro Hs]] Hle. split; split; try done. cbn. intros i Hi. apply Hn in Hi. lia. Qed.

(** A stream read or rewound, and a new one *)
Lemma core_stream s es c e st fs : core fs → streams fs !! s = Some st → s_inode st = e →
  core (with_streams (<[s := mk_stream es c e]> (streams fs)) (next_stream fs) fs).
Proof.
  intros [Hr [Hn Hd Hu Hfi Hro Hs]] Hst <-. split.
  - assert (stream_inodes (<[s := mk_stream es c (s_inode st)]> (streams fs)) = stream_inodes (streams fs)) as E.
    { apply map_eq. intros j. unfold stream_inodes. rewrite !lookup_omap. destruct (decide (s = j)) as [<-|]; [by rewrite lookup_insert_eq, Hst|by rewrite lookup_insert_ne]. }
    destruct Hr as [H1 H2 H3 H4 H5 H6 H7]. split; cbn [with_streams inodes streams tree opens dirs cwd]; rewrite ?E; done.
  - split; try done. cbn. intros j Hj. destruct (decide (s = j)) as [<-|]; [apply Hs; by rewrite Hst|]. rewrite lookup_insert_ne in Hj by done. by apply Hs.
Qed.
Lemma core_new_stream es i fs : core fs → let s := next_stream fs in let fs' := with_streams (<[s := mk_stream es 0 (Some i)]> (streams fs)) (s + 1) fs in
  core fs' ∧ stream_inodes (streams fs') !! s = Some i.
Proof.
  intros [Hr [Hn Hd Hu Hfi Hro Hs]] s fs'. assert (streams fs !! s = None) as Hf.
  { destruct (streams fs !! s) eqn:E; [|done]. assert (s < next_stream fs) by (apply Hs; by rewrite E). lia. }
  split; [split|].
  - apply (refers_ok_mono _ (kinds (inodes fs)) _ (stream_inodes (streams fs'))) in Hr; [by destruct Hr; split|done|].
    apply map_subseteq_spec. intros j x. unfold stream_inodes, fs'. cbn. rewrite !lookup_omap. destruct (decide (s = j)) as [<-|]; [by rewrite Hf|by rewrite lookup_insert_ne].
  - split; try done. cbn. intros j Hj. destruct (decide (s = j)) as [<-|]; [lia|]. rewrite lookup_insert_ne in Hj by done. apply Hs in Hj. lia.
  - unfold stream_inodes, fs'. cbn. by rewrite lookup_omap, lookup_insert_eq.
Qed.

(** ** The end of a call *)

Lemma elem_of_refs i fs : i ∈ refs fs ↔
  (∃ p n, tree fs !! p = Some n ∧ node_inode n = i) ∨ (∃ id r f, descriptions (opens fs) !! id = Some (r, f) ∧ f_inode f = i) ∨
  (∃ id r s, descriptions (dirs fs) !! id = Some (r, s) ∧ stream_inodes (streams fs) !! s = Some i) ∨ cwd fs = Some i.
Proof.
  unfold refs. rewrite !elem_of_union, !elem_of_list_to_set, !list_elem_of_fmap, list_elem_of_omap. unfold stream_inodes.
  split.
  - intros [[[([p n] & -> & H%elem_of_map_to_list)|([id [r f]] & -> & H%elem_of_map_to_list)]|([id [r s]] & H%elem_of_map_to_list & Hs)]|H].
    + left. by exists p, n.
    + right; left. by exists id, r, f.
    + right; right; left. exists id, r, s. split; [done|]. by rewrite lookup_omap.
    + right; right; right. destruct (cwd fs); set_solver.
  - intros [(p & n & H & <-)|[(id & r & f & H & <-)|[(id & r & s & H & Hs)|H]]].
    + left; left; left. exists (p, n). split; [done|]. by apply elem_of_map_to_list.
    + left; left; right. exists (id, (r, f)). split; [done|]. by apply elem_of_map_to_list.
    + left; right. exists (id, (r, s)). split; [by apply elem_of_map_to_list|]. rewrite lookup_omap in Hs. done.
    + right. rewrite H. set_solver.
Qed.

Lemma drop_files v m : map_fold (λ _ n v, drop_file (data n) v) v m = mk_volume (capacity v) (used v - all_pages m) (files v - Z.of_nat (size m)).
Proof.
  revert m. apply map_ind.
  - destruct v. unfold all_pages. rewrite !map_fold_empty, map_size_empty. cbn. f_equal; lia.
  - intros i n m Hi IH. rewrite map_fold_insert_L, IH; [|intros; unfold drop_file; cbn; f_equal; lia|done].
    rewrite all_pages_insert, map_size_insert_None by done. unfold drop_file. cbn. f_equal; lia.
Qed.

Lemma all_pages_split (P : Z → Prop) `{!∀ i, Decision (P i)} m :
  all_pages m = all_pages (filter (λ '(i, _), P i) m) + all_pages (filter (λ '(i, _), ¬ P i) m) ∧
  size m = (size (filter (λ '(i, _), P i) m) + size (filter (λ '(i, _), ¬ P i) m))%nat.
Proof.
  induction m as [|i n m Hi [IH1 IH2]] using map_ind; [done|]. rewrite all_pages_insert, map_size_insert_None by done.
  assert (∀ (Q : Z → Prop) `{!∀ i, Decision (Q i)}, filter (λ '(i, _), Q i) m !! i = None) as Hf by (intros; by rewrite map_lookup_filter, Hi).
  destruct (decide (P i)).
  - rewrite map_filter_insert_True, map_filter_insert_False, (delete_id m) by (done || tauto). rewrite all_pages_insert, map_size_insert_None by (apply (Hf P)). lia.
  - rewrite map_filter_insert_False, map_filter_insert_True, (delete_id m) by (done || tauto). rewrite all_pages_insert, map_size_insert_None by (apply (Hf (λ i, ¬ P i) _)). lia.
Qed.

Lemma kinds_filter (r : gset Z) m i : i ∈ r → kinds (filter (λ '(i, _), i ∈ r) m) !! i = kinds m !! i.
Proof. intros Hi. rewrite !kinds_lookup, map_lookup_filter. destruct (m !! i) as [n|]; [|done]. cbn. by rewrite option_guard_True. Qed.

Lemma core_live fs i : core fs → i ∈ refs fs → is_Some (inodes fs !! i).
Proof.
  intros [[H1 H2 H3 H4 H5 H6 H7] _] Hi. enough (is_Some (kinds (inodes fs) !! i)) as H by (by rewrite kinds_lookup, fmap_is_Some in H).
  apply elem_of_refs in Hi as [(p & n & H & <-)|[(id & r & f & H & <-)|[(id & r & s & H & Hs)|H]]].
  - by rewrite (H1 p n H).
  - by rewrite (fo_inode _ _ _ (H4 id r f H)).
  - destruct (H6 id r s H) as (j & Hj & Hk). simplify_eq. by rewrite Hk.
  - by rewrite (H7 i H).
Qed.

Lemma collect_consistent fs : core fs → consistent (collect fs).
Proof.
  intros Hc. pose proof (core_live fs) as Hlive. split.
  - destruct Hc as [[H1 H2 H3 H4 H5 H6 H7] [Hn Hd Hu Hfi Hro Hs]]. split.
    + assert (∀ i k, i ∈ refs fs → kinds (inodes fs) !! i = Some k → kinds (inodes (collect fs)) !! i = Some k) as Hk.
      { intros i k Hi. cbn. by rewrite kinds_filter. }
      split; try done; cbn [collect with_volume with_inodes tree opens dirs cwd streams].
      * intros p n Hp. apply Hk; [|by eauto]. apply elem_of_refs. left. by exists p, n.
      * intros id r f Hf. destruct (H4 id r f Hf). split; try done. apply Hk; [|done]. apply elem_of_refs. right; left. by exists id, r, f.
      * intros id r s Hst. destruct (H6 id r s Hst) as (i & Hi & Hk'). exists i. split; [done|]. apply Hk; [|done]. apply elem_of_refs. right; right; left. by exists id, r, s.
      * intros i Hi. apply Hk; [|by eauto]. apply elem_of_refs. by right; right; right.
    + destruct (all_pages_split (λ i, i ∈ refs fs) (inodes fs)) as [Ep Es]. split; cbn [collect with_volume with_inodes inodes next_inode streams next_stream volume]; rewrite ?drop_files; cbn; try done; try lia.
      * intros i [n Hi]. apply map_lookup_filter_Some in Hi as [Hi _]. apply Hn. by eexists.
      * intros i n [Hi _]%map_lookup_filter_Some. by eapply Hd.
      * assert (0 ≤ all_pages (filter (λ '(i, _), i ∉ refs fs) (inodes fs))); [|lia].
        generalize (filter (λ '(i, _), i ∉ refs fs) (inodes fs)). apply map_ind; [done|]. intros i n m Hi IH. rewrite all_pages_insert by done. unfold n_pages. lia.
  - intros i. change (refs (collect fs)) with (refs fs). cbn. split.
    + intros [n [_ Hi]%map_lookup_filter_Some]. done.
    + intros Hi. destruct (Hlive i Hc Hi) as [n Hn]. exists n. by apply map_lookup_filter_Some.
Qed.
