(* ===== verification/FsInvCalls.v ===== *)
(** * Every call keeps a file system consistent

    The calls of FsCalls.v and FsFds.v against the invariant of FsInv.v: none panics, and each
    leaves its tables right. *)

From S2P Require Import Prelude FsLocks FsPerm FsData FsDataProps FsTree FsCalls FsFds FsInv.

(** A call does not panic; what it yields, if it succeeds, has [P]; the file system it leaves is right *)
Definition calm {A} (m : Res A) : Prop := m ≠ Panics.
Definition yields {A} (P : A → Prop) (m : Res A) : Prop := match m with Ok a => P a | Panics => False | _ => True end.
Abbreviation good := (yields (λ x, core (snd x))).
(** The same of a call that may change the file system when it fails *)
Definition leaves_good {A} (m : Res A * Vfs) : Prop := calm (fst m) ∧ core (snd m).

Lemma calm_bind {A B} (m : Res B) (k : B → Res A) : calm m → (∀ b, calm (k b)) → calm (m ≫= k).
Proof. unfold calm. destruct m; cbn; done. Qed.
Lemma yields_bind {A B} (P : A → Prop) (m : Res B) (k : B → Res A) : calm m → (∀ b, m = Ok b → yields P (k b)) → yields P (m ≫= k).
Proof. unfold calm. destruct m; cbn; try done. intros _ H. by apply H. Qed.
Lemma settle_good {A} (m : Res (A * Vfs)) fs : core fs → good m → leaves_good (settle_call m fs).
Proof. destruct m as [| |[a fs']|]; done. Qed.

Lemma calm_sum {A} (m : errno + A) : calm (of_sum m).
Proof. by destruct m. Qed.
Lemma calm_option {A} (m : option A) : calm (of_option m).
Proof. by destruct m. Qed.
Lemma calm_fail b e : calm (fail_if b e).
Proof. by destruct b. Qed.
Lemma calm_decline b : calm (decline_if b).
Proof. by destruct b. Qed.
Lemma calm_ok {A} (a : A) : calm (Ok a).
Proof. done. Qed.
Lemma calm_err {A} e : calm (Err (A := A) e).
Proof. done. Qed.
Lemma calm_declined {A} : calm (Declined (A := A)).
Proof. done. Qed.
#[export] Hint Resolve calm_sum calm_option calm_fail calm_decline calm_ok calm_err calm_declined : snare.

(** Takes a call apart down to its answers *)
Ltac calms := repeat (cbv zeta; match goal with
  | |- calm (_ ≫= _) => apply calm_bind; [|intros ?]
  | |- calm (match ?x with _ => _ end) => destruct x
  | |- calm _ => solve [auto with snare]
  end).
Ltac calls := repeat (cbv zeta; match goal with
  | |- yields _ (_ ≫= _) => apply yields_bind; [solve [auto with snare | calms]|]; intros ?x ?; try match goal with H : _ = Ok ?x |- yields _ (match ?x with _ => _ end) => destruct x end
  | |- yields _ (match ?x with _ => _ end) => destruct x eqn:?
  | |- yields _ (Err _) => exact I
  | |- yields _ Declined => exact I
  | |- yields _ (Ok _) => cbn [yields fst snd]
  end).
(** What a call leaves: marks upon marks *)
Ltac marked := repeat match goal with
  | |- core (match ?x with _ => _ end) => destruct x
  | |- core (upd_inode _ _ _) => apply core_marks; [auto with snare|]
  end; try done.

Lemma calm_absolute env raw fs : calm (absolute env raw fs).
Proof. unfold absolute. calms. Qed.
#[export] Hint Resolve calm_absolute : snare.
Lemma calm_named env raw fs : calm (named_path env raw fs).
Proof. unfold named_path. calms. Qed.
Lemma calm_globs env b p : calm (globs env b p).
Proof. unfold globs. calms. Qed.
Lemma calm_resolve fd raw fs : calm (resolve_at fd raw fs).
Proof. unfold resolve_at. calms. Qed.
#[export] Hint Resolve calm_named calm_globs calm_resolve : snare.
Lemma calm_lookup env fd raw follow fs : calm (lookup_node env fd raw follow fs).
Proof. unfold lookup_node. calms. Qed.
Lemma calm_rename env t from to n m fs : calm (may_rename env t from to n m fs).
Proof. unfold may_rename. calms. Qed.
#[export] Hint Resolve calm_lookup calm_rename : snare.

(** ** Calls on paths *)

Section calls.
Context (env : Env) (fs : Vfs) (Hc : core fs).

(** The rest of a call that makes a node *)
Lemma make_yields {A} (P : A → Prop) p node k o now (rest : Z → Vfs → Res A) : (∀ i, node_inode (node i) = i) → (∀ i, node_kind (node i) = k) →
  (∀ fs' i, i = next_inode fs → core fs' → kinds (inodes fs') !! i = Some k → tree fs' = <[p := node i]> (tree fs) →
    inodes fs' = <[i := inode_new [] k now o]> (inodes fs) → yields P (rest i fs')) →
  yields P ('(i, fs') ← make_node p node k o now fs; rest i fs').
Proof. intros Hi Hk Hr. destruct (core_make p node k o now fs Hc Hi Hk) as (fs' & -> & Hc' & Hki & Ht & Hin). by apply Hr. Qed.

Lemma mkdir_good raw m : good (mkdir env raw m fs).
Proof. unfold mkdir. calls. apply make_yields; [done..|]. intros. cbn [yields snd]. marked. Qed.

Lemma symlink_good target raw : good (symlink env target raw fs).
Proof. unfold symlink. calls. apply (make_yields _ _ (λ i, VSymlink i _)); [done..|]. intros. cbn [yields snd]. marked. Qed.

(** Another name for a file or a symlink *)
Lemma named_again target n fs' : core fs' → tree fs' = tree fs → (∃ p, tree fs !! p = Some n) → is_dir_node n = false →
  core (with_tree (<[target := n]> (tree fs)) fs').
Proof.
  intros Hc' <- [p Hp] Hd. apply core_insert; [done|by eapply (ro_names _ _ _ (proj1 Hc'))|]. by intros q i ->.
Qed.

Lemma link_good from to : good (link env from to fs).
Proof. unfold link. calls; (apply named_again; [marked|done|by eexists|done]). Qed.

Lemma rmdir_good raw : good (rmdir env raw fs).
Proof. unfold rmdir, unlinked. calls. marked; by apply core_delete. Qed.

Lemma unlink_good raw : good (unlink env raw fs).
Proof. unfold unlink. calls. marked; by apply core_delete. Qed.

Lemma moved_good from to d fs' : core fs' → tree fs' = tree fs → core (with_tree (move_tree from to d (delete to (tree fs))) fs').
Proof. intros Hc' <-. apply core_relocate; [done|apply delete_subseteq]. Qed.

Lemma apply_rename_core from to source par : core (apply_rename env from to source par fs).
Proof. unfold apply_rename, replaced, unlinked. marked; (apply moved_good; [marked|by repeat case_match]). Qed.

Lemma rename_good from to : good (rename env from to fs).
Proof. unfold rename. calls; try done; apply apply_rename_core. Qed.

Lemma kind_of_open fd f : of_get fd (opens fs) = Some f → file_ok (kinds (inodes fs)) (stream_inodes (streams fs)) f.
Proof. apply of_get_all. apply Hc. Qed.

Lemma of_option_ok {A} (m : option A) a : of_option m = Ok a → m = Some a.
Proof. destruct m; cbn; congruence. Qed.
Lemma fail_ok b e x : fail_if b e = Ok x → b = false.
Proof. by destruct b. Qed.

Lemma open_dir_kind fd f : of_get fd (opens fs) = Some f → f_is_dir f = true → kinds (inodes fs) !! f_inode f = Some Directory.
Proof. intros H Hd. rewrite (fo_inode _ _ _ (kind_of_open fd f H)), Hd. done. Qed.

(** The directory a descriptor or the working directory keeps *)
Lemma retained_kind fd raw i : retained_directory env fd raw fs = Some (inr i) → kinds (inodes fs) !! i = Some Directory.
Proof.
  unfold retained_directory. destruct raw as [bytes|]; [|done]. cbn. case_match; [done|]. destruct (fd =? AT_FDCWD).
  - destruct (cwd fs) as [j|] eqn:E; [|done]. cbn. destruct (search _ _); [done|]. intros [= <-]. by apply (ro_cwd _ _ _ (proj1 Hc)).
  - destruct (of_get fd (opens fs)) as [f|] eqn:E; [|done]. cbn. destruct (f_is_dir f) eqn:Ed; [|done]. cbn. destruct (search _ _); [done|]. intros [= <-].
    by eapply open_dir_kind.
Qed.

Lemma chdir_good raw : good (chdir env raw fs).
Proof.
  unfold chdir. calls; try done. apply core_cwd; [done|]. intros ? [= <-].
  match goal with H : tree fs !! _ = Some (VDir _) |- _ => exact (ro_names _ _ _ (proj1 Hc) _ _ H) end.
Qed.

Lemma fchdir_good fd : good (fchdir env fd fs).
Proof.
  unfold fchdir. calls. apply core_cwd; [done|]. intros ? [= <-].
  eapply open_dir_kind; [by apply of_option_ok|]. apply negb_false_iff. by eapply fail_ok.
Qed.

Lemma set_times_good fd raw s nf u : good (set_times_call env fd raw s nf u fs).
Proof. unfold set_times_call. calls. marked. Qed.
Lemma chmod_good fd raw m nf u : good (chmod_call env fd raw m nf u fs).
Proof. unfold chmod_call. calls. marked. Qed.
Lemma chown_good fd raw u g nf e k : good (chown_call env fd raw u g nf e k fs).
Proof. unfold chown_call. calls. marked. Qed.

End calls.

(** ** Every call on a descriptor keeps a file system consistent

    [open] and the calls of FsFds.v against the invariant of FsInv.v. *)

Lemma drop_open_core f fs : core fs → core (drop_open f fs).
Proof. intros H. destruct f; cbn [drop_open]; marked. Qed.
Lemma release_core i fs : core fs → core (release_of i fs).
Proof. intros H. destruct i; cbn [release_of]; marked. Qed.
#[export] Hint Resolve drop_open_core release_core : snare.

Section fds.
Context (env : Env) (ino_of : path → Z) (memory : Z → bool) (fs : Vfs) (Hc : core fs).

(** *** Opening *)

Lemma insert_open_core fd i (w d : bool) flags es : kinds (inodes fs) !! i = Some (if d then Directory else File) → (w = true → d = false) →
  core (insert_open env fd i w d flags es fs).
Proof.
  intros Hk Hw. unfold insert_open. apply drop_open_core, core_description.
  assert (∀ fs' s n, core fs' → kinds (inodes fs') !! i = Some (if d then Directory else File) →
    match s with Some s => d = true ∧ stream_inodes (streams fs') !! s = Some i | None => d = false end →
    core (with_opens (of_insert fd (mk_open i 0 w (o_append flags) (status_flags flags) d s n) (opens fs')) fs')) as Hins.
  { intros fs' s n Hc' Hk' Hs. apply core_opens; [done|apply of_insert_tables, Hc'|]. apply of_insert_all; [apply Hc'|]. by split. }
  destruct d; [|by apply Hins]. destruct (core_new_stream es i fs Hc) as [Hc' Hs]. by apply Hins.
Qed.

Lemma open_directory_good i flags newfd : kinds (inodes fs) !! i = Some Directory → good (open_directory_inode env ino_of i flags newfd fs).
Proof. intros Hk. unfold open_directory_inode. calls; by apply insert_open_core. Qed.

Definition opening_ok (o : Opening) : Prop :=
  match o with Existing i d w => kinds (inodes fs) !! i = Some (if d then Directory else File) ∧ (w = true → d = false) | Creates _ _ => True end.

Lemma existing_ok i k w : kinds (inodes fs) !! i = Some k → k ≠ Symlink →
  opening_ok (Existing i (bool_decide (kind_at i fs = Directory)) (negb (bool_decide (kind_at i fs = Directory)) && w)).
Proof.
  rewrite kinds_lookup. unfold kind_at, opening_ok. intros Hk Hs. rewrite kinds_lookup. destruct (inodes fs !! i) as [n|]; [|done].
  cbn in *. injection Hk as ->. by destruct k, w.
Qed.

Lemma open_plan_ok raw flags m : yields (λ x, opening_ok (snd x)) (open_plan env raw flags m fs).
Proof.
  unfold open_plan. calls; try done;
  match goal with H : tree fs !! _ = Some ?n |- _ => apply (existing_ok _ _ _ (ro_names _ _ _ (proj1 Hc) _ _ H)) end; done.
Qed.

(** *** The bytes of a file *)

Lemma clear_ok d v : sparse_ok d → used v ≤ capacity v → let '(d', v') := clear d v in
  sparse_ok d' ∧ used v' - n_pages d' = used v - n_pages d ∧ capacity v' = capacity v ∧ files v' = files v ∧ used v' ≤ capacity v'.
Proof.
  intros Hd Hv. unfold clear. pose proof (resize_ok 0 d v Hd ltac:(done)) as H. destruct (resize 0 d v) as [d' v']. destruct H as (? & _ & _ & ? & ? & ? & ?).
  split_and!; try done. lia.
Qed.

Lemma file_inode i : kinds (inodes fs) !! i = Some File → ∃ n, inodes fs !! i = Some n ∧ ikind n = File ∧ sparse_ok (data n).
Proof.
  rewrite kinds_lookup. destruct (inodes fs !! i) as [n|] eqn:E; [|done]. cbn. intros [= H]. exists n. split_and!; try done. by apply (sk_data _ (proj2 Hc) i).
Qed.

Lemma truncate_open_core i b : kinds (inodes fs) !! i = Some File →
  core (truncate_open env i b fs) ∧ kinds (inodes (truncate_open env i b fs)) = kinds (inodes fs).
Proof.
  intros Hk. destruct (file_inode i Hk) as (n & Hn & Hf & Hd). unfold truncate_open. rewrite Hn.
  pose proof (clear_ok (data n) (volume fs) Hd (sk_room _ (proj2 Hc))) as H. destruct (clear (data n) (volume fs)) as [d v]. destruct H as (H1 & H2 & H3 & H4 & H5).
  assert (∀ m, ikind m = ikind n → data m = d → core (with_volume v (upd_inode i (λ _, m) fs)) ∧ kinds (inodes (with_volume v (upd_inode i (λ _, m) fs))) = kinds (inodes fs)) as Hm.
  { intros m Em Ed. split; [by eapply core_data|]. cbn. apply kinds_alter. intros n' Hn'. congruence. }
  cbv zeta. destruct b; [by apply Hm|]. destruct (inode_wrote_same (os env) (caller env) true (touch (modify (now env)) (put_data d n))). by apply Hm.
Qed.

Lemma write_inode_ok i start bytes : kinds (inodes fs) !! i = Some File → 0 ≤ start →
  yields (λ '(w, fs'), core fs' ∧ 0 ≤ w ∧ kinds (inodes fs') = kinds (inodes fs) ∧ streams fs' = streams fs ∧ opens fs' = opens fs) (write_inode env memory i start bytes fs).
Proof.
  intros Hk Hs. destruct (file_inode i Hk) as (n & Hn & Hf & Hd). unfold write_inode. rewrite Hn. cbn.
  destruct (sparse_write_ok memory start bytes (data n) (volume fs) Hd Hs) as (r & d & v & -> & Hd' & Hu & Hcap & Hfi & Hle & Hr).
  destruct r as [e|w]; [done|]. cbn. destruct Hr as [Hw _].
  destruct (inode_wrote_same (os env) (caller env) false (touch (modify (now env)) (put_data d n))) as [Ek Ed]. split_and!; try done; [|lia|].
  - eapply core_data; try done. apply Hle, Hc.
  - apply kinds_alter. intros n' Hn'. rewrite Hn in Hn'. injection Hn' as <-. done.
Qed.

End fds.

Section calls.
Context (env : Env) (ino_of : path → Z) (memory : Z → bool) (fs : Vfs) (Hc : core fs).

Lemma open_with_good p o flags newfd : opening_ok fs o → leaves_good (open_with env ino_of p o flags newfd fs).
Proof.
  intros Ho. unfold open_with. destruct o as [i d w|o w], newfd as [e|fd]; cbn in Ho.
  - done.
  - destruct Ho as [Hk Hw]. split; [done|]. cbn [snd]. destruct (negb d && o_trunc flags) eqn:E; [|by apply insert_open_core].
    apply andb_true_iff in E as [->%negb_true_iff _]. destruct (truncate_open_core env fs Hc i false Hk) as [Hc' Hk']. apply insert_open_core; [done| |done]. by rewrite Hk'.
  - split; [done|]. apply core_next; [done|lia].
  - apply settle_good; [done|]. apply (make_yields fs Hc _ p VFile File); [done..|]. intros fs' i _ Hc' Hk _ _. cbn [yields snd].
    assert (∀ par : errno + Z, core (match par with inr par => upd_inode par (touch (modify (now env))) fs' | inl _ => fs' end) ∧
      kinds (inodes (match par with inr par => upd_inode par (touch (modify (now env))) fs' | inl _ => fs' end)) !! i = Some File) as Hpar.
    { intros [e|par]; [done|]. split; [marked|]. cbn. by rewrite kinds_alter. }
    destruct (Hpar (parent (tree fs') p)) as [Hc1 Hk1]. destruct (o_trunc flags); [|by apply insert_open_core].
    destruct (truncate_open_core env _ Hc1 i true Hk1) as [Hc2 Hk2]. apply insert_open_core; [done|by rewrite Hk2|done].
Qed.

Lemma open_good raw flags m newfd : leaves_good (open env ino_of raw flags m newfd fs).
Proof.
  unfold open. destruct (retained_directory env AT_FDCWD raw fs) as [[e|i]|] eqn:E.
  - done.
  - apply settle_good; [done|]. apply open_directory_good; [done|]. by eapply retained_kind.
  - pose proof (open_plan_ok env fs Hc raw flags m) as Hp. destruct (open_plan env raw flags m fs) as [|e|[p o]|]; [done..| |done]. by apply open_with_good.
Qed.

Lemma openat_good fd raw flags m newfd : leaves_good (openat env ino_of fd raw flags m newfd fs).
Proof.
  unfold openat. destruct (retained_directory env fd raw fs) as [[e|i]|] eqn:E.
  - done.
  - apply settle_good; [done|]. apply open_directory_good; [done|]. by eapply retained_kind.
  - pose proof (calm_resolve fd raw fs) as Hp. destruct (resolve_at fd raw fs) as [|e|bytes|]; [done..| |done]. by apply open_good.
Qed.

(** *** The calls relative to a descriptor *)

Lemma mkdirat_good fd raw m : good (mkdirat env fd raw m fs).
Proof. unfold mkdirat. calls. by apply mkdir_good. Qed.
Lemma unlinkat_good fd raw d u : good (unlinkat env fd raw d u fs).
Proof. unfold unlinkat. calls; [by apply rmdir_good|by apply unlink_good]. Qed.
Lemma renameat_good a b c d : good (renameat env a b c d fs).
Proof. unfold renameat. calls. by apply rename_good. Qed.
Lemma symlinkat_good t fd raw : good (symlinkat env t fd raw fs).
Proof. unfold symlinkat. calls. by apply symlink_good. Qed.
Lemma linkat_good a b c d f u : good (linkat env a b c d f u fs).
Proof. unfold linkat. calls. by apply link_good. Qed.

(** *** Reading and writing *)

(** The description of [fd] changed, in a file system whose inodes are of the same kinds *)
Lemma update_core fd g fs' : core fs' → (∀ f, of_get fd (opens fs') = Some f →
  file_ok (kinds (inodes fs')) (stream_inodes (streams fs')) f → file_ok (kinds (inodes fs')) (stream_inodes (streams fs')) (g f)) →
  core (with_opens (of_update fd g (opens fs')) fs').
Proof.
  intros Hc' Hg. apply core_opens; [done|apply of_update_ok, Hc'|]. apply of_update_all; [apply Hc'|]. intros f Hf. apply Hg; [done|]. by eapply kind_of_open.
Qed.
Lemma cursor_core fd c fs' : core fs' → 0 ≤ c → core (with_opens (of_update fd (put_cursor c) (opens fs')) fs').
Proof. intros Hc' H. apply update_core; [done|]. intros f _ []. by split. Qed.

Lemma read_access_core i a n fs' : core fs' → core (read_access env i a n fs').
Proof. intros H. unfold read_access. marked. Qed.

Lemma read_good fd len : good (read env fd len fs).
Proof.
  unfold read. calls. apply read_access_core, cursor_core; [done|].
  assert (0 ≤ f_cursor x); [|lia]. eapply fo_cursor, kind_of_open; [done|]. by apply of_option_ok.
Qed.
Lemma pread_good fd len offset : good (pread env fd len offset fs).
Proof. unfold pread. calls. by apply read_access_core. Qed.

(** A file open for writing *)
Lemma writable_file fd f : of_get fd (opens fs) = Some f → f_writable f = true → kinds (inodes fs) !! f_inode f = Some File ∧ 0 ≤ f_cursor f.
Proof. intros H Hw. destruct (kind_of_open fs Hc fd f H) as [Hi Hcu Hwr _]. by rewrite (Hwr Hw) in Hi. Qed.

Lemma write_good fd bytes : leaves_good (write env memory fd bytes fs).
Proof.
  unfold write. destruct (of_get fd (opens fs)) as [f|] eqn:E; [|done]. destruct (f_writable f) eqn:Ew; [|done]. cbn [negb]. case_bool_decide; [done|].
  destruct (writable_file fd f E Ew) as [Hk Hcu]. destruct (file_inode fs Hc _ Hk) as (n & Hn & _ & Hd). rewrite Hn.
  set (start := if f_append f then flen (data n) else f_cursor f). assert (0 ≤ start) as Hs by (unfold start; destruct (f_append f); [apply Hd|done]).
  cbv zeta. set (fs1 := with_opens _ fs). assert (core fs1) as Hc1 by (by apply cursor_core). apply settle_good; [done|].
  pose proof (write_inode_ok env memory fs1 Hc1 (f_inode f) start bytes Hk Hs) as Hw. destruct (write_inode _ _ _ _ _ fs1) as [| |[w fs2]|]; try done.
  destruct Hw as (Hc2 & Hw & _). cbn. apply cursor_core; [done|lia].
Qed.

Lemma write_inode_good i start bytes : kinds (inodes fs) !! i = Some File → 0 ≤ start → good (write_inode env memory i start bytes fs).
Proof.
  intros Hk Hs. pose proof (write_inode_ok env memory fs Hc i start bytes Hk Hs) as Hw. destruct (write_inode _ _ _ _ _ fs) as [| |[w fs2]|]; try done. apply Hw.
Qed.

Lemma pwrite_good fd bytes offset : good (pwrite env memory fd bytes offset fs).
Proof.
  unfold pwrite. calls; try done. assert (of_get fd (opens fs) = Some x) as E by (by apply of_option_ok).
  destruct (writable_file fd x E) as [Hk Hcu]; [apply negb_false_iff; by eapply fail_ok|].
  assert ((offset <? 0) = false) as Ho by (by eapply fail_ok). apply write_inode_good; [done|].
  destruct (file_inode fs Hc _ Hk) as (n & Hn & _ & Hd). match goal with H : of_option (inodes fs !! _) = Ok ?y |- _ => apply of_option_ok in H; rewrite Hn in H; injection H as <- end. pose proof (so_len _ Hd). case_match; lia.
Qed.

Lemma ftruncate_good fd len : good (ftruncate env fd len fs).
Proof.
  unfold ftruncate. calls. assert (of_get fd (opens fs) = Some x) as E by (by apply of_option_ok).
  destruct (writable_file fd x E) as [Hk Hcu]; [apply negb_false_iff; by eapply fail_ok|].
  assert ((len <? 0) = false) as Ho by (by eapply fail_ok). destruct (file_inode fs Hc _ Hk) as (n & Hn & Hf & Hd). match goal with H : of_option (inodes fs !! _) = Ok ?y |- _ => apply of_option_ok in H; rewrite Hn in H; injection H as <- end.
  pose proof (resize_ok len (data n) (volume fs) Hd ltac:(lia)) as Hr. rewrite Heqp in Hr. destruct Hr as (Hd' & _ & _ & Hu & Hp & Hcap & Hfi).
  destruct (inode_wrote_same (os env) (caller env) true (touch (modify (now env)) (put_data s n))). eapply core_data; try done. pose proof (sk_room _ (proj2 Hc)). lia.
Qed.

Lemma lseek_good fd offset w : good (lseek fd offset w fs).
Proof.
  unfold lseek. calls.
  - eapply core_stream; [done|by apply of_option_ok|done].
  - apply cursor_core; [done|]. match goal with H : fail_if (?t <? 0) _ = Ok _ |- _ => apply fail_ok in H end. lia.
Qed.

(** *** Descriptors that go *)

Lemma opens_dirs_core o d : opens_ok o → of_all (file_ok (kinds (inodes fs)) (stream_inodes (streams fs))) o →
  opens_ok d → of_all (stream_ok (kinds (inodes fs)) (stream_inodes (streams fs))) d → core (with_dirs d (with_opens o fs)).
Proof. intros. apply core_dirs; [by apply core_opens|done|done]. Qed.

Lemma fd_replaced_good fd : good (fd_replaced fd fs).
Proof.
  unfold fd_replaced. destruct Hc as [[H1 H2 H3 H4 H5 H6 H7] Hs].
  pose proof (of_remove_all _ fd _ H4) as Ho. pose proof (of_remove_tables fd _ H3) as Ho'.
  pose proof (of_remove_all _ fd _ H6) as Hd. pose proof (of_remove_tables fd _ H5) as Hd'.
  destruct (of_remove fd (opens fs)) as [file o], (of_remove fd (dirs fs)) as [stream d]. calls.
  apply release_core, drop_open_core. by apply opens_dirs_core.
Qed.
Lemma close_good fd ret : good (close fd ret fs).
Proof. unfold close. pose proof (fd_replaced_good fd) as H. destruct (fd_replaced fd fs) as [| |[]|]; done. Qed.

Lemma dup_onto_core oldfd newfd : core (dup_onto oldfd newfd fs).
Proof.
  unfold dup_onto. destruct Hc as [[H1 H2 H3 H4 H5 H6 H7] Hs]. destruct (of_contains oldfd (opens fs)).
  - pose proof (of_alias_all _ oldfd newfd _ H4) as Ho. pose proof (of_alias_tables oldfd newfd _ H3) as Ho'.
    destruct (of_alias oldfd newfd (opens fs)) as [r o]. apply release_core, drop_open_core. apply opens_dirs_core; auto with snare.
  - pose proof (of_remove_all _ newfd _ H4) as Ho. pose proof (of_remove_tables newfd _ H3) as Ho'.
    destruct (of_remove newfd (opens fs)) as [r o]. apply release_core, drop_open_core. apply opens_dirs_core; auto with snare.
Qed.
Lemma dup_good a b : good (dup a b fs).
Proof. unfold dup. calls. apply dup_onto_core. Qed.
Lemma dup_to_good a b r : good (dup_to a b r fs).
Proof. unfold dup_to. calls. apply dup_onto_core. Qed.
Lemma fcntl_dup_good fd r : good (fcntl_dup fd r fs).
Proof.
  unfold fcntl_dup. calls. pose proof Hc as [[H1 H2 H3 H4 H5 H6 H7] Hs]. destruct (of_contains fd (opens fs)).
  - pose proof (of_alias_all _ fd x0 _ H4) as Ho. pose proof (of_alias_tables fd x0 _ H3) as Ho'.
    destruct (of_alias fd x0 (opens fs)) as [rel o]. by apply drop_open_core, core_opens.
  - apply core_dirs; auto with snare.
Qed.
Lemma fcntl_setfl_good fd a n : good (fcntl_setfl fd a n fs).
Proof. unfold fcntl_setfl. calls. apply update_core; [done|]. intros f _ []. by split. Qed.

Lemma lock_call_good fd call : good (lock_call fd call fs).
Proof. unfold lock_call. calls. marked. Qed.
Lemma flock_good fd op : good (flock_fd env fd op fs).
Proof. apply lock_call_good. Qed.
Lemma fcntl_lock_good fd pid cmd arg : good (fcntl_lock env fd pid cmd arg fs).
Proof. apply lock_call_good. Qed.

(** *** Directory streams *)

Lemma fdopendir_good fd : good (fdopendir fd fs).
Proof.
  unfold fdopendir. calls. pose proof Hc as [[H1 H2 H3 H4 H5 H6 H7] Hs]. apply core_dirs; [done|auto with snare|]. apply of_insert_all; [done|].
  destruct (kind_of_open fs Hc fd x) as [Hi _ _ Hd]; [by apply of_option_ok|]. rewrite Heqo in Hd. destruct Hd as [Ed Hd]. exists (f_inode x). by rewrite Ed in Hi.
Qed.
Lemma readdir_good fd : good (readdir env fd fs).
Proof. unfold readdir. calls; try done. case_match; marked; (eapply core_stream; [done|by apply of_option_ok|done]). Qed.
Lemma closedir_good fd ret : good (closedir fd ret fs).
Proof. unfold closedir. calls. apply close_good. Qed.
End calls.

Lemma getdents_good env fd buf len fs : core fs → leaves_good (getdents64 env fd buf len fs).
Proof.
  intros Hc. unfold getdents64. destruct (of_get fd (opens fs)) as [f|]; [|done]. destruct (f_directory f) as [s|]; [|done].
  destruct (streams fs !! s) as [st|] eqn:Es; [|done]. cbv zeta. assert (core (list_access env st fs) ∧ streams (list_access env st fs) = streams fs) as [Hc' Hst].
  { unfold list_access. destruct (s_inode st); [|done]. split; [marked|done]. }
  destruct (pack_directory _ _ _ _) as [[e|out] c]; split; try done. cbn [snd]. eapply core_stream; [done|by rewrite Hst|done].
Qed.

Lemma opendir_good env ino_of raw newfd fs : core fs → leaves_good (opendir env ino_of raw newfd fs).
Proof.
  intros Hc. unfold opendir. pose proof (open_good env ino_of fs Hc raw (mk_flags RdOnly false false false false false false true false false) 0 newfd) as [Hm Hc'].
  destruct (open _ _ _ _ _ _ fs) as [[| |fd|] fs']; try done. apply settle_good; [done|]. by apply fdopendir_good.
Qed.
