(* ===== verification/FsProps.v ===== *)
(** * A simulated file system through any run

    From what a builder was told and through any calls, by any callers at any times: no call
    panics, and the tables stay as FsInv.v says. *)

From S2P Require Import Prelude Bytes FsLocks FsPerm FsData FsDataProps FsTree FsCalls FsFds FsSys FsInv FsInvCalls.

(** ** Runs *)

Section run.
Context (ino_of : path → Z) (memory : Z → bool).

Lemma settled_good {A} (m : Res (A * Vfs)) fs : core fs → good m → leaves_good (let '(r, fs) := settle_call m fs in (forget_value r, fs)).
Proof. intros Hc Hm. destruct (settle_good m fs Hc Hm) as [H1 H2]. destruct (settle_call m fs) as [[] ?]; done. Qed.
Lemma forgotten_good {A} (m : Res A * Vfs) : leaves_good m → leaves_good (forget_value (fst m), snd m).
Proof. destruct m as [[] ?]; intros [H1 H2]; done. Qed.

Hint Resolve mkdirat_good symlinkat_good linkat_good unlinkat_good renameat_good chdir_good fchdir_good set_times_good chmod_good chown_good
  openat_good read_good pread_good write_good pwrite_good ftruncate_good lseek_good close_good fd_replaced_good dup_good dup_to_good
  fcntl_dup_good fcntl_setfl_good flock_good fcntl_lock_good opendir_good fdopendir_good readdir_good closedir_good getdents_good : core.
Lemma handle_good env c fs : core fs → leaves_good (handle ino_of memory env c fs).
Proof.
  intros Hc. destruct c; cbn [handle]; try (apply settled_good; [done|auto]); try (apply forgotten_good; auto).
  split; [done|]. by apply core_cwd.
Qed.

Lemma step_consistent env c fs : core fs → fst (step ino_of memory env c fs) ≠ Panics ∧ consistent (snd (step ino_of memory env c fs)).
Proof.
  intros Hc. unfold step. destruct (handle_good env c fs Hc) as [Hm Hc']. destruct (handle ino_of memory env c fs) as [r fs']. split; [done|]. by apply collect_consistent.
Qed.

Lemma run_consistent cs fs : consistent fs → ∃ fs', run ino_of memory cs fs = Some fs' ∧ consistent fs'.
Proof.
  revert fs. induction cs as [|[env c] cs IH]; intros fs Hc; cbn [run]; [by eexists|]. destruct (step_consistent env c fs (proj1 Hc)) as [Hr Hc'].
  destruct (step ino_of memory env c fs) as [[] fs']; [by apply IH..|done].
Qed.
End run.

(** ** Building *)

Record builder_ok (b : FsBuilder) : Prop := {
  bk_next : 0 ≤ b_next_inode b;
  bk_nodes p n : b_tree b !! p = Some n → node_inode n < b_next_inode b ∧
    ∃ i, b_inodes b !! node_inode n = Some i ∧ ikind i = node_kind n ∧ data_ok i ∧ links i = match node_kind n with Directory => 2 | _ => 1 end;
  bk_once p q n m : b_tree b !! p = Some n → b_tree b !! q = Some m → node_inode n = node_inode m → p = q;
  bk_limit n : storage_limit_ b = Some n → 0 ≤ n;
}.

Lemma lor_1 n : 0 ≤ n → n ≤ Z.lor n 1 ∧ Z.lor n 1 ≤ n + 1.
Proof. intros H. destruct n as [|[p|p|]|p]; unfold Z.lor, Pos.lor; lia. Qed.

Lemma declare_ok os p node k bytes b : builder_ok b → (∀ i, node_inode (node i) = i) → (∀ i, node_kind (node i) = k) → (k ≠ File → bytes = []) →
  builder_ok (declare os p node k bytes b).
Proof.
  intros [Hn Ho Hd Hl] Hi Hk Hb. destruct (lor_1 _ Hn) as [Hle _]. set (num := Z.lor (b_next_inode b) 1) in *. split; cbn; try done; fold num.
  - lia.
  - intros q n [[<- <-]|[Hq Hn']]%lookup_insert_Some.
    + rewrite Hi. split; [lia|]. rewrite lookup_insert_eq. eexists. split; [done|]. rewrite Hk. split; [done|]. split; [|by destruct k]. split; [apply sparse_new_ok|]. cbn. intros H. by rewrite Hb.
    + destruct (Ho q n Hn') as [Hlt (i & Hin & ?)]. split; [lia|]. exists i. by rewrite lookup_insert_ne by lia.
  - intros q r n m [[<- <-]|[Hq Hn1]]%lookup_insert_Some [[<- <-]|[Hr Hm1]]%lookup_insert_Some E; try done.
    + rewrite Hi in E. destruct (Ho r m Hm1) as [Hlt _]. lia.
    + rewrite Hi in E. destruct (Ho q n Hn1) as [Hlt _]. lia.
    + by eapply Hd.
Qed.

Lemma declare_above_ok os p b : builder_ok b → builder_ok (declare_above os p b).
Proof.
  unfold declare_above. generalize (above p). intros l. revert b. induction l as [|q l IH]; intros b Hb; [done|]. cbn. apply IH. case_bool_decide; [done|]. by apply declare_ok.
Qed.

Lemma tell_ok os b d : builder_ok b → declaration_ok d → builder_ok (tell os b d).
Proof.
  intros Hb Hd. destruct d; cbn [tell]; try (destruct Hb; split; cbn; (done || congruence)).
  - apply declare_ok; [by apply declare_above_ok|done..].
  - by apply declare_ok.
  - apply (declare_ok os _ (λ i, VSymlink i _)); [by apply declare_above_ok|done..].
Qed.

Lemma build_ok os ds : Forall declaration_ok ds → builder_ok (build os ds).
Proof.
  unfold build. assert (builder_ok builder_default) as H by (by split). revert H. generalize builder_default. intros b H Hds. revert b H.
  induction Hds as [|d ds Hd _ IH]; intros b Hb; [done|]. cbn. by apply IH, tell_ok.
Qed.

(** The volume, with the space of every inode taken *)
Lemma attach_all_Some m v : ∀ v', attach_all m v = Some v' →
  capacity v' = capacity v ∧ used v' = used v + all_pages m ∧ files v' = files v + Z.of_nat (size m) ∧ (used v ≤ capacity v → used v' ≤ capacity v').
Proof.
  unfold attach_all. apply (map_fold_weak_ind (λ (r : option Volume) m, ∀ v', r = Some v' → capacity v' = capacity v ∧
    used v' = used v + all_pages m ∧ files v' = files v + Z.of_nat (size m) ∧ (used v ≤ capacity v → used v' ≤ capacity v'))).
  - intros v' [= <-]. unfold all_pages. rewrite map_fold_empty, map_size_empty. split_and!; (done || lia).
  - intros i n m' [v1|] Hi IH v'; [|done]. cbn. unfold attach. case_match; [|done]. intros [= <-]. destruct (IH v1 eq_refl) as (H1 & H2 & H3 & H4).
    rewrite all_pages_insert, map_size_insert_None by done. cbn. split_and!; lia.
Qed.

Lemma declared_inode_same b user p n : ∀ i, b_inodes b !! node_inode n = Some i →
  ikind (declared_inode b user p n) = ikind i ∧ data (declared_inode b user p n) = data i.
Proof. intros i Hi. unfold declared_inode. rewrite Hi. cbn. destruct (default _ (b_owners b !! p)). by destruct (is_dir_node n). Qed.

Lemma declared_inodes_Some b user i x : builder_ok b → declared_inodes b user !! i = Some x ↔
  ∃ p n, b_tree b !! p = Some n ∧ node_inode n = i ∧ x = declared_inode b user p n.
Proof.
  intros Hb. unfold declared_inodes. rewrite <- elem_of_list_to_map.
  - rewrite list_elem_of_fmap. split.
    + intros ([p n] & [= -> ->] & H%elem_of_map_to_list). by exists p, n.
    + intros (p & n & H & <- & ->). exists (p, n). split; [done|]. by apply elem_of_map_to_list.
  - rewrite map_map. cbn. apply NoDup_fmap_2_strong; [|apply NoDup_map_to_list]. intros [p n] [q m] Hp%elem_of_map_to_list Hq%elem_of_map_to_list E. cbn in E.
    assert (p = q) as -> by (by eapply (bk_once b Hb)). congruence.
Qed.

Lemma new_core b user fs : builder_ok b → fs_new b user = Some fs → consistent fs.
Proof.
  intros Hb. unfold fs_new. destruct (attach_all _ _) as [v|] eqn:Ea; [|done]. cbn. case_match; [|done]. intros [= <-].
  apply attach_all_Some in Ea as (Hcap & Hu & Hf & Hle). cbn in *.
  assert (∀ p n, b_tree b !! p = Some n → kinds (declared_inodes b user) !! node_inode n = Some (node_kind n)) as Hk.
  { intros p n Hp. destruct (bk_nodes b Hb p n Hp) as [_ (i & Hi & Ek & _)]. rewrite kinds_lookup, (proj2 (declared_inodes_Some b user (node_inode n) (declared_inode b user p n) Hb)) by (by exists p, n).
    cbn. destruct (declared_inode_same b user p n i Hi) as [-> _]. by rewrite Ek. }
  split; [split; split|]; cbn; try done; try apply opens_default_ok; try lia.
  - intros p q i Hp Hq. by eapply (bk_once b Hb).
  - intros i [x (p & n & Hp & <- & ->)%declared_inodes_Some]; [|done]. destruct (bk_nodes b Hb p n Hp) as [Hlt _]. destruct (lor_1 _ (bk_next b Hb)). lia.
  - intros i x (p & n & Hp & <- & ->)%declared_inodes_Some; [|done]. destruct (bk_nodes b Hb p n Hp) as [_ (j & Hj & _ & Hd & _)]. destruct (declared_inode_same b user p n j Hj) as [E1 E2].
    unfold data_ok. rewrite E1, E2. done.
  - apply Hle. apply Z.div_pos; [|done]. destruct (storage_limit_ b) eqn:El; [|done]. by apply (bk_limit b Hb).
  - by intros s [].
  - intros i. rewrite elem_of_refs. cbn. split.
    + intros [x (p & n & Hp & <- & ->)%declared_inodes_Some]; [|done]. left. by exists p, n.
    + intros [(p & n & Hp & <-)|[(id & r & f & Hf' & _)|[(id & r & s & Hf' & _)|Hf']]]; try done. eexists. apply declared_inodes_Some; [done|]. by exists p, n.
Qed.

Lemma consistent_marks i f fs : marks f → consistent fs → consistent (upd_inode i f fs).
Proof. intros Hf [Hc Hl]. split; [by apply core_marks|]. intros j. change (refs (upd_inode i f fs)) with (refs fs). cbn. by rewrite lookup_alter_is_Some. Qed.

Lemma attach_consistent b user now fs : consistent fs → consistent (fs_attach b user now fs).
Proof.
  intros Hc. unfold fs_attach. generalize (map_to_list (b_tree b)). intros l. induction l as [|[p n] l IH]; [done|]. cbn. apply consistent_marks; [|done].
  intros m. unfold stamp_inode. by destruct (b_owners b !! p).
Qed.

Lemma sample_consistent : consistent sample_fs ∧ consistent sample_after.
Proof.
  assert (consistent sample_fs) as H by (eapply attach_consistent, new_core; [apply build_ok, sample_declared|exact sample_new_Some]). split; [done|].
  destruct (run_consistent no_ino (λ _, true) sample_calls sample_fs H) as (fs & E & Hc). unfold sample_after. by rewrite E.
Qed.

(** C4: a file system built from any declarations and taken through any calls, each with its own caller, rules, clock and host answers, panics in none of them,
    and after each call its tables are right: every name, open description, directory stream and the working directory refer to an inode that is there, of the kind
    they take it for; a directory has one name; descriptors are counted; only regular files have bytes; the volume counts exactly the pages of the inodes there are
    and never more than it has; and the inodes there are are exactly those that something refers to, so a file's space comes back when its last name and its last
    descriptor are gone, and not before. *)
Theorem files_consistent ino_of memory os ds user at_ fs0 cs :
  Forall declaration_ok ds → fs_new (build os ds) user = Some fs0 →
  ∃ fs, run ino_of memory cs (fs_attach (build os ds) user at_ fs0) = Some fs ∧ consistent fs.
Proof.
  intros Hds Hnew. apply run_consistent, attach_consistent. by eapply new_core; [apply build_ok|].
Qed.
Lemma files_consistent_witness : ∃ fs, run no_ino (λ _, true) sample_calls sample_fs = Some fs ∧ consistent fs.
Proof. apply (files_consistent no_ino (λ _, true) Linux sample_declarations sample_user 5 sample_new sample_calls); [exact sample_declared|exact sample_new_Some]. Defined.
