(* ===== verification/FsLinks.v ===== *)
(** * Link counts, and trees without orphans

    In a tree where every name is in a directory ([rooted]), the link count of a file or a symlink
    is the number of its names and that of a directory two and its subdirectories. What making,
    dropping and moving names does to both, over the tree and the counts alone. *)

From S2P Require Import Prelude FsLocks FsPerm FsData FsDataProps FsTree FsCalls FsFds FsSys FsInv.

(** ** Counting *)

Definition count (P : path * VNode → Prop) `{!∀ x, Decision (P x)} (t : Tree) : Z := Z.of_nat (size (filter P t)).
Definition names_of (t : Tree) (i : Z) : Z := count (λ '(_, n), node_inode n = i) t.

Section count.
Context (P : path * VNode → Prop) {HP : ∀ x, Decision (P x)}.

Lemma count_insert p n t : t !! p = None → count P (<[p := n]> t) = count P t + b2z (bool_decide (P (p, n))).
Proof.
  intros Hp. unfold count. case_bool_decide.
  - rewrite map_filter_insert_True by done. rewrite map_size_insert_None; [cbn; lia|]. by rewrite map_lookup_filter, Hp.
  - rewrite map_filter_insert_False, delete_id by done. cbn. lia.
Qed.
Lemma count_delete p n t : t !! p = Some n → count P (delete p t) = count P t - b2z (bool_decide (P (p, n))).
Proof. intros Hp. rewrite <- (insert_delete_id t p n Hp) at 2. rewrite count_insert by apply lookup_delete_eq. lia. Qed.
Lemma count_zero t : (∀ p n, t !! p = Some n → ¬ P (p, n)) → count P t = 0.
Proof.
  intros H. unfold count. rewrite (proj2 (map_size_empty_iff _)); [done|]. apply map_empty. intros p. apply map_lookup_filter_None. right. intros n Hn. by apply H.
Qed.
Lemma count_list t : count P t = Z.of_nat (length (filter P (map_to_list t))).
Proof.
  unfold count. rewrite <- length_map_to_list. f_equal. apply Permutation_length, NoDup_Permutation; [apply NoDup_map_to_list|apply NoDup_filter, NoDup_map_to_list|].
  intros [p n]. rewrite list_elem_of_filter, !elem_of_map_to_list, map_lookup_filter_Some. tauto.
Qed.
End count.

(** [t'] is [t] with its names changed by [g]. *)
Record relabelled (g : path → path) (t t' : Tree) : Prop := {
  rl_to q n : t !! q = Some n → t' !! g q = Some n;
  rl_from p n : t' !! p = Some n → ∃ q, t !! q = Some n ∧ p = g q;
  rl_inj p q : is_Some (t !! p) → is_Some (t !! q) → g p = g q → p = q;
}.

Lemma relabelled_list g t t' : relabelled g t t' → map_to_list t' ≡ₚ (λ x, (g x.1, x.2)) <$> map_to_list t.
Proof.
  intros [Ht Hf Hi]. apply NoDup_Permutation; [apply NoDup_map_to_list| |].
  - apply NoDup_fmap_2_strong; [|apply NoDup_map_to_list]. intros [p n] [q m] Hp%elem_of_map_to_list Hq%elem_of_map_to_list [= E ->].
    f_equal. apply Hi; [by eexists..|done].
  - intros [p n]. rewrite elem_of_map_to_list, list_elem_of_fmap. split.
    + intros (q & Hq & ->)%Hf. exists (q, n). split; [done|]. by apply elem_of_map_to_list.
    + intros ([q m] & [= -> ->] & Hq%elem_of_map_to_list). by apply Ht.
Qed.

Lemma count_relabelled g t t' (P : path * VNode → Prop) {HP : ∀ x, Decision (P x)} : relabelled g t t' → count P t' = count (λ x, P (g x.1, x.2)) t.
Proof.
  intros H. rewrite !count_list, (relabelled_list g t t' H). f_equal. generalize (map_to_list t). intros l.
  induction l as [|x l IH]; [done|]. rewrite fmap_cons, !filter_cons. repeat case_decide; cbn; try done; by rewrite IH.
Qed.

Lemma count_ext (P Q : path * VNode → Prop) {HP : ∀ x, Decision (P x)} {HQ : ∀ x, Decision (Q x)} t : (∀ p n, t !! p = Some n → P (p, n) ↔ Q (p, n)) → count P t = count Q t.
Proof. intros H. unfold count. do 2 f_equal. apply map_filter_ext. intros p n Hp. by apply H. Qed.

(** ** Trees and counts *)

Definition rooted (t : Tree) : Prop := ∀ c q n, t !! (c :: q) = Some n → ∃ i, t !! q = Some (VDir i).

Definition rootedb (t : Tree) : bool := forallb (λ x, match x.1 with [] => true | _ :: q => some_dir (t !! q) end) (map_to_list t).
Lemma rootedb_ok t : rootedb t = true → rooted t.
Proof.
  intros H c q n Hn. apply forallb_forall with (x := (c :: q, n)) in H; [|apply list_elem_of_In; by apply elem_of_map_to_list]. cbn in H.
  destruct (t !! q) as [[| |]|]; try done. by eexists.
Qed.

(** The kind and the link count of every inode *)
Abbreviation Counts := (gmap Z (kind * Z)).
Definition counts (fs : Vfs) : Counts := (λ n, (ikind n, links n)) <$> inodes fs.
Definition bump (k : Z) (x : kind * Z) : kind * Z := (x.1, x.2 + k).

Record linked (t : Tree) (L : Counts) : Prop := {
  lk_rooted : rooted t;
  lk_leaf i k l : L !! i = Some (k, l) → k ≠ Directory → l = names_of t i;
  lk_dir i l p : L !! i = Some (Directory, l) → t !! p = Some (VDir i) → l = 2 + child_dirs t p;
  (** from the invariant *)
  lk_kind p n : t !! p = Some n → ∃ l, L !! node_inode n = Some (node_kind n, l);
  lk_once p q i : t !! p = Some (VDir i) → t !! q = Some (VDir i) → p = q;
}.

Lemma child_dirs_count t p : child_dirs t p = count (λ '(q, n), is_dir_node n = true ∧ parent_path q = Some p) t.
Proof. done. Qed.
Lemma child_dirs_insert p n t q : t !! p = None → child_dirs (<[p := n]> t) q = child_dirs t q + b2z (is_dir_node n && bool_decide (parent_path p = Some q)).
Proof.
  intros H. rewrite !child_dirs_count, count_insert by done. f_equal. f_equal.
  apply eq_true_iff_eq. rewrite bool_decide_eq_true, andb_true_iff, bool_decide_eq_true. done.
Qed.
Lemma child_dirs_delete p n t q : t !! p = Some n → child_dirs (delete p t) q = child_dirs t q - b2z (is_dir_node n && bool_decide (parent_path p = Some q)).
Proof. intros H. rewrite <- (insert_delete_id t p n H) at 2. rewrite child_dirs_insert by apply lookup_delete_eq. lia. Qed.
Lemma names_of_insert p n t i : t !! p = None → names_of (<[p := n]> t) i = names_of t i + b2z (bool_decide (node_inode n = i)).
Proof. apply count_insert. Qed.
Lemma names_of_delete p n t i : t !! p = Some n → names_of (delete p t) i = names_of t i - b2z (bool_decide (node_inode n = i)).
Proof. apply count_delete. Qed.

(** Nothing is under a path that is not a directory's *)
Lemma rooted_under t p rest n : rooted t → t !! (rest ++ p) = Some n → rest ≠ [] → ∃ i, t !! p = Some (VDir i).
Proof.
  intros Ht. revert n. induction rest as [|c rest IH]; intros n Hn Hr; [done|]. cbn in Hn. destruct (Ht c (rest ++ p) n Hn) as [i Hi].
  destruct rest as [|c' rest]; [by exists i|]. by apply (IH (VDir i)).
Qed.
Lemma no_child_dirs t p : rooted t → (∀ i, t !! p ≠ Some (VDir i)) → child_dirs t p = 0.
Proof.
  intros Ht Hp. apply count_zero. intros [|c q] n Hn [_ [= ->]]. destruct (Ht c p n Hn) as [i Hi]. by apply (Hp i).
Qed.

(** ** Making and dropping names *)

Lemma cons_neq (c : name) (q : path) : c :: q ≠ q.
Proof. intros E. apply (f_equal length) in E. cbn in E. lia. Qed.

Lemma rooted_insert t c q par n : rooted t → t !! (c :: q) = None → t !! q = Some (VDir par) → rooted (<[c :: q := n]> t).
Proof.
  intros Ht Hp Hq c' q' m [[[= <- <-] <-]|[Hne Hm]]%lookup_insert_Some.
  - exists par. rewrite lookup_insert_ne by apply cons_neq. done.
  - destruct (Ht c' q' m Hm) as [i Hi]. exists i. rewrite lookup_insert_ne; [done|congruence].
Qed.
Lemma rooted_delete t p : rooted t → (∀ c, t !! (c :: p) = None) → rooted (delete p t).
Proof.
  intros Ht Hp c q n [Hne Hn]%lookup_delete_Some. destruct (Ht c q n Hn) as [i Hi]. exists i. rewrite lookup_delete_ne; [done|]. intros ->. by rewrite Hp in Hn.
Qed.

(** The counts with that of a directory changed *)
Definition bumped (par k : Z) (L : Counts) (j : Z) : option (kind * Z) := if decide (j = par) then bump k <$> L !! j else L !! j.
Lemma bumped_Some par k L j x l : bumped par k L j = Some (x, l) ↔ L !! j = Some (x, l - if decide (j = par) then k else 0).
Proof.
  unfold bumped. case_decide; [|by rewrite Z.sub_0_r]. destruct (L !! j) as [[y m]|]; [|done]. unfold bump. cbn.
  split; intros [= -> E]; do 2 f_equal; lia.
Qed.

Section one.
Context (t : Tree) (L L' : Counts) (Hl : linked t L).

(** A directory is no file's inode *)
Lemma dir_not_leaf q par k l : t !! q = Some (VDir par) → L !! par = Some (k, l) → k = Directory.
Proof. intros Hq Hp. destruct (lk_kind _ _ Hl _ _ Hq) as [l' H]. cbn in H. congruence. Qed.
Lemma same_dir q r i j : t !! q = Some (VDir i) → t !! r = Some (VDir j) → bool_decide (q = r) = bool_decide (j = i).
Proof. intros Hq Hr. apply bool_decide_ext. split; [congruence|]. intros ->. by eapply (lk_once _ _ Hl). Qed.

(** A name for a file or a symlink, new or not *)
Lemma linked_add_leaf c q par n : t !! (c :: q) = None → t !! q = Some (VDir par) → is_dir_node n = false →
  (∀ r m, t !! r = Some m → node_inode m = node_inode n → node_kind m = node_kind n) →
  L' !! node_inode n = Some (node_kind n, names_of t (node_inode n) + 1) → (∀ j, j ≠ node_inode n → L' !! j = L !! j) →
  linked (<[c :: q := n]> t) L'.
Proof.
  intros Hp Hq Hd Hk Hi HL. destruct Hl as [Hr Hc Hdir Hkind Ho]. split.
  - by eapply rooted_insert.
  - intros j k l Hj Hkd. rewrite names_of_insert by done. destruct (decide (node_inode n = j)) as [<-|Hne].
    + rewrite Hi in Hj. injection Hj as <- <-. by rewrite bool_decide_true.
    + rewrite HL in Hj by done. rewrite bool_decide_false, Z.add_0_r by done. by eapply Hc.
  - intros j l r Hj [[_ ->]|[_ Hr']]%lookup_insert_Some; [done|]. rewrite child_dirs_insert, Hd by done. rewrite Z.add_0_r. apply (Hdir j); [|done].
    rewrite <- HL; [done|]. intros ->. rewrite Hi in Hj. by destruct n.
  - intros r m [[_ <-]|[_ Hm]]%lookup_insert_Some; [by eexists|]. destruct (decide (node_inode m = node_inode n)) as [E|Hne].
    + rewrite E, (Hk r m) by done. by eexists.
    + rewrite HL by done. by eapply Hkind.
  - intros r s i [[_ E]|[_ H1]]%lookup_insert_Some [[_ E']|[_ H2]]%lookup_insert_Some; try (by subst n). by eapply Ho.
Qed.

(** A new directory *)
Lemma linked_add_dir c q par i : t !! (c :: q) = None → t !! q = Some (VDir par) → (∀ r m, t !! r = Some m → node_inode m ≠ i) →
  L' !! i = Some (Directory, 2) → (∀ j, j ≠ i → L' !! j = bumped par 1 L j) → linked (<[c :: q := VDir i]> t) L'.
Proof.
  intros Hp Hq Hf Hi HL. pose proof (dir_not_leaf q par) as Hpd. pose proof (same_dir q) as Hsd. destruct Hl as [Hr Hc Hdir Hkind Ho]. split.
  - by eapply rooted_insert.
  - intros j k l Hj Hkd. rewrite names_of_insert by done. destruct (decide (j = i)) as [->|Hne]; [congruence|]. cbn. rewrite bool_decide_false, Z.add_0_r by done.
    rewrite HL in Hj by done. apply bumped_Some in Hj. case_decide; [subst; by eapply Hpd in Hj|]. eapply Hc; [|done]. by rewrite Z.sub_0_r in Hj.
  - intros j l r Hj [[<- [= ->]]|[Hne Hr']]%lookup_insert_Some; rewrite child_dirs_insert by done; cbn [is_dir_node andb parent_path].
    + rewrite no_child_dirs by (done || (intros k; by rewrite Hp)). rewrite bool_decide_false by (intros [= E]; by apply (cons_neq c q)). rewrite Hi in Hj. by injection Hj as <-.
    + assert (j ≠ i) by (intros ->; by destruct (Hf _ _ Hr')). rewrite HL in Hj by done. apply bumped_Some, (Hdir _ _ r) in Hj; [|done].
      rewrite (bool_decide_ext (Some q = Some r) (q = r)) by (split; congruence). rewrite (Hsd r par j Hq Hr'). case_decide; case_bool_decide; try done; cbn; lia.
  - intros r m [[_ <-]|[_ Hm]]%lookup_insert_Some; [by eexists|]. rewrite HL by (by eapply Hf). destruct (Hkind r m Hm) as [l Hl'].
    unfold bumped. case_decide; rewrite Hl'; by eexists.
  - intros r s k [[<- E1]|[_ H1]]%lookup_insert_Some [[<- E2]|[_ H2]]%lookup_insert_Some; try done; simplify_eq; [by destruct (Hf _ _ H2)|by destruct (Hf _ _ H1)|by eapply Ho].
Qed.

(** A name of a file or a symlink that goes *)
Lemma linked_drop_leaf p n : t !! p = Some n → is_dir_node n = false → (∀ j, L' !! j = bumped (node_inode n) (-1) L j) → linked (delete p t) L'.
Proof.
  intros Hp Hd HL. destruct Hl as [Hr Hc Hdir Hkind Ho]. split.
  - apply rooted_delete; [done|]. intros c. destruct (t !! (c :: p)) as [m|] eqn:E; [|done]. destruct (Hr c p m E) as [i Hi]. rewrite Hp in Hi. by injection Hi as ->.
  - intros j k l Hj Hkd. rewrite (names_of_delete p n) by done. rewrite HL in Hj. apply bumped_Some in Hj. apply Hc in Hj; [|done]. case_decide; case_bool_decide; try congruence; cbn; lia.
  - intros j l r Hj [_ Hr']%lookup_delete_Some. rewrite (child_dirs_delete p n) by done. rewrite Hd. rewrite HL in Hj. apply bumped_Some, (Hdir _ _ r) in Hj; [|done]. cbn.
    case_decide; [|lia]. destruct (Hkind _ _ Hp) as [l1 E1], (Hkind _ _ Hr') as [l2 E2]. subst j. cbn in E2. by destruct n; simplify_eq.
  - intros r m [_ Hm]%lookup_delete_Some. rewrite HL. destruct (Hkind r m Hm) as [l Hl']. unfold bumped. case_decide; rewrite Hl'; by eexists.
  - intros r s k [_ H1]%lookup_delete_Some [_ H2]%lookup_delete_Some. by eapply Ho.
Qed.

(** A directory that goes, whatever becomes of its own count *)
Lemma linked_drop_dir c q par i : t !! (c :: q) = Some (VDir i) → t !! q = Some (VDir par) → (∀ c', t !! (c' :: c :: q) = None) →
  (∃ l, L' !! i = Some (Directory, l)) → (∀ j, j ≠ i → L' !! j = bumped par (-1) L j) → linked (delete (c :: q) t) L'.
Proof.
  intros Hp Hq Hno [l0 Hi] HL. pose proof (dir_not_leaf q par) as Hpd. pose proof (same_dir q) as Hsd. destruct Hl as [Hr Hc Hdir Hkind Ho]. split.
  - by apply rooted_delete.
  - intros j k l Hj Hkd. rewrite (names_of_delete (c :: q) (VDir i)) by done. destruct (decide (j = i)) as [->|Hne]; [congruence|]. cbn. rewrite bool_decide_false, Z.sub_0_r by done.
    rewrite HL in Hj by done. apply bumped_Some in Hj. case_decide; [subst; by eapply Hpd in Hj|]. eapply Hc; [|done]. by rewrite Z.sub_0_r in Hj.
  - intros j l r Hj [Hne Hr']%lookup_delete_Some. assert (j ≠ i) by (intros ->; by destruct Hne; eapply Ho).
    rewrite (child_dirs_delete (c :: q) (VDir i)) by done. cbn [is_dir_node andb parent_path]. rewrite HL in Hj by done. apply bumped_Some, (Hdir _ _ r) in Hj; [|done].
    rewrite (bool_decide_ext (Some q = Some r) (q = r)) by (split; congruence). rewrite (Hsd r par j Hq Hr'). case_decide; case_bool_decide; try done; cbn; lia.
  - intros r m [Hne Hm]%lookup_delete_Some. destruct (decide (node_inode m = i)) as [E|Hni].
    + destruct (Hkind _ _ Hm) as [l1 E1], (Hkind _ _ Hp) as [l2 E2]. cbn in E2. rewrite E in E1. destruct m; simplify_eq/=. by destruct Hne; eapply Ho.
    + rewrite HL by done. destruct (Hkind r m Hm) as [l Hl']. unfold bumped. case_decide; rewrite Hl'; by eexists.
  - intros r s k [_ H1]%lookup_delete_Some [_ H2]%lookup_delete_Some. by eapply Ho.
Qed.
End one.

(** ** Moving a name, and what is under it *)

Section move.
Context (t : Tree) (L : Counts) (Hl : linked t L).
Context (cf c : name) (qf q : path) (n : VNode) (fp tp : Z).
#[local] Abbreviation from := (cf :: qf).
#[local] Abbreviation to := (c :: q).
#[local] Abbreviation d := (is_dir_node n).
Context (Hfrom : t !! from = Some n) (Hfp : t !! qf = Some (VDir fp)) (Hto : t !! to = None) (Htp : t !! q = Some (VDir tp)).
Context (Hu : d = true → under from to = false).

Definition relabel (p : path) : path := if moves from d p then destination from to p else p.

Lemma moves_spec p : moves from d p = true ↔ ∃ rest, p = rest ++ from ∧ (rest = [] ∨ d = true).
Proof.
  unfold moves. rewrite orb_true_iff, bool_decide_eq_true, andb_true_iff, under_app. split.
  - intros [->|[Hd [rest ->]]]; [exists []; auto|exists rest; auto].
  - intros (rest & -> & [->|Hd]); [by left|]. right. split; [done|by exists rest].
Qed.
Lemma relabel_moved rest : rest = [] ∨ d = true → relabel (rest ++ from) = rest ++ to.
Proof. intros H. unfold relabel. rewrite (proj2 (moves_spec (rest ++ from))) by (by exists rest). apply destination_app. Qed.
Lemma relabel_kept p : moves from d p = false → relabel p = p.
Proof. intros H. unfold relabel. by rewrite H. Qed.

(** Where things move to, nothing is *)
Lemma free rest : t !! (rest ++ to) = None.
Proof.
  destruct (t !! (rest ++ to)) as [m|] eqn:E; [|done]. destruct rest as [|c' rest]; [cbn in E; congruence|].
  destruct (rooted_under t to (c' :: rest) m (lk_rooted _ _ Hl) E) as [i Hi]; [done|congruence].
Qed.

Lemma relabel_inj p p' : is_Some (t !! p) → is_Some (t !! p') → relabel p = relabel p' → p = p'.
Proof.
  unfold relabel. intros Hp Hp' E. destruct (moves from d p) eqn:E1, (moves from d p') eqn:E2.
  - by eapply destination_inj.
  - apply moves_app in E1 as [rest ->]. rewrite destination_app in E. subst p'. rewrite free in Hp'. by destruct Hp'.
  - apply moves_app in E2 as [rest ->]. rewrite destination_app in E. subst p. rewrite free in Hp. by destruct Hp.
  - done.
Qed.

Lemma move_relabelled : relabelled relabel t (move_tree from to d t).
Proof.
  split; [| |apply relabel_inj].
  - intros p m Hp. unfold relabel. destruct (moves from d p) eqn:E; [by apply move_tree_moved|].
    rewrite move_tree_kept; [by rewrite E|]. intros r Hr _ ->. apply moves_app in Hr as [rest ->]. rewrite destination_app, free in Hp. done.
  - intros p m (r & Hr & Hc)%move_tree_Some. exists r. split; [done|]. unfold relabel. destruct Hc as [[-> ?]|[-> ?]]; done.
Qed.

(** A directory's place is its parent's, but for what moved itself *)
Lemma relabel_parent c' r m : t !! (c' :: r) = Some m → c' :: r ≠ from → ∃ c'', relabel (c' :: r) = c'' :: relabel r.
Proof.
  intros Hm Hne. unfold relabel. destruct (moves from d (c' :: r)) eqn:E.
  - apply moves_spec in E as (rest & E & Hr). destruct rest as [|x rest]; [by cbn in E|]. destruct Hr as [|Hd]; [done|]. cbn in E. injection E as -> ->.
    rewrite (proj2 (moves_spec (rest ++ from))) by (exists rest; auto). exists x. rewrite destination_app. exact (destination_app from to (x :: rest)).
  - destruct (moves from d r) eqn:E'; [|by exists c']. exfalso. apply moves_spec in E' as (rest & -> & Hr).
    destruct (decide (d = true)) as [Hd|Hd].
    + rewrite (proj2 (moves_spec (c' :: rest ++ from))) in E; [done|]. exists (c' :: rest). auto.
    + destruct Hr as [->|]; [|done]. destruct (lk_rooted _ _ Hl _ _ _ Hm) as [i Hi]. cbn in Hi. rewrite Hfrom in Hi. injection Hi as ->. by cbn in Hd.
Qed.

(** The directories the moved one leaves and goes to stay where they are *)
Lemma relabel_fp : relabel qf = qf.
Proof.
  apply relabel_kept. destruct (moves from d qf) eqn:E; [|done]. apply moves_app in E as [rest E]. apply (f_equal length) in E. rewrite length_app in E. cbn in E. lia.
Qed.
Lemma relabel_tp : relabel q = q.
Proof.
  apply relabel_kept. destruct (moves from d q) eqn:E; [|done]. apply moves_spec in E as (rest & -> & Hr). destruct (decide (d = true)) as [Hd|Hd].
  - specialize (Hu Hd). rewrite <- not_true_iff_false, under_app in Hu. destruct Hu. by exists (c :: rest).
  - destruct Hr as [->|]; [|done]. cbn in Htp. rewrite Hfrom in Htp. injection Htp as ->. by cbn in Hd.
Qed.

Lemma relabel_nil : relabel [] = [].
Proof. apply relabel_kept. destruct (moves from d []) eqn:E; [|done]. by apply moves_app in E as [[] [=]]. Qed.

Lemma moved_child_dirs p i : t !! p = Some (VDir i) →
  child_dirs (move_tree from to d t) (relabel p) = child_dirs t p + if d then b2z (bool_decide (q = p)) - b2z (bool_decide (qf = p)) else 0.
Proof.
  intros Hp. rewrite !child_dirs_count, (count_relabelled relabel t _ _ move_relabelled).
  set (P := λ x : path * VNode, let '(r, m) := (relabel x.1, x.2) in is_dir_node m = true ∧ parent_path r = Some (relabel p)).
  set (Q := λ '(r, m), is_dir_node m = true ∧ parent_path r = Some p).
  pose proof (count_delete P from n t Hfrom) as H1. pose proof (count_delete Q from n t Hfrom) as H2.
  assert (count P (delete from t) = count Q (delete from t)) as E.
  { apply count_ext. intros [|c' r] m [Hne Hm]%lookup_delete_Some; unfold P, Q; cbn [fst snd].
    - rewrite relabel_nil. split; intros [_ [=]].
    - destruct (relabel_parent c' r m Hm) as [c'' ->]; [done|]. cbn. destruct (lk_rooted _ _ Hl _ _ _ Hm) as [j Hj].
      split; intros [Hd E]; (split; [done|]); [|congruence]. f_equal. apply relabel_inj; [by eexists..|congruence]. }
  assert (P (from, n) ↔ d = true ∧ q = p) as E1.
  { unfold P. cbn [fst snd]. assert (relabel from = to) as -> by (apply (relabel_moved []); auto). cbn.
    split; intros [Hd Eq]; (split; [done|]); [|subst p; by rewrite relabel_tp]. apply relabel_inj; [by eexists..|]. rewrite relabel_tp. congruence. }
  assert (Q (from, n) ↔ d = true ∧ qf = p) as E2.
  { unfold Q. cbn. split; intros [Hd Eq]; (split; [done|]); congruence. }
  rewrite (bool_decide_ext _ _ E1) in H1. rewrite (bool_decide_ext _ _ E2) in H2. rewrite E in H1. fold P Q.
  repeat case_bool_decide; destruct d; cbn in *; try lia; exfalso; tauto.
Qed.

(** What the move does to the counts, when a directory moves *)
Lemma linked_move L' : (∀ j, L' !! j = if d then bumped tp 1 L j ≫= λ x, Some (bump (if decide (j = fp) then -1 else 0) x) else L !! j) →
  linked (move_tree from to d t) L'.
Proof.
  intros HL. pose proof move_relabelled as Hrl.
  assert (∀ j k l, L' !! j = Some (k, l) ↔ L !! j = Some (k, l - if d then (if decide (j = tp) then 1 else 0) + (if decide (j = fp) then -1 else 0) else 0)) as HL'.
  { intros j k l. rewrite HL. destruct d; [|by rewrite Z.sub_0_r]. unfold bumped, bump.
    destruct (L !! j) as [[y m]|]; repeat case_decide; cbn; try done; (split; intros E; injection E as -> E; do 2 f_equal; lia). }
  split.
  - intros c' r m (p & Hp & E)%(rl_from _ _ _ Hrl). destruct (decide (p = from)) as [->|Hne].
    + exists tp. assert (relabel from = to) as Ef by (apply (relabel_moved []); auto). rewrite Ef in E. injection E as -> ->. pose proof (rl_to _ _ _ Hrl _ _ Htp) as H. by rewrite relabel_tp in H.
    + destruct p as [|x p]; [by rewrite relabel_nil in E|]. destruct (relabel_parent x p m Hp Hne) as [c'' E']. rewrite E' in E. injection E as -> ->. destruct (lk_rooted _ _ Hl _ _ _ Hp) as [i Hi]. exists i. by apply Hrl.
  - intros j k l Hj Hk. apply HL' in Hj. unfold names_of. rewrite (count_relabelled _ _ _ _ Hrl).
    rewrite (count_ext _ (λ '(_, n), node_inode n = j)) by done. eapply (lk_leaf _ _ Hl); [|exact Hk]. rewrite Hj. do 2 f_equal.
    assert (j ≠ tp) by (intros ->; destruct Hk; by eapply (dir_not_leaf t L Hl q tp)). assert (j ≠ fp) by (intros ->; destruct Hk; by eapply (dir_not_leaf t L Hl qf fp)).
    rewrite !decide_False by done. destruct d; lia.
  - intros j l p Hj (r & Hr & ->)%(rl_from _ _ _ Hrl). rewrite (moved_child_dirs r j Hr). apply HL', (lk_dir _ _ Hl _ _ r) in Hj; [|done].
    rewrite (same_dir t L Hl q r tp j), (same_dir t L Hl qf r fp j) by done. destruct d; [|lia]. repeat case_decide; repeat case_bool_decide; try done; cbn; lia.
  - intros p m (r & Hr & ->)%(rl_from _ _ _ Hrl). destruct (lk_kind _ _ Hl _ _ Hr) as [l Hl']. rewrite HL. unfold bumped, bump. rewrite Hl'. destruct d; [|by eexists].
    repeat case_decide; eexists; reflexivity.
  - intros p r i (p' & Hp' & ->)%(rl_from _ _ _ Hrl) (r' & Hr' & ->)%(rl_from _ _ _ Hrl). f_equal. by eapply (lk_once _ _ Hl).
Qed.

End move.
