(* ===== verification/FsLinkCalls.v ===== *)
(** * Every call keeps the link counts

    The calls of FsCalls.v and FsFds.v against [linked] of FsLinks.v. *)

From S2P Require Import Prelude Bytes FsLocks FsPerm FsData FsDataProps FsTree FsCalls FsFds FsSys FsInv FsInvCalls FsLinks.

Definition fine (fs : Vfs) : Prop := linked (tree fs) (counts fs).
Abbreviation finely := (yields (λ x, fine (snd x))).

(** ** Changes that leave the counts *)

Definition quiet (f : VInode → VInode) : Prop := ∀ n, ikind (f n) = ikind n ∧ links (f n) = links n.
Lemma quiet_touch g : quiet (touch g).
Proof. by intros n. Qed.
Lemma quiet_locks l : quiet (put_locks l).
Proof. by intros n. Qed.
Lemma quiet_locks_of g : quiet (λ n, put_locks (g n) n).
Proof. by intros n. Qed.
Lemma quiet_touch_owner g o : quiet (λ n, touch g (put_owner o n)).
Proof. by intros n. Qed.
Lemma quiet_chown g o (b : bool) : quiet (λ n, let n := put_owner o n in if b then touch g n else n).
Proof. intros n. by destruct b. Qed.
Lemma quiet_wrote os c b g d : quiet (λ n, inode_wrote os c b (touch g (put_data d n))).
Proof. intros n. unfold inode_wrote. by case_match. Qed.
#[export] Hint Resolve quiet_touch quiet_locks quiet_locks_of quiet_touch_owner quiet_chown quiet_wrote : snare.

Lemma counts_upd i f k fs : (∀ n, ikind (f n) = ikind n ∧ links (f n) = links n + k) → ∀ j, counts (upd_inode i f fs) !! j = bumped i k (counts fs) j.
Proof.
  intros Hf j. unfold counts, bumped. cbn. rewrite !lookup_fmap. case_decide as E; [subst j; rewrite lookup_alter_eq|by rewrite lookup_alter_ne].
  destruct (inodes fs !! i) as [n|]; [|done]. cbn. unfold bump. destruct (Hf n) as [-> ->]. done.
Qed.
Lemma counts_same i f fs : (∀ n, inodes fs !! i = Some n → ikind (f n) = ikind n ∧ links (f n) = links n) → counts (upd_inode i f fs) = counts fs.
Proof.
  intros Hf. apply map_eq. intros j. unfold counts. cbn. rewrite !lookup_fmap. destruct (decide (i = j)) as [<-|]; [rewrite lookup_alter_eq|by rewrite lookup_alter_ne].
  destruct (inodes fs !! i) as [n|]; [|done]. cbn. destruct (Hf n eq_refl) as [-> ->]. done.
Qed.
Lemma counts_quiet i f fs : quiet f → counts (upd_inode i f fs) = counts fs.
Proof. intros Hf. apply counts_same. intros n _. apply Hf. Qed.

Lemma fine_quiet i f fs : quiet f → fine fs → fine (upd_inode i f fs).
Proof. intros Hf H. unfold fine. rewrite counts_quiet by done. done. Qed.
Lemma fine_opens o fs : fine fs → fine (with_opens o fs).
Proof. done. Qed.
Lemma fine_dirs o fs : fine fs → fine (with_dirs o fs).
Proof. done. Qed.
Lemma fine_cwd c fs : fine fs → fine (with_cwd c fs).
Proof. done. Qed.
Lemma fine_streams s n fs : fine fs → fine (with_streams s n fs).
Proof. done. Qed.
Lemma fine_description n fs : fine fs → fine (with_description n fs).
Proof. done. Qed.
Lemma fine_volume v fs : fine fs → fine (with_volume v fs).
Proof. done. Qed.
Lemma fine_next n fs : fine fs → fine (with_next_inode n fs).
Proof. done. Qed.
#[export] Hint Resolve fine_opens fine_dirs fine_cwd fine_streams fine_description fine_volume fine_next : snare.

Ltac quietly := repeat match goal with
  | |- fine (match ?x with _ => _ end) => destruct x
  | |- fine (upd_inode _ _ _) => apply fine_quiet; [solve [auto with snare]|]
  | |- fine (with_opens _ _) => apply fine_opens
  | |- fine (with_dirs _ _) => apply fine_dirs
  | |- fine (with_cwd _ _) => apply fine_cwd
  | |- fine (with_streams _ _ _) => apply fine_streams
  | |- fine (with_description _ _) => apply fine_description
  | |- fine (with_volume _ _) => apply fine_volume
  | |- fine (with_next_inode _ _) => apply fine_next
  | |- fine (drop_open _ _) => unfold drop_open
  | |- fine (release_of _ _) => unfold release_of
  | |- fine (read_access _ _ _ _ _) => unfold read_access
  | |- fine (insert_open _ _ _ _ _ _ _ _) => unfold insert_open
  end; try done.

(** ** Calls on descriptors *)

Section quiet.
Context (env : Env) (ino_of : path → Z) (memory : Z → bool) (fs : Vfs) (Hf : fine fs).

Lemma chdir_fine raw : finely (chdir env raw fs).
Proof. unfold chdir. calls; quietly. Qed.
Lemma fchdir_fine fd : finely (fchdir env fd fs).
Proof. unfold fchdir. calls; quietly. Qed.
Lemma set_times_fine fd raw s nf u : finely (set_times_call env fd raw s nf u fs).
Proof. unfold set_times_call. calls; quietly. Qed.
Lemma chmod_fine fd raw m nf u : finely (chmod_call env fd raw m nf u fs).
Proof. unfold chmod_call. calls; quietly. Qed.
Lemma chown_fine fd raw u g nf e k : finely (chown_call env fd raw u g nf e k fs).
Proof. unfold chown_call. calls; quietly. Qed.
Lemma read_fine fd len : finely (read env fd len fs).
Proof. unfold read. calls; quietly. Qed.
Lemma pread_fine fd len offset : finely (pread env fd len offset fs).
Proof. unfold pread. calls; quietly. Qed.
Lemma ftruncate_fine fd len : finely (ftruncate env fd len fs).
Proof. unfold ftruncate. calls; quietly. Qed.
Lemma lseek_fine fd offset w : finely (lseek fd offset w fs).
Proof. unfold lseek. calls; quietly. Qed.
Lemma fd_replaced_fine fd : finely (fd_replaced fd fs).
Proof. unfold fd_replaced. calls; quietly. Qed.
Lemma close_fine fd ret : finely (close fd ret fs).
Proof. unfold close. pose proof (fd_replaced_fine fd) as H. destruct (fd_replaced fd fs) as [| |[]|]; done. Qed.
Lemma dup_onto_fine a b : fine (dup_onto a b fs).
Proof. unfold dup_onto. repeat case_match; quietly. Qed.
Lemma dup_fine a b : finely (dup a b fs).
Proof. unfold dup. calls. apply dup_onto_fine. Qed.
Lemma dup_to_fine a b r : finely (dup_to a b r fs).
Proof. unfold dup_to. calls. apply dup_onto_fine. Qed.
Lemma fcntl_dup_fine fd r : finely (fcntl_dup fd r fs).
Proof. unfold fcntl_dup. calls; repeat case_match; quietly. Qed.
Lemma fcntl_setfl_fine fd a n : finely (fcntl_setfl fd a n fs).
Proof. unfold fcntl_setfl. calls; quietly. Qed.
Lemma lock_call_fine fd call : finely (lock_call fd call fs).
Proof. unfold lock_call. calls; quietly. Qed.
Lemma flock_fine fd op : finely (flock_fd env fd op fs).
Proof. apply lock_call_fine. Qed.
Lemma fcntl_lock_fine fd pid cmd arg : finely (fcntl_lock env fd pid cmd arg fs).
Proof. apply lock_call_fine. Qed.
Lemma fdopendir_fine fd : finely (fdopendir fd fs).
Proof. unfold fdopendir. calls; quietly. Qed.
Lemma readdir_fine fd : finely (readdir env fd fs).
Proof. unfold readdir. calls; quietly. Qed.
Lemma getdents_fine fd buf len : fine (snd (getdents64 env fd buf len fs)).
Proof. unfold getdents64, list_access. repeat (case_match; try done); cbn [snd]; quietly. Qed.
Lemma closedir_fine fd ret : finely (closedir fd ret fs).
Proof. unfold closedir. calls. apply close_fine. Qed.
End quiet.

(** A call that does not panic, with what it leaves when it succeeds *)
Lemma finely_of {A} (m : Res (A * Vfs)) : good m → (∀ a fs', m = Ok (a, fs') → fine fs') → finely m.
Proof. destruct m as [| |[a fs']|]; cbn; try done. intros _ H. by eapply H. Qed.
Lemma settled_fine {A} (m : Res (A * Vfs)) fs : fine fs → finely m → fine (snd (settle_call m fs)).
Proof. destruct m as [| |[a fs']|]; done. Qed.

Lemma write_inode_fine env memory i start bytes fs w fs' : fine fs → write_inode env memory i start bytes fs = Ok (w, fs') → fine fs'.
Proof.
  intros Hf. unfold write_inode. destruct (inodes fs !! i) as [n|]; [|done]. cbn. destruct (sparse_write _ _ _ _ _) as [[[[e|k] d] v]|]; try done. intros [= <- <-]. quietly.
Qed.

(** What a tree with no orphans has where a node may be made *)
Lemma parent_inr (t : Tree) p par : parent t p = inr par → ∃ c q, p = c :: q ∧ t !! q = Some (VDir par).
Proof.
  unfold parent. case_match; [done|]. destruct p as [|c q]; [done|]. cbn. destruct (t !! q) as [[]|] eqn:E; try done. intros [= <-]. by exists c, q.
Qed.

Section make.
Context (fs fs' : Vfs) (Hc : core fs) (Hf : fine fs) (p : path) (n : VNode) (k : kind) (par : Z) (o : node) (now : Z).
Local Abbreviation i := (next_inode fs).
Context (Hp : tree fs !! p = None) (Hpar : parent (tree fs) p = inr par) (Hi : node_inode n = i) (Hk : node_kind n = k).
Context (Ht : tree fs' = <[p := n]> (tree fs)) (Hn : inodes fs' = <[i := inode_new [] k now o]> (inodes fs)).

Lemma next_unnamed r m : tree fs !! r = Some m → node_inode m ≠ i.
Proof.
  intros Hm E. pose proof (ro_names _ _ _ (proj1 Hc) r m Hm) as H. rewrite E, kinds_lookup in H. destruct (inodes fs !! i) eqn:Ei; [|done].
  assert (i < i) by (apply (sk_next _ (proj2 Hc)); by eexists). lia.
Qed.
Lemma counts_made : counts fs' = <[i := (k, links (inode_new [] k now o))]> (counts fs).
Proof using Hn. unfold counts. rewrite Hn, fmap_insert. done. Qed.

Lemma fine_make_leaf : is_dir_node n = false → fine fs'.
Proof.
  intros Hd. destruct (parent_inr _ _ _ Hpar) as (c & q & -> & Hq). unfold fine. rewrite Ht, counts_made. eapply linked_add_leaf; try done.
  - intros r m Hm E. rewrite Hi in E. by destruct (next_unnamed r m Hm).
  - rewrite Hi, lookup_insert_eq, Hk. unfold names_of. rewrite count_zero; [by destruct n; subst k|]. intros r m Hm E. by apply (next_unnamed r m Hm).
  - intros j Hj. rewrite lookup_insert_ne by congruence. done.
Qed.
Lemma fine_make_dir g : n = VDir i → fine (upd_inode par (λ n, touch g (add_links 1 n)) fs').
Proof.
  intros ->. destruct (parent_inr _ _ _ Hpar) as (c & q & -> & Hq). unfold fine. change (tree (upd_inode _ _ fs')) with (tree fs'). rewrite Ht.
  eapply linked_add_dir; try done; [apply next_unnamed|..].
  - rewrite (counts_upd _ _ 1) by done. unfold bumped. rewrite counts_made, decide_False; [|intros E; apply (next_unnamed q (VDir par)); done].
    rewrite lookup_insert_eq. by subst k.
  - intros j Hj. rewrite (counts_upd _ _ 1) by done. unfold bumped. rewrite counts_made, lookup_insert_ne by done. done.
Qed.
End make.

Lemma sum_ok {A} (m : errno + A) a : of_sum m = Ok a → m = inr a.
Proof. destruct m; cbn; congruence. Qed.
Lemma none_of {A} (x : option A) : bool_decide (is_Some x) = false → x = None.
Proof. intros H%bool_decide_eq_false. by apply eq_None_not_Some. Qed.
(** What the guards of a call that succeeded say *)
Ltac guards := repeat match goal with
  | H : of_sum _ = Ok _ |- _ => apply sum_ok in H
  | H : of_option _ = Ok _ |- _ => apply of_option_ok in H
  | H : fail_if _ _ = Ok _ |- _ => apply fail_ok in H
  | H : bool_decide (is_Some _) = false |- _ => apply none_of in H
  end.

Section calls.
Context (env : Env) (ino_of : path → Z) (memory : Z → bool) (fs : Vfs) (Hc : core fs) (Hf : fine fs).

Lemma write_fine fd bytes : fine (snd (write env memory fd bytes fs)).
Proof.
  unfold write. destruct (of_get fd (opens fs)) as [f|]; [|done]. destruct (negb (f_writable f)); [done|]. case_bool_decide; [done|]. cbv zeta.
  set (start := if f_append f then _ else _). destruct (write_inode _ _ _ _ _ _) as [| |[w fs2]|] eqn:E; try done. cbn. apply fine_opens.
  by eapply write_inode_fine in E.
Qed.
Lemma pwrite_fine fd bytes offset : finely (pwrite env memory fd bytes offset fs).
Proof.
  apply finely_of; [by apply pwrite_good|]. intros w fs'. unfold pwrite, fail_if. destruct (of_get fd (opens fs)) as [f|]; [|done]. cbn. destruct (offset <? 0); [done|]. cbn.
  destruct (negb (f_writable f)); [done|]. cbn. case_bool_decide; [by intros [= <- <-]|]. destruct (inodes fs !! f_inode f); [|done]. by apply write_inode_fine.
Qed.

Lemma mkdir_fine raw m : finely (mkdir env raw m fs).
Proof.
  unfold mkdir. calls. eapply make_yields; [done..|]. intros fs' i -> Hc' _ Ht Hn. cbn [yields snd]. guards.
  eapply (fine_make_dir fs fs' Hc Hf); try done; done.
Qed.
Lemma symlink_fine target raw : finely (symlink env target raw fs).
Proof.
  unfold symlink. calls. apply (make_yields fs Hc _ _ (λ i, VSymlink i _)); [done..|]. intros fs' i -> Hc' _ Ht Hn. cbn [yields snd]. guards.
  apply fine_quiet; [auto with snare|]. eapply (fine_make_leaf fs fs' Hc Hf); try done; done.
Qed.

Lemma fine_link s p n par g h : tree fs !! s = Some n → is_dir_node n = false → tree fs !! p = None → parent (tree fs) p = inr par →
  fine (with_tree (<[p := n]> (tree fs)) (upd_inode par (touch g) (upd_inode (node_inode n) (λ n, touch h (add_links 1 n)) fs))).
Proof.
  intros Hs Hd Hp Hpar. destruct (parent_inr _ _ _ Hpar) as (c & q & -> & Hq). unfold fine. change (tree (with_tree ?t _)) with t.
  change (counts (with_tree _ ?f)) with (counts f). rewrite counts_quiet by auto with snare. destruct (lk_kind _ _ Hf _ _ Hs) as [l Hl].
  eapply (linked_add_leaf _ (counts fs)); try done.
  - intros r m Hm E. destruct (lk_kind _ _ Hf _ _ Hm) as [l' Hl']. congruence.
  - rewrite (counts_upd _ _ 1) by done. unfold bumped, bump. rewrite decide_True, Hl by done. cbn. do 2 f_equal.
    rewrite (lk_leaf _ _ Hf _ _ _ Hl); [done|]. by destruct n.
  - intros j Hj. rewrite (counts_upd _ _ 1) by done. unfold bumped. by rewrite decide_False.
Qed.
Lemma link_fine from to : finely (link env from to fs).
Proof. unfold link. calls; guards; by eapply fine_link. Qed.

(** Nothing is under a directory that goes *)
Lemma nothing_under (t : Tree) p : existsb (λ x, negb (bool_decide (x.1 = p)) && under p x.1) (map_to_list t) = false → ∀ rest, rest ≠ [] → t !! (rest ++ p) = None.
Proof.
  intros H rest Hr. destruct (t !! (rest ++ p)) as [n|] eqn:E; [|done]. apply not_true_iff_false in H. destruct H. apply existsb_exists. exists (rest ++ p, n).
  split; [apply list_elem_of_In; by apply elem_of_map_to_list|]. cbn. apply andb_true_iff. split; [|apply under_app; by exists rest].
  apply negb_true_iff, bool_decide_eq_false. intros E'. apply (f_equal length) in E'. rewrite length_app in E'. destruct rest; [done|]. cbn in E'. lia.
Qed.

Lemma fine_unlink p n g : tree fs !! p = Some n → is_dir_node n = false →
  fine (upd_inode (node_inode n) (λ n, touch g (add_links (-1) n)) (with_tree (delete p (tree fs)) fs)).
Proof. intros Hp Hd. unfold fine. eapply (linked_drop_leaf (tree fs) (counts fs)); [done..|]. intros j. by rewrite (counts_upd _ _ (-1)). Qed.
Lemma unlink_fine raw : finely (unlink env raw fs).
Proof. unfold unlink. calls. guards. quietly; by eapply fine_unlink. Qed.

(** A directory's count as its host leaves it when the directory goes *)
Lemma tree_unlinked i fs' : tree (unlinked env i fs') = tree fs'.
Proof. unfold unlinked. by case_match. Qed.
Lemma counts_unlinked i fs' j : j ≠ i → counts (unlinked env i fs') !! j = counts fs' !! j.
Proof. intros Hj. unfold unlinked. case_match; [|done]. unfold counts. cbn. by rewrite !lookup_fmap, lookup_alter_ne. Qed.
Lemma unlinked_kind i fs' k l : counts fs' !! i = Some (k, l) → ∃ l', counts (unlinked env i fs') !! i = Some (k, l').
Proof.
  unfold unlinked. case_match; [|by eexists]. unfold counts. cbn. rewrite !lookup_fmap, lookup_alter_eq. destruct (inodes fs' !! i); [|done]. cbn. intros [= <- _]. by eexists.
Qed.

Lemma fine_rmdir p i par g : tree fs !! p = Some (VDir i) → (∀ rest, rest ≠ [] → tree fs !! (rest ++ p) = None) →
  (q ← parent_path p; delete p (tree fs) !! q) = Some (VDir par) →
  fine (upd_inode par (λ n, touch g (add_links (-1) n)) (unlinked env i (with_tree (delete p (tree fs)) fs))).
Proof.
  intros Hp Hno Hpar. destruct p as [|c q]; [done|]. cbn in Hpar. apply lookup_delete_Some in Hpar as [_ Hq].
  assert (par ≠ i) as Hne. { intros ->. apply (cons_neq c q). by eapply (lk_once _ _ Hf). }
  unfold fine. cbn [tree upd_inode with_inodes]. rewrite tree_unlinked. cbn [tree with_tree].
  destruct (lk_kind _ _ Hf _ _ Hp) as [l Hl]. cbn in Hl. eapply (linked_drop_dir _ (counts fs)); try done.
  - intros c'. by apply (Hno [c']).
  - rewrite (counts_upd _ _ (-1)) by done. unfold bumped. rewrite decide_False by done. by eapply unlinked_kind.
  - intros j Hj. rewrite (counts_upd _ _ (-1)) by done. unfold bumped. rewrite counts_unlinked by done. done.
Qed.

(** The directory a name is in, after another name is gone *)
Lemma parent_kept p n : p ≠ [] → tree fs !! p = Some n → ∃ par, (q ← parent_path p; delete p (tree fs) !! q) = Some (VDir par).
Proof.
  intros Hne Hp. destruct p as [|c q]; [done|]. destruct (lk_rooted _ _ Hf _ _ _ Hp) as [par Hq]. exists par. cbn. rewrite lookup_delete_ne by apply cons_neq. done.
Qed.

Lemma rmdir_fine raw : finely (rmdir env raw fs).
Proof.
  unfold rmdir. calls. guards. match goal with Hp : tree fs !! ?p = Some (VDir _), Hne : bool_decide (?p = []) = false |- _ =>
    apply bool_decide_eq_false in Hne; destruct (parent_kept _ _ Hne Hp) as [par Hpar] end.
  rewrite tree_unlinked. change (tree (with_tree ?t _)) with t. rewrite Hpar.
  apply fine_rmdir; [done| |done]. by apply nothing_under.
Qed.
End calls.

(** ** Renaming

    What a rename that succeeds has found and does: to the tree, to the link counts, to what is open. *)

(** *** What a rename has found *)

(** The path a call's argument comes to, the symlinks on its way followed *)
Definition resolves (env : Env) (raw : option (list Z)) (fs : Vfs) (p : path) : Prop :=
  ∃ bytes q, named_path env raw fs = Ok (bytes, q) ∧ traversal env (tree fs) fs bytes q true false = inr p.

Record may_move (t : Tree) (from to : path) (source : VNode) (tp : Z) : Prop := {
  mv_source : t !! from = Some source;
  mv_ne : from ≠ to;
  mv_parent : parent t to = inr tp;
  mv_under : is_dir_node source = true → under from to = false;
  mv_kind : is_Some (t !! to) → some_dir (t !! to) = is_dir_node source;
  mv_empty : is_dir_node source = true → some_dir (t !! to) = true → ∀ rest, rest ≠ [] → t !! (rest ++ to) = None;
}.

Lemma resolved env raw fs bytes q p : absolute env raw fs = Ok bytes → path_of (Some bytes) = Some q →
  traversal env (tree fs) fs bytes q true false = inr p → resolves env raw fs p.
Proof. intros Ha Hq Ht. exists bytes, q. split; [|done]. unfold named_path. rewrite Ha. cbn. change (of_option (path_of (Some bytes)) ≫= (λ p, Ok (bytes, p)) = Ok (bytes, q)). by rewrite Hq. Qed.

(** Either there is nothing to do, the two names being one inode's, or the way is free. *)
Lemma rename_spec env a b fs : yields (λ x, ∃ from to source, resolves env a fs from ∧ resolves env b fs to ∧ tree fs !! from = Some source ∧
  ((snd x = fs ∧ (node_inode <$> tree fs !! to) = Some (node_inode source)) ∨
   ∃ tp, may_move (tree fs) from to source tp ∧ snd x = apply_rename env from to source tp fs)) (rename env a b fs).
Proof.
  unfold rename. calls; guards;
  match goal with H7 : traversal _ _ _ ?x ?x1 _ _ = inr ?x7, H8 : traversal _ _ _ ?x0 ?x2 _ _ = inr ?x8, Hs : tree fs !! ?x7 = Some ?v |- _ =>
    exists x7, x8, v; split_and!; [by eapply resolved|by eapply resolved|done|] end.
  - left. split; [done|]. apply bool_decide_eq_true in Heqb0. subst. by rewrite Heqo.
  - left. split; [done|]. destruct (tree fs !! x8); [|done]. cbn. f_equal. lia.
  - right. exists x12. split; [|done]. apply bool_decide_eq_false in Heqb0. split; try done.
    + intros Hd. by rewrite Hd in H14.
    + intros Ht. rewrite (bool_decide_true _ Ht) in H17. destruct (is_dir_node v), (some_dir (tree fs !! x8)); done.
    + intros Hd Ht. rewrite Hd, Ht in H18. by apply nothing_under.
Qed.

(** *** The link counts *)

Section rename.
Context (fs : Vfs) (Hf : fine fs) (cf c : name) (qf q : path) (source : VNode) (tp : Z) (env : Env).
Local Abbreviation t := (tree fs).
Local Abbreviation from := (cf :: qf).
Local Abbreviation to := (c :: q).
Local Abbreviation d := (is_dir_node source).
Local Abbreviation target := (t !! to).
Context (Hs : t !! from = Some source) (Hne : from ≠ to) (Htp : t !! q = Some (VDir tp)) (Hu : d = true → under from to = false).
Context (Hkind : is_Some target → some_dir target = d) (Hempty : d = true → some_dir target = true → ∀ rest, rest ≠ [] → t !! (rest ++ to) = None).
Local Abbreviation fs1 := (replaced env target fs).

(** The counts when what is replaced has gone *)
Definition after_target : Vfs := if some_dir target then upd_inode tp (add_links (-1)) fs1 else fs1.

Lemma linked_after_target : linked (delete to t) (counts after_target).
Proof.
  unfold after_target, replaced. destruct (t !! to) as [n|] eqn:Et; [|by rewrite delete_id].
  cbn [some_dir] in *. cbv zeta. destruct (is_dir_node n) eqn:Ed.
  - destruct n as [|i|]; try done. cbn [node_inode]. assert (tp ≠ i) as Hni. { intros ->. apply (cons_neq c q). by eapply (lk_once _ _ Hf). }
    destruct (lk_kind _ _ Hf _ _ Et) as [l Hl]. cbn in Hl. assert (counts (upd_inode i (touch (mark_changed (now env))) fs) = counts fs) as Eq by (apply counts_quiet; auto with snare).
    eapply (linked_drop_dir _ (counts fs)); try done.
    + intros c'. apply (Hempty (eq_sym (Hkind ltac:(by eexists))) eq_refl [c']). done.
    + rewrite (counts_upd _ _ (-1)) by done. unfold bumped. rewrite decide_False by done. eapply unlinked_kind. by rewrite Eq.
    + intros j Hj. rewrite (counts_upd _ _ (-1)) by done. unfold bumped. rewrite counts_unlinked, Eq by done. done.
  - eapply (linked_drop_leaf _ (counts fs)); [done..|]. intros j. rewrite (counts_upd _ _ (-1)) by done. unfold bumped. rewrite counts_quiet by auto with snare. done.
Qed.

(** The directory a name was in is not the one it replaces *)
Lemma parent_not_target fp : t !! qf = Some (VDir fp) → qf ≠ to.
Proof.
  intros Hq E. assert (some_dir target = true) as Hd by (by rewrite <- E, Hq). assert (d = true) as Hsd by (rewrite <- Hkind; [done|by rewrite <- E, Hq]).
  specialize (Hempty Hsd Hd [cf] ltac:(done)). cbn in Hempty. rewrite <- E in Hempty. congruence.
Qed.

Lemma fine_rename fp : t !! qf = Some (VDir fp) →
  let fs3 := with_tree (move_tree from to d (delete to t)) fs1 in
  tree fs3 !! qf = Some (VDir fp) ∧
  fine (if d then let fs4 := upd_inode fp (add_links (-1)) fs3 in if some_dir target then fs4 else upd_inode tp (add_links 1) fs4 else fs3).
Proof.
  intros Hfp. pose proof (parent_not_target fp Hfp) as Hnt. pose proof linked_after_target as Hl.
  assert (delete to t !! from = Some source) as H1 by (by rewrite lookup_delete_ne). assert (delete to t !! qf = Some (VDir fp)) as H2 by (by rewrite lookup_delete_ne).
  assert (delete to t !! to = None) as H3 by apply lookup_delete_eq. assert (delete to t !! q = Some (VDir tp)) as H4 by (rewrite lookup_delete_ne; [done|apply cons_neq]).
  cbv zeta. split.
  - pose proof (rl_to _ _ _ (move_relabelled _ _ Hl cf c qf q source H3) _ _ H2) as H. by rewrite relabel_fp in H.
  - pose proof (linked_move _ _ Hl cf c qf q source fp tp H1 H2 H3 H4 Hu) as Hm. unfold after_target in Hm. destruct d eqn:Ed; [|].
    + destruct (some_dir target).
      * apply Hm. intros j. rewrite (counts_upd _ _ (-1)) by done. unfold bumped. rewrite (counts_upd _ _ (-1)) by done. unfold bumped, bump.
        change (counts (with_tree _ ?f)) with (counts f). destruct (counts fs1 !! j) as [[k l]|]; repeat case_decide; cbn; try done; do 2 f_equal; lia.
      * apply Hm. intros j. rewrite (counts_upd _ _ 1) by done. unfold bumped. rewrite (counts_upd _ _ (-1)) by done. unfold bumped, bump.
        change (counts (with_tree _ ?f)) with (counts f). destruct (counts fs1 !! j) as [[k l]|]; repeat case_decide; cbn; try done; do 2 f_equal; lia.
    + destruct (some_dir target) eqn:Et; [|by apply Hm]. exfalso. assert (is_Some target) as Hs' by (by destruct target). specialize (Hkind Hs'). congruence.
Qed.
End rename.

(** A name that can move is in a directory *)
Lemma source_parent t L from to source tp : linked t L → may_move t from to source tp →
  ∃ cf qf fp c q, from = cf :: qf ∧ t !! qf = Some (VDir fp) ∧ to = c :: q ∧ t !! q = Some (VDir tp).
Proof.
  intros Hl [Hs Hne Hp Hu _ _]. destruct (parent_inr _ _ _ Hp) as (c & q & -> & Hq). destruct from as [|cf qf].
  - exfalso. assert (∃ i, t !! [] = Some (VDir i)) as [i Hi].
    { destruct q as [|c' q']; [by eexists|]. eapply (rooted_under t [] (c' :: q')); [apply Hl|by rewrite app_nil_r|done]. }
    rewrite Hs in Hi. injection Hi as ->. specialize (Hu eq_refl). apply not_true_iff_false in Hu. apply Hu, under_app. exists (c :: q). by rewrite app_nil_r.
  - destruct (lk_rooted _ _ Hl _ _ _ Hs) as [fp Hfp]. by exists cf, qf, fp, c, q.
Qed.

Lemma apply_rename_fine env from to source tp fs : fine fs → may_move (tree fs) from to source tp → fine (apply_rename env from to source tp fs).
Proof.
  intros Hf Hm. destruct (source_parent _ _ _ _ _ _ Hf Hm) as (cf & qf & fp & c & q & -> & Hfp & -> & Htp).
  unfold apply_rename. set (fsA := upd_inode (node_inode source) _ _). assert (tree fsA = tree fs) as Et by (unfold fsA; by case_match).
  assert (fine fsA) as HfA by (unfold fsA; quietly). cbv zeta. clearbody fsA. rewrite <- Et in *. destruct Hm as [H1 H2 H3 H4 H5 H6].
  destruct (fine_rename fsA HfA cf c qf q source tp env H1 H2 Htp H4 H5 H6 fp Hfp) as [Hq Hfin]. cbn [parent_path mbind option_bind]. rewrite Hq. done.
Qed.

Lemma rename_fine env a b fs : fine fs → finely (rename env a b fs).
Proof.
  intros Hf. pose proof (rename_spec env a b fs) as H. destruct (rename env a b fs) as [| |[u fs']|]; try done.
  cbn [yields snd] in *. destruct H as (from & to & source & _ & _ & _ & [[-> _]|(tp & Hm & ->)]); [done|]. by apply apply_rename_fine.
Qed.

(** *** The tree *)

Section moved.
Context (t : Tree) (L : Counts) (Hl : linked t L) (from to : path) (source : VNode) (tp : Z) (Hm : may_move t from to source tp).

(** Neither name is under the other *)
Lemma not_under_from rest : to ≠ rest ++ from.
Proof.
  intros E. destruct Hm as [Hs Hne Hp Hu _ _]. destruct (parent_inr _ _ _ Hp) as (c & q & Et & Hq). destruct (decide (is_dir_node source = true)) as [Hd|Hd].
  - specialize (Hu Hd). apply not_true_iff_false in Hu. apply Hu, under_app. by exists rest.
  - destruct rest as [|x rest]; [done|]. rewrite Et in E. injection E as <- ->. assert (∃ i, t !! from = Some (VDir i)) as [i Hi].
    { destruct rest as [|y rest]; [by eexists|]. by eapply (rooted_under t from (y :: rest)); [apply Hl|..]. }
    rewrite Hs in Hi. injection Hi as ->. by apply Hd.
Qed.
Lemma not_under_to rest : from ≠ rest ++ to.
Proof.
  intros E. destruct Hm as [Hs Hne Hp _ Hk He]. destruct rest as [|x rest]; [done|]. rewrite E in Hs.
  destruct (rooted_under t to (x :: rest) source (lk_rooted _ _ Hl) Hs) as [i Hi]; [done|]. rewrite Hi in *. specialize (Hk ltac:(by eexists)). cbn in Hk.
  rewrite (He (eq_sym Hk) eq_refl (x :: rest) ltac:(done)) in Hs. done.
Qed.
(** What is under what moves moves with it *)
Lemma under_source rest m : t !! (rest ++ from) = Some m → moves from (is_dir_node source) (rest ++ from) = true.
Proof.
  intros H. unfold moves. destruct rest as [|x rest]; [by rewrite bool_decide_true|].
  destruct (rooted_under t from (x :: rest) m (lk_rooted _ _ Hl) H) as [i Hi]; [done|]. rewrite (mv_source _ _ _ _ _ Hm) in Hi. injection Hi as ->.
  cbn [is_dir_node andb]. apply orb_true_iff. right. apply under_app. by exists (x :: rest).
Qed.
(** Nothing but the target itself is where things move to *)
Lemma under_target rest : rest ≠ [] → t !! (rest ++ to) = None.
Proof.
  intros Hr. destruct (t !! (rest ++ to)) as [m|] eqn:E; [|done]. destruct (rooted_under t to rest m (lk_rooted _ _ Hl) E Hr) as [i Hi].
  destruct Hm as [_ _ _ _ Hk He]. rewrite Hi in *. specialize (Hk ltac:(by eexists)). rewrite (He (eq_sym Hk) eq_refl rest Hr) in E. done.
Qed.

Lemma moved_there rest : move_tree from to (is_dir_node source) (delete to t) !! (rest ++ to) = t !! (rest ++ from).
Proof.
  destruct (t !! (rest ++ from)) as [m|] eqn:E.
  - rewrite <- (destination_app from to rest). apply move_tree_moved; [|by eapply under_source]. rewrite lookup_delete_ne; [done|apply not_under_from].
  - rewrite move_tree_kept.
    + destruct (moves from _ (rest ++ to)); [done|]. destruct rest as [|x rest]; [apply lookup_delete_eq|]. apply lookup_delete_None. right. by apply under_target.
    + intros r [rest' ->]%moves_app [m Hr%lookup_delete_Some]. rewrite destination_app. intros ->%app_inv_tail. destruct Hr. congruence.
Qed.
Lemma moved_away rest : move_tree from to (is_dir_node source) (delete to t) !! (rest ++ from) = None.
Proof.
  rewrite move_tree_kept.
  - destruct (moves from _ (rest ++ from)) eqn:E; [done|]. apply lookup_delete_None. right. destruct (t !! (rest ++ from)) eqn:E'; [|done]. by rewrite (under_source rest v) in E.
  - intros r [rest' ->]%moves_app _. rewrite destination_app. intros E. apply app_eq_inv in E as [(k & _ & E)|(k & _ & E)]; [by eapply not_under_from|by eapply not_under_to].
Qed.
Lemma moved_elsewhere p : under from p = false → under to p = false → move_tree from to (is_dir_node source) (delete to t) !! p = t !! p.
Proof.
  intros Hf Ht. apply not_true_iff_false in Hf, Ht. rewrite under_app in Hf, Ht. rewrite move_tree_kept.
  - destruct (moves from _ p) eqn:E; [by apply moves_app in E|]. rewrite lookup_delete_ne; [done|]. intros <-. apply Ht. by exists [].
  - intros r [rest ->]%moves_app _ ->. apply Ht. rewrite destination_app. by exists rest.
Qed.
End moved.

(** *** What a rename does *)

(** What of a file system a change of names leaves: every inode's bytes, kind, owner and locks, and all that is open *)
Record unmoved (fs fs' : Vfs) : Prop := {
  um_inodes i n : inodes fs !! i = Some n → ∃ n', inodes fs' !! i = Some n' ∧ ikind n' = ikind n ∧ data n' = data n ∧ owner_ n' = owner_ n ∧ locks n' = locks n;
  um_opens : opens fs' = opens fs;
  um_dirs : dirs fs' = dirs fs ∧ streams fs' = streams fs;
  um_cwd : cwd fs' = cwd fs;
  um_volume : volume fs' = volume fs;
}.
Lemma unmoved_refl fs : unmoved fs fs.
Proof. split; try done. intros i n Hn. by exists n. Qed.
Lemma unmoved_tree t fs fs' : unmoved fs fs' → unmoved fs (with_tree t fs').
Proof. by intros []; split. Qed.
Lemma unmoved_upd i f fs fs' : (∀ n, ikind (f n) = ikind n ∧ data (f n) = data n ∧ owner_ (f n) = owner_ n ∧ locks (f n) = locks n) →
  unmoved fs fs' → unmoved fs (upd_inode i f fs').
Proof.
  intros Hf [Hi Ho Hd Hc Hv]. split; try done. intros j n Hn. destruct (Hi j n Hn) as (n' & Hn' & E1 & E2 & E3 & E4). cbn.
  destruct (decide (i = j)) as [<-|]; [|exists n'; by rewrite lookup_alter_ne]. exists (f n'). rewrite lookup_alter_eq, Hn'. destruct (Hf n') as (-> & -> & -> & ->). done.
Qed.

Lemma apply_rename_unmoved env from to source tp fs : unmoved fs (apply_rename env from to source tp fs) ∧
  tree (apply_rename env from to source tp fs) = move_tree from to (is_dir_node source) (delete to (tree fs)).
Proof.
  unfold apply_rename, replaced, unlinked. split.
  - repeat match goal with
    | |- unmoved _ (match ?x with _ => _ end) => destruct x
    | |- unmoved _ (with_tree _ _) => apply unmoved_tree
    | |- unmoved _ (upd_inode _ _ _) => apply unmoved_upd; [done|]
    | |- unmoved ?f ?f => apply unmoved_refl
    | |- _ => progress cbv zeta
    end.
  - cbv zeta. destruct (is_dir_node source); [|done]. destruct (some_dir _); cbn [tree upd_inode with_inodes]; by repeat case_match.
Qed.
