(* ===== verification/FsLinkProps.v ===== *)
(** * The link counts through any run

    [open], the end of a call and the builder against [linked], and the counts of any run of a
    file system whose declared names are all in directories. *)

From S2P Require Import Prelude Bytes FsLocks FsPerm FsData FsDataProps FsTree FsCalls FsFds FsSys FsInv FsInvCalls FsProps FsLinks FsLinkCalls.

(** ** Opening *)

Section open.
Context (env : Env) (ino_of : path → Z) (fs : Vfs) (Hc : core fs) (Hf : fine fs).

Lemma open_directory_fine i flags newfd : finely (open_directory_inode env ino_of i flags newfd fs).
Proof. unfold open_directory_inode. calls; quietly. Qed.

Lemma truncate_fine i b fs' : fine fs' → fine (truncate_open env i b fs').
Proof.
  intros H. unfold truncate_open. destruct (inodes fs' !! i) as [n|] eqn:E; [|done]. destruct (clear _ _) as [d v]. cbv zeta. apply fine_volume. unfold fine.
  rewrite counts_same; [done|]. intros n' Hn'. rewrite E in Hn'. injection Hn' as <-. destruct b; [done|].
  pose proof (quiet_wrote (os env) (caller env) true (modify (now env)) d n) as Hq. done.
Qed.

(** Where [open] makes a file, there is none, and a directory to make it in *)
Lemma open_plan_creates raw flags m : yields (λ x, match snd x with Creates _ _ => tree fs !! fst x = None ∧ ∃ par, parent (tree fs) (fst x) = inr par | _ => True end)
  (open_plan env raw flags m fs).
Proof. unfold open_plan. calls; try done. guards. by eauto. Qed.

Lemma open_with_fine p o flags newfd :
  match o with Creates _ _ => tree fs !! p = None ∧ ∃ par, parent (tree fs) p = inr par | _ => True end → fine (snd (open_with env ino_of p o flags newfd fs)).
Proof.
  intros Ho. unfold open_with. destruct o as [i d w|o w], newfd as [e|fd]; try done.
  - cbn [snd]. destruct (negb d && o_trunc flags); quietly; by apply truncate_fine.
  - destruct Ho as [Hp [par Hpar]]. apply settled_fine; [done|]. eapply (make_yields fs Hc _ p VFile File); [done..|]. intros fs' i -> Hc' _ Ht Hn. cbn [yields snd].
    assert (fine fs') as Hf' by (eapply (fine_make_leaf fs fs' Hc Hf); try done; done). destruct (o_trunc flags); quietly; apply truncate_fine; quietly.
Qed.

Lemma open_fine raw flags m newfd : fine (snd (open env ino_of raw flags m newfd fs)).
Proof.
  unfold open. destruct (retained_directory env AT_FDCWD raw fs) as [[e|i]|] eqn:E; [done|apply settled_fine; [done|apply open_directory_fine]|].
  pose proof (open_plan_creates raw flags m) as Hp. destruct (open_plan env raw flags m fs) as [|e|[p o]|]; try done. by apply open_with_fine.
Qed.
Lemma openat_fine fd raw flags m newfd : fine (snd (openat env ino_of fd raw flags m newfd fs)).
Proof.
  unfold openat. destruct (retained_directory env fd raw fs) as [[e|i]|] eqn:E; [done|apply settled_fine; [done|apply open_directory_fine]|].
  destruct (resolve_at fd raw fs) as [|e|bytes|]; try done. apply open_fine.
Qed.
Lemma opendir_fine raw newfd : fine (snd (opendir env ino_of raw newfd fs)).
Proof.
  unfold opendir. pose proof (open_fine raw (mk_flags RdOnly false false false false false false true false false) 0 newfd) as H.
  destruct (open _ _ _ _ _ _ fs) as [[| |fd|] fs']; try done. apply settled_fine; [done|]. by apply fdopendir_fine.
Qed.

Lemma mkdirat_fine fd raw m : finely (mkdirat env fd raw m fs).
Proof. unfold mkdirat. calls. by apply mkdir_fine. Qed.
Lemma unlinkat_fine fd raw d u : finely (unlinkat env fd raw d u fs).
Proof. unfold unlinkat. calls; [by apply rmdir_fine|by apply unlink_fine]. Qed.
Lemma renameat_fine a b c d : finely (renameat env a b c d fs).
Proof. unfold renameat. calls. by apply rename_fine. Qed.
Lemma symlinkat_fine t fd raw : finely (symlinkat env t fd raw fs).
Proof. unfold symlinkat. calls. by apply symlink_fine. Qed.
Lemma linkat_fine a b c d f u : finely (linkat env a b c d f u fs).
Proof. unfold linkat. calls. by apply link_fine. Qed.
End open.

(** ** Runs *)

Section run.
Context (ino_of : path → Z) (memory : Z → bool).

Lemma settled_finely {A} (m : Res (A * Vfs)) fs : fine fs → finely m → fine (snd (let '(r, fs) := settle_call m fs in (forget_value r, fs))).
Proof. intros Hf Hm. pose proof (settled_fine m fs Hf Hm). by destruct (settle_call m fs). Qed.

Hint Resolve mkdirat_fine symlinkat_fine linkat_fine unlinkat_fine renameat_fine chdir_fine fchdir_fine set_times_fine chmod_fine chown_fine
  openat_fine read_fine pread_fine write_fine pwrite_fine ftruncate_fine lseek_fine close_fine fd_replaced_fine dup_fine dup_to_fine
  fcntl_dup_fine fcntl_setfl_fine flock_fine fcntl_lock_fine opendir_fine fdopendir_fine readdir_fine closedir_fine getdents_fine : core.
Lemma handle_fine env c fs : core fs → fine fs → fine (snd (handle ino_of memory env c fs)).
Proof. intros Hc Hf. destruct c; cbn [handle]; try (apply settled_finely; [done|auto]); try (cbn [snd]; auto). Qed.

Lemma collect_fine fs : core fs → fine fs → fine (collect fs).
Proof.
  intros Hc [H1 H2 H3 H4 H5].
  assert (∀ i x, counts (collect fs) !! i = Some x → counts fs !! i = Some x) as Hsub.
  { intros i x. unfold counts. rewrite !lookup_fmap. cbn. rewrite map_lookup_filter. destruct (inodes fs !! i); [|done]. cbn. by case_guard. }
  split; try done.
  - intros i k l Hi. by apply (H2 i k), Hsub.
  - intros i l p Hi. by apply (H3 i), Hsub.
  - intros p n Hp. destruct (H4 p n Hp) as [l Hl]. exists l. unfold counts in *. rewrite lookup_fmap in *. cbn. rewrite map_lookup_filter.
    destruct (inodes fs !! node_inode n) as [x|]; [|done]. cbn in *. rewrite option_guard_True; [done|]. apply elem_of_refs. left. by exists p, n.
Qed.

Lemma run_fine cs fs fs' : consistent fs → fine fs → run ino_of memory cs fs = Some fs' → fine fs'.
Proof.
  revert fs. induction cs as [|[env c] cs IH]; intros fs Hc Hf; cbn [run]; [by intros [= <-]|]. pose proof (step_consistent ino_of memory env c fs (proj1 Hc)) as [_ Hc'].
  pose proof (handle_fine env c fs (proj1 Hc) Hf) as Hh. pose proof (handle_good ino_of memory env c fs (proj1 Hc)) as [_ Hg]. unfold step in *.
  destruct (handle ino_of memory env c fs) as [r fs1]. cbn in *. destruct r; try done; intros; eapply IH; try done; by apply collect_fine.
Qed.
End run.

(** ** Building *)

Lemma declared_once b p n : builder_ok b → b_tree b !! p = Some n → names_of (b_tree b) (node_inode n) = 1.
Proof.
  intros Hb Hp. pose proof (names_of_delete p n (b_tree b) (node_inode n) Hp) as H. rewrite bool_decide_true in H by done.
  unfold names_of in H at 1. rewrite count_zero in H; [cbn in H; lia|]. intros q m [Hne Hq]%lookup_delete_Some E. apply Hne. by eapply (bk_once b Hb).
Qed.

Lemma new_fine b user fs : builder_ok b → rooted (b_tree b) → fs_new b user = Some fs → fine fs.
Proof.
  intros Hb Hr Hn. pose proof (new_core b user fs Hb Hn) as [[[Hk Ho _ _ _ _ _] _] _]. unfold fs_new in Hn. destruct (attach_all _ _) as [v|]; [|done]. cbn in Hn.
  case_match; [|done]. injection Hn as <-. cbn in *.
  assert (∀ i k l, counts (mk_vfs (b_tree b) (declared_inodes b user) (Z.lor (b_next_inode b) 1) None v opens_default opens_default ∅ 0 1) !! i = Some (k, l) →
    ∃ p n, b_tree b !! p = Some n ∧ node_inode n = i ∧ k = node_kind n ∧ l = if is_dir_node n then 2 + child_dirs (b_tree b) p else 1) as Hcount.
  { intros i k l. unfold counts. cbn. rewrite lookup_fmap. destruct (declared_inodes b user !! i) as [x|] eqn:E; [|done]. cbn.
    apply declared_inodes_Some in E as (p & n & Hp & <- & ->); [|done]. intros [= <- <-]. exists p, n. destruct (bk_nodes b Hb p n Hp) as [_ (j & Hj & Ek & _ & El)].
    destruct (declared_inode_same b user p n j Hj) as [-> _]. split_and!; try done. unfold declared_inode. rewrite Hj. cbn. destruct (default _ _).
    destruct n; cbn; rewrite El, ?Ek; cbn; lia. }
  split; cbn [tree]; try done.
  - intros i k l Hi Hkd. apply Hcount in Hi as (p & n & Hp & <- & -> & ->). rewrite (declared_once b p n Hb Hp). by destruct n.
  - intros i l p Hi Hp. apply Hcount in Hi as (q & n & Hq & E & _ & ->). assert (p = q) as -> by (by eapply (bk_once b Hb)). rewrite Hp in Hq. by injection Hq as <-.
  - intros p n Hp. specialize (Hk p n Hp). rewrite kinds_lookup in Hk. unfold counts. cbn. rewrite lookup_fmap. destruct (declared_inodes b user !! node_inode n) as [x|]; [|done].
    cbn in *. injection Hk as ->. by eexists.
Qed.

Lemma attach_fine b user now fs : fine fs → fine (fs_attach b user now fs).
Proof.
  intros Hf. unfold fs_attach. generalize (map_to_list (b_tree b)). intros l. induction l as [|[p n] l IH]; [done|]. cbn. apply fine_quiet; [|done].
  intros m. unfold stamp_inode. by destruct (b_owners b !! p).
Qed.

(** C9: in a file system whose declared names are all in directories, through any run every name stays in a directory, the link count of a file or a symlink is the
    number of its names, and that of a directory with a name is two and the number of its subdirectories. *)
Theorem links_counted ino_of memory os ds user at_ fs0 cs fs :
  Forall declaration_ok ds → rooted (b_tree (build os ds)) → fs_new (build os ds) user = Some fs0 →
  run ino_of memory cs (fs_attach (build os ds) user at_ fs0) = Some fs →
  rooted (tree fs) ∧ ∀ p n, tree fs !! p = Some n → ∃ i, inodes fs !! node_inode n = Some i ∧
    links i = match n with VDir _ => 2 + child_dirs (tree fs) p | _ => names_of (tree fs) (node_inode n) end.
Proof.
  intros Hds Hr Hnew Hrun. pose proof (build_ok os ds Hds) as Hb. apply run_fine in Hrun as [H1 H2 H3 H4 _].
  - split; [done|]. intros p n Hp. destruct (H4 p n Hp) as [l Hl]. pose proof Hl as Hc. unfold counts in Hl. rewrite lookup_fmap in Hl.
    destruct (inodes fs !! node_inode n) as [x|]; [|done]. exists x. split; [done|]. cbn in Hl. injection Hl as _ ->.
    destruct n; [by apply (H2 _ _ _ Hc)|by apply (H3 _ _ p Hc)|by apply (H2 _ _ _ Hc)].
  - by eapply attach_consistent, new_core.
  - by eapply attach_fine, new_fine.
Qed.
Lemma links_counted_witness : rooted (tree sample_after) ∧ ∀ p n, tree sample_after !! p = Some n → ∃ i, inodes sample_after !! node_inode n = Some i ∧
  links i = match n with VDir _ => 2 + child_dirs (tree sample_after) p | _ => names_of (tree sample_after) (node_inode n) end.
Proof.
  apply (links_counted no_ino (λ _, true) Linux sample_declarations sample_user 5 sample_new sample_calls sample_after);
    [exact sample_declared|by apply rootedb_ok; vm_compute|exact sample_new_Some|by vm_compute].
Defined.

(** ** Renaming *)

(** C18: in a file system whose names are all in directories and whose link counts are right, a rename that succeeds has taken both its paths through the symlinks on
    their way, and either the two were names of one inode already, and it changes nothing, or what was at the source, with everything under it, is now at the target
    and nothing of it is left where it was; whatever the target named before is gone, and every other name is as it was. No inode changes its bytes, its kind, its
    owner or its locks, and descriptors, directory streams and the working directory are the same. *)
Theorem rename_moves env a b fs fs' : fine fs → rename env a b fs = Ok (tt, fs') →
  ∃ from to source, resolves env a fs from ∧ resolves env b fs to ∧ tree fs !! from = Some source ∧
    ((fs' = fs ∧ (node_inode <$> tree fs !! to) = Some (node_inode source)) ∨
     ((∀ rest, tree fs' !! (rest ++ to) = tree fs !! (rest ++ from)) ∧ (∀ rest, tree fs' !! (rest ++ from) = None) ∧
      (∀ p, under from p = false → under to p = false → tree fs' !! p = tree fs !! p) ∧ unmoved fs fs')).
Proof.
  intros Hf E. pose proof (rename_spec env a b fs) as H. rewrite E in H. cbn [yields snd] in H.
  destruct H as (from & to & source & Ha & Hb & Hs & Hc). exists from, to, source. split_and!; try done.
  destruct Hc as [[-> Hi]|(tp & Hm & ->)]; [by left|]. right. destruct (apply_rename_unmoved env from to source tp fs) as [Hu Ht]. rewrite Ht. split_and!; try done.
  - intros rest. by eapply moved_there.
  - intros rest. by eapply moved_away.
  - intros p. by eapply moved_elsewhere.
Qed.
Definition sample_renamed : Vfs := match rename (sample_env 6) (Some (bytes "/a")) (Some (bytes "/d")) sample_fs with Ok (_, fs) => fs | _ => no_files end.
Lemma rename_moves_witness : ∃ from to source, resolves (sample_env 6) (Some (bytes "/a")) sample_fs from ∧ resolves (sample_env 6) (Some (bytes "/d")) sample_fs to ∧
  tree sample_fs !! from = Some source ∧
  ((sample_renamed = sample_fs ∧ (node_inode <$> tree sample_fs !! to) = Some (node_inode source)) ∨
   ((∀ rest, tree sample_renamed !! (rest ++ to) = tree sample_fs !! (rest ++ from)) ∧ (∀ rest, tree sample_renamed !! (rest ++ from) = None) ∧
    (∀ p, under from p = false → under to p = false → tree sample_renamed !! p = tree sample_fs !! p) ∧ unmoved sample_fs sample_renamed)).
Proof.
  apply rename_moves; [|by vm_compute]. eapply attach_fine, new_fine; [apply build_ok, sample_declared|by apply rootedb_ok; vm_compute|exact sample_new_Some].
Defined.
