(* ===== verification/FsIo.v ===== *)
(** * Writing and reading through descriptors

    What a write through one descriptor does to the file and to what every descriptor reads. *)

From S2P Require Import Prelude Bytes FsLocks FsPerm FsData FsDataProps FsTree FsCalls FsFds FsSys FsInv FsInvCalls FsProps.

(** The bytes of a file *)
Definition file_bytes (fs : Vfs) (i : Z) : option (list Z) := (λ n, contents (data n)) <$> inodes fs !! i.

Lemma file_bytes_upd i f fs j : file_bytes (upd_inode i f fs) j = if decide (i = j) then (λ n, contents (data (f n))) <$> inodes fs !! i else file_bytes fs j.
Proof.
  unfold file_bytes. cbn. case_decide as E; [subst; rewrite lookup_alter_eq|by rewrite lookup_alter_ne]. by destruct (inodes fs !! j).
Qed.

(** Where a write goes *)
Definition write_start (f : OpenFile) (old : list Z) : Z := if f_append f then Z.of_nat (length old) else f_cursor f.

Section write.
Context (env : Env) (memory : Z → bool) (fs : Vfs) (Hc : core fs).

Lemma write_inode_bytes i n start bytes w fs' : inodes fs !! i = Some n → sparse_ok (data n) → 0 ≤ start →
  write_inode env memory i start bytes fs = Ok (w, fs') →
  (0 ≤ w ≤ Z.of_nat (length bytes) ∧ (bytes ≠ [] → 0 < w)) ∧ opens fs' = opens fs ∧
  file_bytes fs' i = Some (overwrite (Z.to_nat start) (take (Z.to_nat w) bytes) (contents (data n))) ∧ ∀ j, j ≠ i → file_bytes fs' j = file_bytes fs j.
Proof.
  intros Hn Hd Hs. unfold write_inode. rewrite Hn. cbn.
  destruct (sparse_write_ok memory start bytes (data n) (volume fs) Hd Hs) as (r & d & v & -> & Hd' & _ & _ & _ & _ & Hr). destruct r as [e|k]; [done|].
  destruct Hr as (Hk & Hpos & Hb). intros [= <- <-]. split; [done|]. split; [done|]. change (file_bytes (with_volume v ?f)) with (file_bytes f). split.
  - rewrite file_bytes_upd, decide_True, Hn by done. cbn. destruct (inode_wrote_same (os env) (caller env) false (touch (modify (now env)) (put_data d n))) as [_ ->]. cbn [data touch put_data]. by rewrite Hb.
  - intros j Hj. rewrite file_bytes_upd, decide_False; [done|]. by intros ->.
Qed.
End write.

(** What a descriptor reads of a file system whose tables are right *)
Lemma pread_bytes env fs fd f len offset bs : core fs → of_get fd (opens fs) = Some f → reads f = true → f_is_dir f = false → 0 ≤ len → 0 ≤ offset →
  file_bytes fs (f_inode f) = Some bs →
  ∃ fs', pread env fd len offset fs = Ok (take (Z.to_nat len) (drop (Z.to_nat offset) bs), fs').
Proof.
  intros Hc Hf Hr Hd Hl Ho Hb. unfold pread. rewrite Hf. cbn. rewrite Hr, Hd, andb_false_r. cbn. destruct (Z.ltb_spec offset 0); [lia|]. cbn.
  unfold file_bytes in Hb. destruct (inodes fs !! f_inode f) as [n|] eqn:E; [|done]. cbn in *. injection Hb as <-. eexists. do 2 f_equal.
  apply sparse_read_bytes; [by apply (sk_data _ (proj2 Hc) _ _ E)|done..].
Qed.

(** C19: a write through a descriptor that returns [w] wrote the first [w] of its bytes, at least one if there are any, where the descriptor stands or at the end
    of the file when it appends; the file has exactly those bytes there, with zeros before them if it ended earlier, and every other file what it had. The
    descriptor and its duplicates stand behind what was written, every other description is as it was, and any descriptor of that file open for reading reads the
    new bytes. *)
Theorem written_is_read env memory fs fd f old bytes w fs' :
  core fs → of_get fd (opens fs) = Some f → file_bytes fs (f_inode f) = Some old → bytes ≠ [] → write env memory fd bytes fs = (Ok w, fs') →
  let start := write_start f old in
  let new := overwrite (Z.to_nat start) (take (Z.to_nat w) bytes) old in
  0 < w ≤ Z.of_nat (length bytes) ∧
  file_bytes fs' (f_inode f) = Some new ∧ (∀ j, j ≠ f_inode f → file_bytes fs' j = file_bytes fs j) ∧
  (∀ fd', of_get fd' (opens fs') = if bool_decide (handles (opens fs) !! fd = handles (opens fs) !! fd') then put_cursor (start + w) <$> of_get fd' (opens fs)
                                   else of_get fd' (opens fs)) ∧
  ∀ env' fd' f' len offset, of_get fd' (opens fs') = Some f' → f_inode f' = f_inode f → reads f' = true → 0 ≤ len → 0 ≤ offset →
    ∃ fs'', pread env' fd' len offset fs' = Ok (take (Z.to_nat len) (drop (Z.to_nat offset) new), fs'').
Proof.
  intros Hc Hf Hold Hne E start new. pose proof (write_good env memory fs Hc fd bytes) as [_ Hc']. rewrite E in Hc'. cbn in Hc'.
  unfold write in E. rewrite Hf in E. destruct (f_writable f) eqn:Ew; [|done]. cbn [negb] in E. rewrite bool_decide_false in E by done.
  destruct (writable_file fs Hc fd f Hf Ew) as [Hk Hcu]. destruct (file_inode fs Hc _ Hk) as (n & Hn & Hkn & Hd). rewrite Hn in E.
  assert (old = contents (data n)) as -> by (unfold file_bytes in Hold; rewrite Hn in Hold; by injection Hold).
  assert ((if f_append f then flen (data n) else f_cursor f) = start) as Es.
  { unfold start, write_start. rewrite (contents_length (data n)) by apply Hd. done. }
  rewrite Es in E. assert (0 ≤ start) as Hs by (rewrite <- Es; destruct (f_append f); [apply Hd|done]). cbv zeta in E. clearbody start.
  set (fs1 := with_opens _ fs) in E. pose proof (write_inode_ok env memory fs1 ltac:(by apply cursor_core) (f_inode f) start bytes Hk Hs) as Hok.
  destruct (write_inode _ _ _ _ _ _) as [| |[w' fs2]|] eqn:E2; try done. destruct Hok as (_ & _ & Hkinds & _). cbn in E. injection E as <- <-.
  apply (write_inode_bytes env memory _ (f_inode f) n) in E2 as ((Hw & Hpos) & Ho & Hi & Hj); [|done..]. specialize (Hpos Hne).
  change (file_bytes (with_opens _ ?g)) with (file_bytes g). split_and!; try done; try lia.
  - intros fd'. cbn. rewrite Ho, of_get_update. cbn.
    assert (handles (of_update fd (put_cursor start) (opens fs)) = handles (opens fs)) as -> by (unfold of_update; by destruct (handles (opens fs) !! fd)).
    case_bool_decide as Ee; rewrite of_get_update; [rewrite bool_decide_true by done; by destruct (of_get fd' (opens fs))|by rewrite bool_decide_false].
  - intros env' fd' f' len offset Hf' Hi' Hr Hl Hoff. eapply pread_bytes; try done.
    + pose proof (fo_inode _ _ _ (kind_of_open _ Hc' fd' f' Hf')) as Hk'. rewrite Hi' in Hk'.
      change (kinds (inodes fs2) !! f_inode f = Some (if f_is_dir f' then Directory else File)) in Hk'. rewrite Hkinds in Hk'.
      change (kinds (inodes fs1)) with (kinds (inodes fs)) in Hk'. rewrite Hk in Hk'. by destruct (f_is_dir f').
    + rewrite Hi'. exact Hi.
Qed.
Definition sample_open : OpenFile := mk_open 11 3 true false (status_flags for_writing) false None 2.
Definition sample_written : Vfs := snd (write (sample_env 7) (λ _, true) 4 [9; 8] sample_after).
Lemma written_is_read_witness : file_bytes sample_written 11 = Some [1; 2; 3; 9; 8].
Proof.
  destruct (written_is_read (sample_env 7) (λ _, true) sample_after 4 sample_open [1; 2; 3] [9; 8] 2 sample_written) as (_ & H & _);
    [apply sample_consistent|by vm_compute..|exact H].
Defined.

(** A file system of one page, a file open for writing, and more than a page to write *)
Definition one_page : FsBuilder := build Linux [DOwn (bytes "/"); DFile (bytes "/f") []; DLimit 4096].
Definition one_page_fs : Vfs :=
  snd (openat (mk_env Linux (b_rules one_page) sample_user 6 (inl ENOENT)) no_ino AT_FDCWD (Some (bytes "/f")) for_writing 420 (inr 4)
         (default no_files (fs_new one_page sample_user))).
(** A write that finds room for a part of its bytes writes that part and says so. *)
Theorem write_may_be_short : fst (write (sample_env 7) (λ _, true) 4 (replicate 5000 1) one_page_fs) = Ok 4096.
Proof. by vm_compute. Qed.

(** ** A directory stream's descriptor duplicated onto itself

    [dup2] of a descriptor onto itself leaves it as it was, except that the plane forgets the
    directory stream the descriptor reads. *)

Lemma of_get_contains {T} fd (o : OpenFiles T) x : of_get fd o = Some x → of_contains fd o = true.
Proof. unfold of_get, of_contains. destruct (handles o !! fd); [|done]. intros _. by apply bool_decide_eq_true. Qed.

(** C40: a descriptor that a directory stream reads, duplicated onto itself, stays open on the same directory, but the stream is gone: [readdir], which answered an
    entry or the end of the directory before, declines. *)
Theorem dup_onto_itself_drops_stream env fs fd f s r : core fs → of_get fd (opens fs) = Some f → of_get fd (dirs fs) = Some s →
  (∃ e fs1, readdir env fd fs = Ok (e, fs1)) ∧
  ∃ fs', dup_to fd fd (inr r) fs = Ok (r, fs') ∧ of_get fd (opens fs') = Some f ∧ readdir env fd fs' = Declined.
Proof.
  intros Hc Hf Hs. destruct Hc as [[_ _ _ _ Hd Hst _] _]. split.
  - destruct (of_get_all _ fd s _ Hst Hs) as (i & Hi & _). unfold readdir. rewrite Hs. cbn. unfold stream_inodes in Hi. rewrite lookup_omap in Hi.
    destruct (streams fs !! s) as [st|]; [|done]. cbn. destruct (entries st !! _); by eexists _, _.
  - unfold dup_to, owns_fd. rewrite (of_get_contains fd _ f Hf). cbn. eexists. split; [done|]. unfold dup_onto, of_alias. rewrite Z.eqb_refl, (of_get_contains fd _ f Hf).
    assert (∃ id, handles (opens fs) !! fd = Some id) as [id Hid] by (unfold of_get in Hf; destruct (handles (opens fs) !! fd) as [id|]; [by exists id|done]).
    rewrite Hid. cbn. split; [done|]. unfold readdir. pose proof (of_remove_ok fd _ Hd) as H. destruct (of_remove fd (dirs fs)) as [rel d]. destruct H as (_ & Hh & _).
    assert (of_get fd d = None) as E by (unfold of_get; by rewrite Hh, lookup_delete_eq). cbn. by rewrite E.
Qed.
Definition sample_stream : Vfs := snd (opendir (sample_env 6) no_ino (Some (bytes "/a")) (inr 5) sample_fs).
Lemma dup_onto_itself_drops_stream_witness : (∃ e fs1, readdir (sample_env 6) 5 sample_stream = Ok (e, fs1)) ∧
  ∃ fs', dup_to 5 5 (inr 5) sample_stream = Ok (5, fs') ∧ (∃ f, of_get 5 (opens fs') = Some f) ∧ readdir (sample_env 6) 5 fs' = Declined.
Proof.
  destruct (dup_onto_itself_drops_stream (sample_env 6) sample_stream 5
    (mk_open 1 0 false false (mk_flags RdOnly false false false false false false true false false) true (Some 0) 2) 0 5) as [H (fs' & E & Hf & Hr)].
  - exact (proj2 (opendir_good (sample_env 6) no_ino (Some (bytes "/a")) (inr 5) sample_fs (proj1 (proj1 sample_consistent)))).
  - by vm_compute.
  - by vm_compute.
  - split; [exact H|]. exists fs'. split; [exact E|]. split; [by eexists|exact Hr].
Defined.

(** ** What a program lists

    The records of [getdents64] read the way man 2 getdents tells a program to, and the loop that
    asks until nothing comes: it lists a directory whole, each entry once. *)

(** *** Reading records *)

Fixpoint until_nul (l : list Z) : list Z := match l with [] => [] | b :: l => if b =? 0 then [] else b :: until_nul l end.

Section parse.
Context (os : target_os).

(** What a program takes from a record: the inode, the type and the name *)
Definition parse_record (l : list Z) : Z * Z * name :=
  (from_ne_bytes (slice 0 8 l), from_ne_bytes (slice (Z.to_nat (header os - 1)) (Z.to_nat (header os)) l),
   if is_macos os then slice 21 (21 + Z.to_nat (u16_at l 18)) l else until_nul (drop 19 l)).
Fixpoint parse_dents (fuel : nat) (l : list Z) : list (Z * Z * name) :=
  match fuel, l with
  | S fuel, _ :: _ => let n := Z.to_nat (u16_at l 16) in parse_record (take n l) :: parse_dents fuel (drop n l)
  | _, _ => []
  end.

Definition listed (e : DirEntry) : Z * Z * name := (e_ino e, d_type (e_kind e), e_name e).
Record entry_ok (e : DirEntry) : Prop := { eo_ino : is_u64 (e_ino e); eo_name : Z.of_nat (length (e_name e)) < d_name_len os; eo_nul : 0 ∉ e_name e }.

Lemma until_nul_zeros l n : 0 ∉ l → (0 < n)%nat → until_nul (l ++ replicate n 0) = l.
Proof.
  intros Hl Hn. induction l as [|b l IH]; cbn; [by destruct n; [lia|]|]. destruct (Z.eqb_spec b 0) as [->|]; [set_solver|]. by rewrite IH by set_solver.
Qed.

Lemma record_len_spec n : Z.of_nat (length n) < d_name_len os →
  header os + Z.of_nat (length n) < record_len os n < 2 ^ 16 ∧ 0 < header os.
Proof.
  unfold record_len, header, alignment, d_name_len, div_ceil. intros H. destruct (is_macos os); dlia.
Qed.
Lemma length_record next e : entry_ok e → Z.of_nat (length (dirent_record os next e)) = record_len os (e_name e).
Proof.
  intros [_ Hn _]. destruct (record_len_spec _ Hn) as [H _]. unfold dirent_record. rewrite !length_app, length_replicate, !length_to_ne_bytes. cbn [length].
  unfold header in *. destruct (is_macos os); rewrite ?length_to_ne_bytes; cbn [length]; lia.
Qed.

(** A record is a head of fixed length, the type, the name and zeros *)
Lemma record_parts next e : entry_ok e → ∃ h n, dirent_record os next e = h ++ [d_type (e_kind e)] ++ e_name e ++ replicate n 0 ∧
  length h = Z.to_nat (header os - 1) ∧ (0 < n)%nat ∧ slice 0 8 h = to_ne_bytes 8 (e_ino e) ∧ slice 16 18 h = to_ne_bytes 2 (record_len os (e_name e)) ∧
  (is_macos os = true → slice 18 20 h = to_ne_bytes 2 (Z.of_nat (length (e_name e)))).
Proof.
  intros [Hi Hn H0]. destruct (record_len_spec _ Hn) as [Hlen _]. unfold dirent_record. set (len := record_len os (e_name e)) in *.
  exists (to_ne_bytes 8 (e_ino e) ++ to_ne_bytes 8 next ++ to_ne_bytes 2 len ++ (if is_macos os then to_ne_bytes 2 (Z.of_nat (length (e_name e))) else [])).
  eexists. split; [by rewrite <- !app_assoc|]. unfold header in *. split_and!.
  - rewrite !length_app, !length_to_ne_bytes. destruct (is_macos os); rewrite ?length_to_ne_bytes; done.
  - lia.
  - by apply slice_prefix, length_to_ne_bytes.
  - rewrite app_assoc. apply slice_mid; rewrite ?length_app, ?length_to_ne_bytes; done.
  - intros ->. rewrite !app_assoc. rewrite <- (app_nil_r (_ ++ to_ne_bytes 2 (Z.of_nat _))), <- app_assoc.
    apply slice_mid; rewrite ?length_app, ?length_to_ne_bytes; done.
Qed.

Lemma d_type_byte k : from_ne_bytes [d_type k] = d_type k.
Proof. by destruct k. Qed.

Lemma parse_record_ok next e : entry_ok e → parse_record (dirent_record os next e) = listed e ∧ u16_at (dirent_record os next e) 16 = record_len os (e_name e).
Proof.
  intros He. destruct (record_parts next e He) as (h & n & -> & Hh & Hn & H8 & H16 & H18). pose proof He as [Hi Hl H0]. destruct (record_len_spec _ Hl) as [Hlen Hpos].
  assert (18 ≤ length h)%nat as Hge by (rewrite Hh; unfold header; destruct (is_macos os); lia).
  unfold parse_record, listed, u16_at. change (16 + 2)%nat with 18%nat. change (18 + 2)%nat with 20%nat. rewrite (slice_app_l 0 8 h), (slice_app_l 16 18 h) by lia.
  rewrite H8, H16, !from_to_ne_bytes. split.
  - f_equal; [f_equal|].
    + apply Z.mod_small. change (256 ^ Z.of_nat 8) with (u64_max + 1). lia.
    + rewrite (slice_mid _ _ h [d_type (e_kind e)]); [apply d_type_byte|done|cbn [length]; lia].
    + unfold header in *. destruct (is_macos os) eqn:Em.
      * rewrite (slice_app_l 18 20 h) by lia. rewrite H18, from_to_ne_bytes by done. rewrite Z.mod_small by (change (256 ^ Z.of_nat 2) with (2 ^ 16); lia).
        rewrite app_assoc. apply slice_mid; rewrite ?length_app; cbn [length]; lia.
      * rewrite app_assoc. change 19%nat with (Z.to_nat (19 - 1) + 1)%nat. rewrite <- Hh. rewrite drop_app_length' by (rewrite length_app; done). by apply until_nul_zeros.
  - apply Z.mod_small. change (256 ^ Z.of_nat 2) with (2 ^ 16). lia.
Qed.

(** The records of successive entries *)
Fixpoint records (cursor : Z) (es : list DirEntry) : list Z :=
  match es with [] => [] | e :: es => dirent_record os (cursor + 1) e ++ records (cursor + 1) es end.

Lemma parse_records cursor es fuel : Forall entry_ok es → (length (records cursor es) ≤ fuel)%nat → parse_dents fuel (records cursor es) = map listed es.
Proof.
  intros Hes. revert cursor fuel. induction Hes as [|e es He Hes IH]; intros cursor fuel Hf; [by destruct fuel|]. cbn [records] in *.
  pose proof (length_record (cursor + 1) e He) as Hl. pose proof (parse_record_ok (cursor + 1) e He) as [Hp Hu]. destruct He as [Hi Hn H0]. destruct (record_len_spec _ Hn) as [Hlen Hpos].
  rewrite length_app in Hf. set (r := dirent_record os (cursor + 1) e) in *. destruct fuel as [|fuel]; [lia|].
  assert (u16_at (r ++ records (cursor + 1) es) 16 = record_len os (e_name e)) as Eu.
  { rewrite <- Hu. reflexivity. }
  cbn [parse_dents map]. destruct (r ++ records (cursor + 1) es) as [|b l] eqn:E; [apply (f_equal length) in E; rewrite length_app in E; cbn in E; lia|]. rewrite <- E in *.
  rewrite Eu. rewrite <- Hl, Nat2Z.id, take_app_length, drop_app_length. rewrite Hp. f_equal. apply IH. lia.
Qed.

Lemma pack_loop_ok len cursor written es : Forall entry_ok es → Forall (λ e, record_len os (e_name e) ≤ len) es → 0 ≤ written →
  ∃ k, (k ≤ length es)%nat ∧ pack_loop os true len cursor written es = (inr (records cursor (take k es)), cursor + Z.of_nat k) ∧
    (written = 0 → es ≠ [] → (0 < k)%nat).
Proof.
  intros Hes. revert cursor written. induction Hes as [|e es He Hes IH]; intros cursor written Hl Hw.
  - exists 0%nat. split; [done|]. split; [cbn; by rewrite Z.add_0_r|done].
  - apply Forall_cons in Hl as [Hle Hl]. destruct (record_len_spec _ (eo_name _ He)) as [Hlen Hpos]. cbn [pack_loop negb].
    destruct (Z.leb_spec (d_name_len os) (Z.of_nat (length (e_name e)))) as [Hbad|_]; [pose proof (eo_name _ He); lia|].
    destruct (Z.ltb_spec (sat_sub len written) (record_len os (e_name e))) as [Hno|Hfit].
    + assert (written ≠ 0) as Hne by lia. rewrite (proj2 (Z.eqb_neq written 0) Hne). exists 0%nat. split; [lia|]. split; [cbn; by rewrite Z.add_0_r|done].
    + destruct (IH (cursor + 1) (written + record_len os (e_name e)) Hl ltac:(lia)) as (k & Hk & -> & _). exists (S k). split; [cbn; lia|]. split; [|lia].
      cbn [take records]. f_equal. lia.
Qed.
End parse.

(** *** Listing a directory *)

(** A program that asks until nothing comes *)
Fixpoint read_dir (fuel : nat) (env : Env) (fd len : Z) (fs : Vfs) : option (list (Z * Z * name) * Vfs) :=
  match fuel with
  | O => None
  | S fuel =>
      match getdents64 env fd true len fs with
      | (Ok [], fs) => Some ([], fs)
      | (Ok out, fs) => '(es, fs) ← read_dir fuel env fd len fs; Some (parse_dents (os env) (length out) out ++ es, fs)
      | _ => None
      end
  end.

Lemma read_dir_rest fuel env fd len fs f s st : of_get fd (opens fs) = Some f → f_directory f = Some s → streams fs !! s = Some st → 0 ≤ s_cursor st →
  Forall (entry_ok (os env)) (entries st) → Forall (λ e, record_len (os env) (e_name e) ≤ len) (entries st) →
  (length (drop (Z.to_nat (s_cursor st)) (entries st)) < fuel)%nat →
  ∃ fs', read_dir fuel env fd len fs = Some (map listed (drop (Z.to_nat (s_cursor st)) (entries st)), fs').
Proof.
  intros Hf Hd Hs Hc Hok Hfit. revert fs st Hf Hs Hc Hok Hfit. induction fuel as [|fuel IH]; intros fs st Hf Hs Hc Hok Hfit Hlt; [lia|]. cbn [read_dir].
  set (rest := drop (Z.to_nat (s_cursor st)) (entries st)) in *.
  destruct (pack_loop_ok (os env) len (s_cursor st) 0 rest) as (k & Hk & Ek & Hpos); [by apply Forall_drop..|done|].
  unfold getdents64. rewrite Hf, Hd, Hs. cbv zeta. unfold pack_directory. fold rest. rewrite Ek.
  set (fs1 := with_streams _ _ _). destruct rest as [|e es] eqn:Er.
  - rewrite take_nil. cbn [records]. by eexists.
  - specialize (Hpos eq_refl ltac:(done)). destruct k as [|k]; [lia|].
    assert (Forall (entry_ok (os env)) (take (S k) (e :: es))) as Ht by (apply Forall_take; rewrite <- Er; by apply Forall_drop).
    pose proof (parse_records (os env) (s_cursor st) (take (S k) (e :: es)) _ Ht (Nat.le_refl _)) as Hp.
    destruct (records (os env) (s_cursor st) (take (S k) (e :: es))) as [|b out] eqn:Eo.
    { exfalso. cbn [take records] in Eo. apply (f_equal length) in Eo. rewrite length_app in Eo. apply Forall_cons in Ht as [He _].
      pose proof (length_record (os env) (s_cursor st + 1) e He). destruct (record_len_spec (os env) _ (eo_name _ _ He)). cbn in Eo. lia. }
    assert (streams (list_access env st fs) = streams fs ∧ opens (list_access env st fs) = opens fs) as [Est Eop] by (unfold list_access; by destruct (s_inode st)).
    assert (drop (Z.to_nat (s_cursor st + Z.of_nat (S k))) (entries st) = drop (S k) (e :: es)) as Ed by (rewrite <- Er; unfold rest; rewrite drop_drop; f_equal; lia).
    destruct (IH fs1 (mk_stream (entries st) (s_cursor st + Z.of_nat (S k)) (s_inode st))) as [fs' ->]; cbn [s_cursor entries]; try done.
    + unfold fs1. cbn. by rewrite Eop.
    + unfold fs1. cbn. by rewrite lookup_insert_eq.
    + lia.
    + rewrite Ed, length_drop. cbn [length] in *. lia.
    + rewrite Hp, Ed. eexists. cbn [mbind option_bind]. rewrite <- map_app, take_drop. done.
Qed.

(** What the snapshot of a directory has: its dots and its children, each once *)
Definition dots (ino_of : path → Z) (t : Tree) (p : path) : list DirEntry := take 2 (snapshot ino_of t p).
Definition children (ino_of : path → Z) (t : Tree) (p : path) : list DirEntry := drop 2 (snapshot ino_of t p).
Lemma elem_of_children ino_of t p e : e ∈ children ino_of t p ↔ ∃ n, t !! (e_name e :: p) = Some n ∧ e_ino e = node_inode n ∧ e_kind e = node_kind n.
Proof.
  unfold children, snapshot, listing. cbv zeta. change (drop 2 (?a :: ?b :: ?l)) with l. rewrite list_elem_of_omap. split.
  - intros ([q n] & Hin & E). rewrite merge_sort_Permutation in Hin. apply elem_of_map_to_list in Hin. destruct q as [|c q]; [done|]. cbn in E. case_bool_decide; [|done].
    injection E as <-. subst q. by exists n.
  - intros (n & Hn & Hi & Hk). exists (e_name e :: p, n). split; [rewrite merge_sort_Permutation; by apply elem_of_map_to_list|]. cbn. rewrite bool_decide_true by done.
    rewrite <- Hi, <- Hk. by destruct e.
Qed.
Lemma NoDup_children ino_of t p : NoDup (map e_name (children ino_of t p)).
Proof.
  unfold children, snapshot, listing. cbv zeta. change (drop 2 (?a :: ?b :: ?l)) with l. assert (NoDup (map fst (merge_sort (λ x y, path_leb x.1 y.1 = true) (map_to_list t)))) as H.
  { rewrite merge_sort_Permutation. apply NoDup_fst_map_to_list. }
  revert H. generalize (merge_sort (λ x y, path_leb x.1 y.1 = true) (map_to_list t)). intros l. induction l as [|[q n] l IH]; [constructor|]. cbn. intros [Hq Hl]%NoDup_cons.
  destruct q as [|c q]; [by apply IH|]. case_bool_decide; [|by apply IH]. subst q. cbn. constructor; [|by apply IH].
  intros (e & -> & He)%list_elem_of_fmap. apply Hq. apply list_elem_of_omap in He as ([r m] & Hin & E). destruct r as [|d r]; [done|]. cbn in E. case_bool_decide; [|done].
  injection E as <-. subst r. apply list_elem_of_fmap. by exists (d :: p, m).
Qed.

(** C32: a program that opens a directory whose names are all shorter than the record's d_name and hold no NUL (the virtual file system bounds neither, and a
    longer name answers ENAMETOOLONG), and calls [getdents64] with a buffer every record fits into until nothing comes, is told, besides the directory's two
    dots, of each name in it exactly once, with its inode and its type, and of nothing else; the names it reads from the records are those the directory has,
    and the loop ends. *)
Theorem directory_listed env ino_of raw flags m fs p i w fd len fs1 :
  open_plan env raw flags m fs = Ok (p, Existing i true w) → open_with env ino_of p (Existing i true w) flags (inr fd) fs = (Ok fd, fs1) → core fs →
  Forall (entry_ok (os env)) (snapshot ino_of (tree fs) p) → Forall (λ e, record_len (os env) (e_name e) ≤ len) (snapshot ino_of (tree fs) p) →
  ∃ es fs2, read_dir (S (length (snapshot ino_of (tree fs) p))) env fd len fs1 = Some (map listed (dots ino_of (tree fs) p) ++ es, fs2) ∧
    map e_name (dots ino_of (tree fs) p) = [dot; dotdot] ∧ NoDup (map snd es) ∧
    ∀ c j k, (j, k, c) ∈ es ↔ ∃ n, tree fs !! (c :: p) = Some n ∧ j = node_inode n ∧ k = d_type (node_kind n).
Proof.
  intros _ E Hc Hok Hfit. set (snap := snapshot ino_of (tree fs) p) in *.
  assert (∃ f s, of_get fd (opens fs1) = Some f ∧ f_directory f = Some s ∧ streams fs1 !! s = Some (mk_stream snap 0 (Some i))) as (f & s & Hf & Hs & Hst).
  { cbn in E. injection E as <-. unfold insert_open. cbv zeta. set (f := mk_open _ _ _ _ _ _ _ _). set (o := of_insert _ _ _). set (old := mjoin _).
    exists f, (next_stream fs). assert (of_get fd o = Some f) as Ho by (by destruct (of_insert_ok fd f (opens fs) (ro_opens _ _ _ (proj1 Hc))) as (_ & _ & ? & _)).
    unfold drop_open. destruct old; cbn; rewrite lookup_insert_eq; done. }
  destruct (read_dir_rest (S (length snap)) env fd len fs1 f s _ Hf Hs Hst) as [fs2 ->]; cbn [s_cursor entries]; try done; [change (Z.to_nat 0) with 0%nat; rewrite drop_0; lia|].
  exists (map listed (children ino_of (tree fs) p)), fs2. split_and!.
  - by rewrite <- map_app.
  - done.
  - rewrite map_map. apply NoDup_children.
  - intros c j k. rewrite list_elem_of_fmap. split.
    + intros (e & [= -> -> ->] & (n & Hn & -> & ->)%elem_of_children). by exists n.
    + intros (n & Hn & -> & ->). exists (mk_entry c (node_inode n) (node_kind n)). split; [done|]. apply elem_of_children. by exists n.
Qed.
Definition sample_snapshot : list DirEntry := snapshot no_ino (tree sample_fs) [].
Lemma directory_listed_witness : ∃ es fs2,
  read_dir (S (length sample_snapshot)) (sample_env 6) 5 4096 (snd (open_with (sample_env 6) no_ino [] (Existing 3 true false) for_reading (inr 5) sample_fs)) =
    Some (map listed (dots no_ino (tree sample_fs) []) ++ es, fs2) ∧
  map e_name (dots no_ino (tree sample_fs) []) = [dot; dotdot] ∧ NoDup (map snd es) ∧
  ∀ c j k, (j, k, c) ∈ es ↔ ∃ n, tree sample_fs !! [c] = Some n ∧ j = node_inode n ∧ k = d_type (node_kind n).
Proof.
  apply (directory_listed (sample_env 6) no_ino (Some (bytes "/")) for_reading 0 sample_fs [] 3 false 5 4096).
  - by vm_compute.
  - done.
  - apply sample_consistent.
  - vm_compute. repeat constructor; try done; set_solver.
  - vm_compute. repeat constructor; done.
Defined.
