(* ===== verification/FsWalkProps.v ===== *)
(** * Where a walk ends

    What the walk of [traversal] reaches: a path of plain names with no symlink in it, which walks
    to itself; and that [realpath] therefore answers its own answers with themselves. *)

From S2P Require Import Prelude Bytes FsLocks FsPerm FsData FsTree FsCalls FsFds FsSys.

(** ** Paths as bytes *)

(** A component a path can have: not empty, not a dot, no slash in it *)
Record normal (c : name) : Prop := { nm_empty : c ≠ []; nm_dot : c ≠ dot; nm_dotdot : c ≠ dotdot; nm_slash : SLASH ∉ c }.

Lemma split_slash_plain bs c : c ∈ split_slash bs → SLASH ∉ c.
Proof.
  revert c. induction bs as [|b bs IH]; intros c; cbn.
  - intros ->%list_elem_of_singleton. apply not_elem_of_nil.
  - destruct (Z.eqb_spec b SLASH) as [->|Hb].
    + intros [->|H]%elem_of_cons; [apply not_elem_of_nil|by apply IH].
    + destruct (split_slash bs) as [|d ds]; [intros ->%list_elem_of_singleton; set_solver|]. intros [->|H]%elem_of_cons.
      * intros [E|H]%elem_of_cons; [congruence|]. eapply (IH d); [|done]. set_solver.
      * apply IH. set_solver.
Qed.
Lemma components_plain bs c : c ∈ components bs → c ≠ [] ∧ SLASH ∉ c.
Proof.
  unfold components. intros [H Hc]%elem_of_retain. split; [|by eapply split_slash_plain]. intros ->. done.
Qed.

Lemma split_slash_app c bs : SLASH ∉ c → split_slash (c ++ SLASH :: bs) = c :: split_slash bs.
Proof.
  induction c as [|x c IH]; intros H; cbn; [done|]. destruct (Z.eqb_spec x SLASH) as [->|]; [set_solver|]. rewrite IH by set_solver. done.
Qed.
Lemma split_slash_single c : SLASH ∉ c → split_slash c = [c].
Proof.
  induction c as [|x c IH]; intros H; cbn; [done|]. destruct (Z.eqb_spec x SLASH) as [->|]; [set_solver|]. by rewrite IH by set_solver.
Qed.

(** The components of a path printed are those it has. *)
Lemma split_joined c (cs : list name) : Forall (λ c, SLASH ∉ c) (c :: cs) → split_slash (c ++ mjoin (map (λ c, SLASH :: c) cs)) = c :: cs.
Proof.
  revert c. induction cs as [|d cs IH]; intros c [Hc Hcs]%Forall_cons.
  - cbn. rewrite app_nil_r. by apply split_slash_single.
  - change (mjoin (map (λ c, SLASH :: c) (d :: cs))) with (SLASH :: d ++ mjoin (map (λ c, SLASH :: c) cs)). rewrite split_slash_app by done. by rewrite IH.
Qed.
Lemma components_path_bytes p : Forall normal p → components (path_bytes p) = rev p.
Proof.
  intros H. assert (Forall normal (rev p)) as Hr by (by apply Forall_rev). unfold path_bytes, components. destruct p as [|c p]; [done|].
  destruct (rev (c :: p)) as [|d cs] eqn:E; [by destruct (app_cons_not_nil (rev p) [] c)|].
  change (mjoin (map (λ c, SLASH :: c) (d :: cs))) with (SLASH :: d ++ mjoin (map (λ c, SLASH :: c) cs)). change (split_slash (SLASH :: ?l)) with ([] :: split_slash l).
  rewrite split_joined; [|eapply Forall_impl; [done|]; by intros ? []]. change (retain ?f ([] :: ?l)) with (retain f l). apply retain_all. intros x Hx. rewrite bool_decide_false; [done|]. rewrite Forall_forall in Hr. apply Hr in Hx as []. done.
Qed.
Lemma normalize_path_bytes p : Forall normal p → normalize (path_bytes p) = p.
Proof.
  intros H. unfold normalize. rewrite components_path_bytes by done. transitivity (rev (rev p)); [|apply rev_involutive].
  assert (∀ out, foldl normal_step out (rev p) = rev (rev p) ++ out) as E; [|by rewrite E, app_nil_r].
  apply Forall_rev in H. induction H as [|c cs [] Hcs IH]; intros out; [done|]. cbn. rewrite IH. unfold normal_step. rewrite !bool_decide_false by done.
  by rewrite <- app_assoc.
Qed.
Lemma starts_path_bytes p : starts_slash (path_bytes p) = true.
Proof. destruct p as [|c p]; [done|]. unfold path_bytes. cbn. by destruct (rev p) as [|d l]. Qed.
Lemma ends_path_bytes c p : Forall normal (c :: p) → ends_slash (path_bytes (c :: p)) = false.
Proof.
  intros [[He _ _ Hs] _]%Forall_cons. unfold ends_slash, path_bytes. cbn [rev]. rewrite map_app. cbn [map].
  assert (∀ l, mjoin (l ++ [SLASH :: c]) = mjoin l ++ SLASH :: c) as -> by (intros l; rewrite join_app; cbn; by rewrite app_nil_r).
  rewrite last_app. destruct c as [|x c _] using rev_ind; [done|]. rewrite app_comm_cons, last_snoc. destruct (Z.eqb_spec x SLASH) as [->|]; [set_solver|done].
Qed.

(** ** The walk *)

Section walk.
Context (env : Env) (t : Tree) (fs : Vfs) (strict follow : bool).

(** The walk a step at a time *)
Lemma walk_nil n cur : walk env n t fs strict follow cur [] = inr (cur, n).
Proof. by destruct n. Qed.
Lemma walk_cons n cur c rest : walk env n t fs strict follow cur (c :: rest) =
  match meets env t fs strict cur c with
  | Some e => inl e
  | None =>
      if bool_decide (c = []) || bool_decide (c = dot) then walk env n t fs strict follow cur rest
      else if bool_decide (c = dotdot) then walk env n t fs strict follow (tail cur) rest
      else
        match t !! (c :: cur) with
        | Some (VSymlink _ target) =>
            if follow || negb (bool_decide (rest = [])) then
              if bool_decide (target = []) then inl ENOENT
              else match n with
              | O => inl ELOOP
              | S more => walk env more t fs strict follow (if starts_slash target then [] else cur)
                            (components target ++ (if ends_slash target && bool_decide (rest = []) then [[]] else []) ++ rest)
              end
            else walk env n t fs strict follow (c :: cur) rest
        | _ => walk env n t fs strict follow (c :: cur) rest
        end
  end.
Proof. by destruct n. Qed.

(** A walk never follows more symlinks than it may, and one that follows none goes where the path says. *)
Definition plain_step (out : path) (c : name) : path := if bool_decide (c = []) then out else normal_step out c.
Lemma walk_links n cur pending r m : walk env n t fs strict follow cur pending = inr (r, m) →
  (m ≤ n)%nat ∧ (m = n → r = foldl plain_step cur pending).
Proof.
  revert cur pending. induction n as [n IHn] using lt_wf_ind. intros cur pending. revert cur. induction pending as [|c rest IH]; intros cur.
  - rewrite walk_nil. intros [= <- <-]. done.
  - rewrite walk_cons. destruct (meets _ _ _ _ _ _); [done|]. cbn [foldl]. unfold plain_step at 2, normal_step.
    destruct (bool_decide (c = [])); [apply IH|]. destruct (bool_decide (c = dot)); [apply IH|]. destruct (bool_decide (c = dotdot)); [apply IH|]. cbn [orb].
    assert (∀ c', walk env n t fs strict follow (c' :: cur) rest = inr (r, m) → (m ≤ n)%nat ∧ (m = n → r = foldl plain_step (c' :: cur) rest)) as Hpush by (intros c'; apply IH).
    destruct (t !! (c :: cur)) as [[]|]; try (by apply Hpush). destruct (follow || _); [|by apply Hpush].
    case_bool_decide; [done|]. destruct n as [|more]; [done|]. intros H'. apply IHn in H' as [H' _]; lia.
Qed.

(** A path of plain names that every step of a walk may take, and no symlink in it *)
Definition walkable (p : path) : Prop := ∀ c q, c :: q `suffix_of` p →
  normal c ∧ meets env t fs strict q c = None ∧ ∀ i target, t !! (c :: q) ≠ Some (VSymlink i target).
Lemma walkable_nil : walkable [].
Proof. intros c q H%suffix_nil_inv. done. Qed.
Lemma walkable_suffix p q : walkable p → q `suffix_of` p → walkable q.
Proof. intros H Hq c r Hc. apply H. by etransitivity. Qed.
Lemma walkable_normal p : walkable p → Forall normal p.
Proof.
  induction p as [|c p IH]; intros H; [done|]. constructor; [by apply (H c p)|]. apply IH. eapply walkable_suffix; [done|]. by apply suffix_cons_r.
Qed.

Lemma walk_straight n l cur : walkable (rev l ++ cur) → walk env n t fs strict follow cur l = inr (rev l ++ cur, n).
Proof.
  revert cur. induction l as [|c l IH]; intros cur H; [apply walk_nil|]. cbn [rev] in *. rewrite <- app_assoc in *. cbn [app] in *.
  destruct (H c cur) as ([] & Hm & Hs); [by exists (rev l)|]. rewrite walk_cons, Hm, !bool_decide_false by done. cbn [orb].
  rewrite <- (IH (c :: cur) H). destruct (t !! (c :: cur)) as [[]|] eqn:E; try done. by destruct (Hs i target).
Qed.
End walk.

(** What a walk that follows its last symlink reaches *)
Lemma walk_walkable env t fs strict n cur pending r m : Forall (λ c, SLASH ∉ c) pending → walkable env t fs strict cur →
  walk env n t fs strict true cur pending = inr (r, m) → walkable env t fs strict r.
Proof.
  revert cur pending. induction n as [n IHn] using lt_wf_ind. intros cur pending. revert cur. induction pending as [|c rest IH]; intros cur Hp Hw.
  - rewrite walk_nil. by intros [= <- <-].
  - apply Forall_cons in Hp as [Hc Hp]. rewrite walk_cons. destruct (meets _ _ _ _ _ _) eqn:Em; [done|].
    destruct (bool_decide_reflect (c = [])); cbn [orb]; [by apply IH|]. destruct (bool_decide_reflect (c = dot)); [by apply IH|]. destruct (bool_decide_reflect (c = dotdot)).
    + apply IH; [done|]. eapply walkable_suffix; [done|]. destruct cur as [|x cur]; [done|]. cbn. by apply suffix_cons_r.
    + cbn [orb]. assert ((∀ i target, t !! (c :: cur) ≠ Some (VSymlink i target)) → walkable env t fs strict (c :: cur)) as Hpush.
      { intros Hs d q [E|Hq]%suffix_cons_inv; [by injection E as -> ->|by apply Hw]. }
      destruct (t !! (c :: cur)) as [[|i|i target]|] eqn:E; try (apply IH; [done|apply Hpush; congruence]). case_bool_decide; [done|]. destruct n as [|more]; [done|].
      apply IHn; [lia| |by destruct (starts_slash target); [apply walkable_nil|]]. apply Forall_app. split; [|apply Forall_app; split; [|done]].
      * apply Forall_forall. intros d Hd. by destruct (components_plain _ _ Hd).
      * destruct (_ && _); [|done]. constructor; [apply not_elem_of_nil|done].
Qed.

(** ** [realpath] *)

Lemma walk_from_root env t fs strict follow n p pending : walkable env t fs strict p → (∀ n, t !! [] = Some n → is_dir_node n = true) →
  pending = components (path_bytes p) ++ (if ends_slash (path_bytes p) && (true || is_macos (os env)) then [[]] else []) →
  walk env n t fs strict follow [] pending = inr (p, n).
Proof.
  intros Hw Hroot ->. pose proof (walkable_normal _ _ _ _ _ Hw) as Hn. rewrite components_path_bytes by done. destruct p as [|c p].
  - change (rev [] ++ _) with [[] : name]. rewrite walk_cons. unfold meets. rewrite !bool_decide_true by done. cbn [negb andb orb].
    destruct (t !! []) as [m|] eqn:E; [specialize (Hroot m eq_refl); destruct m; try done|]; apply walk_nil.
  - rewrite ends_path_bytes by done. cbn [andb]. rewrite app_nil_r. rewrite walk_straight; by rewrite rev_involutive, app_nil_r.
Qed.

Lemma plain_fold l out : Forall (λ c, c ≠ []) l → foldl plain_step out l = foldl normal_step out l.
Proof. intros H. revert out. induction H as [|c l Hc _ IH]; intros out; [done|]. cbn. unfold plain_step at 2. rewrite bool_decide_false by done. apply IH. Qed.

(** Where [traversal] ends when it follows the last symlink too *)
Lemma traversal_walkable env fs bs p strict r : is_Some (tree fs !! r) → passthrough (rules env) p = false → p = normalize bs →
  traversal env (tree fs) fs bs p strict true = inr r → walkable env (tree fs) fs strict r ∧ passthrough (rules env) r = false.
Proof.
  intros Hr Hpass ->. unfold traversal. destruct (_ && negb (through_link _ _)) eqn:Ec.
  { intros [= <-]. apply andb_true_iff in Ec as [Ec _]. apply negb_true_iff in Ec. unfold claims in Ec. rewrite (bool_decide_true _ Hr), orb_true_r in Ec. discriminate Ec. }
  set (pending := components bs ++ _). destruct (walk _ _ _ _ _ _ _ _) as [|[q m]] eqn:Ew; [done|].
  assert (Forall (λ c, SLASH ∉ c) pending) as Hp.
  { apply Forall_app. split; [apply Forall_forall; intros d Hd; by destruct (components_plain _ _ Hd)|].
    destruct (ends_slash bs); cbn; repeat constructor; apply not_elem_of_nil. }
  pose proof (walk_walkable _ _ _ _ _ _ _ _ _ Hp (walkable_nil _ _ _ _) Ew) as Hw. apply walk_links in Ew as [_ El]. destruct (bool_decide_reflect (m = link_limit env)) as [->|Hm]; cbn [negb andb].
  - intros [= <-]. split; [done|]. rewrite (El eq_refl). unfold pending. rewrite foldl_app, (plain_fold (components bs)).
    + destruct (ends_slash bs); exact Hpass.
    + apply Forall_forall. intros d Hd. by destruct (components_plain _ _ Hd).
  - destruct (passthrough (rules env) q) eqn:Eq; cbn [orb]; [done|]. repeat (case_match; [done|]). by intros [= <-].
Qed.

(** C31: what [realpath] answers is the absolute path of something there, of plain names without dots, none of them a symlink; and asked for its own answer,
    [realpath] answers the same. *)
Theorem realpath_canonical env raw fs out : (∀ n, tree fs !! [] = Some n → is_dir_node n = true) → realpath env raw fs = Ok out →
  ∃ p, out = path_bytes p ∧ is_Some (tree fs !! p) ∧
    (∀ c q, c :: q `suffix_of` p → normal c ∧ ∀ i target, tree fs !! (c :: q) ≠ Some (VSymlink i target)) ∧
    realpath env (Some out) fs = Ok out.
Proof.
  intros Hroot. unfold realpath at 1, named_path, decline_if. destruct (absolute env raw fs) as [| |bs|]; try done. cbn. unfold path_of. cbn.
  destruct (starts_slash bs); [|done]. cbn. destruct (passthrough (rules env) (normalize bs)) eqn:Ep; [done|]. cbn.
  destruct (traversal _ _ _ _ _ _ _) as [|p] eqn:Et; [done|]. cbn. case_bool_decide as Hp; [|by case_match]. intros [= <-].
  destruct (traversal_walkable env fs bs _ _ p Hp Ep eq_refl Et) as [Hw Hpass]. exists p. split_and!; try done.
  - intros c q Hc. by destruct (Hw c q Hc) as (? & _ & ?).
  - pose proof (walkable_normal _ _ _ _ _ Hw) as Hn. unfold realpath, named_path, absolute, path_of, decline_if. cbn. rewrite starts_path_bytes. cbn.
    rewrite starts_path_bytes. cbn. rewrite normalize_path_bytes by done. rewrite Hpass. cbn. unfold traversal.
    assert (claims env (tree fs) p = true) as -> by (unfold claims; rewrite (bool_decide_true _ Hp); by rewrite orb_true_r). cbn [negb andb].
    rewrite (walk_from_root _ _ _ _ _ _ p) by done. rewrite (bool_decide_true (link_limit env = link_limit env)) by done. cbn. by rewrite bool_decide_true.
Qed.
Lemma realpath_canonical_witness : ∃ p, bytes "/d/x/g" = path_bytes p ∧ is_Some (tree sample_after !! p) ∧
  (∀ c q, c :: q `suffix_of` p → normal c ∧ ∀ i target, tree sample_after !! (c :: q) ≠ Some (VSymlink i target)) ∧
  realpath (sample_env 7) (Some (bytes "/d/x/g")) sample_after = Ok (bytes "/d/x/g").
Proof. apply (realpath_canonical (sample_env 7) (Some (bytes "/d/../d//k")) sample_after); [|by vm_compute]. intros n H. vm_compute in H. by injection H as <-. Defined.
