(* ===== verification/IpAddr.v ===== *)
(** * Addresses and prefixes

    The addresses of the simulated network and [IpNet] of crates/snare/src/netif.rs, with the
    conversions between an IPv6 socket's addresses and the IPv4 ones it carries. An address is its
    bits as an integer. *)

From S2P Require Import Prelude.

(** ** [IpAddr] and [SocketAddr] *)

Inductive IpAddr := V4 (a : Z) | V6 (a : Z).
#[export] Instance IpAddr_eq_dec : EqDecision IpAddr.
Proof. solve_decision. Defined.
#[export] Instance IpAddr_countable : Countable IpAddr.
Proof.
  refine (inj_countable' (λ ip, match ip with V4 a => (false, a) | V6 a => (true, a) end)
    (λ x, if fst x then V6 (snd x) else V4 (snd x)) _). by intros [].
Defined.

Definition is_ipv4 (ip : IpAddr) : bool := match ip with V4 _ => true | V6 _ => false end.
Definition is_unspecified (ip : IpAddr) : bool := match ip with V4 a | V6 a => a =? 0 end.
Definition is_loopback (ip : IpAddr) : bool :=
  match ip with V4 a => Z.shiftr a 24 =? 127 | V6 a => a =? 1 end.
Definition is_multicast (ip : IpAddr) : bool :=
  match ip with V4 a => Z.shiftr a 28 =? 14 | V6 a => Z.shiftr a 120 =? 255 end.
Definition LOCALHOST4 : IpAddr := V4 0x7f000001.
Definition LOCALHOST6 : IpAddr := V6 1.
Definition UNSPECIFIED4 : IpAddr := V4 0.
Definition UNSPECIFIED6 : IpAddr := V6 0.
Definition BROADCAST : IpAddr := V4 u32_max.

(** [Ipv6Addr::to_ipv4_mapped], [Ipv4Addr::to_ipv6_mapped], [IpAddr::to_canonical] *)
Definition to_ipv4_mapped (a : Z) : option Z := if Z.shiftr a 32 =? 0xffff then Some (a mod 2 ^ 32) else None.
Definition to_ipv6_mapped (a : Z) : Z := 0xffff * 2 ^ 32 + a.
Definition to_canonical (ip : IpAddr) : IpAddr :=
  match ip with
  | V4 a => V4 a
  | V6 a => match to_ipv4_mapped a with Some b => V4 b | None => V6 a end
  end.

(** The flow label and the scope are zero in an IPv4 address. *)
Record SocketAddr := mk_addr { ip : IpAddr; port : Z; flowinfo : Z; scope_id : Z }.
#[export] Instance SocketAddr_eq_dec : EqDecision SocketAddr.
Proof. solve_decision. Defined.
#[export] Instance SocketAddr_countable : Countable SocketAddr.
Proof.
  refine (inj_countable' (λ s, (ip s, port s, flowinfo s, scope_id s))
    (λ '(i, p, f, c), mk_addr i p f c) _). by intros [].
Defined.
(** [SocketAddr::new] *)
Definition socket_addr (i : IpAddr) (p : Z) : SocketAddr := mk_addr i p 0 0.

(** ** What an IPv6 socket's addresses are *)

(** [unmapped], [reported], [toward], [canonical] *)
Definition unmapped (addr : SocketAddr) : SocketAddr :=
  match ip addr with
  | V6 a => match to_ipv4_mapped a with Some b => socket_addr (V4 b) (port addr) | None => addr end
  | V4 _ => addr
  end.
Definition reported (os : target_os) (inet6 : bool) (addr : SocketAddr) : SocketAddr :=
  match ip addr with
  | V4 a => if inet6 then socket_addr (V6 (if is_macos os && (a =? 0) then 0 else to_ipv6_mapped a)) (port addr) else addr
  | V6 _ => addr
  end.
Definition toward (local dest : SocketAddr) : SocketAddr :=
  match ip local, is_ipv4 (ip dest) with
  | V6 a, true => if a =? 0 then socket_addr UNSPECIFIED4 (port local) else local
  | V4 _, false => socket_addr UNSPECIFIED6 (port local)
  | _, _ => local
  end.
Definition canonical (addr : SocketAddr) : SocketAddr := socket_addr (to_canonical (ip addr)) (port addr).

(** ** [IpNet] *)

Record IpNet := mk_net { addr : IpAddr; prefix : Z }.
#[export] Instance IpNet_eq_dec : EqDecision IpNet.
Proof. solve_decision. Defined.

Definition max_prefix (i : IpAddr) : Z := if is_ipv4 i then 32 else 128.
Definition mask_bits (i : IpAddr) (p : Z) : Z :=
  let full := if max_prefix i =? 32 then u32_max else 2 ^ 128 - 1 in
  if p =? 0 then 0 else Z.land full (Z.lnot (Z.shiftr full p)).
Definition bits (i : IpAddr) : Z := match i with V4 a | V6 a => a end.
Definition from_bits (like : IpAddr) (v : Z) : IpAddr :=
  match like with V4 _ => V4 (v mod 2 ^ 32) | V6 _ => V6 v end.

(** [IpNet::new], [None] its panic; [host], [network], [contains], [broadcast] *)
Definition net_new (a : IpAddr) (p : Z) : option IpNet := if p <=? max_prefix a then Some (mk_net a p) else None.
Definition net_host (a : IpAddr) : IpNet := mk_net a (max_prefix a).
Definition network (n : IpNet) : IpAddr := from_bits (addr n) (Z.land (bits (addr n)) (mask_bits (addr n) (prefix n))).
Definition contains (n : IpNet) (i : IpAddr) : bool :=
  if xorb (is_ipv4 i) (is_ipv4 (addr n)) then false
  else let mask := mask_bits i (prefix n) in Z.land (bits i) mask =? Z.land (bits (addr n)) mask.
Definition broadcast (n : IpNet) : option IpAddr :=
  if negb (is_ipv4 (addr n)) || (30 <? prefix n) then None
  else
    let host := Z.land (Z.lnot (mask_bits (addr n) (prefix n))) u32_max in
    Some (from_bits (addr n) (Z.lor (bits (addr n)) host)).

(** ** Prefixes as high bits *)

Definition width (i : IpAddr) : Z := max_prefix i.
Definition ip_ok (i : IpAddr) : Prop := 0 ≤ bits i < 2 ^ width i.
Definition net_ok (n : IpNet) : Prop := ip_ok (addr n) ∧ 0 ≤ prefix n ≤ width (addr n).

Lemma high_bits w k x : 0 ≤ k ≤ w → 0 ≤ x < 2 ^ w →
  Z.land x (Z.land (Z.ones w) (Z.lnot (Z.ones k))) = Z.shiftl (Z.shiftr x k) k.
Proof.
  intros Hk Hx. apply Z.bits_inj'. intros n Hn.
  rewrite !Z.land_spec, Z.lnot_spec, !Z.testbit_ones_nonneg, Z.shiftl_spec by lia. destruct (Z.ltb_spec n k).
  - rewrite (Z.testbit_neg_r (Z.shiftr x k)) by lia. by rewrite !andb_false_r.
  - rewrite Z.shiftr_spec, Z.sub_add by lia. cbn [negb]. rewrite andb_true_r. destruct (Z.ltb_spec n w).
    + by rewrite andb_true_r.
    + rewrite <- (Z.mod_small x (2 ^ w)) by done. rewrite Z.mod_pow2_bits_high by lia. done.
Qed.

Lemma width_cases i : (width i = 32 ∧ is_ipv4 i = true) ∨ (width i = 128 ∧ is_ipv4 i = false).
Proof. destruct i; [left|right]; done. Qed.

(** The mask of a prefix keeps the high bits. *)
Lemma masked i p x : 0 ≤ p ≤ width i → 0 ≤ x < 2 ^ width i →
  Z.land x (mask_bits i p) = x / 2 ^ (width i - p) * 2 ^ (width i - p).
Proof.
  intros Hp Hx. unfold mask_bits. fold (width i). destruct (Z.eqb_spec p 0) as [->|Hp0].
  - rewrite Z.sub_0_r, Z.div_small by lia. by rewrite Z.land_0_r.
  - assert ((if width i =? 32 then u32_max else 2 ^ 128 - 1) = Z.ones (width i)) as -> by (by destruct (width_cases i) as [[-> _]|[-> _]]).
    rewrite Z.shiftr_div_pow2, Z.ones_div_pow2, high_bits by lia. by rewrite Z.shiftl_mul_pow2, Z.shiftr_div_pow2 by lia.
Qed.

Lemma same_width i j : is_ipv4 i = is_ipv4 j → width i = width j.
Proof. unfold width, max_prefix. by intros ->. Qed.

(** An address lies in a prefix when it agrees with it on the prefix's bits. *)
Lemma contains_spec n i : net_ok n → ip_ok i →
  contains n i = true ↔ is_ipv4 i = is_ipv4 (addr n) ∧
    bits i / 2 ^ (width i - prefix n) = bits (addr n) / 2 ^ (width i - prefix n).
Proof.
  intros [Ha Hp] Hi. unfold contains. destruct (is_ipv4 i) eqn:E, (is_ipv4 (addr n)) eqn:E'; cbn [xorb]; try (split; [done|by intros [? _]]).
  all: assert (width i = width (addr n)) as Ew by (apply same_width; by rewrite E, E').
  all: rewrite Z.eqb_eq, !masked by (unfold ip_ok in *; rewrite ?Ew in *; lia); rewrite Ew.
  all: assert (0 < 2 ^ (width (addr n) - prefix n)) by (apply Z.pow_pos_nonneg; lia).
  all: split; [intros H'; split; [done|nia]|by intros [_ ->]].
Qed.

(** ** Reported addresses *)

Lemma mapped_unmapped a : 0 ≤ a < 2 ^ 32 → to_ipv4_mapped (to_ipv6_mapped a) = Some a.
Proof.
  intros H. unfold to_ipv4_mapped, to_ipv6_mapped. rewrite Z.shiftr_div_pow2 by lia.
  rewrite Z.div_add_l, (Z.div_small a) by lia. cbn. f_equal. rewrite Z.add_comm, Z.mod_add by lia. by apply Z.mod_small.
Qed.
