(* ===== verification/Link.v ===== *)
(** * The link of an interface

    [LinkState] of crates/snare/src/netif.rs: whether an interface is administratively up and has
    carrier, the carrier changes scheduled for it, and the losses that take datagrams in flight
    with them. A scheduled change is applied when the link is next looked at, dated at its own
    deadline; [link_history] shows that when it is looked at is of no consequence, and
    [lost_with_the_link] which datagrams are lost.

    The restarts an adapter of the Windows host schedules ([RestartTransition]) are not modelled. *)

From S2P Require Import Prelude.

(** Instants are nanoseconds on the deadline clock. [delivery_holds] is kept on macOS. *)
Record LinkState := mk_link {
  link_name : string; admin_up : bool; carrier : bool; removed : bool;
  downs : list Z; delivery_holds : list (Z * option Z); schedule : list (Z * bool) }.

(** [RecordedEvent::NicChanged], with how long ago it happened *)
Record NicChanged := mk_changed { ago : Z; changed_nic : string; changed_admin : bool; changed_carrier : bool }.

Section link.
Context (os : target_os).

(** [LinkState::new] *)
Definition link_new (name : string) (admin carrier : bool) : LinkState :=
  mk_link name admin carrier false [] (if is_macos os && negb (admin && carrier) then [(0, None)] else []) [].

Definition up (l : LinkState) : bool := admin_up l && carrier l.

(** [holds.last_mut()], its end set *)
Definition end_last (at_ : Z) (hs : list (Z * option Z)) : list (Z * option Z) :=
  match last hs with Some (since, _) => take (length hs - 1) hs ++ [(since, Some at_)] | None => hs end.

(** [set] *)
Definition link_set (admin c : option bool) (at_ : Z) (l : LinkState) : bool * LinkState :=
  let a' := default (admin_up l) admin in
  let c' := default (carrier l) c in
  let changed := xorb (admin_up l) a' || xorb (carrier l) c' in
  let went := up l && negb (a' && c') in
  let came := negb (up l) && (a' && c') in
  let holds := if is_macos os && went then delivery_holds l ++ [(at_, None)] else delivery_holds l in
  let holds := if is_macos os && came then end_last at_ holds else holds in
  (changed, mk_link (link_name l) a' c' (removed l) (if went then downs l ++ [at_] else downs l) holds (schedule l)).

Definition with_schedule (s : list (Z * bool)) (l : LinkState) : LinkState :=
  mk_link (link_name l) (admin_up l) (carrier l) (removed l) (downs l) (delivery_holds l) s.

(** The transitions whose time has come, [while schedule.front().is_some_and(...)], and those left *)
Fixpoint due (now : Z) (s : list (Z * bool)) : list (Z * bool) :=
  match s with
  | (at_, c) :: s => if at_ <=? now then (at_, c) :: due now s else []
  | [] => []
  end.
Fixpoint not_due (now : Z) (s : list (Z * bool)) : list (Z * bool) :=
  match s with
  | (at_, c) :: s' => if at_ <=? now then not_due now s' else s
  | [] => []
  end.

(** [for change in due] *)
Fixpoint apply_changes (now : Z) (changes : list (Z * bool)) (l : LinkState) : LinkState * list NicChanged :=
  match changes with
  | [] => (l, [])
  | (at_, c) :: changes =>
      let '(changed, l) := link_set None (Some c) at_ l in
      let '(l', events) := apply_changes now changes l in
      (l', (if changed then [mk_changed (sat_sub now at_) (link_name l) (admin_up l) c] else []) ++ events)
  end.

(** [apply_due] *)
Definition apply_due (now : Z) (l : LinkState) : LinkState * list NicChanged :=
  apply_changes now (due now (schedule l)) (with_schedule (not_due now (schedule l)) l).

(** The link as a look at it leaves it *)
Definition settled (now : Z) (l : LinkState) : LinkState := fst (apply_due now l).

(** [usable], [admin], [releases], [epoch], [lost_in_flight] *)
Definition usable (now : Z) (l : LinkState) : bool := up (settled now l).
Definition admin (now : Z) (l : LinkState) : bool := admin_up (settled now l).
Definition releases (now : Z) (l : LinkState) : bool := removed l || usable now l.
Definition epoch (now : Z) (l : LinkState) : nat := length (downs (settled now l)).
Definition lost_in_flight (now : Z) (e : nat) (arrival : Z) (l : LinkState) : bool :=
  existsb (λ down, down <? arrival) (drop e (downs (settled now l))).

(** [effective_arrival], of macOS *)
Fixpoint held_arrival (holds : list (Z * option Z)) (at_ : Z) : Z :=
  match holds with
  | [] => at_
  | (since, until) :: holds =>
      if at_ <? since then at_
      else held_arrival holds (match until with Some u => if at_ <? u then at_ + sat_sub u at_ else at_ | None => at_ end)
  end.
Definition link_arrival (now : Z) (l : LinkState) (at_ : Z) : Z := held_arrival (delivery_holds (settled now l)) at_.

(** The position [schedule_link] inserts at: before the first transition that is later *)
Definition insert_transition (at_ : Z) (c : bool) (s : list (Z * bool)) : list (Z * bool) :=
  let pos := default (length s) (position (λ x, at_ <? fst x) s) in
  take pos s ++ (at_, c) :: drop pos s.

(** What [remove_nic] does to the link *)
Definition link_remove (now : Z) (l : LinkState) : LinkState :=
  let l := with_schedule [] (settled now l) in
  let l := snd (link_set (Some false) (Some false) now l) in
  let holds := if is_macos os then end_last now (delivery_holds l) else delivery_holds l in
  mk_link (link_name l) (admin_up l) (carrier l) true (downs l) holds (schedule l).

End link.

(** ** What happens to a link *)

(** What is done to a link: it is looked at, set by [set_nic], a change of carrier is scheduled,
    its interface is removed. Each comes with its instant. *)
Inductive link_op := LLook | LSet (a c : option bool) | LSchedule (after : Z) (c : bool) | LRemove.

Definition link_step (os : target_os) (l : LinkState) (x : Z * link_op) : LinkState :=
  let now := fst x in
  match snd x with
  | LLook => settled os now l
  | LSet a c => snd (link_set os a c now (settled os now l))
  | LSchedule after c => with_schedule (insert_transition (now + after) c (schedule l)) l
  | LRemove => link_remove os now l
  end.
Definition link_run (os : target_os) (ops : list (Z * link_op)) (l : LinkState) : LinkState := foldl (link_step os) l ops.

Definition op_ok (o : link_op) : Prop := match o with LSchedule after _ => 0 ≤ after | _ => True end.

(** The changes that have happened to the link by [end_], [q] scheduled to begin with: looks leave
    no trace, and a scheduled change happens at its deadline. *)
Definition change : Type := Z * (option bool * option bool).
Definition of_scheduled (x : Z * bool) : change := (fst x, (None, Some (snd x))).

Fixpoint happened (ops : list (Z * link_op)) (end_ : Z) (q : list (Z * bool)) : list change :=
  match ops with
  | [] => map of_scheduled (due end_ q)
  | (now, o) :: ops =>
      match o with
      | LLook => happened ops end_ q
      | LSet a c => map of_scheduled (due now q) ++ (now, (a, c)) :: happened ops end_ (not_due now q)
      | LSchedule after c => happened ops end_ (insert_transition (now + after) c q)
      | LRemove => map of_scheduled (due now q) ++ (now, (Some false, Some false)) :: happened ops end_ []
      end
  end.

(** What the link is after them *)
Record view := mk_view { v_admin : bool; v_carrier : bool; v_downs : list Z }.
Definition v_up (v : view) : bool := v_admin v && v_carrier v.
Definition view_of (l : LinkState) : view := mk_view (admin_up l) (carrier l) (downs l).
Definition apply_change (v : view) (x : change) : view :=
  let v' := mk_view (default (v_admin v) (fst (snd x))) (default (v_carrier v) (snd (snd x))) (v_downs v) in
  mk_view (v_admin v') (v_carrier v') (if v_up v && negb (v_up v') then v_downs v ++ [fst x] else v_downs v).
Definition after (v : view) (h : list change) : view := foldl apply_change v h.

Section history.
Context (os : target_os).

Lemma set_view a c t l : view_of (snd (link_set os a c t l)) = apply_change (view_of l) (t, (a, c)).
Proof. done. Qed.
Lemma set_schedule a c t l : schedule (snd (link_set os a c t l)) = schedule l.
Proof. done. Qed.

Lemma changes_view now cs : ∀ l, view_of (fst (apply_changes os now cs l)) = after (view_of l) (map of_scheduled cs) ∧
  schedule (fst (apply_changes os now cs l)) = schedule l.
Proof.
  induction cs as [|[t c] cs IH]; intros l; [done|]. cbn [apply_changes map after foldl]. destruct (link_set os None (Some c) t l) as [b l'] eqn:E.
  destruct (IH l') as [Hv Hs]. destruct (apply_changes os now cs l') as [l2 ev]. cbn [fst] in *. rewrite Hv, Hs.
  pose proof (set_view None (Some c) t l) as E'. rewrite E in E'. cbn [snd] in E'. rewrite E'. split; [done|].
  pose proof (set_schedule None (Some c) t l) as E2. by rewrite E in E2.
Qed.

Lemma settled_view now l : view_of (settled os now l) = after (view_of l) (map of_scheduled (due now (schedule l))) ∧
  schedule (settled os now l) = not_due now (schedule l).
Proof. exact (changes_view now (due now (schedule l)) (with_schedule (not_due now (schedule l)) l)). Qed.

Lemma remove_view now l : view_of (link_remove os now l) = apply_change (view_of (settled os now l)) (now, (Some false, Some false)) ∧
  schedule (link_remove os now l) = [].
Proof. done. Qed.

(** ** Looks leave no trace *)

Lemma due_app now d q : Forall (λ x, fst x ≤ now) d → due now (d ++ q) = d ++ due now q ∧ not_due now (d ++ q) = not_due now q.
Proof.
  induction 1 as [|[t c] d Ht _ [IH IH']]; [done|]. cbn [due not_due app fst] in *. rewrite (proj2 (Z.leb_le _ _) Ht). by rewrite IH, IH'.
Qed.

Lemma due_split now q : q = due now q ++ not_due now q ∧ Forall (λ x, fst x ≤ now) (due now q).
Proof.
  induction q as [|[t c] q [IH IH']]; [done|]. cbn [due not_due]. destruct (Z.leb_spec t now); [|done]. split; [by rewrite <- app_comm_cons, <- IH|by constructor].
Qed.

Lemma position_skip {A} (p : A → bool) d q : Forall (λ x, p x = false) d → position p (d ++ q) = Nat.add (length d) <$> position p q.
Proof.
  induction 1 as [|x d Hx _ IH]; cbn; [by destruct (position p q)|]. rewrite Hx, IH. by destruct (position p q).
Qed.

Lemma insert_skip t c d q : Forall (λ x, fst x ≤ t) d → insert_transition t c (d ++ q) = d ++ insert_transition t c q.
Proof.
  intros H. unfold insert_transition. rewrite position_skip by (eapply Forall_impl; [exact H|]; intros x Hx; cbn in *; by apply Z.ltb_ge).
  assert (default (length (d ++ q)) (Nat.add (length d) <$> position (λ x : Z * bool, t <? fst x) q) = Nat.add (length d) (default (length q) (position (λ x : Z * bool, t <? fst x) q))) as ->
    by (rewrite length_app; by destruct (position _ q)).
  by rewrite take_app_add, drop_app_add, <- app_assoc.
Qed.

Lemma happened_app ops end_ d : ∀ q, Forall (λ x, Forall (λ y, fst x ≤ fst y) ops ∧ fst x ≤ end_) d → Forall (op_ok ∘ snd) ops →
  happened ops end_ (d ++ q) = map of_scheduled d ++ happened ops end_ q.
Proof.
  induction ops as [|[now o] ops IH]; intros q Hd Ho; cbn [happened].
  - rewrite (proj1 (due_app _ _ _ ltac:(eapply Forall_impl; [exact Hd|]; by intros x [_ ?]))). by rewrite map_app.
  - apply Forall_cons in Ho as [Ho Hos]. assert (Forall (λ x, fst x ≤ now) d) as Hn by (eapply Forall_impl; [exact Hd|]; intros x [Hx _]; by apply Forall_cons in Hx as [? _]).
    assert (Forall (λ x, Forall (λ y, fst x ≤ fst y) ops ∧ fst x ≤ end_) d) as Hd' by (eapply Forall_impl; [exact Hd|]; intros x [Hx ?]; by apply Forall_cons in Hx as [_ ?]).
    destruct (due_app now d q Hn) as [E1 E2]. destruct o as [|a c|w c|].
    + by apply IH.
    + by rewrite E1, E2, map_app, <- app_assoc.
    + cbn in Ho. rewrite insert_skip by (eapply Forall_impl; [exact Hn|]; intros x Hx; cbn in *; lia). by apply IH.
    + by rewrite E1, map_app, <- app_assoc.
Qed.

Lemma run_happened ops end_ : ∀ l, StronglySorted (λ x y, fst x ≤ fst y) ops → Forall (λ x, fst x ≤ end_) ops → Forall (op_ok ∘ snd) ops →
  view_of (settled os end_ (link_run os ops l)) = after (view_of l) (happened ops end_ (schedule l)).
Proof.
  induction ops as [|[now o] ops IH]; intros l Hs He Ho; [apply settled_view|]. cbn [link_run foldl]. fold (link_run os ops (link_step os l (now, o))).
  inversion Hs as [|? ? Hs' Hle]; subst. apply Forall_cons in He as [He Hes]. apply Forall_cons in Ho as [Ho Hos]. cbn [fst] in *. rewrite (IH _ Hs' Hes Hos).
  destruct (settled_view now l) as [Ev Eq]. cbn [happened]. destruct o as [|a c|w c|]; cbn [link_step fst snd].
  - rewrite Ev, Eq. destruct (due_split now (schedule l)) as [E Hd]. rewrite E at 3. rewrite happened_app; [by unfold after; rewrite foldl_app| |done].
    eapply Forall_impl; [exact Hd|]. intros x Hx. split; [|cbn in *; lia]. eapply Forall_impl; [exact Hle|]. cbn in *. intros; lia.
  - rewrite set_view, set_schedule, Ev, Eq. unfold after. by rewrite foldl_app.
  - done.
  - destruct (remove_view now l) as [-> ->]. rewrite Ev. unfold after. by rewrite foldl_app.
Qed.

End history.

(** ** Changes happen in order *)

Abbreviation by_time := (StronglySorted (λ x y, fst x ≤ fst y)).

Lemma insert_sorted t c q : by_time q → by_time (insert_transition t c q).
Proof.
  intros Hq. unfold insert_transition. set (p := λ x : Z * bool, t <? fst x). set (pos := default (length q) (position p q)).
  rewrite <- (take_drop pos q) in Hq. apply StronglySorted_app in Hq as (H3 & H1 & H2).
  assert (∀ x, x ∈ take pos q → fst x ≤ t) as Hlo.
  { intros x Hx. apply elem_of_take in Hx as (i & Hi & Hlt). unfold pos in Hlt. destruct (position p q) as [n|] eqn:E; cbn in Hlt.
    - apply position_first in E as [_ E]. specialize (E i x Hlt Hi). unfold p in E. lia.
    - apply list_elem_of_lookup_2 in Hi. pose proof (position_None p q E x Hi) as Hp. unfold p in Hp. lia. }
  assert (∀ y, y ∈ drop pos q → t ≤ fst y) as Hhi.
  { intros y Hy. unfold pos in *. destruct (position p q) as [n|] eqn:E; cbn in *; [|by rewrite drop_all in Hy; apply elem_of_nil in Hy].
    apply position_Some in E as (z & Hz & Hp). rewrite (drop_S _ _ _ Hz) in Hy, H2. inversion H2 as [|? ? _ Hall]; subst. unfold p in Hp.
    apply elem_of_cons in Hy as [->|Hy]; [lia|]. pose proof (proj1 (Forall_forall _ _) Hall y Hy). cbn in *. lia. }
  apply StronglySorted_app. split_and!; [|done|].
  - intros x y Hx [->|Hy]%elem_of_cons; [by apply Hlo|by apply H3].
  - constructor; [done|]. apply Forall_forall. exact Hhi.
Qed.

Lemma not_due_sorted now q : by_time q → by_time (not_due now q) ∧ Forall (λ x, now < fst x) (not_due now q).
Proof.
  induction q as [|[t c] q IH]; intros H; [done|]. cbn [not_due]. inversion H as [|? ? Hs Hx]; subst. destruct (Z.leb_spec t now); [by apply IH|].
  split; [done|]. constructor; [cbn; lia|]. eapply Forall_impl; [exact Hx|]. cbn. intros; lia.
Qed.

Lemma insert_Forall (P : Z * bool → Prop) t c q : P (t, c) → Forall P q → Forall P (insert_transition t c q).
Proof.
  intros Hp Hq. unfold insert_transition. rewrite <- (take_drop (default (length q) (position (λ x, t <? fst x) q)) q) in Hq.
  apply Forall_app in Hq as [H1 H2]. apply Forall_app. split; [done|]. by constructor.
Qed.

Lemma scheduled_sorted q : by_time q → by_time (map of_scheduled q).
Proof.
  induction 1 as [|x q Hq IH Hx]; [constructor|]. cbn. constructor; [done|]. apply Forall_fmap. eapply Forall_impl; [exact Hx|]. done.
Qed.

Lemma happened_sorted ops end_ : ∀ lo q, by_time ops → Forall (λ x, lo ≤ fst x) ops → Forall (op_ok ∘ snd) ops → by_time q → Forall (λ x, lo ≤ fst x) q →
  by_time (happened ops end_ q) ∧ Forall (λ x, lo ≤ fst x) (happened ops end_ q).
Proof.
  assert (∀ now q, by_time q → by_time (map of_scheduled (due now q)) ∧ Forall (λ x, fst x ≤ now) (map of_scheduled (due now q))) as Hdue.
  { intros now q Hq. destruct (due_split now q) as [E Hd]. rewrite E in Hq. apply StronglySorted_app in Hq as (_ & Hq & _). split; [by apply scheduled_sorted|by apply Forall_fmap]. }
  assert (∀ now lo q, Forall (λ x, lo ≤ fst x) q → Forall (λ x, lo ≤ fst x) (map of_scheduled (due now q))) as Hlow.
  { intros now lo q Hq. destruct (due_split now q) as [E _]. rewrite E in Hq. apply Forall_app in Hq as [Hq _]. by apply Forall_fmap. }
  induction ops as [|[now o] ops IH]; intros lo q Hs Hlo Ho Hq Hql; cbn [happened]; [split; [by apply Hdue|by apply Hlow]|].
  inversion Hs as [|? ? Hs' Hle]; subst. apply Forall_cons in Hlo as [Hn Hlo]. apply Forall_cons in Ho as [Ho Hos]. cbn [fst snd] in *.
  assert (∀ ch q', by_time q' → Forall (λ x, now ≤ fst x) q' →
    by_time (map of_scheduled (due now q) ++ (now, ch) :: happened ops end_ q') ∧ Forall (λ x, lo ≤ fst x) (map of_scheduled (due now q) ++ (now, ch) :: happened ops end_ q')) as Hemit.
  { intros ch q' Hq' Hl'. destruct (IH now q' Hs' Hle Hos Hq' Hl') as [H1 H2]. destruct (Hdue now q Hq) as [H3 H4]. split.
    - apply StronglySorted_app. split_and!; [|done|by constructor]. intros x y Hx Hy. pose proof (proj1 (Forall_forall _ _) H4 x Hx). cbn in *.
      apply elem_of_cons in Hy as [->|Hy]; [done|]. pose proof (proj1 (Forall_forall _ _) H2 y Hy). cbn in *. lia.
    - apply Forall_app. split; [by apply Hlow|]. constructor; [done|]. eapply Forall_impl; [exact H2|]. cbn. intros; lia. }
  destruct o as [|a c|w c|].
  - by apply IH.
  - destruct (not_due_sorted now q Hq) as [H1 H2]. apply Hemit; [done|]. eapply Forall_impl; [exact H2|]. cbn. intros; lia.
  - apply IH; [done..|by apply insert_sorted|]. apply insert_Forall; [cbn in *; lia|done].
  - apply Hemit; constructor.
Qed.

(** ** Losses *)

Fixpoint edges (v : view) (h : list change) : list Z :=
  match h with
  | [] => []
  | x :: h => (if v_up v && negb (v_up (apply_change v x)) then [fst x] else []) ++ edges (apply_change v x) h
  end.

Lemma after_downs h : ∀ v, v_downs (after v h) = v_downs v ++ edges v h.
Proof.
  induction h as [|x h IH]; intros v; cbn [after foldl edges]; [by rewrite app_nil_r|]. fold (after (apply_change v x) h). rewrite IH, (assoc app). f_equal.
  unfold apply_change, v_up. cbn. destruct (v_admin v && v_carrier v && _); [done|by rewrite app_nil_r].
Qed.

Lemma edges_later t h : ∀ v, Forall (λ x, t ≤ fst x) h → existsb (λ d, d <? t) (edges v h) = false.
Proof.
  induction h as [|x h IH]; intros v H; [done|]. apply Forall_cons in H as [Hx H]. cbn [edges]. rewrite existsb_app, IH by done.
  destruct (v_up v && _); cbn [existsb]; [|done]. by rewrite (proj2 (Z.ltb_ge _ _) Hx).
Qed.

Lemma edges_spec arrival h : ∀ v, v_up v = true → by_time h →
  existsb (λ d, d <? arrival) (edges v h) = true ↔ ∃ h1 t x h2, h = h1 ++ (t, x) :: h2 ∧ t < arrival ∧ v_up (after v (h1 ++ [(t, x)])) = false.
Proof.
  induction h as [|[t x] h IH]; intros v Hv Hs; cbn [edges].
  - split; [done|]. intros (h1 & t & x & h2 & E & _). by destruct h1.
  - inversion Hs as [|? ? Hs' Hle]; subst. rewrite Hv, existsb_app. cbn [andb fst]. destruct (v_up (apply_change v (t, x))) eqn:Eu; cbn [negb].
    + cbn [existsb orb]. rewrite (IH _ Eu Hs'). split.
      * intros (h1 & t' & x' & h2 & -> & Ht & Hd). by exists ((t, x) :: h1), t', x', h2.
      * intros ([|y h1] & t' & x' & h2 & E & Ht & Hd); cbn in E; injection E as <- E; [by subst; cbn in Hd; rewrite Eu in Hd|]. by exists h1, t', x', h2.
    + cbn [existsb orb]. destruct (Z.ltb_spec t arrival) as [Hlt|Hge]; cbn [orb].
      * split; [|done]. intros _. by exists [], t, x, h.
      * rewrite edges_later by (eapply Forall_impl; [exact Hle|]; cbn in *; intros; lia). split; [done|]. intros (h1 & t' & x' & h2 & E & Ht & _).
        assert ((t', x') ∈ (t, x) :: h) as Hin by (rewrite E; apply elem_of_app; right; by left).
        apply elem_of_cons in Hin as [[= -> ->]|Hin]; [lia|]. pose proof (proj1 (Forall_forall _ _) Hle _ Hin). cbn in *. lia.
Qed.

(** C21: whatever is done to a link after a datagram was sent over it while it was usable, the datagram is lost exactly when some change, a
    scheduled one at its deadline or one made at its instant, leaves the link down before the
    datagram arrives; the changes come in the order of their instants, and looking at the link,
    which is when the code applies what was scheduled, changes nothing. *)
Theorem lost_with_the_link (os : target_os) (l : LinkState) (sent end_ arrival : Z) (ops : list (Z * link_op)) :
  by_time (schedule l) → usable os sent l = true →
  by_time ops → Forall (λ x, sent ≤ fst x ≤ end_) ops → Forall (op_ok ∘ snd) ops →
  let now := settled os sent l in
  let h := happened ops end_ (schedule now) in
  by_time h ∧
  (lost_in_flight os end_ (epoch os sent l) arrival (link_run os ops now) = true ↔
    ∃ h1 t x h2, h = h1 ++ (t, x) :: h2 ∧ t < arrival ∧ v_up (after (view_of now) (h1 ++ [(t, x)])) = false).
Proof.
  intros Hq Hu Hs Ht Ho now h. destruct (settled_view os sent l) as [_ Eq]. fold now in Eq. destruct (not_due_sorted sent _ Hq) as [Hn1 Hn2].
  assert (by_time h) as Hh.
  { apply (happened_sorted ops end_ sent); [done| |done|by rewrite Eq|].
    - eapply Forall_impl; [exact Ht|]. by intros x [? _].
    - rewrite Eq. eapply Forall_impl; [exact Hn2|]. cbn. intros; lia. }
  split; [done|]. unfold lost_in_flight, epoch. fold now.
  change (downs (settled os end_ (link_run os ops now))) with (v_downs (view_of (settled os end_ (link_run os ops now)))).
  rewrite run_happened; [|done| |done]; [|eapply Forall_impl; [exact Ht|]; by intros x [_ ?]]. fold h.
  rewrite after_downs. change (downs now) with (v_downs (view_of now)). rewrite drop_app_length. by apply edges_spec.
Qed.

Lemma lost_with_the_link_witness :
  lost_in_flight Linux 50 (epoch Linux 10 (link_new Linux "eth0" true true)) 30
    (link_run Linux [(12, LSchedule 8 false); (13, LLook); (14, LSchedule 9 true); (40, LLook)] (link_new Linux "eth0" true true)) = true ∧
  ∃ h1 t x h2, happened [(12, LSchedule 8 false); (13, LLook); (14, LSchedule 9 true); (40, LLook)] 50 [] = h1 ++ (t, x) :: h2 ∧ t < 30.
Proof.
  split; [by vm_compute|].
  destruct (lost_with_the_link Linux (link_new Linux "eth0" true true) 10 50 30 [(12, LSchedule 8 false); (13, LLook); (14, LSchedule 9 true); (40, LLook)]) as [_ H].
  - constructor.
  - by vm_compute.
  - repeat constructor; cbn; lia.
  - repeat constructor; cbn; lia.
  - repeat constructor; cbn; lia.
  - destruct (proj1 H) as (h1 & t & x & h2 & E & Hlt & _); [by vm_compute|]. by exists h1, t, x, h2.
Defined.
