(* ===== verification/Netif.v ===== *)
(** * Interfaces and routes

    The topology of the simulated host in crates/snare/src/netif.rs: its interfaces, their addresses,
    stations and links, the routing table, and which way traffic leaves ([egress]).

    An [Arc<LinkState>], which a path or a connection keeps after its interface is gone, is a
    position in the table [links], which only grows. A look at a link applies what was scheduled for
    it; the model reads the link as the look leaves it and stores that only where the code also
    changes it, which [Link.lost_with_the_link] shows to be the same. One call happens at one
    instant, [now]. *)

From Stdlib Require Import QArith.
From S2P Require Import Prelude NetPolicy IpAddr Link.

Local Open Scope Z_scope.

(** ** Results *)

(** An [io::Error], by its kind *)
Inductive io_error := NotFound | AlreadyExists | InvalidInput | RawOs (e : errno).

Inductive Res (E A : Type) := Ok (a : A) | Err (e : E) | Panics.
Arguments Ok {E A} a.
Arguments Err {E A} e.
Arguments Panics {E A}.
#[export] Instance res_ret {E} : MRet (Res E) := λ A a, Ok a.
#[export] Instance res_bind {E} : MBind (Res E) := λ A B f m, match m with Ok a => f a | Err e => Err e | Panics => Panics end.
(** [ok_or], [expect] *)
Definition ok_or {E A} (o : option A) (e : E) : Res E A := match o with Some a => Ok a | None => Err e end.
Definition expect {E A} (o : option A) : Res E A := match o with Some a => Ok a | None => Panics end.
Definition fail_if {E} (b : bool) (e : E) : Res E unit := if b then Err e else Ok tt.
Definition is_some {A} (o : option A) : bool := match o with Some _ => true | None => false end.
(** [Option::or] *)
Definition or_else {A} (o p : option A) : option A := match o with Some _ => o | None => p end.

(** ** Interfaces *)

Record NicSpec := mk_spec {
  s_name : string; s_index : option Z; addresses : list IpNet; stations : list IpAddr;
  s_mac : option (list Z); s_mtu : Z; s_admin_up : bool; s_carrier : bool;
  speed_mbps : option Z; physical_medium : option Z; s_policy : NicPolicy }.
Definition nic_policy_default : NicPolicy := mk_nic_policy 0 0 0 0.
Definition nic_policy_is_default (p : NicPolicy) : bool :=
  (nic_latency p =? 0) && (nic_jitter p =? 0) && Qeq_bool (nic_loss_rate p) 0 && Qeq_bool (nic_duplicate_rate p) 0.
(** [NicSpec::new] *)
Definition spec_new (name : string) : NicSpec :=
  mk_spec name None [] [] None 1500 true true (Some 1000) None nic_policy_default.
Definition with_index (i : option Z) (s : NicSpec) : NicSpec :=
  mk_spec (s_name s) i (addresses s) (stations s) (s_mac s) (s_mtu s) (s_admin_up s) (s_carrier s) (speed_mbps s) (physical_medium s) (s_policy s).
Definition with_link (a c : bool) (s : NicSpec) : NicSpec :=
  mk_spec (s_name s) (s_index s) (addresses s) (stations s) (s_mac s) (s_mtu s) a c (speed_mbps s) (physical_medium s) (s_policy s).
Definition with_addresses (l : list IpNet) (s : NicSpec) : NicSpec :=
  mk_spec (s_name s) (s_index s) l (stations s) (s_mac s) (s_mtu s) (s_admin_up s) (s_carrier s) (speed_mbps s) (physical_medium s) (s_policy s).
Definition with_policy (p : NicPolicy) (s : NicSpec) : NicSpec :=
  mk_spec (s_name s) (s_index s) (addresses s) (stations s) (s_mac s) (s_mtu s) (s_admin_up s) (s_carrier s) (speed_mbps s) (physical_medium s) p.

Record NicCounters := mk_counters {
  rx_packets : Z; tx_packets : Z; rx_bytes : Z; tx_bytes : Z; rx_errors : Z; tx_errors : Z;
  rx_dropped : Z; tx_dropped : Z; multicast : Z; tx_carrier_errors : Z; rx_nohandler : Z }.
Definition counters_default : NicCounters := mk_counters 0 0 0 0 0 0 0 0 0 0 0.

Inductive Origin := Explicit | Auto.
#[export] Instance Origin_eq_dec : EqDecision Origin.
Proof. solve_decision. Defined.

(** [link] is the position of the interface's link. *)
Record NicRec := mk_nic { index : Z; spec : NicSpec; loopback : bool; link : nat; counters : NicCounters; origins : gmap IpAddr Origin }.
Definition nic_name (n : NicRec) : string := s_name (spec n).

Record Route := mk_route { dest : IpNet; r_nic : string; gateway : option IpAddr; r_src : option IpAddr; metric : Z }.
#[export] Instance Route_eq_dec : EqDecision Route.
Proof. solve_decision. Defined.
Definition route_new (d : IpNet) (nic : string) (m : Z) : Route := mk_route d nic None None m.

Record NicSnapshot := mk_snapshot { sn_index : Z; sn_spec : NicSpec; sn_counters : NicCounters; sn_loopback : bool }.

Record Topology := mk_topology {
  nics : list NicRec; routes : list Route; open : bool; sim0 : option Z; links : list LinkState }.
Definition with_nics (l : list NicRec) (t : Topology) : Topology := mk_topology l (routes t) (open t) (sim0 t) (links t).
Definition with_routes (l : list Route) (t : Topology) : Topology := mk_topology (nics t) l (open t) (sim0 t) (links t).
Definition with_open (b : bool) (t : Topology) : Topology := mk_topology (nics t) (routes t) b (sim0 t) (links t).
Definition with_sim0 (i : option Z) (t : Topology) : Topology := mk_topology (nics t) (routes t) (open t) i (links t).
Definition with_links (l : list LinkState) (t : Topology) : Topology := mk_topology (nics t) (routes t) (open t) (sim0 t) l.

(** What a topology change leaves to record and whether waiters are woken, [After] *)
Record After := mk_after { events : list NicChanged; kick : bool }.

(** ** Sockets as the routes see them *)

Inductive Op := OpSend | OpConnect.
Record SockView := mk_sock_view { local : option SocketAddr; device : option Z; mcast_if : option Z }.
Record Path := mk_path { p_egress : Z; p_name : string; p_src : IpAddr; p_gateway : option IpAddr; p_link : nat; p_local : bool }.
Inductive Sender := Host (p : Path) | Station (i : IpAddr).
Record Hop := mk_hop { h_index : Z; h_link : nat }.
Inductive DestKind := Unicast | Limited | Directed (n : IpNet) | Multicast.
#[export] Instance DestKind_eq_dec : EqDecision DestKind.
Proof. solve_decision. Defined.
Inductive Presence := PHost | PStation | PAbsent.
#[export] Instance Presence_eq_dec : EqDecision Presence.
Proof. solve_decision. Defined.

(** [Sender::source], [connected_local], [egress_name] *)
Definition source (s : Sender) (l : SocketAddr) : SocketAddr :=
  match s with
  | Host p => if is_unspecified (ip l) then socket_addr (p_src p) (port l) else l
  | Station _ => l
  end.
Definition connected_local (s : Sender) (l : SocketAddr) : SocketAddr :=
  let src := source s l in
  match ip src, ip l with
  | V4 a, V6 _ => socket_addr (V6 (to_ipv6_mapped a)) (port l)
  | V6 _, V4 _ => l
  | _, _ => src
  end.
Definition egress_name (s : Sender) : option string := match s with Host p => Some (p_name p) | Station _ => None end.

Section topology.
Context (os : target_os).

(** A link that is gone; every position the code holds is in the table ([NetifProps.topology_ok]),
    so that it stands for none. *)
Definition no_link : LinkState := mk_link "" false false true [] [] [].
Definition link_at (t : Topology) (i : nat) : LinkState := default no_link (links t !! i).

(** [loopback_spec] *)
Definition loopback_spec : NicSpec :=
  mk_spec (if is_linux os then "lo" else if is_macos os then "lo0" else "Loopback Pseudo-Interface 1") (Some 1)
    [mk_net LOCALHOST4 8; net_host LOCALHOST6] [] None (if is_linux os then 65536 else if is_macos os then 16384 else u32_max)
    true true None None nic_policy_default.

(** The origins of a specification's addresses, [.map(|n| (n.addr, Origin::Explicit)).collect()] *)
Definition origins_of (f : IpAddr → Origin) (s : NicSpec) : gmap IpAddr Origin :=
  list_to_map (map (λ n, (addr n, f (addr n))) (addresses s)).

(** [Topology::new] *)
Definition topology_new : Topology :=
  mk_topology [mk_nic 1 loopback_spec true 0 counters_default (origins_of (λ _, Explicit) loopback_spec)] [] true None
    [link_new os (s_name loopback_spec) (s_admin_up loopback_spec) (s_carrier loopback_spec)].

(** [lo], [nic], [by_name], [free_index] *)
Definition lo (t : Topology) : option NicRec := find_first loopback (nics t).
Definition nic (i : Z) (t : Topology) : option NicRec := find_first (λ n, index n =? i) (nics t).
Definition by_name (s : string) (t : Topology) : option NicRec := find_first (λ n, bool_decide (nic_name n = s)) (nics t).
Definition free_index (from : Z) (t : Topology) : option Z :=
  find_first (λ i, negb (is_some (nic i t))) (seqZ from (Z.of_nat (length (nics t)) + 1)).
(** [nic_mut], with what the caller does to the interface *)
Definition upd_nic (i : Z) (f : NicRec → NicRec) (t : Topology) : Topology :=
  match position (λ n, index n =? i) (nics t) with
  | Some k => with_nics (alter f k (nics t)) t
  | None => t
  end.

(** [sort_by_key(|n| n.index)] *)
Fixpoint insert_by_index (n : NicRec) (l : list NicRec) : list NicRec :=
  match l with
  | [] => [n]
  | m :: l => if index n <=? index m then n :: m :: l else m :: insert_by_index n l
  end.
Definition sort_by_index (l : list NicRec) : list NicRec := foldr insert_by_index [] l.

(** [Topology::insert] *)
Definition insert_nic (s : NicSpec) (c : NicCounters) (t : Topology) : Res io_error (Z * Topology) :=
  fail_if (is_some (by_name (s_name s) t)) AlreadyExists;;
  i ← match s_index s with
      | Some i => fail_if (i =? 0) InvalidInput;; fail_if (is_some (nic i t)) AlreadyExists;; Ok i
      | None => expect (free_index 2 t)
      end;
  let s := with_index (Some i) s in
  let t := if match addresses s with [] => false | _ => true end then with_open false t else t in
  let n := mk_nic i s false (length (links t)) c (origins_of (λ _, Explicit) s) in
  let t := with_links (links t ++ [link_new os (s_name s) (s_admin_up s) (s_carrier s)]) t in
  Ok (i, with_nics (sort_by_index (nics t ++ [n])) t).

(** [make_room] *)
Definition make_room (i : Z) (t : Topology) : Res io_error Topology :=
  l ← expect (lo t);
  if index l =? i then
    free ← expect (free_index 2 t);
    free ← expect (free_index (Z.max free (i + 1)) t);
    let move n := mk_nic free (with_index (Some free) (spec n)) (loopback n) (link n) (counters n) (origins n) in
    match position loopback (nics t) with
    | Some k => Ok (with_nics (sort_by_index (alter move k (nics t))) t)
    | None => Ok (with_nics (sort_by_index (nics t)) t)
    end
  else Ok t.

(** [snapshot], [has_address], [addresses_live], [routes_live], [source_for] *)
Definition snapshot (now : Z) (t : Topology) (n : NicRec) : NicSnapshot :=
  let l := settled os now (link_at t (link n)) in
  mk_snapshot (index n) (with_link (admin_up l) (carrier l) (with_index (Some (index n)) (spec n))) (counters n) (loopback n).
Definition has_address (i : IpAddr) (n : NicRec) : bool :=
  (loopback n && is_loopback i) || existsb (λ net, bool_decide (addr net = i)) (addresses (spec n)).
Definition addresses_live (now : Z) (t : Topology) (n : NicRec) : bool := negb (is_windows os) || usable os now (link_at t (link n)).
Definition routes_live (now : Z) (t : Topology) (n : NicRec) : bool :=
  let l := link_at t (link n) in
  if removed l then false else if is_windows os then usable os now l else admin os now l.
Definition source_for (dst : IpAddr) (n : NicRec) : option IpAddr :=
  let family := retain (λ net, bool_decide (is_ipv4 (addr net) = is_ipv4 dst)) (addresses (spec n)) in
  match find_first (λ net, contains net dst) family with
  | Some net => Some (addr net)
  | None => addr <$> head family
  end.

(** [all_routes] *)
Definition connected_routes (n : NicRec) : list Route :=
  map (λ net, mk_route (mk_net (network net) (prefix net)) (nic_name n) None (Some (addr net)) 0)
    (retain (λ net, prefix net <? max_prefix (addr net)) (addresses (spec n))).
Definition all_routes (t : Topology) : list Route :=
  concat (map connected_routes (retain (λ n, negb (loopback n)) (nics t))) ++ routes t.

(** [Rank] and its order: the prefix, then the preferred interface, then a low metric *)
Definition Rank : Type := Z * bool * Z.
Definition rank_gt (a b : Rank) : bool :=
  let '(p, x, m) := a in let '(q, y, n) := b in
  (q <? p) || ((q =? p) && ((negb y && x) || (eqb y x && (m <? n)))).

(** [lpm] *)
Definition lpm_step (dst : IpAddr) (ok : NicRec → bool) (prefer : option Z) (t : Topology) (best : option (Route * Z * Rank)) (r : Route)
    : option (Route * Z * Rank) :=
  if negb (contains (dest r) dst) then best
  else match by_name (r_nic r) t with
       | None => best
       | Some n =>
           if negb (ok n) then best
           else
             let key := (prefix (dest r), bool_decide (prefer = Some (index n)), metric r) in
             match best with
             | Some (_, _, k) => if rank_gt key k then Some (r, index n, key) else best
             | None => Some (r, index n, key)
             end
       end.
Definition lpm (dst : IpAddr) (ok : NicRec → bool) (prefer : option Z) (t : Topology) : option (Route * Z) :=
  fst <$> foldl (lpm_step dst ok prefer t) None (all_routes t).

(** [owner], [is_host], [holds], [is_station_ip], [segment] *)
Definition owner (i : IpAddr) (t : Topology) : option NicRec := find_first (has_address i) (nics t).
Definition is_host (now : Z) (i : IpAddr) (t : Topology) : bool :=
  is_loopback i || match owner i t with Some n => addresses_live now t n | None => false end.
Definition holds_address (now : Z) (i : IpAddr) (t : Topology) : bool :=
  existsb (λ n, addresses_live now t n && existsb (λ net, bool_decide (addr net = i)) (addresses (spec n))) (nics t).
Definition lists_station (i : IpAddr) (n : NicRec) : bool := bool_decide (i ∈ stations (spec n)).
Definition is_station_ip (i : IpAddr) (t : Topology) : bool := existsb (lists_station i) (nics t).
Definition segment (i : IpAddr) (t : Topology) : option Z :=
  match find_first (lists_station i) (nics t) with
  | Some n => Some (index n)
  | None => snd <$> lpm i (λ n, negb (removed (link_at t (link n)))) None t
  end.

(** [dest_kind], [is_broadcast] *)
Definition dest_kind (i : IpAddr) (t : Topology) : DestKind :=
  if is_multicast i then Multicast
  else if bool_decide (i = BROADCAST) then Limited
  else match find_first (λ net, bool_decide (broadcast net = Some i)) (concat (map (λ n, addresses (spec n)) (nics t))) with
       | Some net => Directed net
       | None => Unicast
       end.
Definition is_broadcast (i : IpAddr) (t : Topology) : bool :=
  match dest_kind i t with Limited | Directed _ => true | _ => false end.

(** [name_of], [index_of], [mtu_of], [link_of], [wire_of], [mac_of] *)
Definition name_of (i : Z) (t : Topology) : option string := nic_name <$> nic i t.
Definition index_of (s : string) (t : Topology) : option Z := index <$> by_name s t.
Definition mtu_of (i : Z) (t : Topology) : option Z := (λ n, s_mtu (spec n)) <$> nic i t.
Definition link_of (i : Z) (t : Topology) : option nat := link <$> nic i t.
Definition wire_of (i : Z) (t : Topology) : option (string * Z * bool) := (λ n, (nic_name n, s_mtu (spec n), loopback n)) <$> nic i t.
Definition derived_mac (i : Z) : list Z := [2; 0; Z.shiftr i 24 mod 256; Z.shiftr i 16 mod 256; Z.shiftr i 8 mod 256; i mod 256].
Definition mac_of (i : IpAddr) (t : Topology) : option (list Z) :=
  (λ n, default (derived_mac (index n)) (s_mac (spec n))) <$> find_first (λ n, negb (loopback n) && has_address i n) (nics t).
Definition hw_addr (s : NicSnapshot) : list Z :=
  if sn_loopback s then [0; 0; 0; 0; 0; 0] else default (derived_mac (sn_index s)) (s_mac (sn_spec s)).

(** ** The way out *)

(** [fallback_source], [path], [no_route] *)
Definition fallback_source (now : Z) (dst : IpAddr) (t : Topology) : IpAddr :=
  match omap (source_for dst) (retain (λ n, negb (loopback n) && addresses_live now t n) (nics t)) with
  | i :: _ => i
  | [] => if is_ipv4 dst then LOCALHOST4 else LOCALHOST6
  end.
Definition path_via (n : NicRec) (src : IpAddr) (gw : option IpAddr) (loc : bool) : Path :=
  mk_path (index n) (nic_name n) src gw (link n) loc.
Definition no_route (op : Op) (bound : bool) : errno :=
  if is_macos os && match op with OpSend => true | OpConnect => false end && bound then EHOSTUNREACH else ENETUNREACH.

(** The bound address, but for the wildcard and a group *)
Definition bound_of (v : SockView) : option IpAddr :=
  match local v with
  | Some l => if is_unspecified (ip l) || is_multicast (ip l) then None else Some (ip l)
  | None => None
  end.
(** The closure [src_from] *)
Definition src_from (now : Z) (bound : option IpAddr) (dst : IpAddr) (t : Topology) (n : NicRec) (route_src : option IpAddr) : IpAddr :=
  let route_src := match route_src with Some s => if eqb (is_ipv4 s) (is_ipv4 dst) then Some s else None | None => None end in
  match or_else bound (or_else route_src (source_for dst n)) with
  | Some s => s
  | None => fallback_source now dst t
  end.

(** A multicast or limited broadcast's interface: the one chosen, else the one of the source *)
Definition group_index (v : SockView) (dst : IpAddr) (own : option NicRec) : option Z :=
  if is_multicast dst || bool_decide (dst = BROADCAST) then
    or_else (if is_multicast dst then mcast_if v else None) (or_else (device v) (index <$> own))
  else None.

(** The branch of a socket bound to the interface [dev] *)
Definition egress_bound (now : Z) (bound : option IpAddr) (dst : IpAddr) (dev : Z) (t : Topology) : Res errno Path :=
  n ← ok_or (nic dev t) ENETUNREACH;
  let scoped := lpm dst (λ n, (index n =? dev) && routes_live now t n) None t in
  let from src := src_from now bound dst t n src in
  if is_macos os then
    fail_if (negb (admin os now (link_at t (link n)))) ENETDOWN;;
    '(r, _) ← ok_or scoped ENETUNREACH;
    Ok (path_via n (from (r_src r)) (gateway r) false)
  else
    fail_if (is_windows os && negb (routes_live now t n)) ENETUNREACH;;
    fail_if (negb (admin os now (link_at t (link n)))) ENETUNREACH;;
    match scoped with
    | Some (r, _) => Ok (path_via n (from (r_src r)) (gateway r) false)
    | None => Ok (path_via n (from None) None false)
    end.

(** The branch that follows the table *)
Definition egress_routed (now : Z) (bound : option IpAddr) (own : option NicRec) (dst : IpAddr) (op : Op) (t : Topology) : Res errno Path :=
  let prefer := index <$> own in
  '(r, i) ← ok_or (lpm dst (routes_live now t) prefer t) (no_route op (is_some bound));
  '(r, i) ← (if is_windows os && is_some bound && negb (bool_decide (prefer = Some i)) then
               ok_or (lpm dst (λ n, routes_live now t n && bool_decide (Some (index n) = prefer)) None t) ENETUNREACH
             else Ok (r, i));
  n ← expect (nic i t);
  Ok (path_via n (src_from now bound dst t n (r_src r)) (gateway r) false).

(** [egress] *)
Definition egress (now : Z) (v : SockView) (dst : IpAddr) (op : Op) (dst_host : bool) (t : Topology) : Res errno Path :=
  let bound := bound_of v in
  if dst_host then
    l ← expect (lo t);
    let here := match dst with V4 _ => if is_loopback dst then LOCALHOST4 else dst | V6 _ => dst end in
    Ok (path_via l (default here bound) None true)
  else
    let own := i ← bound; owner i t in
    match group_index v dst own with
    | Some i => n ← ok_or (nic i t) ENETUNREACH; Ok (path_via n (src_from now bound dst t n None) None false)
    | None =>
        fail_if (match bound with Some i => is_loopback i | None => false end && negb (is_windows os))
          (if is_linux os then EINVAL else EADDRNOTAVAIL);;
        fail_if (is_macos os && match own with Some n => negb (admin os now (link_at t (link n))) | None => false end) ENETDOWN;;
        match (if is_windows os && is_multicast dst then None else device v) with
        | Some dev => egress_bound now bound dst dev t
        | None => egress_routed now bound own dst op t
        end
    end.

(** [claim] *)
Definition claim (now : Z) (i : IpAddr) (t : Topology) : Res errno Topology :=
  fail_if (is_multicast i && is_windows os) EADDRNOTAVAIL;;
  if is_unspecified i || is_multicast i || is_broadcast i t || is_host now i t then Ok t
  else if is_station_ip i t then Ok t
  else
    fail_if (negb (open t) || is_some (owner i t)) EADDRNOTAVAIL;;
    l ← expect (lo t);
    let k := default (index l)
      (or_else (k ← sim0 t; if is_some (nic k t) then Some k else None) (index <$> find_first (λ n, negb (loopback n)) (nics t))) in
    _ ← expect (nic k t);
    Ok (upd_nic k (λ n, mk_nic (index n) (with_addresses (addresses (spec n) ++ [net_host i]) (spec n)) (loopback n) (link n) (counters n)
                          (<[i := Auto]> (origins n))) t).

(** [presence], [syn_presence], [on_link] *)
Definition presence (now : Z) (i : IpAddr) (station : bool) (t : Topology) : Presence :=
  if is_host now i t then PHost
  else if station || is_station_ip i t then PStation
  else if open t then PHost else PAbsent.
Definition syn_presence (now : Z) (i : IpAddr) (station : bool) (t : Topology) : Presence :=
  if is_host now i t then PHost else if station || is_station_ip i t then PStation else PAbsent.
Definition on_link (now : Z) (i : IpAddr) (t : Topology) : bool :=
  match lpm i (routes_live now t) None t with Some (r, _) => negb (is_some (gateway r)) && (0 <? prefix (dest r)) | None => false end.

(** [policy_of] *)
Definition policy_of (i : Z) (t : Topology) : option NicPolicy :=
  n ← nic i t; if nic_policy_is_default (s_policy (spec n)) then None else Some (s_policy (spec n)).

End topology.

(** ** Changes to a running sim

    [impl SimShared]: each takes the topology's lock, and records its events and wakes the waiters
    once it has let it go. One that fails leaves the topology as it was. *)

Section changes.
Context (os : target_os).

Definition kicked : After := mk_after [] true.
Definition quietly : After := mk_after [] false.

(** [settle_links] *)
Definition settle_links (now : Z) (t : Topology) : Topology * After :=
  let in_use := link <$> nics t in
  let look k l := if bool_decide (k ∈ in_use) then settled os now l else l in
  (with_links (imap look (links t)) t,
   mk_after (concat (map (λ n, snd (apply_due os now (link_at t (link n)))) (nics t))) false).

(** [init_topology]; [None] a sim definition that is refused with a panic *)
Fixpoint insert_host (l : list (NicSpec * NicCounters)) (t : Topology) : option Topology :=
  match l with
  | [] => Some t
  | (s, c) :: l =>
      match (t ← match s_index s with Some i => make_room i t | None => Ok t end; insert_nic os s c t) with
      | Ok (_, t) => insert_host l t
      | _ => None
      end
  end.
Fixpoint insert_all (l : list NicSpec) (t : Topology) : option Topology :=
  match l with
  | [] => Some t
  | s :: l => match insert_nic os s counters_default t with Ok (_, t) => insert_all l t | _ => None end
  end.
Definition default_routes (name : string) : list Route :=
  [route_new (mk_net UNSPECIFIED4 0) name 100; route_new (mk_net UNSPECIFIED6 0) name 100].
Fixpoint push_routes (l : list Route) (t : Topology) : option Topology :=
  match l with
  | [] => Some t
  | r :: l => if is_some (by_name (r_nic r) t) then push_routes l (with_routes (routes t ++ [r]) t) else None
  end.
Definition init_topology (host_nics : list (NicSpec * NicCounters)) (host_routes : list Route) (specs : list NicSpec) (rs : list Route)
    (t : Topology) : option Topology :=
  t ← insert_host host_nics t;
  t ← insert_all specs t;
  '(name, t) ← match host_nics with
               | _ :: _ => Some (nic_name <$> find_first (λ n, negb (loopback n)) (nics t), t)
               | [] =>
                   i ← free_index 2 t;
                   match insert_nic os (with_index (Some i) (spec_new "sim0")) counters_default t with
                   | Ok (_, t) => Some (Some "sim0"%string, with_sim0 (Some i) t)
                   | _ => None
                   end
               end;
  let explicit := existsb (λ r, prefix (dest r) =? 0) host_routes in
  let t := match name with
           | Some s => if explicit then t else with_routes (routes t ++ default_routes s) t
           | None => t
           end in
  push_routes (host_routes ++ rs) t.

(** [add_nic] *)
Definition add_nic (s : NicSpec) (t : Topology) : Res io_error (Z * Topology * After) :=
  '(i, t) ← insert_nic os s counters_default t;
  Ok (i, t, mk_after [mk_changed 0 (s_name s) (s_admin_up s) (s_carrier s)] true).

(** [remove_nic] *)
Definition remove_nic (now : Z) (name : string) (t : Topology) : Res io_error (unit * Topology * After) :=
  n ← ok_or (by_name name t) NotFound;
  fail_if (loopback n) InvalidInput;;
  pos ← expect (position (λ m, index m =? index n) (nics t));
  rec ← expect (nics t !! pos);
  let t := with_nics (delete pos (nics t)) t in
  let t := with_routes (retain (λ r, negb (bool_decide (r_nic r = name))) (routes t)) t in
  let t := if bool_decide (sim0 t = Some (index n)) then with_sim0 None t else t in
  let due := snd (apply_due os now (link_at t (link rec))) in
  Ok (tt, with_links (alter (link_remove os now) (link rec) (links t)) t, mk_after (due ++ [mk_changed 0 name false false]) true).

(** [set_nic] *)
Definition set_nic (now : Z) (name : string) (change : NicSpec → NicSpec) (t : Topology) : Res io_error (unit * Topology * After) :=
  i ← ok_or (index_of name t) NotFound;
  n ← expect (nic i t);
  let due := snd (apply_due os now (link_at t (link n))) in
  let s := change (sn_spec (snapshot os now t n)) in
  fail_if (negb (bool_decide (s_name s = name)) || negb (bool_decide (s_index s = Some i))) InvalidInput;;
  let t := if negb (loopback n) && existsb (λ net, negb (bool_decide (origins n !! addr net = Some Auto))) (addresses s)
           then with_open false t else t in
  let '(changed, l) := link_set os (Some (s_admin_up s)) (Some (s_carrier s)) now (settled os now (link_at t (link n))) in
  let t := with_links (alter (λ _, l) (link n) (links t)) t in
  let kept := λ a, default Explicit (origins n !! a) in
  let t := upd_nic i (λ n, mk_nic (index n) s (loopback n) (link n) (counters n) (origins_of kept s)) t in
  Ok (tt, t, mk_after (due ++ if changed then [mk_changed 0 name (s_admin_up s) (s_carrier s)] else []) true).

(** [set_link] *)
Definition set_link (now : Z) (name : string) (c : bool) (t : Topology) : Res io_error (unit * Topology * After) :=
  set_nic now name (λ s, with_link (s_admin_up s) c s) t.

(** [schedule_link] *)
Definition schedule_link (now : Z) (name : string) (span : Z) (c : bool) (t : Topology) : Res io_error (unit * Topology * After) :=
  n ← ok_or (by_name name t) NotFound;
  let add l := with_schedule (insert_transition (now + span) c (schedule l)) l in
  Ok (tt, with_links (alter add (link n) (links t)) t, kicked).

(** [set_nic_policy], [set_nic_counters] *)
Definition set_nic_policy (name : string) (change : NicPolicy → NicPolicy) (t : Topology) : Res io_error (unit * Topology * After) :=
  i ← ok_or (index_of name t) NotFound;
  _ ← expect (nic i t);
  let set n := mk_nic (index n) (with_policy (change (s_policy (spec n))) (spec n)) (loopback n) (link n) (counters n) (origins n) in
  Ok (tt, upd_nic i set t, kicked).
Definition with_counters (f : NicCounters → NicCounters) (n : NicRec) : NicRec :=
  mk_nic (index n) (spec n) (loopback n) (link n) (f (counters n)) (origins n).
Definition set_nic_counters (name : string) (change : NicCounters → NicCounters) (t : Topology) : Res io_error (unit * Topology * After) :=
  i ← ok_or (index_of name t) NotFound;
  _ ← expect (nic i t);
  Ok (tt, upd_nic i (with_counters change) t, quietly).

(** [add_route], [remove_route], [set_default_route] *)
Definition add_route (r : Route) (t : Topology) : Res io_error (unit * Topology * After) :=
  fail_if (negb (is_some (by_name (r_nic r) t))) NotFound;;
  Ok (tt, with_routes (routes t ++ [r]) t, kicked).
Definition remove_route (d : IpNet) (t : Topology) : bool * Topology * After :=
  let rs := retain (λ r, negb (bool_decide (dest r = d))) (routes t) in
  let removed := negb (length rs =? length (routes t))%nat in
  (removed, with_routes rs t, if removed then kicked else quietly).
Definition set_default_route (name : option string) (t : Topology) : Res io_error (unit * Topology * After) :=
  fail_if (match name with Some s => negb (is_some (by_name s t)) | None => false end) NotFound;;
  let rs := retain (λ r, negb (prefix (dest r) =? 0)) (routes t) in
  Ok (tt, with_routes (rs ++ match name with Some s => default_routes s | None => [] end) t, kicked).

(** [live_routes] *)
Definition live_routes (now : Z) (t : Topology) : list (Route * Z) :=
  omap (λ r, n ← by_name (r_nic r) t; if routes_live os now t n then Some (r, index n) else None) (all_routes t).

(** [route_lookup] *)
Record RouteChoice := mk_choice { rc_nic : string; rc_index : Z; rc_src : option IpAddr; rc_gateway : option IpAddr }.
Definition route_lookup (now : Z) (src : option IpAddr) (dst : IpAddr) (t : Topology) : Res errno RouteChoice :=
  let v := mk_sock_view ((λ i, socket_addr i 0) <$> src) None None in
  p ← egress os now v dst OpConnect (is_host os now dst t) t;
  Ok (mk_choice (p_name p) (p_egress p) (Some (p_src p)) (p_gateway p)).

(** [route_send]; the error numbers it also records as an unreachable network *)
Definition unreachable (e : errno) : bool := bool_decide (e ∈ [ENETUNREACH; EHOSTUNREACH; ENETDOWN]).
Definition route_send (now : Z) (v : SockView) (d : SocketAddr) (op : Op) (station broadcast_ok : bool) (t : Topology) : Res errno Sender :=
  match (l ← local v; if is_station_ip (ip l) t then Some (ip l) else None) with
  | Some i => Ok (Station i)
  | None =>
      let kind := dest_kind (ip d) t in
      fail_if (match kind with Limited | Directed _ => true | _ => false end && negb broadcast_ok) EACCES;;
      let dst_host := bool_decide (kind = Unicast) && bool_decide (presence os now (ip d) station t = PHost) in
      p ← egress os now v (ip d) op dst_host t;
      Ok (Host p)
  end.

(** [syn_target], [dest_is_host], [icmp_one_way] *)
Definition syn_target (now : Z) (i : IpAddr) (station : bool) (t : Topology) : Presence * bool :=
  (syn_presence os now i station t, on_link os now i t).
Definition dest_is_host (now : Z) (i : IpAddr) (station : bool) (t : Topology) : bool :=
  bool_decide (dest_kind i t = Unicast) && bool_decide (presence os now i station t = PHost).
Definition icmp_one_way (now : Z) (s : Sender) (i : IpAddr) (station : bool) (t : Topology) : option Z :=
  if negb (bool_decide (dest_kind i t = Unicast)) || bool_decide (presence os now i station t = PAbsent) then None
  else
    let elsewhere p := match segment i t with Some seg => negb (seg =? p_egress p) | None => false end in
    match s with
    | Host p =>
        if negb (p_local p) && negb (is_some (p_gateway p)) && elsewhere p then None
        else if p_local p then Some 0
        else Some (match policy_of (p_egress p) t with Some q => nic_latency q | None => 0 end)
    | Station _ => Some 0
    end.

(** [tcp_hop], [hop_name] *)
Definition tcp_hop (s : Sender) (i : IpAddr) (t : Topology) : option Hop :=
  match s with
  | Host p => if p_local p then None else Some (mk_hop (p_egress p) (p_link p))
  | Station _ => k ← segment i t; l ← link_of k t; Some (mk_hop k l)
  end.
Definition hop_name (h : option Hop) (t : Topology) : Res errno (option string) :=
  l ← expect (lo t); Ok (name_of (match h with Some h => h_index h | None => index l end) t).

End changes.
