(* ===== verification/NetifProps.v ===== *)
(** * Interfaces and routes: theorems

    The invariant of a topology over any changes to it, what a route lookup finds, and the way out
    that [egress] takes. *)

From Stdlib Require Import QArith.
From S2P Require Import Prelude NetPolicy IpAddr Link Netif.

Local Open Scope Z_scope.

(** ** The invariant *)

(** What an interface is known by stays as it is while the rest of it changes. *)
Definition known_by (n : NicRec) : Z * string * bool * nat := (index n, nic_name n, loopback n, link n).

Record nic_ok (t : Topology) (n : NicRec) : Prop := {
  no_index : 1 ≤ index n;
  no_spec : s_index (spec n) = Some (index n);
  no_link_there : ∃ l, links t !! link n = Some l ∧ removed l = false ∧ link_name l = nic_name n;
  no_origins : dom (origins n) = list_to_set (addr <$> addresses (spec n));
  no_auto : open t = true → loopback n = false → ∀ a o, origins n !! a = Some o → o = Auto;
}.

(** Interfaces in the order of their indexes, with names and links of their own, one of them
    loopback; every route and the default interface name one of them; their links are there and not
    removed; in an open sim nobody has configured an address. *)
Record topology_ok (t : Topology) : Prop := {
  to_sorted : StronglySorted Z.lt (index <$> nics t);
  to_names : NoDup (nic_name <$> nics t);
  to_links : NoDup (link <$> nics t);
  to_lo : length (retain id (loopback <$> nics t)) = 1%nat;
  to_routes : Forall (λ r, r_nic r ∈ nic_name <$> nics t) (routes t);
  to_sim0 : ∀ i, sim0 t = Some i → i ∈ index <$> nics t;
  to_nics : Forall (nic_ok t) (nics t);
  to_schedules : Forall (λ l, by_time (schedule l)) (links t);
}.

(** ** Lookups *)

Lemma find_first_is_some {A} (p : A → bool) l : is_some (find_first p l) = existsb p l.
Proof. induction l as [|x l IH]; [done|]. cbn. by destruct (p x). Qed.

Lemma find_first_exists {A} (p : A → bool) l x : x ∈ l → p x = true → ∃ y, find_first p l = Some y.
Proof. induction 1 as [x l|x y l _ IH]; intros Hp; cbn; [rewrite Hp; eauto|]. destruct (p y); eauto. Qed.

Lemma nic_there i t : i ∈ index <$> nics t ↔ ∃ n, nic i t = Some n ∧ index n = i ∧ n ∈ nics t.
Proof.
  unfold nic. split.
  - intros (n & -> & Hn)%list_elem_of_fmap. destruct (find_first_exists (λ m, index m =? index n) (nics t) n Hn) as [m Hm]; [by rewrite Z.eqb_refl|].
    exists m. apply find_first_Some in Hm as Hm'. destruct Hm' as [? ?%Z.eqb_eq]. done.
  - intros (n & _ & <- & Hn). by apply list_elem_of_fmap_2.
Qed.

Lemma name_there s t : s ∈ nic_name <$> nics t ↔ ∃ n, by_name s t = Some n ∧ nic_name n = s ∧ n ∈ nics t.
Proof.
  unfold by_name. split.
  - intros (n & -> & Hn)%list_elem_of_fmap. destruct (find_first_exists (λ m, bool_decide (nic_name m = nic_name n)) (nics t) n Hn) as [m Hm]; [by apply bool_decide_eq_true|].
    exists m. apply find_first_Some in Hm as Hm'. destruct Hm' as [? ?%bool_decide_eq_true]. done.
  - intros (n & _ & <- & Hn). by apply list_elem_of_fmap_2.
Qed.

Lemma by_name_elem s t n : by_name s t = Some n → n ∈ nics t ∧ nic_name n = s.
Proof. intros [H ?%bool_decide_eq_true]%find_first_Some. done. Qed.
Lemma nic_elem i t n : nic i t = Some n → n ∈ nics t ∧ index n = i.
Proof. intros [H ?%Z.eqb_eq]%find_first_Some. done. Qed.

Lemma lo_there t : topology_ok t → ∃ n, lo t = Some n ∧ n ∈ nics t ∧ loopback n = true.
Proof.
  intros Ht. pose proof (to_lo _ Ht) as H. unfold lo.
  destruct (find_first loopback (nics t)) as [n|] eqn:E; [apply find_first_Some in E as [? ?]; by exists n|]. exfalso.
  rewrite retain_none in H; [done|]. intros b (n & -> & Hn)%list_elem_of_fmap. rewrite find_first_None in E. by apply E.
Qed.

(** An index nobody has is soon found. *)
Lemma free_index_there from t : ∃ i, free_index from t = Some i ∧ from ≤ i ∧ i ∉ index <$> nics t.
Proof.
  unfold free_index. set (cands := seqZ from (Z.of_nat (length (nics t)) + 1)).
  destruct (find_first (λ i, negb (is_some (nic i t))) cands) as [i|] eqn:E.
  - exists i. apply find_first_Some in E as [Hin Hp]. split; [done|]. unfold cands in Hin. apply elem_of_seqZ in Hin. split; [lia|].
    rewrite nic_there. intros (n & Hn & _). by rewrite Hn in Hp.
  - exfalso. rewrite find_first_None in E. assert (cands ⊆+ index <$> nics t) as Hs.
    { apply NoDup_submseteq; [apply NoDup_seqZ|]. intros i Hi. specialize (E i Hi). cbn in E. apply nic_there. destruct (nic i t) as [n|] eqn:En; [|done].
      destruct (nic_elem _ _ _ En). by exists n. }
    apply submseteq_length in Hs. unfold cands in Hs. rewrite length_seqZ, length_fmap in Hs. lia.
Qed.

(** ** Changes that keep it *)

Lemma insert_by_index_perm n l : insert_by_index n l ≡ₚ n :: l.
Proof. induction l as [|m l IH]; cbn; [done|]. destruct (index n <=? index m); [done|]. rewrite IH. constructor. Qed.
Lemma sort_by_index_perm l : sort_by_index l ≡ₚ l.
Proof. induction l as [|n l IH]; [done|]. cbn. rewrite insert_by_index_perm. by constructor. Qed.

Lemma insert_by_index_sorted n l : StronglySorted Z.lt (index <$> l) → index n ∉ index <$> l → StronglySorted Z.lt (index <$> insert_by_index n l).
Proof.
  induction l as [|m l IH]; intros Hs Hn; cbn; [repeat constructor|]. rewrite fmap_cons in Hs. inversion Hs as [|? ? Hs' Hm]; subst.
  rewrite fmap_cons, not_elem_of_cons in Hn. destruct Hn as [Hne Hn]. destruct (Z.leb_spec (index n) (index m)).
  - rewrite !fmap_cons. constructor; [done|]. constructor; [lia|]. eapply Forall_impl; [exact Hm|]. cbn. intros; lia.
  - rewrite fmap_cons. constructor; [by apply IH|]. rewrite insert_by_index_perm, fmap_cons. constructor; [lia|done].
Qed.
Lemma sort_by_index_sorted l : NoDup (index <$> l) → StronglySorted Z.lt (index <$> sort_by_index l).
Proof.
  induction l as [|n l IH]; intros H; [constructor|]. rewrite fmap_cons in H. inversion H as [|? ? Hn Hl]; subst. cbn [sort_by_index foldr].
  apply insert_by_index_sorted; [by apply IH|]. by rewrite sort_by_index_perm.
Qed.

Lemma sorted_NoDup l : StronglySorted Z.lt l → NoDup l.
Proof. induction 1 as [|x l _ IH Hx]; constructor; [|done]. intros Hin. pose proof (proj1 (Forall_forall _ _) Hx x Hin). lia. Qed.

Lemma alter_known (f : NicRec → NicRec) (k : nat) (l : list NicRec) : (∀ n, l !! k = Some n → known_by (f n) = known_by n) → known_by <$> alter f k l = known_by <$> l.
Proof.
  intros H. apply list_eq. intros j. rewrite !list_lookup_fmap. destruct (decide (k = j)) as [->|Hne].
  - rewrite list_lookup_alter_eq. destruct (l !! j) as [n|]; cbn; [|done]. f_equal. by apply H.
  - by rewrite list_lookup_alter_ne.
Qed.

Lemma known_parts (l k : list NicRec) : known_by <$> l = known_by <$> k →
  index <$> l = index <$> k ∧ nic_name <$> l = nic_name <$> k ∧ loopback <$> l = loopback <$> k ∧ link <$> l = link <$> k.
Proof.
  revert k. induction l as [|n l IH]; intros [|m k]; try done. rewrite !fmap_cons. intros [= E1 E2 E3 E4 E5]. destruct (IH _ E5) as (H1 & H2 & H3 & H4). split_and!; congruence.
Qed.

(** Interfaces known as before, each of them well formed. *)
Lemma ok_same t t' : topology_ok t → known_by <$> nics t' = known_by <$> nics t → Forall (λ r, r_nic r ∈ nic_name <$> nics t) (routes t') →
  sim0 t' = sim0 t → Forall (nic_ok t') (nics t') → Forall (λ l, by_time (schedule l)) (links t') → topology_ok t'.
Proof.
  intros Ht Hk Hr Hs Hn Hl. destruct (known_parts _ _ Hk) as (E1 & E2 & E3 & E4). destruct Ht as [H1 H2 H3 H4 H5 H6 H7 H8].
  constructor; rewrite ?E1, ?E2, ?E3, ?E4; try done. by rewrite Hs.
Qed.

Lemma position_find {A} (p : A → bool) l k : position p l = Some k → l !! k = find_first p l.
Proof. revert k. induction l as [|x l IH]; intros k; cbn; [done|]. destruct (p x); [by intros [= <-]|]. destruct (position p l) as [j|] eqn:E; [|done]. intros [= <-]. by apply IH. Qed.

Lemma Forall_alter_at {A} (P : A → Prop) (f : A → A) (k : nat) (l : list A) : Forall P l → (∀ x, l !! k = Some x → P x → P (f x)) → Forall P (alter f k l).
Proof.
  intros H Hf. apply Forall_lookup. intros j x Hx. destruct (decide (k = j)) as [->|Hne].
  - rewrite list_lookup_alter_eq in Hx. destruct (l !! j) as [y|] eqn:E; cbn in Hx; [|done]. injection Hx as <-. apply Hf; [done|]. by eapply Forall_lookup_1.
  - rewrite list_lookup_alter_ne in Hx by done. by eapply Forall_lookup_1.
Qed.

Lemma ok_upd i f t : topology_ok t → (∀ n, nic i t = Some n → nic_ok t n → known_by (f n) = known_by n ∧ nic_ok t (f n)) → topology_ok (upd_nic i f t).
Proof.
  intros Ht Hf. unfold upd_nic. destruct (position _ (nics t)) as [k|] eqn:E; [|done]. apply position_find in E. fold (nic i t) in E.
  assert (∀ n, nics t !! k = Some n → known_by (f n) = known_by n ∧ nic_ok t (f n)) as Hk.
  { intros n Hn. rewrite Hn in E. apply Hf; [done|]. eapply Forall_lookup_1; [apply (to_nics _ Ht)|done]. }
  apply (ok_same t); [done|apply alter_known; intros n Hn; by apply Hk|apply Ht|done| |apply Ht].
  assert (Forall (nic_ok t) (alter f k (nics t))) as Hall by (apply Forall_alter_at; [apply Ht|intros n Hn _; by apply Hk]).
  eapply Forall_impl; [exact Hall|]. intros n [H1 H2 H3 H4 H5]. by constructor.
Qed.

(** A change to a link that keeps its name, does not remove it and keeps its schedule in order *)
Lemma ok_link k f t : topology_ok t → (∀ l, links t !! k = Some l → by_time (schedule l) → removed (f l) = removed l ∧ link_name (f l) = link_name l ∧ by_time (schedule (f l))) →
  topology_ok (with_links (alter f k (links t)) t).
Proof.
  intros Ht Hf. apply (ok_same t); try apply Ht; try done.
  - eapply Forall_impl; [apply (to_nics _ Ht)|]. intros n [H1 H2 (l & Hl & Hr & Hn) H4 H5]. constructor; [done..| |done|done]. cbn [links with_links].
    destruct (decide (k = link n)) as [->|Hne]; [|rewrite list_lookup_alter_ne by done; by exists l].
    exists (f l). rewrite list_lookup_alter_eq, Hl. destruct (Hf l Hl) as (E1 & E2 & _); [exact (Forall_lookup_1 _ _ _ _ (to_schedules _ Ht) Hl)|]. by rewrite E1, E2.
  - cbn. apply Forall_alter_at; [apply Ht|]. intros l Hl Hs. by apply Hf.
Qed.

(** ** New interfaces *)

Section changes.
Context (os : target_os).

Lemma origins_of_dom f s : dom (origins_of f s) = list_to_set (addr <$> addresses s).
Proof. unfold origins_of. rewrite dom_list_to_map_L. f_equal. by rewrite <- list_fmap_compose. Qed.
Lemma origins_of_Some f s a o : origins_of f s !! a = Some o → o = f a ∧ ∃ net, net ∈ addresses s ∧ addr net = a.
Proof. unfold origins_of. intros H%elem_of_list_to_map_2. apply list_elem_of_In, in_map_iff in H as (net & [= <- <-] & Hin). split; [done|]. exists net. by rewrite list_elem_of_In. Qed.

Lemma links_grow t n l : nic_ok t n → nic_ok (with_links (links t ++ l) t) n.
Proof. intros [H1 H2 (k & Hk & Hr) H4 H5]. constructor; try done. exists k. split; [by apply lookup_app_l_Some|done]. Qed.

(** What [insert] does when it succeeds *)
Lemma insert_spec s c t i t' : insert_nic os s c t = Ok (i, t') →
  (i ∉ index <$> nics t) ∧ (s_name s ∉ nic_name <$> nics t) ∧ i ≠ 0 ∧ (s_index s = Some i ∨ s_index s = None ∧ 2 ≤ i) ∧
  t' = mk_topology (sort_by_index (nics t ++ [mk_nic i (with_index (Some i) s) false (length (links t)) c (origins_of (λ _, Explicit) s)])) (routes t)
         (open t && match addresses s with [] => true | _ => false end) (sim0 t) (links t ++ [link_new os (s_name s) (s_admin_up s) (s_carrier s)]).
Proof.
  unfold insert_nic. destruct (is_some (by_name (s_name s) t)) eqn:En; [done|]. cbn.
  assert (s_name s ∉ nic_name <$> nics t) as Hn by (rewrite name_there; intros (n & Hn & _); by rewrite Hn in En).
  destruct (s_index s) as [j|] eqn:Ei; cbn.
  - destruct (Z.eqb_spec j 0); [done|]. cbn. destruct (is_some (nic j t)) eqn:Ej; [done|]. cbn. intros [= <- <-].
    assert (j ∉ index <$> nics t) by (rewrite nic_there; intros (n' & Hn' & _); by rewrite Hn' in Ej). split_and!; [done..|by left|].
    unfold with_index, with_nics, with_links, origins_of. cbn. destruct (addresses s); cbn; by rewrite ?andb_true_r, ?andb_false_r.
  - destruct (free_index_there 2 t) as (j & -> & Hj & Hf). cbn. intros [= <- <-]. split_and!; [done|done|lia|by right|].
    unfold with_index, with_nics, with_links, origins_of. cbn. destruct (addresses s); cbn; by rewrite ?andb_true_r, ?andb_false_r.
Qed.

Lemma insert_panics s c t : insert_nic os s c t ≠ Panics.
Proof.
  unfold insert_nic. destruct (is_some (by_name (s_name s) t)); [done|]. cbn. destruct (s_index s) as [j|]; cbn.
  - destruct (j =? 0); [done|]. cbn. by destruct (is_some (nic j t)).
  - by destruct (free_index_there 2 t) as (j & -> & _).
Qed.

Lemma ok_insert s c t i t' : topology_ok t → 0 ≤ default 0 (s_index s) → insert_nic os s c t = Ok (i, t') →
  topology_ok t' ∧ nics t' ≡ₚ nics t ++ [mk_nic i (with_index (Some i) s) false (length (links t)) c (origins_of (λ _, Explicit) s)] ∧ routes t' = routes t ∧ sim0 t' = sim0 t.
Proof.
  intros Ht Hi H. apply insert_spec in H as (H1 & H2 & H3 & H4 & ->). set (n := mk_nic i _ false _ c _).
  split; [|split; [apply sort_by_index_perm|done]]. assert (NoDup (index <$> nics t ++ [n])) as Hnd.
  { rewrite fmap_app. apply NoDup_app. split_and!; [by apply sorted_NoDup, to_sorted| |apply NoDup_singleton]. intros x Hx [= ->]%list_elem_of_singleton. done. }
  constructor; cbn [nics routes sim0 links open].
  - by apply sort_by_index_sorted.
  - rewrite sort_by_index_perm, fmap_app. apply NoDup_app. split_and!; [apply Ht| |apply NoDup_singleton]. intros x Hx [= ->]%list_elem_of_singleton. done.
  - rewrite sort_by_index_perm, fmap_app. apply NoDup_app. split_and!; [apply Ht| |apply NoDup_singleton].
    intros x (m & -> & Hm)%list_elem_of_fmap [= E]%list_elem_of_singleton. destruct (no_link_there _ _ (proj1 (Forall_forall _ _) (to_nics _ Ht) m Hm)) as (l & Hl & _).
    apply lookup_lt_Some in Hl. lia.
  - rewrite (retain_perm id (loopback <$> sort_by_index (nics t ++ [n])) (loopback <$> nics t ++ [n])) by (by rewrite sort_by_index_perm).
    rewrite fmap_app, retain_app, length_app, (to_lo _ Ht). done.
  - eapply Forall_impl; [apply (to_routes _ Ht)|]. intros r Hr. cbn in *. rewrite sort_by_index_perm, fmap_app. apply elem_of_app. by left.
  - intros j Hj. rewrite sort_by_index_perm, fmap_app. apply elem_of_app. left. by apply (to_sim0 _ Ht).
  - apply Forall_forall. intros m Hm. rewrite sort_by_index_perm in Hm. apply elem_of_app in Hm as [Hm| ->%list_elem_of_singleton].
    + destruct (proj1 (Forall_forall _ _) (to_nics _ Ht) m Hm) as [G1 G2 (k & Hk & Hr) G4 G5]. constructor; try done.
      * exists k. split; [by apply lookup_app_l_Some|done].
      * cbn. intros [? _]%andb_prop. by apply G5.
    + constructor; cbn.
      * destruct H4 as [E|[_ ?]]; [|lia]. rewrite E in Hi. cbn in Hi. lia.
      * done.
      * exists (link_new os (s_name s) (s_admin_up s) (s_carrier s)). split; [|done]. rewrite lookup_app_r, Nat.sub_diag by lia. done.
      * apply origins_of_dom.
      * intros [_ He]%andb_prop _ a o Ho. apply origins_of_Some in Ho as [_ (net & Hin & _)]. by destruct (addresses s); [apply elem_of_nil in Hin|].
  - apply Forall_app. split; [apply Ht|]. repeat constructor.
Qed.

Lemma fmap_alter_same {A B} (g : A → B) (f : A → A) (k : nat) (l : list A) : (∀ x, g (f x) = g x) → g <$> alter f k l = g <$> l.
Proof. intros H. apply list_eq. intros j. rewrite !list_lookup_fmap. destruct (decide (k = j)) as [->|Hne]; [rewrite list_lookup_alter_eq|by rewrite list_lookup_alter_ne]. destruct (l !! j); cbn; by rewrite ?H. Qed.

Lemma NoDup_insert_fresh {A} (l : list A) (k : nat) x : NoDup l → x ∉ l → NoDup (<[k := x]> l).
Proof.
  intros Hl Hx. apply NoDup_alt. intros i j y. rewrite !list_lookup_insert. repeat case_decide; try naive_solver.
  - intros [= <-] Hj. exfalso. apply Hx. by eapply list_elem_of_lookup_2.
  - intros Hi [= <-]. exfalso. apply Hx. by eapply list_elem_of_lookup_2.
  - intros Hi Hj. by eapply NoDup_lookup.
Qed.

Lemma ok_make_room i t : topology_ok t → sim0 t = None → ∃ t', make_room i t = Ok t' ∧ topology_ok t' ∧ sim0 t' = None.
Proof.
  intros Ht H0. unfold make_room. destruct (lo_there t Ht) as (l & El & Hl & Hlo). rewrite El. cbn. destruct (index l =? i); [|by exists t].
  destruct (free_index_there 2 t) as (f1 & -> & Hf1 & _). cbn. destruct (free_index_there (f1 `max` (i + 1)) t) as (f & -> & Hf & Hfree). cbn.
  destruct (position loopback (nics t)) as [k|] eqn:Ek.
  2:{ exfalso. pose proof (position_None _ _ Ek l Hl). congruence. }
  set (move n := mk_nic f _ _ _ _ _). eexists. split; [done|]. split; [|done].
  assert (index <$> alter move k (nics t) = <[k := f]> (index <$> nics t)) as Ei.
  { apply list_eq. intros j. rewrite list_lookup_fmap, list_lookup_insert, length_fmap, list_lookup_fmap. case_decide as Hj.
    - destruct Hj as [-> Hj]. rewrite list_lookup_alter_eq. apply lookup_lt_is_Some in Hj as [n ->]. done.
    - destruct (decide (k = j)) as [->|Hne]; [|by rewrite list_lookup_alter_ne]. rewrite list_lookup_alter_eq, lookup_ge_None_2 by (apply not_and_l in Hj; lia). done. }
  constructor; cbn [nics routes sim0 links open with_nics].
  - apply sort_by_index_sorted. rewrite Ei. apply NoDup_insert_fresh; [|done]. by apply sorted_NoDup, to_sorted.
  - rewrite sort_by_index_perm, fmap_alter_same by done. apply Ht.
  - rewrite sort_by_index_perm, fmap_alter_same by done. apply Ht.
  - rewrite (retain_perm id _ (loopback <$> alter move k (nics t))) by (by rewrite sort_by_index_perm). rewrite fmap_alter_same by done. apply Ht.
  - eapply Forall_impl; [apply (to_routes _ Ht)|]. intros r Hr. cbn in *. by rewrite sort_by_index_perm, fmap_alter_same.
  - rewrite H0. done.
  - apply Forall_forall. intros m Hm. rewrite sort_by_index_perm in Hm.
    assert (Forall (nic_ok t) (alter move k (nics t))) as Hall.
    { apply Forall_alter_at; [apply Ht|]. intros n Hn [G1 G2 G3 G4 G5]. constructor; cbn; [lia|done..]. }
    destruct (proj1 (Forall_forall _ _) Hall m Hm) as [G1 G2 G3 G4 G5]. by constructor.
  - apply Ht.
Qed.

(** ** The other changes *)

Lemma ok_routes rs t : topology_ok t → Forall (λ r, r_nic r ∈ nic_name <$> nics t) rs → topology_ok (with_routes rs t).
Proof. intros Ht Hr. apply (ok_same t); try apply Ht; try done. eapply Forall_impl; [apply (to_nics _ Ht)|]. intros n []. by constructor. Qed.

Lemma ok_close t : topology_ok t → topology_ok (with_open false t).
Proof. intros Ht. apply (ok_same t); try apply Ht; try done. eapply Forall_impl; [apply (to_nics _ Ht)|]. intros n []. by constructor. Qed.

Lemma ok_sim0 i t : topology_ok t → (∀ j, i = Some j → j ∈ index <$> nics t) → topology_ok (with_sim0 i t).
Proof. intros [] Hi. constructor; try done. eapply Forall_impl; [done|]. intros n []. by constructor. Qed.

Lemma settled_keeps now l : removed (settled os now l) = removed l ∧ link_name (settled os now l) = link_name l ∧
  (by_time (schedule l) → by_time (schedule (settled os now l))).
Proof.
  assert (∀ cs l, removed (fst (apply_changes os now cs l)) = removed l ∧ link_name (fst (apply_changes os now cs l)) = link_name l) as Hc.
  { intros cs. induction cs as [|[a c] cs IH]; intros l'; [done|]. cbn [apply_changes]. destruct (link_set os None (Some c) a l') as [b l2] eqn:E.
    destruct (IH l2) as [H1 H2]. destruct (apply_changes os now cs l2). cbn in *. rewrite H1, H2. by injection E as <- <-. }
  split_and!; [apply (Hc _ (with_schedule _ l))|apply (Hc _ (with_schedule _ l))|]. intros Hs. rewrite (proj2 (settled_view os now l)). by apply not_due_sorted.
Qed.

Lemma ok_settle now t : topology_ok t → topology_ok (fst (settle_links os now t)).
Proof.
  intros Ht. unfold settle_links. set (look := λ (k : nat) l, if bool_decide (k ∈ link <$> nics t) then settled os now l else l).
  assert (∀ k l, removed (look k l) = removed l ∧ link_name (look k l) = link_name l ∧ (by_time (schedule l) → by_time (schedule (look k l)))) as Hl.
  { intros k l. unfold look. destruct (bool_decide _); [apply settled_keeps|done]. }
  apply (ok_same t); try apply Ht; try done.
  - eapply Forall_impl; [apply (to_nics _ Ht)|]. intros n [H1 H2 (l & Hk & Hr & Hn) H4 H5]. constructor; try done.
    exists (look (link n) l). destruct (Hl (link n) l) as (E1 & E2 & _). rewrite E1, E2. split; [|done]. cbn. by rewrite list_lookup_imap, Hk.
  - cbn. apply Forall_lookup. intros k l. rewrite list_lookup_imap. destruct (links t !! k) as [l'|] eqn:E; [|done]. cbn. intros [= <-].
    apply Hl. exact (Forall_lookup_1 _ _ _ _ (to_schedules _ Ht) E).
Qed.

Lemma nic_of_ok t n : topology_ok t → n ∈ nics t → nic_ok t n.
Proof. intros Ht Hn. exact (proj1 (Forall_forall _ _) (to_nics _ Ht) n Hn). Qed.

Lemma index_of_nic name t i : index_of name t = Some i → ∃ n, by_name name t = Some n ∧ index n = i ∧ n ∈ nics t ∧ nic_name n = name.
Proof. unfold index_of. destruct (by_name name t) as [n|] eqn:E; [|done]. intros [= <-]. destruct (by_name_elem _ _ _ E). by exists n. Qed.

Lemma by_index t n : topology_ok t → n ∈ nics t → nic (index n) t = Some n.
Proof.
  intros Ht Hn. destruct (proj1 (nic_there (index n) t)) as (m & Hm & Ei & Hin); [by apply list_elem_of_fmap_2|]. rewrite Hm. f_equal.
  apply list_elem_of_lookup in Hn as [a Ha]. apply list_elem_of_lookup in Hin as [b Hb]. assert (a = b) as <-; [|congruence].
  apply (NoDup_lookup (index <$> nics t) a b (index n)); [by apply sorted_NoDup, to_sorted|by rewrite list_lookup_fmap, Ha|by rewrite list_lookup_fmap, Hb, <- Ei].
Qed.

Lemma sorted_delete (l : list NicRec) k : StronglySorted Z.lt (index <$> l) → StronglySorted Z.lt (index <$> delete k l).
Proof.
  destruct (decide (k < length l)%nat) as [Hk|Hk]; [|by rewrite delete_take_drop, take_ge, drop_ge, app_nil_r by lia]. apply lookup_lt_is_Some in Hk as [x Hx].
  rewrite <- (take_drop_middle l k x Hx) at 1. rewrite delete_take_drop, !fmap_app, fmap_cons, !StronglySorted_app.
  intros (H1 & H2 & H3). inversion H3; subst. split_and!; [|done|done]. intros a b Ha Hb. apply H1; [done|by right].
Qed.

Lemma ok_remove now name t r : topology_ok t → remove_nic os now name t = r →
  match r with Ok (_, t', _) => topology_ok t' | Err _ => True | Panics => False end.
Proof.
  intros Ht <-. unfold remove_nic. destruct (by_name name t) as [n|] eqn:En; [|done]. cbn. apply by_name_elem in En as [Hn Hname].
  destruct (loopback n) eqn:Hlo; [done|]. cbn. pose proof (by_index t n Ht Hn) as Hi. unfold nic in Hi.
  destruct (position (λ m, index m =? index n) (nics t)) as [k|] eqn:Ek.
  2:{ pose proof (position_None _ _ Ek n Hn) as H. cbn in H. by rewrite Z.eqb_refl in H. }
  apply position_find in Ek. rewrite Hi in Ek. cbn. rewrite Ek. cbn. pose proof (delete_Permutation _ _ _ Ek) as Hp.
  pose proof (to_links _ Ht) as Hl. rewrite Hp, fmap_cons in Hl. inversion Hl as [|? ? Hln Hl']; subst.
  assert (∀ m, m ∈ delete k (nics t) → m ∈ nics t ∧ link m ≠ link n) as Hm.
  { intros m Hm. split; [rewrite Hp; by right|]. intros E. apply Hln. rewrite <- E. by apply list_elem_of_fmap_2. }
  set (t1 := with_routes _ _). assert (∀ b, topology_ok b → nics b = delete k (nics t) → links b = links t →
    topology_ok (with_links (alter (link_remove os now) (link n) (links b)) b)) as Hfin.
  { intros b Hb Enics Elinks. apply (ok_same b); try apply Hb; try done.
    - apply Forall_forall. intros m Hin. cbn in Hin. destruct (nic_of_ok _ _ Hb Hin) as [G1 G2 (l & Gl & Gr) G4 G5]. constructor; try done.
      exists l. split; [|done]. cbn. rewrite list_lookup_alter_ne; [done|]. rewrite Enics in Hin. destruct (Hm m Hin) as [_ ?]. done.
    - cbn. apply Forall_alter_at; [apply Hb|]. intros l _ _. constructor. }
  assert (∀ b, nics b = delete k (nics t) → links b = links t → open b = open t → routes b = routes t1 → (∀ i, sim0 b = Some i → i ∈ index <$> nics b) → topology_ok b) as Hmid.
  { intros b E1 E2 E3 E4 E5. constructor; rewrite ?E1, ?E2, ?E4; try done.
    - by apply sorted_delete, to_sorted.
    - pose proof (to_names _ Ht) as H. rewrite Hp, fmap_cons in H. by inversion H.
    - pose proof (to_lo _ Ht) as H. rewrite (retain_perm id _ (loopback <$> n :: delete k (nics t))) in H by (by rewrite <- Hp). rewrite fmap_cons in H. cbn in H. by rewrite Hlo in H.
    - apply Forall_forall. intros r Hr. cbn in Hr. apply elem_of_retain in Hr as [Hr Hne]. pose proof (proj1 (Forall_forall _ _) (to_routes _ Ht) r Hr) as Hin. cbn in Hin.
      rewrite Hp, fmap_cons in Hin. apply elem_of_cons in Hin as [E|Hin]; [|done]. rewrite E in Hne. by rewrite bool_decide_true in Hne.
    - rewrite <- E1. done.
    - apply Forall_forall. intros m Hin. destruct (Hm m Hin) as [Hin' _]. destruct (nic_of_ok t m Ht Hin') as [G1 G2 G3 G4 G5]. constructor; rewrite ?E2, ?E3; done.
    - apply Ht. }
  assert (∀ i, sim0 t = Some i → i ≠ index n → i ∈ index <$> delete k (nics t)) as Hs0.
  { intros i Hs Hne. pose proof (to_sim0 _ Ht i Hs) as H. rewrite Hp, fmap_cons in H. by apply elem_of_cons in H as [?|?]. }
  case_bool_decide as E.
  - apply Hfin; [|done|done]. apply Hmid; [done..|]. by intros i Hi0.
  - apply Hfin; [|done|done]. apply Hmid; [done..|]. cbn. intros i Hi'. apply Hs0; [done|]. intros ->. done.
Qed.

Lemma ok_schedule now name span c t r : topology_ok t → schedule_link now name span c t = r →
  match r with Ok (_, t', _) => topology_ok t' | Err _ => True | Panics => False end.
Proof.
  intros Ht <-. unfold schedule_link. destruct (by_name name t) as [n|]; [|done]. cbn. apply ok_link; [done|]. intros l _ Hs. split_and!; [done..|]. cbn. by apply insert_sorted.
Qed.

Lemma ok_set now name change t r : topology_ok t → set_nic os now name change t = r →
  match r with Ok (_, t', _) => topology_ok t' | Err _ => True | Panics => False end.
Proof.
  intros Ht <-. unfold set_nic. destruct (index_of name t) as [i|] eqn:Ei; [|done]. cbn [ok_or mbind res_bind]. apply index_of_nic in Ei as (n & _ & <- & Hn & Hname).
  rewrite (by_index t n Ht Hn). cbn [expect mbind res_bind]. set (s := change _). destruct (negb _ || negb _) eqn:Eg; [done|]. apply orb_false_elim in Eg as [E1%negb_false_iff E2%negb_false_iff].
  apply bool_decide_eq_true in E1, E2. cbn [fail_if mbind res_bind]. set (closes := negb (loopback n) && _). set (t1 := if closes then with_open false t else t).
  assert (topology_ok t1) as Ht1 by (unfold t1; destruct closes; [by apply ok_close|done]).
  assert (nics t1 = nics t ∧ links t1 = links t) as [En El] by (unfold t1; by destruct closes).
  destruct (link_set _ _ _ _ _) as [ch l] eqn:Eset. destruct (no_link_there _ _ (nic_of_ok t n Ht Hn)) as (l0 & Hl0 & Hr0 & Hn0).
  assert (link_at t1 (link n) = l0) as Eat by (unfold link_at; by rewrite El, Hl0). rewrite Eat in Eset. destruct (settled_keeps now l0) as (K1 & K2 & K3).
  injection Eset as <- <-. cbn. set (l := mk_link _ _ _ _ _ _ _).
  assert (topology_ok (with_links (alter (λ _, l) (link n) (links t1)) t1)) as Ht2.
  { apply ok_link; [done|]. intros l1 Hl1 Hs1. rewrite El, Hl0 in Hl1. injection Hl1 as <-. unfold l. cbn. auto. }
  apply ok_upd; [done|]. intros m Hm Hmok. assert (m = n) as ->.
  { pose proof (by_index t n Ht Hn) as H. unfold nic in *. cbn in Hm. rewrite En in Hm. congruence. }
  destruct Hmok as [G1 G2 G3 G4 G5]. split; [unfold known_by, nic_name; cbn; unfold nic_name in Hname; congruence|]. constructor; cbn.
  - done.
  - done.
  - unfold nic_name in *. cbn. rewrite E1, <- Hname. exact G3.
  - apply origins_of_dom.
  - intros Hopen Hlo a o Ho. apply origins_of_Some in Ho as [-> (net & Hin & Ha)]. unfold t1 in Hopen. destruct closes eqn:Ec; [done|]. unfold closes in Ec.
    rewrite Hlo in Ec. cbn in Ec. assert (origins n !! addr net = Some Auto) as E; [|by rewrite <- Ha, E].
    destruct (bool_decide_reflect (origins n !! addr net = Some Auto)) as [|Hne]; [done|]. exfalso.
    assert (existsb (λ net, negb (bool_decide (origins n !! addr net = Some Auto))) (addresses s) = true); [|congruence].
    apply existsb_exists. exists net. split; [by apply list_elem_of_In|]. by rewrite bool_decide_false.
Qed.

Lemma ok_counters i f t : topology_ok t → topology_ok (upd_nic i (with_counters f) t).
Proof. intros Ht. apply ok_upd; [done|]. intros n _ []. split; [done|]. by constructor. Qed.

Lemma ok_policy i f t : topology_ok t →
  topology_ok (upd_nic i (λ n, mk_nic (index n) (with_policy (f (s_policy (spec n))) (spec n)) (loopback n) (link n) (counters n) (origins n)) t).
Proof. intros Ht. apply ok_upd; [done|]. intros n _ []. split; [done|]. by constructor. Qed.

Lemma ok_claim now i t r : topology_ok t → claim os now i t = r → match r with Ok t' => topology_ok t' | Err _ => True | Panics => False end.
Proof.
  intros Ht <-. unfold claim. destruct (is_multicast i && is_windows os); [done|]. cbn. destruct (is_unspecified i || _ || _ || _); [done|].
  destruct (is_station_ip i t); [done|]. destruct (negb (open t) || _); [done|]. cbn. destruct (lo_there t Ht) as (l & El & Hl & Hlo). rewrite El. cbn.
  set (k := default _ _). assert (k ∈ index <$> nics t) as Hk.
  { unfold k. destruct (sim0 t) as [j|] eqn:E0; cbn.
    - destruct (nic j t) as [m|] eqn:Ej; cbn; [apply nic_elem in Ej as [? <-]; by apply list_elem_of_fmap_2|].
      destruct (find_first _ (nics t)) as [m|] eqn:Ef; cbn; [apply find_first_Some in Ef as [? _]; by apply list_elem_of_fmap_2|by apply list_elem_of_fmap_2].
    - destruct (find_first _ (nics t)) as [m|] eqn:Ef; cbn; [apply find_first_Some in Ef as [? _]; by apply list_elem_of_fmap_2|by apply list_elem_of_fmap_2]. }
  apply nic_there in Hk as (m & Hm & _ & _). rewrite Hm. cbn. apply ok_upd; [done|]. intros n _ [G1 G2 G3 G4 G5]. split; [done|]. constructor; cbn; try done.
  - rewrite dom_insert_L, G4, fmap_app, list_to_set_app_L. cbn. set_solver.
  - intros Ho Hl' a o. destruct (decide (a = i)) as [->|Hne]; [rewrite lookup_insert_eq; by intros [= <-]|]. rewrite lookup_insert_ne by done. by apply G5.
Qed.

(** ** The starting topology *)

Lemma new_ok : topology_ok (topology_new os).
Proof.
  constructor; cbn [nics routes sim0 links open topology_new]; try done.
  - repeat constructor.
  - apply NoDup_singleton.
  - apply NoDup_singleton.
  - constructor; [|done]. constructor; [cbn; lia|done| |exact (origins_of_dom _ (loopback_spec os))|done]. eexists. done.
  - repeat constructor.
Qed.

Definition index_ok (s : NicSpec) : Prop := 0 ≤ default 0 (s_index s).

Lemma insert_host_ok l : ∀ t t', topology_ok t → sim0 t = None → Forall (index_ok ∘ fst) l → insert_host os l t = Some t' → topology_ok t' ∧ sim0 t' = None.
Proof.
  induction l as [|[s c] l IH]; intros t t' Ht H0 Hl; cbn [insert_host]; [by intros [= <-]|]. apply Forall_cons in Hl as [Hs Hl].
  assert (∃ t1, match s_index s with Some i => make_room i t | None => Ok t end = Ok t1 ∧ topology_ok t1 ∧ sim0 t1 = None) as (t1 & E & Ht1 & H1)
    by (destruct (s_index s); [by apply ok_make_room|by exists t]).
  rewrite E. cbn [mbind res_bind]. destruct (insert_nic os s c t1) as [[i t2]|e|] eqn:Ei; [|done|done].
  destruct (ok_insert s c t1 i t2 Ht1 Hs Ei) as (Ht2 & _ & _ & H2). apply IH; [done|congruence|done].
Qed.

Lemma insert_all_ok l : ∀ t t', topology_ok t → sim0 t = None → Forall index_ok l → insert_all os l t = Some t' → topology_ok t' ∧ sim0 t' = None.
Proof.
  induction l as [|s l IH]; intros t t' Ht H0 Hl; cbn [insert_all]; [by intros [= <-]|]. apply Forall_cons in Hl as [Hs Hl].
  destruct (insert_nic os s counters_default t) as [[i t2]|e|] eqn:Ei; [|done|done]. destruct (ok_insert s _ t i t2 Ht Hs Ei) as (Ht2 & _ & _ & H2). apply IH; [done|congruence|done].
Qed.

Lemma push_routes_ok l : ∀ t t', topology_ok t → push_routes l t = Some t' → topology_ok t'.
Proof.
  induction l as [|r l IH]; intros t t' Ht; cbn [push_routes]; [by intros [= <-]|]. destruct (by_name (r_nic r) t) as [n|] eqn:E; cbn [is_some]; [|done].
  apply IH, ok_routes; [done|]. apply Forall_app. split; [apply Ht|]. constructor; [|done]. apply by_name_elem in E as [Hn <-]. by apply list_elem_of_fmap_2.
Qed.

Lemma default_routes_ok name t : name ∈ nic_name <$> nics t → Forall (λ r, r_nic r ∈ nic_name <$> nics t) (default_routes name).
Proof. intros H. by repeat constructor. Qed.

Lemma init_ok hn hr specs rs t : Forall (index_ok ∘ fst) hn → Forall index_ok specs → init_topology os hn hr specs rs (topology_new os) = Some t → topology_ok t.
Proof.
  intros Hhn Hsp. unfold init_topology. destruct (insert_host os hn (topology_new os)) as [t1|] eqn:E1; [|done]. cbn [mbind option_bind].
  destruct (insert_host_ok hn _ t1 new_ok eq_refl Hhn E1) as [Ht1 H1]. destruct (insert_all os specs t1) as [t2|] eqn:E2; [|done]. cbn [mbind option_bind].
  destruct (insert_all_ok specs _ t2 Ht1 H1 Hsp E2) as [Ht2 H2].
  destruct (match hn with [] => _ | _ :: _ => _ end) as [[name t3]|] eqn:E3; [|done]. cbn [mbind option_bind].
  assert (topology_ok t3 ∧ ∀ s, name = Some s → s ∈ nic_name <$> nics t3) as [Ht3 Hname].
  { destruct hn as [|x hn].
    - destruct (free_index_there 2 t2) as (i & Ef & Hi & Hfree). rewrite Ef in E3. cbn [mbind option_bind] in E3.
      destruct (insert_nic _ _ _ _) as [[j t4]|e|] eqn:Ei; [|done|done]. injection E3 as <- <-.
      assert (index_ok (with_index (Some i) (spec_new "sim0"))) as Hio by (unfold index_ok; cbn; lia).
      destruct (ok_insert _ _ t2 j t4 Ht2 Hio Ei) as (Ht4 & Hp & _ & _). apply insert_spec in Ei as (_ & _ & _ & Hj & _). cbn in Hj.
      split; [apply ok_sim0; [done|]|].
      + intros k [= <-]. rewrite Hp, fmap_app. apply elem_of_app. right. cbn. destruct Hj as [[= <-]|[? _]]; [by apply list_elem_of_singleton|done].
      + intros s [= <-]. cbn. rewrite Hp, fmap_app. apply elem_of_app. right. by apply list_elem_of_singleton.
    - injection E3 as <- <-. split; [done|]. intros s Hs. destruct (find_first _ (nics t2)) as [n|] eqn:Ef; [|done]. injection Hs as <-.
      apply find_first_Some in Ef as [Hn _]. by apply list_elem_of_fmap_2. }
  destruct name as [s|]; [|by apply push_routes_ok]. destruct (existsb _ hr); [by apply push_routes_ok|]. apply push_routes_ok, ok_routes; [done|].
  apply Forall_app. split; [apply Ht3|]. by apply default_routes_ok, Hname.
Qed.

(** ** Runs *)

Inductive net_op :=
  | NSettle | NAdd (s : NicSpec) | NRemove (name : string) | NSet (name : string) (change : NicSpec → NicSpec)
  | NSetLink (name : string) (c : bool) | NSchedule (name : string) (span : Z) (c : bool)
  | NPolicy (name : string) (change : NicPolicy → NicPolicy) | NCounters (name : string) (change : NicCounters → NicCounters)
  | NAddRoute (r : Route) | NRemoveRoute (d : IpNet) | NDefaultRoute (name : option string) | NClaim (i : IpAddr).

Definition done_with {A} (r : Res io_error (A * Topology * After)) : Res io_error Topology := '(_, t, _) ← r; Ok t.
Definition net_call (now : Z) (o : net_op) (t : Topology) : Res io_error Topology :=
  match o with
  | NSettle => Ok (fst (settle_links os now t))
  | NAdd s => done_with (add_nic os s t)
  | NRemove name => done_with (remove_nic os now name t)
  | NSet name change => done_with (set_nic os now name change t)
  | NSetLink name c => done_with (set_link os now name c t)
  | NSchedule name span c => done_with (schedule_link now name span c t)
  | NPolicy name change => done_with (set_nic_policy name change t)
  | NCounters name change => done_with (set_nic_counters name change t)
  | NAddRoute r => done_with (add_route r t)
  | NRemoveRoute d => Ok (snd (fst (remove_route d t)))
  | NDefaultRoute name => done_with (set_default_route name t)
  | NClaim i => match claim os now i t with Ok t => Ok t | Err e => Err (RawOs e) | Panics => Panics end
  end.
(** [None] a panic *)
Fixpoint net_run (ops : list (Z * net_op)) (t : Topology) : option Topology :=
  match ops with
  | [] => Some t
  | (now, o) :: ops =>
      match net_call now o t with Ok t => net_run ops t | Err _ => net_run ops t | Panics => None end
  end.
Definition net_op_ok (o : net_op) : Prop := match o with NAdd s => index_ok s | _ => True end.

Lemma call_ok now o t : topology_ok t → net_op_ok o → match net_call now o t with Ok t' => topology_ok t' | Err _ => True | Panics => False end.
Proof.
  assert (∀ {A} (r : Res io_error (A * Topology * After)), match r with Ok (_, t', _) => topology_ok t' | Err _ => True | Panics => False end →
    match done_with r with Ok t' => topology_ok t' | Err _ => True | Panics => False end) as Hd by (intros A [[[a t'] x]|e|]; done).
  intros Ht Ho. destruct o; cbn [net_call net_op_ok] in *.
  - by apply ok_settle.
  - apply Hd. unfold add_nic. destruct (insert_nic os s counters_default t) as [[i t']|e|] eqn:E; [|done|by apply insert_panics in E]. cbn. by eapply ok_insert.
  - by eapply Hd, ok_remove.
  - by eapply Hd, ok_set.
  - by eapply Hd, ok_set.
  - by eapply Hd, ok_schedule.
  - apply Hd. unfold set_nic_policy. destruct (index_of name t) as [i|] eqn:Ei; [|done]. cbn. apply index_of_nic in Ei as (n & _ & <- & Hn & _).
    rewrite (by_index t n Ht Hn). cbn. by apply ok_policy.
  - apply Hd. unfold set_nic_counters. destruct (index_of name t) as [i|] eqn:Ei; [|done]. cbn. apply index_of_nic in Ei as (n & _ & <- & Hn & _).
    rewrite (by_index t n Ht Hn). cbn. by apply ok_counters.
  - apply Hd. unfold add_route. destruct (by_name (r_nic r) t) as [n|] eqn:E; [|done]. cbn. apply by_name_elem in E as [Hn Hname]. apply ok_routes; [done|].
    apply Forall_app. split; [apply Ht|]. constructor; [|done]. rewrite <- Hname. by apply list_elem_of_fmap_2.
  - apply ok_routes; [done|]. apply Forall_forall. intros r [Hr _]%elem_of_retain. exact (proj1 (Forall_forall _ _) (to_routes _ Ht) r Hr).
  - apply Hd. assert (Forall (λ r, r_nic r ∈ nic_name <$> nics t) (retain (λ r, negb (prefix (dest r) =? 0)) (routes t))) as Hr.
    { apply Forall_forall. intros r [Hr _]%elem_of_retain. exact (proj1 (Forall_forall _ _) (to_routes _ Ht) r Hr). }
    unfold set_default_route. destruct name as [s|]; [|apply ok_routes; [done|by rewrite app_nil_r]].
    destruct (by_name s t) as [n|] eqn:En; [|done]. apply ok_routes; [done|]. apply Forall_app. split; [done|].
    apply default_routes_ok, name_there. destruct (by_name_elem _ _ _ En). by exists n.
  - pose proof (ok_claim now i t _ Ht eq_refl) as H. by destruct (claim os now i t).
Qed.

Lemma run_ok ops : ∀ t, topology_ok t → Forall (net_op_ok ∘ snd) ops → ∃ t', net_run ops t = Some t' ∧ topology_ok t'.
Proof.
  induction ops as [|[now o] ops IH]; intros t Ht Ho; cbn [net_run]; [by exists t|]. apply Forall_cons in Ho as [Ho Hos].
  pose proof (call_ok now o t Ht Ho) as H. destruct (net_call now o t) as [t'|e|]; [by apply IH|by apply IH|done].
Qed.

End changes.

Definition sample_specs : list NicSpec :=
  [with_addresses [mk_net (V4 0x0a000001) 24] (spec_new "eth0"); with_addresses [mk_net (V4 0x0a010001) 16] (spec_new "eth1")].
Definition sample_routes : list Route := [mk_route (mk_net (V4 0x0a020000) 16) "eth1" (Some (V4 0x0a010063)) None 5].
Definition sample_net : Topology := default (topology_new Linux) (init_topology Linux [] [] sample_specs sample_routes (topology_new Linux)).
Lemma sample_specs_ok : Forall index_ok sample_specs.
Proof. repeat constructor; unfold index_ok; cbn; lia. Qed.
Lemma sample_net_ok : topology_ok sample_net.
Proof. refine (init_ok Linux [] [] sample_specs sample_routes sample_net _ sample_specs_ok _); [constructor|]. by vm_compute. Qed.

(** C5: over any sim definition that is accepted and any sequence of changes to its network, interfaces added,
    removed and edited in any way, links set and scheduled, routes added and removed, addresses claimed by binds,
    no call panics, and the topology stays well formed: the interfaces sorted by distinct indexes,
    with distinct names and links of their own, one of them loopback; no route and no default
    interface names one that is gone; each interface's link is there and not removed, and its
    origins are its addresses'; while the sim is open, nobody has configured an address. *)
Theorem topology_sound (os : target_os) host_nics host_routes specs rs t (ops : list (Z * net_op)) :
  Forall (index_ok ∘ fst) host_nics → Forall index_ok specs → Forall (net_op_ok ∘ snd) ops →
  init_topology os host_nics host_routes specs rs (topology_new os) = Some t →
  ∃ t', net_run os ops t = Some t' ∧ topology_ok t'.
Proof. intros Hh Hs Ho Hi. apply run_ok; [|done]. by eapply init_ok. Qed.

Definition sample_net_ops : list (Z * net_op) :=
  [(1, NSchedule "eth0" 5 false); (2, NClaim (V4 0x0a000001)); (3, NAdd (with_index (Some 9) (spec_new "wlan0")));
   (4, NAddRoute (route_new (mk_net (V4 0x0b000000) 8) "wlan0" 0)); (7, NRemove "eth1"); (8, NSetLink "eth0" true);
   (9, NDefaultRoute (Some "wlan0"%string)); (10, NRemove "sim0"); (11, NRemove "lo")].
Lemma topology_sound_witness : ∃ t', net_run Linux sample_net_ops sample_net = Some t' ∧ topology_ok t' ∧ index <$> nics t' = [1; 2; 9].
Proof.
  destruct (topology_sound Linux [] [] sample_specs sample_routes sample_net sample_net_ops) as (t' & E & H).
  - constructor.
  - exact sample_specs_ok.
  - repeat (apply List.Forall_cons; [first [exact I | unfold net_op_ok, index_ok; cbn; lia]|]). apply List.Forall_nil.
  - by vm_compute.
  - exists t'. split; [done|]. split; [done|]. apply (f_equal (option_map (λ t, index <$> nics t))) in E. vm_compute in E. by injection E.
Defined.
