(* ===== verification/RouteProps.v ===== *)
(** * Routes: theorems

    Which route a lookup finds, which way traffic leaves the host, and what a bind may claim. *)

From S2P Require Import Prelude NetPolicy IpAddr Link Netif NetifProps.

(** ** The best route *)

Lemma rank_gt_trans a b c : rank_gt a b = true → rank_gt c b = false → rank_gt a c = true.
Proof. destruct a as [[p x] m], b as [[q y] n], c as [[r z] o]. unfold rank_gt. destruct x, y, z; cbn; zbool; cbn; try done; lia. Qed.
Lemma rank_gt_irrefl a : rank_gt a a = false.
Proof. destruct a as [[p x] m]. unfold rank_gt. destruct x; cbn; zbool; cbn; try done; lia. Qed.
Lemma rank_gt_asym a b : rank_gt a b = true → rank_gt b a = false.
Proof. destruct a as [[p x] m], b as [[q y] n]. unfold rank_gt. destruct x, y; cbn; zbool; cbn; try done; lia. Qed.

Section lpm.
Context (dst : IpAddr) (ok : NicRec → bool) (prefer : option Z) (t : Topology).

(** A route that leads to the destination through an interface that may be used, and how it ranks *)
Definition leads (r : Route) (n : NicRec) : Prop := contains (dest r) dst = true ∧ by_name (r_nic r) t = Some n ∧ ok n = true.
Definition rank (r : Route) (n : NicRec) : Rank := (prefix (dest r), bool_decide (prefer = Some (index n)), metric r).

(** One route outranks another: by a longer prefix, else by the preferred interface, else by a lower metric. *)
Definition outranks (r : Route) (n : NicRec) (r' : Route) (n' : NicRec) : Prop :=
  prefix (dest r') < prefix (dest r) ∨
  prefix (dest r') = prefix (dest r) ∧
    ((prefer = Some (index n) ∧ prefer ≠ Some (index n')) ∨
     ((prefer = Some (index n) ↔ prefer = Some (index n')) ∧ metric r < metric r')).
(** The best of a list of routes: none outranks it, and it outranks those before it *)
Definition best_of (l : list Route) (r : Route) (n : NicRec) : Prop :=
  leads r n ∧ ∃ k, l !! k = Some r ∧
  ∀ k' r' n', l !! k' = Some r' → leads r' n' → ¬ outranks r' n' r n ∧ ((k' < k)%nat → outranks r n r' n').

Lemma rank_gt_spec r n r' n' : rank_gt (rank r n) (rank r' n') = true ↔ outranks r n r' n'.
Proof.
  unfold rank_gt, rank, outranks. rewrite orb_true_iff, andb_true_iff, orb_true_iff, !andb_true_iff, negb_true_iff, eqb_true_iff, Z.eqb_eq, !Z.ltb_lt.
  rewrite bool_decide_eq_true, bool_decide_eq_false. assert ((bool_decide (prefer = Some (index n')) = bool_decide (prefer = Some (index n))) ↔ (prefer = Some (index n) ↔ prefer = Some (index n'))) as ->.
  { repeat case_bool_decide; intuition congruence. }
  tauto.
Qed.

(** The same by the code's own comparison *)
Definition best_rank (l : list Route) (r : Route) (n : NicRec) : Prop :=
  leads r n ∧ ∃ k, l !! k = Some r ∧
  ∀ k' r' n', l !! k' = Some r' → leads r' n' → rank_gt (rank r' n') (rank r n) = false ∧ ((k' < k)%nat → rank_gt (rank r n) (rank r' n') = true).

Lemma lpm_fold l : match foldl (lpm_step dst ok prefer t) None l with
  | Some (r, i, k) => ∃ n, best_rank l r n ∧ i = index n ∧ k = rank r n
  | None => ∀ r n, r ∈ l → ¬ leads r n
  end.
Proof.
  induction l as [|r l IH] using rev_ind; [by intros r n ?%elem_of_nil|]. rewrite foldl_app. cbn [foldl]. set (best := foldl _ None l) in *.
  assert ((∀ n, ¬ leads r n) → lpm_step dst ok prefer t best r = best) as Hskip.
  { intros H. unfold lpm_step. destruct (contains (dest r) dst) eqn:Ec; [|done]. cbn. destruct (by_name (r_nic r) t) as [n|] eqn:En; [|done].
    destruct (ok n) eqn:Eo; [|done]. exfalso. by apply (H n). }
  assert ((∀ n, ¬ leads r n) ∨ ∃ n, leads r n) as [Hno|[n Hn]].
  { unfold leads. destruct (contains (dest r) dst) eqn:Ec; [|left; by intros n [? _]]. destruct (by_name (r_nic r) t) as [n|] eqn:En; [|left; by intros n (_ & ? & _)].
    destruct (ok n) eqn:Eo; [right; by exists n|left]. intros m (_ & [= <-] & ?). congruence. }
  - rewrite (Hskip Hno). destruct best as [[[r0 i] k]|].
    + destruct IH as (n & (Hl & pos & Hp & Hbest) & -> & ->). exists n. split; [|done]. split; [done|]. exists pos. split; [by apply lookup_app_l_Some|].
      intros k' r' n' Hk Hl'. apply lookup_app_Some in Hk as [Hk|[_ Hk]]; [by apply (Hbest k' r' n')|]. destruct (k' - length l)%nat; [|done]. injection Hk as <-. by apply Hno in Hl'.
    + intros r' n' [Hin|Hin]%elem_of_app; [by apply IH|]. apply list_elem_of_singleton in Hin as ->. apply Hno.
  - destruct Hn as (Hc & Hb & Ho). assert (leads r n) as Hn by done.
    assert (∀ n', leads r n' → n' = n) as Huniq by (intros n' (_ & H' & _); congruence).
    assert (lpm_step dst ok prefer t best r = match best with Some (_, _, k) => if rank_gt (rank r n) k then Some (r, index n, rank r n) else best | None => Some (r, index n, rank r n) end) as ->
      by (unfold lpm_step; rewrite Hc, Hb, Ho; done).
    assert (∀ m, (∀ k' r' n', l !! k' = Some r' → leads r' n' → rank_gt (rank r n) (rank r' n') = true) → m = n → best_rank (l ++ [r]) r m) as Hlast.
    { intros m H ->. split; [done|]. exists (length l). split; [by rewrite lookup_app_r, Nat.sub_diag by lia|]. intros k' r' n' Hk Hl'. apply lookup_app_Some in Hk as [Hk|[Hge Hk]].
      - specialize (H k' r' n' Hk Hl'). split; [by apply rank_gt_asym|done].
      - destruct (k' - length l)%nat; [|done]. injection Hk as <-. rewrite (Huniq n' Hl'). split; [apply rank_gt_irrefl|lia]. }
    destruct best as [[[r0 i] k]|].
    + destruct IH as (n0 & (Hl & pos & Hp & Hbest) & -> & ->). destruct (rank_gt (rank r n) (rank r0 n0)) eqn:Eg.
      * exists n. split; [|done]. apply Hlast; [|done]. intros k' r' n' Hk Hl'. eapply rank_gt_trans; [exact Eg|]. by apply (Hbest k' r' n').
      * exists n0. split; [|done]. split; [done|]. exists pos. split; [by apply lookup_app_l_Some|]. intros k' r' n' Hk Hl'.
        apply lookup_app_Some in Hk as [Hk|[Hge Hk]]; [by apply (Hbest k' r' n')|]. destruct (k' - length l)%nat; [|done]. injection Hk as <-. rewrite (Huniq n' Hl').
        split; [done|]. apply lookup_lt_Some in Hp. lia.
    + exists n. split; [|done]. apply Hlast; [|done]. intros k' r' n' Hk Hl'. exfalso. apply (IH r' n'); [by eapply list_elem_of_lookup_2|done].
Qed.

Lemma best_rank_of l r n : best_rank l r n → best_of l r n.
Proof.
  intros (Hl & k & Hk & H). split; [done|]. exists k. split; [done|]. intros k' r' n' Hk' Hl'. rewrite <- !rank_gt_spec, not_true_iff_false. by apply (H k' r' n').
Qed.

Lemma lpm_spec : match lpm dst ok prefer t with
  | Some (r, i) => ∃ n, best_of (all_routes t) r n ∧ i = index n
  | None => ∀ r n, r ∈ all_routes t → ¬ leads r n
  end.
Proof. unfold lpm. pose proof (lpm_fold (all_routes t)) as H. destruct (foldl _ None (all_routes t)) as [[[r i] k]|]; cbn; [|done]. destruct H as (n & H & ? & _). exists n. split; [by apply best_rank_of|done]. Qed.

End lpm.

(** C17: a route lookup takes, of all the routes that cover the destination through an interface that may be used,
    the connected ones first and the configured ones in their order, one that none
    outranks, by the length of the prefix, then by leaving through the preferred interface, then by
    the lower metric, and of several that rank alike the first; it finds none exactly when no
    route covers the destination, a prefix covering the addresses that agree with it on its bits. *)
Theorem longest_prefix_wins (dst : IpAddr) (ok : NicRec → bool) (prefer : option Z) (t : Topology) :
  ip_ok dst → Forall (λ r, net_ok (dest r)) (all_routes t) →
  match lpm dst ok prefer t with
  | Some (r, i) => ∃ n, best_of dst ok prefer t (all_routes t) r n ∧ i = index n
  | None => ∀ r n, r ∈ all_routes t → ¬ leads dst ok t r n
  end ∧
  ∀ r n, r ∈ all_routes t → leads dst ok t r n ↔
    is_ipv4 dst = is_ipv4 (addr (dest r)) ∧
    bits dst / 2 ^ (width dst - prefix (dest r)) = bits (addr (dest r)) / 2 ^ (width dst - prefix (dest r)) ∧
    by_name (r_nic r) t = Some n ∧ ok n = true.
Proof.
  intros Hd Hr. split; [apply lpm_spec|]. intros r n Hin. unfold leads. rewrite contains_spec; [tauto| |done]. exact (proj1 (Forall_forall _ _) Hr r Hin).
Qed.

Lemma longest_prefix_wins_witness :
  lpm (V4 0x0a020304) (routes_live Linux 0 sample_net) None sample_net = Some (mk_route (mk_net (V4 0x0a020000) 16) "eth1" (Some (V4 0x0a010063)) None 5, 3) ∧
  ∃ n, best_of (V4 0x0a020304) (routes_live Linux 0 sample_net) None sample_net (all_routes sample_net) (mk_route (mk_net (V4 0x0a020000) 16) "eth1" (Some (V4 0x0a010063)) None 5) n ∧ index n = 3.
Proof.
  assert (lpm (V4 0x0a020304) (routes_live Linux 0 sample_net) None sample_net = Some (mk_route (mk_net (V4 0x0a020000) 16) "eth1" (Some (V4 0x0a010063)) None 5, 3)) as E by (by vm_compute).
  split; [exact E|]. destruct (longest_prefix_wins (V4 0x0a020304) (routes_live Linux 0 sample_net) None sample_net) as [H _].
  - unfold ip_ok. cbn. lia.
  - assert (forallb (λ r, (0 <=? bits (addr (dest r))) && (bits (addr (dest r)) <? 2 ^ width (addr (dest r))) && (0 <=? prefix (dest r)) && (prefix (dest r) <=? width (addr (dest r)))) (all_routes sample_net) = true) as Hb by (by vm_compute).
    apply Forall_forall. intros r Hr. rewrite forallb_forall in Hb. specialize (Hb r (proj1 (list_elem_of_In _ _) Hr)). unfold net_ok, ip_ok. lia.
  - rewrite E in H. destruct H as (n & Hb & ->). by exists n.
Defined.

(** ** The way out *)

Definition is_group (dst : IpAddr) : bool := is_multicast dst || bool_decide (dst = BROADCAST).

Section egress.
Context (os : target_os) (now : Z) (t : Topology) (Ht : topology_ok t).

(** A path through an interface of the host *)
Definition through (p : Path) (n : NicRec) : Prop := nic (p_egress p) t = Some n ∧ p_link p = link n ∧ p_name p = nic_name n.

Lemma through_via n src gw loc : n ∈ nics t → through (path_via n src gw loc) n.
Proof. intros Hn. split; [|done]. by apply by_index. Qed.

Lemma src_bound dst n b rs : src_from os now (Some b) dst t n rs = b.
Proof. done. Qed.

Lemma live_admin n : n ∈ nics t → is_windows os = false → admin os now (link_at t (link n)) = true → routes_live os now t n = true.
Proof.
  intros Hn Hw Ha. unfold routes_live. destruct (no_link_there _ _ (nic_of_ok t n Ht Hn)) as (l & Hl & Hr & _). unfold link_at in *. rewrite Hl in *. cbn in *. by rewrite Hr, Hw.
Qed.

(** A path found is as it should be: *)
Record way_out (v : SockView) (dst : IpAddr) (dst_host : bool) (p : Path) (n : NicRec) : Prop := {
  wo_through : through p n;
  wo_local : p_local p = dst_host;
  wo_loopback : dst_host = true → loopback n = true;
  wo_src : ∀ b, bound_of v = Some b → p_src p = b;
  wo_live : dst_host = false → is_group dst = false → routes_live os now t n = true;
  wo_source : dst_host = false → is_group dst = false → is_windows os = false → ∀ b, bound_of v = Some b → is_loopback b = false;
  wo_device : dst_host = false → is_group dst = false → ∀ d, device v = Some d → index n = d;
  wo_route : dst_host = false → is_group dst = false → device v = None →
    ∃ r, r ∈ all_routes t ∧ leads dst (routes_live os now t) t r n ∧ p_gateway p = gateway r;
}.

Definition fits (v : SockView) (dst : IpAddr) (dst_host : bool) (r : Res errno Path) : Prop :=
  match r with Ok p => ∃ n, way_out v dst dst_host p n | Err _ => True | Panics => False end.

Lemma routed_fits v dst op : device v = None → (is_windows os = false → ∀ b, bound_of v = Some b → is_loopback b = false) →
  fits v dst false (egress_routed os now (bound_of v) (i ← bound_of v; owner i t) dst op t).
Proof.
  intros Hdev Hsrc. unfold egress_routed. set (prefer := index <$> _).
  assert (∀ ok r i, lpm dst ok prefer t = Some (r, i) ∨ lpm dst ok None t = Some (r, i) → (∀ n, ok n = true → routes_live os now t n = true) →
    fits v dst false (n ← expect (nic i t); Ok (path_via n (src_from os now (bound_of v) dst t n (r_src r)) (gateway r) false))) as Hfin.
  { intros ok r i Hl Hok. assert (∃ pr n, best_of dst ok pr t (all_routes t) r n ∧ i = index n) as (pr & n & (Hlead & k & Hk & _) & ->).
    { destruct Hl as [Hl|Hl]; [pose proof (lpm_spec dst ok prefer t) as H|pose proof (lpm_spec dst ok None t) as H]; rewrite Hl in H; destruct H as (n & ? & ?); eauto. }
    destruct Hlead as (Hc & Hb & Ho). destruct (by_name_elem _ _ _ Hb) as [Hn _]. rewrite (by_index t n Ht Hn). cbn. exists n.
    constructor; try done; cbn.
    - by apply through_via.
    - intros b E. by rewrite E.
    - intros _ _. by apply Hok.
    - by rewrite Hdev.
    - intros _ _ _. exists r. split; [by eapply list_elem_of_lookup_2|]. split; [|done]. split_and!; [done..|by apply Hok]. }
  destruct (lpm dst (routes_live os now t) prefer t) as [[r i]|] eqn:El; [|done]. cbn [ok_or mbind res_bind].
  destruct (is_windows os && is_some (bound_of v) && negb _).
  - destruct (lpm dst _ None t) as [[r' i']|] eqn:El'; [|done]. cbn [ok_or mbind res_bind]. eapply Hfin; [by right|]. intros n. by intros [? _]%andb_prop.
  - eapply Hfin; [by left|done].
Qed.

Lemma bound_fits v dst dev : device v = Some dev → (is_windows os = false → ∀ b, bound_of v = Some b → is_loopback b = false) →
  fits v dst false (egress_bound os now (bound_of v) dst dev t).
Proof.
  intros Hdev Hsrc. unfold egress_bound. destruct (nic dev t) as [n|] eqn:En; [|done]. cbn [ok_or mbind res_bind]. apply nic_elem in En as [Hn Hi].
  assert (∀ src gw, routes_live os now t n = true → (∀ b, bound_of v = Some b → src = b) → way_out v dst false (path_via n src gw false) n) as Hok.
  { intros src gw Hlive Hb. constructor; try done; [by apply through_via|rewrite Hdev; intros _ _ d [= <-]; done|by rewrite Hdev]. }
  set (scoped := lpm _ _ _ _). destruct (admin os now (link_at t (link n))) eqn:Ea.
  - destruct (is_macos os) eqn:Em.
    + cbn. destruct scoped as [[r i]|]; [|done]. cbn. exists n. apply Hok; [|by intros b ->]. apply live_admin; [done| |done].
      unfold is_macos, is_windows in *. by destruct os.
    + destruct (is_windows os) eqn:Ew; cbn.
      * destruct (routes_live os now t n) eqn:El; [|done]. cbn. destruct scoped as [[r i]|]; exists n; apply Hok; try done; by intros b ->.
      * assert (routes_live os now t n = true) by (by apply live_admin). destruct scoped as [[r i]|]; exists n; apply Hok; try done; by intros b ->.
  - destruct (is_macos os); [done|]. cbn. by destruct (is_windows os && _).
Qed.

Lemma egress_fits v dst op dst_host : fits v dst dst_host (egress os now v dst op dst_host t).
Proof.
  unfold egress. destruct dst_host.
  - destruct (lo_there t Ht) as (l & -> & Hl & Hlo). cbn. exists l. constructor; try done; [by apply through_via|]. cbn. by intros b ->.
  - destruct (group_index v dst _) as [i|] eqn:Eg.
    + destruct (nic i t) as [n|] eqn:En; [|done]. cbn. apply nic_elem in En as [Hn _].
      assert (is_group dst = true) as Hgr by (unfold group_index in Eg; unfold is_group; by destruct (is_multicast dst || _)).
      exists n. constructor; rewrite ?Hgr; try done; [by apply through_via|]. cbn. by intros b ->.
    + destruct (match bound_of v with Some i => is_loopback i | None => false end && negb (is_windows os)) eqn:El; [done|]. cbn [fail_if mbind res_bind].
      destruct (is_macos os && _); [done|]. cbn [fail_if mbind res_bind].
      assert (is_windows os = false → ∀ b, bound_of v = Some b → is_loopback b = false) as Hsrc.
      { intros Hw b E. rewrite E, Hw in El. by destruct (is_loopback b). }
      assert ((if is_windows os && is_multicast dst then None else device v) = device v) as ->.
      { destruct (is_multicast dst) eqn:Hm; [|by rewrite andb_false_r]. unfold group_index in Eg. rewrite Hm in Eg. cbn in Eg.
        destruct (mcast_if v); [done|]. cbn in Eg. destruct (device v); [done|]. by destruct (is_windows os). }
      destruct (device v) as [dev|] eqn:Ed; [by apply bound_fits|by apply routed_fits].
Qed.

(** A live route is enough on Linux. *)
Lemma egress_found v dst op : os = Linux → is_group dst = false → device v = None → (∀ b, bound_of v = Some b → is_loopback b = false) →
  (∃ r n, r ∈ all_routes t ∧ leads dst (routes_live os now t) t r n) → ∃ p, egress os now v dst op false t = Ok p.
Proof.
  intros Hos Hg Hdev Hb (r & n & Hin & Hl). pose proof (egress_fits v dst op false) as Hf. unfold egress in *.
  assert (group_index v dst (i ← bound_of v; owner i t) = None) as Egi by (unfold group_index; unfold is_group in Hg; by rewrite Hg). rewrite Egi in *.
  assert (match bound_of v with Some i => is_loopback i | None => false end = false) as El by (destruct (bound_of v) as [b|]; [by apply Hb|done]).
  rewrite El, Hdev in *. cbn [andb fail_if mbind res_bind] in *. assert (is_macos os = false) as Em by (by rewrite Hos). rewrite Em in *. cbn [andb fail_if mbind res_bind] in *.
  assert ((if is_windows os && is_multicast dst then None else @None Z) = None) as E0 by (by destruct (is_windows os && _)). rewrite E0 in *.
  unfold egress_routed in *. set (prefer := index <$> _) in *. pose proof (lpm_spec dst (routes_live os now t) prefer t) as Hs.
  destruct (lpm dst (routes_live os now t) prefer t) as [[r' i']|]; [|by destruct (Hs r n Hin)]. destruct Hs as (m & ((_ & Hm & _) & _) & ->).
  cbn [ok_or mbind res_bind] in *. assert (is_windows os = false) as Ew by (by rewrite Hos). rewrite Ew. cbn [andb mbind res_bind].
  destruct (by_name_elem _ _ _ Hm) as [Hmn _]. rewrite (by_index t m Ht Hmn). by eexists.
Qed.

End egress.

(** C13: the way out of the host. A lookup in a well-formed topology never panics, and the path it answers goes through an
    interface of the host, on that interface's link: loopback's, to the host itself; from the address the socket is bound at;
    and, but for groups, whose interface the socket chooses, through one that is up, never from a
    loopback address except on Windows, through the interface the socket is bound to, and else
    by a route of the table that covers the destination, to its gateway. On Linux, for a
    socket bound to no device and not to a loopback address, a destination that is not a group and
    that an interface that is up has a route to is always found. *)
Theorem egress_sound (os : target_os) (now : Z) (t : Topology) (v : SockView) (dst : IpAddr) (op : Op) (dst_host : bool) : topology_ok t →
  match egress os now v dst op dst_host t with
  | Ok p => ∃ n, way_out os now t v dst dst_host p n
  | Err _ => dst_host = false ∧
      (os = Linux → is_group dst = false → device v = None → (∀ b, bound_of v = Some b → is_loopback b = false) →
       ∀ r n, r ∈ all_routes t → ¬ leads dst (routes_live os now t) t r n)
  | Panics => False
  end.
Proof.
  intros Ht. pose proof (egress_fits os now t Ht v dst op dst_host) as H. destruct (egress os now v dst op dst_host t) as [p|e|] eqn:E; [done| |done]. split.
  - destruct dst_host; [|done]. unfold egress in E. by destruct (lo_there t Ht) as (l & El & _); rewrite El in E.
  - intros Hos Hg Hd Hb r n Hin Hl. destruct dst_host.
    + unfold egress in E. by destruct (lo_there t Ht) as (l & El & _); rewrite El in E.
    + destruct (egress_found os now t Ht v dst op Hos Hg Hd Hb) as [p Hp]; [by exists r, n|]. congruence.
Qed.

Lemma egress_sound_witness : ∃ p n, egress Linux 0 (mk_sock_view None None None) (V4 0x0a020304) OpSend false sample_net = Ok p ∧
  way_out Linux 0 sample_net (mk_sock_view None None None) (V4 0x0a020304) false p n ∧ p_gateway p = Some (V4 0x0a010063) ∧ p_src p = V4 0x0a010001.
Proof.
  pose proof (egress_sound Linux 0 sample_net (mk_sock_view None None None) (V4 0x0a020304) OpSend false sample_net_ok) as H.
  destruct (egress Linux 0 (mk_sock_view None None None) (V4 0x0a020304) OpSend false sample_net) as [p| |] eqn:E; [|by vm_compute in E|done].
  destruct H as [n H]. exists p, n. split; [done|]. split; [done|]. vm_compute in E. by injection E as <-.
Defined.
