(* ===== verification/Deliver.v ===== *)
(** * Datagrams across the network

    Who receives a datagram and what the interfaces count, of crates/snare/src/netif.rs:
    [pick_shared] of several sockets at one address, [fan_out] and [fan_out_one], the counters of
    UDP, TCP and raw frames. The address policies are those of NetPolicy.v. *)

From Stdlib Require Import QArith.
From S2P Require Import Prelude Rng NetPolicy IpAddr Link Netif.

Local Open Scope Z_scope.

(** ** Counters *)

Inductive Dir := Tx | Rx.
(** [account], [count_carrier_drop], [count_rx_drop] *)
Definition counted (d : Dir) (frame : Z) (multi : bool) (c : NicCounters) : NicCounters :=
  match d with
  | Tx => mk_counters (rx_packets c) (tx_packets c + 1) (rx_bytes c) (tx_bytes c + frame) (rx_errors c) (tx_errors c)
            (rx_dropped c) (tx_dropped c) (multicast c) (tx_carrier_errors c) (rx_nohandler c)
  | Rx => mk_counters (rx_packets c + 1) (tx_packets c) (rx_bytes c + frame) (tx_bytes c) (rx_errors c) (tx_errors c)
            (rx_dropped c) (tx_dropped c) (multicast c + if multi then 1 else 0) (tx_carrier_errors c) (rx_nohandler c)
  end.
Definition account (i : Z) (d : Dir) (frame : Z) (multi : bool) (t : Topology) : Topology :=
  upd_nic i (with_counters (counted d frame multi)) t.
Definition carrier_dropped (c : NicCounters) : NicCounters :=
  mk_counters (rx_packets c) (tx_packets c) (rx_bytes c) (tx_bytes c) (rx_errors c) (tx_errors c)
    (rx_dropped c) (tx_dropped c + 1) (multicast c) (tx_carrier_errors c + 1) (rx_nohandler c).
Definition count_carrier_drop (i : Z) (t : Topology) : Topology := upd_nic i (with_counters carrier_dropped) t.
Definition rx_drop (c : NicCounters) : NicCounters :=
  mk_counters (rx_packets c) (tx_packets c) (rx_bytes c) (tx_bytes c) (rx_errors c) (tx_errors c)
    (rx_dropped c + 1) (tx_dropped c) (multicast c) (tx_carrier_errors c) (rx_nohandler c).
Definition count_rx_drop (i : Z) (t : Topology) : Topology := upd_nic i (with_counters rx_drop) t.

(** [frame_len] *)
Definition frame_len (i : IpAddr) (payload : Z) : Z := payload + if is_ipv4 i then 42 else 62.

(** ** Sockets that share an address *)

Record Share := mk_share { order : Z; reuseport : bool; inet6 : bool; peer : option SocketAddr }.

(** [flow_hash] *)
Definition hash_word (i : IpAddr) : Z :=
  match to_canonical i with V4 a => a | V6 a => Z.lxor (Z.shiftr a 64 mod 2 ^ 64) (a mod 2 ^ 64) end.
Definition flow_hash (seed : Z) (src dst : SocketAddr) : Z :=
  foldl (λ h w, SplitMix64.finalise (wrap_u64 (Z.lxor h w + SplitMix64.INCREMENT))) seed
    [hash_word (ip src); hash_word (ip dst); Z.lor (Z.shiftl (port src) 16) (port dst)].

(** [min_by_key] over the positions of [shares]: the first least *)
Definition key_lt (a b : bool * Z) : bool := (negb (fst a) && fst b) || (eqb (fst a) (fst b) && (snd a <? snd b)).
Fixpoint min_position (key : Share → bool * Z) (k : nat) (l : list Share) : option (nat * (bool * Z)) :=
  match l with
  | [] => None
  | s :: l =>
      match min_position key (S k) l with
      | Some (j, best) => if key_lt best (key s) then Some (j, best) else Some (k, key s)
      | None => Some (k, key s)
      end
  end.
Definition least (key : Share → bool * Z) (l : list Share) : nat := default 0%nat (fst <$> min_position key 0 l).

(** A stable [sort_by_key] *)
Fixpoint insert_key {A} (le : A → A → bool) (x : A) (l : list A) : list A :=
  match l with
  | [] => [x]
  | y :: l => if le x y then x :: y :: l else y :: insert_key le x l
  end.
Definition sort_key {A} (le : A → A → bool) (l : list A) : list A := foldr (insert_key le) [] l.

(** [pick_shared]; [None] an index out of range *)
Definition pick_shared (os : target_os) (shares : list Share) (wildcard : bool) (src dst : SocketAddr) (seed : Z) : option nat :=
  let oldest s := (false, order s) in
  let newest s := (false, - order s) in
  if is_windows os then Some (least oldest shares)
  else
    let src := canonical src in
    let connected s := bool_decide (canonical <$> peer s = Some src) in
    if existsb connected shares then Some (least (λ s, (negb (connected s), - order s)) shares)
    else if is_macos os then Some (if wildcard then least oldest shares else least newest shares)
    else
      let first := least (λ s, if inet6 s && reuseport s then (true, order s) else newest s) shares in
      f ← shares !! first;
      if negb (reuseport f) then Some first
      else
        let order_at i := match shares !! i with Some s => order s | None => 0 end in
        let group := sort_key (λ i j, order_at i <=? order_at j)
          (retain (λ i, match shares !! i with Some s => reuseport s | None => false end) (seq 0 (length shares))) in
        group !! Z.to_nat (Z.shiftr (Z.shiftr (flow_hash seed src dst) 32 * Z.of_nat (length group)) 32).

(** ** Recipients *)

Section deliver.
Context (os : target_os) {Q : Type}.

Record Cand := mk_cand { c_addr : SocketAddr; endpoint : bool; c_device : option Z; dual : bool; share : Share; c_q : Q }.
Record Copy := mk_copy { q : Q; delays : Delays; via : option (nat * nat); c_nic : option string; ingress : option Z; c_mtu : option Z }.
Record Wire := mk_wire { w_src : SocketAddr; w_dest : SocketAddr; w_len : Z }.

(** [Cand::toward], [takes_from] *)
Definition cand_toward (dst : SocketAddr) (c : Cand) : option Cand :=
  if negb (port (c_addr c) =? port dst) then None
  else if eqb (is_ipv4 (ip (c_addr c))) (is_ipv4 (ip dst)) then
    Some (mk_cand (c_addr c) (endpoint c) (c_device c) false (share c) (c_q c))
  else if negb (dual c && is_ipv4 (ip dst)) then None
  else Some (mk_cand (socket_addr UNSPECIFIED4 (port dst)) (endpoint c) (c_device c) (dual c) (share c) (c_q c)).
Definition takes_from (src : SocketAddr) (c : Cand) : bool :=
  is_windows os || match peer (share c) with Some p => bool_decide (canonical p = canonical src) | None => true end.

(** [one_of]: [cands.swap(0, i)], then [truncate(1)] *)
Definition one_of (seed : Z) (cands : list Cand) (src dst : SocketAddr) : option (list Cand) :=
  match cands with
  | c :: _ :: _ =>
      i ← pick_shared os (share <$> cands) (is_unspecified (ip (c_addr c))) src dst seed;
      c ← cands !! i;
      Some [c]
  | _ => Some cands
  end.

(** Whether a datagram to the directed broadcast of [net] reaches a candidate *)
Definition directed_to (t : Topology) (dip : IpAddr) (net : IpNet) (c : Cand) : bool :=
  let i := ip (c_addr c) in
  is_unspecified i || bool_decide (i = dip) || ((endpoint c || is_station_ip i t) && contains net i).

(** [(c.addr.port(), c.addr.ip())] *)
Definition cand_le (a b : Cand) : bool :=
  let x := c_addr a in let y := c_addr b in
  (port x <? port y) ||
  ((port x =? port y) &&
   match ip x, ip y with V4 a, V4 b | V6 a, V6 b => a <=? b | V4 _, V6 _ => true | V6 _, V4 _ => false end).

(** The recipients [fan_out] chooses; [None] a panic *)
Definition chosen (now : Z) (seed : Z) (w : Wire) (station : bool) (cands : list Cand) (t : Topology) : option (list Cand) :=
  let dst := w_dest w in
  let cands := retain (takes_from (w_src w)) (omap (cand_toward dst) cands) in
  match dest_kind (ip dst) t with
  | Unicast =>
      let exact := retain (λ c, bool_decide (c_addr c = dst)) cands in
      match exact with
      | _ :: _ => one_of seed exact (w_src w) dst
      | [] =>
          if bool_decide (presence os now (ip dst) station t = PHost) then
            let wild := retain (λ c, is_unspecified (ip (c_addr c))) cands in
            let wild := if existsb (λ c, negb (dual c)) wild then retain (λ c, negb (dual c)) wild else wild in
            one_of seed wild (w_src w) dst
          else Some []
      end
  | Limited | Multicast => Some cands
  | Directed net => Some (retain (directed_to t (ip dst) net) cands)
  end.

(** ** Delivery *)

Inductive net_event := LinkDown (addr : SocketAddr) (nic : string) | LinkEvent (from to : SocketAddr) (len : Z) (f : LinkFault).

Record Net := mk_net_state { topo : Topology; policies : @Policies SocketAddr _ _; log : list net_event }.
Definition with_topo (t : Topology) (n : Net) : Net := mk_net_state t (policies n) (log n).
Definition log_event (e : net_event) (n : Net) : Net := mk_net_state (topo n) (policies n) (log n ++ [e]).

(** Whether the sender's own link carries the datagram, and what the send counts *)
Definition count_sent (now : Z) (s : Sender) (w : Wire) (lo : Z) (tx : bool) (n : Net) : bool * Net :=
  let frame := frame_len (ip (w_dest w)) (w_len w) in
  match s with
  | Host p =>
      if p_local p then (true, if tx then with_topo (account lo Tx frame false (topo n)) n else n)
      else
        let up := usable os now (link_at (topo n) (p_link p)) in
        (up, if tx then
               if up then with_topo (account (p_egress p) Tx frame false (topo n)) n
               else log_event (LinkDown (w_dest w) (p_name p)) (with_topo (count_carrier_drop (p_egress p) (topo n)) n)
             else n)
  | Station _ => (true, n)
  end.

(** The interface a datagram crosses and the one it arrives on; [None] it does not get there *)
Definition route_to (now : Z) (s : Sender) (sender_up rcpt_host : bool) (lo : Z) (i : IpAddr) (t : Topology) : option (option Z * option Z) :=
  match s with
  | Host p =>
      if rcpt_host then Some (None, Some (if p_local p then lo else p_egress p))
      else if p_local p then Some (None, None)
      else if negb sender_up || match segment i t with Some seg => negb (seg =? p_egress p) | None => false end then None
      else Some (Some (p_egress p), None)
  | Station sip =>
      Some match is_host os now sip t, rcpt_host with
           | true, true => (None, Some lo)
           | true, false => (segment i t, None)
           | false, true => (segment sip t, segment sip t)
           | false, false => (segment sip t, None)
           end
  end.

Definition held_back (held : option Z) (d : Delays) : Delays :=
  match held with
  | Some h => mk_delays ((Z.max h <$> take (dlen d) (values d)) ++ drop (dlen d) (values d)) (dlen d)
  | None => d
  end.
Definition least_of (l : list Z) : option Z := match l with [] => None | x :: l => Some (foldl Z.min x l) end.

(** The link it crosses, with its down epoch, and the link's policy; [inl] it is not there or down *)
Definition cross (now : Z) (crossing : option Z) (rcpt_host : bool) (n : Net) : Net + (option (nat * nat) * option NicPolicy) :=
  let t := topo n in
  match crossing with
  | None => inr (None, None)
  | Some k =>
      match link_of k t with
      | None => inl n
      | Some l =>
          if usable os now (link_at t l) then inr (Some (l, epoch os now (link_at t l)), policy_of k t)
          else inl (if rcpt_host then with_topo (count_rx_drop k t) n else n)
      end
  end.

(** The sockets of the host that do not take what arrives on [arrives]: one bound to another interface, and
    on Windows one whose address is another's (strong host receive) *)
Definition refuses (lo : Z) (arrives : option Z) (c : Cand) (t : Topology) : bool :=
  let i := ip (c_addr c) in
  (negb (is_windows os) && is_some (c_device c) && negb (bool_decide (c_device c = arrives))) ||
  (is_windows os && negb (is_unspecified i) &&
   match arrives with Some k => negb (k =? lo) && negb (bool_decide (index <$> owner i t = Some k)) | None => false end).

(** One turn of the loop of [fan_out_selected]; the outer [None] a panic *)
Definition deliver_one (now : Z) (s : Sender) (w : Wire) (multi sender_up : bool) (lo : Z) (c : Cand) (n : Net) : option (option Copy * Net) :=
  let t := topo n in
  let i := ip (c_addr c) in
  let rcpt_host := if endpoint c then is_host os now i t else negb (is_station_ip i t) in
  match route_to now s sender_up rcpt_host lo i t with
  | None => Some (None, n)
  | Some (crossing, arrives) =>
      let egress := match s with Host p => Some (if p_local p then lo else p_egress p) | Station _ => None end in
      let mtu := least_of (omap (λ o, o ≫= λ k, mtu_of k t) [egress; crossing; arrives]) in
      match cross now crossing rcpt_host n with
      | inl n => Some (None, n)
      | inr (via, policy) =>
          if rcpt_host && refuses lo arrives c t then Some (None, n)
          else
            let at_ := if is_unspecified i && negb (has_udp (c_addr c) (policies n)) then socket_addr (ip (w_dest w)) (port (c_addr c)) else c_addr c in
            let '(r, p) := link_deliveries policy at_ (w_len w) (policies n) in
            '(ds, faults) ← r;
            let ds := held_back ((λ u, sat_sub u now) <$> held_until_pair now (w_src w) (w_dest w) (c_addr c) p) ds in
            let events := LinkEvent (w_src w) (c_addr c) (w_len w) <$> faults in
            let arrives := if rcpt_host then arrives else None in
            let frame := frame_len (ip (w_dest w)) (w_len w) in
            let t := match arrives with Some k => Nat.iter (dlen ds) (account k Rx frame multi) t | None => t end in
            let name := k ← arrives; nic_name <$> nic k t in
            Some (Some (mk_copy (c_q c) ds via name arrives mtu), mk_net_state t p (log n ++ events))
      end
  end.

Fixpoint deliver_all (now : Z) (s : Sender) (w : Wire) (multi sender_up : bool) (lo : Z) (cs : list Cand) (n : Net) : option (list Copy * Net) :=
  match cs with
  | [] => Some ([], n)
  | c :: cs =>
      '(copy, n) ← deliver_one now s w multi sender_up lo c n;
      '(copies, n) ← deliver_all now s w multi sender_up lo cs n;
      Some (option_list copy ++ copies, n)
  end.

(** [fan_out_selected] *)
Definition fan_out_selected (now : Z) (s : Sender) (w : Wire) (cs : list Cand) (tx : bool) (n : Net) : option (list Copy * Net) :=
  let multi := bool_decide (dest_kind (ip (w_dest w)) (topo n) = Multicast) in
  l ← lo (topo n);
  let '(up, n) := count_sent now s w (index l) tx n in
  deliver_all now s w multi up (index l) cs n.

(** [fan_out] *)
Definition fan_out (now seed : Z) (s : Sender) (w : Wire) (station : bool) (cands : list Cand) (tx : bool) (n : Net) : option (list Copy * Net) :=
  cs ← chosen now seed w station cands (topo n);
  fan_out_selected now s w (sort_key cand_le cs) tx n.

(** [fan_out_one]; the last copy emitted *)
Definition fan_out_one (now : Z) (s : Sender) (w : Wire) (station : bool) (cand : option Cand) (tx : bool) (n : Net) : option (option Copy * Net) :=
  let t := topo n in
  let dst := w_dest w in
  let takes c :=
    takes_from (w_src w) c &&
    match dest_kind (ip dst) t with
    | Unicast => bool_decide (c_addr c = dst) || (is_unspecified (ip (c_addr c)) && bool_decide (presence os now (ip dst) station t = PHost))
    | Limited | Multicast => true
    | Directed net => directed_to t (ip dst) net c
    end in
  let pick := c ← cand; c ← cand_toward dst c; if takes c then Some c else None in
  '(copies, n) ← fan_out_selected now s w (option_list pick) tx n;
  Some (last copies, n).

End deliver.
Arguments Cand : clear implicits.
Arguments Copy : clear implicits.

(** ** TCP and raw frames *)

(** [hop_delay] *)
Definition hop_delay (h : option Hop) (n : Net) : Z * Net :=
  match (h ← h; policy_of (h_index h) (topo n)) with
  | None => (0, n)
  | Some p => let '(d, ps) := jitter_draw (nic_jitter p) (policies n) in (nic_latency p + d, mk_net_state (topo n) ps (log n))
  end.

(** The segments of a write as [account_tcp_mss] counts them, one turn each: [while left > 0] *)
Fixpoint account_segments (fuel : nat) (i : Z) (dirs : list Dir) (left mss header : Z) (t : Topology) : Topology :=
  match fuel with
  | O => t
  | S fuel =>
      if left <=? 0 then t
      else
        let seg := Z.min left mss in
        account_segments fuel i dirs (left - seg) mss header (foldl (λ t d, account i d (seg + header) false t) t dirs)
  end.
(** [account_tcp_mss]; the segments it adds to the host's TCP counters, and the topology. [None] a panic *)
Definition account_tcp_mss (os : target_os) (now : Z) (h : option Hop) (from_client : bool) (len : Z) (dst : IpAddr) (mss : option Z) (t : Topology)
    : option (Z * Topology) :=
  if len =? 0 then Some (0, t)
  else
    l ← lo t;
    let mss_of i := Z.max (sat_sub (default 1500 (mtu_of i t)) 40) 1 in
    let segs := div_ceil len (default (mss_of (match h with Some h => h_index h | None => index l end)) mss) in
    match match h with
          | Some h => if negb (usable os now (link_at t (h_link h))) then None else Some (h_index h, if from_client then [Tx] else [Rx])
          | None => Some (index l, [Tx; Rx])
          end with
    | None => Some (segs, t)
    | Some (i, dirs) =>
        let mss := default (mss_of i) mss in
        Some (segs, account_segments (Z.to_nat len) i dirs len mss (if is_ipv4 dst then 54 else 74) t)
    end.

(** [raw_send] *)
Definition raw_send (os : target_os) (now : Z) (i len : Z) (t : Topology) : (errno + bool) * Topology :=
  match nic i t with
  | None => (inr true, t)
  | Some n =>
      let l := link_at t (link n) in
      if is_linux os && negb (admin os now l) then (inl ENETDOWN, t)
      else if s_mtu (spec n) + 14 <? len then (inl EMSGSIZE, t)
      else if negb (usable os now l) then (inr false, count_carrier_drop i t)
      else (inr true, account i Tx len false t)
  end.
