(* ===== verification/DeliverProps.v ===== *)
(** * Datagrams across the network: theorems

    Who receives a datagram, that the shortcut for a single candidate is no other, and that the
    interfaces count what crosses them. *)

From S2P Require Import Prelude Rng NetPolicy NetPolicyProps IpAddr Link Netif NetifProps Deliver.

(** ** Picking one of several *)

Lemma min_position_range key l : ∀ k, match min_position key k l with Some (j, _) => (k ≤ j < k + length l)%nat | None => l = [] end.
Proof.
  induction l as [|s l IH]; intros k; [done|]. cbn [min_position length]. specialize (IH (S k)). destruct (min_position key (S k) l) as [[j b]|]; [|lia].
  destruct (key_lt b (key s)); lia.
Qed.

Lemma least_range key l : l ≠ [] → (least key l < length l)%nat.
Proof. intros Hl. unfold least. pose proof (min_position_range key l 0) as H. destruct (min_position key 0 l) as [[j b]|]; [cbn; lia|done]. Qed.

Lemma insert_key_perm {A} (le : A → A → bool) x l : insert_key le x l ≡ₚ x :: l.
Proof. induction l as [|y l IH]; cbn; [done|]. destruct (le x y); [done|]. rewrite IH. constructor. Qed.
Lemma sort_key_perm {A} (le : A → A → bool) l : sort_key le l ≡ₚ l.
Proof. induction l as [|x l IH]; cbn; [done|]. rewrite insert_key_perm. by constructor. Qed.

Lemma finalise_range z : is_u64 (SplitMix64.finalise z).
Proof. unfold SplitMix64.finalise, SplitMix64.wrapping_mul. apply xorshift_range; [lia|]. apply wrap_u64_range. Qed.
Lemma flow_hash_range seed src dst : 0 ≤ Z.shiftr (flow_hash seed src dst) 32 < 2 ^ 32.
Proof.
  unfold flow_hash. cbn [foldl]. match goal with |- context [SplitMix64.finalise ?z] => pose proof (finalise_range z) as H; set (h := SplitMix64.finalise z) in * end.
  rewrite Z.shiftr_div_pow2 by lia. dlia.
Qed.

(** The choice among sockets that share an address is always one of them. *)
Lemma pick_shared_range os shares wildcard src dst seed : shares ≠ [] →
  ∃ i, pick_shared os shares wildcard src dst seed = Some i ∧ (i < length shares)%nat.
Proof.
  intros Hne. unfold pick_shared. destruct (is_windows os); [eexists; split; [done|by apply least_range]|].
  destruct (existsb _ shares); [eexists; split; [done|by apply least_range]|].
  destruct (is_macos os); [destruct wildcard; eexists; (split; [done|by apply least_range])|].
  set (first := least _ shares). assert (first < length shares)%nat as Hf by (by apply least_range).
  destruct (lookup_lt_is_Some_2 _ _ Hf) as [f Ef]. rewrite Ef. cbn [mbind option_bind]. destruct (reuseport f) eqn:Er; cbn [negb]; [|by exists first].
  set (members := retain _ _). set (group := sort_key _ members).
  assert (first ∈ group) as Hin.
  { unfold group. rewrite sort_key_perm. apply elem_of_retain. rewrite Ef. split; [|done]. apply elem_of_seq. lia. }
  assert (∀ i, i ∈ group → (i < length shares)%nat) as Hall.
  { intros i. unfold group. rewrite sort_key_perm. intros [H _]%elem_of_retain. apply elem_of_seq in H. lia. }
  pose proof (flow_hash_range seed (canonical src) dst) as Hh. set (h := Z.shiftr (flow_hash _ _ _) 32) in *.
  assert (0 < length group)%nat as Hg by (destruct group; [by apply elem_of_nil in Hin|cbn; lia]).
  assert (Z.to_nat (Z.shiftr (h * Z.of_nat (length group)) 32) < length group)%nat as Hlt.
  { rewrite Z.shiftr_div_pow2 by lia. apply Nat2Z.inj_lt. rewrite Z2Nat.id by (apply Z.div_pos; lia). apply Z.div_lt_upper_bound; nia. }
  destruct (lookup_lt_is_Some_2 _ _ Hlt) as [i Ei]. exists i. split; [done|]. apply Hall. by eapply list_elem_of_lookup_2.
Qed.

(** ** Recipients *)

Section chosen.
Context (os : target_os) {Q : Type} (now seed : Z) (w : Wire) (station : bool) (t : Topology).
Implicit Types (c : Cand Q) (cands : list (Cand Q)).

Lemma one_of_spec cands : ∃ cs, one_of os seed cands (w_src w) (w_dest w) = Some cs ∧ (length cs ≤ 1)%nat ∧ cs ⊆ cands ∧ (cands ≠ [] → cs ≠ []).
Proof.
  unfold one_of. destruct cands as [|c [|c' cands]]; [exists []; split_and!; cbn; done || lia|exists [c]; split_and!; cbn; done || lia|].
  set (l := c :: c' :: cands). destruct (pick_shared_range os (share <$> l) (is_unspecified (ip (c_addr c))) (w_src w) (w_dest w) seed) as (i & E & Hi); [done|].
  rewrite E. cbn [mbind option_bind]. rewrite length_fmap in Hi. destruct (lookup_lt_is_Some_2 _ _ Hi) as [x Ex]. rewrite Ex. cbn. exists [x]. split_and!; [done|cbn; lia| |done].
  intros y ->%list_elem_of_singleton. by eapply list_elem_of_lookup_2.
Qed.

(** The candidates that may take a datagram at all *)
Definition eligible cands : list (Cand Q) := retain (takes_from os (w_src w)) (omap (cand_toward (w_dest w)) cands).

Lemma chosen_ok cands : ∃ cs, chosen os now seed w station cands t = Some cs ∧ cs ⊆ eligible cands ∧
  (dest_kind (ip (w_dest w)) t = Unicast → (length cs ≤ 1)%nat ∧
     ∀ c, c ∈ cs → c_addr c = w_dest w ∨
       (is_unspecified (ip (c_addr c)) = true ∧ presence os now (ip (w_dest w)) station t = PHost ∧ ∀ c', c' ∈ eligible cands → c_addr c' ≠ w_dest w)).
Proof.
  unfold chosen. fold (eligible cands). destruct (dest_kind (ip (w_dest w)) t) as [| |net|] eqn:Ek.
  - set (exact := retain _ (eligible cands)). assert (∀ c, c ∈ exact ↔ c ∈ eligible cands ∧ c_addr c = w_dest w) as Hex.
    { intros c. unfold exact. rewrite elem_of_retain, bool_decide_eq_true. done. }
    destruct exact as [|e exact'] eqn:Eex.
    + case_bool_decide as Hp; [|exists []; split_and!; [done|set_solver|intros _; split; [cbn; lia|set_solver]]]. set (wild := retain _ (eligible cands)). match goal with |- context [one_of os seed ?x _ _] => set (wild' := x) end.
      assert (∀ c, c ∈ wild' → c ∈ eligible cands ∧ is_unspecified (ip (c_addr c)) = true) as Hw.
      { intros c Hc. assert (c ∈ wild) as Hc' by (unfold wild' in Hc; destruct (existsb _ wild); [by apply elem_of_retain in Hc as [? _]|done]). by apply elem_of_retain in Hc'. }
      destruct (one_of_spec wild') as (cs & E & Hl & Hsub & _). exists cs. split; [done|]. split; [intros c Hc; by apply Hw, Hsub|]. intros _. split; [done|].
      intros c Hc. right. split_and!; [by apply Hw, Hsub|done|]. intros c' Hc' Hd. apply (proj1 (elem_of_nil c')), Hex. done.
    + destruct (one_of_spec (e :: exact')) as (cs & E & Hl & Hsub & _). exists cs. split; [done|]. split; [intros c Hc; by apply Hex, Hsub|]. intros _. split; [done|].
      intros c Hc. left. by apply Hex, Hsub.
  - by exists (eligible cands).
  - exists (retain (directed_to t (ip (w_dest w)) net) (eligible cands)). split_and!; [done| |done]. intros c [? _]%elem_of_retain. done.
  - by exists (eligible cands).
Qed.

End chosen.

(** ** Counting *)

Lemma nic_upd i f t j : (∀ n, index (f n) = index n) → nic j (upd_nic i f t) = (if i =? j then f else id) <$> nic j t.
Proof.
  intros Hf. unfold upd_nic, nic. destruct (position (λ n, index n =? i) (nics t)) as [k|] eqn:Ek.
  - cbn [nics with_nics]. revert k Ek. induction (nics t) as [|m l IH]; intros k Ek; [done|]. cbn [position] in Ek. cbn [find_first].
    destruct (Z.eqb_spec (index m) i) as [<-|Hne].
    + injection Ek as <-. cbn [alter list_alter find_first]. rewrite Hf. destruct (Z.eqb_spec (index m) j); [done|]. by destruct (find_first _ l).
    + destruct (position _ l) as [k'|]; [|done]. injection Ek as <-. cbn [alter list_alter find_first]. destruct (Z.eqb_spec (index m) j) as [<-|]; [|by apply IH].
      by destruct (Z.eqb_spec i (index m)).
  - destruct (Z.eqb_spec i j) as [<-|]; [|by destruct (find_first _ (nics t))]. destruct (find_first _ (nics t)) as [n|] eqn:En; [|done].
    apply find_first_Some in En as [Hn Hi]. pose proof (position_None _ _ Ek n Hn). cbn in *. congruence.
Qed.

Definition stat (f : NicCounters → Z) (i : Z) (t : Topology) : option Z := f ∘ counters <$> nic i t.

Lemma stat_upd f i g t j : stat f j (upd_nic i (with_counters g) t) = (λ n, f ((if i =? j then g else id) (counters n))) <$> nic j t.
Proof. unfold stat. rewrite nic_upd by done. destruct (nic j t) as [n|]; [|done]. cbn. by destruct (i =? j). Qed.

(** A network whose durations are durations *)
Definition net_ok (n : Net) : Prop :=
  topology_ok (topo n) ∧ Forall (λ m, nic_policy_ok (s_policy (spec m))) (nics (topo n)) ∧ policies_ok (policies n).

Lemma net_ok_counters i g n : net_ok n → net_ok (with_topo (upd_nic i (with_counters g) (topo n)) n).
Proof.
  intros (H1 & H2 & H3). split_and!; [by apply ok_counters| |done]. cbn. unfold upd_nic. destruct (position _ (nics (topo n))); [|done]. cbn.
  by apply Forall_alter_at.
Qed.

Lemma net_ok_policies n p l : net_ok n → same_tables (policies n) p → net_ok (mk_net_state (topo n) p l).
Proof. intros (H1 & H2 & H3) Hs. split_and!; [done|done|]. by eapply same_tables_ok. Qed.

Lemma policy_of_ok i n p : net_ok n → policy_of i (topo n) = Some p → nic_policy_ok p.
Proof.
  intros (_ & H & _). unfold policy_of. destruct (nic i (topo n)) as [m|] eqn:E; [|done]. cbn. destruct (nic_policy_is_default _); [done|]. intros [= <-].
  apply nic_elem in E as [Hm _]. exact (proj1 (Forall_forall _ _) H m Hm).
Qed.

(** What a copy adds to the frames interface [i] received *)
Definition arrived {Q} (i : Z) (c : Copy Q) : Z := if bool_decide (ingress c = Some i) then Z.of_nat (dlen (delays c)) else 0.
Definition arrivals {Q} (i : Z) (l : list (Copy Q)) : Z := foldr (λ c s, arrived i c + s) 0 l.
Lemma arrivals_app {Q} i (l k : list (Copy Q)) : arrivals i (l ++ k) = arrivals i l + arrivals i k.
Proof. induction l as [|c l IH]; [done|]. cbn. fold (arrivals i (l ++ k)) (arrivals i l). lia. Qed.

Lemma iter_account k frame multi m : ∀ t, (∀ i n, nic i t = Some n →
    stat rx_packets i (Nat.iter m (account k Rx frame multi) t) = Some (rx_packets (counters n) + if k =? i then Z.of_nat m else 0) ∧
    stat tx_packets i (Nat.iter m (account k Rx frame multi) t) = Some (tx_packets (counters n))) ∧
  ∀ n, net_ok n → net_ok (with_topo (Nat.iter m (account k Rx frame multi) (topo n)) n).
Proof.
  induction m as [|m IH]; intros t.
  - split; [|by intros [] ?]. intros i n Hn. unfold stat. cbn [Nat.iter nat_rect]. rewrite Hn. cbn. by destruct (k =? i); rewrite Z.add_0_r.
  - destruct (IH t) as [IH1 IH2]. split.
    + intros i n Hn. destruct (IH1 i n Hn) as [H1 H2]. rewrite !Nat.iter_succ. unfold account at 1 3. rewrite !stat_upd.
      set (t' := Nat.iter m _ t) in *. unfold stat in H1, H2. destruct (nic i t') as [n'|]; [|done]. cbn in *. injection H1 as H1. injection H2 as H2.
      destruct (k =? i); cbn; split; f_equal; lia.
    + intros n Hn. specialize (IH2 n Hn). apply (net_ok_counters k (counted Rx frame multi)) in IH2. done.
Qed.

Section count.
Context (os : target_os) {Q : Type} (now : Z) (s : Sender) (w : Wire) (multi up : bool) (lo_ : Z).
Implicit Types (c : Cand Q) (n : Net).

(** What a delivery leaves: a network as well formed, the frames received counted, those sent as before *)
Definition delivers (n : Net) (copies : list (Copy Q)) (n' : Net) : Prop :=
  net_ok n' ∧ ∀ i m, nic i (topo n) = Some m →
    stat rx_packets i (topo n') = Some (rx_packets (counters m) + arrivals i copies) ∧ stat tx_packets i (topo n') = Some (tx_packets (counters m)).

Lemma delivers_nothing n : net_ok n → delivers n [] n.
Proof. intros Hn. split; [done|]. intros i m Hm. unfold stat. rewrite Hm. cbn. by rewrite Z.add_0_r. Qed.

Lemma delivers_trans n1 n2 n3 l k : delivers n1 l n2 → delivers n2 k n3 → delivers n1 (l ++ k) n3.
Proof.
  intros [H1 C1] [H2 C2]. split; [done|]. intros i m Hm. destruct (C1 i m Hm) as [E1 E2]. unfold stat in E1, E2.
  destruct (nic i (topo n2)) as [m2|] eqn:Em; [|done]. cbn in *. injection E1 as E1. injection E2 as E2. destruct (C2 i m2 Em) as [-> ->]. rewrite E1, E2, arrivals_app.
  split; f_equal; lia.
Qed.

Lemma deliver_one_ok c n : net_ok n → ∃ copy n', deliver_one os now s w multi up lo_ c n = Some (copy, n') ∧ delivers n (option_list copy) n' ∧
  (∀ cp, copy = Some cp → q cp = c_q c).
Proof.
  intros Hn. pose proof (delivers_nothing n Hn) as Hnone. unfold deliver_one. set (rcpt := if endpoint c then _ else _).
  destruct (route_to _ _ _ _ _ _ _ _) as [[crossing arrives]|]; [|by exists None, n].
  destruct (cross os now crossing rcpt n) as [n'|[via_ pol]] eqn:Ec.
  { exists None, n'. split; [done|]. split; [|done]. unfold cross in Ec. destruct crossing as [k|]; [|done]. destruct (link_of k (topo n)) as [l|]; [|by injection Ec as <-].
    destruct (usable _ _ _); [done|]. injection Ec as <-. destruct rcpt; [|done]. split; [by apply net_ok_counters|]. intros i m Hm. cbn [topo with_topo].
    unfold count_rx_drop. rewrite !stat_upd, Hm. cbn. by destruct (k =? i); rewrite Z.add_0_r. }
  destruct (rcpt && _); [by exists None, n|]. set (at_ := if is_unspecified _ && _ then _ else _).
  assert (∀ p, pol = Some p → nic_policy_ok p) as Hpol.
  { intros p ->. unfold cross in Ec. destruct crossing as [k|]; [|done]. destruct (link_of k (topo n)); [|done]. destruct (usable _ _ _); [|done]. injection Ec as _ Ec.
    by eapply policy_of_ok. }
  destruct (link_deliveries_spec pol at_ (w_len w) (policies n) (proj2 (proj2 Hn)) Hpol) as (ds & fs & E & _ & _ & _ & Hs).
  destruct (link_deliveries pol at_ (w_len w) (policies n)) as [r p']. cbn [fst snd] in *. subst r. cbn [mbind option_bind].
  set (ds' := held_back _ ds). set (a := if rcpt then arrives else None).
  eexists _, _. split; [done|]. split; [|by intros cp [= <-]].
  assert (∀ i cp, ingress cp = a → delays cp = ds' → arrivals (Q := Q) i (option_list (Some cp)) = match a with Some k => if k =? i then Z.of_nat (dlen ds') else 0 | None => 0 end) as Harr.
  { intros i cp Ei Ed. cbn. unfold arrived. rewrite Ei, Ed. destruct a as [k|]; [|done]. destruct (Z.eqb_spec k i) as [->|Hne]; [rewrite bool_decide_true by done; lia|].
    rewrite bool_decide_false; [done|congruence]. }
  destruct a as [k|] eqn:Ea; cbn [topo].
  - destruct (iter_account k (frame_len (ip (w_dest w)) (w_len w)) multi (dlen ds') (topo n)) as [Hst Hok]. split.
    + specialize (Hok n Hn). by apply (net_ok_policies _ p' (log n ++ (LinkEvent (w_src w) (c_addr c) (w_len w) <$> fs))) in Hok.
    + intros i m Hm. rewrite (Harr i) by done. by apply Hst.
  - split; [by apply net_ok_policies|]. intros i m Hm. rewrite (Harr i) by done. unfold stat. cbn [topo]. rewrite Hm. cbn. by rewrite Z.add_0_r.
Qed.

Lemma deliver_all_ok cs : ∀ n, net_ok n → ∃ copies n', deliver_all os now s w multi up lo_ cs n = Some (copies, n') ∧ delivers n copies n' ∧
  (length copies ≤ length cs)%nat ∧ (∀ cp, cp ∈ copies → ∃ c, c ∈ cs ∧ q cp = c_q c).
Proof.
  induction cs as [|c cs IH]; intros n Hn; cbn [deliver_all].
  - exists [], n. split_and!; [done|by apply delivers_nothing|done|set_solver].
  - destruct (deliver_one_ok c n Hn) as (copy & n1 & -> & H1 & Hq). cbn [mbind option_bind]. destruct (IH n1 (proj1 H1)) as (copies & n2 & -> & H2 & Hl & Hc). cbn [mbind option_bind].
    eexists _, _. split; [done|]. split_and!; [by eapply delivers_trans|rewrite length_app; destruct copy; cbn; lia|].
    intros cp [Hin|Hin]%elem_of_app; [|destruct (Hc cp Hin) as (c' & ? & ?); exists c'; split; [by right|done]].
    exists c. split; [by left|]. apply Hq. destruct copy as [cp'|]; cbn in Hin; [by apply list_elem_of_singleton in Hin as ->|by apply elem_of_nil in Hin].
Qed.

End count.

(** Whether a send is counted as sent on interface [i]: a path's own, when its link is up, and loopback's within the host *)
Definition sends_on (os : target_os) (now : Z) (s : Sender) (n : Net) (i : Z) : bool :=
  match s with
  | Host p =>
      if p_local p then bool_decide (index <$> lo (topo n) = Some i)
      else (p_egress p =? i) && usable os now (link_at (topo n) (p_link p))
  | Station _ => false
  end.

Section fan_out.
Context (os : target_os) {Q : Type} (now seed : Z) (s : Sender) (w : Wire) (station tx : bool).
Implicit Types (n : Net) (cands : list (Cand Q)).

Lemma count_sent_ok l n : net_ok n → lo (topo n) = Some l →
  let n' := (count_sent os now s w (index l) tx n).2 in
  net_ok n' ∧ ∀ i m, nic i (topo n) = Some m → ∃ m', nic i (topo n') = Some m' ∧ rx_packets (counters m') = rx_packets (counters m) ∧
    tx_packets (counters m') = tx_packets (counters m) + if tx && sends_on os now s n i then 1 else 0.
Proof.
  intros Hn El n'. assert (∀ k g, net_ok (with_topo (upd_nic k (with_counters g) (topo n)) n)) as Hok by (intros; by apply net_ok_counters).
  assert (∀ k (g : NicCounters → NicCounters) i m (b : bool), nic i (topo n) = Some m → (∀ c, rx_packets (g c) = rx_packets c) → (∀ c, tx_packets (g c) = tx_packets c + if b then 1 else 0) →
    ∃ m', nic i (upd_nic k (with_counters g) (topo n)) = Some m' ∧ rx_packets (counters m') = rx_packets (counters m) ∧
      tx_packets (counters m') = tx_packets (counters m) + if (k =? i) && b then 1 else 0) as Hst.
  { intros k g i m b Hm H1 H2. rewrite nic_upd by done. rewrite Hm. cbn. eexists. split; [done|]. destruct (k =? i); cbn; [by rewrite H1, H2|by rewrite Z.add_0_r]. }
  unfold n', count_sent, sends_on. destruct s as [p|i].
  - destruct (p_local p).
    + destruct tx; cbn; [|split; [done|]; intros i m Hm; exists m; by rewrite Z.add_0_r]. split; [apply Hok|]. intros i m Hm.
      destruct (Hst (index l) (counted Tx (frame_len (ip (w_dest w)) (w_len w)) false) i m true Hm) as (m' & E & H1 & H2); [done|done|]. exists m'. split; [done|]. split; [done|].
      rewrite H2, El. cbn. rewrite andb_true_r. f_equal. destruct (Z.eqb_spec (index l) i) as [->|Hne]; [by rewrite bool_decide_true|rewrite bool_decide_false; [done|congruence]].
    + destruct tx; cbn; [|split; [done|]; intros i m Hm; exists m; by rewrite Z.add_0_r]. destruct (usable os now (link_at (topo n) (p_link p))); cbn.
      * split; [apply Hok|]. intros i m Hm.
        destruct (Hst (p_egress p) (counted Tx (frame_len (ip (w_dest w)) (w_len w)) false) i m true Hm) as (m' & E & H1 & H2); [done|done|]. by exists m'.
      * split; [apply Hok|]. intros i m Hm.
        destruct (Hst (p_egress p) carrier_dropped i m false Hm) as (m' & E & H1 & H2); [done|intros; cbn; lia|]. by exists m'.
  - cbn. split; [done|]. intros j m Hm. exists m. by rewrite andb_false_r, Z.add_0_r.
Qed.

Lemma selected_ok cs n : net_ok n → ∃ copies n', fan_out_selected os now s w cs tx n = Some (copies, n') ∧ net_ok n' ∧
  (length copies ≤ length cs)%nat ∧ (∀ cp : Copy Q, cp ∈ copies → ∃ c, c ∈ cs ∧ q cp = c_q c) ∧
  ∀ i m, nic i (topo n) = Some m → stat rx_packets i (topo n') = Some (rx_packets (counters m) + arrivals i copies) ∧
    stat tx_packets i (topo n') = Some (tx_packets (counters m) + if tx && sends_on os now s n i then 1 else 0).
Proof.
  intros Hn. unfold fan_out_selected. destruct (lo_there _ (proj1 Hn)) as (l & El & _). rewrite El. cbn [mbind option_bind].
  destruct (count_sent_ok l n Hn El) as [Hn1 Hst]. destruct (count_sent os now s w (index l) tx n) as [up n1]. cbn [snd] in *.
  destruct (deliver_all_ok os now s w (bool_decide (dest_kind (ip (w_dest w)) (topo n) = Multicast)) up (index l) cs n1 Hn1) as (copies & n2 & E & [Hn2 Hd] & Hl & Hq).
  exists copies, n2. split_and!; try done. intros i m Hm. destruct (Hst i m Hm) as (m1 & Em & H1 & H2). destruct (Hd i m1 Em) as [-> ->]. by rewrite H1, H2.
Qed.

End fan_out.

Lemma cand_toward_share {Q} dst (c0 c : Cand Q) : cand_toward dst c0 = Some c → share c = share c0.
Proof. unfold cand_toward. intros H. repeat case_match; simplify_eq; done. Qed.

(** C8: who receives a datagram and what is counted. A fan-out never panics. Each copy goes to a candidate on the datagram's port, which off Windows is
    unconnected or connected to the datagram's source (a Windows socket is offered the datagram whoever its peer, and its queue is what filters it), and a
    unicast datagram to one at most: one bound at exactly the destination, or, when no candidate is and the destination is the
    host's, one bound at the wildcard. On every interface the frames received grow by the copies
    that arrive there, and those sent by one where the datagram leaves, if its link is up. *)
Theorem datagram_accounted (os : target_os) {Q : Type} (now seed : Z) (s : Sender) (w : Wire) (station tx : bool) (cands : list (Cand Q)) (n : Net) : net_ok n →
  ∃ cs copies n', chosen os now seed w station cands (topo n) = Some cs ∧ fan_out os now seed s w station cands tx n = Some (copies, n') ∧ net_ok n' ∧
  (∀ cp, cp ∈ copies → ∃ c c0, c ∈ cs ∧ c0 ∈ cands ∧ q cp = c_q c ∧ cand_toward (w_dest w) c0 = Some c ∧ takes_from os (w_src w) c = true ∧
     port (c_addr c0) = port (w_dest w) ∧ (is_windows os = false → ∀ p, peer (share c0) = Some p → canonical p = canonical (w_src w))) ∧
  (dest_kind (ip (w_dest w)) (topo n) = Unicast → (length copies ≤ 1)%nat ∧
     ∀ c, c ∈ cs → c_addr c = w_dest w ∨
       (is_unspecified (ip (c_addr c)) = true ∧ presence os now (ip (w_dest w)) station (topo n) = PHost ∧
        ∀ c', c' ∈ eligible os w cands → c_addr c' ≠ w_dest w)) ∧
  ∀ i m, nic i (topo n) = Some m → stat rx_packets i (topo n') = Some (rx_packets (counters m) + arrivals i copies) ∧
    stat tx_packets i (topo n') = Some (tx_packets (counters m) + if tx && sends_on os now s n i then 1 else 0).
Proof.
  intros Hn. destruct (chosen_ok os now seed w station (topo n) cands) as (cs & Ec & Hsub & Huni). destruct (selected_ok os now s w tx (sort_key cand_le cs) n Hn) as (copies & n' & E & Hn' & Hl & Hq & Hst).
  exists cs, copies, n'. split; [done|]. split; [unfold fan_out; by rewrite Ec|]. split; [done|]. split_and!; [| |done].
  - intros cp Hcp. destruct (Hq cp Hcp) as (c & Hc & Eq). rewrite sort_key_perm in Hc. destruct (proj1 (elem_of_retain _ _ _) (Hsub c Hc)) as [Hin Ht].
    apply list_elem_of_omap in Hin as (c0 & Hc0 & Htow). exists c, c0. split_and!; try done.
    + unfold cand_toward in Htow. destruct (Z.eqb_spec (port (c_addr c0)) (port (w_dest w))); [done|]. done.
    + intros Hw p Hpeer. rewrite <- (cand_toward_share _ _ _ Htow) in Hpeer. unfold takes_from in Ht. rewrite Hw, Hpeer in Ht.
      by apply bool_decide_eq_true in Ht.
  - intros Hu. destruct (Huni Hu) as [H1 H2]. split; [|done]. rewrite sort_key_perm in Hl. lia.
Qed.

(** C25: the shortcut for the only candidate on a port, [fan_out_one], chooses, delivers, counts and records what [fan_out] does for the list of that one candidate. *)
Theorem fan_out_one_is_fan_out (os : target_os) {Q : Type} (now seed : Z) (s : Sender) (w : Wire) (station tx : bool) (cand : option (Cand Q)) (n : Net) :
  fan_out_one os now s w station cand tx n =
  ('(copies, n') ← fan_out os now seed s w station (option_list cand) tx n; Some (last copies, n')).
Proof.
  unfold fan_out_one, fan_out. match goal with |- context [option_list ?x] => set (pick := x) end.
  assert (chosen os now seed w station (option_list cand) (topo n) = Some (option_list pick)) as ->; [|by destruct pick].
  assert (omap (cand_toward (w_dest w)) (option_list cand) = option_list (cand ≫= cand_toward (w_dest w))) as E.
  { destruct cand as [c|]; [|done]. cbn. by destruct (cand_toward (w_dest w) c). }
  assert (pick = (c ← cand ≫= cand_toward (w_dest w);
    if takes_from os (w_src w) c && match dest_kind (ip (w_dest w)) (topo n) with
         | Unicast => bool_decide (c_addr c = w_dest w) || (is_unspecified (ip (c_addr c)) && bool_decide (presence os now (ip (w_dest w)) station (topo n) = PHost))
         | Limited | Multicast => true
         | Directed net => directed_to (topo n) (ip (w_dest w)) net c
         end then Some c else None)) as -> by (by destruct cand).
  unfold chosen. rewrite E. destruct (cand ≫= cand_toward (w_dest w)) as [c|]; cbn [mbind option_bind].
  2:{ change (option_list None) with (@nil (Cand Q)). cbn [retain]. destruct (dest_kind _ _); [by destruct (bool_decide _)|done..]. }
  change (option_list (Some c)) with [c]. cbn [retain].
  destruct (takes_from os (w_src w) c); cbn [retain andb]; [|destruct (dest_kind _ _); [by destruct (bool_decide _)|done..]].
  destruct (dest_kind _ _) as [| |net|]; [|done|cbn [retain]; by destruct (directed_to _ _ _ _)|done]. cbn [retain].
  destruct (bool_decide (c_addr c = w_dest w)); cbn [orb]; [done|]. destruct (bool_decide (presence _ _ _ _ _ = PHost)); cbn [andb]; [|by rewrite andb_false_r].
  rewrite andb_true_r. destruct (is_unspecified (ip (c_addr c))); [|done]. cbn [existsb]. destruct (dual c) eqn:Ed; cbn [negb orb retain]; [done|]. by rewrite Ed.
Qed.

Definition sample_cand : Cand Z := mk_cand (socket_addr UNSPECIFIED4 7000) false None false (mk_share 1 false false None) 5.
Definition sample_state : Net := mk_net_state sample_net (with_seed 1) [].
Lemma policies_decided l : forallb (λ m, (0 <=? nic_latency (s_policy (spec m))) && (0 <=? nic_jitter (s_policy (spec m)))) l = true →
  Forall (λ m, nic_policy_ok (s_policy (spec m))) l.
Proof. induction l as [|m l IH]; [done|]. cbn. intros [H1 H2]%andb_prop. constructor; [unfold nic_policy_ok; lia|by apply IH]. Qed.
Lemma sample_state_ok : net_ok sample_state.
Proof. split; [exact sample_net_ok|]. split; [apply policies_decided; by vm_compute|]. intros k x. cbn. by rewrite lookup_empty. Qed.
Lemma datagram_accounted_witness :
  let w := mk_wire (socket_addr (V4 0x0a000009) 9) (socket_addr (V4 0x0a000001) 7000) 100 in
  ∃ copies n', fan_out Linux 0 1 (Station (V4 0x0a000009)) w false [sample_cand] true sample_state = Some (copies, n') ∧
  (length copies ≤ 1)%nat ∧ net_ok n' ∧ stat rx_packets 2 (topo n') = Some 1.
Proof.
  intros w. destruct (datagram_accounted Linux 0 1 (Station (V4 0x0a000009)) w false true [sample_cand] sample_state sample_state_ok) as (cs & copies & n' & _ & E & Hn & _ & Hu & _).
  exists copies, n'. split; [exact E|]. split; [apply Hu; by vm_compute|]. split; [exact Hn|].
  apply (f_equal (option_map (λ x, stat rx_packets 2 (topo (snd x))))) in E. vm_compute in E. by injection E.
Defined.
