(* ===== verification/Ports.v ===== *)
(** * Ports and who holds them

    The registries of crates/snare/src/fabric.rs: the ephemeral ports taken ([UdpPorts]), the
    datagram sockets by address and by port ([UdpRegistry]), and when a bind collides with another
    ([bind_conflict]). A queue is known by a number, as its [Arc] is by its address; whether a queue
    is a tester's endpoint, and whether its socket is dual-stack at an address, are fixed while it
    is bound (IPV6_V6ONLY is refused then), and are arguments. *)

From S2P Require Import Prelude IpAddr.

(** ** [UdpPorts] *)

Definition FIRST : Z := 49152.
Definition WORDS : Z := 256.
Record UdpPorts := mk_ports { words : list Z; first_word : Z; held_count : Z }.
Definition ports_default : UdpPorts := mk_ports [] 0 0.

(** [while self.first < self.words.len() && self.words[self.first] == u64::MAX] *)
Fixpoint skip_full (fuel : nat) (ws : list Z) (first : Z) : Z :=
  match fuel with
  | O => first
  | S fuel => if bool_decide (ws !! Z.to_nat first = Some u64_max) then skip_full fuel ws (first + 1) else first
  end.

(** [insert], [remove]; [None] an index out of range *)
Definition ports_insert (port : Z) (u : UdpPorts) : UdpPorts :=
  let bit := port - FIRST in
  let w := Z.to_nat (bit / 64) in
  let ws := if (length (words u) <=? w)%nat then words u ++ replicate (w + 1 - length (words u)) 0 else words u in
  let ws := alter (λ x, Z.lor x (Z.shiftl 1 (bit mod 64))) w ws in
  mk_ports ws (skip_full (length ws) ws (first_word u)) (held_count u + 1).
Definition ports_remove (port : Z) (u : UdpPorts) : option UdpPorts :=
  let bit := port - FIRST in
  let w := Z.to_nat (bit / 64) in
  _ ← words u !! w;
  Some (mk_ports (alter (λ x, Z.ldiff x (Z.shiftl 1 (bit mod 64))) w (words u)) (Z.min (first_word u) (bit / 64)) (held_count u - 1)).

(** [u64::trailing_zeros] of a word that is not zero *)
Definition trailing_zeros (x : Z) : Z := default 64 (find_first (Z.testbit x) (seqZ 0 64)).

(** The words taken in any of the sets *)
Definition taken_word (sets : list UdpPorts) (word : Z) : Z :=
  foldl (λ taken u, Z.lor taken (default 0 (words u !! Z.to_nat word))) 0 sets.

(** The loop of [find] from [word], one turn per word *)
Fixpoint find_from (fuel : nat) (sets : list UdpPorts) (start end_ word : Z) : option Z :=
  match fuel with
  | O => None
  | S fuel =>
      if (word <? WORDS) && (word * 64 <? end_) then
        let low := sat_sub start (word * 64) in
        let high := Z.min (end_ - word * 64) 64 in
        let mask := Z.land (wrap_u64 (Z.shiftl u64_max low)) (if high =? 64 then u64_max else Z.shiftl 1 high - 1) in
        let free := Z.land (u64_max - taken_word sets word) mask in
        if negb (free =? 0) then Some (FIRST + (word * 64 + trailing_zeros free))
        else find_from fuel sets start end_ (word + 1)
      else None
  end.
(** [find], [alloc] *)
Definition ports_find (sets : list UdpPorts) (start end_ : Z) : option Z :=
  let full := foldl Z.max 0 (first_word <$> sets) in
  find_from (Z.to_nat WORDS) sets start end_ (Z.max (start / 64) full).
Definition ports_alloc (sets : list UdpPorts) (first : Z) : Z :=
  let start := Z.max first FIRST - FIRST in
  match ports_find sets start (WORDS * 64) with
  | Some p => p
  | None => default 0 (ports_find sets 0 start)
  end.

(** ** [UdpRegistry] *)

Definition queue : Type := Z.
Record UdpBindings := mk_bindings { b_first : SocketAddr * queue; b_rest : list (SocketAddr * queue) }.
(** [families] holds the ports taken in IPv6 and in IPv4. *)
Record UdpRegistry := mk_registry {
  bound : gmap SocketAddr (list queue); by_port : gmap Z UdpBindings; endpoints : gmap IpAddr Z;
  ports : gmap IpAddr UdpPorts; family6 : UdpPorts; family4 : UdpPorts; dual_ports : UdpPorts;
  references : gmap (bool * Z) Z; addresses : gmap (IpAddr * Z) Z; duals : gmap Z Z }.
Definition registry_default : UdpRegistry :=
  mk_registry ∅ ∅ ∅ ∅ ports_default ports_default ports_default ∅ ∅ ∅.

(** [*map.entry(key).or_default() += 1], and [get_mut(key).unwrap()] less one, the entry removed at zero *)
Definition bump {K} `{Countable K} (k : K) (m : gmap K Z) : gmap K Z := <[k := default 0 (m !! k) + 1]> m.
Definition unbump {K} `{Countable K} (k : K) (m : gmap K Z) : option (Z * gmap K Z) :=
  c ← m !! k;
  let c := c - 1 in
  Some (c, if c =? 0 then delete k m else <[k := c]> m).

Section registry.
Context (is_endpoint : queue → bool) (dual_queue : SocketAddr → queue → bool).

Definition bindings_list (b : UdpBindings) : list (SocketAddr * queue) := b_first b :: b_rest b.
Definition bindings_push (x : SocketAddr * queue) (o : option UdpBindings) : UdpBindings :=
  match o with Some b => mk_bindings (b_first b) (b_rest b ++ [x]) | None => mk_bindings x [] end.

(** [count_dual]: counted in, and out ([None] a counter below zero) *)
Definition count_dual_in (port : Z) (r : UdpRegistry) : UdpRegistry :=
  if port <? FIRST then r
  else
    let count := default 0 (duals r !! port) + 1 in
    mk_registry (bound r) (by_port r) (endpoints r) (ports r) (family6 r) (family4 r)
      (if count =? 1 then ports_insert port (dual_ports r) else dual_ports r) (references r) (addresses r) (<[port := count]> (duals r)).
Definition count_dual_out (port : Z) (r : UdpRegistry) : option UdpRegistry :=
  if port <? FIRST then Some r
  else
    '(count, d) ← unbump port (duals r);
    u ← (if count =? 0 then ports_remove port (dual_ports r) else Some (dual_ports r));
    Some (mk_registry (bound r) (by_port r) (endpoints r) (ports r) (family6 r) (family4 r) u (references r) (addresses r) d).

(** The counts of an address and of its family, at a port of the range *)
Definition count_in (a : SocketAddr) (r : UdpRegistry) : UdpRegistry :=
  if port a <? FIRST then r
  else
    let key := (ip a, port a) in
    let fam := (is_ipv4 (ip a), port a) in
    let ps := if default 0 (addresses r !! key) =? 0 then <[ip a := ports_insert (port a) (default ports_default (ports r !! ip a))]> (ports r) else ports r in
    let fresh := default 0 (references r !! fam) =? 0 in
    mk_registry (bound r) (by_port r) (endpoints r) ps
      (if fresh && negb (is_ipv4 (ip a)) then ports_insert (port a) (family6 r) else family6 r)
      (if fresh && is_ipv4 (ip a) then ports_insert (port a) (family4 r) else family4 r)
      (dual_ports r) (bump fam (references r)) (bump key (addresses r)) (duals r).
Definition count_out (a : SocketAddr) (r : UdpRegistry) : option UdpRegistry :=
  if port a <? FIRST then Some r
  else
    let key := (ip a, port a) in
    let fam := (is_ipv4 (ip a), port a) in
    '(left_there, addrs) ← unbump key (addresses r);
    ps ← (if left_there =? 0 then
            u ← ports r !! ip a;
            u ← ports_remove (port a) u;
            Some (if held_count u =? 0 then delete (ip a) (ports r) else <[ip a := u]> (ports r))
          else Some (ports r));
    '(left_family, refs) ← unbump fam (references r);
    f6 ← (if (left_family =? 0) && negb (is_ipv4 (ip a)) then ports_remove (port a) (family6 r) else Some (family6 r));
    f4 ← (if (left_family =? 0) && is_ipv4 (ip a) then ports_remove (port a) (family4 r) else Some (family4 r));
    Some (mk_registry (bound r) (by_port r) (endpoints r) ps f6 f4 (dual_ports r) refs addrs (duals r)).

(** [insert] *)
Definition registry_insert (a : SocketAddr) (q : queue) (r : UdpRegistry) : UdpRegistry :=
  let held := default [] (bound r !! a) in
  if bool_decide (q ∈ held) then r
  else
    let r := mk_registry (<[a := held ++ [q]]> (bound r)) (by_port r)
      (if is_endpoint q then bump (ip a) (endpoints r) else endpoints r) (ports r) (family6 r) (family4 r) (dual_ports r) (references r) (addresses r) (duals r) in
    let r := if dual_queue a q then count_dual_in (port a) r else r in
    let r := mk_registry (bound r) (<[port a := bindings_push (a, q) (by_port r !! port a)]> (by_port r)) (endpoints r) (ports r) (family6 r) (family4 r)
      (dual_ports r) (references r) (addresses r) (duals r) in
    count_in a r.

(** The bucket of a port without one of its bindings; the inner [None] an empty one *)
Definition bindings_remove (x : SocketAddr * queue) (b : UdpBindings) : option (option UdpBindings) :=
  if bool_decide (b_first b = x) then
    Some match last (b_rest b) with
         | Some l => Some (mk_bindings l (take (length (b_rest b) - 1) (b_rest b)))
         | None => None
         end
  else
    i ← position (λ y, bool_decide (y = x)) (b_rest b);
    Some (Some (mk_bindings (b_first b) (swap_remove i (b_rest b)))).

(** [remove]; [None] a panic *)
Definition registry_remove (a : SocketAddr) (q : queue) (r : UdpRegistry) : option UdpRegistry :=
  match bound r !! a with
  | None => Some r
  | Some held =>
      match position (λ x, x =? q) held with
      | None => Some r
      | Some i =>
          let held := delete i held in
          ends ← (if is_endpoint q then '(_, m) ← unbump (ip a) (endpoints r); Some m else Some (endpoints r));
          let r := mk_registry (match held with [] => delete a (bound r) | _ => <[a := held]> (bound r) end) (by_port r) ends
            (ports r) (family6 r) (family4 r) (dual_ports r) (references r) (addresses r) (duals r) in
          r ← (if dual_queue a q then count_dual_out (port a) r else Some r);
          b ← by_port r !! port a;
          b ← bindings_remove (a, q) b;
          let r := mk_registry (bound r) (match b with Some b => <[port a := b]> (by_port r) | None => delete (port a) (by_port r) end) (endpoints r) (ports r)
            (family6 r) (family4 r) (dual_ports r) (references r) (addresses r) (duals r) in
          count_out a r
      end
  end.

(** [unspecified_like], [alloc_port_from], [alloc_port] *)
Definition unspecified_like (i : IpAddr) : IpAddr := if is_ipv4 i then UNSPECIFIED4 else UNSPECIFIED6.
Definition port_sets (i : IpAddr) (dual : bool) (r : UdpRegistry) : list UdpPorts :=
  let v4 := is_ipv4 i in
  if dual then [family6 r; family4 r]
  else if is_unspecified i then (if v4 then family4 r else family6 r) :: if v4 then [dual_ports r] else []
  else option_list (ports r !! i) ++ option_list (ports r !! unspecified_like i) ++ if v4 then [dual_ports r] else [].
Definition alloc_port_from (i : IpAddr) (first : Z) (dual : bool) (r : UdpRegistry) : Z := ports_alloc (port_sets i dual r) first.
Definition alloc_port (i : IpAddr) (dual : bool) (r : UdpRegistry) : Z := alloc_port_from i 49152 dual r.

(** [candidates] and [delivery_candidates], as the bindings they are made of; [takes_group] says whether a
    queue's socket takes a multicast datagram *)
Inductive UdpCandidates := One (c : option (SocketAddr * queue)) | Many (l : list (SocketAddr * queue)).
Definition accepted (takes_group : SocketAddr → queue → bool) (dst : SocketAddr) (x : SocketAddr * queue) : bool :=
  negb (is_multicast (ip dst)) || (negb (is_endpoint (snd x)) && takes_group (fst x) (snd x)).
Definition candidates (takes_group : SocketAddr → queue → bool) (dst : SocketAddr) (r : UdpRegistry) : list (SocketAddr * queue) :=
  match by_port r !! port dst with
  | None => []
  | Some b => retain (accepted takes_group dst) (bindings_list b)
  end.
Definition delivery_candidates (takes_group : SocketAddr → queue → bool) (dst : SocketAddr) (r : UdpRegistry) : UdpCandidates :=
  match by_port r !! port dst with
  | None => One None
  | Some b =>
      match b_rest b with
      | _ :: _ => Many (candidates takes_group dst r)
      | [] => One (if accepted takes_group dst (b_first b) then Some (b_first b) else None)
      end
  end.

End registry.

(** ** Collisions *)

Record Claim := mk_claim { cl_addr : SocketAddr; cl_dual : bool; cl_inet : bool; cl_reuse : bool; cl_reuseport : bool; cl_listening : bool; cl_station : bool }.
(** [dgram_claim]: where a datagram socket at [local], whose bind named [requested], claims against a new bind *)
Definition dgram_claim (local : SocketAddr) (requested : option SocketAddr) : SocketAddr :=
  match requested with Some r => socket_addr (ip r) (port local) | None => local end.
(** [Claim::held] *)
Definition claim_held (c : Claim) : list SocketAddr :=
  cl_addr c :: if cl_dual c then [socket_addr UNSPECIFIED4 (port (cl_addr c))] else [].
(** [bind_conflict] *)
Definition bind_conflict (os : target_os) (held want : Claim) : bool :=
  let group_reuse := is_macos os && is_multicast (ip (cl_addr want)) && cl_reuse want && (cl_reuse held || cl_reuseport held) in
  if (cl_reuseport want && cl_reuseport held) || group_reuse || xorb (cl_station held) (cl_station want) then false
  else
    existsb (λ h, existsb (λ w,
      if negb (port h =? port w) || xorb (is_ipv4 (ip h)) (is_ipv4 (ip w)) then false
      else
        let exact := bool_decide (ip h = ip w) in
        if negb exact && negb (is_unspecified (ip h)) && negb (is_unspecified (ip w)) then false
        else if is_linux os then negb (cl_reuse want && cl_reuse held && negb (cl_listening held))
        else if cl_dual want && is_ipv4 (ip w) && cl_inet held && is_unspecified (ip h) then false
        else exact || negb (cl_reuse want || cl_reuseport want)) (claim_held want)) (claim_held held).
