(* ===== verification/PortsProps.v ===== *)
(** * The ports taken, and the lowest free one

    [UdpPorts] holds a set of ports, and [find] and [alloc] give the lowest port outside the sets
    they look in; and a table of counts is that of the list of what is counted. *)

From S2P Require Import Prelude IpAddr Ports.

(** ** Words *)

Lemma u64_bits x : is_u64 x ↔ 0 ≤ x ∧ ∀ k, 64 ≤ k → Z.testbit x k = false.
Proof.
  split.
  - intros H. split; [lia|]. apply (Z.bounded_iff_bits_nonneg 64 x); lia.
  - intros [H1 H2]. apply (Z.bounded_iff_bits_nonneg 64 x) in H2; lia.
Qed.

(** The bit of a port, by its offset *)
Definition bit_of (u : UdpPorts) (b : Z) : bool := Z.testbit (default 0 (words u !! Z.to_nat (b / 64))) (b mod 64).

(** [u] holds the ports of [s]. *)
Record ports_rep (s : gset Z) (u : UdpPorts) : Prop := mk_ports_rep {
  pr_words : Forall (λ x, is_u64 x) (words u);
  pr_len : Z.of_nat (length (words u)) ≤ WORDS;
  pr_first : 0 ≤ first_word u ≤ Z.of_nat (length (words u));
  pr_full : ∀ i, 0 ≤ i < first_word u → words u !! Z.to_nat i = Some u64_max;
  pr_bits : ∀ b, 0 ≤ b < WORDS * 64 → bit_of u b = bool_decide (FIRST + b ∈ s);
  pr_range : ∀ p, p ∈ s → FIRST ≤ p ≤ 65535;
  pr_count : held_count u = Z.of_nat (size s) }.

Lemma default_rep : ports_rep ∅ ports_default.
Proof.
  split; cbn; try done; try lia.
  intros b Hb. unfold bit_of. cbn. rewrite lookup_nil, Z.testbit_0_l. cbn. symmetry. apply bool_decide_eq_false. set_solver.
Qed.

Lemma skip_full_spec ws fuel first : 0 ≤ first ≤ Z.of_nat (length ws) →
  let r := skip_full fuel ws first in
  first ≤ r ≤ Z.of_nat (length ws) ∧ (∀ i, first ≤ i < r → ws !! Z.to_nat i = Some u64_max) ∧
  ((length ws - Z.to_nat first ≤ fuel)%nat → ws !! Z.to_nat r ≠ Some u64_max).
Proof.
  revert first. induction fuel as [|fuel IH]; intros first Hf; cbn [skip_full].
  - split; [lia|]. split; [lia|]. intros H. rewrite lookup_ge_None_2 by lia. done.
  - case_bool_decide as E; [|split; [lia|]; split; [lia|]; done].
    pose proof (lookup_lt_Some _ _ _ E). destruct (IH (first + 1)) as (H1 & H2 & H3); [lia|]. split; [lia|]. split; [|intros; apply H3; lia].
    intros i Hi. destruct (decide (i = first)) as [->|]; [done|apply H2; lia].
Qed.

Lemma offset_split b : b = b / 64 * 64 + b mod 64 ∧ 0 ≤ b mod 64 < 64.
Proof. pose proof (Z.div_mod b 64). pose proof (Z.mod_pos_bound b 64). lia. Qed.
Lemma offset_eq a b : 0 ≤ a → 0 ≤ b → a = b ↔ Z.to_nat (a / 64) = Z.to_nat (b / 64) ∧ a mod 64 = b mod 64.
Proof.
  intros Ha Hb. split; [by intros ->|]. intros [H1 H2]. destruct (offset_split a), (offset_split b).
  pose proof (Z.div_pos a 64). pose proof (Z.div_pos b 64). lia.
Qed.

(** One word of [words] changed, of those there are when the list is read with zeros beyond it *)
Lemma alter_word (ws : list Z) f w i : (w < length ws)%nat →
  default 0 (alter f w ws !! i) = if decide (i = w) then f (default 0 (ws !! i)) else default 0 (ws !! i).
Proof.
  intros H. destruct (decide (i = w)) as [->|].
  - rewrite list_lookup_alter_eq. destruct (lookup_lt_is_Some_2 ws w H) as [x ->]. done.
  - by rewrite list_lookup_alter_ne.
Qed.
Lemma grown_word (ws : list Z) n i : default 0 ((ws ++ replicate n 0) !! i) = default 0 (ws !! i).
Proof.
  destruct (decide (i < length ws)%nat); [by rewrite lookup_app_l|]. rewrite lookup_app_r, (lookup_ge_None_2 ws) by lia.
  destruct (replicate n 0 !! _) as [x|] eqn:E; [|done]. by apply lookup_replicate in E as [-> _].
Qed.

Definition grown (w : nat) (ws : list Z) : list Z := if (length ws <=? w)%nat then ws ++ replicate (w + 1 - length ws) 0 else ws.
Lemma grown_spec w ws : length (grown w ws) = Nat.max (w + 1) (length ws) ∧ (∀ i, default 0 (grown w ws !! i) = default 0 (ws !! i)) ∧
  (Forall (λ x, is_u64 x) ws → Forall (λ x, is_u64 x) (grown w ws)) ∧ (∀ i x, ws !! i = Some x → grown w ws !! i = Some x).
Proof.
  unfold grown. destruct (Nat.leb_spec (length ws) w).
  - rewrite length_app, length_replicate. split; [lia|]. split; [apply grown_word|]. split.
    + intros Hw. apply Forall_app. split; [done|]. apply Forall_replicate. lia.
    + intros i x Hx. by apply lookup_app_l_Some.
  - split; [lia|done].
Qed.

Lemma setbit_u64 x k : is_u64 x → 0 ≤ k < 64 → is_u64 (Z.lor x (Z.shiftl 1 k)).
Proof.
  intros [H0 H]%u64_bits Hk. apply u64_bits. split.
  - apply Z.lor_nonneg. split; [done|]. apply Z.shiftl_nonneg. lia.
  - intros n Hn. change (Z.lor x (Z.shiftl 1 k)) with (Z.setbit x k). rewrite Z.setbit_eqb by lia.
    rewrite H by lia. destruct (Z.eqb_spec k n); [lia|done].
Qed.
Lemma clearbit_u64 x k : is_u64 x → 0 ≤ k < 64 → is_u64 (Z.ldiff x (Z.shiftl 1 k)).
Proof.
  intros [H0 H]%u64_bits Hk. apply u64_bits. split.
  - apply Z.ldiff_nonneg. by left.
  - intros n Hn. change (Z.ldiff x (Z.shiftl 1 k)) with (Z.clearbit x k). rewrite Z.clearbit_eqb by lia. by rewrite H.
Qed.
Lemma setbit_max k : 0 ≤ k < 64 → Z.lor u64_max (Z.shiftl 1 k) = u64_max.
Proof.
  intros Hk. change u64_max with (Z.ones 64). apply Z.bits_inj'. intros n Hn. change (Z.lor (Z.ones 64) (Z.shiftl 1 k)) with (Z.setbit (Z.ones 64) k).
  rewrite Z.setbit_eqb by lia. destruct (Z.eqb_spec k n) as [<-|]; [|done]. rewrite Z.testbit_ones_nonneg by lia. destruct (Z.ltb_spec k 64); [done|lia].
Qed.

(** ** [insert] and [remove] *)

Lemma insert_rep s u p : ports_rep s u → FIRST ≤ p ≤ 65535 → p ∉ s → ports_rep ({[p]} ∪ s) (ports_insert p u).
Proof.
  intros [Hw Hl Hf Hfull Hb Hr Hc] Hp Hn. set (b := p - FIRST). set (w := Z.to_nat (b / 64)).
  change (ports_insert p u) with (let ws := alter (λ x, Z.lor x (Z.shiftl 1 (b mod 64))) w (grown w (words u)) in
    mk_ports ws (skip_full (length ws) ws (first_word u)) (held_count u + 1)). cbv zeta. assert (0 ≤ b < WORDS * 64) as Hbb by (unfold b, FIRST, WORDS in *; lia).
  destruct (grown_spec w (words u)) as (G1 & G2 & G3 & G4). set (ws := alter _ w _).
  assert (b / 64 < WORDS) by (apply Z.div_lt_upper_bound; lia). pose proof (Z.div_pos b 64). pose proof (Z.mod_pos_bound b 64).
  assert (length ws = Nat.max (w + 1) (length (words u))) as Hlen by (unfold ws; by rewrite length_alter).
  assert (∀ i, 0 ≤ i < first_word u → ws !! Z.to_nat i = Some u64_max) as Hfull'.
  { intros i Hi. specialize (G4 _ _ (Hfull i Hi)). unfold ws. destruct (decide (Z.to_nat i = w)) as [E|]; [|by rewrite list_lookup_alter_ne].
    rewrite E in G4 |- *. rewrite list_lookup_alter_eq, G4. cbn [fmap option_fmap option_map]. by rewrite setbit_max by lia. }
  destruct (skip_full_spec ws (length ws) (first_word u)) as (S1 & S2 & _); [lia|].
  split; cbn [words first_word held_count].
  - unfold ws. apply Forall_alter; [auto|]. intros x _ Hx. apply setbit_u64; lia.
  - unfold WORDS in *. lia.
  - lia.
  - intros i Hi. destruct (decide (i < first_word u)); [apply Hfull'; lia|apply S2; lia].
  - intros c Hc'. unfold bit_of. cbn [words]. unfold ws. rewrite alter_word, G2 by lia. destruct (decide (Z.to_nat (c / 64) = w)) as [E|E].
    + change (Z.lor ?x (Z.shiftl 1 ?k)) with (Z.setbit x k). rewrite Z.setbit_eqb by lia. change (Z.testbit _ (c mod 64)) with (bit_of u c).
      rewrite Hb by done. destruct (Z.eqb_spec (b mod 64) (c mod 64)) as [E'|E'].
      * cbn. symmetry. apply bool_decide_eq_true. assert (c = b) as -> by (apply offset_eq; [lia..|done]). apply elem_of_union_l, elem_of_singleton. unfold b. lia.
      * cbn. apply bool_decide_ext. assert (FIRST + c ≠ p) by (intros <-; unfold b in E'; by replace (FIRST + c - FIRST) with c in E' by lia). set_solver.
    + change (Z.testbit _ (c mod 64)) with (bit_of u c). rewrite Hb by done. apply bool_decide_ext.
      assert (FIRST + c ≠ p) by (intros <-; unfold w, b in E; by replace (FIRST + c - FIRST) with c in E by lia). set_solver.
  - intros q. rewrite elem_of_union, elem_of_singleton. intros [->|]; [done|auto].
  - rewrite size_union, size_singleton by set_solver. lia.
Qed.

Lemma remove_rep s u p : ports_rep s u → p ∈ s → ∃ u', ports_remove p u = Some u' ∧ ports_rep (s ∖ {[p]}) u'.
Proof.
  intros [Hw Hl Hf Hfull Hb Hr Hc] Hp. pose proof (Hr p Hp) as Hpr. unfold ports_remove.
  set (b := p - FIRST). set (w := Z.to_nat (b / 64)). assert (0 ≤ b < WORDS * 64) as Hbb by (unfold b, FIRST, WORDS in *; lia).
  pose proof (Z.div_pos b 64). pose proof (Z.mod_pos_bound b 64).
  assert (bit_of u b = true) as Hbit by (rewrite Hb by done; apply bool_decide_eq_true; unfold b; by replace (FIRST + (p - FIRST)) with p by lia).
  unfold bit_of in Hbit. fold w in Hbit. destruct (words u !! w) as [x|] eqn:Ex; cbn in Hbit; [|by rewrite Z.testbit_0_l in Hbit].
  pose proof (lookup_lt_Some _ _ _ Ex). eexists. split; [reflexivity|]. split; cbn [words first_word held_count].
  - apply Forall_alter; [auto|]. intros y _ Hy. apply clearbit_u64; lia.
  - by rewrite length_alter.
  - rewrite length_alter. lia.
  - intros i Hi. rewrite list_lookup_alter_ne by lia. apply Hfull. lia.
  - intros c Hc'. unfold bit_of. cbn [words]. rewrite alter_word by lia. destruct (decide (Z.to_nat (c / 64) = w)) as [E|E].
    + change (Z.ldiff ?x (Z.shiftl 1 ?k)) with (Z.clearbit x k). rewrite Z.clearbit_eqb by lia. change (Z.testbit _ (c mod 64)) with (bit_of u c).
      rewrite Hb by done. destruct (Z.eqb_spec (b mod 64) (c mod 64)) as [E'|E'].
      * rewrite andb_false_r. symmetry. apply bool_decide_eq_false. assert (c = b) as -> by (apply offset_eq; [lia..|done]). unfold b. replace (FIRST + (p - FIRST)) with p by lia. set_solver.
      * rewrite andb_true_r. apply bool_decide_ext. assert (FIRST + c ≠ p) by (intros <-; unfold b in E'; by replace (FIRST + c - FIRST) with c in E' by lia). set_solver.
    + change (Z.testbit _ (c mod 64)) with (bit_of u c). rewrite Hb by done. apply bool_decide_ext.
      assert (FIRST + c ≠ p) by (intros <-; unfold w, b in E; by replace (FIRST + c - FIRST) with c in E by lia). set_solver.
  - intros q. rewrite elem_of_difference. intros [? _]. auto.
  - rewrite size_difference, size_singleton by set_solver. assert (size s ≠ 0%nat) by (rewrite size_non_empty_iff; set_solver). lia.
Qed.

(** ** [find] and [alloc] *)

Lemma find_first_app {A} (p : A → bool) l k :
  find_first p (l ++ k) = match find_first p l with Some x => Some x | None => find_first p k end.
Proof. induction l as [|x l IH]; cbn; [done|]. by destruct (p x). Qed.

(** The first of [a], [a + 1], ... up to [n] of them that [p] takes *)
Lemma find_first_seqZ (p : Z → bool) a n x : a ≤ x < a + n → p x = true → (∀ y, a ≤ y < x → p y = false) → find_first p (seqZ a n) = Some x.
Proof.
  intros Hx Hp Hl. destruct (find_first p (seqZ a n)) as [y|] eqn:E.
  - pose proof (find_first_Some _ _ _ E) as [Hy Hpy]. apply elem_of_seqZ in Hy. f_equal.
    destruct (Z.lt_trichotomy y x) as [?|[?|?]]; [|done|].
    + rewrite Hl in Hpy by lia. done.
    + replace n with ((x - a) + (n - (x - a))) in E by lia. rewrite seqZ_app, (seqZ_cons (a + (x - a))), find_first_app in E by lia.
      destruct (find_first p (seqZ a (x - a))) eqn:E2.
      * apply find_first_Some in E2 as [H2%elem_of_seqZ H3]. rewrite Hl in H3 by lia. done.
      * cbn [find_first] in E. replace (a + (x - a)) with x in E by lia. rewrite Hp in E. by injection E as ->.
  - pose proof (proj1 (find_first_None _ _) E x). rewrite elem_of_seqZ in *. rewrite H in Hp by lia. done.
Qed.
Lemma find_first_seqZ_None (p : Z → bool) a n : (∀ y, a ≤ y < a + n → p y = false) → find_first p (seqZ a n) = None.
Proof. intros H. apply find_first_None. intros y Hy%elem_of_seqZ. by apply H. Qed.

Lemma trailing_zeros_spec x : is_u64 x → x ≠ 0 →
  let k := trailing_zeros x in 0 ≤ k < 64 ∧ Z.testbit x k = true ∧ ∀ j, 0 ≤ j < k → Z.testbit x j = false.
Proof.
  intros H Hx. unfold trailing_zeros. destruct (find_first (Z.testbit x) (seqZ 0 64)) as [k|] eqn:E; cbn [from_option id]; cbv zeta.
  - pose proof (find_first_Some _ _ _ E) as [Hk%elem_of_seqZ Hb]. split; [lia|]. split; [done|]. intros j Hj.
    destruct (Z.testbit x j) eqn:Ej; [|done]. exfalso.
    replace 64 with (k + (64 - k)) in E by lia. rewrite seqZ_app, find_first_app in E by lia. destruct (find_first _ (seqZ 0 k)) as [i|] eqn:E2.
    + injection E as ->. apply find_first_Some in E2 as [H2%elem_of_seqZ _]. lia.
    + rewrite find_first_None in E2. rewrite E2 in Ej; [done|]. apply elem_of_seqZ. lia.
  - exfalso. apply Hx, Z.bits_inj'. intros n Hn. rewrite Z.testbit_0_l. destruct (decide (n < 64)); [|apply u64_bits; [done|lia]].
    rewrite find_first_None in E. apply E, elem_of_seqZ. lia.
Qed.

Section find.
Context (ss : list (gset Z)) (sets : list UdpPorts) (Hsets : Forall2 ports_rep ss sets).

Definition taken (p : Z) : bool := bool_decide (p ∈ ⋃ ss).

Lemma taken_bits w k : 0 ≤ w < WORDS → 0 ≤ k < 64 → Z.testbit (taken_word sets w) k = taken (FIRST + (w * 64 + k)).
Proof.
  intros Hw Hk. unfold taken_word, taken.
  assert (∀ acc, Z.testbit (foldl (λ t u, Z.lor t (default 0 (words u !! Z.to_nat w))) acc sets) k =
    Z.testbit acc k || bool_decide (FIRST + (w * 64 + k) ∈ ⋃ ss)) as H; [|by rewrite H, Z.testbit_0_l].
  induction Hsets as [|s u ss' sets' Hu Hrest IH]; [|specialize (IH Hrest)]; intros acc; cbn [foldl union_list foldr].
  - rewrite bool_decide_eq_false_2 by set_solver. by rewrite orb_false_r.
  - rewrite IH, Z.lor_spec, <- orb_assoc. f_equal. pose proof (pr_bits _ _ Hu (w * 64 + k)) as Hb. unfold bit_of in Hb.
    rewrite Z.div_add_l, (Z.div_small k), Z.add_0_r in Hb by lia. rewrite (Z.add_comm (w * 64) k), Z.mod_add, (Z.mod_small k) in Hb by lia.
    unfold WORDS in *. rewrite Hb by lia. rewrite (Z.add_comm k). symmetry. rewrite <- bool_decide_or. apply bool_decide_ext. apply elem_of_union.
Qed.
Lemma taken_u64 w : is_u64 (taken_word sets w).
Proof.
  unfold taken_word. assert (∀ acc, is_u64 acc → is_u64 (foldl (λ t u, Z.lor t (default 0 (words u !! Z.to_nat w))) acc sets)) as H; [|apply H; lia].
  induction Hsets as [|s u ss' sets' Hu Hrest IH]; [|specialize (IH Hrest)]; intros acc Ha; cbn [foldl]; [done|]. apply IH. apply u64_bits.
  assert (is_u64 (default 0 (words u !! Z.to_nat w))) as Hd.
  { destruct (words u !! Z.to_nat w) eqn:E; cbn; [|lia]. by apply (Forall_lookup_1 _ _ _ _ (pr_words _ _ Hu) E). }
  apply u64_bits in Ha as [Ha1 Ha2]. apply u64_bits in Hd as [Hd1 Hd2]. split; [by apply Z.lor_nonneg|]. intros k Hk. rewrite Z.lor_spec. by rewrite Ha2, Hd2.
Qed.

(** The words before the ones any set has full are taken. *)
Lemma full_taken b : 0 ≤ b < foldl Z.max 0 (first_word <$> sets) * 64 → b < WORDS * 64 ∧ taken (FIRST + b) = true.
Proof.
  intros Hb. assert (0 ≤ b / 64 < foldl Z.max 0 (first_word <$> sets)) as Hw by (split; [apply Z.div_pos; lia|apply Z.div_lt_upper_bound; lia]).
  assert (∃ s u, s ∈ ss ∧ ports_rep s u ∧ b / 64 < first_word u) as (s & u & Hs & Hu & Hf).
  { clear Hb. assert (∀ acc, b / 64 < foldl Z.max acc (first_word <$> sets) → b / 64 < acc ∨ ∃ s u, s ∈ ss ∧ ports_rep s u ∧ b / 64 < first_word u) as H.
    { clear Hw. induction Hsets as [|s u ss' sets' Hu Hrest IH]; [|specialize (IH Hrest)]; intros acc; cbn; [by left|]. intros [H|(s' & u' & H1 & H2)]%IH.
      - destruct (Z.max_spec acc (first_word u)) as [[_ E]|[_ E]]; rewrite E in H; [right|by left]. exists s, u. split; [set_solver|done].
      - right. exists s', u'. split; [set_solver|done]. }
    destruct (H 0) as [?|?]; [lia|lia|done]. }
  pose proof (pr_first _ _ Hu). pose proof (pr_len _ _ Hu). destruct (offset_split b). split; [lia|]. apply bool_decide_eq_true, elem_of_union_list. exists s. split; [done|].
  apply (bool_decide_eq_true_1 (FIRST + b ∈ s)). rewrite <- (pr_bits _ _ Hu) by lia. unfold bit_of. rewrite (pr_full _ _ Hu) by lia. cbn [from_option id].
  change u64_max with (Z.ones 64). rewrite Z.testbit_ones_nonneg by lia. apply Z.ltb_lt. lia.
Qed.

(** The mask of a word keeps the offsets from [start] short of [end_]. *)
Lemma free_bits w start end_ k : 0 ≤ w < WORDS → 0 ≤ start → start / 64 ≤ w → w * 64 < end_ → 0 ≤ k →
  Z.testbit (Z.land (u64_max - taken_word sets w) (Z.land (wrap_u64 (Z.shiftl u64_max (sat_sub start (w * 64))))
    (if Z.min (end_ - w * 64) 64 =? 64 then u64_max else Z.shiftl 1 (Z.min (end_ - w * 64) 64) - 1))) k =
  (k <? 64) && (start <=? w * 64 + k) && (w * 64 + k <? end_) && negb (taken (FIRST + (w * 64 + k))).
Proof.
  intros Hw Hs Hsw He Hk. set (low := sat_sub start (w * 64)). set (high := Z.min (end_ - w * 64) 64).
  assert (u64_max - taken_word sets w = Z.land (Z.ones 64) (Z.lnot (taken_word sets w))) as ->.
  { rewrite Z.land_comm, Z.land_ones by lia. unfold Z.lnot. pose proof (taken_u64 w). apply Z.mod_unique_pos with (-1); lia. }
  assert ((if high =? 64 then u64_max else Z.shiftl 1 high - 1) = Z.ones high) as ->.
  { destruct (Z.eqb_spec high 64) as [->|]; [done|]. rewrite Z.ones_equiv. rewrite Z.shiftl_mul_pow2 by lia. lia. }
  unfold wrap_u64. rewrite !Z.land_spec, !Z.testbit_ones_nonneg, Z.lnot_spec, Z.testbit_mod_pow2 by lia. change u64_max with (Z.ones 64).
  destruct (Z.ltb_spec k 64); [|done]. rewrite taken_bits by lia. cbn [andb].
  rewrite Z.shiftl_spec by lia. assert (Z.testbit (Z.ones 64) (k - low) = (start <=? w * 64 + k)) as ->.
  { destruct (Z.leb_spec start (w * 64 + k)).
    - rewrite Z.testbit_ones_nonneg by lia. apply Z.ltb_lt. lia.
    - apply Z.testbit_neg_r. lia. }
  assert ((k <? high) = (w * 64 + k <? end_)) as -> by (destruct (Z.ltb_spec k high), (Z.ltb_spec (w * 64 + k) end_); lia || done).
  destruct (start <=? _), (w * 64 + k <? end_), (taken _); done.
Qed.

Lemma find_from_spec start end_ fuel w : 0 ≤ start → end_ ≤ WORDS * 64 → 0 ≤ w → start / 64 ≤ w → WORDS - w ≤ Z.of_nat fuel →
  (∀ b, start ≤ b < w * 64 → b < end_ → taken (FIRST + b) = true) →
  find_from fuel sets start end_ w = find_first (λ p, negb (taken p)) (seqZ (FIRST + start) (end_ - start)).
Proof.
  intros Hs He. revert w. induction fuel as [|fuel IH]; intros w Hw Hsw Hfuel Hbefore; cbn [find_from].
  - symmetry. apply find_first_seqZ_None. intros y Hy. replace y with (FIRST + (y - FIRST)) by lia. rewrite Hbefore; [done|unfold WORDS in *; lia..].
  - destruct (Z.ltb_spec w WORDS); cbn [andb]; [destruct (Z.ltb_spec (w * 64) end_)|]; cbv zeta.
    2,3: symmetry; apply find_first_seqZ_None; intros y Hy; replace y with (FIRST + (y - FIRST)) by lia; rewrite Hbefore; [done|unfold WORDS in *; lia..].
    set (free := Z.land _ _). assert (∀ k, 0 ≤ k → Z.testbit free k = (k <? 64) && (start <=? w * 64 + k) && (w * 64 + k <? end_) && negb (taken (FIRST + (w * 64 + k)))) as Hfree
      by (intros k Hk; by apply free_bits). 
    assert (is_u64 free) as Hu.
    { apply u64_bits. split; [|intros k Hk; rewrite Hfree by lia; by destruct (Z.ltb_spec k 64); [lia|]].
      apply Z.land_nonneg. left. pose proof (taken_u64 w). lia. }
    destruct (Z.eqb_spec free 0) as [E|E]; cbn [negb].
    + apply IH; [lia|lia|lia|]. intros b Hb Hbe. destruct (decide (b < w * 64)); [apply Hbefore; lia|].
      specialize (Hfree (b - w * 64) ltac:(lia)). rewrite E, Z.testbit_0_l in Hfree. replace (w * 64 + (b - w * 64)) with b in Hfree by lia.
      destruct (Z.ltb_spec (b - w * 64) 64), (Z.leb_spec start b), (Z.ltb_spec b end_), (taken (FIRST + b)); cbn in Hfree; done || lia.
    + destruct (trailing_zeros_spec free Hu E) as (Hk & Hb & Hl). set (k := trailing_zeros free) in *. symmetry.
      rewrite Hfree in Hb by lia. rewrite !andb_true_iff, Z.leb_le, !Z.ltb_lt in Hb. destruct Hb as [[[_ Hb1] Hb2] Hb3].
      apply find_first_seqZ; [lia|done|]. intros y Hy. apply negb_false_iff. replace y with (FIRST + (y - FIRST)) by lia. set (b := y - FIRST).
      destruct (decide (b < w * 64)); [apply Hbefore; unfold b; lia|]. specialize (Hl (b - w * 64) ltac:(unfold b in *; lia)).
      rewrite Hfree in Hl by lia. replace (w * 64 + (b - w * 64)) with b in Hl by lia.
      destruct (Z.ltb_spec (b - w * 64) 64), (Z.leb_spec start b), (Z.ltb_spec b end_), (taken (FIRST + b)); cbn in Hl; done || (unfold b in *; lia).
Qed.

(** [find] is the search port by port. *)
Lemma ports_find_spec start end_ : 0 ≤ start → end_ ≤ WORDS * 64 →
  ports_find sets start end_ = find_first (λ p, negb (taken p)) (seqZ (FIRST + start) (end_ - start)).
Proof.
  intros Hs He. unfold ports_find. pose proof (Z.div_pos start 64). pose proof (Z.mod_pos_bound start 64). destruct (offset_split start).
  apply find_from_spec; [done|done|lia|lia| |].
  - unfold WORDS. lia.
  - intros b Hb Hbe. destruct (full_taken b) as [_ ?]; [lia|done].
Qed.

(** The ports from [first], and then those before it *)
Definition port_order (first : Z) : list Z := seqZ (Z.max first FIRST) (65536 - Z.max first FIRST) ++ seqZ FIRST (Z.max first FIRST - FIRST).

Lemma ports_alloc_spec first : first ≤ 65535 → ports_alloc sets first = default 0 (find_first (λ p, negb (taken p)) (port_order first)).
Proof.
  intros Hf. unfold ports_alloc, port_order. rewrite find_first_app. rewrite !ports_find_spec by (unfold FIRST, WORDS in *; lia).
  replace (FIRST + (Z.max first FIRST - FIRST)) with (Z.max first FIRST) by lia. replace (WORDS * 64 - (Z.max first FIRST - FIRST)) with (65536 - Z.max first FIRST) by (unfold FIRST, WORDS; lia).
  rewrite Z.add_0_r, Z.sub_0_r. by destruct (find_first _ (seqZ (Z.max _ _) _)).
Qed.
End find.

(** A list without one of its elements *)
Lemma retain_one {A} `{EqDecision A} (y : A) bs : NoDup bs → y ∈ bs → bs ≡ₚ y :: retain (λ x, negb (bool_decide (x = y))) bs.
Proof.
  intros Hn Hy. apply elem_of_Permutation in Hy as [k Hk]. rewrite Hk in Hn. rewrite Hk at 1. f_equiv. rewrite (retain_perm _ _ _ Hk). cbn [retain]. rewrite bool_decide_eq_true_2 by done. cbn [negb].
  apply NoDup_cons in Hn as [Hn _]. rewrite retain_all; [done|]. intros x Hx. rewrite bool_decide_eq_false_2; [done|]. by intros ->.
Qed.

(** ** Tables of counts, by what an element is counted under *)

Section keyed.
Context {B K} `{Countable K} (key : B → option K).
Implicit Types (bs : list B) (m : gmap K Z).

Definition count_opt (n : nat) : option Z := match n with O => None | S _ => Some (Z.of_nat n) end.
Definition tally bs (k : K) : nat := length (filter (λ x, key x = Some k) bs).
Definition tallied bs m : Prop := ∀ k, m !! k = count_opt (tally bs k).

Lemma count_opt_default n : default 0 (count_opt n) = Z.of_nat n.
Proof. by destruct n. Qed.
Lemma tally_cons x bs k : tally (x :: bs) k = if decide (key x = Some k) then S (tally bs k) else tally bs k.
Proof. unfold tally. rewrite filter_cons. by case_decide. Qed.
Lemma tally_0 bs k : tally bs k = 0%nat ↔ ∀ x, x ∈ bs → key x ≠ Some k.
Proof.
  unfold tally. rewrite length_zero_iff_nil. split.
  - intros E x Hx Hk. assert (x ∈ filter (λ x, key x = Some k) bs) as Hf by (by apply list_elem_of_filter). rewrite E in Hf. by apply elem_of_nil in Hf.
  - intros Hx. destruct (filter (λ x, key x = Some k) bs) as [|y l] eqn:E; [done|]. assert (y ∈ filter (λ x, key x = Some k) bs) as [? ?]%list_elem_of_filter by (rewrite E; set_solver). by destruct (Hx y).
Qed.
Lemma tallied_empty : tallied [] ∅.
Proof. intros k. by rewrite lookup_empty. Qed.
Lemma tallied_perm bs bs' m : bs ≡ₚ bs' → tallied bs m → tallied bs' m.
Proof. intros Hp Hm k. rewrite Hm. unfold tally. by rewrite Hp. Qed.
Lemma tallied_push x bs m : tallied bs m → tallied (x :: bs) (match key x with Some k => bump k m | None => m end).
Proof.
  intros Hm k. rewrite tally_cons. destruct (key x) as [k'|]; [|by case_decide]. unfold bump. rewrite Hm, count_opt_default.
  case_decide as E; [injection E as ->; rewrite lookup_insert_eq; cbn; f_equal; lia|]. rewrite lookup_insert_ne by congruence. apply Hm.
Qed.
Lemma tallied_pop x bs m k : tallied (x :: bs) m → key x = Some k → ∃ m', unbump k m = Some (Z.of_nat (tally bs k), m') ∧ tallied bs m'.
Proof.
  intros Hm Hk. unfold unbump. rewrite Hm, tally_cons, decide_True by done. cbn [mbind option_bind count_opt]. eexists. split; [f_equal; f_equal; lia|].
  intros k'. destruct (decide (k' = k)) as [->|Hne].
  - replace (Z.of_nat (S (tally bs k)) - 1) with (Z.of_nat (tally bs k)) by lia. destruct (Z.eqb_spec (Z.of_nat (tally bs k)) 0).
    + rewrite lookup_delete_eq. by replace (tally bs k) with 0%nat by lia.
    + rewrite lookup_insert_eq. by destruct (tally bs k).
  - assert (m !! k' = count_opt (tally bs k')) as <- by (rewrite Hm, tally_cons, decide_False; congruence).
    destruct (_ =? 0); [by rewrite lookup_delete_ne|by rewrite lookup_insert_ne].
Qed.
Lemma tallied_stay x bs m : tallied (x :: bs) m → key x = None → tallied bs m.
Proof. intros Hm Hk k. rewrite Hm, tally_cons, decide_False; [done|congruence]. Qed.
Lemma tallied_elem bs m k : tallied bs m → is_Some (m !! k) ↔ ∃ x, x ∈ bs ∧ key x = Some k.
Proof.
  intros Hm. rewrite Hm. destruct (tally bs k) as [|n] eqn:E; cbn.
  - split; [by intros []|]. intros (x & Hx & Hk). rewrite tally_0 in E. by destruct (E x Hx).
  - split; [intros _|done]. destruct (filter (λ x, key x = Some k) bs) as [|y l] eqn:Ef; [unfold tally in E; by rewrite Ef in E|].
    assert (y ∈ filter (λ x, key x = Some k) bs) as [? ?]%list_elem_of_filter by (rewrite Ef; by left). by exists y.
Qed.
End keyed.
