(* ===== verification/RegistryProps.v ===== *)
(** * The datagram sockets a registry knows

    The tables of a [UdpRegistry] are those of the list of its bindings, through any run of [insert]
    and [remove]; so the port [alloc_port] picks is the lowest one nothing overlaps, and a bind
    there collides with no binding. *)

From S2P Require Import Prelude IpAddr Ports PortsProps.

Abbreviation binding := (SocketAddr * queue)%type.

(** ** Ports, by what a binding is counted under *)

(** The ports bindings are counted under *)
Definition set_of (key : binding → option Z) (bs : list binding) : gset Z := list_to_set (omap key bs).
Lemma elem_of_set_of key bs p : p ∈ set_of key bs ↔ ∃ x, x ∈ bs ∧ key x = Some p.
Proof. unfold set_of. by rewrite elem_of_list_to_set, list_elem_of_omap. Qed.

Section held.
Context (key : binding → option Z).

Lemma held_push x bs u (b : bool) : ports_rep (set_of key bs) u → (∀ p, key x = Some p → FIRST ≤ p ≤ 65535 ∧ (b = true ↔ p ∉ set_of key bs)) →
  ports_rep (set_of key (x :: bs)) (match key x with Some p => if b then ports_insert p u else u | None => u end).
Proof.
  intros Hu Hp. unfold set_of. cbn [omap list_omap]. destruct (key x) as [p|]; [|done]. destruct (Hp p eq_refl) as [Hr Hb]. cbn [list_to_set].
  change (list_to_set (omap key bs)) with (set_of key bs). destruct b.
  - apply insert_rep; [done|done|]. by apply Hb.
  - replace ({[p]} ∪ set_of key bs) with (set_of key bs); [done|]. assert (p ∈ set_of key bs); [|set_solver].
    destruct (decide (p ∈ set_of key bs)) as [|Hn]; [done|]. by apply Hb in Hn.
Qed.
Lemma held_pop x bs u (b : bool) p : ports_rep (set_of key (x :: bs)) u → key x = Some p → (b = true ↔ p ∉ set_of key bs) →
  ∃ u', (if b then ports_remove p u else Some u) = Some u' ∧ ports_rep (set_of key bs) u'.
Proof.
  unfold set_of at 1. cbn [omap list_omap]. intros Hu Hk Hb. rewrite Hk in Hu. cbn [list_to_set] in Hu. change (list_to_set (omap key bs)) with (set_of key bs) in Hu. destruct b.
  - destruct (remove_rep _ _ p Hu) as (u' & E & Hu'); [set_solver|]. exists u'. split; [done|].
    assert (p ∉ set_of key bs) by (by apply Hb). by replace (set_of key bs) with (({[p]} ∪ set_of key bs) ∖ {[p]}) by set_solver.
  - exists u. split; [done|]. replace (set_of key bs) with ({[p]} ∪ set_of key bs); [done|]. assert (p ∈ set_of key bs); [|set_solver].
    destruct (decide (p ∈ set_of key bs)) as [|Hn]; [done|]. by apply Hb in Hn.
Qed.
Lemma held_stay x bs u : ports_rep (set_of key (x :: bs)) u → key x = None → ports_rep (set_of key bs) u.
Proof. unfold set_of. cbn [omap list_omap]. intros Hu Hk. by rewrite Hk in Hu. Qed.

(** A count of zero tells that no binding holds the port. *)
Lemma zero_iff {K} `{EqDecision K} (key' : binding → option K) k p bs : (∀ x, key' x = Some k ↔ key x = Some p) →
  (Z.of_nat (tally key' bs k) =? 0) = true ↔ p ∉ set_of key bs.
Proof.
  intros Hk. rewrite Z.eqb_eq, elem_of_set_of. split.
  - intros E (x & Hx & Hp). apply (proj1 (tally_0 key' bs k) ltac:(lia) x Hx). by apply Hk.
  - intros Hn. rewrite (proj2 (tally_0 key' bs k)); [done|]. intros x Hx Hx'. apply Hn. exists x. split; [done|]. by apply Hk.
Qed.
End held.

(** ** The registry's tables are those of its bindings *)

Lemma bindings_remove_spec x b : x ∈ bindings_list b → ∃ o, bindings_remove x b = Some o ∧ bindings_list b ≡ₚ x :: from_option bindings_list [] o.
Proof.
  unfold bindings_remove, bindings_list. destruct b as [f l]; cbn [b_first b_rest]. intros Hx. case_bool_decide as E.
  - subst f. eexists. split; [done|]. destruct l as [|y l _] using rev_ind; [done|]. rewrite last_snoc, length_app, Nat.add_sub. cbn. rewrite take_app_length. f_equiv. by rewrite Permutation_app_comm.
  - destruct (position _ l) as [i|] eqn:Ei; cbn [mbind option_bind].
    + eexists. split; [done|]. apply position_Some in Ei as (y & Ey & Hy%bool_decide_eq_true). subst y. cbn. rewrite (swap_remove_Permutation _ _ _ Ey) at 1. apply Permutation_swap.
    + apply elem_of_cons in Hx as [->|Hx]; [done|]. pose proof (position_None _ _ Ei x Hx) as H. by apply bool_decide_eq_false in H.
Qed.

Section registry.
Context (is_endpoint : queue → bool) (dual_queue : SocketAddr → queue → bool).
Implicit Types (bs : list binding) (r : UdpRegistry) (x : binding).

(** What a binding is counted under in each table *)
Definition dynamic x : bool := negb (port (fst x) <? FIRST).
Definition key_endpoint x : option IpAddr := if is_endpoint (snd x) then Some (ip (fst x)) else None.
Definition key_address x : option (IpAddr * Z) := if dynamic x then Some (ip (fst x), port (fst x)) else None.
Definition key_reference x : option (bool * Z) := if dynamic x then Some (is_ipv4 (ip (fst x)), port (fst x)) else None.
Definition key_dual x : option Z := if dynamic x && dual_queue (fst x) (snd x) then Some (port (fst x)) else None.
Definition key_at (i : IpAddr) x : option Z := if dynamic x && bool_decide (ip (fst x) = i) then Some (port (fst x)) else None.
Definition key_family (v4 : bool) x : option Z := if dynamic x && eqb (is_ipv4 (ip (fst x))) v4 then Some (port (fst x)) else None.
Definition queues_at (a : SocketAddr) bs : list queue := omap (λ x, if bool_decide (fst x = a) then Some (snd x) else None) bs.
Definition on_port (p : Z) bs : list binding := retain (λ x, port (fst x) =? p) bs.

(** Each group of tables holds these bindings. *)
Definition ok_bound bs r : Prop := (∀ a, default [] (bound r !! a) ≡ₚ queues_at a bs) ∧ tallied key_endpoint bs (endpoints r).
Definition ok_bucket bs r : Prop := ∀ p, from_option bindings_list [] (by_port r !! p) ≡ₚ on_port p bs.
Definition ok_dual bs r : Prop := tallied key_dual bs (duals r) ∧ ports_rep (set_of key_dual bs) (dual_ports r).
Definition ok_at bs r : Prop := tallied key_address bs (addresses r) ∧ ∀ i, ports_rep (set_of (key_at i) bs) (default ports_default (ports r !! i)).
Definition ok_family bs r : Prop := tallied key_reference bs (references r) ∧
  ports_rep (set_of (key_family false) bs) (family6 r) ∧ ports_rep (set_of (key_family true) bs) (family4 r).
Definition reg_ok bs r : Prop := (NoDup bs ∧ ∀ x, x ∈ bs → 0 ≤ port (fst x) ≤ 65535) ∧ ok_bound bs r ∧ ok_bucket bs r ∧ ok_dual bs r ∧ ok_at bs r ∧ ok_family bs r.

Lemma reg_ok_default : reg_ok [] registry_default.
Proof.
  unfold reg_ok, ok_bound, ok_bucket, ok_dual, ok_at, ok_family. split_and!; try apply tallied_empty; try exact default_rep.
  - constructor.
  - intros x Hx%elem_of_nil. done.
  - intros a'. constructor.
  - intros p. constructor.
  - intros i. exact default_rep.
Qed.

Lemma set_of_perm key bs bs' : bs ≡ₚ bs' → set_of key bs = set_of key bs'.
Proof. intros Hp. unfold set_of. apply list_to_set_perm_L. by rewrite Hp. Qed.
Lemma reg_ok_perm bs bs' r : bs ≡ₚ bs' → reg_ok bs r → reg_ok bs' r.
Proof.
  intros Hp. pose proof (λ key, set_of_perm key bs bs' Hp) as E. intros ([H1 H2] & [H3 H4] & H5 & [H6 H7] & [H8 H9] & (H10 & H11 & H12)).
  unfold reg_ok, ok_bound, ok_bucket, ok_dual, ok_at, ok_family. split_and!; rewrite <- ?E; try done; try (by eapply tallied_perm).
  - by rewrite <- Hp.
  - intros x Hx. apply H2. by rewrite Hp.
  - intros a. rewrite H3. unfold queues_at. by rewrite Hp.
  - intros p. rewrite (H5 p). unfold on_port. by apply retain_perm.
  - intros i. by rewrite <- E.
Qed.

Lemma elem_of_queues a q bs : q ∈ queues_at a bs ↔ (a, q) ∈ bs.
Proof.
  unfold queues_at. rewrite list_elem_of_omap. split.
  - intros ([a' q'] & Hx & E). cbn in E. case_bool_decide; [|done]. congruence.
  - intros Hx. exists (a, q). split; [done|]. cbn. by rewrite bool_decide_eq_true_2.
Qed.

(** The tables are counted the same way for an address as for its ports. *)
Lemma address_key i p x : key_address x = Some (i, p) ↔ key_at i x = Some p.
Proof. unfold key_address, key_at. destruct (dynamic x); cbn [andb]; [|done]. case_bool_decide; split; congruence. Qed.
Lemma reference_key v p x : key_reference x = Some (v, p) ↔ key_family v x = Some p.
Proof. unfold key_reference, key_family. destruct (dynamic x); cbn [andb]; [|done]. destruct (eqb_spec (is_ipv4 (ip (fst x))) v); split; congruence. Qed.

Lemma dynamic_range x : 0 ≤ port (fst x) ≤ 65535 → dynamic x = true → FIRST ≤ port (fst x) ≤ 65535.
Proof. unfold dynamic. destruct (Z.ltb_spec (port (fst x)) FIRST); done || lia. Qed.

(** *** [insert] *)

Lemma key_at_dynamic i x p : key_at i x = Some p → dynamic x = true ∧ ip (fst x) = i ∧ p = port (fst x).
Proof. unfold key_at. destruct (dynamic x); cbn [andb]; [|done]. case_bool_decide; [|done]. intros [= <-]. done. Qed.
Lemma key_family_dynamic v x p : key_family v x = Some p → dynamic x = true ∧ is_ipv4 (ip (fst x)) = v ∧ p = port (fst x).
Proof. unfold key_family. destruct (dynamic x); cbn [andb]; [|done]. destruct (eqb_spec (is_ipv4 (ip (fst x))) v); [|done]. intros [= <-]. done. Qed.
Lemma key_dual_dynamic x p : key_dual x = Some p → dynamic x = true ∧ p = port (fst x).
Proof. unfold key_dual. destruct (dynamic x), (dual_queue (fst x) (snd x)); cbn [andb]; try done. intros [= <-]. done. Qed.

(** The keys of a binding on a port of the range, and of one that is not *)
Lemma key_address_eq x : dynamic x = true → key_address x = Some (ip (fst x), port (fst x)).
Proof. unfold key_address. by intros ->. Qed.
Lemma key_reference_eq x : dynamic x = true → key_reference x = Some (is_ipv4 (ip (fst x)), port (fst x)).
Proof. unfold key_reference. by intros ->. Qed.
Lemma key_family_eq v x : dynamic x = true → key_family v x = if eqb (is_ipv4 (ip (fst x))) v then Some (port (fst x)) else None.
Proof. unfold key_family. by intros ->. Qed.
Lemma key_at_eq i x : dynamic x = true → key_at i x = if bool_decide (ip (fst x) = i) then Some (port (fst x)) else None.
Proof. unfold key_at. by intros ->. Qed.
Lemma key_address_ne x : dynamic x = false → key_address x = None.
Proof. unfold key_address. by intros ->. Qed.
Lemma key_reference_ne x : dynamic x = false → key_reference x = None.
Proof. unfold key_reference. by intros ->. Qed.
Lemma key_family_ne v x : dynamic x = false → key_family v x = None.
Proof. unfold key_family. by intros ->. Qed.
Lemma key_at_ne i x : dynamic x = false → key_at i x = None.
Proof. unfold key_at. by intros ->. Qed.

Section insert.
Context (bs : list binding) (a : SocketAddr) (q : queue) (Ha : 0 ≤ port a ≤ 65535).

Lemma count_dual_in_ok r : ok_dual bs r → ok_dual ((a, q) :: bs) (if dual_queue a q then count_dual_in (port a) r else r).
Proof.
  intros [H1 H2]. pose proof (tallied_push key_dual (a, q) bs _ H1) as P1.
  pose proof (held_push key_dual (a, q) bs _ (default 0 (duals r !! port a) =? 0) H2) as P2. unfold ok_dual.
  assert ((default 0 (duals r !! port a) + 1 =? 1) = (default 0 (duals r !! port a) =? 0)) as Ed by lia.
  assert (∀ p, key_dual (a, q) = Some p → FIRST ≤ p ≤ 65535 ∧ ((default 0 (duals r !! port a) =? 0) = true ↔ p ∉ set_of key_dual bs)) as Hp.
  { intros p Hp. destruct (key_dual_dynamic _ _ Hp) as [Hd ->]. split; [by apply (dynamic_range (a, q))|]. rewrite H1, count_opt_default. apply zero_iff. by intros x. }
  specialize (P2 Hp). clear Hp.
  assert (key_dual (a, q) = if negb (port a <? FIRST) && dual_queue a q then Some (port a) else None) as Ek by reflexivity. rewrite Ek in P1, P2.
  unfold count_dual_in. destruct (dual_queue a q); [|rewrite andb_false_r in P1, P2; done].
  destruct (port a <? FIRST); [done|]. cbn [duals dual_ports]. by rewrite Ed.
Qed.

Lemma count_in_ok r : ok_at bs r → ok_family bs r → ok_at ((a, q) :: bs) (count_in a r) ∧ ok_family ((a, q) :: bs) (count_in a r).
Proof.
  intros [H1 H2] (H3 & H4 & H5). pose proof (tallied_push key_address (a, q) bs _ H1) as P1. pose proof (tallied_push key_reference (a, q) bs _ H3) as P3.
  pose proof (λ i, held_push (key_at i) (a, q) bs _ (default 0 (addresses r !! (ip a, port a)) =? 0) (H2 i)) as P2.
  pose proof (held_push (key_family false) (a, q) bs _ (default 0 (references r !! (is_ipv4 (ip a), port a)) =? 0) H4) as P4.
  pose proof (held_push (key_family true) (a, q) bs _ (default 0 (references r !! (is_ipv4 (ip a), port a)) =? 0) H5) as P5.
  assert (∀ v p, key_family v (a, q) = Some p → FIRST ≤ p ≤ 65535 ∧ ((default 0 (references r !! (is_ipv4 (ip a), port a)) =? 0) = true ↔ p ∉ set_of (key_family v) bs)) as Hv.
  { intros v p Hp. destruct (key_family_dynamic _ _ _ Hp) as (Hd & E & ->). split; [by apply (dynamic_range (a, q))|]. rewrite H3, count_opt_default.
    apply zero_iff. intros x. cbn [fst] in E. rewrite E. apply reference_key. }
  specialize (P4 (Hv false)). specialize (P5 (Hv true)). clear Hv.
  assert (∀ i p, key_at i (a, q) = Some p → FIRST ≤ p ≤ 65535 ∧ ((default 0 (addresses r !! (ip a, port a)) =? 0) = true ↔ p ∉ set_of (key_at i) bs)) as Hi.
  { intros i p Hp. destruct (key_at_dynamic _ _ _ Hp) as (Hd & E & ->). split; [by apply (dynamic_range (a, q))|]. rewrite H1, count_opt_default.
    apply zero_iff. intros x. cbn [fst] in E. rewrite E. apply address_key. }
  pose proof (λ i, P2 i (Hi i)) as P2'. clear Hi P2. unfold ok_at, ok_family, count_in.
  destruct (dynamic (a, q)) eqn:Ed.
  - assert ((port a <? FIRST) = false) as -> by (by apply negb_true_iff). cbn [addresses ports references family6 family4].
    rewrite (key_address_eq _ Ed) in P1. rewrite (key_reference_eq _ Ed) in P3. rewrite (key_family_eq _ _ Ed) in P4. rewrite (key_family_eq _ _ Ed) in P5. cbn [fst] in *.
    split_and!; [done| |done|by destruct (_ =? 0), (is_ipv4 (ip a))..].
    intros i. specialize (P2' i). rewrite (key_at_eq _ _ Ed) in P2'. cbn [fst] in P2'. case_bool_decide as Ei.
    + subst i. destruct (default 0 (addresses r !! _) =? 0); [by rewrite lookup_insert_eq|done].
    + destruct (default 0 (addresses r !! _) =? 0); [by rewrite lookup_insert_ne|done].
  - assert ((port a <? FIRST) = true) as -> by (by apply negb_false_iff).
    rewrite (key_address_ne _ Ed) in P1. rewrite (key_reference_ne _ Ed) in P3. rewrite (key_family_ne _ _ Ed) in P4. rewrite (key_family_ne _ _ Ed) in P5.
    split_and!; try done. intros i. specialize (P2' i). by rewrite (key_at_ne _ _ Ed) in P2'.
Qed.

Lemma bind_in_ok r bp ps f6 f4 dp rf ad du : ok_bound bs r → (a, q) ∉ bs →
  ok_bound ((a, q) :: bs) (mk_registry (<[a := default [] (bound r !! a) ++ [q]]> (bound r)) bp (if is_endpoint q then bump (ip a) (endpoints r) else endpoints r) ps f6 f4 dp rf ad du).
Proof.
  intros [H1 H2] Hn. split.
  - intros b. unfold queues_at. cbn [bound omap list_omap fst snd]. case_bool_decide as Eb.
    + subst b. rewrite lookup_insert_eq. cbn. rewrite <- Permutation_cons_append. f_equiv. apply H1.
    + rewrite lookup_insert_ne by done. apply H1.
  - pose proof (tallied_push key_endpoint (a, q) bs _ H2) as P. assert (key_endpoint (a, q) = if is_endpoint q then Some (ip a) else None) as E by reflexivity.
    rewrite E in P. cbn [endpoints]. by destruct (is_endpoint q).
Qed.
Lemma bucket_in_ok r bo en ps f6 f4 dp rf ad du : ok_bucket bs r →
  ok_bucket ((a, q) :: bs) (mk_registry bo (<[port a := bindings_push (a, q) (by_port r !! port a)]> (by_port r)) en ps f6 f4 dp rf ad du).
Proof.
  intros H p. unfold on_port. cbn [by_port retain fst]. destruct (Z.eqb_spec (port a) p) as [<-|Hp].
  - rewrite lookup_insert_eq. cbn [from_option]. fold (on_port (port a) bs). rewrite <- (H (port a)). destruct (by_port r !! port a) as [[]|]; [|done].
    unfold bindings_list. cbn. rewrite <- Permutation_cons_append. apply Permutation_swap.
  - rewrite lookup_insert_ne by done. apply H.
Qed.

Lemma registry_insert_ok r : reg_ok bs r → reg_ok (if bool_decide ((a, q) ∈ bs) then bs else (a, q) :: bs) (registry_insert is_endpoint dual_queue a q r).
Proof.
  intros ([H1 H2] & [H3 H4] & H5 & H6 & H7 & H8). destruct (decide ((a, q) ∈ bs)) as [Hx|Hx].
  { rewrite bool_decide_eq_true_2 by done. unfold registry_insert. rewrite bool_decide_eq_true_2 by (by rewrite H3, elem_of_queues). by split_and!. }
  rewrite bool_decide_eq_false_2 by done. unfold registry_insert. rewrite bool_decide_eq_false_2 by (by rewrite H3, elem_of_queues).
  set (r1 := mk_registry (<[a := _]> (bound r)) _ _ _ _ _ _ _ _ _).
  assert (ok_bound ((a, q) :: bs) r1) as B1 by (by apply bind_in_ok). assert (ok_bucket bs r1 ∧ ok_dual bs r1 ∧ ok_at bs r1 ∧ ok_family bs r1) as (B2 & B3 & B4 & B5) by done.
  clearbody r1. clear H3 H4 H5 H6 H7 H8. apply count_dual_in_ok in B3. assert (ok_bound ((a, q) :: bs) (if dual_queue a q then count_dual_in (port a) r1 else r1) ∧
    ok_bucket bs (if dual_queue a q then count_dual_in (port a) r1 else r1) ∧ ok_at bs (if dual_queue a q then count_dual_in (port a) r1 else r1) ∧
    ok_family bs (if dual_queue a q then count_dual_in (port a) r1 else r1)) as (C1 & C2 & C4 & C5) by (unfold count_dual_in; by destruct (dual_queue a q), (port a <? FIRST)).
  set (r2 := if dual_queue a q then count_dual_in (port a) r1 else r1) in *. clearbody r2. clear B1 B2 B4 B5. cbv zeta. set (r3 := mk_registry _ _ _ _ _ _ _ _ _ _).
  assert (ok_bucket ((a, q) :: bs) r3) as D2 by (by apply bucket_in_ok). assert (ok_bound ((a, q) :: bs) r3 ∧ ok_dual ((a, q) :: bs) r3 ∧ ok_at bs r3 ∧ ok_family bs r3) as (D1 & D3 & D4 & D5) by done.
  clearbody r3. destruct (count_in_ok r3 D4 D5) as [F4 F5]. 
  assert (ok_bound ((a, q) :: bs) (count_in a r3) ∧ ok_bucket ((a, q) :: bs) (count_in a r3) ∧ ok_dual ((a, q) :: bs) (count_in a r3)) as (F1 & F2 & F3) by (unfold count_in; by destruct (port a <? FIRST)).
  split_and!; [by constructor| |done..]. intros x [->|Hx']%elem_of_cons; auto.
Qed.

(** *** [remove] *)

Lemma count_dual_out_ok r : ok_dual ((a, q) :: bs) r → ∃ r', (if dual_queue a q then count_dual_out (port a) r else Some r) = Some r' ∧ ok_dual bs r' ∧
  ∀ bs', (ok_bound bs' r → ok_bound bs' r') ∧ (ok_bucket bs' r → ok_bucket bs' r') ∧ (ok_at bs' r → ok_at bs' r') ∧ (ok_family bs' r → ok_family bs' r').
Proof.
  intros [H1 H2]. assert (key_dual (a, q) = if negb (port a <? FIRST) && dual_queue a q then Some (port a) else None) as Ek by reflexivity.
  unfold count_dual_out. destruct (dual_queue a q); [destruct (port a <? FIRST)|]; cbn [negb andb] in Ek; rewrite ?andb_false_r in Ek.
  1,3: exists r; split; [done|]; split; [split; [by eapply tallied_stay|by eapply held_stay]|done].
  destruct (tallied_pop _ _ _ _ _ H1 Ek) as (d & -> & Hd). cbn [mbind option_bind].
  destruct (held_pop key_dual _ _ _ (Z.of_nat (tally key_dual bs (port a)) =? 0) _ H2 Ek) as (u & -> & Hu); [by apply zero_iff|]. cbn [mbind option_bind].
  eexists. split; [reflexivity|]. by split_and!.
Qed.

Lemma held_at_pop r : (∀ i, ports_rep (set_of (key_at i) ((a, q) :: bs)) (default ports_default (ports r !! i))) → dynamic (a, q) = true →
  ∃ ps, (if Z.of_nat (tally key_address bs (ip a, port a)) =? 0 then
           u ← ports r !! ip a;
           u ← ports_remove (port a) u;
           Some (if held_count u =? 0 then delete (ip a) (ports r) else <[ip a := u]> (ports r))
         else Some (ports r)) = Some ps ∧ ∀ i, ports_rep (set_of (key_at i) bs) (default ports_default (ps !! i)).
Proof.
  intros H Ed. assert (key_at (ip a) (a, q) = Some (port a)) as Ek by (rewrite key_at_eq by done; by rewrite bool_decide_eq_true_2).
  assert (∀ i, i ≠ ip a → ports_rep (set_of (key_at i) bs) (default ports_default (ports r !! i))) as Hne.
  { intros i Hi. eapply held_stay; [apply H|]. rewrite key_at_eq by done. rewrite bool_decide_eq_false_2; [done|]. cbn. congruence. }
  destruct (held_pop (key_at (ip a)) _ _ _ (Z.of_nat (tally key_address bs (ip a, port a)) =? 0) _ (H (ip a)) Ek) as (u & Eu & Hu).
  { apply zero_iff. intros x. apply address_key. }
  destruct (_ =? 0).
  - destruct (ports r !! ip a) as [u0|] eqn:E0; [|by cbn in Eu]. cbn [from_option id] in Eu. cbn [mbind option_bind]. rewrite Eu. cbn [mbind option_bind]. eexists. split; [reflexivity|].
    intros i. destruct (decide (i = ip a)) as [->|Hi].
    + destruct (Z.eqb_spec (held_count u) 0) as [Ec|Ec]; [|by rewrite lookup_insert_eq]. rewrite lookup_delete_eq. cbn [from_option].
      rewrite (pr_count _ _ Hu) in Ec. assert (set_of (key_at (ip a)) bs = ∅) as -> by (apply leibniz_equiv, size_empty_iff; lia). apply default_rep.
    + destruct (_ =? 0); [rewrite lookup_delete_ne by done|rewrite lookup_insert_ne by done]; by apply Hne.
  - exists (ports r). split; [done|]. intros i. destruct (decide (i = ip a)) as [->|Hi]; [|by apply Hne]. by injection Eu as ->.
Qed.

Lemma held_family_pop v u : ports_rep (set_of (key_family v) ((a, q) :: bs)) u → dynamic (a, q) = true →
  ∃ u', (if (Z.of_nat (tally key_reference bs (is_ipv4 (ip a), port a)) =? 0) && eqb (is_ipv4 (ip a)) v then ports_remove (port a) u else Some u) = Some u' ∧ ports_rep (set_of (key_family v) bs) u'.
Proof.
  intros H Ed. pose proof (key_family_eq v _ Ed) as Ek. cbn [fst] in Ek. destruct (eqb_spec (is_ipv4 (ip a)) v) as [E|E].
  - rewrite andb_true_r. apply (held_pop _ _ _ _ _ _ H Ek), zero_iff. intros x. rewrite E. apply reference_key.
  - rewrite andb_false_r. exists u. split; [done|]. by eapply held_stay.
Qed.

Lemma count_out_ok r : ok_at ((a, q) :: bs) r → ok_family ((a, q) :: bs) r → ∃ r', count_out a r = Some r' ∧ ok_at bs r' ∧ ok_family bs r' ∧
  ∀ bs', (ok_bound bs' r → ok_bound bs' r') ∧ (ok_bucket bs' r → ok_bucket bs' r') ∧ (ok_dual bs' r → ok_dual bs' r').
Proof.
  intros [H1 H2] (H3 & H4 & H5). unfold count_out. destruct (dynamic (a, q)) eqn:Ed.
  2: { assert ((port a <? FIRST) = true) as -> by (by apply negb_false_iff). exists r. split; [done|]. split; [|split; [|done]].
    - split; [by eapply tallied_stay, key_address_ne|]. intros i. by eapply held_stay, key_at_ne.
    - split_and!; [by eapply tallied_stay, key_reference_ne|by eapply held_stay, key_family_ne..]. }
  assert ((port a <? FIRST) = false) as -> by (by apply negb_true_iff).
  destruct (tallied_pop _ _ _ _ _ H1 (key_address_eq _ Ed)) as (ad & E1 & Ha'). cbn [fst] in E1. rewrite E1. cbn [mbind option_bind].
  destruct (held_at_pop r H2 Ed) as (ps & -> & Hps). cbn [mbind option_bind].
  destruct (tallied_pop _ _ _ _ _ H3 (key_reference_eq _ Ed)) as (rf & E2 & Hrf). cbn [fst] in E2. rewrite E2. cbn [mbind option_bind].
  destruct (held_family_pop false _ H4 Ed) as (f6 & E6 & Hf6). destruct (held_family_pop true _ H5 Ed) as (f4 & E4 & Hf4).
  replace (eqb (is_ipv4 (ip a)) false) with (negb (is_ipv4 (ip a))) in E6 by (by destruct (is_ipv4 (ip a))).
  replace (eqb (is_ipv4 (ip a)) true) with (is_ipv4 (ip a)) in E4 by (by destruct (is_ipv4 (ip a))).
  rewrite E6. cbn [mbind option_bind]. rewrite E4. cbn [mbind option_bind]. eexists. split; [reflexivity|]. by split_and!.
Qed.

Lemma bind_out_ok r : ok_bound ((a, q) :: bs) r → (a, q) ∉ bs → ∃ held i ends, bound r !! a = Some held ∧ position (λ y, y =? q) held = Some i ∧
  (if is_endpoint q then '(_, m) ← unbump (ip a) (endpoints r); Some m else Some (endpoints r)) = Some ends ∧
  ∀ bp ps f6 f4 dp rf ad du, ok_bound bs (mk_registry (match delete i held with [] => delete a (bound r) | _ => <[a := delete i held]> (bound r) end) bp ends ps f6 f4 dp rf ad du).
Proof.
  intros [H1 H2] Hn. pose proof (H1 a) as Hq. unfold queues_at in Hq. cbn [omap list_omap fst snd] in Hq. rewrite bool_decide_eq_true_2 in Hq by done.
  fold (queues_at a bs) in Hq. destruct (bound r !! a) as [held|] eqn:Eh; cbn [from_option id] in Hq; [|by apply Permutation_nil_cons in Hq].
  destruct (position (λ y, y =? q) held) as [i|] eqn:Ei.
  2: { assert (q ∈ held) as Hin by (rewrite Hq; by left). pose proof (position_None _ _ Ei q Hin) as H. cbn in H. lia. }
  destruct (position_Some _ _ _ Ei) as (q' & Hq' & ->%Z.eqb_eq). rewrite (delete_Permutation _ _ _ Hq') in Hq. apply Permutation.Permutation_cons_inv in Hq.
  assert (∃ ends, (if is_endpoint q then '(_, m) ← unbump (ip a) (endpoints r); Some m else Some (endpoints r)) = Some ends ∧ tallied key_endpoint bs ends) as (ends & Ee & He).
  { assert (key_endpoint (a, q) = if is_endpoint q then Some (ip a) else None) as Ek by reflexivity. destruct (is_endpoint q).
    - destruct (tallied_pop _ _ _ _ _ H2 Ek) as (m & -> & Hm). by exists m.
    - exists (endpoints r). split; [done|]. by eapply tallied_stay. }
  exists held, i, ends. split_and!; [done..|]. intros. split; [|done]. intros b. cbn [bound]. pose proof (H1 b) as Hb. unfold queues_at in Hb. cbn [omap list_omap fst snd] in Hb.
  case_bool_decide as Eb; [subst b|].
  - match goal with |- context [match ?d with [] => _ | _ => _ end] => assert (d ≡ₚ queues_at a bs) as Hd by exact Hq; destruct d end; [by rewrite lookup_delete_eq|by rewrite lookup_insert_eq].
  - match goal with |- context [match ?d with [] => _ | _ => _ end] => destruct d end; [by rewrite lookup_delete_ne|by rewrite lookup_insert_ne].
Qed.

Lemma bucket_out_ok r : ok_bucket ((a, q) :: bs) r → ∃ b o, by_port r !! port a = Some b ∧ bindings_remove (a, q) b = Some o ∧
  ∀ bo en ps f6 f4 dp rf ad du, ok_bucket bs (mk_registry bo (match o with Some b => <[port a := b]> (by_port r) | None => delete (port a) (by_port r) end) en ps f6 f4 dp rf ad du).
Proof.
  intros H. pose proof (H (port a)) as Hp. unfold on_port in Hp. cbn [retain fst] in Hp. rewrite Z.eqb_refl in Hp.
  destruct (by_port r !! port a) as [b|] eqn:Eb; cbn [from_option] in Hp; [|by apply Permutation_nil_cons in Hp].
  destruct (bindings_remove_spec (a, q) b) as (o & Eo & Ho); [rewrite Hp; by left|]. exists b, o. split_and!; [done..|]. intros. intros p. cbn [by_port].
  rewrite Ho in Hp. apply Permutation.Permutation_cons_inv in Hp. destruct (decide (p = port a)) as [->|Hne].
  - destruct o; [rewrite lookup_insert_eq|rewrite lookup_delete_eq]; done.
  - pose proof (H p) as Hp'. unfold on_port in Hp'. cbn [retain fst] in Hp'. destruct (Z.eqb_spec (port a) p); [congruence|].
    destruct o; [rewrite lookup_insert_ne by done|rewrite lookup_delete_ne by done]; done.
Qed.

Lemma registry_remove_ok r : reg_ok ((a, q) :: bs) r → ∃ r', registry_remove is_endpoint dual_queue a q r = Some r' ∧ reg_ok bs r'.
Proof.
  intros ([[Hn H1]%NoDup_cons H2] & H3 & H5 & H6 & H7 & H8). unfold registry_remove.
  destruct (bind_out_ok r H3 Hn) as (held & i & ends & -> & -> & -> & B1). cbn [mbind option_bind].
  set (r1 := mk_registry _ _ _ _ _ _ _ _ _ _). assert (ok_bound bs r1) as C1 by apply B1.
  assert (ok_bucket ((a, q) :: bs) r1 ∧ ok_dual ((a, q) :: bs) r1 ∧ ok_at ((a, q) :: bs) r1 ∧ ok_family ((a, q) :: bs) r1) as (C2 & C3 & C4 & C5) by done.
  clearbody r1. clear B1 H3 H5 H6 H7 H8. destruct (count_dual_out_ok r1 C3) as (r2 & -> & D3 & Dr). cbn [mbind option_bind].
  apply Dr in C1, C2, C4, C5. clear Dr C3. destruct (bucket_out_ok r2 C2) as (b & o & -> & E & B2). cbn [mbind option_bind]. rewrite E. cbn [mbind option_bind].
  set (r3 := mk_registry _ _ _ _ _ _ _ _ _ _). assert (ok_bucket bs r3) as F2 by apply B2.
  assert (ok_bound bs r3 ∧ ok_dual bs r3 ∧ ok_at ((a, q) :: bs) r3 ∧ ok_family ((a, q) :: bs) r3) as (F1 & F3 & F4 & F5) by done. clearbody r3.
  destruct (count_out_ok r3 F4 F5) as (r' & -> & G4 & G5 & G). apply G in F1, F2, F3. eexists. split; [reflexivity|]. split_and!; try done. intros x Hx. apply H2. by right.
Qed.

Lemma registry_remove_absent r : reg_ok bs r → (a, q) ∉ bs → registry_remove is_endpoint dual_queue a q r = Some r.
Proof.
  intros (_ & [H1 _] & _) Hn. unfold registry_remove. pose proof (H1 a) as Hq. destruct (bound r !! a) as [held|]; [|done]. cbn [from_option id] in Hq.
  destruct (position (λ y, y =? q) held) as [i|] eqn:Ei; [|done]. destruct (position_Some _ _ _ Ei) as (q' & Hq' & ->%Z.eqb_eq). exfalso. apply Hn, elem_of_queues. rewrite <- Hq. by eapply list_elem_of_lookup_2.
Qed.
End insert.

(** ** Through any run *)

Inductive reg_op := RInsert (a : SocketAddr) (q : queue) | RRemove (a : SocketAddr) (q : queue).
Definition op_port (o : reg_op) : Z := match o with RInsert a _ | RRemove a _ => port a end.
Definition reg_call (o : reg_op) r : option UdpRegistry :=
  match o with RInsert a q => Some (registry_insert is_endpoint dual_queue a q r) | RRemove a q => registry_remove is_endpoint dual_queue a q r end.
Fixpoint reg_run (ops : list reg_op) r : option UdpRegistry :=
  match ops with [] => Some r | o :: ops => r ← reg_call o r; reg_run ops r end.

(** The bindings there are after a call, the list a registry stands for *)
Definition bound_after (o : reg_op) bs : list binding :=
  match o with
  | RInsert a q => if bool_decide ((a, q) ∈ bs) then bs else (a, q) :: bs
  | RRemove a q => retain (λ x, negb (bool_decide (x = (a, q)))) bs
  end.
Definition bound_by (ops : list reg_op) : list binding := foldl (λ bs o, bound_after o bs) [] ops.

Lemma reg_call_ok o bs r : reg_ok bs r → 0 ≤ op_port o ≤ 65535 → ∃ r', reg_call o r = Some r' ∧ reg_ok (bound_after o bs) r'.
Proof.
  intros Hr Ho. destruct o as [a q|a q]; cbn [reg_call bound_after].
  - eexists. split; [done|]. by apply registry_insert_ok.
  - destruct (decide ((a, q) ∈ bs)) as [Hx|Hx].
    + pose proof (retain_one _ _ (proj1 (proj1 Hr)) Hx) as Hp. by apply registry_remove_ok, (reg_ok_perm _ _ _ Hp).
    + exists r. split; [by eapply registry_remove_absent|]. rewrite retain_all; [done|]. intros x Hx'. rewrite bool_decide_eq_false_2; [done|]. by intros ->.
Qed.
Lemma reg_run_ok ops : Forall (λ o, 0 ≤ op_port o ≤ 65535) ops → ∃ r, reg_run ops registry_default = Some r ∧ reg_ok (bound_by ops) r.
Proof.
  unfold bound_by. generalize reg_ok_default. generalize registry_default. generalize ([] : list binding). induction ops as [|o ops IH]; intros bs r Hr Hops; cbn; [by exists r|].
  apply Forall_cons in Hops as [Ho Hops]. destruct (reg_call_ok o bs r Hr Ho) as (r' & -> & Hr'). by apply IH.
Qed.

(** ** What the registry answers *)

(** Whether a bind to [i], of a dual-stack socket or not, overlaps a binding *)
Definition overlaps (i : IpAddr) (dual : bool) x : bool :=
  dual || (eqb (is_ipv4 (ip (fst x))) (is_ipv4 i) && (bool_decide (ip (fst x) = i) || is_unspecified (ip (fst x)) || is_unspecified i)) ||
  (is_ipv4 i && dual_queue (fst x) (snd x)).

Definition dynamic_at (p : Z) bs (sel : binding → bool) : Prop := ∃ x, x ∈ bs ∧ dynamic x = true ∧ port (fst x) = p ∧ sel x = true.
Lemma in_at i bs p : p ∈ set_of (key_at i) bs ↔ dynamic_at p bs (λ x, bool_decide (ip (fst x) = i)).
Proof.
  rewrite elem_of_set_of. split; intros (x & Hx & H); exists x; split; try done.
  - apply key_at_dynamic in H as (? & ? & ->). split_and!; try done. by apply bool_decide_eq_true.
  - destruct H as (Hd & <- & Hi). rewrite key_at_eq by done. by rewrite Hi.
Qed.
Lemma in_family v bs p : p ∈ set_of (key_family v) bs ↔ dynamic_at p bs (λ x, eqb (is_ipv4 (ip (fst x))) v).
Proof.
  rewrite elem_of_set_of. split; intros (x & Hx & H); exists x; split; try done.
  - apply key_family_dynamic in H as (? & <- & ->). split_and!; try done. apply eqb_reflx.
  - destruct H as (Hd & <- & Hi). rewrite key_family_eq by done. by rewrite Hi.
Qed.
Lemma in_dual bs p : p ∈ set_of key_dual bs ↔ dynamic_at p bs (λ x, dual_queue (fst x) (snd x)).
Proof.
  rewrite elem_of_set_of. split; intros (x & Hx & H); exists x; split; try done.
  - pose proof (key_dual_dynamic _ _ H) as (Hd & ->). split_and!; try done. unfold key_dual in H. by rewrite Hd in H; destruct (dual_queue _ _).
  - destruct H as (Hd & <- & Hi). unfold key_dual. by rewrite Hd, Hi.
Qed.
Lemma dynamic_or p bs f g : dynamic_at p bs f ∨ dynamic_at p bs g ↔ dynamic_at p bs (λ x, f x || g x).
Proof.
  split.
  - intros [(x & ? & ? & ? & H)|(x & ? & ? & ? & H)]; exists x; rewrite H, ?orb_true_r; done.
  - intros (x & ? & ? & ? & [H|H]%orb_true_iff); [left|right]; exists x; done.
Qed.
Lemma dynamic_ext p bs f g : (∀ x, f x = g x) → dynamic_at p bs f ↔ dynamic_at p bs g.
Proof. intros E. split; intros (x & ? & ? & ? & H); exists x; [rewrite <- E|rewrite E]; done. Qed.

Lemma unspecified_like_spec i j : bool_decide (j = unspecified_like i) = eqb (is_ipv4 j) (is_ipv4 i) && is_unspecified j.
Proof. apply eq_true_iff_eq. rewrite bool_decide_eq_true. destruct i, j; cbn; rewrite ?Z.eqb_eq; unfold UNSPECIFIED4, UNSPECIFIED6; split; congruence. Qed.

Ltac listed := repeat (apply Forall2_cons; split; [done|]); by apply Forall2_nil_2.

(** The sets [alloc_port_from] looks in hold the ports of the range that overlapping bindings are on. *)
Lemma port_sets_spec bs r i dual : reg_ok bs r →
  ∃ ss, Forall2 ports_rep ss (port_sets i dual r) ∧ ∀ p, p ∈ ⋃ ss ↔ dynamic_at p bs (overlaps i dual).
Proof.
  intros (_ & _ & _ & [_ Hd] & [_ Ha] & (_ & H6 & H4)). unfold port_sets. destruct dual; [|destruct (is_unspecified i) eqn:Eu].
  - exists [set_of (key_family false) bs; set_of (key_family true) bs]. split; [listed|]. intros p. cbn. rewrite (right_id_L ∅ (∪)), elem_of_union, !in_family, dynamic_or. apply dynamic_ext.
    intros x. unfold overlaps. cbn. by destruct (is_ipv4 _).
  - exists (set_of (key_family (is_ipv4 i)) bs :: if is_ipv4 i then [set_of key_dual bs] else []). split.
    + destruct (is_ipv4 i); listed.
    + intros p. destruct (is_ipv4 i) eqn:Ei; cbn; rewrite (right_id_L ∅ (∪)), ?elem_of_union, in_family, ?in_dual.
      * rewrite dynamic_or. apply dynamic_ext. intros x. unfold overlaps. rewrite Ei, Eu. cbn. by rewrite orb_true_r, andb_true_r.
      * apply dynamic_ext. intros x. unfold overlaps. rewrite Ei, Eu. cbn. by rewrite !orb_true_r, andb_true_r, orb_false_r.
  - assert (∀ j, ∃ l, Forall2 ports_rep l (option_list (ports r !! j)) ∧ ∀ p, p ∈ ⋃ l ↔ p ∈ set_of (key_at j) bs) as Hl.
    { intros j. specialize (Ha j). destruct (ports r !! j) as [u|]; cbn in *.
      - exists [set_of (key_at j) bs]. split; [listed|]. intros p. cbn. set_solver.
      - exists []. split; [constructor|]. intros p. pose proof (pr_count _ _ Ha) as Hc. cbn in Hc.
        assert (set_of (key_at j) bs = ∅) as -> by (apply leibniz_equiv, size_empty_iff; lia). cbn. set_solver. }
    destruct (Hl i) as (l1 & L1 & E1), (Hl (unspecified_like i)) as (l2 & L2 & E2).
    exists (l1 ++ l2 ++ if is_ipv4 i then [set_of key_dual bs] else []). split.
    + apply Forall2_app; [done|]. apply Forall2_app; [done|]. destruct (is_ipv4 i); listed.
    + intros p. rewrite !union_list_app_L, !elem_of_union, E1, E2, !in_at.
      assert (p ∈ ⋃ (if is_ipv4 i then [set_of key_dual bs] else []) ↔ dynamic_at p bs (λ x, is_ipv4 i && dual_queue (fst x) (snd x))) as ->.
      { destruct (is_ipv4 i); cbn; [by rewrite (right_id_L ∅ (∪)), in_dual|]. split; [set_solver|]. by intros (x & ? & ? & ? & ?). }
      rewrite !dynamic_or. apply dynamic_ext. intros x. unfold overlaps. rewrite Eu, unspecified_like_spec, orb_false_r. cbn [orb]. rewrite orb_assoc. f_equal.
      case_bool_decide as E; [|done]. rewrite E. by rewrite eqb_reflx.
Qed.

Lemma find_first_ext {A} (f g : A → bool) l : (∀ y, y ∈ l → f y = g y) → find_first f l = find_first g l.
Proof. induction l as [|y l IH]; intros H; [done|]. cbn. rewrite H by (by left). destruct (g y); [done|]. apply IH. intros z Hz. apply H. by right. Qed.
Lemma port_order_range first p : first ≤ 65535 → p ∈ port_order first ↔ FIRST ≤ p ≤ 65535.
Proof. intros Hf. unfold port_order. rewrite elem_of_app, !elem_of_seqZ. unfold FIRST. lia. Qed.

(** Whether some binding on a port overlaps a bind to [i] *)
Definition overlapped (i : IpAddr) (dual : bool) bs (p : Z) : bool := existsb (λ x, (port (fst x) =? p) && overlaps i dual x) bs.
Lemma overlapped_spec i dual bs p : overlapped i dual bs p = true ↔ ∃ x, x ∈ bs ∧ port (fst x) = p ∧ overlaps i dual x = true.
Proof.
  unfold overlapped. rewrite existsb_exists. split; intros (x & Hx & H); exists x; (split; [by apply list_elem_of_In|]).
  - apply andb_true_iff in H as [?%Z.eqb_eq ?]. done.
  - destruct H as [-> ->]. by rewrite Z.eqb_refl.
Qed.

Lemma alloc_port_spec bs r i first dual : reg_ok bs r → first ≤ 65535 →
  alloc_port_from i first dual r = default 0 (find_first (λ p, negb (overlapped i dual bs p)) (port_order first)).
Proof.
  intros Hr Hf. destruct (port_sets_spec bs r i dual Hr) as (ss & Hss & Hin). unfold alloc_port_from. rewrite (ports_alloc_spec ss) by done. f_equal.
  apply find_first_ext. intros p Hp%port_order_range; [|done]. f_equal. apply eq_true_iff_eq. unfold taken. rewrite bool_decide_eq_true, Hin, overlapped_spec. split.
  - intros (x & ? & ? & ? & ?). by exists x.
  - intros (x & ? & <- & ?). exists x. split_and!; try done. unfold dynamic. destruct (Z.ltb_spec (port (fst x)) FIRST); [lia|done].
Qed.
End registry.

(** ** The registry against the list of its bindings *)

Definition offered (c : UdpCandidates) : list binding := match c with One o => option_list o | Many l => l end.

Lemma candidates_spec is_endpoint bs r tg dst : ok_bucket bs r →
  candidates is_endpoint tg dst r ≡ₚ retain (accepted is_endpoint tg dst) (on_port (port dst) bs).
Proof.
  intros H. unfold candidates. specialize (H (port dst)). destruct (by_port r !! port dst) as [b|]; cbn [from_option] in H; [by apply retain_perm|].
  apply Permutation_nil in H. by rewrite H.
Qed.
Lemma delivery_candidates_spec is_endpoint r tg dst : offered (delivery_candidates is_endpoint tg dst r) = candidates is_endpoint tg dst r.
Proof.
  unfold delivery_candidates. destruct (by_port r !! port dst) as [[f [|y l]]|] eqn:E; cbn [b_rest b_first offered]; [|done|].
  - unfold candidates. rewrite E. unfold bindings_list. cbn. by destruct (accepted _ _ _ f).
  - unfold candidates. by rewrite E.
Qed.
Lemma endpoints_spec is_endpoint bs r i : tallied (key_endpoint is_endpoint) bs (endpoints r) →
  is_Some (endpoints r !! i) ↔ ∃ x, x ∈ bs ∧ is_endpoint (snd x) = true ∧ ip (fst x) = i.
Proof.
  intros H. rewrite (tallied_elem _ _ _ _ H). assert (∀ x, key_endpoint is_endpoint x = Some i ↔ is_endpoint (snd x) = true ∧ ip (fst x) = i) as Hk.
  { intros x. unfold key_endpoint. destruct (is_endpoint (snd x)); naive_solver. }
  split; intros (x & Hx & Hi); exists x; (split; [done|]); by apply Hk.
Qed.

(** C11: after any calls of [UdpRegistry::insert] and [remove], in any order and repeated or not, none of which panics, the registry answers from the
    bindings there are: the port picked for an address is the first from [first], wrapping around the dynamic range once, on which no binding overlaps it (the
    address itself, a wildcard on either side, and for IPv4 the dual-stack sockets; anything for a dual-stack socket), and 0 when there is none; the candidates
    of a datagram are the bindings on its port, those a group takes if it is one; and an address has an endpoint when one is bound at it. *)
Theorem udp_registry_refines (is_endpoint : queue → bool) (dual_queue : SocketAddr → queue → bool) ops :
  Forall (λ o, 0 ≤ op_port o ≤ 65535) ops →
  ∃ r, reg_run is_endpoint dual_queue ops registry_default = Some r ∧
    let bs := bound_by ops in
    (∀ i first dual, first ≤ 65535 →
      alloc_port_from i first dual r = default 0 (find_first (λ p, negb (overlapped dual_queue i dual bs p)) (port_order first))) ∧
    (∀ tg dst, offered (delivery_candidates is_endpoint tg dst r) ≡ₚ retain (accepted is_endpoint tg dst) (on_port (port dst) bs)) ∧
    (∀ i, is_Some (endpoints r !! i) ↔ ∃ x, x ∈ bs ∧ is_endpoint (snd x) = true ∧ ip (fst x) = i).
Proof.
  intros Hops. destruct (reg_run_ok is_endpoint dual_queue ops Hops) as (r & E & Hr). exists r. split; [done|]. cbv zeta. split_and!.
  - intros i first dual Hf. by eapply alloc_port_spec.
  - intros tg dst. rewrite delivery_candidates_spec. apply candidates_spec. apply Hr.
  - intros i. apply endpoints_spec, Hr.
Qed.

Lemma udp_registry_refines_witness :
  let a := socket_addr UNSPECIFIED6 49152 in
  ∃ r, reg_run (λ _, false) (λ _ q, q =? 1) [RInsert a 1; RInsert (socket_addr LOCALHOST4 49153) 2; RInsert a 1; RInsert (socket_addr LOCALHOST4 49154) 3;
      RRemove (socket_addr LOCALHOST4 49153) 2; RRemove (socket_addr LOCALHOST4 49153) 2] registry_default = Some r ∧ alloc_port LOCALHOST4 false r = 49153.
Proof.
  cbv zeta. edestruct (udp_registry_refines (λ _, false) (λ _ q, q =? 1)) as (r & E & H & _); [|exists r; split; [exact E|]].
  - repeat constructor; done.
  - unfold alloc_port. rewrite H by lia. lazy. reflexivity.
Defined.

(** *** A port picked is free *)

Lemma free_overlaps dual_queue i dual bs first p : find_first (λ p, negb (overlapped dual_queue i dual bs p)) (port_order first) = Some p →
  ∀ x, x ∈ bs → port (fst x) = p → overlaps dual_queue i dual x = false.
Proof.
  intros E x Hx Hp. apply find_first_Some in E as [_ E%negb_true_iff]. destruct (overlaps dual_queue i dual x) eqn:Eo; [|done].
  assert (overlapped dual_queue i dual bs p = true) as E' by (apply overlapped_spec; by exists x). congruence.
Qed.

(** Nothing collides where nothing overlaps. *)
Lemma no_overlap_no_conflict (dual_queue : SocketAddr → queue → bool) os held want q : cl_dual held = dual_queue (cl_addr held) q →
  (port (cl_addr held) = port (cl_addr want) → overlaps dual_queue (ip (cl_addr want)) (cl_dual want) (cl_addr held, q) = false) → bind_conflict os held want = false.
Proof.
  intros Ed Ho. unfold bind_conflict. destruct (_ || _); [done|]. apply not_true_iff_false. intros (h & Hh & H)%existsb_exists. apply existsb_exists in H as (w & Hw & H).
  destruct (negb (port h =? port w) || xorb (is_ipv4 (ip h)) (is_ipv4 (ip w))) eqn:E; [done|]. apply orb_false_iff in E as [Ep%negb_false_iff%Z.eqb_eq Ef%xorb_eq].
  assert (port h = port (cl_addr held)) as Eh by (destruct Hh as [<-|Hh]; [done|]; destruct (cl_dual held); [|done]; destruct Hh as [<-|[]]; done).
  assert (port w = port (cl_addr want)) as Ew by (destruct Hw as [<-|Hw]; [done|]; destruct (cl_dual want); [|done]; destruct Hw as [<-|[]]; done).
  specialize (Ho ltac:(congruence)). unfold overlaps in Ho. apply orb_false_iff in Ho as [[Hd Hov]%orb_false_iff Hv]. unfold claim_held in Hh, Hw. rewrite Hd in Hw. cbn [In] in Hh, Hw.
  destruct Hw as [<-|[]]. cbn [fst snd] in *. rewrite <- Ed in Hv. destruct Hh as [<-|Hh].
  - rewrite Ef, eqb_reflx in Hov. cbn [andb] in Hov. apply orb_false_iff in Hov as [[H1 H2]%orb_false_iff H3]. rewrite H1, H2, H3 in H. done.
  - destruct (cl_dual held); [|done]. destruct Hh as [<-|[]]. cbn in Ef. rewrite <- Ef in Hv. done.
Qed.

(** Only the address and the port of a claim matter. *)
Lemma bind_conflict_at os held want a : ip (cl_addr held) = ip a → port (cl_addr held) = port a →
  bind_conflict os held want = bind_conflict os (mk_claim a (cl_dual held) (cl_inet held) (cl_reuse held) (cl_reuseport held) (cl_listening held) (cl_station held)) want.
Proof. intros Hi Hp. unfold bind_conflict, claim_held. cbn [cl_addr cl_dual cl_inet cl_reuse cl_reuseport cl_listening cl_station existsb]. by rewrite Hi, Hp. Qed.

(** C22: a port picked for an address out of a registry is free there: whatever the options of the sockets and the host system, binding it collides
    ([bind_conflict]) with the claim of no datagram socket in the registry that is where its bind put it, or was bound by a send or a connect; a socket that a
    connect has since moved claims another address than the one the registry has it at, and is left out. A
    socket claims both families as the registry counts it, which depends on its address alone and not on its port ([dual_at]). *)
Theorem picked_port_never_conflicts (is_endpoint : queue → bool) (dual_queue : SocketAddr → queue → bool) ops r os i first local requested held want q :
  Forall (λ o, 0 ≤ op_port o ≤ 65535) ops → first ≤ 65535 → reg_run is_endpoint dual_queue ops registry_default = Some r →
  (∀ a b q, ip a = ip b → dual_queue a q = dual_queue b q) →
  (local, q) ∈ bound_by ops → (∀ a, requested = Some a → ip a = ip local) →
  cl_addr held = dgram_claim local requested → cl_dual held = dual_queue (cl_addr held) q →
  let p := alloc_port_from i first (cl_dual want) r in
  p ≠ 0 → cl_addr want = socket_addr i p → bind_conflict os held want = false.
Proof.
  intros Hops Hf Er Hdual Hh Hq Hc Hd p Hp Hw. destruct (reg_run_ok is_endpoint dual_queue ops Hops) as (r' & E & Hr). rewrite Er in E. injection E as <-.
  assert (ip (cl_addr held) = ip local ∧ port (cl_addr held) = port local) as [Hi Hport].
  { rewrite Hc. destruct requested as [a|]; [|done]. cbn. by rewrite (Hq a eq_refl). }
  rewrite (bind_conflict_at os held want local) by done. rewrite (Hdual _ local q Hi) in Hd.
  unfold p in *. rewrite (alloc_port_spec _ _ _ _ _ _ _ Hr Hf) in Hp, Hw. destruct (find_first _ (port_order first)) as [p'|] eqn:E; [|done]. cbn [from_option id] in Hw.
  apply (no_overlap_no_conflict dual_queue os _ want q); [done|]. rewrite Hw. cbn [ip port socket_addr cl_addr]. intros Hport'. by eapply free_overlaps.
Qed.

Lemma picked_port_never_conflicts_witness :
  let held := mk_claim (socket_addr UNSPECIFIED6 49152) true false true false false false in
  let want := mk_claim (socket_addr LOCALHOST4 49153) false true false false false false in
  bind_conflict Linux held want = false ∧ bind_conflict Linux held (mk_claim (socket_addr LOCALHOST4 49152) false true false false false false) = true.
Proof.
  cbv zeta. split; [|reflexivity].
  apply (picked_port_never_conflicts (λ _, false) (λ _ q, q =? 1) [RInsert (socket_addr UNSPECIFIED6 49152) 1]
    (registry_insert (λ _, false) (λ _ q, q =? 1) (socket_addr UNSPECIFIED6 49152) 1 registry_default) Linux LOCALHOST4 49152
    (socket_addr UNSPECIFIED6 49152) (Some (socket_addr UNSPECIFIED6 0)) _ _ 1).
  - repeat constructor; done.
  - lia.
  - reflexivity.
  - done.
  - vm_compute. left.
  - by intros a [= <-].
  - reflexivity.
  - reflexivity.
  - vm_compute. done.
  - vm_compute. reflexivity.
Defined.

(** A socket bound at the wildcard that a connect moves to loopback keeps its claim on the wildcard, and the registry no longer knows it: the port it holds is
    picked for another address of the host, though binding it by name is refused. *)
Definition moved_by_connect : list reg_op :=
  [RInsert (socket_addr UNSPECIFIED4 49152) 1; RRemove (socket_addr UNSPECIFIED4 49152) 1; RInsert (socket_addr LOCALHOST4 49152) 1].
Definition other_address : IpAddr := V4 0x0a000001.
Lemma moved_socket_conflicts :
  alloc_port_from other_address 49152 false <$> reg_run (λ _, false) (λ _ _, false) moved_by_connect registry_default = Some 49152 ∧
  bind_conflict Linux (mk_claim (dgram_claim (socket_addr LOCALHOST4 49152) (Some (socket_addr UNSPECIFIED4 0))) false true false false false false)
    (mk_claim (socket_addr other_address 49152) false true false false false false) = true.
Proof. split; vm_compute; reflexivity. Qed.
