(* ===== verification/Listen.v ===== *)
(** * Who listens where

    [Listeners], [listener_for] and the backlog of a [Listener], of crates/snare/src/fabric.rs: the
    listeners by address, those on a port, the addresses testers stand at, the one a connect
    reaches, and the connections it has not accepted. A listener is known by a number, as its [Arc]
    is by its address; how it shares its address with others is read from its socket when a connect
    comes, and is an argument. *)

From S2P Require Import Prelude IpAddr Deliver DeliverProps Ports PortsProps.

(** ** [Listeners] *)

Record Listener := mk_listener { l_id : Z; l_addr : SocketAddr; l_dual : bool; tester : bool }.
#[export] Instance Listener_eq_dec : EqDecision Listener.
Proof. solve_decision. Defined.
Record Listeners := mk_listeners { by_addr : gmap SocketAddr (list Listener); testers : gmap IpAddr Z; l_ports : gmap Z (list SocketAddr) }.
Definition listeners_default : Listeners := mk_listeners ∅ ∅ ∅.

(** [forget_tester] *)
Definition forget_tester (l : Listener) (m : gmap IpAddr Z) : gmap IpAddr Z :=
  if negb (tester l) then m
  else match m !! ip (l_addr l) with
       | Some c => if c - 1 =? 0 then delete (ip (l_addr l)) m else <[ip (l_addr l) := c - 1]> m
       | None => m
       end.
(** [insert], [remove], [at], [on_port], and [station_at] of [Registries] *)
Definition listeners_insert (a : SocketAddr) (l : Listener) (s : Listeners) : Listeners :=
  let ps := if bool_decide (is_Some (by_addr s !! a)) then l_ports s
            else <[port a := default [] (l_ports s !! port a) ++ [a]]> (l_ports s) in
  let held := default [] (by_addr s !! a) in
  let '(held, ts) :=
    if tester l then ([], bump (ip (l_addr l)) (foldl (λ m x, forget_tester x m) (testers s) held)) else (held, testers s) in
  let held := if existsb (λ x, l_id x =? l_id l) held then held else held ++ [l] in
  mk_listeners (<[a := held]> (by_addr s)) ts ps.
Definition listeners_remove (l : Listener) (s : Listeners) : Listeners :=
  let a := l_addr l in
  match by_addr s !! a with
  | None => s
  | Some held =>
      match position (λ x, l_id x =? l_id l) held with
      | None => s
      | Some i =>
          let ts := match held !! i with Some x => forget_tester x (testers s) | None => testers s end in
          match delete i held with
          | [] =>
              let ps := match l_ports s !! port a with
                        | Some as_ =>
                            match retain (λ x, negb (bool_decide (x = a))) as_ with
                            | [] => delete (port a) (l_ports s)
                            | as_ => <[port a := as_]> (l_ports s)
                            end
                        | None => l_ports s
                        end in
              mk_listeners (delete a (by_addr s)) ts ps
          | held => mk_listeners (<[a := held]> (by_addr s)) ts (l_ports s)
          end
      end
  end.
Definition listeners_at (a : SocketAddr) (s : Listeners) : list Listener := default [] (by_addr s !! a).
Definition listeners_on_port (p : Z) (s : Listeners) : list Listener :=
  concat (map (λ a, listeners_at a s) (default [] (l_ports s !! p))).
Definition station_at (i : IpAddr) (r : UdpRegistry) (s : Listeners) : bool :=
  bool_decide (is_Some (endpoints r !! i)) || bool_decide (is_Some (testers s !! i)).

(** ** [listener_for] *)

Section listener_for.
Context (os : target_os) (share_of : Listener → Share) (seed : Z).

(** One of the listeners of an address; the outer [None] an index out of range *)
Definition pick_listener (held : list Listener) (client server : SocketAddr) : option (option Listener) :=
  match held with
  | [] => Some None
  | [l] => Some (Some l)
  | l :: _ =>
      i ← pick_shared os (share_of <$> held) (is_unspecified (ip (l_addr l))) client server seed;
      x ← held !! i;
      Some (Some x)
  end.
Definition listener_for (server : SocketAddr) (host_local : bool) (client : SocketAddr) (s : Listeners) : option (option Listener) :=
  let at_ i := listeners_at (socket_addr i (port server)) s in
  exact ← pick_listener (at_ (ip server)) client server;
  match exact with
  | Some l => Some (Some l)
  | None =>
      if negb host_local then Some None
      else
        wild ← pick_listener (at_ (unspecified_like (ip server))) client server;
        match wild with
        | Some l => Some (Some l)
        | None => pick_listener (retain (λ l, is_ipv4 (ip server) && l_dual l) (at_ UNSPECIFIED6)) client server
        end
  end.
End listener_for.

(** ** The backlog of a [Listener] *)

Record Backlog := mk_backlog { pending : list Z; occupied : Z; capacity : Z; arrivals : Z }.
(** The capacity [listen] gives *)
Definition listen_capacity (os : target_os) (backlog maximum : Z) : Z :=
  if is_linux os then sat_add (if backlog <? 0 then maximum else Z.min backlog maximum) 1
  else if backlog <=? 0 then maximum
  else Z.min backlog maximum.
(** [try_accept], [has_pending], [reserve] ([None] a full backlog), [queue] and the drop of a [ListenerAdmission] *)
Definition try_accept (b : Backlog) : option (Z * Backlog) :=
  match pending b with
  | [] => None
  | c :: l => Some (c, mk_backlog l (occupied b - 1) (capacity b) (arrivals b))
  end.
Definition has_pending (b : Backlog) : bool := match pending b with [] => false | _ => true end.
Definition reserve (b : Backlog) : option Backlog :=
  if capacity b <=? occupied b then None else Some (mk_backlog (pending b) (occupied b + 1) (capacity b) (arrivals b)).
Definition queue_conn (c : Z) (b : Backlog) : Backlog := mk_backlog (pending b ++ [c]) (occupied b) (capacity b) (wrap_u64 (arrivals b + 1)).
Definition forgo (b : Backlog) : Backlog := mk_backlog (pending b) (occupied b - 1) (capacity b) (arrivals b).
Definition listen_again (n : Z) (b : Backlog) : Backlog := mk_backlog (pending b) (occupied b) n (arrivals b).

(** ** The tables are those of the list of listeners *)

Lemma delete_retain {A} `{EqDecision A} (l : list A) i x : NoDup l → l !! i = Some x → delete i l = retain (λ y, negb (bool_decide (y = x))) l.
Proof.
  revert i. induction l as [|y l IH]; intros [|i] Hn E; try done; cbn in *; apply NoDup_cons in Hn as [Hy Hn].
  - injection E as ->. rewrite bool_decide_eq_true_2 by done. cbn. symmetry. apply retain_all. intros z Hz. rewrite bool_decide_eq_false_2; [done|]. by intros ->.
  - rewrite bool_decide_eq_false_2; [cbn; f_equal; by apply IH|]. intros ->. apply Hy. by eapply list_elem_of_lookup_2.
Qed.
Lemma retain_comm {A} (p q : A → bool) l : retain p (retain q l) = retain q (retain p l).
Proof. induction l as [|x l IH]; [done|]. cbn. destruct (q x) eqn:Eq, (p x) eqn:Ep; cbn; rewrite ?Eq, ?Ep, IH; done. Qed.
Lemma retain_split {A} (p : A → bool) l : l ≡ₚ retain p l ++ retain (λ x, negb (p x)) l.
Proof. induction l as [|x l IH]; [done|]. cbn. destruct (p x); cbn; [by constructor|]. rewrite <- Permutation_middle. by constructor. Qed.
Lemma retain_ext {A} (p q : A → bool) l : (∀ x, x ∈ l → p x = q x) → retain p l = retain q l.
Proof. induction l as [|x l IH]; intros H; [done|]. cbn. rewrite (H x) by (by left). rewrite IH; [done|]. intros y Hy. apply H. by right. Qed.
Lemma NoDup_retain {A} (p : A → bool) l : NoDup l → NoDup (retain p l).
Proof. induction 1 as [|x l Hx _ IH]; cbn; [constructor|]. destruct (p x); [|done]. constructor; [|done]. by rewrite elem_of_retain; intros [? _]. Qed.

Definition nonempty {A} (l : list A) : option (list A) := match l with [] => None | _ => Some l end.
Definition at_addr (a : SocketAddr) (ls : list Listener) : list Listener := retain (λ l, bool_decide (l_addr l = a)) ls.
Definition key_tester (l : Listener) : option IpAddr := if tester l then Some (ip (l_addr l)) else None.

Definition ports_of (ls : list Listener) (m : gmap Z (list SocketAddr)) : Prop := ∀ p, (NoDup (default [] (m !! p))) ∧
  ∀ a, a ∈ default [] (m !! p) ↔ port a = p ∧ ∃ l, l ∈ ls ∧ l_addr l = a.
Record listeners_ok (ls : list Listener) (s : Listeners) : Prop := mk_listeners_ok {
  lo_nodup : NoDup ls;
  lo_addr : ∀ a, by_addr s !! a = nonempty (at_addr a ls);
  lo_testers : tallied key_tester ls (testers s);
  lo_ports : ports_of ls (l_ports s) }.

Lemma listeners_at_ok ls s a : listeners_ok ls s → listeners_at a s = at_addr a ls.
Proof. intros H. unfold listeners_at. rewrite (lo_addr _ _ H). by destruct (at_addr a ls). Qed.
Lemma elem_of_at a ls l : l ∈ at_addr a ls ↔ l ∈ ls ∧ l_addr l = a.
Proof. unfold at_addr. by rewrite elem_of_retain, bool_decide_eq_true. Qed.
Lemma at_addr_nil a ls : at_addr a ls = [] ↔ ∀ l, l ∈ ls → l_addr l ≠ a.
Proof.
  split; [intros E l Hl Ha; assert (l ∈ at_addr a ls) as H by (by apply elem_of_at); rewrite E in H; by apply elem_of_nil in H|].
  intros H. apply retain_none. intros l Hl. by apply bool_decide_eq_false, H.
Qed.

Lemma forget_ok x ls m : tallied key_tester (x :: ls) m → tallied key_tester ls (forget_tester x m).
Proof.
  intros H. unfold forget_tester. assert (key_tester x = if tester x then Some (ip (l_addr x)) else None) as Ek by reflexivity.
  destruct (tester x); cbn [negb]; [|by eapply tallied_stay]. destruct (tallied_pop _ _ _ _ _ H Ek) as (m' & E & Hm'). unfold unbump in E.
  destruct (m !! _) as [c|]; [|done]. cbn in E. injection E as _ <-. done.
Qed.
Lemma forget_all held ls m : tallied key_tester (held ++ ls) m → tallied key_tester ls (foldl (λ m x, forget_tester x m) m held).
Proof. revert m. induction held as [|x held IH]; intros m H; [done|]. cbn. by apply IH, forget_ok. Qed.

(** The listeners there are after [insert] of [l] at its address, and after [remove] *)
Definition others (a : SocketAddr) (ls : list Listener) : list Listener := retain (λ x, negb (bool_decide (l_addr x = a))) ls.
Definition listening_after (l : Listener) (ls : list Listener) : list Listener :=
  let base := if tester l then others (l_addr l) ls else ls in
  if existsb (λ x, l_id x =? l_id l) (at_addr (l_addr l) base) then base else base ++ [l].
Definition unlistened (l : Listener) (ls : list Listener) : list Listener := retain (λ x, negb (bool_decide (x = l))) ls.

Lemma at_others_same a ls : at_addr a (others a ls) = [].
Proof. apply at_addr_nil. intros l [_ H]%elem_of_retain. by apply negb_true_iff, bool_decide_eq_false in H. Qed.
Lemma at_others a b ls : b ≠ a → at_addr b (others a ls) = at_addr b ls.
Proof.
  intros Hb. unfold at_addr, others. rewrite retain_comm. apply retain_all. intros l [_ H%bool_decide_eq_true]%elem_of_retain.
  rewrite bool_decide_eq_false_2; [done|]. congruence.
Qed.
Lemma at_snoc a l ls : at_addr a (ls ++ [l]) = at_addr a ls ++ if bool_decide (l_addr l = a) then [l] else [].
Proof. unfold at_addr. rewrite retain_app. cbn. by case_bool_decide. Qed.
Lemma nonempty_snoc {A} (l : list A) x : nonempty (l ++ [x]) = Some (l ++ [x]).
Proof. by destruct l. Qed.

(** The addresses at a port, one listened on more *)
Lemma ports_push ls s l : listeners_ok ls s → ports_of (l :: ls)
  (if bool_decide (is_Some (by_addr s !! l_addr l)) then l_ports s else <[port (l_addr l) := default [] (l_ports s !! port (l_addr l)) ++ [l_addr l]]> (l_ports s)).
Proof.
  intros [H1 H2 H3 H4] p. destruct (H4 p) as [N E]. rewrite H2. case_bool_decide as Eb.
  - split; [done|]. intros a. rewrite E. split; [intros (? & x & ? & ?); split; [done|]; exists x; split; [by right|done]|].
    intros (Hp & x & [->|Hx]%elem_of_cons & <-); (split; [done|]); [|by exists x]. destruct (at_addr (l_addr l) ls) as [|y k] eqn:Ea; [by destruct Eb|].
    assert (y ∈ at_addr (l_addr l) ls) as [? ?]%elem_of_at by (rewrite Ea; by left). by exists y.
  - assert (at_addr (l_addr l) ls = []) as En by (destruct (at_addr (l_addr l) ls); [done|by destruct Eb]). rewrite at_addr_nil in En.
    destruct (decide (port (l_addr l) = p)) as [<-|Hp].
    + rewrite lookup_insert_eq. cbn. split.
      * apply NoDup_app. split_and!; [done| |apply NoDup_singleton]. intros a (Ha & x & Hx & Hxa)%E Hl%list_elem_of_singleton. apply (En x); congruence.
      * intros a. rewrite elem_of_app, E, list_elem_of_singleton. split.
        -- intros [(? & x & ? & ?)| ->]; [split; [done|]; exists x; split; [by right|done]|]. split; [done|]. exists l. split; [by left|done].
        -- intros (Hp & x & [->|Hx]%elem_of_cons & <-); [by right|]. left. split; [done|]. by exists x.
    + rewrite lookup_insert_ne by done. split; [done|]. intros a. rewrite E. split; intros (? & x & Hx & ?); (split; [done|]); exists x; (split; [|done]).
      * by right.
      * apply elem_of_cons in Hx as [->|]; [congruence|done].
Qed.
Lemma ports_of_ext ls ls' m : (∀ a, (∃ l, l ∈ ls ∧ l_addr l = a) ↔ ∃ l, l ∈ ls' ∧ l_addr l = a) → ports_of ls m → ports_of ls' m.
Proof. intros H Hm p. destruct (Hm p) as [N E]. split; [done|]. intros a. by rewrite E, H. Qed.

Section steps.
Context (ls : list Listener) (s : Listeners) (Hs : listeners_ok ls s) (l : Listener) (Hid : ∀ x, x ∈ ls → l_id x = l_id l → x = l).

Lemma same_id_in held : (∀ x, x ∈ held → x ∈ ls) → existsb (λ x, l_id x =? l_id l) held = bool_decide (l ∈ held).
Proof.
  intros Hh. apply eq_true_iff_eq. rewrite existsb_exists, bool_decide_eq_true. split.
  - intros (x & Hx%list_elem_of_In & E%Z.eqb_eq). by rewrite <- (Hid x (Hh x Hx) E).
  - intros Hl. exists l. split; [by apply list_elem_of_In|]. apply Z.eqb_refl.
Qed.

Lemma listeners_insert_ok : listeners_ok (listening_after l ls) (listeners_insert (l_addr l) l s).
Proof.
  pose proof (ports_push ls s l Hs) as Hp. destruct Hs as [H1 H2 H3 H4]. unfold listeners_insert, listening_after.
  assert (default [] (by_addr s !! l_addr l) = at_addr (l_addr l) ls) as -> by (rewrite H2; by destruct (at_addr _ _)).
  set (ps := if bool_decide (is_Some _) then _ else _) in *. clearbody ps. destruct (tester l) eqn:Et.
  - rewrite at_others_same. cbn [existsb app]. split; cbn [by_addr testers l_ports].
    + apply NoDup_app. split_and!; [by apply NoDup_retain| |apply NoDup_singleton]. intros x [_ Hx]%elem_of_retain ->%list_elem_of_singleton. by rewrite bool_decide_eq_true_2 in Hx.
    + intros a. rewrite at_snoc. case_bool_decide as E; [subst a; by rewrite lookup_insert_eq, at_others_same|]. rewrite lookup_insert_ne by done. by rewrite H2, at_others, app_nil_r.
    + eapply tallied_perm; [apply Permutation_cons_append|]. assert (key_tester l = Some (ip (l_addr l))) as Ek by (unfold key_tester; by rewrite Et).
      assert (tallied key_tester (others (l_addr l) ls) (foldl (λ m x, forget_tester x m) (testers s) (at_addr (l_addr l) ls))) as Hf.
      { apply forget_all. eapply tallied_perm; [apply (retain_split (λ x, bool_decide (l_addr x = l_addr l)))|done]. }
      pose proof (tallied_push key_tester l _ _ Hf) as P. by rewrite Ek in P.
    + eapply ports_of_ext; [|apply Hp]. intros a. split; intros (x & Hx & Ha).
      * destruct (decide (a = l_addr l)) as [->|Hne]; [exists l; split; [apply elem_of_app; right; by left|done]|]. exists x. split; [|done]. apply elem_of_app. left.
        apply elem_of_retain. apply elem_of_cons in Hx as [->|Hx]; [congruence|]. split; [done|]. rewrite bool_decide_eq_false_2; [done|congruence].
      * exists x. split; [|done]. apply elem_of_app in Hx as [[Hx _]%elem_of_retain|Hx%list_elem_of_singleton]; [by right|subst x; by left].
  - rewrite same_id_in by (by intros x [? _]%elem_of_at). case_bool_decide as Hl.
    + split; cbn [by_addr testers l_ports]; [done| |done|].
      * intros a. destruct (decide (a = l_addr l)) as [->|]; [|by rewrite lookup_insert_ne]. rewrite lookup_insert_eq. by destruct (at_addr _ _); [apply elem_of_nil in Hl|].
      * apply elem_of_at in Hl as [Hl _]. eapply ports_of_ext; [|apply Hp]. intros a. split; intros (x & Hx & Ha); exists x; (split; [|done]); [|by right]. by apply elem_of_cons in Hx as [->|].
    + assert (l ∉ ls) as Hn by (intros Hin; by apply Hl, elem_of_at). split; cbn [by_addr testers l_ports].
      * apply NoDup_app. split_and!; [done| |apply NoDup_singleton]. by intros x Hx ->%list_elem_of_singleton.
      * intros a. rewrite at_snoc. case_bool_decide as E; [subst a; by rewrite lookup_insert_eq, nonempty_snoc|]. by rewrite lookup_insert_ne, app_nil_r by done.
      * eapply tallied_perm; [apply Permutation_cons_append|]. pose proof (tallied_push key_tester l _ _ H3) as P. unfold key_tester in P at 2. by rewrite Et in P.
      * eapply ports_of_ext; [|apply Hp]. intros a. split; intros (x & Hx & Ha); exists x; (split; [|done]); rewrite elem_of_app, list_elem_of_singleton, elem_of_cons in *; naive_solver.
Qed.

Lemma at_unlistened a : at_addr a (unlistened l ls) = if bool_decide (l_addr l = a) then retain (λ x, negb (bool_decide (x = l))) (at_addr a ls) else at_addr a ls.
Proof.
  unfold at_addr, unlistened. rewrite retain_comm. case_bool_decide as E; [done|]. apply retain_all. intros x [_ Hx%bool_decide_eq_true]%elem_of_retain.
  rewrite bool_decide_eq_false_2; [done|congruence].
Qed.
Lemma elem_of_unlistened x : x ∈ unlistened l ls ↔ x ∈ ls ∧ x ≠ l.
Proof. unfold unlistened. by rewrite elem_of_retain, negb_true_iff, bool_decide_eq_false. Qed.

(** The addresses at a port, when the last listener of one has left *)
Lemma ports_pop : at_addr (l_addr l) (unlistened l ls) = [] → ports_of (unlistened l ls)
  match l_ports s !! port (l_addr l) with
  | Some as_ => match retain (λ x, negb (bool_decide (x = l_addr l))) as_ with [] => delete (port (l_addr l)) (l_ports s) | as_ => <[port (l_addr l) := as_]> (l_ports s) end
  | None => l_ports s
  end.
Proof.
  intros Hn p. rewrite at_addr_nil in Hn. destruct (lo_ports _ _ Hs p) as [N E].
  assert (∀ a, (∃ x, x ∈ unlistened l ls ∧ l_addr x = a) ↔ (∃ x, x ∈ ls ∧ l_addr x = a) ∧ a ≠ l_addr l) as Ha.
  { intros a. split.
    - intros (x & Hx & <-). split; [exists x; by apply elem_of_unlistened in Hx as [? _]|]. by apply Hn.
    - intros [(x & Hx & <-) Hne]. exists x. split; [|done]. apply elem_of_unlistened. split; [done|]. by intros ->. }
  destruct (decide (p = port (l_addr l))) as [->|Hp].
  - assert (default [] (match l_ports s !! port (l_addr l) with
      | Some as_ => match retain (λ x, negb (bool_decide (x = l_addr l))) as_ with [] => delete (port (l_addr l)) (l_ports s) | as_ => <[port (l_addr l) := as_]> (l_ports s) end
      | None => l_ports s end !! port (l_addr l)) = retain (λ x, negb (bool_decide (x = l_addr l))) (default [] (l_ports s !! port (l_addr l)))) as ->.
    { destruct (l_ports s !! port (l_addr l)) as [k|] eqn:Ek; cbn; [|by rewrite Ek]. destruct (retain _ k); [by rewrite lookup_delete_eq|by rewrite lookup_insert_eq]. }
    split; [by apply NoDup_retain|]. intros a. rewrite elem_of_retain, negb_true_iff, bool_decide_eq_false, E, Ha. naive_solver.
  - assert (default [] (match l_ports s !! port (l_addr l) with
      | Some as_ => match retain (λ x, negb (bool_decide (x = l_addr l))) as_ with [] => delete (port (l_addr l)) (l_ports s) | as_ => <[port (l_addr l) := as_]> (l_ports s) end
      | None => l_ports s end !! p) = default [] (l_ports s !! p)) as ->.
    { destruct (l_ports s !! port (l_addr l)) as [k|]; [|done]. destruct (retain _ k); [by rewrite lookup_delete_ne|by rewrite lookup_insert_ne]. }
    split; [done|]. intros a. rewrite E, Ha. split; [|naive_solver]. intros [<- ?]. split; [done|]. split; [done|]. congruence.
Qed.

Lemma listeners_remove_ok : listeners_ok (unlistened l ls) (listeners_remove l s).
Proof.
  destruct Hs as [H1 H2 H3 H4]. unfold listeners_remove. destruct (decide (l ∈ ls)) as [Hl|Hl].
  2: { assert (unlistened l ls = ls) as ->.
    { apply retain_all. intros x Hx. rewrite bool_decide_eq_false_2; [done|]. by intros ->. }
    destruct (by_addr s !! l_addr l) as [held|] eqn:E; [|done]. destruct (position _ held) as [i|] eqn:Ei; [|done]. exfalso. apply position_Some in Ei as (x & Hx%list_elem_of_lookup_2 & Ex%Z.eqb_eq).
    rewrite H2 in E. destruct (at_addr (l_addr l) ls) as [|y k] eqn:Ea; [done|]. injection E as <-. rewrite <- Ea in Hx. apply elem_of_at in Hx as [Hx _]. rewrite (Hid x Hx Ex) in Hx. done. }
  assert (l ∈ at_addr (l_addr l) ls) as Hin by (by apply elem_of_at). rewrite H2. assert (nonempty (at_addr (l_addr l) ls) = Some (at_addr (l_addr l) ls)) as -> by (destruct (at_addr _ _); [by apply elem_of_nil in Hin|done]).
  set (held := at_addr (l_addr l) ls) in *. destruct (position (λ x, l_id x =? l_id l) held) as [i|] eqn:Ei.
  2: { pose proof (position_None _ _ Ei l Hin) as H. cbn in H. lia. }
  apply position_Some in Ei as (x & Hx & Ex%Z.eqb_eq). assert (x = l) as ->.
  { apply Hid; [|done]. apply list_elem_of_lookup_2 in Hx. by apply elem_of_at in Hx as [? _]. }
  rewrite Hx, (delete_retain held i l (NoDup_retain _ _ H1) Hx).
  pose proof (at_unlistened (l_addr l)) as Eu. rewrite bool_decide_eq_true_2 in Eu by done. fold held in Eu. rewrite <- Eu.
  assert (tallied key_tester (unlistened l ls) (forget_tester l (testers s))) as T by (by eapply forget_ok, tallied_perm; [apply retain_one|]).
  assert (∀ a, a ≠ l_addr l → by_addr s !! a = nonempty (at_addr a (unlistened l ls))) as Hne by (intros a Ha; by rewrite H2, at_unlistened, bool_decide_eq_false_2).
  assert (NoDup (unlistened l ls)) as N by (by apply NoDup_retain). destruct (at_addr (l_addr l) (unlistened l ls)) as [|y k] eqn:Ea.
  - split; cbn [by_addr testers l_ports]; [done| |done|by apply ports_pop].
    intros a. destruct (decide (a = l_addr l)) as [->|]; [by rewrite lookup_delete_eq, Ea|rewrite lookup_delete_ne by done; auto].
  - split; cbn [by_addr testers l_ports]; [done| |done|].
    + intros a. destruct (decide (a = l_addr l)) as [->|]; [by rewrite lookup_insert_eq, Ea|rewrite lookup_insert_ne by done; auto].
    + eapply ports_of_ext; [|done]. intros a. split; intros (x & Hx' & Ha); [|exists x; by apply elem_of_unlistened in Hx' as [? _]].
      destruct (decide (x = l)) as [->|]; [|exists x; split; [by apply elem_of_unlistened|done]]. exists y.
      assert (y ∈ at_addr (l_addr l) (unlistened l ls)) as [? ?]%elem_of_at by (rewrite Ea; by left). split; [done|congruence].
Qed.
End steps.

(** ** Through any run *)

Lemma retain_or {A} (p q : A → bool) l : (∀ x, x ∈ l → p x = true → q x = false) → retain (λ x, p x || q x) l ≡ₚ retain p l ++ retain q l.
Proof.
  induction l as [|x l IH]; intros H; [done|]. cbn. specialize (IH ltac:(intros y Hy; apply H; by right)). pose proof (H x ltac:(by left)) as Hx.
  destruct (p x); cbn; [rewrite Hx by done; by constructor|]. destruct (q x); [|done]. rewrite <- Permutation_middle. by constructor.
Qed.
Lemma at_all (addrs : list SocketAddr) ls : NoDup addrs → concat (map (λ a, at_addr a ls) addrs) ≡ₚ retain (λ l, bool_decide (l_addr l ∈ addrs)) ls.
Proof.
  induction 1 as [|a addrs Ha _ IH]; cbn [map concat].
  - rewrite retain_none; [done|]. intros l _. apply bool_decide_eq_false. set_solver.
  - rewrite IH. unfold at_addr. rewrite <- retain_or.
    + apply reflexive_eq, retain_ext. intros l _. rewrite <- bool_decide_or. apply bool_decide_ext. rewrite elem_of_cons. naive_solver.
    + intros l _ E%bool_decide_eq_true. apply bool_decide_eq_false. by rewrite E.
Qed.
Lemma on_port_ok ls s p : listeners_ok ls s → listeners_on_port p s ≡ₚ retain (λ l, port (l_addr l) =? p) ls.
Proof.
  intros Hs. unfold listeners_on_port. destruct (lo_ports _ _ Hs p) as [N E]. rewrite (map_ext _ (λ a, at_addr a ls)) by (intros a; by apply listeners_at_ok). rewrite at_all by done.
  apply reflexive_eq, retain_ext. intros l Hl. apply eq_true_iff_eq. rewrite bool_decide_eq_true, E, Z.eqb_eq. naive_solver.
Qed.
Lemma tester_ok ls s i : listeners_ok ls s → is_Some (testers s !! i) ↔ ∃ l, l ∈ ls ∧ tester l = true ∧ ip (l_addr l) = i.
Proof.
  intros Hs. rewrite (tallied_elem _ _ _ _ (lo_testers _ _ Hs)). assert (∀ x, key_tester x = Some i ↔ tester x = true ∧ ip (l_addr x) = i) as Hk.
  { intros x. unfold key_tester. destruct (tester x); naive_solver. }
  split; intros (x & Hx & H); exists x; (split; [done|]); by apply Hk.
Qed.

Inductive lis_op := Listen (l : Listener) | Unlisten (l : Listener).
Definition op_listener (o : lis_op) : Listener := match o with Listen l | Unlisten l => l end.
Definition lis_call (s : Listeners) (o : lis_op) : Listeners := match o with Listen l => listeners_insert (l_addr l) l s | Unlisten l => listeners_remove l s end.
Definition listening (ls : list Listener) (o : lis_op) : list Listener := match o with Listen l => listening_after l ls | Unlisten l => unlistened l ls end.
(** A number stands for one listener. *)
Definition one_each (us : list Listener) : Prop := Forall (λ x, Forall (λ y, l_id x = l_id y → x = y) us) us.

Lemma listening_from (us ls : list Listener) o : (∀ x, x ∈ ls → x ∈ us) → op_listener o ∈ us → ∀ x, x ∈ listening ls o → x ∈ us.
Proof.
  intros Hls Ho x. destruct o as [l|l]; cbn in *.
  - unfold listening_after. set (base := if tester l then others (l_addr l) ls else ls). assert (∀ y, y ∈ base → y ∈ us) as Hb.
    { intros y. unfold base. destruct (tester l); [|auto]. intros [? _]%elem_of_retain. auto. }
    destruct (existsb _ _); [auto|]. rewrite elem_of_app, list_elem_of_singleton. intros [?| ->]; auto.
  - unfold unlistened. intros [? _]%elem_of_retain. auto.
Qed.
Lemma lis_run_ok ops : one_each (op_listener <$> ops) → listeners_ok (foldl listening [] ops) (foldl lis_call listeners_default ops).
Proof.
  unfold one_each. intros Hu. assert (∀ o, o ∈ ops → op_listener o ∈ op_listener <$> ops) as Hin by (intros o Ho; by apply list_elem_of_fmap_2).
  revert Hu Hin. generalize (op_listener <$> ops) as us. intros us Hu.
  assert (listeners_ok [] listeners_default) as H0 by (split; [constructor|done|apply tallied_empty|intros p; split; [constructor|intros a; cbn; set_solver]]).
  assert (∀ x, x ∈ ([] : list Listener) → x ∈ us) as Hls by (intros x Hx; by apply elem_of_nil in Hx).
  revert H0 Hls. generalize listeners_default as s. generalize ([] : list Listener) as ls. induction ops as [|o ops IH]; intros ls s H0 Hls Hin; [done|]. cbn.
  assert (op_listener o ∈ us) as Ho by (apply Hin; by left). assert (∀ x, x ∈ ls → l_id x = l_id (op_listener o) → x = op_listener o) as Hid.
  { intros x Hx. rewrite list.Forall_forall in Hu. specialize (Hu x (Hls x Hx)). rewrite list.Forall_forall in Hu. auto. }
  apply IH; [|by eapply listening_from|intros o' Ho'; apply Hin; by right]. destruct o as [l|l]; cbn in *; [by apply listeners_insert_ok|by apply listeners_remove_ok].
Qed.

(** ** Which listener a connect reaches *)

(** Where a listener comes for a connect to [server], if at all: listening on the address itself, on the wildcard of its family, or dual-stack on the IPv6 one *)
Definition reach (server : SocketAddr) (host_local : bool) (l : Listener) : option Z :=
  let at_ i := bool_decide (l_addr l = socket_addr i (port server)) in
  if at_ (ip server) then Some 0
  else if host_local && at_ (unspecified_like (ip server)) then Some 1
  else if host_local && is_ipv4 (ip server) && l_dual l && at_ UNSPECIFIED6 then Some 2
  else None.

Section picked.
Context (os : target_os) (share_of : Listener → Share) (seed : Z).

Lemma pick_listener_spec held client server : ∃ o, pick_listener os share_of seed held client server = Some o ∧ match o with Some l => l ∈ held | None => held = [] end.
Proof.
  unfold pick_listener. destruct held as [|l [|l' held]]; [by eexists|eexists; split; [done|by left]|]. set (h := l :: l' :: held).
  destruct (pick_shared_range os (share_of <$> h) (is_unspecified (ip (l_addr l))) client server seed) as (i & -> & Hi); [done|]. cbn [mbind option_bind].
  rewrite length_fmap in Hi. destruct (lookup_lt_is_Some_2 h i Hi) as [x Hx]. fold h. rewrite Hx. eexists. split; [done|]. by eapply list_elem_of_lookup_2.
Qed.

Lemma reach_0 server hl l : l_addr l = socket_addr (ip server) (port server) → reach server hl l = Some 0.
Proof. intros H. unfold reach. by rewrite bool_decide_eq_true_2. Qed.
Lemma reach_inv server hl l k : reach server hl l = Some k →
  (k = 0 ∧ l_addr l = socket_addr (ip server) (port server)) ∨ (k = 1 ∧ hl = true ∧ l_addr l = socket_addr (unspecified_like (ip server)) (port server)) ∨
  (k = 2 ∧ hl = true ∧ is_ipv4 (ip server) = true ∧ l_dual l = true ∧ l_addr l = socket_addr UNSPECIFIED6 (port server)).
Proof.
  unfold reach. case_bool_decide; [intros [= <-]; by left|]. destruct hl; cbn [andb]; [|done]. case_bool_decide; [intros [= <-]; right; by left|].
  destruct (is_ipv4 (ip server)), (l_dual l); cbn [andb]; try done. case_bool_decide; [|done]. intros [= <-]. right. by right.
Qed.

Lemma listener_for_spec ls s server hl client : listeners_ok ls s → ∃ o, listener_for os share_of seed server hl client s = Some o ∧
  match o with
  | Some l => l ∈ ls ∧ ∃ k, reach server hl l = Some k ∧ ∀ l' k', l' ∈ ls → reach server hl l' = Some k' → k ≤ k'
  | None => ∀ l, l ∈ ls → reach server hl l = None
  end.
Proof.
  intros Hs. unfold listener_for. rewrite !(listeners_at_ok _ _ _ Hs).
  destruct (pick_listener_spec (at_addr (socket_addr (ip server) (port server)) ls) client server) as (o0 & -> & H0). cbn [mbind option_bind]. destruct o0 as [l|].
  { eexists. split; [done|]. apply elem_of_at in H0 as [Hl Ha]. split; [done|]. exists 0. split; [by apply reach_0|]. intros l' k' _ [[-> _]|[[-> _]|[-> _]]]%reach_inv; lia. }
  rewrite at_addr_nil in H0. destruct hl; cbn [negb].
  2: { eexists. split; [done|]. intros l Hl. destruct (reach server false l) eqn:E; [|done]. apply reach_inv in E as [[_ E]|[(_ & ? & _)|(_ & ? & _)]]; [by destruct (H0 l Hl)|done..]. }
  destruct (pick_listener_spec (at_addr (socket_addr (unspecified_like (ip server)) (port server)) ls) client server) as (o1 & -> & H1). cbn [mbind option_bind]. destruct o1 as [l|].
  { eexists. split; [done|]. apply elem_of_at in H1 as [Hl Ha]. split; [done|]. exists 1. split.
    - unfold reach. rewrite bool_decide_eq_false_2 by auto. by rewrite bool_decide_eq_true_2.
    - intros l' k' Hl' [[_ E]|[[-> _]|[-> _]]]%reach_inv; [by destruct (H0 l' Hl')|lia..]. }
  rewrite at_addr_nil in H1. edestruct pick_listener_spec as (o2 & E2 & H2). rewrite E2. exists o2. split; [done|]. destruct o2 as [l|].
  - apply elem_of_retain in H2 as [[Hl Ha]%elem_of_at [Hv Hd]%andb_true_iff]. split; [done|]. exists 2. split.
    + unfold reach. rewrite !bool_decide_eq_false_2 by auto. rewrite Hv, Hd. cbn. by rewrite bool_decide_eq_true_2.
    + intros l' k' Hl' [[_ E]|[(_ & _ & E)|[-> _]]]%reach_inv; [by destruct (H0 l' Hl')|by destruct (H1 l' Hl')|lia].
  - intros l Hl. destruct (reach server true l) eqn:E; [|done]. apply reach_inv in E as [[_ E]|[(_ & _ & E)|(_ & _ & Ev & Ed & E)]]; [by destruct (H0 l Hl)|by destruct (H1 l Hl)|].
    assert (l ∈ retain (λ l, is_ipv4 (ip server) && l_dual l) (at_addr (socket_addr UNSPECIFIED6 (port server)) ls)) as Hin.
    { apply elem_of_retain. split; [by apply elem_of_at|]. by rewrite Ev, Ed. }
    rewrite H2 in Hin. by apply elem_of_nil in Hin.
Qed.
End picked.

(** C14: after any listeners have come and gone, in any order, the tables are those of the list of them, in which a tester's takes the place of all others at its
    address: an address has its listeners in the order they listened, a port those on it at any address, an address is a station's when a tester listens there; and
    a connect reaches a listener whenever one listens where it goes, on the address itself before the wildcard of its family before a dual-stack one (the last two
    only for the host's own addresses), and none otherwise. *)
Theorem listeners_refine ops : one_each (op_listener <$> ops) →
  let ls := foldl listening [] ops in
  let s := foldl lis_call listeners_default ops in
  (∀ a, listeners_at a s = at_addr a ls) ∧
  (∀ p, listeners_on_port p s ≡ₚ retain (λ l, port (l_addr l) =? p) ls) ∧
  (∀ i, is_Some (testers s !! i) ↔ ∃ l, l ∈ ls ∧ tester l = true ∧ ip (l_addr l) = i) ∧
  ∀ os share_of seed server host_local client, ∃ o, listener_for os share_of seed server host_local client s = Some o ∧
    match o with
    | Some l => l ∈ ls ∧ ∃ k, reach server host_local l = Some k ∧ ∀ l' k', l' ∈ ls → reach server host_local l' = Some k' → k ≤ k'
    | None => ∀ l, l ∈ ls → reach server host_local l = None
    end.
Proof.
  intros Hu ls s. pose proof (lis_run_ok ops Hu) as Hs. fold ls s in Hs. split_and!.
  - intros a. by apply listeners_at_ok.
  - intros p. by apply on_port_ok.
  - intros i. by apply tester_ok.
  - intros. by apply listener_for_spec.
Qed.

Lemma listeners_refine_witness :
  let w := mk_listener 1 (socket_addr UNSPECIFIED6 80) true false in
  let t := mk_listener 2 (socket_addr (V4 0x0a000001) 80) false true in
  let ops := [Listen (mk_listener 3 (socket_addr (V4 0x0a000001) 80) false false); Listen t; Listen w; Listen w] in
  one_each (op_listener <$> ops) ∧
  (∀ p, listeners_on_port p (foldl lis_call listeners_default ops) ≡ₚ retain (λ l, port (l_addr l) =? p) [t; w]) ∧
  listener_for Linux (λ _, mk_share 0 false false None) 7 (socket_addr LOCALHOST4 80) true (socket_addr LOCALHOST4 5000) (foldl lis_call listeners_default ops) = Some (Some w).
Proof.
  cbv zeta. assert (one_each (op_listener <$> [Listen (mk_listener 3 (socket_addr (V4 0x0a000001) 80) false false); Listen (mk_listener 2 (socket_addr (V4 0x0a000001) 80) false true);
    Listen (mk_listener 1 (socket_addr UNSPECIFIED6 80) true false); Listen (mk_listener 1 (socket_addr UNSPECIFIED6 80) true false)])) as Hu.
  { unfold one_each. cbn. repeat first [apply Forall_nil_2 | apply Forall_cons; split]; done. }
  split; [exact Hu|]. split; [exact (proj1 (proj2 (listeners_refine _ Hu)))|]. vm_compute. reflexivity.
Defined.

(** ** The backlog *)

(** What happens to a listener's backlog: a SYN reserves an entry, which a connection fills or which is given up; an accept takes one; listening again sets the capacity.
    [held] are the reservations out, [took] what accepts have taken. *)
Inductive blog_op := BReserve | BAdmit (c : Z) | BForgo | BAccept | BListen (n : Z).
Record blog := mk_blog { backlog : Backlog; held_out : Z; came : list Z; took : list Z }.
Definition blog_step (x : blog) (o : blog_op) : option blog :=
  let b := backlog x in
  match o with
  | BReserve => match reserve b with Some b => Some (mk_blog b (held_out x + 1) (came x) (took x)) | None => Some x end
  | BAdmit c => if held_out x =? 0 then None else Some (mk_blog (queue_conn c b) (held_out x - 1) (came x ++ [c]) (took x))
  | BForgo => if held_out x =? 0 then None else Some (mk_blog (forgo b) (held_out x - 1) (came x) (took x))
  | BAccept => match try_accept b with Some (c, b) => Some (mk_blog b (held_out x) (came x) (took x ++ [c])) | None => Some x end
  | BListen n => Some (mk_blog (listen_again n b) (held_out x) (came x) (took x))
  end.
Definition blog_run (x : blog) (ops : list blog_op) : option blog := foldl (λ x o, x ← x; blog_step x o) (Some x) ops.
Definition blog_ok (cap : Z) (x : blog) : Prop :=
  occupied (backlog x) = Z.of_nat (length (pending (backlog x))) + held_out x ∧ 0 ≤ held_out x ∧ occupied (backlog x) ≤ cap ∧ capacity (backlog x) ≤ cap ∧
  came x = took x ++ pending (backlog x).

Lemma blog_step_ok cap x o x' : blog_ok cap x → (∀ n, o = BListen n → n ≤ cap) → blog_step x o = Some x' → blog_ok cap x'.
Proof.
  intros (H1 & H2 & H3 & H4 & H5) Hn. unfold blog_step, reserve, try_accept, queue_conn, forgo, listen_again, blog_ok in *. destruct x as [[p oc ca ar] h cm tk]; cbn in *. destruct o; cbn.
  - destruct (Z.leb_spec ca oc); intros [= <-]; cbn; [done|]. split_and!; try done; lia.
  - destruct (Z.eqb_spec h 0); intros [= <-]; cbn. rewrite length_app. cbn. split_and!; try lia. by rewrite H5, <- app_assoc.
  - destruct (Z.eqb_spec h 0); intros [= <-]; cbn. split_and!; try done; lia.
  - destruct p as [|c p]; intros [= <-]; cbn in *; [done|]. split_and!; try lia. by rewrite H5, <- app_assoc.
  - intros [= <-]; cbn. split_and!; try done; lia || auto.
Qed.

(** through any traffic to a listener, its backlog holds no more than the most it was given ([listen]), counting the entries reserved for connections on their way;
    and accepts take the connections in the order they came, each once, none lost. *)
Theorem backlog_in_order ops cap x : Forall (λ o, match o with BListen n => n ≤ cap | _ => True end) ops → 0 ≤ cap →
  blog_run (mk_blog (mk_backlog [] 0 cap 0) 0 [] []) ops = Some x →
  Z.of_nat (length (pending (backlog x))) + held_out x ≤ cap ∧ came x = took x ++ pending (backlog x).
Proof.
  intros Hops Hc. assert (blog_ok cap (mk_blog (mk_backlog [] 0 cap 0) 0 [] [])) as H0 by (by unfold blog_ok; cbn; split_and!; lia || done).
  revert H0. unfold blog_run. generalize (mk_blog (mk_backlog [] 0 cap 0) 0 [] []). induction Hops as [|o ops Ho _ IH]; intros y Hy; cbn.
  - intros [= <-]. destruct Hy as (H1 & _ & H3 & _ & H5). split; [lia|done].
  - destruct (blog_step y o) as [y'|] eqn:E; cbn; [|assert (foldl (λ x o, x ← x; blog_step x o) None ops = None) as -> by (clear; by induction ops); done].
    apply IH. eapply blog_step_ok; [done| |done]. by intros n ->.
Qed.

Lemma backlog_in_order_witness : ∃ x, blog_run (mk_blog (mk_backlog [] 0 2 0) 0 [] []) [BReserve; BAdmit 7; BReserve; BReserve; BAdmit 8; BAccept] = Some x ∧
  Z.of_nat (length (pending (backlog x))) + held_out x ≤ 2 ∧ came x = took x ++ pending (backlog x) ∧ took x = [7].
Proof.
  eexists. split; [vm_compute; reflexivity|]. split; [|split; [|reflexivity]].
  - eapply (backlog_in_order [BReserve; BAdmit 7; BReserve; BReserve; BAdmit 8; BAccept] 2); [repeat constructor|lia|vm_compute; reflexivity].
  - eapply (backlog_in_order [BReserve; BAdmit 7; BReserve; BReserve; BAdmit 8; BAccept] 2); [repeat constructor|lia|vm_compute; reflexivity].
Defined.
