(* ===== verification/Connect.v ===== *)
(** * How a connect waits

    The SYN schedule of crates/snare/src/faults.rs: how an address answers a SYN, when the SYN goes
    out again and when the host gives up ([SynPlan]), and a connect following its plan
    ([ConnectAttempt]) on Linux, macOS and Windows. Spans and instants are nanoseconds. A timer
    armed is the instant it is armed for; captures are left out. *)

From S2P Require Import Prelude IpAddr Link Netif Deliver DeliverProps Ports PortsProps Listen.

(** [Duration::from_secs], [Duration::MAX] and a saturating sum *)
Definition secs (n : Z) : Z := n * 1000000000.
Definition DURATION_MAX : Z := u64_max * 1000000000 + 999999999.
Definition later (at_ span : Z) : Z := Z.min (at_ + span) DURATION_MAX.

(** ** How an address answers *)

Inductive Behavior := Refusing | Delaying (until : Z).
Inductive Syn := Accept | Rst | Silent | Absent (on_link : bool).
#[export] Instance Syn_eq_dec : EqDecision Syn.
Proof. solve_decision. Defined.

(** [set_listener_behavior], where [None] is [Accepting], and [behavior_at] *)
Definition set_listener_behavior (addrs : list SocketAddr) (b : option Behavior) (table : gmap SocketAddr Behavior) : gmap SocketAddr Behavior :=
  foldl (λ table a, match b with None => delete a table | Some b => <[a := b]> table end) table addrs.
Definition behavior_at (dst : SocketAddr) (table : gmap SocketAddr Behavior) : option Behavior :=
  match table !! dst with
  | Some b => Some b
  | None => table !! socket_addr (unspecified_like (ip dst)) (port dst)
  end.

(** [syn_probe] *)
Definition syn_probe (os : target_os) (now : Z) (dst : SocketAddr) (listens station : bool) (table : gmap SocketAddr Behavior) (t : Topology) : Syn :=
  let answer :=
    if listens then Accept
    else let '(p, on_link) := syn_target os now (ip dst) station t in
         match p with PAbsent => Absent on_link | _ => Rst end in
  match behavior_at dst table with
  | Some Refusing => Rst
  | Some (Delaying until) => if negb (until <=? now) then Silent else answer
  | None => answer
  end.

(** The answer to a SYN that a connect sends again, the closure of [advance_connect]: what the listener it would reach answers, silence when its backlog is full,
    with the entry reserved there otherwise; [None] a panic *)
Definition syn_answer (os : target_os) (share_of : Listener → Share) (seed now : Z) (dst client : SocketAddr) (table : gmap SocketAddr Behavior) (t : Topology)
    (r : UdpRegistry) (s : Listeners) (backlog_of : Listener → Backlog) : option (Syn * option (Listener * Backlog)) :=
  let station := station_at (ip dst) r s in
  let host_local := dest_is_host os now (ip dst) station t in
  l ← listener_for os share_of seed dst host_local client s;
  let syn := syn_probe os now dst (is_some l) station table t in
  Some match syn with
       | Accept => match l ≫= λ l, (l,.) <$> reserve (backlog_of l) with Some x => (Accept, Some x) | None => (Silent, None) end
       | _ => (syn, None)
       end.

(** ** [SynPlan] *)

Record SynPlan := mk_plan { retransmits : list Z; ends_at : Z; plan_errno : errno; repeat_rto : option Z }.

Definition LINUX_RTO_INIT : Z := secs 1.
Definition LINUX_RTO_MAX : Z := secs 120.
Definition MACOS_SYN_BACKOFF : list Z := [1; 1; 1; 1; 1; 2; 4; 8; 16; 32; 64].
Definition MACOS_KEEPINIT : Z := secs 75.
Definition WINDOWS_INITIAL_RTO : Z := secs 3.
Definition WINDOWS_MAX_SYN_RETRANSMISSIONS : nat := 2.
Definition WINDOWS_REFUSED_AFTER : Z := secs 2.
Definition WINDOWS_REFUSED_RETRY : Z := 500000000.
Definition NEIGHBOUR_FAILURE (os : target_os) : option (Z * errno) := if is_linux os then Some (secs 3, EHOSTUNREACH) else None.

(** [SynPlan::doubling]: the retransmissions from [at_], and when it ends *)
Fixpoint doubling_loop (retries : nat) (at_ rto cap : Z) : list Z * Z :=
  match retries with
  | O => ([], at_ + rto)
  | S retries =>
      let at_ := at_ + rto in
      let '(l, e) := doubling_loop retries at_ (Z.min (rto * 2) cap) cap in
      (at_ :: l, e)
  end.
Definition doubling (rto cap : Z) (retries : nat) : SynPlan :=
  let '(l, e) := doubling_loop retries 0 rto cap in mk_plan l e ETIMEDOUT None.

(** [linux_plan]; the loop runs over [retry] up to the last, at which it breaks *)
Fixpoint linux_loop (turns : nat) (retry linear at_ rto limit : Z) : list Z * Z :=
  let at_ := at_ + rto in
  match turns with
  | O => ([], at_)
  | S turns =>
      if limit <=? at_ then ([], at_)
      else
        let '(l, e) := linux_loop turns (retry + 1) linear at_ (if linear <=? retry then Z.min (rto * 2) LINUX_RTO_MAX else rto) limit in
        (at_ :: l, e)
  end.
Definition linux_plan (retries linear : Z) : SynPlan :=
  let limit := ends_at (doubling LINUX_RTO_INIT LINUX_RTO_MAX (Z.to_nat retries)) in
  let '(l, e) := linux_loop (Z.to_nat (retries + linear)) 0 linear 0 LINUX_RTO_INIT limit in
  mk_plan l e ETIMEDOUT None.

(** [macos_plan]: the running sums, [take_while] short of the end *)
Fixpoint backoff_sums (at_ : Z) (l : list Z) : list Z :=
  match l with [] => [] | k :: l => (at_ + secs k) :: backoff_sums (at_ + secs k) l end.
Fixpoint take_below (e : Z) (l : list Z) : list Z :=
  match l with [] => [] | x :: l => if x <? e then x :: take_below e l else [] end.
Definition macos_plan (e : Z) : SynPlan := mk_plan (take_below e (backoff_sums 0 MACOS_SYN_BACKOFF)) e ETIMEDOUT None.

(** The Windows [base_plan] *)
Definition windows_plan (e : option Z) : SynPlan :=
  let plan := doubling WINDOWS_INITIAL_RTO DURATION_MAX WINDOWS_MAX_SYN_RETRANSMISSIONS in
  match e with
  | None => plan
  | Some e => mk_plan (retain (λ t, t <? e) (retransmits plan)) e (plan_errno plan) (if ends_at plan <? e then Some (secs 12) else repeat_rto plan)
  end.

(** The options of a socket that shape the plan: TCP_SYNCNT; TCP_CONNECTIONTIMEOUT or TCP_MAXRT *)
Record SynOpts := mk_syn_opts { syncnt : option Z; connect_ends : option Z }.
(** [base_plan], with the host's tcp_syn_retries and tcp_syn_linear_timeouts, and [syn_plan] *)
Definition base_plan (os : target_os) (tcp_syn_retries linear : Z) (o : SynOpts) : SynPlan :=
  match os with
  | Linux => linux_plan (default tcp_syn_retries (syncnt o)) linear
  | MacOs => macos_plan (default MACOS_KEEPINIT (connect_ends o))
  | Windows => windows_plan (connect_ends o)
  end.
Definition syn_plan (os : target_os) (tcp_syn_retries linear : Z) (o : SynOpts) (first : Syn) : SynPlan :=
  let plan := base_plan os tcp_syn_retries linear o in
  match first, NEIGHBOUR_FAILURE os with
  | Absent true, Some (at_, e) =>
      if at_ <? ends_at plan then mk_plan (retain (λ t, t <? at_) (retransmits plan)) at_ e (repeat_rto plan) else plan
  | _, _ => plan
  end.

(** The option that shortens it, [sockopt::set] of its own name and [sockopt::get]; [None] is a value null or too short for a [c_int] *)
Definition connect_option_set (os : target_os) (val : option Z) (o : SynOpts) : errno + SynOpts :=
  match val with
  | None => inl (if is_windows os then EFAULT else EINVAL)
  | Some v =>
      match os with
      | Linux => if (1 <=? v) && (v <=? 127) then inr (mk_syn_opts (Some v) (connect_ends o)) else inl EINVAL
      | MacOs => if v <? 0 then inl EINVAL else inr (mk_syn_opts (syncnt o) (if 0 <? v then Some (secs v) else None))
      | Windows => inr (mk_syn_opts (syncnt o) (if v =? 0 then None else if v <? 0 then Some DURATION_MAX else Some (secs v)))
      end
  end.
Definition connect_option_get (os : target_os) (tcp_syn_retries : Z) (o : SynOpts) : Z :=
  if is_linux os then default tcp_syn_retries (syncnt o)
  else match connect_ends o with None => 0 | Some d => Z.min (d / 1000000000) 2147483647 end.

(** ** [ConnectAttempt] *)

Inductive Outcome := Connected | Failed (e : errno).
#[export] Instance Outcome_eq_dec : EqDecision Outcome.
Proof. solve_decision. Defined.
Inductive Event := RefuseCheck | RefuseRetry | Retransmit | Ends.

Record Attempt := mk_attempt {
  again : list Z; a_repeat : option Z; a_ends : Z; a_errno : errno; refuse_at : option Z; refuse_retries : list Z;
  settled_at : option Z; armed : bool; timers : list Z; dynamic_timer : option Z }.

(** [react] to the answer to the SYN of [at_] *)
Definition react (os : target_os) (at_ : Z) (syn : Syn) (a : Attempt) : option Outcome * Attempt :=
  match syn with
  | Accept => (Some Connected, a)
  | Rst =>
      if is_windows os then
        (None, match refuse_at a with
               | Some _ => a
               | None =>
                   let check := later at_ WINDOWS_REFUSED_AFTER in
                   let retries := (λ k, later at_ (WINDOWS_REFUSED_RETRY * k)) <$> [1; 2; 3] in
                   mk_attempt (again a) (a_repeat a) (a_ends a) (a_errno a) (Some check) retries (settled_at a) (armed a)
                     (if armed a then timers a ++ check :: retries else timers a) (dynamic_timer a)
               end)
      else (Some (Failed ECONNREFUSED), a)
  | Silent | Absent _ => (None, a)
  end.

(** [start]: the attempt, or how the first answer settled it *)
Definition start (os : target_os) (now : Z) (plan : SynPlan) (first : Syn) : Outcome + Attempt :=
  let a := mk_attempt (later now <$> retransmits plan) (repeat_rto plan) (later now (ends_at plan)) (plan_errno plan) None [] None false [] None in
  match react os now first a with
  | (Some o, _) => inl o
  | (None, a) =>
      let points := again a ++ (if ends_at plan =? DURATION_MAX then [] else [a_ends a]) ++ option_list (refuse_at a) ++ refuse_retries a in
      inr (mk_attempt (again a) (a_repeat a) (a_ends a) (a_errno a) (refuse_at a) (refuse_retries a) (settled_at a) true points (dynamic_timer a))
  end.

(** [next]: the earliest point, the first of several at one instant *)
Definition next_point (a : Attempt) : Z * Event :=
  let points := option_list ((., RefuseCheck) <$> refuse_at a) ++ option_list ((., RefuseRetry) <$> head (refuse_retries a)) ++
                option_list ((., Retransmit) <$> head (again a)) ++ [(a_ends a, Ends)] in
  match points with
  | [] => (a_ends a, Ends)
  | x :: l => foldl (λ best y, if fst y <? fst best then y else best) x l
  end.
Definition attempt_due (now : Z) (a : Attempt) : bool := fst (next_point a) <=? now.

(** What a point does, with the answer to the SYN sent then *)
Definition pop_again (at_ : Z) (a : Attempt) : Attempt :=
  let rest := drop 1 (again a) in
  match rest, a_repeat a with
  | [], Some rto =>
      let next := later at_ rto in
      if next <? a_ends a then
        mk_attempt [next] (Some (Z.min (rto * 2) (secs 60))) (a_ends a) (a_errno a) (refuse_at a) (refuse_retries a) (settled_at a) (armed a) (timers a) (Some next)
      else mk_attempt [] (a_repeat a) (a_ends a) (a_errno a) (refuse_at a) (refuse_retries a) (settled_at a) (armed a) (timers a) (dynamic_timer a)
  | _, _ => mk_attempt rest (a_repeat a) (a_ends a) (a_errno a) (refuse_at a) (refuse_retries a) (settled_at a) (armed a) (timers a) (dynamic_timer a)
  end.
Definition play (os : target_os) (at_ : Z) (e : Event) (syn : Syn) (a : Attempt) : option Outcome * Attempt :=
  match e with
  | RefuseRetry =>
      react os at_ syn (mk_attempt (again a) (a_repeat a) (a_ends a) (a_errno a) (refuse_at a) (drop 1 (refuse_retries a)) (settled_at a) (armed a) (timers a) (dynamic_timer a))
  | RefuseCheck =>
      let a := mk_attempt (again a) (a_repeat a) (a_ends a) (a_errno a) None (refuse_retries a) (settled_at a) (armed a) (timers a) (dynamic_timer a) in
      match syn with Rst => (Some (Failed ECONNREFUSED), a) | syn => react os at_ syn a end
  | Retransmit => react os at_ syn (pop_again at_ a)
  | Ends => (Some (Failed (a_errno a)), a)
  end.
(** Settled at a point of the plan, its timers called off *)
Definition settle (at_ : Z) (a : Attempt) : Attempt :=
  mk_attempt (again a) (a_repeat a) (a_ends a) (a_errno a) (refuse_at a) (refuse_retries a) (Some at_) (armed a) [] None.

(** [poll] at [now], the answers in the order they are asked for from the [k]th; [None] when the fuel runs out *)
Fixpoint poll (fuel : nat) (os : target_os) (now : Z) (answers : nat → Syn) (k : nat) (a : Attempt) : option ((Outcome + Z) * nat * Attempt) :=
  match fuel with
  | O => None
  | S fuel =>
      let '(at_, e) := next_point a in
      if negb (at_ <=? now) then Some (inr at_, k, a)
      else
        let '(o, a') := play os at_ e (answers k) a in
        let k' := match e with Ends => k | _ => S k end in
        match o with
        | Some o => Some (inl o, k', settle at_ a')
        | None => poll fuel os now answers k' a'
        end
  end.

(** ** What is recorded of a connect *)

Inductive Fault := ConnectDelayed | ConnectRefused | ConnectTimedOut | Unreachable (e : errno).
(** [connect_settled]: whether a failure is counted, and the fault recorded *)
Definition connect_settled (dst : SocketAddr) (o : Outcome) (waited : bool) (table : gmap SocketAddr Behavior) : bool * option Fault :=
  (match o with Failed _ => true | Connected => false end,
   match o with
   | Connected => if waited then Some ConnectDelayed else None
   | Failed e =>
       if decide (e = ECONNREFUSED) then match behavior_at dst table with Some Refusing => Some ConnectRefused | _ => None end
       else if decide (e = ETIMEDOUT) then Some ConnectTimedOut
       else Some (Unreachable e)
   end).

(** ** ICMP *)

(** [icmp_to]: whether a report is queued, and whether the error is raised *)
Definition icmp_to (os : target_os) (peer : option SocketAddr) (recverr connreset : bool) (from : SocketAddr) : bool * bool :=
  match peer with
  | Some p =>
      if bool_decide (p = from) then (is_linux os && recverr, if is_linux os then true else if is_windows os then connreset else true)
      else (false, false)
  | None => (is_linux os && recverr, if is_linux os then recverr else if is_windows os then connreset else false)
  end.

(** ** Plans *)

(** The points of a plan ascend and come before its end. *)
Definition ascending (from : Z) (l : list Z) (e : Z) : Prop := StronglySorted Z.lt (from :: l) ∧ Forall (λ t, t < e) (from :: l).
(** A plan; when it is [live], one that never ends retransmits for ever. *)
Definition plan_ok (live : bool) (p : SynPlan) : Prop :=
  ascending 0 (retransmits p) (ends_at p) ∧ (∀ r, repeat_rto p = Some r → secs 12 ≤ r ≤ secs 60) ∧
  (live = true → ends_at p = DURATION_MAX → retransmits p ≠ [] ∧ is_Some (repeat_rto p)).

Lemma ascending_nil from e : from < e → ascending from [] e.
Proof. intros H. split; repeat constructor; done. Qed.
Lemma ascending_cons from x l e : from < x → ascending x l e → ascending from (x :: l) e.
Proof.
  intros Hx [Hs Hf]. split.
  - constructor; [done|]. constructor; [done|]. apply StronglySorted_inv in Hs as [_ Hs]. eapply Forall_impl; [exact Hs|]. intros y Hy. cbn in *. lia.
  - apply Forall_cons in Hf as Hf'. apply Forall_cons; split; [cbn in *; lia|done].
Qed.
Lemma ascending_retain from l e e' : ascending from l e → from < e' → e' ≤ e → ascending from (retain (λ t, t <? e') l) e'.
Proof.
  intros [Hs _] Hf He. revert from Hf Hs. induction l as [|x l IH]; intros from Hf Hs; [by apply ascending_nil|]. cbn.
  apply StronglySorted_inv in Hs as [Hs Hx]. apply Forall_cons in Hx as [Hx Hl]. destruct (Z.ltb_spec x e').
  - apply ascending_cons; [done|]. by apply IH.
  - apply IH; [done|]. apply StronglySorted_inv in Hs as [Hs Hx']. constructor; [done|]. eapply Forall_impl; [exact Hx'|]. intros y Hy. cbn in *. lia.
Qed.

Lemma doubling_ascending retries at_ rto cap : 0 < rto → 0 < cap →
  let '(l, e) := doubling_loop retries at_ rto cap in ascending at_ l e.
Proof.
  revert at_ rto. induction retries as [|n IH]; intros at_ rto Hr Hc; cbn; [apply ascending_nil; lia|].
  specialize (IH (at_ + rto) (Z.min (rto * 2) cap) ltac:(lia) Hc). destruct (doubling_loop _ _ _ _) as [l e]. apply ascending_cons; [lia|done].
Qed.
Lemma linux_ascending turns retry linear at_ rto limit : 0 < rto →
  let '(l, e) := linux_loop turns retry linear at_ rto limit in ascending at_ l e.
Proof.
  revert retry at_ rto. induction turns as [|n IH]; intros retry at_ rto Hr; cbn; [apply ascending_nil; lia|].
  destruct (limit <=? at_ + rto); [apply ascending_nil; lia|].
  specialize (IH (retry + 1) (at_ + rto) (if linear <=? retry then Z.min (rto * 2) LINUX_RTO_MAX else rto) ltac:(unfold LINUX_RTO_MAX, secs; destruct (_ <=? _); lia)).
  destruct (linux_loop _ _ _ _ _ _) as [l e]. apply ascending_cons; [lia|done].
Qed.
Lemma backoff_ascending e l from : from < e → Forall (λ k, 0 < k) l → ascending from (take_below e (backoff_sums from l)) e.
Proof.
  intros Hf Hl. revert from Hf. induction Hl as [|k l Hk _ IH]; intros from Hf; cbn; [by apply ascending_nil|]. unfold secs.
  destruct (Z.ltb_spec (from + k * 1000000000) e); [|by apply ascending_nil]. apply ascending_cons; [lia|]. by apply IH.
Qed.

(** The Linux plan is in whole seconds. *)
Lemma linux_loop_whole turns retry linear at_ rto limit : (secs 1 | at_) → (secs 1 | rto) → (secs 1 | snd (linux_loop turns retry linear at_ rto limit)).
Proof.
  revert retry at_ rto. induction turns as [|n IH]; intros retry at_ rto Ha Hr; cbn; [by apply Z.divide_add_r|]. destruct (limit <=? at_ + rto); [by apply Z.divide_add_r|].
  specialize (IH (retry + 1) (at_ + rto) (if linear <=? retry then Z.min (rto * 2) LINUX_RTO_MAX else rto)). destruct (linux_loop _ _ _ _ _ _) as [l e]. cbn in *. apply IH; [by apply Z.divide_add_r|].
  destruct (linear <=? retry); [|done]. destruct (Z.min_spec (rto * 2) LINUX_RTO_MAX) as [[_ ->]|[_ ->]]; [by apply Z.divide_mul_l|by exists 120].
Qed.

(** The options a socket may have, and those [sockopt::set] gives it on a host: only Windows has a connect that never ends. *)
Definition opts_ok (o : SynOpts) : Prop := ∀ e, connect_ends o = Some e → 0 < e.
Definition opts_settable (os : target_os) (o : SynOpts) : Prop := connect_ends o = Some DURATION_MAX → os = Windows.
Lemma base_plan_ok live os retries linear o : opts_ok o → (live = true → opts_settable os o) → plan_ok live (base_plan os retries linear o).
Proof.
  intros Ho Hs. destruct os; cbn.
  - unfold linux_plan. set (limit := ends_at _). set (n := Z.to_nat (_ + linear)). pose proof (linux_ascending n 0 linear 0 LINUX_RTO_INIT limit ltac:(done)) as H.
    pose proof (linux_loop_whole n 0 linear 0 LINUX_RTO_INIT limit (Z.divide_0_r _) ltac:(by exists 1)) as Hw. destruct (linux_loop _ _ _ _ _ _) as [l e]. split_and!; try done.
    cbn in *. intros _ ->. destruct Hw as [k Hk]. unfold DURATION_MAX, secs in Hk. lia.
  - split_and!; try done.
    + apply backoff_ascending; [|repeat constructor]. destruct (connect_ends o) as [e|] eqn:E; cbn; [by apply Ho|done].
    + cbn. intros Hl He. destruct (connect_ends o) as [e|] eqn:E; [|done]. cbn in He. subst e. by specialize (Hs Hl E).
  - unfold windows_plan. change (doubling WINDOWS_INITIAL_RTO DURATION_MAX WINDOWS_MAX_SYN_RETRANSMISSIONS) with (mk_plan [secs 3; secs 9] (secs 21) ETIMEDOUT None).
    assert (ascending 0 [secs 3; secs 9] (secs 21)) as H by (by repeat (apply ascending_cons; [done|]); apply ascending_nil).
    destruct (connect_ends o) as [e|] eqn:Eo; [|by split_and!]. cbn [retransmits ends_at plan_errno repeat_rto]. specialize (Ho e Eo).
    split_and!; cbn [retransmits ends_at plan_errno repeat_rto].
    + destruct (Z.leb_spec e (secs 21)); [by eapply ascending_retain|].
      rewrite retain_all; [|intros x Hx; destruct H as [_ H%Forall_cons]; destruct H as [_ H]; rewrite list.Forall_forall in H; specialize (H x Hx); apply Z.ltb_lt; lia].
      destruct H as [H1 H2]. split; [done|]. eapply Forall_impl; [exact H2|]. intros y Hy. cbn in *. lia.
    + by destruct (secs 21 <? e); intros r [= <-].
    + intros _ ->. split; [done|by eexists].
Qed.
Lemma syn_plan_ok live os retries linear o first : opts_ok o → (live = true → opts_settable os o) → plan_ok live (syn_plan os retries linear o first).
Proof.
  intros Ho Hl. pose proof (base_plan_ok live os retries linear o Ho Hl) as H. unfold syn_plan. destruct first as [| | |[]]; try done. unfold NEIGHBOUR_FAILURE. destruct (is_linux os); [|done].
  destruct (Z.ltb_spec (secs 3) (ends_at (base_plan os retries linear o))); [|done]. destruct H as (H1 & H2 & H3). split_and!; cbn [retransmits ends_at repeat_rto]; try done. eapply ascending_retain; [exact H1|done|lia].
Qed.

(** Without linear timeouts the Linux plan is the doubling one. *)
Lemma linux_loop_doubling n retry at_ rto limit : 0 ≤ retry → 0 < rto → snd (doubling_loop n at_ rto LINUX_RTO_MAX) = limit →
  linux_loop n retry 0 at_ rto limit = doubling_loop n at_ rto LINUX_RTO_MAX.
Proof.
  revert retry at_ rto. induction n as [|n IH]; intros retry at_ rto Hr Hp Hl; cbn in *; [done|].
  pose proof (doubling_ascending n (at_ + rto) (Z.min (rto * 2) LINUX_RTO_MAX) LINUX_RTO_MAX ltac:(unfold LINUX_RTO_MAX, secs; lia) ltac:(done)) as Ha.
  destruct (doubling_loop n (at_ + rto) _ _) as [l e] eqn:E. cbn in Hl. subst limit. destruct Ha as [_ Ha]. apply Forall_cons in Ha as [Ha _].
  destruct (Z.leb_spec e (at_ + rto)); [lia|]. destruct (Z.leb_spec 0 retry); [|lia]. rewrite IH; [by rewrite E|lia|unfold LINUX_RTO_MAX, secs; lia|by rewrite E].
Qed.
Lemma linux_plan_doubling retries : 0 ≤ retries → linux_plan retries 0 = doubling LINUX_RTO_INIT LINUX_RTO_MAX (Z.to_nat retries).
Proof.
  intros H. unfold linux_plan. rewrite Z.add_0_r, linux_loop_doubling; [done|lia|done|]. unfold doubling. by destruct (doubling_loop _ _ _ _).
Qed.

(** ** The points of an attempt *)

Section attempt.
Context (live : bool).

Lemma next_point_spec a : let '(p, e) := next_point a in
  (p ≤ a_ends a ∧ (∀ c, refuse_at a = Some c → p ≤ c) ∧ (∀ c, head (refuse_retries a) = Some c → p ≤ c) ∧ (∀ c, head (again a) = Some c → p ≤ c)) ∧
  match e with
  | RefuseCheck => refuse_at a = Some p
  | RefuseRetry => head (refuse_retries a) = Some p ∧ ∀ c, refuse_at a = Some c → p < c
  | Retransmit => head (again a) = Some p
  | Ends => p = a_ends a ∧ ∀ c, head (again a) = Some c → p < c
  end.
Proof.
  unfold next_point. destruct (refuse_at a) as [c|], (head (refuse_retries a)) as [x|], (head (again a)) as [y|]; cbn;
    repeat match goal with |- context [?u <? ?v] => lazymatch constr:((u, v)) with context [Z.ltb] => fail | _ => destruct (Z.ltb_spec u v); cbn end end;
    repeat match goal with |- _ ∧ _ => split end; try done; intros; simplify_eq; lia.
Qed.

Record attempt_ok (a : Attempt) : Prop := mk_attempt_ok {
  ao_sorted : StronglySorted Z.le (again a);
  ao_before : Forall (λ t, t ≤ a_ends a) (again a);
  ao_max : a_ends a ≤ DURATION_MAX;
  ao_repeat : ∀ r, a_repeat a = Some r → secs 12 ≤ r ≤ secs 60;
  ao_refuse : refuse_retries a = [] ∨ ∃ c, refuse_at a = Some c ∧ Forall (λ t, t < c) (refuse_retries a);
  ao_armed : armed a = true;
  ao_again : ∀ p, p ∈ again a → p ∈ timers a ∨ dynamic_timer a = Some p;
  ao_ends : a_ends a ∈ timers a ∨ a_ends a = DURATION_MAX ∧ (live = true → again a ≠ [] ∧ is_Some (a_repeat a));
  ao_check : ∀ p, refuse_at a = Some p ∨ p ∈ refuse_retries a → p ∈ timers a }.

(** How many points an attempt can still play up to [now]: each retransmission and, on Windows, the four looks a reset draws, and the retransmissions that follow the
    last one at twelve seconds or more apart *)
Definition resends (now : Z) (a : Attempt) : Z :=
  match last (again a) with
  | None => 0
  | Some p => Z.of_nat (length (again a)) + if is_some (a_repeat a) then Z.max 0 ((now - p) / secs 12 + 1) else 0
  end.
Definition looks (a : Attempt) : Z := Z.of_nat (length (refuse_retries a)) + if is_some (refuse_at a) then 1 else 0.
Definition budget (now : Z) (a : Attempt) : Z := 5 * resends now a + looks a.

Lemma resends_nonneg now a : 0 ≤ resends now a.
Proof. unfold resends. destruct (last (again a)); [|lia]. destruct (a_repeat a); cbn; lia. Qed.
Lemma looks_nonneg a : 0 ≤ looks a.
Proof. unfold looks. destruct (refuse_at a); cbn; lia. Qed.

Lemma react_ok os at_ syn a a' : attempt_ok a → at_ ≤ u64_max → react os at_ syn a = (None, a') →
  attempt_ok a' ∧ again a' = again a ∧ a_repeat a' = a_repeat a ∧ a_ends a' = a_ends a ∧ a_errno a' = a_errno a ∧
  looks a' ≤ (if is_some (refuse_at a) then looks a else Z.max 4 (looks a)).
Proof.
  intros Ha Hat E. destruct syn; cbn in E; try done; [|injection E as <-; split_and!; try done; destruct (refuse_at a); cbn; lia..].
  destruct (is_windows os); [|done]. injection E as <-. destruct (refuse_at a) as [c|] eqn:Er; [split_and!; done|].
  assert (∀ k, 0 ≤ k ≤ secs 2 → later at_ k = at_ + k) as El by (intros k Hk; unfold later, DURATION_MAX, secs in *; lia).
  rewrite !El by (unfold WINDOWS_REFUSED_AFTER, WINDOWS_REFUSED_RETRY, secs; lia). destruct Ha as [H1 H2 H3 H4 H5 H6 H7 H8 H9]. rewrite H6.
  split_and!; try done; [|unfold looks; cbn; destruct (refuse_at a); cbn; lia]. split; cbn [again a_repeat a_ends a_errno refuse_at refuse_retries armed timers dynamic_timer]; try done.
  - right. eexists. split; [done|]. unfold WINDOWS_REFUSED_AFTER, WINDOWS_REFUSED_RETRY, secs. cbn. rewrite !Forall_cons. split_and!; [lia..|constructor].
  - intros p Hp. destruct (H7 p Hp); [left|by right]. apply elem_of_app. by left.
  - destruct H8; [left|by right]. apply elem_of_app. by left.
  - intros p Hp. apply elem_of_app. right. rewrite elem_of_cons. destruct Hp as [[= <-]|Hp]; [by left|by right].
Qed.

Lemma pop_again_ok now at_ a : attempt_ok a → head (again a) = Some at_ → at_ ≤ now → now ≤ u64_max →
  attempt_ok (pop_again at_ a) ∧ resends now (pop_again at_ a) + 1 ≤ resends now a ∧ looks (pop_again at_ a) = looks a ∧
  refuse_at (pop_again at_ a) = refuse_at a ∧ a_ends (pop_again at_ a) = a_ends a ∧ a_errno (pop_again at_ a) = a_errno a.
Proof.
  intros [H1 H2 H3 H4 H5 H6 H7 H8 H9] Hh Hat Hnow. destruct (again a) as [|x rest] eqn:Ea; [done|]. injection Hh as ->.
  apply StronglySorted_inv in H1 as [H1 _]. apply Forall_cons in H2 as [Hx H2]. unfold pop_again. rewrite Ea. cbn [drop].
  unfold resends at 2. rewrite Ea.
  destruct rest as [|y rest]; [destruct (a_repeat a) as [rto|] eqn:Er|].
  - specialize (H4 rto eq_refl). destruct (Z.ltb_spec (later at_ rto) (a_ends a)) as [Hl|Hl].
    + assert (later at_ rto = at_ + rto) as E by (unfold later in *; lia). split_and!; try done; cbn.
      * split; cbn; try done; [constructor; constructor|constructor; [lia|constructor]|intros r [= <-]; unfold secs in *; lia| |].
        -- intros p Hp%list_elem_of_singleton. right. by rewrite Hp.
        -- destruct H8 as [|[? _]]; [by left|right]. by split_and!.
      * unfold resends. cbn. rewrite E. assert ((now - (at_ + rto)) / secs 12 + 1 ≤ (now - at_) / secs 12).
        { replace (now - at_) with ((now - (at_ + rto)) + rto) by lia. rewrite <- Z.div_add by done. apply Z.div_le_mono; unfold secs in *; lia. }
        assert (0 ≤ (now - at_) / secs 12) by (apply Z.div_pos; unfold secs; lia). lia.
    + split_and!; try done; cbn; [split; cbn; try done; try (by constructor); [by intros r [= <-]|intros p Hp; by apply elem_of_nil in Hp|]|].
      1: { destruct H8 as [|[E _]]; [by left|exfalso]. unfold later in Hl. rewrite E in Hl. unfold secs, DURATION_MAX in *. lia. }
      unfold resends. cbn. assert (0 ≤ (now - at_) / secs 12) by (apply Z.div_pos; unfold secs; lia). lia.
  - split_and!; try done; cbn. split; cbn; try done; try (by constructor); [intros p Hp; by apply elem_of_nil in Hp|]. destruct H8 as [|[E H8]]; [by left|right]. split; [done|]. intros Hl. destruct (H8 Hl) as [_ [? [=]]].
  - split_and!; try done; cbn; [split; cbn; try done; [intros p Hp; apply H7; by right|]; destruct H8 as [|[E H8]]; [by left|right]; split; [done|]; intros Hl; by destruct (H8 Hl)|]. unfold resends. cbn [again a_repeat]. change (last (at_ :: y :: rest)) with (last (y :: rest)).
    destruct (last (y :: rest)) eqn:El; [|by apply last_None in El]. destruct (a_repeat a); cbn [length is_some]; lia.
Qed.

Lemma play_ok os now syn a at_ e a' : attempt_ok a → next_point a = (at_, e) → at_ ≤ now → now ≤ u64_max → play os at_ e syn a = (None, a') →
  attempt_ok a' ∧ budget now a' + 1 ≤ budget now a ∧ a_ends a' = a_ends a ∧ a_errno a' = a_errno a.
Proof.
  intros Ha En Hat Hnow E. pose proof (next_point_spec a) as Hs. rewrite En in Hs. destruct Hs as [(Hp1 & Hp2 & Hp3 & Hp4) He]. pose proof (looks_nonneg a). destruct e; cbn in E.
  - set (b := mk_attempt _ _ _ _ _ _ _ _ _ _) in E. assert (attempt_ok b ∧ looks b + 1 ≤ looks a) as [Hb Hl].
    { destruct Ha as [H1 H2 H3 H4 H5 H6 H7 H8 H9]. assert (refuse_retries a = []) as Er.
      { destruct H5 as [|(c & Hc & Hf)]; [done|]. rewrite He in Hc. injection Hc as <-. destruct (refuse_retries a) as [|x l] eqn:El; [done|]. apply Forall_cons in Hf as [Hf _]. specialize (Hp3 x eq_refl). lia. }
      split; [|unfold looks, b; cbn; rewrite Er, He; cbn; lia]. split; cbn; try done; [by left|]. intros p [[=]|Hp]. apply H9. by right. }
    assert (react os at_ syn b = (None, a')) as E' by (by destruct syn). destruct (react_ok os at_ syn b a' Hb ltac:(lia) E') as (Ha' & E1 & E2 & E3 & E4 & E5).
    split_and!; try done. unfold budget, resends in *. rewrite E1, E2. cbn [again a_repeat b refuse_at is_some] in *. fold (resends now a). destruct syn; cbn in E; try done; injection E as <-; unfold b, looks in *; cbn in *; lia.
  - destruct He as [He Hc]. set (b := mk_attempt _ _ _ _ _ _ _ _ _ _) in E. assert (attempt_ok b ∧ looks b + 1 = looks a ∧ is_some (refuse_at b) = true) as (Hb & Hl & Hr).
    { destruct Ha as [H1 H2 H3 H4 H5 H6 H7 H8 H9]. destruct (refuse_retries a) as [|x l] eqn:El; [done|]. destruct H5 as [|(c & Hc' & Hf)]; [done|]. apply Forall_cons in Hf as [Hf Hf'].
      split_and!; [|unfold looks, b; cbn; rewrite El; cbn [drop length]; rewrite drop_0; lia|unfold b; cbn; by rewrite Hc'].
      split; cbn; try done; [right; by exists c|]. intros p [Hp|Hp]; [apply H9; by left|]. apply H9. right. by right. }
    destruct (react_ok os at_ syn b a' Hb ltac:(lia) E) as (Ha' & E1 & E2 & E3 & E4 & E5). rewrite Hr in E5. split_and!; try done. unfold budget, resends in *. rewrite E1, E2. cbn [again a_repeat b]. lia.
  - destruct (pop_again_ok now at_ a Ha He Hat Hnow) as (Hb & Hl & Hk & Hr & E1 & E2). destruct (react_ok os at_ syn (pop_again at_ a) a' Hb ltac:(lia) E) as (Ha' & F1 & F2 & F3 & F4 & F5).
    split_and!; [done| |congruence..]. unfold budget. assert (resends now a' = resends now (pop_again at_ a)) as -> by (unfold resends; by rewrite F1, F2).
    rewrite Hk in F5. destruct (is_some (refuse_at (pop_again at_ a))); lia.
  - done.
Qed.

(** What a poll leaves: it waits for a point still to come, for which a timer is armed, or it is settled at a point that has come. *)
Definition poll_leaves (now : Z) (a : Attempt) (r : (Outcome + Z) * nat * Attempt) : Prop :=
  let '(res, _, a') := r in
  match res with
  | inr p => attempt_ok a' ∧ a_ends a' = a_ends a ∧ a_errno a' = a_errno a ∧ now < p ≤ a_ends a ∧ (p ∈ timers a' ∨ dynamic_timer a' = Some p ∨ (p = DURATION_MAX ∧ live = false))
  | inl o => timers a' = [] ∧ dynamic_timer a' = None ∧ ∃ p, settled_at a' = Some p ∧ p ≤ now ∧ p ≤ a_ends a ∧
      (o = Connected ∨ o = Failed ECONNREFUSED ∨ (o = Failed (a_errno a) ∧ p = a_ends a))
  end.

Lemma play_some os at_ e syn a o a' : play os at_ e syn a = (Some o, a') →
  o = Connected ∨ o = Failed ECONNREFUSED ∨ (o = Failed (a_errno a) ∧ e = Ends).
Proof.
  assert (∀ b, react os at_ syn b = (Some o, a') → o = Connected ∨ o = Failed ECONNREFUSED) as Hr.
  { intros b. unfold react. destruct syn; try done; [intros [= <- _]; by left|]. destruct (is_windows os); [done|]. intros [= <- _]. by right. }
  destruct e; cbn; intros E.
  - destruct syn; cbn in E; try done; injection E as <- _; [by left|right; by left].
  - apply Hr in E as [|]; [by left|right; by left].
  - apply Hr in E as [|]; [by left|right; by left].
  - injection E as <- _. right. by right.
Qed.


Lemma poll_ok os answers now fuel k a : now ≤ u64_max → attempt_ok a → budget now a < Z.of_nat fuel →
  ∃ r, poll fuel os now answers k a = Some r ∧ poll_leaves now a r.
Proof.
  intros Hnow. revert k a. induction fuel as [|fuel IH]; intros k a Ha Hb.
  { pose proof (resends_nonneg now a). pose proof (looks_nonneg a). unfold budget in Hb. lia. }
  cbn [poll]. pose proof (next_point_spec a) as Hs. destruct (next_point a) as [at_ e] eqn:En. destruct Hs as [(Hp & _) He]. destruct (Z.leb_spec at_ now) as [Hle|Hgt]; cbn [negb].
  - destruct (play os at_ e (answers k) a) as [[o|] a'] eqn:Ep.
    + eexists. split; [done|]. cbn. split_and!; try done. exists at_. split_and!; try done. destruct (play_some _ _ _ _ _ _ _ Ep) as [|[|[? ->]]]; [by left|right; by left|]. right. right. split; [done|apply He].
    + destruct (play_ok os now _ a at_ e a' Ha En Hle Hnow Ep) as (Ha' & Hb' & E1 & E2). destruct (IH (match e with Ends => k | _ => S k end) a' Ha' ltac:(lia)) as (r & -> & Hr). exists r. split; [done|].
      destruct r as [[[o|p] k'] a2]; cbn in *; by rewrite <- E1, <- E2.
  - eexists. split; [done|]. cbn. split_and!; try done. destruct Ha as [H1 H2 H3 H4 H5 H6 H7 H8 H9]. destruct e.
    + left. apply H9. by left.
    + left. apply H9. right. destruct He as [He _]. destruct (refuse_retries a); [done|]. injection He as ->. by left.
    + destruct (again a); [done|]. injection He as ->. destruct (H7 at_ ltac:(by left)); [by left|right; by left].
    + destruct He as [-> He]. destruct H8 as [|[E H8]]; [by left|right; right]. split; [done|]. destruct live; [exfalso|done].
      destruct (H8 eq_refl) as [Hne _]. destruct (again a) as [|c l]; [done|]. specialize (He c eq_refl). apply Forall_cons in H2 as [? _]. lia.
Qed.

(** [poll] with fuel for every point that can have come *)
Definition poll_now (os : target_os) (now : Z) (answers : nat → Syn) (k : nat) (a : Attempt) : option ((Outcome + Z) * nat * Attempt) :=
  poll (S (Z.to_nat (budget now a))) os now answers k a.
(** Polls at several instants, until one settles the connect *)
Fixpoint polls (os : target_os) (answers : nat → Syn) (times : list Z) (k : nat) (a : Attempt) : option ((Outcome + unit) * nat * Attempt) :=
  match times with
  | [] => Some (inr tt, k, a)
  | t :: times =>
      '(res, k, a) ← poll_now os t answers k a;
      match res with inl o => Some (inl o, k, a) | inr _ => polls os answers times k a end
  end.

Lemma poll_now_ok os now answers k a : now ≤ u64_max → attempt_ok a → ∃ r, poll_now os now answers k a = Some r ∧ poll_leaves now a r.
Proof. intros Hn Ha. apply poll_ok; [done..|]. pose proof (resends_nonneg now a). pose proof (looks_nonneg a). unfold budget in *. lia. Qed.

Lemma polls_ok os answers times k a : Forall (λ t, t ≤ u64_max) times → attempt_ok a →
  ∃ res k' a', polls os answers times k a = Some (res, k', a') ∧ (res = inr tt → attempt_ok a' ∧ a_ends a' = a_ends a ∧ a_errno a' = a_errno a).
Proof.
  intros Ht. revert k a. induction Ht as [|t times Ht _ IH]; intros k a Ha; cbn [polls]; [by eexists _, _, _|].
  destruct (poll_now_ok os t answers k a Ht Ha) as ([[[o|p] k'] a'] & -> & Hr); cbn [mbind option_bind]; [by eexists _, _, _|]. destruct Hr as (Ha' & E1 & E2 & _).
  destruct (IH k' a' Ha') as (res & k2 & a2 & -> & H). eexists _, _, _. split; [done|]. intros Hres. destruct (H Hres) as (? & ? & ?). split_and!; congruence || done.
Qed.

(** ** Starting *)

Lemma later_mono now x y : x ≤ y → later now x ≤ later now y.
Proof. unfold later. lia. Qed.
Lemma started_again now l e : ascending 0 l e → StronglySorted Z.le (later now <$> l) ∧ Forall (λ t, t ≤ later now e) (later now <$> l).
Proof.
  intros [Hs Hf]. apply StronglySorted_inv in Hs as [Hs _]. apply Forall_cons in Hf as [_ Hf]. induction l as [|x l IH]; [repeat constructor|]. apply StronglySorted_inv in Hs as [Hs Hx].
  apply Forall_cons in Hf as [Hxe Hf]. destruct (IH Hs Hf) as [I1 I2]. cbn. split; [|constructor; [apply later_mono; lia|done]]. constructor; [done|]. apply Forall_fmap. eapply Forall_impl; [exact Hx|]. intros y Hy. cbn in *. apply later_mono. lia.
Qed.
Lemma start_ok os now plan first a : plan_ok live plan → 0 ≤ now ≤ u64_max → start os now plan first = inr a →
  attempt_ok a ∧ again a = later now <$> retransmits plan ∧ a_ends a = later now (ends_at plan) ∧ a_errno a = plan_errno plan ∧ a_repeat a = repeat_rto plan ∧
  (is_windows os = false → refuse_at a = None ∧ refuse_retries a = []).
Proof.
  intros (Hp & Hr & Hv) Hnow. destruct (started_again now _ _ Hp) as [H1 H2].
  assert (later now (ends_at plan) ∈ (if ends_at plan =? DURATION_MAX then [] else [later now (ends_at plan)]) ∨
    later now (ends_at plan) = DURATION_MAX ∧ (live = true → later now <$> retransmits plan ≠ [] ∧ is_Some (repeat_rto plan))) as He.
  { destruct (Z.eqb_spec (ends_at plan) DURATION_MAX) as [E|]; [right|left; by left]. rewrite E. split; [unfold later; lia|]. intros Hl. destruct (Hv Hl E) as [Hne ?].
    split; [|done]. by destruct (retransmits plan). }
  set (es := if ends_at plan =? DURATION_MAX then [] else [later now (ends_at plan)]) in *.
  assert (attempt_ok (mk_attempt (later now <$> retransmits plan) (repeat_rto plan) (later now (ends_at plan)) (plan_errno plan) None [] None true
    ((later now <$> retransmits plan) ++ es ++ [] ++ []) None)) as Hq.
  { split; cbn; try done; [unfold later; lia|by left| | |].
    - intros p Hp'. left. apply elem_of_app. by left.
    - destruct He; [left|by right]. rewrite !elem_of_app. right. by left.
    - intros p [[=]|Hp']. by apply elem_of_nil in Hp'. }
  unfold start. destruct first as [| | |ol]; cbn -[later]; [done| |intros [= <-]; split_and!; done..].
  destruct (is_windows os) eqn:Ew; [|done]. cbn -[later]. intros [= <-]. split_and!; try done.
  assert (∀ k, 0 ≤ k ≤ secs 2 → later now k = now + k) as El by (intros k Hk; unfold later, DURATION_MAX, secs in *; lia).
  split; cbn -[later]; try done; [unfold later; lia| | | |].
  - right. eexists. split; [done|]. rewrite !El by (unfold WINDOWS_REFUSED_AFTER, WINDOWS_REFUSED_RETRY, secs; lia). unfold WINDOWS_REFUSED_AFTER, WINDOWS_REFUSED_RETRY, secs. rewrite !Forall_cons. split_and!; [lia..|constructor].
  - intros p Hp'. left. apply elem_of_app. by left.
  - destruct He; [left|by right]. rewrite !elem_of_app. right. by left.
  - intros p Hp'. rewrite !elem_of_app. right. right. rewrite elem_of_cons. destruct Hp' as [[= <-]|Hp']; [by left|by right].
Qed.

End attempt.

(** The options a socket may set keep every plan well formed. *)
Lemma connect_option_ok os val o o' : opts_ok o → opts_settable os o → connect_option_set os val o = inr o' → opts_ok o' ∧ opts_settable os o'.
Proof.
  intros Ho Hs. destruct val as [v|]; [|done]. destruct os; cbn.
  - destruct (_ && _); [|done]. intros [= <-]. by split.
  - destruct (v <? 0); [done|]. intros [= <-]. unfold opts_ok, opts_settable. cbn. destruct (Z.ltb_spec 0 v); [|done].
    split; [intros e [= <-]; unfold secs; lia|intros [= E]; unfold secs, DURATION_MAX in E; lia].
  - intros [= <-]. split; [|done]. intros e. cbn. destruct (Z.eqb_spec v 0); [done|]. destruct (Z.ltb_spec v 0); intros [= <-]; [done|]. unfold secs. lia.
Qed.

(** ** Off Windows, a connect follows its plan *)

(** What an attempt comes to: it waits for a point, or it has settled at one. *)
Inductive verdict := Waits (p : Z) | Settles (p : Z) (o : Outcome).
(** What the retransmissions [points] still to come lead to by [now] *)
Fixpoint fate (answers : nat → Syn) (k : nat) (points : list Z) (ends : Z) (e : errno) (now : Z) : verdict :=
  match points with
  | [] => if ends <=? now then Settles ends (Failed e) else Waits ends
  | r :: points =>
      if now <? r then Waits r
      else match answers k with
           | Accept => Settles r Connected
           | Rst => Settles r (Failed ECONNREFUSED)
           | Silent | Absent _ => fate answers (S k) points ends e now
           end
  end.
Lemma fate_settled answers k points ends e now now' p o : fate answers k points ends e now = Settles p o → now ≤ now' → fate answers k points ends e now' = Settles p o.
Proof.
  intros H Hn. revert k H. induction points as [|r points IH]; intros k; cbn.
  - destruct (Z.leb_spec ends now), (Z.leb_spec ends now'); done || lia.
  - destruct (Z.ltb_spec now r), (Z.ltb_spec now' r); try (done || lia). destruct (answers k); auto.
Qed.

(** No reset is being looked into, and the last retransmission is the last. *)
Definition quiet (a : Attempt) : Prop := refuse_at a = None ∧ refuse_retries a = [] ∧ a_repeat a = None.
Lemma next_point_quiet a : attempt_ok false a → quiet a → next_point a = match again a with [] => (a_ends a, Ends) | r :: _ => (r, Retransmit) end.
Proof.
  intros [_ H _ _ _ _ _ _ _] (E1 & E2 & _). unfold next_point. rewrite E1, E2. cbn. destruct (again a) as [|r l]; cbn; [done|].
  apply Forall_cons in H as [H _]. destruct (Z.ltb_spec (a_ends a) r); [lia|done].
Qed.

(** A poll that follows the plan: it tells the fate of the plan, and an attempt that waits has the same fate ahead as before. *)
Definition fate_of (answers : nat → Syn) (k : nat) (a : Attempt) (now : Z) : verdict := fate answers k (again a) (a_ends a) (a_errno a) now.
Definition follows (now : Z) (answers : nat → Syn) (k : nat) (a : Attempt) (r : (Outcome + Z) * nat * Attempt) : Prop :=
  let '(res, k', a') := r in
  match res with
  | inl o => ∃ p, settled_at a' = Some p ∧ fate_of answers k a now = Settles p o
  | inr p => fate_of answers k a now = Waits p ∧ fst (next_point a') = p ∧ quiet a' ∧ ∀ t, now ≤ t → fate_of answers k' a' t = fate_of answers k a t
  end.
Lemma pop_again_quiet at_ a : quiet a → quiet (pop_again at_ a) ∧ again (pop_again at_ a) = drop 1 (again a).
Proof. intros (E1 & E2 & E3). unfold pop_again, quiet. rewrite E3. by destruct (drop 1 (again a)). Qed.

Lemma poll_follows os answers now fuel k a r : is_windows os = false → now ≤ u64_max → attempt_ok false a → quiet a →
  poll fuel os now answers k a = Some r → follows now answers k a r.
Proof.
  intros Hw Hnow. revert k a. induction fuel as [|fuel IH]; intros k a Ha Hq; cbn [poll]; [done|]. rewrite (next_point_quiet a Ha Hq).
  destruct (again a) as [|at_ l] eqn:Eg.
  - destruct (Z.leb_spec (a_ends a) now) as [Hle|Hgt]; cbn [negb play]; intros [= <-]; cbn.
    + eexists. split; [done|]. unfold fate_of. rewrite Eg. cbn. by apply Z.leb_le in Hle as ->.
    + unfold fate_of. rewrite (next_point_quiet a Ha Hq), Eg. cbn. apply Z.leb_gt in Hgt as ->. by split_and!.
  - destruct (Z.leb_spec at_ now) as [Hle|Hgt]; cbn [negb play].
    + destruct (pop_again_ok false now at_ a Ha ltac:(by rewrite Eg) Hle Hnow) as (Hb & _ & _ & _ & E1 & E2). destruct (pop_again_quiet at_ a Hq) as [Hq' E3]. rewrite Eg in E3. cbn [drop] in E3. rewrite drop_0 in E3.
      assert (∀ t, now ≤ t → fate_of answers k a t = match answers k with
        | Accept => Settles at_ Connected | Rst => Settles at_ (Failed ECONNREFUSED) | _ => fate_of answers (S k) (pop_again at_ a) t end) as Hf.
      { intros t Ht. unfold fate_of. rewrite Eg, E1, E2, E3. cbn. destruct (Z.ltb_spec t at_); [lia|done]. }
      destruct (answers k) eqn:Ek; cbn [react]; rewrite ?Hw; cbn [fst snd].
      1,2: intros [= <-]; eexists; split; [done|by rewrite Hf].
      all: intros E; specialize (IH _ _ Hb Hq' E); destruct r as [[[o|p] k'] a']; cbn in *; rewrite Hf by done; [done|];
        destruct IH as (I1 & I2 & I3 & I4); split_and!; try done; intros t Ht; rewrite Hf by done; by apply I4.
    + intros [= <-]. unfold follows, fate_of. rewrite (next_point_quiet a Ha Hq), Eg. cbn. apply Z.ltb_lt in Hgt as ->. by split_and!.
Qed.

Lemma polls_follow os answers times now k a : is_windows os = false → Forall (λ t, t ≤ now) times → now ≤ u64_max → attempt_ok false a → quiet a →
  ∃ res k' a', polls os answers (times ++ [now]) k a = Some (res, k', a') ∧
    match fate_of answers k a now with
    | Waits p => res = inr tt ∧ fst (next_point a') = p
    | Settles p o => res = inl o ∧ settled_at a' = Some p
    end.
Proof.
  intros Hw Ht Hn. revert k a. induction Ht as [|t times Ht _ IH]; intros k a Ha Hq; cbn [app polls].
  - destruct (poll_now_ok false os now answers k a Hn Ha) as (r & E & _). pose proof (poll_follows os answers now _ k a r Hw Hn Ha Hq E) as Hr. rewrite E. cbn [mbind option_bind].
    destruct r as [[[o|p] k'] a']; eexists _, _, _; (split; [done|]); cbn in Hr.
    + destruct Hr as (p & Hs & ->). done.
    + destruct Hr as (-> & Hs & _). done.
  - destruct (poll_now_ok false os t answers k a ltac:(lia) Ha) as (r & E & Hl). pose proof (poll_follows os answers t _ k a r Hw ltac:(lia) Ha Hq E) as Hr. rewrite E. cbn [mbind option_bind].
    destruct r as [[[o|p] k'] a']; cbn in Hr, Hl.
    + destruct Hr as (p & Hs & Hf). eexists _, _, _. split; [done|]. unfold fate_of in *. by rewrite (fate_settled _ _ _ _ _ _ now _ _ Hf Ht).
    + destruct Hr as (_ & _ & Hq' & Hsame), Hl as (Ha' & _). rewrite <- Hsame by done. by apply IH.
Qed.

Lemma base_plan_repeat os retries linear o : is_windows os = false → repeat_rto (base_plan os retries linear o) = None.
Proof. destruct os; [|done..]. intros _. cbn. unfold linux_plan. by destruct (linux_loop _ _ _ _ _ _). Qed.
Lemma syn_plan_repeat os retries linear o first : is_windows os = false → repeat_rto (syn_plan os retries linear o first) = None.
Proof.
  intros Hw. pose proof (base_plan_repeat os retries linear o Hw) as H. unfold syn_plan. destruct first as [| | |[]]; try done. destruct (NEIGHBOUR_FAILURE os) as [[at_ e]|]; [|done]. by destruct (at_ <? _).
Qed.

(** ** The contract *)

(** C23: a connect is never stuck, on any host, under any option a socket can be given. However its SYNs are answered and whenever it is polled, every poll ends; a connect
    not settled waits for an instant to come, at the latest the end of its plan, for which a timer is armed, even when its plan never ends; and once that end has
    come a poll has an outcome, and leaves no timer armed. *)
Theorem connect_never_stuck os began retries linear o first a answers times now :
  opts_ok o → opts_settable os o → 0 ≤ began ≤ u64_max → Forall (λ t, t ≤ u64_max) times → now ≤ u64_max →
  start os began (syn_plan os retries linear o first) first = inr a →
  ∃ res k a1, polls os answers times 0 a = Some (res, k, a1) ∧
    (res = inr tt → ∃ r k' a2, poll_now os now answers k a1 = Some (r, k', a2) ∧
      match r with
      | inl _ => timers a2 = [] ∧ dynamic_timer a2 = None ∧ ∃ p, settled_at a2 = Some p ∧ p ≤ now
      | inr p => now < p ≤ later began (ends_at (syn_plan os retries linear o first)) ∧ (p ∈ timers a2 ∨ dynamic_timer a2 = Some p)
      end ∧ (later began (ends_at (syn_plan os retries linear o first)) ≤ now → ∃ out, r = inl out)).
Proof.
  intros Ho Hse Hb Ht Hn Hs. destruct (start_ok true os began _ first a (syn_plan_ok true os retries linear o first Ho (λ _, Hse)) Hb Hs) as (Ha & _ & E & _).
  destruct (polls_ok true os answers times 0 a Ht Ha) as (res & k & a1 & Hp & Hres). exists res, k, a1. split; [done|]. intros ->. destruct (Hres eq_refl) as (Ha1 & E1 & _).
  destruct (poll_now_ok true os now answers k a1 Hn Ha1) as ([[r k'] a2] & Hr & Hl). exists r, k', a2. split; [done|]. destruct r as [out|p]; cbn in Hl; rewrite ?E1, ?E in Hl.
  - destruct Hl as (? & ? & p & ? & ? & _). split; [|by eexists]. split_and!; try done. by exists p.
  - destruct Hl as (_ & _ & _ & ? & Hti). split; [|lia]. split; [done|]. destruct Hti as [?|[?|[_ [=]]]]; [by left|by right].
Qed.

(** C24: off Windows a connect follows its plan. However often it is polled before, at any instant it has settled at the first
    retransmission that came and was answered, connected or refused as the answer says, or at the end of the plan with the plan's
    error, or it waits for the first point of the plan that has not come. *)
Theorem connect_follows_plan os began retries linear o first a answers times now :
  is_windows os = false → opts_ok o → 0 ≤ began ≤ u64_max → Forall (λ t, t ≤ now) times → now ≤ u64_max →
  let plan := syn_plan os retries linear o first in
  start os began plan first = inr a →
  ∃ res k a', polls os answers (times ++ [now]) 0 a = Some (res, k, a') ∧
    match fate answers 0 (later began <$> retransmits plan) (later began (ends_at plan)) (plan_errno plan) now with
    | Waits p => res = inr tt ∧ fst (next_point a') = p
    | Settles p out => res = inl out ∧ settled_at a' = Some p
    end.
Proof.
  intros Hw Ho Hb Ht Hn plan Hs. destruct (start_ok false os began _ first a (syn_plan_ok false os retries linear o first Ho ltac:(done)) Hb Hs) as (Ha & E1 & E2 & E3 & E4 & E5).
  destruct (E5 Hw) as [E6 E7]. rewrite syn_plan_repeat in E4 by done. unfold plan. rewrite <- E1, <- E2, <- E3. by apply polls_follow.
Qed.

(** A connect on Linux to a host that is silent twice and then accepts: polled late, it has connected at its third retransmission, seven seconds on. *)
Definition slow_answers (k : nat) : Syn := if decide (k < 2)%nat then Silent else Accept.
Definition no_opts : SynOpts := mk_syn_opts None None.
Definition slow_attempt (os : target_os) : Attempt :=
  match start os (secs 5) (syn_plan os 6 0 no_opts Silent) Silent with inr a => a | inl _ => mk_attempt [] None 0 EINVAL None [] None false [] None end.

(** A connect on Windows with TCP_MAXRT -1, which never gives up, to a host that never answers *)
Definition forever : SynOpts := mk_syn_opts None (Some DURATION_MAX).
Definition endless_attempt : Attempt :=
  match start Windows (secs 5) (syn_plan Windows 6 0 forever Silent) Silent with inr a => a | inl _ => mk_attempt [] None 0 EINVAL None [] None false [] None end.
Lemma connect_never_stuck_witness : ∃ res k a1, polls Windows (λ _, Silent) [secs 5; secs 6; secs 40] 0 endless_attempt = Some (res, k, a1) ∧
  (res = inr tt → ∃ r k' a2, poll_now Windows (secs 60) (λ _, Silent) k a1 = Some (r, k', a2) ∧
    match r with
    | inl _ => timers a2 = [] ∧ dynamic_timer a2 = None ∧ ∃ p, settled_at a2 = Some p ∧ p ≤ secs 60
    | inr p => secs 60 < p ≤ later (secs 5) (ends_at (syn_plan Windows 6 0 forever Silent)) ∧ (p ∈ timers a2 ∨ dynamic_timer a2 = Some p)
    end ∧ (later (secs 5) (ends_at (syn_plan Windows 6 0 forever Silent)) ≤ secs 60 → ∃ out, r = inl out)).
Proof.
  apply (connect_never_stuck Windows (secs 5) 6 0 forever Silent endless_attempt (λ _, Silent) [secs 5; secs 6; secs 40] (secs 60)).
  - by intros e [= <-].
  - done.
  - vm_compute; done.
  - repeat constructor; vm_compute; done.
  - vm_compute; done.
  - reflexivity.
Defined.

Lemma connect_follows_plan_witness : ∃ res k a', polls Linux slow_answers ([secs 5; secs 7] ++ [secs 30]) 0 (slow_attempt Linux) = Some (res, k, a') ∧
  res = inl Connected ∧ settled_at a' = Some (secs 12).
Proof.
  apply (connect_follows_plan Linux (secs 5) 6 0 no_opts Silent (slow_attempt Linux) slow_answers [secs 5; secs 7] (secs 30)).
  - reflexivity.
  - intros e [=].
  - vm_compute; done.
  - repeat constructor; vm_compute; done.
  - vm_compute; done.
  - reflexivity.
Defined.
